(* ===== verification/_CoqProject ===== *)
-Q . S2P
Prelude.v
Order.v
GoStrings.v
GoPath.v
GoFloat.v
Normalizer.v
UnicodeText.v
RestorePlan.v
RestoreExec.v
RateLimiter.v
Scheduler.v
FileAlign.v
PieceBoundary.v
Domain.v
Automation.v
Conditions.v
ConditionMeaning.v
Grouping.v
TrackerHealth.v
TrackerMapping.v
PathUtil.v
Processor.v
Sorting.v
FileSystem.v
LinkPlan.v
LinkTree.v
OrphanPaths.v
OrphanDelete.v
OrphanWalk.v
OrphanScan.v
OrphanRuns.v
TransmissionRpc.v
TorrentFilter.v
TransmissionTorrent.v
TransmissionClient.v
TransmissionSpec.v
TransmissionHttp.v
TransmissionTrace.v
TransmissionSync.v
Reannounce.v
ListingFilter.v
ListingSort.v
ListingCounts.v
ClientState.v
CrossRelease.v
CrossMatch.v
CrossFiles.v
DirScanner.v
DirMatch.v
DirAccept.v
DirWork.v
DirProcess.v
HardlinkIndex.v
CrossBatch.v
