(* ===== verification/Prelude.v ===== *)
(** * qui-Transmission: a verification library

    qui-Transmission is a web service in Go that manages several Transmission
    daemons.  This library models its core logic in Rocq and proves what makes
    it correct.  Every definition follows the Go code it is named after: a Go
    function that returns [(T, error)] returns a [result], state that Go mutates
    through pointers is passed and returned, integers are [Z] with their
    wrap-around written out ([i64]) where it can occur, floats are IEEE 754
    ([GoFloat]), and strings are sequences of bytes ([GoStrings]).

    ** The program and the files that model it

    All paths are below [src/].

    - [internal/transmissionqbt] makes a daemon look like qBittorrent to the rest
      of the program.  [TransmissionRpc]: the names and values on the wire
      (methods.go).  [Domain], [TransmissionTorrent]: the records of domain.go
      and the conversion of torrents, trackers, files and preferences.
      [TorrentFilter]: filters and the in-place sort of listings (filter.go,
      filter_generated.go).  [TransmissionClient]: the operations, as programs
      over the interface [RpcService]; [TransmissionHttp] implements it over HTTP
      with the session handshake, [TransmissionSpec] states the contract of a
      daemon ([Daemon]) and proves the operations against it,
      [TransmissionTrace] has the requests of a reannouncement.
      [TransmissionSync]: the cached copy of the torrents (sync.go, maindata.go).
    - [internal/qbittorrent] keeps listings and what a client remembers:
      [TrackerHealth], [TrackerMapping], [ListingFilter], [ListingSort],
      [ListingCounts] (sync_manager.go, tracker_statuses.go, filter_types.go),
      [ClientState] (client.go: completions, additions, optimistic states).
    - [internal/backups] plans and executes the restoration of a snapshot:
      [RestorePlan] (restore_plan.go), [RestoreExec] (restore_execute.go, over
      the interface [RestoreBackend]).
    - [internal/services/automations] applies rules to torrents: [Automation] (the
      rules, internal/models/automation.go), [Conditions] (evaluator.go,
      release_fields.go, free_space.go), [ConditionMeaning] (what the conditions
      state, field by field), [Grouping] (grouping.go), [Processor]
      (processor.go), [Sorting] (the order of processing), [HardlinkIndex] (which
      torrents share their files: hardlink_index.go).
    - [internal/services/orphanscan] finds and deletes files of no torrent, on the
      file systems of [FileSystem]: [OrphanPaths] (filemap.go and the ignore
      rules), [OrphanWalk] (walker.go), [OrphanDelete] (delete.go),
      [OrphanScan] and [OrphanRuns] (service.go).
    - [internal/services/jackett] searches indexers: [RateLimiter] and [Scheduler]
      (scheduler.go).
    - [internal/services/reannounce] reannounces torrents without working trackers:
      [Reannounce] (service.go, settings_cache.go and the settings).
    - [internal/services/crossseed] reuses files for other torrents: [CrossRelease]
      (releases, variants, aliases), [CrossMatch] (do two releases match?) and
      [CrossFiles] (do their files?), all of matching.go with
      variant_overrides.go, layout.go; [CrossBatch] (which torrents have another
      with the same content: batch_matching.go, pkg/pathcmp); [FileAlign] (align.go), [PieceBoundary]
      (piece_boundary.go).
    - [internal/services/dirscan] looks for torrents of files on disk: [DirScanner]
      (scanner.go, content_detection.go), [DirMatch] (matching.go), [DirAccept]
      (parsing.go, search.go and the decisions of service.go), [DirWork]
      (progress.go, tv_heuristics.go, work_selection.go), [DirProcess] (the
      phase over the work, service.go).
    - [pkg]: [LinkPlan] (hardlinktree/plan.go), [LinkTree] (hardlinktree/create.go,
      reflinktree), [Normalizer] and [UnicodeText] (stringutils, releases),
      [PathUtil] (pathutil).
    - [Prelude], [Order], [GoStrings], [GoPath], [GoFloat] hold what the components
      share: results, machine integers, orders and sorts, and the parts of Go's
      standard library the program uses.

    The components meet where the code calls across packages: the client feeds
    [Torrent] values to the sync manager, to the automations and to the file map
    of the orphan scan; sorting and grouping evaluate the conditions of the
    rules; the processor's deletions change the projection that later conditions
    read; the walker and the deletion share the map and the ignore rules; the
    directory scan walks the same file systems, decides with the piece check of
    the cross-seeds and parses names by the interface of their releases.

    ** What the theorems show

    - Client: the tag operations refine set operations on the tags of the named
      torrents; a sync serves one consistent snapshot; names and payloads survive
      the translation; the handshake executes a request once; reannouncing is
      bounded and deletes only when asked; listings are sorted; limits are
      rounded as stated.
    - Listings: the filters leave exactly the torrents they should, the counts
      beside a listing are the lengths of the listings they announce, the
      tracker mapping refines a relation, a completion is reported once.
    - Reannounce: in every order of requests and attempts a torrent has one
      attempt at a time, and attempts keep their distance.
    - Restore: a plan has exactly the operations its mode and the two states call
      for, does not depend on the order of maps, and executing a complete plan
      converges; every planned operation is applied, an error or a warning; no file outside the data
      directory is read.
    - Scheduler: invariants of every reachable state of the interleaved critical
      sections (completion, deduplication, the bound of the pool), priorities
      and the wake-up timer; slots of one indexer are spaced.
    - Cross-seed: the match of releases and the kinds of matches of files are
      characterised (those of files for distinct names), a match does not depend on
      which side is searched for when
      both are tagged alike; the sets of cross-seeded torrents that the rules ask
      for, computed through indexes, are those of a comparison of all pairs, where
      releases are only compared when they state the same season, episode or date;
      pairing is sound, the piece check is equivalent to
      its specification.
    - Directory scan: a scan finds each file once; the matching is a greedy, hence
      maximal, pairing; a torrent is accepted exactly when the files are the
      same with evidence or enough of it is there, and, when the piece check is not
      skipped (it is by default), no piece of it mixes what is there with what is
      missing; rows, items and statuses are justified.
    - Link trees: a plan is sound, and making a tree is all or nothing, up to what
      the system refuses to remove, which the error then says.
    - Automations: evaluation is equivalent to the meaning of the tree; every
      deletion comes from a rule whose condition the torrent meets at that point of
      the run, or was asked for before it; tags end as their modes ask; the projected
      space counts shared content once; groupings are partitions; the order of
      processing is unique.  The copies deleted with a torrent have the same
      files and no link that is not a file of a torrent; the scope of a torrent
      is exact, and other instances only narrow it.  This is about file systems
      in which no path leads through a symbolic link and the counts of links are
      right ([links_ok]), and about torrents whose signatures do not collide.
    - Orphan scan: nothing is deleted outside the roots, no file of a torrent whose
      files are known, and nothing ignored when the rules could be loaded; the walk
      reports exactly the units of what it finds, what a scan stores stands for an
      old file of no torrent; at most one deletion runs per instance.

    Where the code deviates from what it means to do, an [Example] runs it on a
    concrete input.

    ** Bounds and fuel

    A tree of conditions is evaluated to the depth the code allows
    ([maxConditionDepth], 20); climbing and adding directories have the length of
    the path as fuel, every step removes a byte; a cycle of the in-place sort
    has the length of the list as fuel, every step marks a position; the wait
    for a rate-limit slot has a theorem on the number of its iterations; runs of
    the scheduler and of the orphan scan are sequences of steps of any length.
    The pages of tracked files are read with one more step than there are rows.
    The share of 80 percent by which file keys match is computed in floats; it
    is compared with integers up to 500 keys, the bound of the theorem on it.

    ** Parameters

    Code that is not in the repository is a parameter, with documented laws where
    a theorem needs them: the Unicode tables ([UnicodeCase], [UnicodeTables],
    [NFC]), regular expressions, number texts and URLs ([Library]), templates
    ([Templates]), the TTL cache of the normalisers ([TTLCache]), the error
    wrapper ([ErrorText]), the JSON decoder into structs ([Decoder]), HTTP servers
    ([HttpServer], [GuardedServer]), the daemon ([Daemon]), the clock and the
    store of the scheduler ([Env]), the mutators of a restore ([RestoreBackend]),
    the parser of release names ([ReleaseParser]), the digest of signatures
    ([Sha256]), the collation and other
    libraries of listings ([ListingLibrary]), the system calls that make links
    and clones ([System] of [LinkTree]), what a symbolic link leads to and the
    days of a calendar (arguments of the directory scan), and the search of one
    item of a directory scan, which asks indexers.  The order of a range loop
    over a map is a parameter too ([MapRange], [KeyRange]), so that a theorem
    holds for every order.  Each has a concrete instance that the witnesses run.

    ** Not modelled

    - The web front end, the HTTP handlers, server-sent events, middleware,
      authentication, the reverse proxy, configuration, logging, metrics,
      licences, updates: input, output and glue.
    - The database layer and the SQL of [internal/models]: only what creating and
      updating an orphan run does is modelled.
    - [internal/qbittorrent]: the pool of clients and the queries over several
      instances, except for the parts named above.
    - The drivers of cross-seeds and of directory scans that search indexers, inject
      torrents and keep runs in SQL (most of the two service.go, inject.go): they
      are sequences of calls of other services; what they decide with is
      modelled.
    - Other services (notifications, arr, metadata, tracker icons, external
      programs): calls of external services.
    - In the modelled parts: Windows branches; symbolic links inside paths; the
      merge of partial sync updates, which the client never receives; data races
      (every critical section is one step); nil and empty slices, which the
      models do not tell apart; hexadecimal floats in option texts. *)

From Stdlib Require Import ZArith Lia.
From stdpp Require Import base numbers list strings gmap sorting.

(** ** Notation scope of the development *)

Declare Scope qui_scope.
Delimit Scope qui_scope with qui.

(** ** Results: Go's [(value, error)] pairs *)

(** A Go function that returns [(T, error)] returns [Ok v] when the error is
    [nil] and [Err msg] otherwise; [msg] is the text of the error. *)
Inductive result (A : Type) : Type :=
| Ok (a : A)
| Err (msg : string).
Arguments Ok {A} a.
Arguments Err {A} msg.

Definition result_bind {A B} (r : result A) (k : A → result B) : result B :=
  match r with Ok a => k a | Err e => Err e end.

Notation "'let!' x ':=' r 'in' k" := (result_bind r (λ x, k))
  (at level 10, x pattern, r at level 100, k at level 200,
   format "'let!'  x  ':='  r  'in' '//' k") : qui_scope.

Definition is_ok {A} (r : result A) : bool :=
  match r with Ok _ => true | Err _ => false end.

Lemma result_bind_ok {A B} (r : result A) (k : A → result B) b :
  result_bind r k = Ok b ↔ ∃ a, r = Ok a ∧ k a = Ok b.
Proof.
  destruct r as [a|e]; simpl; split; [eauto| |done|]; by intros (? & [= ->] & ?).
Qed.

(** ** Tactics *)

(** Case analysis on every [match] and [decide] of the goal and hypotheses,
    closing the branches whose equations are contradictory. *)
Ltac go_cases :=
  repeat (first [case_match | case_decide]); simplify_eq/=; try done.

(** Destructs the booleans a hypothesis equates to [true] or [false]. *)
Ltac bool_hyps :=
  repeat match goal with
  | H : bool_decide _ = true |- _ => apply bool_decide_eq_true in H
  | H : bool_decide _ = false |- _ => apply bool_decide_eq_false in H
  | H : andb _ _ = true |- _ => apply andb_true_iff in H; destruct H
  | H : orb _ _ = false |- _ => apply orb_false_iff in H; destruct H
  | H : negb _ = true |- _ => apply negb_true_iff in H
  | H : negb _ = false |- _ => apply negb_false_iff in H
  end.

(** ** Durations, in nanoseconds *)

Definition Millisecond : Z := 1000000.
Definition Second : Z := 1000000000.

(** ** Machine integers *)

(** [i64 z] is the value a Go [int64] (or [int] on the 64-bit targets the
    project builds for) holds after an operation whose exact result is [z]. *)
Definition max_i64 : Z := 2 ^ 63 - 1.
Definition min_i64 : Z := - 2 ^ 63.
Definition i64 (z : Z) : Z := (z + 2 ^ 63) mod 2 ^ 64 - 2 ^ 63.
Definition in_i64 (z : Z) : Prop := (min_i64 ≤ z ≤ max_i64)%Z.

#[export] Instance in_i64_dec z : Decision (in_i64 z).
Proof. unfold in_i64. apply _. Defined.

Lemma i64_id z : in_i64 z → i64 z = z.
Proof.
  unfold in_i64, i64, min_i64, max_i64. intros H.
  rewrite Z.mod_small; lia.
Qed.

Lemma i64_range z : in_i64 (i64 z).
Proof.
  unfold in_i64, i64, min_i64, max_i64.
  pose proof (Z.mod_pos_bound (z + 2 ^ 63) (2 ^ 64)). lia.
Qed.

Lemma i64_idemp z : i64 (i64 z) = i64 z.
Proof. apply i64_id, i64_range. Qed.

(** ** Lists *)

Section lists.
Context {A B : Type}.

Lemma omap_Permutation (f : A → option B) (l1 l2 : list A) :
  l1 ≡ₚ l2 → omap f l1 ≡ₚ omap f l2.
Proof.
  induction 1 as [|x l1 l2 _ IH|x y l|l1 l2 l3 _ IH1 _ IH2]; simpl.
  - done.
  - destruct (f x); by rewrite ?IH.
  - destruct (f x), (f y); try done. apply Permutation_swap.
  - by etrans.
Qed.

Lemma elem_of_omap (f : A → option B) (l : list A) (y : B) :
  y ∈ omap f l ↔ ∃ x, x ∈ l ∧ f x = Some y.
Proof. apply list_elem_of_omap. Qed.
End lists.

(** Sublist built by [f], all images of [f] pairwise distinct under [key]
    when the inputs are: the argument that Go's sorted slices built by ranging
    over a map are independent of the iteration order. *)
Lemma NoDup_omap_key {A B K : Type} (f : A → option B) (kin : A → K) (kout : B → K)
    (l : list A) :
  (∀ x y, x ∈ l → f x = Some y → kout y = kin x) →
  NoDup (kin <$> l) → NoDup (kout <$> omap f l).
Proof.
  induction l as [|x l IH]; intros Hk Hnd; simpl; [constructor|].
  inversion Hnd as [|?? Hx Hl]; subst.
  assert (NoDup (kout <$> omap f l)) as IH'.
  { apply IH; [|done]. intros ???; apply Hk. by right. }
  destruct (f x) as [y|] eqn:E; [|done].
  simpl. constructor; [|done].
  rewrite (Hk x y) by (try left; done).
  intros Hin. apply Hx.
  apply list_elem_of_fmap in Hin as (y' & Hy' & Hin).
  apply elem_of_omap in Hin as (x' & Hx' & E').
  rewrite Hy', (Hk x' y'); [|by right|done].
  by apply list_elem_of_fmap_2.
Qed.

(** Elements with pairwise distinct keys are determined by their key. *)
Lemma NoDup_key_inj {A K : Type} (key : A → K) (l : list A) (x y : A) :
  NoDup (key <$> l) → x ∈ l → y ∈ l → key x = key y → x = y.
Proof.
  intros Hnd Hx Hy Hk. induction l as [|z l IH]; [by apply elem_of_nil in Hx|].
  inversion Hnd as [|?? Hz Hl]; subst.
  apply elem_of_cons in Hx as [->|Hx]; apply elem_of_cons in Hy as [->|Hy];
    [done|exfalso; apply Hz..|auto].
  - rewrite Hk. by apply list_elem_of_fmap_2.
  - rewrite <- Hk. by apply list_elem_of_fmap_2.
Qed.

(** A Go loop over a slice is a [foldl]; read from the right it is a [foldr]
    over the reversed slice. *)
Lemma foldl_as_foldr {A B : Type} (f : A → B → A) (a : A) (l : list B) :
  foldl f a l = foldr (flip f) a (reverse l).
Proof.
  induction l as [|x l IH] using rev_ind; [done|].
  rewrite foldl_app, reverse_snoc. simpl. by rewrite IH.
Qed.

(** A loop that preserves a property of its accumulator. *)
Lemma foldl_invariant {A B : Type} (P : A → Prop) (f : A → B → A) a l :
  P a → (∀ a b, P a → P (f a b)) → P (foldl f a l).
Proof. intros Ha Hf. revert a Ha. induction l as [|b l IH]; simpl; eauto. Qed.

(** ** Sorting by a string key: [sort.Slice] and [sort.Strings] *)

Section sort_by.
Context {A : Type} (key : A → string).

Definition key_le (a b : A) : Prop := String.le (key a) (key b).

#[export] Instance key_le_dec : RelDecision key_le.
Proof. intros a b. unfold key_le. apply _. Defined.

#[export] Instance key_le_trans : Transitive key_le.
Proof. intros a b c. unfold key_le. apply transitivity. Qed.

#[export] Instance key_le_total : Total key_le.
Proof. intros a b. unfold key_le. apply total, _. Qed.

Definition sort_by (l : list A) : list A := merge_sort key_le l.

Lemma sort_by_perm l : sort_by l ≡ₚ l.
Proof. apply merge_sort_Permutation. Qed.

Lemma sort_by_sorted l : StronglySorted key_le (sort_by l).
Proof. apply StronglySorted_merge_sort; apply _. Qed.

Lemma elem_of_sort_by x l : x ∈ sort_by l ↔ x ∈ l.
Proof. by rewrite sort_by_perm. Qed.

(** When the keys are pairwise distinct the sorted slice does not depend on
    the order the elements were appended in. *)
Lemma sort_by_unique l1 l2 :
  NoDup (key <$> l1) → l1 ≡ₚ l2 → sort_by l1 = sort_by l2.
Proof.
  intros Hnd Hp.
  apply (StronglySorted_unique_strong key_le); [|apply sort_by_sorted..|].
  - intros x1 x2 Hx1 Hx2 H12 H21.
    rewrite elem_of_sort_by in Hx1. rewrite elem_of_sort_by in Hx2. rewrite <- Hp in Hx2.
    assert (key x1 = key x2) as Hk by (unfold key_le in *; by apply (anti_symm String.le)).
    by eapply (NoDup_key_inj key).
  - by rewrite !sort_by_perm.
Qed.
End sort_by.

Definition sort_strings (l : list string) : list string := sort_by id l.

Lemma elem_of_sort_strings x l : x ∈ sort_strings l ↔ x ∈ l.
Proof. apply elem_of_sort_by. Qed.

Lemma sort_strings_perm l1 l2 : l1 ≡ₚ l2 → sort_strings l1 = sort_strings l2.
Proof.
  intros Hp. apply (StronglySorted_unique (key_le id)).
  - apply sort_by_sorted.
  - apply sort_by_sorted.
  - unfold sort_strings. by rewrite !sort_by_perm.
Qed.

(** ** Hints *)

Create HintDb qui.
Create Rewrite HintDb qui.
#[export] Hint Rewrite @elem_of_sort_by @elem_of_sort_strings : qui.
#[export] Hint Resolve i64_range i64_id sort_by_perm sort_by_sorted : qui.

(** ** Ranging over maps *)

(** The order in which the [site]-th range loop visits a map. *)
Record MapRange := {
  range {V : Type} (site : nat) : gmap string V → list (string * V);
  range_perm {V : Type} site (m : gmap string V) : range site m ≡ₚ map_to_list m;
}.

Definition key_order : MapRange := {|
  range V site m := map_to_list m;
  range_perm V site m := Permutation_refl (map_to_list m);
|}.

Definition reverse_order : MapRange := {|
  range V site m := rev (map_to_list m);
  range_perm V site m := Permutation_sym (Permutation_rev (map_to_list m));
|}.

Lemma elem_of_range (r : MapRange) {V} site (m : gmap string V) k v :
  (k, v) ∈ range r site m ↔ m !! k = Some v.
Proof. by rewrite range_perm, elem_of_map_to_list. Qed.

Lemma NoDup_range (r : MapRange) {V} site (m : gmap string V) :
  NoDup ((range r site m).*1).
Proof. rewrite range_perm. apply NoDup_fst_map_to_list. Qed.

(** The same for maps with other keys. *)
Record KeyRange (K : Type) `{Countable K} := {
  key_range {V : Type} : gmap K V → list (K * V);
  key_range_perm {V : Type} (m : gmap K V) : key_range m ≡ₚ map_to_list m;
}.
Arguments key_range {K _ _} r {V} m : rename.
Arguments key_range_perm {K _ _} r {V} m : rename.

Definition list_order (K : Type) `{Countable K} : KeyRange K := {|
  key_range V m := map_to_list m;
  key_range_perm V m := Permutation_refl (map_to_list m);
|}.

Lemma elem_of_key_range {K} `{Countable K} (r : KeyRange K) {V} (m : gmap K V) k v :
  (k, v) ∈ key_range r m ↔ m !! k = Some v.
Proof. by rewrite key_range_perm, elem_of_map_to_list. Qed.

Lemma NoDup_key_range {K} `{Countable K} (r : KeyRange K) {V} (m : gmap K V) : NoDup (key_range r m).*1.
Proof. rewrite key_range_perm. apply NoDup_fst_map_to_list. Qed.

(** ** Filters *)

Lemma filter_ext_in {A} (P Q : A → Prop) `{!∀ x, Decision (P x), !∀ x, Decision (Q x)} (l : list A) :
  (∀ x, x ∈ l → P x ↔ Q x) → filter P l = filter Q l.
Proof.
  induction l as [|x l IH]; intros E; [done|]. rewrite !filter_cons, IH by (intros; apply E; by right).
  pose proof (E x (list_elem_of_here _ _)). repeat case_decide; tauto.
Qed.

Lemma filter_all {A} (P : A → Prop) `{!∀ x, Decision (P x)} (l : list A) : (∀ x, x ∈ l → P x) → filter P l = l.
Proof.
  induction l as [|x l IH]; intros Hl; [done|]. rewrite filter_cons_True by (apply Hl; by left).
  by rewrite IH by (intros; apply Hl; by right).
Qed.

Lemma existsb_elem {A} (f : A → bool) l : existsb f l = true ↔ ∃ x, x ∈ l ∧ f x = true.
Proof. rewrite existsb_exists. by setoid_rewrite list_elem_of_In. Qed.

Lemma elem_of_option_list {A} (x : A) (o : option A) : x ∈ option_list o ↔ o = Some x.
Proof. destruct o; cbn; [rewrite list_elem_of_singleton; naive_solver|]. split; [by intros ?%elem_of_nil|done]. Qed.
