(* ===== verification/Order.v ===== *)
(** * Total orders and [sort.Slice]

    A comparison in three ways with the laws of a total order, the ways to build
    one, and the sort of a slice by a comparison: with such an order the sorted
    slice is unique, so that nothing depends on the algorithm of the library. *)

From Stdlib Require Import ZArith Lia Ascii.
From stdpp Require Import base numbers list strings sorting.
From S2P Require Import Prelude.

(** ** Total orders given by a three-way comparison *)

Class TotalCmp {T} (c : T → T → comparison) : Prop := {
  cmp_opp x y : c y x = CompOpp (c x y);
  cmp_trans x y z : c x y = Lt → c y z = Lt → c x z = Lt;
  cmp_eq_l x y z : c x y = Eq → c x z = c y z;
}.

#[export] Hint Mode TotalCmp - ! : typeclass_instances.

Definition pull_cmp {A B} (f : A → B) (c : B → B → comparison) : A → A → comparison := λ x y, c (f x) (f y).
Definition flip_cmp {A} (c : A → A → comparison) : A → A → comparison := λ x y, c y x.
Definition lex_cmp {A} (c1 c2 : A → A → comparison) : A → A → comparison :=
  λ x y, match c1 x y with Eq => c2 x y | r => r end.

#[export] Typeclasses Opaque pull_cmp flip_cmp lex_cmp.

#[export] Instance pull_total {A B} (f : A → B) c : TotalCmp c → TotalCmp (pull_cmp f c).
Proof.
  intros Hc. split; unfold pull_cmp; intros; [apply cmp_opp|by eapply cmp_trans|by apply cmp_eq_l].
Qed.

Lemma cmp_eq_r {T} (c : T → T → comparison) `{!TotalCmp c} x y z : c x y = Eq → c z x = c z y.
Proof. intros E. by rewrite (cmp_opp x z), (cmp_opp y z), (cmp_eq_l x y z E). Qed.

Lemma cmp_refl {T} (c : T → T → comparison) `{!TotalCmp c} x : c x x = Eq.
Proof. pose proof (cmp_opp (c := c) x x) as E. by destruct (c x x). Qed.

#[export] Instance flip_total {A} (c : A → A → comparison) : TotalCmp c → TotalCmp (flip_cmp c).
Proof.
  intros Hc. split; unfold flip_cmp; intros x y.
  - apply cmp_opp.
  - intros z Hxy Hyz. by eapply cmp_trans.
  - intros z E. symmetry. by apply cmp_eq_r.
Qed.

#[export] Instance lex_total {A} (c1 c2 : A → A → comparison) :
  TotalCmp c1 → TotalCmp c2 → TotalCmp (lex_cmp c1 c2).
Proof.
  intros H1 H2. split; unfold lex_cmp; intros x y.
  - rewrite (cmp_opp (c := c1) x y). destruct (c1 x y); simpl; [apply cmp_opp|done..].
  - intros z Hxy Hyz. destruct (c1 x y) eqn:E1, (c1 y z) eqn:E2; try done.
    + rewrite (cmp_eq_l x y z E1), E2. by eapply cmp_trans.
    + by rewrite (cmp_eq_l x y z E1), E2.
    + by rewrite <- (cmp_eq_r c1 y z x E2), E1.
    + by rewrite (cmp_trans x y z E1 E2).
  - intros z E. destruct (c1 x y) eqn:E1; [|done..].
    rewrite (cmp_eq_l x y z E1). destruct (c1 y z); [by apply cmp_eq_l|done..].
Qed.

#[export] Instance Z_total : TotalCmp Z.compare.
Proof.
  split; intros.
  - apply Z.compare_antisym.
  - rewrite !Z.compare_lt_iff in *. lia.
  - apply Z.compare_eq in H as ->. done.
Qed.

#[export] Instance string_total : TotalCmp String.compare.
Proof.
  assert (∀ x y, String.compare x y = Eq → x = y) as Heq by (intros; by apply String.compare_eq_iff).
  split; intros x y.
  - apply String.compare_antisym.
  - intros z Hxy Hyz. destruct (String.compare x z) eqn:E; [|done|].
    + apply Heq in E as ->. rewrite String.compare_antisym, Hxy in Hyz. done.
    + assert (String.le x y) as H1 by (unfold String.le, String.leb; by rewrite Hxy).
      assert (String.le y z) as H2 by (unfold String.le, String.leb; by rewrite Hyz).
      assert (String.le x z) as H3 by (by etrans). unfold String.le, String.leb in H3. by rewrite E in H3.
  - intros z E. by rewrite (Heq _ _ E).
Qed.

(** ** Sorting a slice *)

(** [sort.Slice], as an insertion sort. *)
Fixpoint insert_by {A} (less : A → A → bool) (x : A) (l : list A) : list A :=
  match l with
  | [] => [x]
  | y :: l' => if less y x then y :: insert_by less x l' else x :: l
  end.
Definition sort_slice {A} (less : A → A → bool) (l : list A) : list A := foldr (insert_by less) [] l.

Lemma StronglySorted_weaken {A} (R R' : A → A → Prop) l :
  (∀ x y, R x y → R' x y) → StronglySorted R l → StronglySorted R' l.
Proof.
  intros HR. induction 1 as [|x l _ IH Hx]; constructor; [done|]. eapply Forall_impl; [exact Hx|]. auto.
Qed.

(** ** Sorting by a total order *)

Section sorting.
Context {A : Type}.

Lemma insert_by_perm (less : A → A → bool) x l : insert_by less x l ≡ₚ x :: l.
Proof.
  induction l as [|y l IH]; simpl; [done|]. destruct (less y x); [|done]. rewrite IH. apply Permutation_swap.
Qed.

Lemma sort_slice_perm (less : A → A → bool) l : sort_slice less l ≡ₚ l.
Proof. induction l as [|x l IH]; simpl; [done|]. by rewrite insert_by_perm, IH. Qed.

Lemma sort_slice_ext (less less' : A → A → bool) l :
  (∀ x y, x ∈ l → y ∈ l → less x y = less' x y) → sort_slice less l = sort_slice less' l.
Proof.
  induction l as [|x l IH]; intros Hext; [done|]. simpl. rewrite IH by (intros; apply Hext; by right).
  assert (∀ m, (∀ y, y ∈ m → less y x = less' y x) → insert_by less x m = insert_by less' x m) as Hm.
  { induction m as [|y m IHm]; intros Hy; simpl; [done|]. rewrite Hy by (by left).
    destruct (less' y x); [|done]. f_equal. apply IHm. intros. apply Hy. by right. }
  apply Hm. intros y Hy. apply Hext; [|by left]. right. by rewrite sort_slice_perm in Hy.
Qed.

Context (c : A → A → comparison) `{!TotalCmp c}.

Definition cmp_less (x y : A) : bool := match c x y with Lt => true | _ => false end.
(** [y] may follow [x]. *)
Definition cmp_le (x y : A) : Prop := c y x ≠ Lt.

#[local] Instance cmp_le_trans : Transitive cmp_le.
Proof.
  intros x y z Hxy Hyz Hzx. unfold cmp_le in *. destruct (c y x) eqn:E; [|done|].
  - apply Hyz. by rewrite (cmp_eq_r c y x z E).
  - rewrite (cmp_opp x y) in E. destruct (c x y) eqn:E'; try done. apply Hyz. by eapply cmp_trans.
Qed.

Lemma sort_slice_sorted l : StronglySorted cmp_le (sort_slice cmp_less l).
Proof.
  induction l as [|x l IH]; simpl; [constructor|]. induction IH as [|y m Hm IHm Hy]; simpl.
  { repeat constructor. }
  unfold cmp_less at 1. destruct (c y x) eqn:E.
  - constructor; [by constructor|]. constructor; [unfold cmp_le; by rewrite E|].
    eapply Forall_impl; [exact Hy|]. intros z Hz. etrans; [|exact Hz]. unfold cmp_le. by rewrite E.
  - constructor; [exact IHm|]. rewrite insert_by_perm. constructor; [|done].
    unfold cmp_le. rewrite (cmp_opp y x), E. done.
  - constructor; [by constructor|]. constructor; [unfold cmp_le; by rewrite E|].
    eapply Forall_impl; [exact Hy|]. intros z Hz. etrans; [|exact Hz]. unfold cmp_le. by rewrite E.
Qed.

Lemma sorted_unique l1 l2 :
  (∀ x y, x ∈ l1 → y ∈ l1 → c x y = Eq → x = y) → l1 ≡ₚ l2 →
  StronglySorted cmp_le l1 → StronglySorted cmp_le l2 → l1 = l2.
Proof.
  intros Heq Hp H1 H2. apply (StronglySorted_unique_strong cmp_le); [|done..].
  intros x y Hx Hy Hxy Hyx. apply Heq; [done|by rewrite Hp|].
  unfold cmp_le in *. rewrite (cmp_opp x y) in Hxy. by destruct (c x y).
Qed.
End sorting.

