(* ===== verification/GoStrings.v ===== *)
(** * The parts of Go's [strings], [unicode/utf8] and [strconv] the program uses

    A Go string is a sequence of bytes, so it is modelled by Stdlib's [string]
    (one [ascii] per byte).  UTF-8 decoding, [TrimSpace], [Split], [Join],
    [Fields], [FieldsFunc], [ReplaceAll] and [ParseInt] are written out.  The
    Unicode case tables are not: the results of [ToLower], [ToUpper] and
    [EqualFold] on strings with a byte above 127 are fields of the class
    [UnicodeCase], so every theorem of the development holds for any tables. *)

From Stdlib Require Import ZArith Lia Ascii.
From Stdlib Require String.
From stdpp Require Import base numbers list strings gmap.
From S2P Require Import Prelude.

Notation "s1 +++ s2" := (String.append s1 s2)
  (at level 60, right associativity) : qui_scope.

(** ** Bytes and byte lists *)

Definition byte (a : ascii) : Z := Z.of_N (N_of_ascii a).
Definition chr (z : Z) : ascii := ascii_of_N (Z.to_N z).

Abbreviation bytes := (list ascii).
Definition to_bytes (s : string) : bytes := String.list_ascii_of_string s.
Definition of_bytes (l : bytes) : string := String.string_of_list_ascii l.

Lemma of_to_bytes s : of_bytes (to_bytes s) = s.
Proof. apply String.string_of_list_ascii_of_string. Qed.

Lemma to_of_bytes l : to_bytes (of_bytes l) = l.
Proof. apply String.list_ascii_of_string_of_list_ascii. Qed.

#[export] Instance to_bytes_inj : Inj (=) (=) to_bytes.
Proof. intros s1 s2 E. by rewrite <- (of_to_bytes s1), E, of_to_bytes. Qed.

Lemma to_bytes_app s1 s2 :
  to_bytes (String.append s1 s2) = to_bytes s1 ++ to_bytes s2.
Proof.
  induction s1 as [|a s1 IH]; [done|].
  change (a :: to_bytes (String.append s1 s2) = a :: (to_bytes s1 ++ to_bytes s2)).
  by rewrite IH.
Qed.

Lemma byte_range a : (0 ≤ byte a < 256)%Z.
Proof. unfold byte. pose proof (N_ascii_bounded a). lia. Qed.

Lemma chr_byte a : chr (byte a) = a.
Proof. unfold chr, byte. by rewrite N2Z.id, ascii_N_embedding. Qed.

(** ** [strings.TrimSpace] *)

(** The ASCII members of [unicode.White_Space]. *)
Definition is_space1 (a : ascii) : bool :=
  ((9 <=? byte a) && (byte a <=? 13) || (byte a =? 32))%Z.

(** U+0085 and U+00A0, in UTF-8. *)
Definition is_space2 (a b : ascii) : bool :=
  ((byte a =? 0xC2) && ((byte b =? 0x85) || (byte b =? 0xA0)))%Z.

(** U+1680, U+2000 to U+200A, U+2028, U+2029, U+202F, U+205F and U+3000. *)
Definition is_space3 (a b c : ascii) : bool :=
  ((byte a =? 0xE1) && (byte b =? 0x9A) && (byte c =? 0x80)
   || (byte a =? 0xE2) && (byte b =? 0x80)
      && ((0x80 <=? byte c) && (byte c <=? 0x8A)
          || (byte c =? 0xA8) || (byte c =? 0xA9) || (byte c =? 0xAF))
   || (byte a =? 0xE2) && (byte b =? 0x81) && (byte c =? 0x9F)
   || (byte a =? 0xE3) && (byte b =? 0x80) && (byte c =? 0x80))%Z.

Section trim.
Context (sp1 : ascii → bool) (sp2 : ascii → ascii → bool)
        (sp3 : ascii → ascii → ascii → bool).

(** Drops the leading runes that are spaces. *)
Fixpoint trim_front (l : bytes) : bytes :=
  match l with
  | [] => []
  | a :: l1 =>
    if sp1 a then trim_front l1 else
    match l1 with
    | [] => l
    | b :: l2 =>
      if sp2 a b then trim_front l2 else
      match l2 with
      | [] => l
      | c :: l3 => if sp3 a b c then trim_front l3 else l
      end
    end
  end.

(** [l] does not start with a space. *)
Definition no_space_front (l : bytes) : bool :=
  match l with
  | [] => true
  | a :: l1 =>
    negb (sp1 a) &&
    match l1 with
    | [] => true
    | b :: l2 =>
      negb (sp2 a b) && match l2 with [] => true | c :: _ => negb (sp3 a b c) end
    end
  end.

Lemma trim_front_id l : no_space_front l = true → trim_front l = l.
Proof.
  destruct l as [|a [|b [|c l]]]; simpl; intros H; bool_hyps;
    repeat match goal with H : _ = false |- _ => rewrite H; clear H end; done.
Qed.

Lemma trim_front_no_space l : no_space_front (trim_front l) = true.
Proof.
  induction l as [l IH] using (induction_ltof1 _ length).
  destruct l as [|a l1]; [done|]. simpl.
  destruct (sp1 a) eqn:E1; [apply IH; unfold ltof; simpl; lia|].
  destruct l1 as [|b l2]; [simpl; by rewrite E1|].
  destruct (sp2 a b) eqn:E2; [apply IH; unfold ltof; simpl; lia|].
  destruct l2 as [|c l3]; [simpl; by rewrite E1, E2|].
  destruct (sp3 a b c) eqn:E3; [apply IH; unfold ltof; simpl; lia|].
  simpl. by rewrite E1, E2, E3.
Qed.

Lemma trim_front_suffix l : ∃ p, l = p ++ trim_front l.
Proof.
  induction l as [l IH] using (induction_ltof1 _ length).
  destruct l as [|a l1]; [by exists []|]. simpl.
  destruct (sp1 a).
  { destruct (IH l1) as [p Hp]; [unfold ltof; simpl; lia|].
    exists (a :: p). by rewrite Hp at 1. }
  destruct l1 as [|b l2]; [by exists []|].
  destruct (sp2 a b).
  { destruct (IH l2) as [p Hp]; [unfold ltof; simpl; lia|].
    exists (a :: b :: p). by rewrite Hp at 1. }
  destruct l2 as [|c l3]; [by exists []|].
  destruct (sp3 a b c); [|by exists []].
  destruct (IH l3) as [p Hp]; [unfold ltof; simpl; lia|].
  exists (a :: b :: c :: p). by rewrite Hp at 1.
Qed.

Lemma no_space_front_app l1 l2 :
  no_space_front (l1 ++ l2) = true → no_space_front l1 = true.
Proof.
  destruct l1 as [|a [|b [|c l1]]]; simpl; intros H; bool_hyps; try done;
    repeat match goal with H : _ = false |- _ => rewrite H; clear H end; done.
Qed.
End trim.

Definition trim_left_bytes : bytes → bytes := trim_front is_space1 is_space2 is_space3.
Definition trim_right_bytes (l : bytes) : bytes :=
  rev (trim_front is_space1 (λ a b, is_space2 b a) (λ a b c, is_space3 c b a) (rev l)).

Definition TrimSpace (s : string) : string :=
  of_bytes (trim_right_bytes (trim_left_bytes (to_bytes s))).

Lemma TrimSpace_idemp s : TrimSpace (TrimSpace s) = TrimSpace s.
Proof.
  unfold TrimSpace. rewrite to_of_bytes. f_equal.
  set (t := trim_left_bytes (to_bytes s)).
  assert (no_space_front is_space1 is_space2 is_space3 (trim_right_bytes t) = true) as Hl.
  { unfold trim_right_bytes.
    destruct (trim_front_suffix is_space1 (λ a b, is_space2 b a)
                (λ a b c, is_space3 c b a) (rev t)) as [p Hp].
    apply no_space_front_app with (l2 := rev p).
    rewrite <- rev_app_distr, <- Hp, rev_involutive. apply trim_front_no_space. }
  unfold trim_left_bytes at 1. rewrite trim_front_id by done.
  unfold trim_right_bytes at 1. unfold trim_right_bytes at 1.
  rewrite rev_involutive, trim_front_id by apply trim_front_no_space. done.
Qed.

(** ** Case mapping *)

Definition is_upper (a : ascii) : bool := ((65 <=? byte a) && (byte a <=? 90))%Z.
Definition is_lower (a : ascii) : bool := ((97 <=? byte a) && (byte a <=? 122))%Z.
Definition lower_byte (a : ascii) : ascii := if is_upper a then chr (byte a + 32) else a.
Definition upper_byte (a : ascii) : ascii := if is_lower a then chr (byte a - 32) else a.
Definition is_ascii (s : string) : bool := forallb (λ a, byte a <? 128)%Z (to_bytes s).

Definition map_bytes (f : ascii → ascii) (s : string) : string :=
  of_bytes (map f (to_bytes s)).

(** What the Unicode tables say about strings that are not pure ASCII. *)
Class UnicodeCase := {
  uc_lower : string → string;
  uc_upper : string → string;
  uc_fold : string → string → bool;
}.

Section case.
Context `{!UnicodeCase}.

Definition ToLower (s : string) : string :=
  if is_ascii s then map_bytes lower_byte s else uc_lower s.
Definition ToUpper (s : string) : string :=
  if is_ascii s then map_bytes upper_byte s else uc_upper s.
Definition EqualFold (s t : string) : bool :=
  if is_ascii s && is_ascii t
  then bool_decide (map_bytes lower_byte s = map_bytes lower_byte t)
  else uc_fold s t.
End case.

(** Documented facts of the tables: lower casing is idempotent and neither
    creates nor removes leading or trailing white space. *)
Class UnicodeCaseLaws `{!UnicodeCase} : Prop := {
  ToLower_idemp s : ToLower (ToLower s) = ToLower s;
  TrimSpace_ToLower s :
    TrimSpace (ToLower (TrimSpace s)) = ToLower (TrimSpace s);
}.

(** The tables restricted to ASCII letters: the instance the witnesses run. *)
Definition AsciiCase : UnicodeCase := {|
  uc_lower := map_bytes lower_byte;
  uc_upper := map_bytes upper_byte;
  uc_fold := λ s t, bool_decide (map_bytes lower_byte s = map_bytes lower_byte t);
|}.

Lemma lower_byte_idemp a : lower_byte (lower_byte a) = lower_byte a.
Proof. by destruct a as [[][][][][][][][]]. Qed.

Lemma lower_byte_space1 a : is_space1 (lower_byte a) = is_space1 a.
Proof. by destruct a as [[][][][][][][][]]. Qed.

Lemma lower_byte_other a z :
  (z < 65 ∨ 122 < z)%Z → (byte (lower_byte a) =? z)%Z = (byte a =? z)%Z.
Proof.
  intros Hz.
  assert (byte (lower_byte a) = byte a ∨ 65 ≤ byte a ≤ 122 ∧ 65 ≤ byte (lower_byte a) ≤ 122)%Z
    as [->|?] by (destruct a as [[][][][][][][][]]; vm_compute; intuition congruence); [done|].
  destruct (Z.eqb_spec (byte (lower_byte a)) z), (Z.eqb_spec (byte a) z); lia || done.
Qed.

Lemma lower_byte_high a :
  (128 <=? byte a)%Z = true → lower_byte a = a.
Proof. by destruct a as [[][][][][][][][]]. Qed.

Lemma trim_front_map sp1 sp2 sp3 (f : ascii → ascii) l :
  (∀ a, sp1 (f a) = sp1 a) → (∀ a b, sp2 (f a) (f b) = sp2 a b) →
  (∀ a b c, sp3 (f a) (f b) (f c) = sp3 a b c) →
  trim_front sp1 sp2 sp3 (map f l) = map f (trim_front sp1 sp2 sp3 l).
Proof.
  intros H1 H2 H3.
  induction l as [l IH] using (induction_ltof1 _ length).
  destruct l as [|a l1]; [done|]. simpl. rewrite H1.
  destruct (sp1 a); [apply IH; unfold ltof; simpl; lia|].
  destruct l1 as [|b l2]; [done|]. simpl. rewrite H2.
  destruct (sp2 a b); [apply IH; unfold ltof; simpl; lia|].
  destruct l2 as [|c l3]; [done|]. simpl. rewrite H3.
  destruct (sp3 a b c); [apply IH; unfold ltof; simpl; lia|done].
Qed.

Lemma lower_byte_space2 a b : is_space2 (lower_byte a) (lower_byte b) = is_space2 a b.
Proof. unfold is_space2. by rewrite !lower_byte_other by lia. Qed.

Lemma lower_byte_space3 a b c :
  is_space3 (lower_byte a) (lower_byte b) (lower_byte c) = is_space3 a b c.
Proof.
  unfold is_space3. rewrite !lower_byte_other by lia.
  assert ((0x80 <=? byte (lower_byte c)) && (byte (lower_byte c) <=? 0x8A)
          = (0x80 <=? byte c) && (byte c <=? 0x8A))%Z as ->; [|done].
  by destruct c as [[][][][][][][][]].
Qed.

Lemma TrimSpace_map_lower s :
  TrimSpace (map_bytes lower_byte s) = map_bytes lower_byte (TrimSpace s).
Proof.
  unfold TrimSpace, map_bytes, trim_right_bytes, trim_left_bytes.
  rewrite !to_of_bytes. f_equal.
  rewrite (trim_front_map _ _ _ lower_byte)
    by auto using lower_byte_space1, lower_byte_space2, lower_byte_space3.
  rewrite <- map_rev, (trim_front_map _ _ _ lower_byte), map_rev
    by (intros; auto using lower_byte_space1, lower_byte_space2, lower_byte_space3).
  done.
Qed.

Lemma ToLower_ascii_case s : @ToLower AsciiCase s = map_bytes lower_byte s.
Proof. unfold ToLower. simpl. by destruct (is_ascii s). Qed.

Definition AsciiCase_laws : @UnicodeCaseLaws AsciiCase.
Proof.
  split; intros s; rewrite !ToLower_ascii_case.
  - unfold map_bytes. rewrite to_of_bytes, map_map. f_equal.
    apply map_ext, lower_byte_idemp.
  - by rewrite TrimSpace_map_lower, TrimSpace_idemp.
Qed.

(** ** Searching, splitting and joining *)

Definition Contains (s sub : string) : bool :=
  match String.index 0 sub s with Some _ => true | None => false end.
Definition HasPrefix (s p : string) : bool := String.prefix p s.
Definition HasSuffix (s p : string) : bool :=
  String.prefix (of_bytes (rev (to_bytes p))) (of_bytes (rev (to_bytes s))).

(** [strings.Split] with a one-byte separator. *)
Fixpoint split_bytes (sep : ascii) (l : bytes) : list bytes :=
  match l with
  | [] => [[]]
  | a :: l =>
    if bool_decide (a = sep) then [] :: split_bytes sep l
    else match split_bytes sep l with
         | [] => [[a]]
         | p :: ps => (a :: p) :: ps
         end
  end.
Definition Split (s : string) (sep : ascii) : list string :=
  of_bytes <$> split_bytes sep (to_bytes s).

(** [strings.FieldsFunc] for a predicate on ASCII runes: the non-empty pieces
    between separators. *)
Fixpoint fields_bytes (sep : ascii → bool) (l : bytes) : list bytes :=
  match l with
  | [] => []
  | a :: l =>
    if sep a then fields_bytes sep l
    else match l with
         | [] => [[a]]
         | b :: _ =>
           if sep b then [a] :: fields_bytes sep l
           else match fields_bytes sep l with
                | [] => [[a]]
                | p :: ps => (a :: p) :: ps
                end
         end
  end.
Definition FieldsFunc (s : string) (sep : ascii → bool) : list string :=
  of_bytes <$> fields_bytes sep (to_bytes s).

(** [strings.Join]. *)
Definition Join (l : list string) (sep : string) : string := String.concat sep l.

(** [strings.ReplaceAll] of one byte by one byte. *)
Definition ReplaceByte (old new : ascii) (s : string) : string :=
  map_bytes (λ a, if bool_decide (a = old) then new else a) s.

(** [strings.ReplaceAll] for a non-empty [old]: left to right, without overlap.
    [skip] counts the bytes of a match that are still to be dropped. *)
Fixpoint replace_bytes (skip : nat) (old new l : bytes) : bytes :=
  match l with
  | [] => []
  | a :: l' =>
    match skip with
    | S k => replace_bytes k old new l'
    | O =>
      if HasPrefix (of_bytes l) (of_bytes old)
      then new ++ replace_bytes (length old - 1) old new l'
      else a :: replace_bytes O old new l'
    end
  end.
Definition ReplaceAll (s old new : string) : string :=
  of_bytes (replace_bytes O (to_bytes old) (to_bytes new) (to_bytes s)).

(** [strings.LastIndex] of one byte, as the text before and after it. *)
Fixpoint cut_last_bytes (sep : ascii) (l : bytes) : option (bytes * bytes) :=
  match l with
  | [] => None
  | a :: l =>
    match cut_last_bytes sep l with
    | Some (p, q) => Some (a :: p, q)
    | None => if bool_decide (a = sep) then Some ([], l) else None
    end
  end.
Definition CutLast (s : string) (sep : ascii) : option (string * string) :=
  prod_map of_bytes of_bytes <$> cut_last_bytes sep (to_bytes s).

(** [strings.Cut] at the first occurrence of one byte. *)
Fixpoint cut_bytes (sep : ascii) (l : bytes) : option (bytes * bytes) :=
  match l with
  | [] => None
  | a :: l =>
    if bool_decide (a = sep) then Some ([], l)
    else prod_map (cons a) id <$> cut_bytes sep l
  end.
Definition Cut (s : string) (sep : ascii) : option (string * string) :=
  prod_map of_bytes of_bytes <$> cut_bytes sep (to_bytes s).

(** [strings.CutPrefix] *)
Definition CutPrefix (s p : string) : option string :=
  if HasPrefix s p then Some (of_bytes (drop (length (to_bytes p)) (to_bytes s))) else None.

(** [strings.TrimSuffix] *)
Definition TrimSuffix (s p : string) : string :=
  if HasSuffix s p then of_bytes (take (length (to_bytes s) - length (to_bytes p)) (to_bytes s)) else s.

(** [strings.Trim(s, cutset)] and [strings.TrimRight] for a set of bytes. *)
Fixpoint drop_set (cutset : list ascii) (l : bytes) : bytes :=
  match l with
  | a :: l' => if bool_decide (a ∈ cutset) then drop_set cutset l' else l
  | [] => []
  end.
Definition Trim (s : string) (cutset : list ascii) : string :=
  of_bytes (rev (drop_set cutset (rev (drop_set cutset (to_bytes s))))).
Definition TrimRight (s : string) (cutset : list ascii) : string :=
  of_bytes (rev (drop_set cutset (rev (to_bytes s)))).

(** [strings.Fields]: the pieces between runs of Unicode spaces; [cur] is the
    piece being read. *)
Definition flush (cur : bytes) : list bytes := match cur with [] => [] | _ => [cur] end.

Fixpoint fields_unicode (cur l : bytes) : list bytes :=
  match l with
  | [] => flush cur
  | a :: l1 =>
    if is_space1 a then flush cur ++ fields_unicode [] l1 else
    match l1 with
    | [] => flush (cur ++ [a])
    | b :: l2 =>
      if is_space2 a b then flush cur ++ fields_unicode [] l2 else
      match l2 with
      | c :: l3 =>
        if is_space3 a b c then flush cur ++ fields_unicode [] l3
        else fields_unicode (cur ++ [a]) l1
      | [] => fields_unicode (cur ++ [a]) l1
      end
    end
  end.
Definition Fields (s : string) : list string := of_bytes <$> fields_unicode [] (to_bytes s).

Example Fields_unicode_ex :
  Fields (String.append "  ab c" (String.append (of_bytes (chr <$> [0xE3; 0x80; 0x80]%Z)) "d ")) = ["ab"; "c"; "d"]%string.
Proof. reflexivity. Qed.

Example ReplaceAll_ex : ReplaceAll "aaa dd+dd+" "dd+" "ddp" = "aaa ddpddp"%string.
Proof. reflexivity. Qed.
Example CutLast_ex : CutLast "a.b.c" "."%char = Some ("a.b", "c")%string.
Proof. reflexivity. Qed.

(** ** [strconv.ParseInt(s, 10, 64)] *)

Definition digit_value (a : ascii) : option Z :=
  if ((48 <=? byte a) && (byte a <=? 57))%Z then Some (byte a - 48)%Z else None.

Fixpoint parse_digits (acc : Z) (l : bytes) : option Z :=
  match l with
  | [] => Some acc
  | a :: l =>
    match digit_value a with
    | Some d => parse_digits (10 * acc + d) l
    | None => None
    end
  end.

(** The value [ParseInt] returns with its error flag: on a syntax error the
    value is 0, out of range it is the nearest [int64]. *)
Definition parse_signed (neg : bool) (l : bytes) : Z * bool :=
  match l with
  | [] => (0%Z, false)
  | _ =>
    match parse_digits 0 l with
    | None => (0%Z, false)
    | Some v =>
      let v := if neg then (- v)%Z else v in
      if (v >? max_i64)%Z then (max_i64, false)
      else if (v <? min_i64)%Z then (min_i64, false)
      else (v, true)
    end
  end.

Definition ParseInt (s : string) : Z * bool :=
  match to_bytes s with
  | [] => (0%Z, false)
  | a :: l =>
    if bool_decide (a = "+"%char) then parse_signed false l
    else if bool_decide (a = "-"%char) then parse_signed true l
    else parse_signed false (a :: l)
  end.

Lemma parse_signed_range neg l : in_i64 (parse_signed neg l).1.
Proof.
  unfold parse_signed, in_i64. destruct l; [done|].
  destruct (parse_digits _ _) as [v|]; [|done]. cbv zeta.
  destruct (Z.gtb_spec (if neg then (- v)%Z else v) max_i64); [done|].
  destruct (Z.ltb_spec (if neg then (- v)%Z else v) min_i64); [done|]. simpl. lia.
Qed.

Lemma ParseInt_range s : in_i64 (ParseInt s).1.
Proof.
  unfold ParseInt. destruct (to_bytes s); [done|].
  repeat case_bool_decide; apply parse_signed_range.
Qed.

Example ParseInt_ex1 : ParseInt "-42" = ((-42)%Z, true).
Proof. reflexivity. Qed.
Example ParseInt_ex2 : ParseInt "9223372036854775808" = (max_i64, false).
Proof. reflexivity. Qed.
Example ParseInt_ex3 : ParseInt "12a" = (0%Z, false).
Proof. reflexivity. Qed.
Example TrimSpace_ex : TrimSpace "  a b " = "a b"%string.
Proof. reflexivity. Qed.
Example Split_ex : Split "a,,b" ","%char = ["a"; ""; "b"]%string.
Proof. reflexivity. Qed.
Example Fields_ex :
  FieldsFunc "a|,b,c" (λ a, bool_decide (a = ","%char) || bool_decide (a = "|"%char))
  = ["a"; "b"; "c"]%string.
Proof. reflexivity. Qed.

(** ** Runes: [for _, r := range s] and [strings.Builder.WriteRune] *)

Definition rune_error : Z := 0xFFFD.
Definition is_cont (a : ascii) : bool := ((0x80 <=? byte a) && (byte a <? 0xC0))%Z.

(** The runes a range loop over the string visits; an invalid byte yields
    U+FFFD and consumes one byte, as [utf8.DecodeRune] does. *)
Fixpoint runes (l : bytes) : list Z :=
  match l with
  | [] => []
  | a :: l1 =>
    if (byte a <? 0x80)%Z then byte a :: runes l1 else
    match l1 with
    | [] => [rune_error]
    | b :: l2 =>
      if ((0xC2 <=? byte a) && (byte a <=? 0xDF))%Z && is_cont b
      then ((byte a - 0xC0) * 64 + (byte b - 0x80))%Z :: runes l2 else
      match l2 with
      | [] => rune_error :: runes l1
      | c :: l3 =>
        if ((0xE0 <=? byte a) && (byte a <=? 0xEF))%Z && is_cont b && is_cont c
           && (negb (byte a =? 0xE0) || (0xA0 <=? byte b))%Z
           && (negb (byte a =? 0xED) || (byte b <? 0xA0))%Z
        then ((byte a - 0xE0) * 4096 + (byte b - 0x80) * 64 + (byte c - 0x80))%Z :: runes l3 else
        match l3 with
        | [] => rune_error :: runes l1
        | d :: l4 =>
          if ((0xF0 <=? byte a) && (byte a <=? 0xF4))%Z && is_cont b && is_cont c && is_cont d
             && (negb (byte a =? 0xF0) || (0x90 <=? byte b))%Z
             && (negb (byte a =? 0xF4) || (byte b <? 0x90))%Z
          then ((byte a - 0xF0) * 262144 + (byte b - 0x80) * 4096
                + (byte c - 0x80) * 64 + (byte d - 0x80))%Z :: runes l4
          else rune_error :: runes l1
        end
      end
    end
  end.

Definition encode_rune (r : Z) : bytes :=
  (if (r <? 0) || (0x10FFFF <? r) || ((0xD800 <=? r) && (r <=? 0xDFFF)) then
     [chr 0xEF; chr 0xBF; chr 0xBD]
   else if r <? 0x80 then [chr r]
   else if r <? 0x800 then [chr (0xC0 + r / 64); chr (0x80 + r mod 64)]
   else if r <? 0x10000 then
     [chr (0xE0 + r / 4096); chr (0x80 + r / 64 mod 64); chr (0x80 + r mod 64)]
   else
     [chr (0xF0 + r / 262144); chr (0x80 + r / 4096 mod 64);
      chr (0x80 + r / 64 mod 64); chr (0x80 + r mod 64)])%Z.

Lemma runes_ascii l :
  Forall (λ a, byte a < 128)%Z l → runes l = byte <$> l.
Proof.
  induction 1 as [|a l Ha _ IH]; [done|]. simpl.
  apply Z.ltb_lt in Ha. by rewrite Ha, IH.
Qed.

Lemma encode_rune_ascii a : (byte a < 128)%Z → encode_rune (byte a) = [a].
Proof. by destruct a as [[][][][][][][][]]. Qed.

Example runes_ex : runes (to_bytes "aé€") = [0x61; 0xE9; 0x20AC]%Z.
Proof. reflexivity. Qed.
Example runes_roundtrip_ex :
  of_bytes (concat (encode_rune <$> runes (to_bytes "aé€😀"))) = "aé€😀"%string.
Proof. reflexivity. Qed.
