(* ===== verification/GoPath.v ===== *)
(** * The parts of Go's [path/filepath] the program uses, on Unix

    [Clean], [Join], [Abs], [Base], [Ext] and [Rel] on slash-separated paths,
    by components: [Clean] drops empty and [.] elements and resolves [..]
    lexically.  The current directory, which [Abs] reads, is an argument. *)

From Stdlib Require Import ZArith Lia Ascii.
From Stdlib Require String.
From stdpp Require Import base numbers list strings gmap.
From S2P Require Import Prelude.
From S2P Require Import GoStrings.

Open Scope qui_scope.

Definition sep : ascii := "/"%char.
Definition components (p : string) : list string := Split p sep.
Definition unsplit (cs : list string) : string := Join cs "/".

Definition IsAbs (p : string) : bool := HasPrefix p "/".

(** The stack of [Clean], most recent element first. *)
Fixpoint clean_stack (rooted : bool) (out : list string) (cs : list string) : list string :=
  match cs with
  | [] => out
  | c :: cs =>
    if bool_decide (c = "") || bool_decide (c = ".") then clean_stack rooted out cs
    else if bool_decide (c = "..") then
      match out with
      | [] => clean_stack rooted (if rooted then [] else [".."]) cs
      | top :: rest =>
        if bool_decide (top = "..") then clean_stack rooted (".." :: out) cs
        else clean_stack rooted rest cs
      end
    else clean_stack rooted (c :: out) cs
  end.

Definition clean_components (p : string) : list string :=
  rev (clean_stack (IsAbs p) [] (components p)).

Definition Clean (p : string) : string :=
  if bool_decide (p = "") then "."
  else
    let body := unsplit (clean_components p) in
    if IsAbs p then "/" +++ body
    else if bool_decide (body = "") then "." else body.

Fixpoint PathJoin (elems : list string) : string :=
  match elems with
  | [] => ""
  | e :: es => if bool_decide (e = "") then PathJoin es else Clean (unsplit (e :: es))
  end.

Definition Abs (cwd p : string) : string := if IsAbs p then Clean p else PathJoin [cwd; p].

Definition non_empty_components (p : string) : list string :=
  filter (λ c, c ≠ "") (components p).

Definition Base (p : string) : string :=
  if bool_decide (p = "") then "."
  else match last (non_empty_components p) with Some c => c | None => "/" end.

(** All but the last element, cleaned. *)
Definition Dir (p : string) : string :=
  match CutLast p sep with
  | Some (before, _) => Clean (before +++ "/")
  | None => Clean ""
  end.

(** The extension of a path element: from its last dot, or nothing. *)
Fixpoint ext_bytes (l : bytes) : option bytes :=
  match l with
  | [] => None
  | a :: l =>
    match ext_bytes l with
    | Some e => Some e
    | None => if bool_decide (a = "."%char) then Some (a :: l) else None
    end
  end.
Definition Ext (p : string) : string :=
  match last (components p) with
  | None => ""
  | Some c => match ext_bytes (to_bytes c) with Some e => of_bytes e | None => "" end
  end.

Fixpoint drop_common (b t : list string) : list string * list string :=
  match b, t with
  | x :: b', y :: t' => if bool_decide (x = y) then drop_common b' t' else (b, t)
  | _, _ => (b, t)
  end.

(** [Rel] on two paths; fails when one is rooted and the other is not, or when
    the rest of the base starts with [..]. *)
Definition Rel (basepath targpath : string) : option string :=
  let base := Clean basepath in
  let targ := Clean targpath in
  if bool_decide (targ = base) then Some "."
  else if negb (Bool.eqb (IsAbs base) (IsAbs targ)) then None
  else
    let '(b, t) := drop_common
      (if bool_decide (base = ".") then [] else clean_components base) (clean_components targ) in
    if bool_decide (head b = Some "..") then None
    else Some (unsplit (replicate (length b) ".." ++ t)).

Example Clean_ex1 : Clean "a//b/./c/../d/" = "a/b/d". Proof. reflexivity. Qed.
Example Clean_ex2 : Clean "/../a" = "/a". Proof. reflexivity. Qed.
Example Clean_ex3 : Clean "../../x/.." = "../..". Proof. reflexivity. Qed.
Example Clean_ex4 : Clean "a/.." = ".". Proof. reflexivity. Qed.
Example PathJoin_ex : PathJoin ["/data"; "backups"; "../../etc"] = "/etc". Proof. reflexivity. Qed.
Example Dir_ex1 : Dir "/a/b/c" = "/a/b". Proof. reflexivity. Qed.
Example Dir_ex2 : Dir "/a" = "/". Proof. reflexivity. Qed.
Example Dir_ex3 : Dir "a" = ".". Proof. reflexivity. Qed.
Example Base_ex : Base "a/b/" = "b". Proof. reflexivity. Qed.
Example Ext_ex : Ext "a.b/c.tar.gz" = ".gz". Proof. reflexivity. Qed.
Example Rel_ex : Rel "/a/b" "/a/c/d" = Some "../c/d". Proof. reflexivity. Qed.

(** ** Splitting and joining *)

Lemma split_bytes_no_sep s l : s ∉ l → split_bytes s l = [l].
Proof.
  induction l as [|a l IH]; intros Hn; [done|]. simpl.
  rewrite bool_decide_false by set_solver. by rewrite IH by set_solver.
Qed.

Lemma split_bytes_not_nil s l : split_bytes s l ≠ [].
Proof. destruct l; simpl; repeat case_match; done. Qed.

Lemma split_bytes_app s l1 l2 :
  s ∉ l1 → split_bytes s (l1 ++ s :: l2) = l1 :: split_bytes s l2.
Proof.
  induction l1 as [|a l1 IH]; intros Hn; simpl.
  - by rewrite bool_decide_true.
  - rewrite bool_decide_false by set_solver. by rewrite IH by set_solver.
Qed.

Lemma split_bytes_elem s l p : p ∈ split_bytes s l → s ∉ p.
Proof.
  revert p. induction l as [|a l IH]; intros p; simpl.
  - rewrite list_elem_of_singleton. intros ->. set_solver.
  - case_bool_decide as Ha.
    + rewrite elem_of_cons. intros [->|?]; [set_solver|auto].
    + destruct (split_bytes s l) as [|q qs] eqn:E.
      * rewrite list_elem_of_singleton. intros ->. set_solver.
      * rewrite elem_of_cons. intros [->|Hp].
        -- assert (s ∉ q) by (apply IH; set_solver). set_solver.
        -- apply IH. set_solver.
Qed.

(** A path element: no separator in it. *)
Definition is_element (c : string) : Prop := sep ∉ to_bytes c.

Lemma components_unsplit cs :
  cs ≠ [] → Forall is_element cs → components (unsplit cs) = cs.
Proof.
  unfold components, Split, unsplit, Join. intros Hne Hf.
  induction cs as [|c cs IH]; [done|]. inversion Hf as [|?? Hc Hcs]; subst.
  destruct cs as [|d cs].
  - simpl. rewrite split_bytes_no_sep by done. simpl. by rewrite of_to_bytes.
  - change (String.concat "/" (c :: d :: cs))
      with (String.append c (String "/" (String.concat "/" (d :: cs)))).
    rewrite to_bytes_app. simpl. rewrite split_bytes_app by done. simpl.
    rewrite of_to_bytes. f_equal. by apply IH.
Qed.

Lemma components_elements p : Forall is_element (components p).
Proof.
  apply Forall_fmap, Forall_forall. intros l Hl. unfold is_element. simpl.
  rewrite to_of_bytes. by eapply split_bytes_elem.
Qed.

(** ** Cleaned paths have no dot elements *)

(** What an element of a cleaned rooted path looks like. *)
Definition plain (c : string) : Prop := c ≠ "" ∧ c ≠ "." ∧ c ≠ ".." ∧ is_element c.

Lemma clean_stack_plain out cs :
  Forall is_element cs → Forall plain out → Forall plain (clean_stack true out cs).
Proof.
  revert out. induction cs as [|c cs IH]; intros out Hcs Hout; simpl; [done|].
  inversion Hcs as [|?? Hc Hcs']; subst.
  case_bool_decide; simpl; [by apply IH|].
  case_bool_decide; simpl; [by apply IH|].
  case_bool_decide.
  - destruct out as [|top rest]; [by apply IH|].
    inversion Hout as [|?? Htop Hrest]; subst.
    rewrite bool_decide_false by apply Htop. by apply IH.
  - apply IH; [done|]. constructor; [done|done].
Qed.

Lemma clean_components_plain p : IsAbs p = true → Forall plain (clean_components p).
Proof.
  intros Ha. unfold clean_components. rewrite Ha. apply Forall_rev.
  apply clean_stack_plain; [apply components_elements|constructor].
Qed.

(** Plain elements survive cleaning. *)
Lemma clean_stack_plain_id rooted out cs :
  Forall plain cs → clean_stack rooted out cs = rev cs ++ out.
Proof.
  intros Hcs. revert out. induction Hcs as [|c cs (H1 & H2 & H3 & _) _ IH]; intros out; simpl.
  - done.
  - rewrite !bool_decide_false by done. simpl. by rewrite IH, <- app_assoc.
Qed.

Lemma clean_stack_app rooted out cs1 cs2 :
  clean_stack rooted out (cs1 ++ cs2) = clean_stack rooted (clean_stack rooted out cs1) cs2.
Proof.
  revert out. induction cs1 as [|c cs1 IH]; intros out; simpl; [done|].
  repeat case_bool_decide; simpl; try apply IH.
  destruct out; [apply IH|]. case_bool_decide; apply IH.
Qed.

(** ** Absolute cleaned paths *)

Definition abs_path (cs : list string) : string := "/" +++ unsplit cs.

Lemma string_app_assoc (a b c : string) : (a +++ b) +++ c = a +++ (b +++ c).
Proof.
  induction a as [|x a IH]; [done|].
  change (String x ((a +++ b) +++ c) = String x (a +++ (b +++ c))). by rewrite IH.
Qed.

Lemma string_app_nil_r (a : string) : a +++ "" = a.
Proof. induction a as [|x a IH]; [done|]. change (String x (a +++ "") = String x a). by rewrite IH. Qed.

Lemma IsAbs_slash s : IsAbs ("/" +++ s) = true.
Proof. by destruct s. Qed.

Lemma Clean_abs p : IsAbs p = true → ∃ cs, Forall plain cs ∧ Clean p = abs_path cs.
Proof.
  intros Ha. exists (clean_components p). split; [by apply clean_components_plain|].
  unfold Clean. rewrite Ha. case_bool_decide as E; [|done]. by rewrite E in Ha.
Qed.

Lemma split_bytes_app_gen s l1 l2 :
  split_bytes s (l1 ++ s :: l2) = split_bytes s l1 ++ split_bytes s l2.
Proof.
  induction l1 as [|a l1 IH]; simpl; [by rewrite bool_decide_true|].
  case_bool_decide; [by rewrite IH|]. rewrite IH.
  destruct (split_bytes s l1) eqn:E; [|done]. by apply split_bytes_not_nil in E.
Qed.

Lemma components_app a b : components (a +++ "/" +++ b) = components a ++ components b.
Proof.
  unfold components, Split. rewrite to_bytes_app.
  change (to_bytes ("/" +++ b)) with (sep :: to_bytes b).
  by rewrite split_bytes_app_gen, fmap_app.
Qed.

Lemma plain_elements cs : Forall plain cs → Forall is_element cs.
Proof. intros H. eapply Forall_impl; [exact H|]. by intros c (_ & _ & _ & ?). Qed.

Lemma HasPrefix_app s p : HasPrefix s p = true → ∃ r, s = p +++ r.
Proof.
  unfold HasPrefix. revert s. induction p as [|a p IH]; intros s H; [by exists s|].
  destruct s as [|b s]; [done|]. simpl in H. destruct (ascii_dec a b) as [->|]; [|done].
  destruct (IH _ H) as [r ->]. by exists r.
Qed.

Lemma HasPrefix_of_app p r : HasPrefix (p +++ r) p = true.
Proof.
  unfold HasPrefix. induction p as [|a p IH]; [by destruct r|].
  change ((if ascii_dec a a then String.prefix p (p +++ r) else false) = true).
  destruct (ascii_dec a a); done.
Qed.

(** The path is [base] or lies below it, without any dot element. *)
Definition inside (base p : string) : Prop :=
  p = base ∨ ∃ rest, rest ≠ [] ∧ Forall plain rest ∧ p = base +++ "/" +++ unsplit rest.

Lemma prefix_inside bs cs :
  Forall plain bs → Forall plain cs →
  HasPrefix (abs_path cs) (abs_path bs +++ "/") = true → inside (abs_path bs) (abs_path cs).
Proof.
  intros Hb Hc [r Hr]%HasPrefix_app. right. unfold abs_path in *.
  rewrite !string_app_assoc in Hr.
  assert (unsplit cs = unsplit bs +++ "/" +++ r) as E by (by apply (inj (String.append "/"))).
  pose proof (components_app (unsplit bs) r) as Hca. rewrite <- E in Hca.
  destruct (decide (cs = [])) as [->|Hcs].
  { exfalso. simpl in E. by destruct (unsplit bs). }
  rewrite components_unsplit in Hca by auto using plain_elements.
  destruct (decide (bs = [])) as [->|Hbs].
  { exfalso. simpl in Hca. rewrite Hca in Hc. inversion Hc as [|?? Hp]. by destruct Hp. }
  rewrite components_unsplit in Hca by auto using plain_elements.
  exists (components r). rewrite Hca in Hc. apply Forall_app in Hc as [_ Hc].
  split_and!; [|done|].
  - intros Hn. unfold components, Split in Hn. apply fmap_nil_inv in Hn.
    by apply split_bytes_not_nil in Hn.
  - rewrite E. rewrite string_app_assoc. do 3 f_equal.
    unfold components, Split.
    assert (∀ l, unsplit (of_bytes <$> split_bytes sep l) = of_bytes l) as Hu.
    { clear. unfold unsplit, Join. induction l as [|a l IH]; [done|]. simpl.
      case_bool_decide as Ha.
      - subst a. simpl. destruct (split_bytes sep l) eqn:El; [by apply split_bytes_not_nil in El|].
        simpl in *. by rewrite IH.
      - destruct (split_bytes sep l) as [|q qs] eqn:El; [by apply split_bytes_not_nil in El|].
        change (of_bytes (a :: l)) with (String a (of_bytes l)). rewrite <- IH. by destruct qs. }
    by rewrite Hu, of_to_bytes.
Qed.

Lemma Abs_plain cwd p : IsAbs cwd = true → ∃ cs, Forall plain cs ∧ Abs cwd p = abs_path cs.
Proof.
  intros Hcwd. unfold Abs. destruct (IsAbs p) eqn:Hp; [by apply Clean_abs|].
  simpl. rewrite bool_decide_false by (by intros ->).
  apply Clean_abs. apply HasPrefix_app in Hcwd as [r ->].
  unfold unsplit, Join. simpl. by destruct r.
Qed.

(** ** Extending absolute paths *)

Lemma unsplit_snoc cs c : cs ≠ [] → unsplit (cs ++ [c]) = unsplit cs +++ ("/" +++ c).
Proof.
  unfold unsplit, Join. induction cs as [|x cs IH]; intros Hne; [done|].
  destruct cs as [|y cs]; [done|].
  change (String.concat "/" ((x :: y :: cs) ++ [c])) with (x +++ ("/" +++ String.concat "/" ((y :: cs) ++ [c]))).
  rewrite IH by done.
  change (String.concat "/" (x :: y :: cs)) with (x +++ ("/" +++ String.concat "/" (y :: cs))).
  by rewrite !string_app_assoc.
Qed.

Lemma unsplit_app cs ds : cs ≠ [] → ds ≠ [] → unsplit (cs ++ ds) = unsplit cs +++ ("/" +++ unsplit ds).
Proof.
  intros Hc Hd. induction ds as [|d ds IH] using rev_ind; [done|].
  destruct (decide (ds = [])) as [->|Hne]; [by apply unsplit_snoc|].
  rewrite app_assoc, unsplit_snoc, IH, unsplit_snoc by (try done; by destruct cs).
  by rewrite !string_app_assoc.
Qed.

Lemma abs_path_app cs ds : cs ≠ [] → ds ≠ [] → abs_path (cs ++ ds) = abs_path cs +++ ("/" +++ unsplit ds).
Proof. intros Hc Hd. unfold abs_path. by rewrite unsplit_app, string_app_assoc. Qed.

Lemma abs_path_IsAbs cs : IsAbs (abs_path cs) = true.
Proof. apply IsAbs_slash. Qed.

Lemma abs_path_not_empty cs : abs_path cs ≠ "".
Proof. done. Qed.

(** The components of an absolute path made of plain names. *)
Lemma clean_components_abs cs : Forall plain cs → clean_components (abs_path cs) = cs.
Proof.
  intros Hcs. unfold clean_components, abs_path. rewrite IsAbs_slash.
  destruct (decide (cs = [])) as [->|Hne]; [done|].
  pose proof (components_app "" (unsplit cs)) as E. rewrite components_unsplit in E by auto using plain_elements.
  change (components ("" +++ "/" +++ unsplit cs)) with (components ("/" +++ unsplit cs)) in E. rewrite E.
  change (components "") with [""]. cbn [app clean_stack]. rewrite bool_decide_true by done. cbn [orb].
  rewrite clean_stack_plain_id by done. by rewrite app_nil_r, rev_involutive.
Qed.

Lemma Clean_abs_path cs : Forall plain cs → Clean (abs_path cs) = abs_path cs.
Proof.
  intros Hcs. unfold Clean. rewrite bool_decide_false by done.
  rewrite clean_components_abs, abs_path_IsAbs by done. done.
Qed.

Lemma abs_path_inj cs ds : Forall plain cs → Forall plain ds → abs_path cs = abs_path ds → cs = ds.
Proof. intros Hc Hd E. by rewrite <- (clean_components_abs cs), E, clean_components_abs. Qed.

Lemma cut_last_snoc s l1 l2 : s ∉ l2 → cut_last_bytes s (l1 ++ s :: l2) = Some (l1, l2).
Proof.
  intros Hn. assert (cut_last_bytes s l2 = None) as E.
  { clear -Hn. induction l2 as [|a l IH]; [done|]. simpl. rewrite IH by set_solver.
    by rewrite bool_decide_false by set_solver. }
  induction l1 as [|a l1 IH]; simpl; [by rewrite E, bool_decide_true|]. by rewrite IH.
Qed.

Lemma Clean_trailing cs : Forall plain cs → Clean (abs_path cs +++ "/") = abs_path cs.
Proof.
  intros Hcs. destruct (decide (cs = [])) as [->|Hne]; [done|].
  unfold Clean. rewrite bool_decide_false by done.
  assert (IsAbs (abs_path cs +++ "/") = true) as Ha by (unfold abs_path; by rewrite string_app_assoc, IsAbs_slash).
  rewrite Ha. unfold clean_components. rewrite Ha.
  pose proof (components_app (abs_path cs) "") as E.
  change (abs_path cs +++ "/" +++ "") with (abs_path cs +++ ("/" +++ "")) in E.
  change ("/" +++ "") with "/" in E. rewrite E, clean_stack_app.
  change (components "") with [""]. cbn [clean_stack]. rewrite bool_decide_true by done. cbn [orb].
  pose proof (clean_components_abs cs Hcs) as E'. unfold clean_components in E'.
  rewrite abs_path_IsAbs in E'. by rewrite E'.
Qed.

Lemma Dir_abs cs c : Forall plain (cs ++ [c]) → Dir (abs_path (cs ++ [c])) = abs_path cs.
Proof.
  intros [Hcs Hc]%Forall_app. inversion Hc as [|?? (_ & _ & _ & Hel) _]; subst.
  unfold Dir, CutLast. destruct (decide (cs = [])) as [->|Hne].
  - change (to_bytes (abs_path ([] ++ [c]))) with (sep :: to_bytes c).
    pose proof (cut_last_snoc sep [] (to_bytes c) Hel) as E. cbn [app] in E. by rewrite E.
  - rewrite abs_path_app by done. unfold unsplit, Join. simpl String.concat.
    rewrite to_bytes_app. change (to_bytes ("/" +++ c)) with (sep :: to_bytes c).
    rewrite cut_last_snoc by done. simpl. rewrite of_to_bytes. by apply Clean_trailing.
Qed.

(** ** [Rel] and containment *)

Lemma unsplit_head c cs : ∃ r, unsplit (c :: cs) = c +++ r.
Proof.
  destruct cs as [|d cs]; [exists ""; by rewrite string_app_nil_r|].
  by exists ("/" +++ unsplit (d :: cs)).
Qed.

Lemma clean_stack_nonempty rooted out cs :
  Forall is_element cs → Forall (λ c, c ≠ "" ∧ is_element c) out →
  Forall (λ c, c ≠ "" ∧ is_element c) (clean_stack rooted out cs).
Proof.
  revert out. induction cs as [|c cs IH]; intros out Hcs Hout; simpl; [done|].
  inversion Hcs as [|?? Hc Hcs']; subst. case_bool_decide; simpl; [by apply IH|].
  case_bool_decide; simpl; [by apply IH|].
  assert (".." ≠ "" ∧ is_element "..") as Hdd.
  { split; [done|]. unfold is_element. simpl. rewrite !elem_of_cons, elem_of_nil. intros [?|[?|?]]; done. }
  case_bool_decide.
  - destruct out as [|top rest]; [apply IH; [done|]; destruct rooted; repeat constructor; apply Hdd|].
    inversion Hout; subst. case_bool_decide; [apply IH; [done|]; by constructor|by apply IH].
  - apply IH; [done|]. by constructor.
Qed.

Lemma Clean_relative p : IsAbs p = false → IsAbs (Clean p) = false.
Proof.
  intros Hp. unfold Clean. case_bool_decide; [done|]. rewrite Hp. case_bool_decide as Hb; [done|].
  unfold clean_components in *. rewrite Hp in *.
  pose proof (clean_stack_nonempty false [] (components p) (components_elements p) (Forall_nil_2 _)) as Hf.
  apply Forall_rev in Hf. destruct (rev (clean_stack false [] (components p))) as [|c cs]; [done|].
  inversion Hf as [|?? [Hne Hel] _]; subst. destruct (unsplit_head c cs) as [r ->].
  destruct c as [|a c]; [done|]. apply not_true_iff_false. intros Ha. apply HasPrefix_app in Ha as [r' E].
  apply Hel. change (String a c +++ r) with (String a (c +++ r)) in E. injection E as -> _. by left.
Qed.

(** A relative cleaned path climbs first and then descends. *)
Definition climbing (cs : list string) : Prop := ∃ k ds, cs = repeat ".." k ++ ds ∧ Forall plain ds.

Lemma clean_stack_climbing cs out :
  Forall is_element cs → climbing (rev out) → climbing (rev (clean_stack false out cs)).
Proof.
  revert out. induction cs as [|c cs IH]; intros out Hcs Hout; simpl; [done|].
  inversion Hcs as [|?? Hc Hcs']; subst. case_bool_decide; simpl; [by apply IH|].
  case_bool_decide; simpl; [by apply IH|]. destruct Hout as (k & ds & Eo & Hds).
  case_bool_decide as Hdd.
  - destruct out as [|top rest]; [apply IH; [done|by exists 1, []]|]. cbn [rev] in Eo.
    destruct ds as [|d ds _] using rev_ind.
    + destruct k as [|k]; [by destruct (rev rest)|]. rewrite app_nil_r in Eo.
      replace (repeat ".." (S k)) with (repeat ".." k ++ [".."]) in Eo by (by rewrite <- repeat_cons).
      apply app_inj_tail in Eo as [Eo ->]. rewrite bool_decide_true by done. apply IH; [done|].
      exists (S (S k)), []. split; [|done]. cbn [rev]. rewrite Eo, app_nil_r.
      change (repeat ".." (S (S k))) with (".." :: repeat ".." (S k)).
      by rewrite (repeat_cons (S k)), <- (repeat_cons k).
    + rewrite app_assoc in Eo. apply app_inj_tail in Eo as [Eo ->].
      apply Forall_app in Hds as [Hds Hd]. inversion Hd as [|?? (_ & _ & Hne & _)]; subst.
      rewrite bool_decide_false by done. apply IH; [done|]. by exists k, ds.
  - apply IH; [done|]. exists k, (ds ++ [c]). cbn [rev]. rewrite Eo, app_assoc.
    split; [done|]. apply Forall_app. split; [done|]. by constructor.
Qed.

Lemma clean_stack_fixes k ds :
  Forall plain ds → rev (clean_stack false [] (repeat ".." k ++ ds)) = repeat ".." k ++ ds.
Proof.
  intros Hds. rewrite clean_stack_app.
  assert (∀ out, Forall (λ c, c = "..") out → clean_stack false out (repeat ".." k) = repeat ".." k ++ out) as ->.
  { induction k as [|k IH]; intros out Ho; [done|].
    assert (repeat ".." (S k) ++ out = repeat ".." k ++ ".." :: out) as ->.
    { cbn [repeat]. by rewrite repeat_cons, <- app_assoc. }
    cbn [repeat clean_stack]. rewrite (bool_decide_false (".." = "")), (bool_decide_false (".." = ".")) by done.
    cbn [orb]. rewrite (bool_decide_true (".." = "..")) by done. destruct out as [|top rest].
    - apply IH. by repeat constructor.
    - inversion Ho; subst. rewrite bool_decide_true by done. apply IH. by constructor. }
  - rewrite app_nil_r, clean_stack_plain_id, rev_app_distr, rev_involutive by done.
    f_equal. induction k as [|k IH]; [done|]. cbn [repeat rev]. by rewrite IH, <- repeat_cons.
  - constructor.
Qed.

Lemma Clean_idemp p : Clean (Clean p) = Clean p.
Proof.
  destruct (IsAbs p) eqn:Ha.
  { destruct (Clean_abs p Ha) as (cs & Hcs & ->). by apply Clean_abs_path. }
  pose proof (Clean_relative p Ha) as Ha'.
  destruct (clean_stack_climbing (components p) [] (components_elements p)) as (k & ds & E & Hds).
  { by exists 0%nat, []. }
  assert (clean_components p = repeat ".." k ++ ds) as Ec by (unfold clean_components; by rewrite Ha).
  assert (Clean p = "." ∨ Clean p = unsplit (repeat ".." k ++ ds) ∧ unsplit (repeat ".." k ++ ds) ≠ "") as
    [->|[Eb Hb]].
  { unfold Clean. case_bool_decide; [by left|]. rewrite Ha, Ec. case_bool_decide; [by left|by right]. }
  { done. }
  rewrite Eb in *. unfold Clean. rewrite bool_decide_false, Ha' by done. unfold clean_components.
  rewrite Ha', components_unsplit, clean_stack_fixes; [by rewrite bool_decide_false|done| |].
  - intros E'. by rewrite E' in Hb.
  - apply Forall_app. split; [|by apply plain_elements]. apply Forall_forall. intros c Hc.
    apply list_elem_of_In, repeat_spec in Hc as ->. unfold is_element. simpl.
    rewrite !elem_of_cons, elem_of_nil. naive_solver.
Qed.

Lemma drop_common_spec b t :
  ∃ c, b = c ++ (drop_common b t).1 ∧ t = c ++ (drop_common b t).2.
Proof.
  revert t. induction b as [|x b IH]; intros t; [by exists []|]. destruct t as [|y t]; [by exists []|].
  simpl. case_bool_decide as E; [|by exists []]. subst. destruct (IH t) as (c & E1 & E2).
  exists (y :: c). cbn [app]. split; by f_equal.
Qed.

(** A relative path that does not lead upwards leads below the base. *)
(** Cleaning a rooted path keeps its components. *)
Lemma clean_components_Clean p : IsAbs p = true → clean_components (Clean p) = clean_components p.
Proof.
  intros Hp. assert (Clean p = abs_path (clean_components p)) as ->.
  { unfold Clean. rewrite bool_decide_false by (by intros ->). by rewrite Hp. }
  by apply clean_components_abs, clean_components_plain.
Qed.

(** A relative path that does not climb leads below the base. *)
Lemma Rel_descends root target rel :
  IsAbs target = true → Rel root target = Some rel → rel ≠ ".." → HasPrefix rel "../" = false →
  ∃ r, clean_components target = clean_components root ++ r ∧ (r = [] ↔ Clean target = Clean root).
Proof.
  intros Ht Hrel Hdots Hup. unfold Rel in Hrel. destruct (decide (Clean target = Clean root)) as [Heq|Hne].
  { exists []. rewrite app_nil_r. split; [|done].
    assert (IsAbs root = true) as Hr.
    { destruct (IsAbs root) eqn:Hr; [done|]. apply Clean_relative in Hr. rewrite <- Heq in Hr.
      destruct (Clean_abs target Ht) as (cs & _ & E). by rewrite E, abs_path_IsAbs in Hr. }
    destruct (Clean_abs target Ht) as (cs & Hcs & Ec).
    rewrite <- (clean_components_Clean target Ht), <- (clean_components_Clean root Hr). by rewrite Heq. }
  rewrite bool_decide_false in Hrel by done.
  destruct (IsAbs root) eqn:Hr.
  2: { rewrite Clean_relative in Hrel by done. pose proof (Clean_abs target Ht) as (cs & _ & E).
       rewrite E, abs_path_IsAbs in Hrel. done. }
  destruct (Clean_abs root Hr) as (bs & Hbs & Eb). destruct (Clean_abs target Ht) as (cs & Hcs & Ec).
  rewrite <- (clean_components_Clean target Ht), <- (clean_components_Clean root Hr), Eb, Ec.
  rewrite Eb, Ec in Hne. rewrite Eb, Ec, !abs_path_IsAbs, bool_decide_false in Hrel by done. cbn [Bool.eqb negb] in Hrel.
  rewrite !clean_components_abs in Hrel |- * by done.
  pose proof (drop_common_spec bs cs) as (c & E1 & E2). destruct (drop_common bs cs) as [b t].
  cbn [fst snd] in *. case_bool_decide; [done|]. injection Hrel as <-. destruct b as [|x b].
  - rewrite app_nil_r in E1. subst. exists t. split; [done|]. split; [|done].
    intros ->. rewrite app_nil_r in *. by subst.
  - exfalso. cbn [length replicate app] in Hup, Hdots. destruct (replicate (length b) ".." ++ t) as [|y l]; [done|].
    change (unsplit (".." :: y :: l)) with ("../" +++ unsplit (y :: l)) in Hup. by rewrite HasPrefix_of_app in Hup.
Qed.

Lemma Rel_below root target rel :
  IsAbs target = true → Clean target ≠ Clean root → Rel root target = Some rel → HasPrefix rel ".." = false →
  ∃ r, r ≠ [] ∧ clean_components target = clean_components root ++ r.
Proof.
  intros Ht Hne Hrel Hup. destruct (Rel_descends root target rel) as (r & E & Hr); [done|done|..].
  - intros ->. by cbv in Hup.
  - apply not_true_iff_false. intros [k ->]%HasPrefix_app. by change (HasPrefix (".." +++ ("/" +++ k)) ".." = false) in Hup; rewrite HasPrefix_of_app in Hup.
  - exists r. by rewrite Hr.
Qed.

(** ** Relative paths that only descend *)

Lemma unsplit_not_empty r : r ≠ [] → Forall plain r → unsplit r ≠ "".
Proof.
  intros Hr Hp E. destruct r as [|c r]; [done|]. destruct (unsplit_head c r) as [k Hk]. rewrite E in Hk.
  inversion Hp as [|?? [Hc _]]; subst. by destruct c.
Qed.

Lemma unsplit_relative r : r ≠ [] → Forall plain r → IsAbs (unsplit r) = false.
Proof.
  intros Hr Hp. destruct r as [|c r]; [done|]. inversion Hp as [|?? (Hc & _ & _ & Hel) _]; subst.
  destruct (unsplit_head c r) as [k ->]. destruct c as [|a c]; [done|].
  apply not_true_iff_false. intros Ha. apply HasPrefix_app in Ha as [r' E].
  apply Hel. change (String a c +++ k) with (String a (c +++ k)) in E. injection E as -> _. by left.
Qed.

Lemma clean_components_unsplit r : r ≠ [] → Forall plain r → clean_components (unsplit r) = r.
Proof.
  intros Hr Hp. unfold clean_components.
  rewrite unsplit_relative, components_unsplit by (done || by apply plain_elements).
  by rewrite clean_stack_plain_id, app_nil_r, rev_involutive.
Qed.

Lemma Clean_unsplit r : r ≠ [] → Forall plain r → Clean (unsplit r) = unsplit r.
Proof.
  intros Hr Hp. unfold Clean. pose proof (unsplit_not_empty r Hr Hp).
  rewrite bool_decide_false, unsplit_relative, clean_components_unsplit by done. by rewrite bool_decide_false.
Qed.

Lemma unsplit_trailing r : r ≠ [] → Forall plain r → Clean (unsplit r +++ "/") = unsplit r.
Proof.
  intros Hr Hp. pose proof (unsplit_not_empty r Hr Hp) as Hne. unfold Clean.
  assert (IsAbs (unsplit r +++ "/") = false) as Ha.
  { pose proof (unsplit_relative r Hr Hp) as Ha. destruct (unsplit r) as [|a s]; [done|].
    apply not_true_iff_false. intros Hs. apply HasPrefix_app in Hs as [k E].
    change (String a s +++ "/") with (String a (s +++ "/")) in E. injection E as -> _.
    change (String "/" s) with ("/" +++ s) in Ha. by rewrite IsAbs_slash in Ha. }
  rewrite Ha, bool_decide_false by (destruct (unsplit r); [done|discriminate]).
  unfold clean_components. rewrite Ha. pose proof (components_app (unsplit r) "") as E.
  change (unsplit r +++ "/" +++ "") with (unsplit r +++ ("/" +++ "")) in E.
  change ("/" +++ "") with "/" in E. rewrite E, components_unsplit by (done || by apply plain_elements).
  rewrite clean_stack_app, (clean_stack_plain_id false [] r), app_nil_r by done.
  change (clean_stack false (rev r) (components "")) with (rev r). rewrite rev_involutive.
  by rewrite bool_decide_false.
Qed.

Lemma Dir_unsplit r n : Forall plain (r ++ [n]) →
  Dir (unsplit (r ++ [n])) = if bool_decide (r = []) then "." else unsplit r.
Proof.
  intros [Hr Hn]%Forall_app. inversion Hn as [|?? (_ & _ & _ & Hel) _]; subst. unfold Dir, CutLast.
  case_bool_decide as E.
  - subst. assert (cut_last_bytes sep (to_bytes (unsplit ([] ++ [n]))) = None) as ->; [|done].
    change (unsplit ([] ++ [n])) with n. clear -Hel. unfold is_element in Hel.
    induction (to_bytes n) as [|a l IH]; [done|]. simpl. rewrite IH by set_solver.
    by rewrite bool_decide_false by set_solver.
  - rewrite unsplit_snoc by done. rewrite to_bytes_app.
    change (to_bytes ("/" +++ n)) with (sep :: to_bytes n). rewrite cut_last_snoc by done. simpl.
    rewrite of_to_bytes. by apply unsplit_trailing.
Qed.

Lemma Rel_abs rs r : Forall plain (rs ++ r) →
  Rel (abs_path rs) (abs_path (rs ++ r)) = Some (if bool_decide (r = []) then "." else unsplit r).
Proof.
  intros Hp. pose proof Hp as [Hrs Hr]%Forall_app. unfold Rel. rewrite !Clean_abs_path by done.
  case_bool_decide as E.
  - apply abs_path_inj in E; [|done..]. apply (f_equal length) in E. rewrite length_app in E.
    destruct r; [done|cbn [length] in E; lia].
  - rewrite !abs_path_IsAbs. cbn [Bool.eqb negb]. rewrite bool_decide_false by (intros E'; discriminate E').
    rewrite !clean_components_abs by done.
    assert (drop_common rs (rs ++ r) = ([], r)) as ->.
    { clear. induction rs as [|x rs IH]; [by destruct r|]. simpl. by rewrite bool_decide_true. }
    cbn [head length replicate app]. rewrite !bool_decide_false; [done| |done].
    intros ->. rewrite app_nil_r in E. done.
Qed.

Lemma PathJoin_plain r : r ≠ [] → Forall plain r → PathJoin r = unsplit r.
Proof.
  intros Hr Hp. destruct r as [|c r]; [done|]. cbn [PathJoin].
  rewrite bool_decide_false by (by inversion Hp as [|?? [? _]]). by apply Clean_unsplit.
Qed.

Lemma PathJoin_abs rs r : r ≠ [] → Forall plain (rs ++ r) →
  PathJoin [abs_path rs; unsplit r] = abs_path (rs ++ r).
Proof.
  intros Hr Hp. pose proof Hp as [Hrs Hpr]%Forall_app. cbn [PathJoin].
  rewrite bool_decide_false by apply abs_path_not_empty.
  change (unsplit [abs_path rs; unsplit r]) with (abs_path rs +++ ("/" +++ unsplit r)).
  destruct (decide (rs = [])) as [->|Hne].
  - cbn [app] in *. unfold abs_path at 1. change (unsplit []) with "". rewrite string_app_nil_r.
    pose proof (clean_components_abs r Hp) as E. unfold Clean, clean_components in *.
    rewrite bool_decide_false, IsAbs_slash by done. rewrite abs_path_IsAbs in E.
    assert (clean_stack true [] (components ("/" +++ ("/" +++ unsplit r))) =
            clean_stack true [] (components (abs_path r))) as ->.
    { pose proof (components_app "" ("/" +++ unsplit r)) as E1.
      pose proof (components_app "" (unsplit r)) as E2. unfold abs_path.
      change ("" +++ "/" +++ ("/" +++ unsplit r)) with ("/" +++ ("/" +++ unsplit r)) in E1.
      change ("" +++ "/" +++ unsplit r) with ("/" +++ unsplit r) in E2. by rewrite E1, !E2. }
    by rewrite E.
  - rewrite <- abs_path_app by done. by apply Clean_abs_path.
Qed.

Lemma PathJoin_rel r n : r ≠ [] → Forall plain (r ++ [n]) → PathJoin [unsplit r; n] = unsplit (r ++ [n]).
Proof.
  intros Hr Hp. pose proof Hp as [Hpr _]%Forall_app. cbn [PathJoin].
  rewrite bool_decide_false by (by apply unsplit_not_empty).
  change (unsplit [unsplit r; n]) with (unsplit r +++ ("/" +++ n)). rewrite <- unsplit_snoc by done.
  apply Clean_unsplit; [by destruct r|done].
Qed.

Lemma Base_abs cs n : Forall plain (cs ++ [n]) → Base (abs_path (cs ++ [n])) = n.
Proof.
  intros Hp. unfold Base. rewrite bool_decide_false by apply abs_path_not_empty.
  assert (non_empty_components (abs_path (cs ++ [n])) = cs ++ [n]) as ->; [|by rewrite last_snoc].
  unfold non_empty_components. pose proof (components_app "" (unsplit (cs ++ [n]))) as E.
  change ("" +++ "/" +++ unsplit (cs ++ [n])) with (abs_path (cs ++ [n])) in E. rewrite E.
  rewrite components_unsplit by (first [by apply plain_elements | by destruct cs]).
  change (components "") with [""]. cbn [app]. rewrite filter_cons_False by (by intros Hn).
  clear E. induction Hp as [|c l [Hc _] _ IH]; [done|]. by rewrite filter_cons_True, IH.
Qed.
