(* ===== verification/GoFloat.v ===== *)
(** * Go's [float64], by the standard library's IEEE 754 specification

    A float is a [spec_float] of precision 53 and exponent bound 1024;
    operations round to nearest, ties to even. *)

From Stdlib Require Import ZArith Lia SpecFloat.
From stdpp Require Import base numbers.
From S2P Require Import Prelude.
From S2P Require Import Order.

Definition float64 : Type := spec_float.

(** [float64(z)] for an integer [z]. *)
Definition f64_of_Z (z : Z) : float64 := binary_normalize 53 1024 z 0 false.

(** A positive constant [m * 2^e] in normal form, [2^52 <= m < 2^53]. *)
Definition f64_const (m : positive) (e : Z) : float64 := S754_finite false m e.

Definition f64_zero : float64 := S754_zero false.
Definition f64_one : float64 := f64_of_Z 1.
Definition f64_mul (x y : float64) : float64 := SFmul 53 1024 x y.
Definition f64_div (x y : float64) : float64 := SFdiv 53 1024 x y.
Definition f64_add (x y : float64) : float64 := SFadd 53 1024 x y.
Definition f64_sub (x y : float64) : float64 := SFsub 53 1024 x y.
Definition f64_ltb (x y : float64) : bool := SFltb x y.
Definition f64_leb (x y : float64) : bool := SFleb x y.
Definition f64_eqb (x y : float64) : bool := SFeqb x y.

(** Truncation toward zero; [None] for infinities and NaN. *)
Definition f64_trunc (f : float64) : option Z :=
  match f with
  | S754_zero _ => Some 0%Z
  | S754_finite s m e =>
    let z := if (0 <=? e)%Z then (Zpos m * 2 ^ e)%Z else (Zpos m / 2 ^ (- e))%Z in
    Some (if s then (- z)%Z else z)
  | _ => None
  end.

(** [int64(f)].  The result of converting a value out of range is left to the
    processor by the language; [min_i64] is what amd64 gives. *)
Definition f64_to_i64 (f : float64) : Z :=
  match f64_trunc f with
  | Some z => if andb (min_i64 <=? z)%Z (z <=? max_i64)%Z then z else min_i64
  | None => min_i64
  end.

Example f64_exact : f64_to_i64 (f64_of_Z 60000000000) = 60000000000%Z.
Proof. reflexivity. Qed.
Example f64_rounds : f64_to_i64 (f64_of_Z (2 ^ 53 + 1)) = (2 ^ 53)%Z.
Proof. reflexivity. Qed.

(** ** The order of floats *)

(** Floats that are not NaN, ordered by sign, exponent and mantissa. *)
Definition float_key (f : float64) : Z * Z * Z :=
  match f with
  | S754_nan => (3, 0, 0)%Z
  | S754_infinity s => (if s then -2 else 2, 0, 0)%Z
  | S754_zero _ => (0, 0, 0)%Z
  | S754_finite false m e => (1%Z, e, Zpos m)
  | S754_finite true m e => ((-1)%Z, (- e)%Z, Zneg m)
  end.
Definition key3_cmp : Z * Z * Z → Z * Z * Z → comparison :=
  lex_cmp (lex_cmp (pull_cmp (λ k, k.1.1) Z.compare) (pull_cmp (λ k, k.1.2) Z.compare))
          (pull_cmp snd Z.compare).
Definition float_cmp : float64 → float64 → comparison := pull_cmp float_key key3_cmp.

Definition is_nan (f : float64) : bool := match f with S754_nan => true | _ => false end.

Lemma float_cmp_spec (x y : float64) :
  is_nan x = false → is_nan y = false → SFcompare x y = Some (float_cmp x y).
Proof.
  unfold float_cmp, pull_cmp, key3_cmp, lex_cmp.
  destruct x as [sx|sx| |sx mx ex], y as [sy|sy| |sy my ey]; try done;
    intros _ _; destruct sx; try destruct sy; try done; simpl.
  unfold pull_cmp. cbn [fst snd]. rewrite Z.compare_opp, (Z.compare_antisym ex ey). by destruct (ex ?= ey)%Z.
Qed.

#[export] Instance float_cmp_total : TotalCmp float_cmp.
Proof. unfold float_cmp, key3_cmp. apply _. Qed.
