(* ===== verification/Normalizer.v ===== *)
(** * [pkg/stringutils/normalize.go]: cached string normalisation

    Every package of the program normalises hashes, tags and paths through a
    [Normalizer]: a transformation whose results are kept in a TTL cache.  The
    cache is third-party code ([autobrr/pkg/ttlcache]), so it is an interface:
    a [Get] that may or may not find an entry and a [Set]. *)

From Stdlib Require Import ZArith.
From stdpp Require Import base numbers list strings gmap.
From S2P Require Import Prelude.
From S2P Require Import GoStrings.


(** What the library promises: [Get] returns only values a [Set] of the same
    key stored, and an expired or evicted entry is simply not found.  [lookup]
    is the content of the cache, [get] may also drop entries. *)
Class TTLCache (C K V : Type) := {
  cache_content : C → K → option V;
  cache_empty : C;
  cache_get : C → K → C * option V;
  cache_set : C → K → V → C;
  cache_delete : C → K → C;
}.

Class TTLCacheLaws (C K V : Type) `{!TTLCache C K V} : Prop := {
  cache_empty_content k : cache_content cache_empty k = None;
  cache_get_result c k v : (cache_get c k).2 = Some v → cache_content c k = Some v;
  cache_get_content c k k' v :
    cache_content (cache_get c k).1 k' = Some v → cache_content c k' = Some v;
  cache_set_content c k v k' v' :
    cache_content (cache_set c k v) k' = Some v' →
    (k' = k ∧ v' = v) ∨ cache_content c k' = Some v';
  cache_delete_content c k k' v :
    cache_content (cache_delete c k) k' = Some v → cache_content c k' = Some v;
}.

(** [defaultTransform] *)
Definition defaultTransform `{!UnicodeCase} (s : string) : string :=
  ToLower (TrimSpace s).

(** The value every [normalizeLowerTrim] of the program returns. *)
Definition normalizeLowerTrim `{!UnicodeCase} (value : string) : string :=
  defaultTransform value.

Section normalizer.
Context {C K V : Type} `{!TTLCache C K V, !TTLCacheLaws C K V}.
Context (transform : K → V).

(** [Normalizer.Normalize] *)
Definition Normalize (cache : C) (key : K) : C * V :=
  let '(cache, cached) := cache_get cache key in
  match cached with
  | Some v => (cache, v)
  | None =>
    let transformed := transform key in
    (cache_set cache key transformed, transformed)
  end.

(** [Normalizer.Clear] *)
Definition Clear (cache : C) (key : K) : C := cache_delete cache key.

(** One call of a method of the normaliser. *)
Inductive norm_call : Type :=
| CallNormalize (key : K)
| CallClear (key : K).

Definition run_call (cache : C) (c : norm_call) : C :=
  match c with
  | CallNormalize key => (Normalize cache key).1
  | CallClear key => Clear cache key
  end.

(** Every cached value is the transformation of its key. *)
Definition coherent (cache : C) : Prop :=
  ∀ k v, cache_content cache k = Some v → v = transform k.

Lemma Normalize_coherent cache key :
  coherent cache → coherent (Normalize cache key).1 ∧ (Normalize cache key).2 = transform key.
Proof.
  intros Hc. unfold Normalize.
  pose proof (λ v, cache_get_result cache key v) as Hr.
  pose proof (λ k v, cache_get_content cache key k v) as Hg.
  destruct (cache_get cache key) as [c' [v|]]; simpl in *.
  - split; [|by apply Hc, Hr]. intros k v' ?. by apply Hc, Hg.
  - split; [|done]. intros k v' [[-> ->]|?]%cache_set_content; [done|by apply Hc, Hg].
Qed.

Lemma run_calls_coherent calls :
  coherent (foldl run_call cache_empty calls).
Proof.
  induction calls as [|c calls IH] using rev_ind.
  - intros k v. simpl. by rewrite cache_empty_content.
  - rewrite foldl_app. simpl. destruct c as [key|key]; simpl.
    + by apply Normalize_coherent.
    + intros k v ?%cache_delete_content. by apply IH.
Qed.
End normalizer.

Lemma normalizeLowerTrim_idemp `{!UnicodeCase, !UnicodeCaseLaws} s :
  normalizeLowerTrim (normalizeLowerTrim s) = normalizeLowerTrim s.
Proof.
  unfold normalizeLowerTrim, defaultTransform.
  by rewrite TrimSpace_ToLower, ToLower_idemp.
Qed.

#[export] Hint Rewrite @normalizeLowerTrim_idemp TrimSpace_idemp : qui.

(** A cache that never expires anything: a finite map. *)
#[export] Instance map_cache {K V} `{Countable K} : TTLCache (gmap K V) K V := {|
  cache_content c k := c !! k;
  cache_empty := ∅;
  cache_get c k := (c, c !! k);
  cache_set c k v := <[k := v]> c;
  cache_delete c k := delete k c;
|}.

#[export] Instance map_cache_laws {K V} `{Countable K} : TTLCacheLaws (gmap K V) K V.
Proof.
  split; simpl; try done.
  - intros c k v k' v'. rewrite lookup_insert. case_decide; naive_solver.
  - intros c k k' v. rewrite lookup_delete. case_decide; naive_solver.
Qed.

(** After any sequence of calls of [Normalize] and [Clear] on a fresh
    normaliser, whatever the cache evicted in between, [Normalize] returns
    the transformation of its argument: caching is not observable. *)
Theorem normalize_transparent {C K V} `{!TTLCache C K V, !TTLCacheLaws C K V}
    (transform : K → V) (calls : list norm_call) (key : K) :
  (Normalize transform (foldl (run_call transform) cache_empty calls) key).2 = transform key.
Proof. apply Normalize_coherent, run_calls_coherent. Qed.

Lemma normalize_transparent_witness :
  (Normalize (C := gmap string string) (@defaultTransform AsciiCase)
     (foldl (run_call (@defaultTransform AsciiCase)) cache_empty
        [CallNormalize " ABC "; CallClear "x"; CallNormalize "abc"]) " ABC ").2 = "abc".
Proof.
  rewrite (normalize_transparent (C := gmap string string) (@defaultTransform AsciiCase)).
  reflexivity.
Defined.
