(* ===== verification/UnicodeText.v ===== *)
(** * [pkg/stringutils/unicode.go], [pkg/releases/specifiers.go]: text forms

    The normal forms under which titles, codecs and sources are compared. *)

From Stdlib Require Import ZArith Lia Ascii.
From stdpp Require Import base numbers list strings gmap sorting.
From S2P Require Import Prelude.
From S2P Require Import GoStrings.
From S2P Require Import Normalizer.

Open Scope qui_scope.

(** What the Unicode tables and [golang.org/x/text] provide:
    [transform.String] of NFKD without the nonspacing marks, which may fail,
    and [unicode.IsLetter || unicode.IsDigit]. *)
Class UnicodeTables := {
  nfkd_without_marks : string → option string;
  is_letter_or_digit : Z → bool;
}.

(** The tables restricted to ASCII. *)
Definition AsciiTables : UnicodeTables := {|
  nfkd_without_marks := Some;
  is_letter_or_digit r :=
    ((48 <=? r) && (r <=? 57) || (65 <=? r) && (r <=? 90) || (97 <=? r) && (r <=? 122))%Z |}.

(** The replacements [normalizeUnicodeInner] makes, in order. *)
Definition nordic_replacements : list (string * string) :=
  [("æ", "ae"); ("Æ", "AE"); ("œ", "oe"); ("Œ", "OE"); ("ø", "o"); ("Ø", "O"); ("ß", "ss");
   ("ð", "d"); ("Ð", "D"); ("þ", "th"); ("Þ", "TH")].

Section text.
Context `{!UnicodeCase, !UnicodeTables}.

(** [NormalizeUnicode] is [normalizeUnicodeInner] behind a transparent cache. *)
Definition normalizeUnicodeInner (s : string) : string :=
  let s := foldl (λ s r, ReplaceAll s r.1 r.2) s nordic_replacements in
  match nfkd_without_marks s with Some result => result | None => s end.

(** [normalized]: what [NormalizeForMatching] returns, behind its cache. *)
Definition anime_symbols : list string :=
  ["★"; "☆"; "✩"; "✭"; "✯"; "✰"; "✦"; "✧"; "◆"; "◇"; "■"; "□"; "●"; "○"; "◎"; "♪"; "♫"; "♬"; "♩"; "♡";
   "♥"; "・"; "･"; "·"; "•"].

(** The replacements of [normalized], in order.  The symbols of the replacer
    are distinct runes, so replacing one after the other is the same. *)
Definition matching_replacements : list (string * string) :=
  [("'", ""); ("’", ""); ("‘", ""); ("ʼ", ""); ("`", ""); (":", ""); (",", " "); ("&", " and ");
   ("-", " ")] ++ ((λ sym, (sym, " ")) <$> anime_symbols).

Definition NormalizeForMatching (s : string) : string :=
  let s := ToLower (TrimSpace (normalizeUnicodeInner s)) in
  let s := foldl (λ s r, ReplaceAll s r.1 r.2) s matching_replacements in
  Join (Fields s) " ".

(** ** Specifiers of a release *)

Definition videoCodecAliases : gmap string string :=
  list_to_map [("X264", "AVC"); ("H.264", "AVC"); ("H264", "AVC"); ("AVC", "AVC");
               ("X265", "HEVC"); ("H.265", "HEVC"); ("H265", "HEVC"); ("HEVC", "HEVC")].

Definition NormalizeVideoCodec (codec : string) : string :=
  let upper := ToUpper (TrimSpace codec) in default upper (videoCodecAliases !! upper).

(** The first occurrences of the elements of [l]. *)
Definition keep_first (l : list string) : list string :=
  reverse (foldl (λ acc x, if bool_decide (x ∈ acc) then acc else x :: acc) [] l).

Definition JoinNormalizedCodecSlice (slice : list string) : string :=
  Join (sort_strings (keep_first (NormalizeVideoCodec <$> slice))) " ".

Definition sourceAliases : gmap string string :=
  list_to_map [("WEB-DL", "WEBDL"); ("WEBDL", "WEBDL"); ("WEB-RIP", "WEBRIP");
               ("WEBRIP", "WEBRIP"); ("WEB", "WEB")].

Definition NormalizeSource (source : string) : string :=
  let upper := ToUpper (TrimSpace source) in default upper (sourceAliases !! upper).
End text.
