(* ===== verification/RestorePlan.v ===== *)
(** * [internal/backups/restore_plan.go]: planning a restore

    A backup snapshot and the live state of an instance are compared and the
    difference becomes a plan of category, tag and torrent operations.  Go
    ranges over maps in an unspecified order: each loop of the model takes the
    order from a [MapRange], an oracle that returns some permutation of the
    map's entries, and the theorems hold for every oracle. *)

From Stdlib Require Import ZArith Lia Ascii.
From stdpp Require Import base numbers list strings gmap sorting.
From S2P Require Import Prelude.
From S2P Require Import GoStrings.
From S2P Require Import Normalizer.

Open Scope qui_scope.

(** ** Data *)

Definition RestoreModeIncremental : string := "incremental".
Definition RestoreModeOverwrite : string := "overwrite".
Definition RestoreModeComplete : string := "complete".

Record CategorySpec := MkCategorySpec { cs_Name : string; cs_SavePath : string }.
Record CategoryUpdate := MkCategoryUpdate {
  cu_Name : string; cu_CurrentPath : string; cu_DesiredPath : string }.
Record TagSpec := MkTagSpec { ts_Name : string }.

(** [backups.ManifestItem]; pointers to strings are options. *)
Record ManifestItem := MkManifestItem {
  mi_Hash : string; mi_Name : string; mi_Category : option string;
  mi_SizeBytes : Z; mi_ArchivePath : string;
  mi_InfoHashV1 : option string; mi_InfoHashV2 : option string;
  mi_Tags : list string; mi_TorrentBlob : string }.

(** The dynamic types the interface fields of [DiffChange] hold. *)
Inductive any :=
| AnyString (s : string)
| AnyStrings (l : list string)
| AnyInt (z : Z).

Record DiffChange := MkDiffChange {
  dc_Field : string; dc_Supported : bool; dc_Current : any; dc_Desired : any;
  dc_Message : string }.

Record SnapshotTorrent := MkSnapshotTorrent {
  st_Hash : string; st_Name : string; st_Category : option string;
  st_Tags : list string; st_ArchivePath : string; st_BlobPath : string;
  st_SizeBytes : Z; st_InfoHashV1 : option string; st_InfoHashV2 : option string }.

Record CategorySnapshot := MkCategorySnapshot { csn_SavePath : string }.

Record SnapshotState := MkSnapshotState {
  ss_RunID : Z; ss_InstanceID : Z;
  ss_Categories : gmap string CategorySnapshot;
  ss_Tags : gmap string unit;
  ss_Torrents : gmap string SnapshotTorrent }.

Record LiveCategory := MkLiveCategory { lc_Name : string; lc_SavePath : string }.

Record LiveTorrent := MkLiveTorrent {
  lt_Hash : string; lt_Name : string; lt_Category : string; lt_Tags : list string;
  lt_TrackerURLs : list string; lt_InfoHashV1 : string; lt_InfoHashV2 : string;
  lt_SizeBytes : Z }.

Record LiveState := MkLiveState {
  ls_InstanceID : Z;
  ls_Categories : gmap string LiveCategory;
  ls_Tags : gmap string unit;
  ls_Torrents : gmap string LiveTorrent }.

Record TorrentSpec := MkTorrentSpec { tsp_Manifest : ManifestItem }.
Record TorrentUpdate := MkTorrentUpdate {
  tu_Hash : string; tu_Current : LiveTorrent; tu_Desired : SnapshotTorrent;
  tu_Changes : list DiffChange }.

Record CategoryPlan := MkCategoryPlan {
  cp_Create : list CategorySpec; cp_Update : list CategoryUpdate; cp_Delete : list string }.
Record TagPlan := MkTagPlan { tp_Create : list TagSpec; tp_Delete : list string }.
Record TorrentPlan := MkTorrentPlan {
  trp_Add : list TorrentSpec; trp_Update : list TorrentUpdate; trp_Delete : list string }.
Record RestorePlan := MkRestorePlan {
  rp_Mode : string; rp_RunID : Z; rp_InstanceID : Z;
  rp_Categories : CategoryPlan; rp_Tags : TagPlan; rp_Torrents : TorrentPlan }.

Record RestorePlanOptions := MkRestorePlanOptions { rpo_ExcludeHashes : list string }.

(** [backups.Manifest], the fields the planner reads. *)
Record Manifest := MkManifest {
  mf_InstanceID : Z; mf_Categories : gmap string CategorySnapshot;
  mf_Tags : list string; mf_Items : list ManifestItem }.

(** The fields of [qbt.Torrent], [qbt.Category] and [qbt.TorrentTracker] the
    planner reads. *)
Record QbtCategory := MkQbtCategory { qc_Name : string; qc_SavePath : string }.
Record QbtTorrent := MkQbtTorrent {
  qt_Hash : string; qt_Name : string; qt_Category : string; qt_Tags : string;
  qt_Trackers : list string; qt_InfohashV1 : string; qt_InfohashV2 : string;
  qt_TotalSize : Z }.

(** ** Helpers on strings and slices *)

Definition cloneStringSlice (xs : list string) : list string := xs.

Definition normalizeCategory (category : option string) : string :=
  match category with None => "" | Some c => TrimSpace c end.

Definition normalizeCategoryPtr (value : string) : string := TrimSpace value.

(** A [map[string]struct{}] filled by a loop: blank items are skipped, the
    others are trimmed. *)
Definition toStringSet (items : list string) : gmap string unit :=
  foldl (λ result item,
    let trimmed := TrimSpace item in
    if bool_decide (trimmed = "") then result else <[trimmed := tt]> result) ∅ items.

Definition stringSetsEqual (a b : list string) : bool :=
  let setA := toStringSet a in
  let setB := toStringSet b in
  if negb (bool_decide (size setA = size setB)) then false
  else forallb (λ kv, bool_decide (is_Some (setB !! kv.1))) (map_to_list setA).

(** [splitTags] of internal/backups/service.go. *)
Definition splitTags (raw : string) : list string :=
  if bool_decide (TrimSpace raw = "") then [] else
  let result := filter (λ t, t ≠ "") (TrimSpace <$> Split raw ","%char) in
  if bool_decide (1 < length result) then sort_strings result else result.

(** The loop of [uniqueTrackerURLs]: [seen] and [result] after each tracker. *)
Definition uniqueTrackerURLs (trackers : list string) : list string :=
  let step '(seen, result) tracker :=
    let url := TrimSpace tracker in
    if bool_decide (url = "") then (seen, result)
    else if bool_decide (url ∈ (seen : gset string)) then (seen, result)
    else ({[url]} ∪ seen, result ++ [url]) in
  let '(_, result) := foldl step (∅, []) trackers in
  if bool_decide (1 < length result) then sort_strings result else result.

(** ** Restore modes *)

Definition isValidRestoreMode (mode : string) : bool :=
  bool_decide (mode = RestoreModeIncremental) || bool_decide (mode = RestoreModeOverwrite)
  || bool_decide (mode = RestoreModeComplete).

Section planner.
Context `{!UnicodeCase}.

Definition ParseRestoreMode (value : string) : result string :=
  let mode := normalizeLowerTrim value in
  if bool_decide (mode = "") then Ok RestoreModeIncremental
  else if negb (isValidRestoreMode mode) then Err ("unsupported restore mode: " +++ value)
  else Ok mode.

(** ** Post-processing: excluded hashes *)

(** The [exclude] set both the planner and the executor build. *)
Definition exclude_set (hashes : list string) : gset string :=
  foldl (λ exclude hash,
    let normalized := normalizeLowerTrim hash in
    if bool_decide (normalized = "") then exclude else {[normalized]} ∪ exclude) ∅ hashes.

(** The three in-place filters of [applyRestorePlanOptions]. *)
Definition filterByHash {A} (hash_of : A → string) (exclude : gset string)
    (items : list A) : list A :=
  filter (λ item, normalizeLowerTrim (hash_of item) ∉ exclude) items.

Definition applyRestorePlanOptions (plan : RestorePlan)
    (opts : option RestorePlanOptions) : RestorePlan :=
  match opts with
  | None => plan
  | Some opts =>
    if bool_decide (rpo_ExcludeHashes opts = []) then plan else
    let exclude := exclude_set (rpo_ExcludeHashes opts) in
    if bool_decide (exclude = ∅) then plan else
    let t := rp_Torrents plan in
    MkRestorePlan (rp_Mode plan) (rp_RunID plan) (rp_InstanceID plan)
      (rp_Categories plan) (rp_Tags plan)
      (MkTorrentPlan
         (filterByHash (λ item, mi_Hash (tsp_Manifest item)) exclude (trp_Add t))
         (filterByHash tu_Hash exclude (trp_Update t))
         (filterByHash id exclude (trp_Delete t)))
  end.

(** ** Loading the snapshot and the live state *)

(** The loops of [loadSnapshotState]. *)
Definition snapshot_torrent (torrents : gmap string SnapshotTorrent) (item : ManifestItem)
    : gmap string SnapshotTorrent :=
  let hash := normalizeLowerTrim (mi_Hash item) in
  if bool_decide (hash = "") then torrents else
  <[hash := MkSnapshotTorrent hash (mi_Name item) (mi_Category item) (mi_Tags item)
      (mi_ArchivePath item) (mi_TorrentBlob item) (mi_SizeBytes item)
      (mi_InfoHashV1 item) (mi_InfoHashV2 item)]> torrents.

Definition snapshot_category (cats : gmap string CategorySnapshot)
    (kv : string * CategorySnapshot) : gmap string CategorySnapshot :=
  let trimmedName := TrimSpace kv.1 in
  if bool_decide (trimmedName = "") then cats
  else <[trimmedName := MkCategorySnapshot (TrimSpace (csn_SavePath kv.2))]> cats.

Definition loadSnapshotState (r : MapRange) (runID : Z)
    (loadManifest : Z → result Manifest) : result SnapshotState :=
  let! manifest := loadManifest runID in
  Ok (MkSnapshotState runID (mf_InstanceID manifest)
    (foldl snapshot_category ∅ (range r 0 (mf_Categories manifest)))
    (toStringSet (mf_Tags manifest))
    (foldl snapshot_torrent ∅ (mf_Items manifest))).

Definition live_category (cats : gmap string LiveCategory)
    (kv : string * QbtCategory) : gmap string LiveCategory :=
  let trimmedName := TrimSpace kv.1 in
  if bool_decide (trimmedName = "") then cats
  else <[trimmedName := MkLiveCategory trimmedName (TrimSpace (qc_SavePath kv.2))]> cats.

Definition live_torrent (torrents : gmap string LiveTorrent) (torrent : QbtTorrent)
    : gmap string LiveTorrent :=
  let hash := normalizeLowerTrim (qt_Hash torrent) in
  if bool_decide (hash = "") then torrents else
  <[hash := MkLiveTorrent hash (qt_Name torrent) (TrimSpace (qt_Category torrent))
      (splitTags (qt_Tags torrent)) (uniqueTrackerURLs (qt_Trackers torrent))
      (TrimSpace (qt_InfohashV1 torrent)) (TrimSpace (qt_InfohashV2 torrent))
      (qt_TotalSize torrent)]> torrents.

(** The [backupReader] calls of [loadLiveState], by instance. *)
Record backupReader := MkBackupReader {
  GetCategories : Z → result (gmap string QbtCategory);
  GetTags : Z → result (list string);
  GetAllTorrents : Z → result (list QbtTorrent) }.

Definition wrap_err {A} (prefix : string) (x : result A) : result A :=
  match x with Ok a => Ok a | Err e => Err (prefix +++ e) end.

Definition loadLiveState (r : MapRange) (reader : backupReader) (instanceID : Z)
    : result LiveState :=
  let! categories := wrap_err "load categories: " (GetCategories reader instanceID) in
  let! tags := wrap_err "load tags: " (GetTags reader instanceID) in
  let! torrents := wrap_err "load torrents: " (GetAllTorrents reader instanceID) in
  Ok (MkLiveState instanceID
    (foldl live_category ∅ (range r 1 categories))
    (toStringSet tags)
    (foldl live_torrent ∅ torrents)).

(** ** The category plan *)

(** One iteration of the loop over the snapshot's categories. *)
Definition category_step (allowUpdates : bool) (live : gmap string LiveCategory)
    (plan : CategoryPlan) (kv : string * CategorySnapshot) : CategoryPlan :=
  let trimmedName := TrimSpace kv.1 in
  if bool_decide (trimmedName = "") then plan else
  let desiredPath := TrimSpace (csn_SavePath kv.2) in
  match live !! trimmedName with
  | None =>
    MkCategoryPlan (cp_Create plan ++ [MkCategorySpec trimmedName desiredPath])
      (cp_Update plan) (cp_Delete plan)
  | Some liveCat =>
    if allowUpdates && negb (bool_decide (desiredPath = lc_SavePath liveCat)) then
      MkCategoryPlan (cp_Create plan)
        (cp_Update plan ++ [MkCategoryUpdate trimmedName (lc_SavePath liveCat) desiredPath])
        (cp_Delete plan)
    else plan
  end.

(** One iteration of a loop over the live keys: the names to delete. *)
Definition delete_step {V W} (norm : string → string) (snapshot : gmap string V)
    (acc : list string) (kv : string * W) : list string :=
  let trimmedName := norm kv.1 in
  if bool_decide (trimmedName = "") then acc else
  match snapshot !! trimmedName with
  | Some _ => acc
  | None => acc ++ [trimmedName]
  end.

Definition allow_updates (mode : string) : bool :=
  bool_decide (mode = RestoreModeOverwrite) || bool_decide (mode = RestoreModeComplete).
Definition include_deletes (mode : string) : bool :=
  bool_decide (mode = RestoreModeComplete).

Definition buildCategoryPlan (r : MapRange) (snapshot : gmap string CategorySnapshot)
    (live : gmap string LiveCategory) (mode : string) : CategoryPlan :=
  let plan := foldl (category_step (allow_updates mode) live)
                (MkCategoryPlan [] [] []) (range r 2 snapshot) in
  let deletes := if include_deletes mode
                 then foldl (delete_step TrimSpace snapshot) [] (range r 3 live) else [] in
  MkCategoryPlan (sort_by cs_Name (cp_Create plan)) (sort_by cu_Name (cp_Update plan))
    (sort_strings deletes).

(** ** The tag plan *)

Definition tag_step (live : gmap string unit) (acc : list TagSpec) (kv : string * unit)
    : list TagSpec :=
  let trimmed := TrimSpace kv.1 in
  if bool_decide (trimmed = "") then acc else
  match live !! trimmed with
  | Some _ => acc
  | None => acc ++ [MkTagSpec trimmed]
  end.

Definition buildTagPlan (r : MapRange) (snapshot live : gmap string unit)
    (mode : string) : TagPlan :=
  let creates := foldl (tag_step live) [] (range r 4 snapshot) in
  let deletes := if include_deletes mode
                 then foldl (delete_step TrimSpace snapshot) [] (range r 5 live) else [] in
  MkTagPlan (sort_by ts_Name creates) (sort_strings deletes).

(** ** The torrent plan *)

(** A pointer field copied when its trimmed value is not empty. *)
Definition copy_info_hash (v : option string) : option string :=
  match v with
  | None => None
  | Some h => let infoCopy := TrimSpace h in
              if bool_decide (infoCopy = "") then None else Some infoCopy
  end.

Definition snapshotTorrentToManifestItem (t : SnapshotTorrent) : ManifestItem :=
  MkManifestItem (normalizeLowerTrim (st_Hash t)) (st_Name t)
    (TrimSpace <$> st_Category t) (st_SizeBytes t) (st_ArchivePath t)
    (copy_info_hash (st_InfoHashV1 t)) (copy_info_hash (st_InfoHashV2 t))
    (cloneStringSlice (st_Tags t)) (st_BlobPath t).

Definition infohash_message : string :=
  "infohash values are read-only; verify torrent integrity manually".
Definition size_message : string :=
  "local data size differs; re-verify files or re-download".

Definition infohash_change (field : string) (desired : option string) (current : string)
    : list DiffChange :=
  match desired with
  | None => []
  | Some h =>
    let desiredV := TrimSpace h in
    if negb (bool_decide (desiredV = "")) && negb (bool_decide (desiredV = TrimSpace current))
    then [MkDiffChange field false (AnyString (TrimSpace current)) (AnyString desiredV)
            infohash_message]
    else []
  end.

Definition computeTorrentChanges (snapshot : SnapshotTorrent) (live : LiveTorrent)
    : list DiffChange :=
  let snapshotCategory := normalizeCategory (st_Category snapshot) in
  let liveCategory := normalizeCategoryPtr (lt_Category live) in
  (if negb (bool_decide (snapshotCategory = liveCategory))
   then [MkDiffChange "category" true (AnyString liveCategory) (AnyString snapshotCategory) ""]
   else [])
  ++ (if negb (stringSetsEqual (st_Tags snapshot) (lt_Tags live))
      then [MkDiffChange "tags" true (AnyStrings (cloneStringSlice (lt_Tags live)))
              (AnyStrings (cloneStringSlice (st_Tags snapshot))) ""]
      else [])
  ++ infohash_change "infohash_v1" (st_InfoHashV1 snapshot) (lt_InfoHashV1 live)
  ++ infohash_change "infohash_v2" (st_InfoHashV2 snapshot) (lt_InfoHashV2 live)
  ++ (if (0 <? st_SizeBytes snapshot)%Z
         && negb (bool_decide (st_SizeBytes snapshot = lt_SizeBytes live))
      then [MkDiffChange "sizeBytes" false (AnyInt (lt_SizeBytes live))
              (AnyInt (st_SizeBytes snapshot)) size_message]
      else []).

Definition cloneLiveTorrent (t : LiveTorrent) : LiveTorrent :=
  MkLiveTorrent (lt_Hash t) (lt_Name t) (lt_Category t) (cloneStringSlice (lt_Tags t))
    (cloneStringSlice (lt_TrackerURLs t)) (lt_InfoHashV1 t) (lt_InfoHashV2 t)
    (lt_SizeBytes t).

Definition torrent_step (allowUpdates : bool) (live : gmap string LiveTorrent)
    (plan : TorrentPlan) (kv : string * SnapshotTorrent) : TorrentPlan :=
  let normalizedHash := normalizeLowerTrim kv.1 in
  if bool_decide (normalizedHash = "") then plan else
  match live !! normalizedHash with
  | None =>
    MkTorrentPlan (trp_Add plan ++ [MkTorrentSpec (snapshotTorrentToManifestItem kv.2)])
      (trp_Update plan) (trp_Delete plan)
  | Some liveTorrent =>
    if negb allowUpdates then plan else
    let changes := computeTorrentChanges kv.2 liveTorrent in
    if bool_decide (length changes = 0) then plan else
    MkTorrentPlan (trp_Add plan)
      (trp_Update plan ++
         [MkTorrentUpdate normalizedHash (cloneLiveTorrent liveTorrent) kv.2 changes])
      (trp_Delete plan)
  end.

Definition buildTorrentPlan (r : MapRange) (snapshot : gmap string SnapshotTorrent)
    (live : gmap string LiveTorrent) (mode : string) : result TorrentPlan :=
  let plan := foldl (torrent_step (allow_updates mode) live)
                (MkTorrentPlan [] [] []) (range r 6 snapshot) in
  let deletes := if include_deletes mode
                 then foldl (delete_step normalizeLowerTrim snapshot) [] (range r 7 live)
                 else [] in
  Ok (MkTorrentPlan
        (sort_by (λ s, normalizeLowerTrim (mi_Hash (tsp_Manifest s))) (trp_Add plan))
        (sort_by (λ u, normalizeLowerTrim (tu_Hash u)) (trp_Update plan))
        (sort_strings deletes)).

(** ** The whole plan *)

Definition buildRestorePlan (r : MapRange) (snapshot : option SnapshotState)
    (live : option LiveState) (mode : string) : result RestorePlan :=
  match snapshot, live with
  | None, _ => Err "nil snapshot state"
  | _, None => Err "nil live state"
  | Some snapshot, Some live =>
    let categories := buildCategoryPlan r (ss_Categories snapshot) (ls_Categories live) mode in
    let tags := buildTagPlan r (ss_Tags snapshot) (ls_Tags live) mode in
    let! torrents := buildTorrentPlan r (ss_Torrents snapshot) (ls_Torrents live) mode in
    Ok (MkRestorePlan mode (ss_RunID snapshot) (ss_InstanceID snapshot)
          categories tags torrents)
  end.

(** [Service.PlanRestoreDiff]; [reader] is [None] when the service has no
    sync manager, and [loadManifest] is the store's [LoadManifest]. *)
Definition PlanRestoreDiff (r : MapRange) (loadManifest : Z → result Manifest)
    (reader : option backupReader) (runID : Z) (mode : string)
    (opts : option RestorePlanOptions) : result RestorePlan :=
  match reader with
  | None => Err "sync manager unavailable"
  | Some reader =>
    let mode := if bool_decide (mode = "") then RestoreModeIncremental else mode in
    if negb (isValidRestoreMode mode) then Err ("unsupported restore mode: " +++ mode) else
    let! snapshot := loadSnapshotState r runID loadManifest in
    let! live := loadLiveState r reader (ss_InstanceID snapshot) in
    let! plan := buildRestorePlan r (Some snapshot) (Some live) mode in
    Ok (applyRestorePlanOptions plan opts)
  end.
End planner.

(** ** Well-formed states

    What [loadSnapshotState] and [loadLiveState] establish: every key is
    normalised and not empty, and a torrent's [Hash] field is its key. *)

Definition normal_keys {V} (norm : string → string) (m : gmap string V) : Prop :=
  ∀ k v, m !! k = Some v → norm k = k ∧ k ≠ "".

Record wf_snapshot `{!UnicodeCase} (s : SnapshotState) : Prop := {
  wfs_categories : normal_keys TrimSpace (ss_Categories s);
  wfs_paths k v : ss_Categories s !! k = Some v → TrimSpace (csn_SavePath v) = csn_SavePath v;
  wfs_tags : normal_keys TrimSpace (ss_Tags s);
  wfs_torrents : normal_keys normalizeLowerTrim (ss_Torrents s);
  wfs_hash k t : ss_Torrents s !! k = Some t → st_Hash t = k;
}.

Record wf_live `{!UnicodeCase} (s : LiveState) : Prop := {
  wfl_categories : normal_keys TrimSpace (ls_Categories s);
  wfl_name k c : ls_Categories s !! k = Some c → lc_Name c = k;
  wfl_tags : normal_keys TrimSpace (ls_Tags s);
  wfl_torrents : normal_keys normalizeLowerTrim (ls_Torrents s);
  wfl_hash k t : ls_Torrents s !! k = Some t → lt_Hash t = k;
}.

Lemma normal_keys_empty {V} norm : normal_keys norm (∅ : gmap string V).
Proof. intros k v. by rewrite lookup_empty. Qed.

Lemma normal_keys_insert {V} norm (m : gmap string V) k v :
  norm k = k → k ≠ "" → normal_keys norm m → normal_keys norm (<[k:=v]> m).
Proof.
  intros Hk Hne Hm k' v'. rewrite lookup_insert. case_decide; [naive_solver|apply Hm].
Qed.

Lemma toStringSet_normal items : normal_keys TrimSpace (toStringSet items).
Proof.
  unfold toStringSet.
  apply (foldl_invariant (normal_keys TrimSpace)); [apply normal_keys_empty|].
  intros m item Hm. case_bool_decide; [done|]. apply normal_keys_insert; auto using TrimSpace_idemp.
Qed.

Lemma toStringSet_lookup items k :
  is_Some (toStringSet items !! k) ↔ k ≠ "" ∧ k ∈ TrimSpace <$> items.
Proof.
  unfold toStringSet. induction items as [|x items IH] using rev_ind; simpl.
  - rewrite lookup_empty, elem_of_nil. split; [by intros []|by intros []].
  - rewrite foldl_app, fmap_app, elem_of_app. simpl. rewrite list_elem_of_singleton.
    case_bool_decide as Hx; [rewrite IH; naive_solver|].
    rewrite lookup_insert. case_decide; [naive_solver|]. rewrite IH. naive_solver.
Qed.

(** ** Deletions *)

Definition delete_of {V W} (norm : string → string) (snapshot : gmap string V)
    (kv : string * W) : option string :=
  if bool_decide (norm kv.1 = "") then None
  else match snapshot !! norm kv.1 with Some _ => None | None => Some (norm kv.1) end.

Lemma delete_loop {V W} norm (snapshot : gmap string V) (l : list (string * W)) acc :
  foldl (delete_step norm snapshot) acc l = acc ++ omap (delete_of norm snapshot) l.
Proof.
  revert acc. induction l as [|kv l IH]; intros acc; simpl; [by rewrite app_nil_r|].
  rewrite IH. unfold delete_step, delete_of.
  case_bool_decide; [done|]. destruct (snapshot !! norm kv.1); [done|].
  by rewrite <- app_assoc.
Qed.

Lemma elem_of_deletes {V W} norm (snapshot : gmap string V) (live : gmap string W) r site k :
  normal_keys norm live →
  k ∈ omap (delete_of norm snapshot) (range r site live) ↔
  is_Some (live !! k) ∧ snapshot !! k = None.
Proof.
  intros Hn. rewrite elem_of_omap. unfold delete_of. split.
  - intros ([k' v] & Hin & Hf). apply elem_of_range in Hin.
    destruct (Hn k' v Hin) as [Hk Hne]. simpl in Hf. rewrite Hk in Hf.
    rewrite bool_decide_false in Hf by done.
    destruct (snapshot !! k') eqn:E; simplify_eq. by eauto.
  - intros [[v Hv] Hs]. exists (k, v). rewrite elem_of_range. split; [done|]. simpl.
    destruct (Hn k v Hv) as [-> Hne]. by rewrite bool_decide_false, Hs.
Qed.

(** ** Loops over a snapshot as filters of its entries *)

Definition category_create (live : gmap string LiveCategory) (kv : string * CategorySnapshot)
    : option CategorySpec :=
  if bool_decide (TrimSpace kv.1 = "") then None else
  match live !! TrimSpace kv.1 with
  | None => Some (MkCategorySpec (TrimSpace kv.1) (TrimSpace (csn_SavePath kv.2)))
  | Some _ => None
  end.

Definition category_update (allow : bool) (live : gmap string LiveCategory)
    (kv : string * CategorySnapshot) : option CategoryUpdate :=
  if bool_decide (TrimSpace kv.1 = "") then None else
  match live !! TrimSpace kv.1 with
  | None => None
  | Some c =>
    if allow && negb (bool_decide (TrimSpace (csn_SavePath kv.2) = lc_SavePath c))
    then Some (MkCategoryUpdate (TrimSpace kv.1) (lc_SavePath c) (TrimSpace (csn_SavePath kv.2)))
    else None
  end.

Lemma category_loop allow live l c u d :
  foldl (category_step allow live) (MkCategoryPlan c u d) l =
  MkCategoryPlan (c ++ omap (category_create live) l)
    (u ++ omap (category_update allow live) l) d.
Proof.
  revert c u. induction l as [|kv l IH]; intros c u; simpl; [by rewrite !app_nil_r|].
  unfold category_step, category_create, category_update.
  case_bool_decide; [apply IH|].
  destruct (live !! TrimSpace kv.1); simpl.
  - destruct (allow && _); simpl; rewrite IH; by rewrite <- ?app_assoc.
  - by rewrite IH, <- app_assoc.
Qed.

Definition tag_create (live : gmap string unit) (kv : string * unit) : option TagSpec :=
  if bool_decide (TrimSpace kv.1 = "") then None else
  match live !! TrimSpace kv.1 with
  | None => Some (MkTagSpec (TrimSpace kv.1)) | Some _ => None end.

Lemma tag_loop live l acc :
  foldl (tag_step live) acc l = acc ++ omap (tag_create live) l.
Proof.
  revert acc. induction l as [|kv l IH]; intros acc; simpl; [by rewrite app_nil_r|].
  rewrite IH. unfold tag_step, tag_create.
  case_bool_decide; [done|]. destruct (live !! TrimSpace kv.1); [done|].
  by rewrite <- app_assoc.
Qed.

Section torrent_loop.
Context `{!UnicodeCase}.

Definition torrent_add (live : gmap string LiveTorrent) (kv : string * SnapshotTorrent)
    : option TorrentSpec :=
  if bool_decide (normalizeLowerTrim kv.1 = "") then None else
  match live !! normalizeLowerTrim kv.1 with
  | None => Some (MkTorrentSpec (snapshotTorrentToManifestItem kv.2))
  | Some _ => None
  end.

Definition torrent_update (allow : bool) (live : gmap string LiveTorrent)
    (kv : string * SnapshotTorrent) : option TorrentUpdate :=
  if bool_decide (normalizeLowerTrim kv.1 = "") then None else
  match live !! normalizeLowerTrim kv.1 with
  | None => None
  | Some t =>
    if negb allow then None else
    let changes := computeTorrentChanges kv.2 t in
    if bool_decide (length changes = 0) then None
    else Some (MkTorrentUpdate (normalizeLowerTrim kv.1) (cloneLiveTorrent t) kv.2 changes)
  end.

Lemma torrent_step_eq allow live kv a u d :
  torrent_step allow live (MkTorrentPlan a u d) kv =
  MkTorrentPlan (a ++ option_list (torrent_add live kv))
    (u ++ option_list (torrent_update allow live kv)) d.
Proof.
  unfold torrent_step, torrent_add, torrent_update. simpl.
  case_bool_decide; [by rewrite !app_nil_r|].
  destruct (live !! normalizeLowerTrim kv.1); simpl; [|by rewrite app_nil_r].
  destruct (negb allow); [|case_bool_decide]; by rewrite ?app_nil_r.
Qed.

Lemma torrent_loop allow live l a u d :
  foldl (torrent_step allow live) (MkTorrentPlan a u d) l =
  MkTorrentPlan (a ++ omap (torrent_add live) l) (u ++ omap (torrent_update allow live) l) d.
Proof.
  revert a u. induction l as [|kv l IH]; intros a u; simpl; [by rewrite !app_nil_r|].
  rewrite torrent_step_eq, IH, <- !app_assoc.
  by destruct (torrent_add live kv), (torrent_update allow live kv).
Qed.
End torrent_loop.

(** The plans as sorted filters of the entries of the two maps. *)
Lemma buildCategoryPlan_eq r snapshot live mode :
  buildCategoryPlan r snapshot live mode =
  MkCategoryPlan
    (sort_by cs_Name (omap (category_create live) (range r 2 snapshot)))
    (sort_by cu_Name (omap (category_update (allow_updates mode) live) (range r 2 snapshot)))
    (sort_strings (if include_deletes mode
                   then omap (delete_of TrimSpace snapshot) (range r 3 live) else [])).
Proof.
  unfold buildCategoryPlan. rewrite category_loop. simpl.
  by destruct (include_deletes mode); rewrite ?delete_loop.
Qed.

Lemma buildTagPlan_eq r snapshot live mode :
  buildTagPlan r snapshot live mode =
  MkTagPlan (sort_by ts_Name (omap (tag_create live) (range r 4 snapshot)))
    (sort_strings (if include_deletes mode
                   then omap (delete_of TrimSpace snapshot) (range r 5 live) else [])).
Proof.
  unfold buildTagPlan. rewrite tag_loop. simpl.
  by destruct (include_deletes mode); rewrite ?delete_loop.
Qed.

Lemma buildTorrentPlan_eq `{!UnicodeCase} r snapshot live mode :
  buildTorrentPlan r snapshot live mode =
  Ok (MkTorrentPlan
    (sort_by (λ s, normalizeLowerTrim (mi_Hash (tsp_Manifest s)))
       (omap (torrent_add live) (range r 6 snapshot)))
    (sort_by (λ u, normalizeLowerTrim (tu_Hash u))
       (omap (torrent_update (allow_updates mode) live) (range r 6 snapshot)))
    (sort_strings (if include_deletes mode
                   then omap (delete_of normalizeLowerTrim snapshot) (range r 7 live) else []))).
Proof.
  unfold buildTorrentPlan. rewrite torrent_loop. simpl.
  by destruct (include_deletes mode); rewrite ?delete_loop.
Qed.

(** ** What each list of a plan contains *)

Lemma elem_of_category_create r live snapshot spec :
  normal_keys TrimSpace snapshot →
  spec ∈ omap (category_create live) (range r 2 snapshot) ↔
  live !! cs_Name spec = None ∧
  ∃ snap, snapshot !! cs_Name spec = Some snap ∧ cs_SavePath spec = TrimSpace (csn_SavePath snap).
Proof.
  intros Hn. rewrite elem_of_omap. unfold category_create. split.
  - intros ([k v] & Hin & Hf). apply elem_of_range in Hin.
    destruct (Hn k v Hin) as [Hk Hne]. simpl in Hf.
    rewrite Hk, bool_decide_false in Hf by done.
    destruct (live !! k) eqn:E; simplify_eq/=. eauto.
  - destruct spec as [k p]. simpl. intros (Hl & v & Hv & ->). exists (k, v).
    rewrite elem_of_range. split; [done|]. simpl.
    destruct (Hn k v Hv) as [-> Hne]. by rewrite bool_decide_false, Hl.
Qed.

Lemma elem_of_category_update r allow live snapshot u :
  normal_keys TrimSpace snapshot →
  u ∈ omap (category_update allow live) (range r 2 snapshot) ↔
  allow = true ∧ ∃ snap c, snapshot !! cu_Name u = Some snap ∧ live !! cu_Name u = Some c ∧
    cu_CurrentPath u = lc_SavePath c ∧ cu_DesiredPath u = TrimSpace (csn_SavePath snap) ∧
    cu_DesiredPath u ≠ cu_CurrentPath u.
Proof.
  intros Hn. rewrite elem_of_omap. unfold category_update. split.
  - intros ([k v] & Hin & Hf). apply elem_of_range in Hin.
    destruct (Hn k v Hin) as [Hk Hne]. simpl in Hf.
    rewrite Hk, bool_decide_false in Hf by done.
    destruct (live !! k) as [c|] eqn:E; [|done].
    destruct allow; [|done]. simpl in Hf. case_bool_decide; [done|]. simplify_eq/=. eauto 10.
  - destruct u as [k cp dp]. simpl. intros (-> & v & c & Hv & Hc & -> & -> & Hd).
    exists (k, v). rewrite elem_of_range. split; [done|]. simpl.
    destruct (Hn k v Hv) as [-> Hne]. rewrite bool_decide_false by done. rewrite Hc.
    by rewrite bool_decide_false.
Qed.

Lemma elem_of_tag_create r (live snapshot : gmap string unit) spec :
  normal_keys TrimSpace snapshot →
  spec ∈ omap (tag_create live) (range r 4 snapshot) ↔
  is_Some (snapshot !! ts_Name spec) ∧ live !! ts_Name spec = None.
Proof.
  intros Hn. rewrite elem_of_omap. unfold tag_create. split.
  - intros ([k v] & Hin & Hf). apply elem_of_range in Hin.
    destruct (Hn k v Hin) as [Hk Hne]. simpl in Hf.
    rewrite Hk, bool_decide_false in Hf by done.
    destruct (live !! k) eqn:E; simplify_eq/=. eauto.
  - destruct spec as [k]. simpl. intros [[v Hv] Hl]. exists (k, v).
    rewrite elem_of_range. split; [done|]. simpl.
    destruct (Hn k v Hv) as [-> Hne]. by rewrite bool_decide_false, Hl.
Qed.

Lemma elem_of_if_list {A} (b : bool) (l : list A) x :
  x ∈ (if b then l else []) ↔ b = true ∧ x ∈ l.
Proof. destruct b; [tauto|]. rewrite elem_of_nil. intuition congruence. Qed.

Section torrent_members.
Context `{!UnicodeCase}.

Lemma elem_of_torrent_add r live snapshot spec :
  normal_keys normalizeLowerTrim snapshot →
  spec ∈ omap (torrent_add live) (range r 6 snapshot) ↔
  ∃ k t, snapshot !! k = Some t ∧ live !! k = None ∧
    spec = MkTorrentSpec (snapshotTorrentToManifestItem t).
Proof.
  intros Hn. rewrite elem_of_omap. unfold torrent_add. split.
  - intros ([k v] & Hin & Hf). apply elem_of_range in Hin.
    destruct (Hn k v Hin) as [Hk Hne]. simpl in Hf.
    rewrite Hk, bool_decide_false in Hf by done.
    destruct (live !! k) eqn:E; simplify_eq/=. eauto.
  - intros (k & t & Hk & Hl & ->). exists (k, t).
    rewrite elem_of_range. split; [done|]. simpl.
    destruct (Hn k t Hk) as [-> Hne]. by rewrite bool_decide_false, Hl.
Qed.

Lemma elem_of_torrent_update r allow live snapshot u :
  normal_keys normalizeLowerTrim snapshot →
  u ∈ omap (torrent_update allow live) (range r 6 snapshot) ↔
  allow = true ∧ ∃ t l, snapshot !! tu_Hash u = Some t ∧ live !! tu_Hash u = Some l ∧
    tu_Current u = l ∧ tu_Desired u = t ∧
    tu_Changes u = computeTorrentChanges t l ∧ tu_Changes u ≠ [].
Proof.
  intros Hn. rewrite elem_of_omap. unfold torrent_update. split.
  - intros ([k v] & Hin & Hf). apply elem_of_range in Hin.
    destruct (Hn k v Hin) as [Hk Hne]. simpl in Hf.
    rewrite Hk, bool_decide_false in Hf by done.
    destruct (live !! k) as [c|] eqn:E; [|done].
    destruct allow; [|done]. simpl in Hf. case_bool_decide as Hlen; [done|]. simplify_eq/=.
    split; [done|]. exists v, c. repeat split; try done; [by destruct c|].
    intros Hc. apply Hlen. by rewrite Hc.
  - destruct u as [k cur des ch]. simpl. intros (-> & t & l & Ht & Hl & -> & -> & -> & Hc).
    exists (k, t). rewrite elem_of_range. split; [done|]. simpl.
    destruct (Hn k t Ht) as [-> Hne]. rewrite bool_decide_false by done. rewrite Hl. simpl.
    rewrite bool_decide_false by (intros Hz%length_zero_iff_nil; done). by destruct l.
Qed.
End torrent_members.

(** ** Properties *)

Lemma category_create_key (live : gmap string LiveCategory) kv y :
  category_create live kv = Some y → cs_Name y = TrimSpace kv.1.
Proof.
  unfold category_create. case_bool_decide; [done|].
  by destruct (live !! TrimSpace kv.1); intros; simplify_eq/=.
Qed.

Lemma category_update_key allow (live : gmap string LiveCategory) kv y :
  category_update allow live kv = Some y → cu_Name y = TrimSpace kv.1.
Proof.
  unfold category_update. case_bool_decide; [done|].
  destruct (live !! TrimSpace kv.1); [|done].
  by destruct (allow && _); intros; simplify_eq/=.
Qed.

(** Sorting the filtered entries of a map by their normalised key forgets the
    order of the range loop. *)
Lemma sorted_range_unique {V B} (f : string * V → option B) (kout : B → string)
    (m : gmap string V) r1 r2 site :
  (∀ k v y, m !! k = Some v → f (k, v) = Some y → kout y = k) →
  sort_by kout (omap f (range r1 site m)) = sort_by kout (omap f (range r2 site m)).
Proof.
  intros Hf. apply sort_by_unique.
  - apply (NoDup_omap_key f fst kout); [|apply NoDup_range].
    intros [k v] y Hin%elem_of_range. by apply Hf.
  - apply omap_Permutation. by rewrite !range_perm.
Qed.

Lemma sorted_deletes_unique {V W} norm (snapshot : gmap string V) (live : gmap string W)
    (b : bool) r1 r2 site :
  sort_strings (if b then omap (delete_of norm snapshot) (range r1 site live) else []) =
  sort_strings (if b then omap (delete_of norm snapshot) (range r2 site live) else []).
Proof.
  destruct b; [|done]. apply sort_strings_perm, omap_Permutation. by rewrite !range_perm.
Qed.

(** The plan computed from well-formed states does not depend on the order in
    which Go ranges over the maps. *)
Lemma buildRestorePlan_unique `{!UnicodeCase} (r1 r2 : MapRange)
    (s : SnapshotState) (l : LiveState) (mode : string) :
  wf_snapshot s → 
  buildRestorePlan r1 (Some s) (Some l) mode = buildRestorePlan r2 (Some s) (Some l) mode.
Proof.
  intros [Hc _ Ht Hto Hh]. unfold buildRestorePlan.
  rewrite !buildCategoryPlan_eq, !buildTagPlan_eq, !buildTorrentPlan_eq. simpl.
  rewrite !(sorted_deletes_unique _ _ _ _ r1 r2).
  rewrite !(sorted_range_unique _ _ _ r1 r2); [done|..].
  - intros k v y Hk Hf. unfold torrent_update in Hf. simpl in Hf.
    destruct (Hto k v Hk) as [Hn ?]. rewrite Hn in Hf.
    repeat case_match; simplify_eq/=; done.
  - intros k v y Hk Hf. unfold torrent_add in Hf. simpl in Hf.
    destruct (Hto k v Hk) as [Hn ?].
    repeat case_match; simplify_eq/=. by rewrite (Hh k v Hk), !Hn.
  - intros k v y Hk Hf. unfold tag_create in Hf. simpl in Hf.
    destruct (Ht k v Hk) as [Hn ?]. repeat case_match; simplify_eq/=; done.
  - intros k v y Hk ->%category_update_key. by destruct (Hc k v Hk).
  - intros k v y Hk ->%category_create_key. by destruct (Hc k v Hk).
Qed.

(** The category part of a plan is exact: a
    category is created when and only when the snapshot has it and the
    instance does not, it is re-pathed when updates are allowed, both have it
    and the trimmed save paths differ, and it is deleted when and only when
    the mode is [complete] and the snapshot does not have it. *)
Theorem restore_categories_exact `{!UnicodeCase} (r : MapRange) (s : SnapshotState)
    (l : LiveState) (mode : string) :
  wf_snapshot s → wf_live l →
  let plan := buildCategoryPlan r (ss_Categories s) (ls_Categories l) mode in
  (∀ spec, spec ∈ cp_Create plan ↔
     ls_Categories l !! cs_Name spec = None ∧
     ss_Categories s !! cs_Name spec = Some (MkCategorySnapshot (cs_SavePath spec))) ∧
  (∀ u, u ∈ cp_Update plan ↔
     allow_updates mode = true ∧ cu_DesiredPath u ≠ cu_CurrentPath u ∧
     ss_Categories s !! cu_Name u = Some (MkCategorySnapshot (cu_DesiredPath u)) ∧
     ls_Categories l !! cu_Name u = Some (MkLiveCategory (cu_Name u) (cu_CurrentPath u))) ∧
  (∀ n, n ∈ cp_Delete plan ↔
     mode = RestoreModeComplete ∧ is_Some (ls_Categories l !! n) ∧ ss_Categories s !! n = None).
Proof.
  intros [Hc Hp _ _ _] [Hlc Hln _ _ _]. rewrite buildCategoryPlan_eq. cbn zeta.
  unfold cp_Create, cp_Update, cp_Delete. split_and!.
  - intros spec. rewrite elem_of_sort_by, elem_of_category_create by done.
    apply and_iff_compat_l. split.
    + intros (v & Hv & ->). by rewrite Hv, (Hp _ v Hv); destruct v.
    + intros Hv. eexists. split; [done|]. by rewrite (Hp _ _ Hv).
  - intros u. rewrite elem_of_sort_by, elem_of_category_update by done.
    apply and_iff_compat_l. split.
    + intros (v & c & Hv & Hc' & -> & -> & Hd). rewrite (Hp _ v Hv) in *.
      split_and!; [done|by destruct v|]. rewrite Hc', <- (Hln _ _ Hc'). by destruct c.
    + intros (Hd & Hv & Hl). do 2 eexists. split_and!; try done. by rewrite (Hp _ _ Hv).
  - intros n. rewrite elem_of_sort_strings, elem_of_if_list, elem_of_deletes by done.
    unfold include_deletes. by rewrite bool_decide_eq_true.
Qed.

(** The tag part of a plan creates exactly the tags of
    the snapshot the instance lacks, and deletes, in [complete] mode only,
    exactly the tags the snapshot lacks. *)
Theorem restore_tags_exact `{!UnicodeCase} (r : MapRange) (s : SnapshotState)
    (l : LiveState) (mode : string) :
  wf_snapshot s → wf_live l →
  let plan := buildTagPlan r (ss_Tags s) (ls_Tags l) mode in
  (∀ n, MkTagSpec n ∈ tp_Create plan ↔ is_Some (ss_Tags s !! n) ∧ ls_Tags l !! n = None) ∧
  (∀ n, n ∈ tp_Delete plan ↔
     mode = RestoreModeComplete ∧ is_Some (ls_Tags l !! n) ∧ ss_Tags s !! n = None).
Proof.
  intros [_ _ Ht _ _] [_ _ Hlt _ _]. rewrite buildTagPlan_eq. cbn zeta.
  unfold tp_Create, tp_Delete. split.
  - intros n. by rewrite elem_of_sort_by, elem_of_tag_create.
  - intros n. rewrite elem_of_sort_strings, elem_of_if_list, elem_of_deletes by done.
    unfold include_deletes. by rewrite bool_decide_eq_true.
Qed.

(** The torrent part of a plan is exact: a torrent is
    added when and only when its hash is in the snapshot and not live, updated
    when updates are allowed and [computeTorrentChanges] finds a difference,
    deleted when and only when the mode is [complete] and the snapshot lacks
    its hash. *)
Theorem restore_torrents_exact `{!UnicodeCase} (r : MapRange) (s : SnapshotState)
    (l : LiveState) (mode : string) (plan : TorrentPlan) :
  wf_snapshot s → wf_live l →
  buildTorrentPlan r (ss_Torrents s) (ls_Torrents l) mode = Ok plan →
  (∀ spec, spec ∈ trp_Add plan ↔
     ∃ k t, ss_Torrents s !! k = Some t ∧ ls_Torrents l !! k = None ∧
       spec = MkTorrentSpec (snapshotTorrentToManifestItem t)) ∧
  (∀ u, u ∈ trp_Update plan ↔
     allow_updates mode = true ∧ tu_Changes u ≠ [] ∧
     tu_Changes u = computeTorrentChanges (tu_Desired u) (tu_Current u) ∧
     ss_Torrents s !! tu_Hash u = Some (tu_Desired u) ∧
     ls_Torrents l !! tu_Hash u = Some (tu_Current u)) ∧
  (∀ n, n ∈ trp_Delete plan ↔
     mode = RestoreModeComplete ∧ is_Some (ls_Torrents l !! n) ∧ ss_Torrents s !! n = None).
Proof.
  intros [_ _ _ Ht Hh] [_ _ _ Hlt _]. rewrite buildTorrentPlan_eq. intros [= <-].
  unfold trp_Add, trp_Update, trp_Delete. split_and!.
  - intros spec. rewrite elem_of_sort_by. by apply elem_of_torrent_add.
  - intros u. rewrite elem_of_sort_by, elem_of_torrent_update by done.
    apply and_iff_compat_l. split.
    + intros (t & c & Hk & Hl & -> & -> & -> & Hne). done.
    + intros (Hne & Hch & Hk & Hl). eauto 10.
  - intros n. rewrite elem_of_sort_strings, elem_of_if_list, elem_of_deletes by done.
    unfold include_deletes. by rewrite bool_decide_eq_true.
Qed.

(** ** Equality of tag lists as sets *)

Lemma stringSetsEqual_spec a b :
  stringSetsEqual a b = true ↔
  ∀ t, t ≠ "" → (t ∈ TrimSpace <$> a ↔ t ∈ TrimSpace <$> b).
Proof.
  unfold stringSetsEqual.
  assert (∀ items t, t ≠ "" → is_Some (toStringSet items !! t) ↔ t ∈ TrimSpace <$> items)
    as Hs by (intros; rewrite toStringSet_lookup; tauto).
  assert (∀ m1 m2 : gmap string unit,
    (∀ t, is_Some (m1 !! t) ↔ is_Some (m2 !! t)) → m1 = m2) as Hext.
  { intros m1 m2 Hm. apply map_eq. intros i. specialize (Hm i).
    destruct (m1 !! i) as [[]|], (m2 !! i) as [[]|]; try done.
    - destruct Hm as [[? ?] _]; eauto. done.
    - destruct Hm as [_ [? ?]]; eauto. done. }
  assert ((∀ t, t ≠ "" → (t ∈ TrimSpace <$> a ↔ t ∈ TrimSpace <$> b)) ↔
          toStringSet a = toStringSet b) as ->.
  { split.
    - intros H. apply Hext. intros t. rewrite !toStringSet_lookup.
      destruct (decide (t = "")) as [->|Ht]; [tauto|]. by rewrite (H t Ht).
    - intros E t Ht. by rewrite <- !Hs, E. }
  set (A := toStringSet a). set (B := toStringSet b).
  destruct (decide (size A = size B)) as [Hsz|Hsz].
  2:{ rewrite bool_decide_false by done. simpl. split; [done|]. intros E. by rewrite E in Hsz. }
  rewrite bool_decide_true by done. simpl. rewrite forallb_forall. split.
  - intros H. assert (dom A ⊆ dom B) as Hsub.
    { intros t [v Hv]%elem_of_dom. apply elem_of_dom.
      specialize (H (t, v)). rewrite bool_decide_eq_true in H. apply H.
      by apply list_elem_of_In, elem_of_map_to_list. }
    apply Hext. intros t. rewrite <- !elem_of_dom.
    assert (dom A = dom B) as ->; [|done].
    apply set_subseteq_size_eq; [done|]. rewrite !size_dom. lia.
  - intros -> [t v] Hin%list_elem_of_In%elem_of_map_to_list. apply bool_decide_eq_true. eauto.
Qed.

(** [computeTorrentChanges] returns the empty list
    exactly when nothing differs: same trimmed category, same set of tags,
    every info hash the snapshot records equal to the live one, and the same
    size when the snapshot records one. *)
Theorem no_changes_iff_aligned (s : SnapshotTorrent) (l : LiveTorrent) :
  computeTorrentChanges s l = [] ↔
  normalizeCategory (st_Category s) = TrimSpace (lt_Category l) ∧
  (∀ t, t ≠ "" → (t ∈ TrimSpace <$> st_Tags s ↔ t ∈ TrimSpace <$> lt_Tags l)) ∧
  (∀ h, st_InfoHashV1 s = Some h → TrimSpace h = "" ∨ TrimSpace h = TrimSpace (lt_InfoHashV1 l)) ∧
  (∀ h, st_InfoHashV2 s = Some h → TrimSpace h = "" ∨ TrimSpace h = TrimSpace (lt_InfoHashV2 l)) ∧
  ((0 < st_SizeBytes s)%Z → st_SizeBytes s = lt_SizeBytes l).
Proof.
  assert (∀ f d c, infohash_change f d c = [] ↔
    ∀ h, d = Some h → TrimSpace h = "" ∨ TrimSpace h = TrimSpace c) as Hi.
  { intros f [h|] c; unfold infohash_change; [|split; [intros _ ? [=]|done]].
    do 2 case_bool_decide; simpl; split; intros Hx; try done.
    - intros ? [= <-]; auto.
    - intros ? [= <-]; auto.
    - intros ? [= <-]; auto.
    - destruct (Hx h eq_refl); done. }
  unfold computeTorrentChanges, normalizeCategoryPtr.
  rewrite !app_nil, !Hi, <- stringSetsEqual_spec.
  assert (∀ (b : bool) (x : DiffChange), (if b then [x] else []) = [] ↔ b = false) as Hb
    by (intros [] ?; split; done).
  rewrite !Hb, negb_false_iff, bool_decide_eq_true, negb_false_iff.
  rewrite andb_false_iff, negb_false_iff, bool_decide_eq_true, Z.ltb_ge.
  intuition (lia || auto).
Qed.

(** ** Incremental restores *)

(** An incremental plan never changes or deletes
    anything that is live: its update and delete lists are empty, for any
    snapshot and live state. *)
Theorem incremental_only_adds `{!UnicodeCase} (r : MapRange) (s : SnapshotState)
    (l : LiveState) :
  ∃ plan, buildRestorePlan r (Some s) (Some l) RestoreModeIncremental = Ok plan ∧
  cp_Update (rp_Categories plan) = [] ∧ cp_Delete (rp_Categories plan) = [] ∧
  tp_Delete (rp_Tags plan) = [] ∧
  trp_Update (rp_Torrents plan) = [] ∧ trp_Delete (rp_Torrents plan) = [].
Proof.
  unfold buildRestorePlan.
  rewrite buildCategoryPlan_eq, buildTagPlan_eq, buildTorrentPlan_eq.
  eexists. split; [reflexivity|]. cbn [rp_Categories rp_Tags rp_Torrents cp_Update cp_Delete
    tp_Delete trp_Update trp_Delete].
  change (allow_updates RestoreModeIncremental) with false.
  change (include_deletes RestoreModeIncremental) with false.
  assert (∀ A B (f : A → option B) xs, (∀ x, f x = None) → omap f xs = []) as Homap.
  { intros A B f xs Hf. induction xs as [|x xs IH]; simpl; [done|]. by rewrite Hf. }
  rewrite !Homap; [done|..].
  - intros kv. unfold torrent_update. case_bool_decide; [done|]. by destruct (_ !! _).
  - intros kv. unfold category_update. case_bool_decide; [done|]. by destruct (_ !! _).
Qed.

(** ** Loading establishes well-formedness *)

Section loading.
Context `{!UnicodeCase, !UnicodeCaseLaws}.

Lemma loadSnapshotState_wf r runID load s :
  loadSnapshotState r runID load = Ok s → wf_snapshot s.
Proof.
  unfold loadSnapshotState. rewrite result_bind_ok. intros (m & _ & [= <-]).
  assert (normal_keys TrimSpace (foldl snapshot_category ∅ (range r 0 (mf_Categories m))) ∧
    ∀ k v, foldl snapshot_category ∅ (range r 0 (mf_Categories m)) !! k = Some v →
      TrimSpace (csn_SavePath v) = csn_SavePath v) as [Hc Hp].
  { apply (foldl_invariant (λ cats : gmap string CategorySnapshot, normal_keys TrimSpace cats ∧
      ∀ k v, cats !! k = Some v → TrimSpace (csn_SavePath v) = csn_SavePath v)).
    { split; [apply normal_keys_empty|by intros ??; rewrite lookup_empty]. }
    intros cats kv [H1 H2]. unfold snapshot_category. case_bool_decide; [done|].
    split; [by apply normal_keys_insert; auto using TrimSpace_idemp|].
    intros k v. rewrite lookup_insert. case_decide; [|apply H2].
    intros [= <-]. apply TrimSpace_idemp. }
  assert (normal_keys normalizeLowerTrim (foldl snapshot_torrent ∅ (mf_Items m)) ∧
    ∀ k t, foldl snapshot_torrent ∅ (mf_Items m) !! k = Some t → st_Hash t = k) as [Ht Hh].
  { apply (foldl_invariant (λ ts : gmap string SnapshotTorrent,
      normal_keys normalizeLowerTrim ts ∧ ∀ k t, ts !! k = Some t → st_Hash t = k)).
    { split; [apply normal_keys_empty|by intros ??; rewrite lookup_empty]. }
    intros ts item [H1 H2]. unfold snapshot_torrent. case_bool_decide; [done|].
    split; [by apply normal_keys_insert; auto using normalizeLowerTrim_idemp|].
    intros k t. rewrite lookup_insert. case_decide; [naive_solver|apply H2]. }
  split; simpl; auto using toStringSet_normal.
Qed.

Lemma loadLiveState_wf r reader inst l :
  loadLiveState r reader inst = Ok l → wf_live l.
Proof.
  unfold loadLiveState. rewrite result_bind_ok. intros (c & _ & Hl).
  rewrite result_bind_ok in Hl. destruct Hl as (t & _ & Hl).
  rewrite result_bind_ok in Hl. destruct Hl as (ts & _ & [= <-]).
  assert (normal_keys TrimSpace (foldl live_category ∅ (range r 1 c)) ∧
    ∀ k v, foldl live_category ∅ (range r 1 c) !! k = Some v → lc_Name v = k) as [Hc Hn].
  { apply (foldl_invariant (λ cats : gmap string LiveCategory, normal_keys TrimSpace cats ∧
      ∀ k v, cats !! k = Some v → lc_Name v = k)).
    { split; [apply normal_keys_empty|by intros ??; rewrite lookup_empty]. }
    intros cats kv [H1 H2]. unfold live_category. case_bool_decide; [done|].
    split; [by apply normal_keys_insert; auto using TrimSpace_idemp|].
    intros k v. rewrite lookup_insert. case_decide; [naive_solver|apply H2]. }
  assert (normal_keys normalizeLowerTrim (foldl live_torrent ∅ ts) ∧
    ∀ k v, foldl live_torrent ∅ ts !! k = Some v → lt_Hash v = k) as [Ht Hh].
  { apply (foldl_invariant (λ m : gmap string LiveTorrent, normal_keys normalizeLowerTrim m ∧
      ∀ k t, m !! k = Some t → lt_Hash t = k)).
    { split; [apply normal_keys_empty|by intros ??; rewrite lookup_empty]. }
    intros m item [H1 H2]. unfold live_torrent. case_bool_decide; [done|].
    split; [by apply normal_keys_insert; auto using normalizeLowerTrim_idemp|].
    intros k v. rewrite lookup_insert. case_decide; [naive_solver|apply H2]. }
  split; simpl; auto using toStringSet_normal.
Qed.
End loading.

#[export] Hint Resolve loadSnapshotState_wf loadLiveState_wf toStringSet_normal : qui.

(** ** Excluded hashes *)

Section exclusion.
Context `{!UnicodeCase}.

Lemma elem_of_exclude_set hashes h :
  h ∈ exclude_set hashes ↔ h ≠ "" ∧ h ∈ normalizeLowerTrim <$> hashes.
Proof.
  unfold exclude_set. induction hashes as [|x hashes IH] using rev_ind; simpl.
  - rewrite elem_of_nil. set_solver.
  - rewrite foldl_app, fmap_app, elem_of_app. simpl. rewrite list_elem_of_singleton.
    case_bool_decide as Hx; [rewrite IH; naive_solver|].
    rewrite elem_of_union, elem_of_singleton, IH. naive_solver.
Qed.

Lemma elem_of_filterByHash {A} (hash_of : A → string) exclude items x :
  x ∈ filterByHash hash_of exclude items ↔
  x ∈ items ∧ normalizeLowerTrim (hash_of x) ∉ exclude.
Proof. unfold filterByHash. rewrite list_elem_of_filter. tauto. Qed.

(** [x] survives the filter when its hash is blank or not excluded. *)
Definition kept (opts : RestorePlanOptions) (hash : string) : Prop :=
  normalizeLowerTrim hash = "" ∨
  normalizeLowerTrim hash ∉ normalizeLowerTrim <$> rpo_ExcludeHashes opts.

Lemma kept_exclude opts hash :
  kept opts hash ↔ normalizeLowerTrim hash ∉ exclude_set (rpo_ExcludeHashes opts).
Proof.
  unfold kept. rewrite elem_of_exclude_set.
  destruct (decide (normalizeLowerTrim hash = "")); tauto.
Qed.
End exclusion.

(** [applyRestorePlanOptions] removes from the three
    torrent lists exactly the operations whose normalised hash is one of the
    normalised excluded hashes, and touches nothing else. *)
Lemma exclusions_exact `{!UnicodeCase} (plan : RestorePlan) (opts : RestorePlanOptions) :
  let plan' := applyRestorePlanOptions plan (Some opts) in
  rp_Mode plan' = rp_Mode plan ∧ rp_RunID plan' = rp_RunID plan ∧
  rp_InstanceID plan' = rp_InstanceID plan ∧
  rp_Categories plan' = rp_Categories plan ∧ rp_Tags plan' = rp_Tags plan ∧
  (∀ x, x ∈ trp_Add (rp_Torrents plan') ↔
     x ∈ trp_Add (rp_Torrents plan) ∧ kept opts (mi_Hash (tsp_Manifest x))) ∧
  (∀ x, x ∈ trp_Update (rp_Torrents plan') ↔
     x ∈ trp_Update (rp_Torrents plan) ∧ kept opts (tu_Hash x)) ∧
  (∀ x, x ∈ trp_Delete (rp_Torrents plan') ↔
     x ∈ trp_Delete (rp_Torrents plan) ∧ kept opts x).
Proof.
  cbn zeta. unfold applyRestorePlanOptions.
  assert (exclude_set (rpo_ExcludeHashes opts) = ∅ → ∀ h, kept opts h) as Hnone.
  { intros E h. rewrite kept_exclude, E. set_solver. }
  case_bool_decide as He; [|case_bool_decide as He2].
  - assert (∀ h, kept opts h) by (apply Hnone; by rewrite He). split_and!; naive_solver.
  - specialize (Hnone He2). split_and!; naive_solver.
  - simpl. setoid_rewrite elem_of_filterByHash. setoid_rewrite kept_exclude. done.
Qed.

(** A mode string is accepted exactly when it is
    blank, meaning [incremental], or its normal form is one of the three
    modes, which is then the result; the three modes parse to themselves. *)
Lemma ParseRestoreMode_exact `{!UnicodeCase} (value mode : string) :
  (ParseRestoreMode value = Ok mode ↔
   normalizeLowerTrim value = "" ∧ mode = RestoreModeIncremental ∨
   normalizeLowerTrim value = mode ∧ mode ≠ "" ∧ isValidRestoreMode mode = true) ∧
  (isValidRestoreMode mode = true → ParseRestoreMode mode = Ok mode).
Proof.
  split.
  - unfold ParseRestoreMode. case_bool_decide as E.
    + rewrite E. split; [intros [= <-]; auto|]. intros [[_ ->]|(<- & ? & _)]; done.
    + destruct (isValidRestoreMode (normalizeLowerTrim value)) eqn:Hv; simpl; split.
      * intros [= <-]. auto.
      * intros [[? _]|(-> & _)]; done.
      * done.
      * intros [[? _]|(<- & _ & ?)]; congruence.
  - unfold isValidRestoreMode. rewrite !orb_true_iff, !bool_decide_eq_true.
    intros [[->| ->]| ->]; reflexivity.
Qed.

(** ** Determinism of the whole planner *)

(** No two keys of the map are equal once trimmed. *)
Definition trim_injective {V} (m : gmap string V) : Prop :=
  ∀ k1 k2, is_Some (m !! k1) → is_Some (m !! k2) → TrimSpace k1 = TrimSpace k2 → k1 = k2.

Lemma foldl_range_unique {V A} (f : A → string * V → A) (a : A) (m : gmap string V) r1 r2 site :
  (∀ k1 v1 k2 v2 a, m !! k1 = Some v1 → m !! k2 = Some v2 → k1 ≠ k2 →
     f (f a (k1, v1)) (k2, v2) = f (f a (k2, v2)) (k1, v1)) →
  foldl f a (range r1 site m) = foldl f a (range r2 site m).
Proof.
  intros Hc. rewrite !foldl_as_foldr.
  apply (foldr_permutation (=)).
  - by intros x b1 b2 ->.
  - intros j1 [k1 v1] j2 [k2 v2] b Hj H1 H2. symmetry. apply Hc.
    + apply list_elem_of_lookup_2 in H1. by apply elem_of_reverse, elem_of_range in H1.
    + apply list_elem_of_lookup_2 in H2. by apply elem_of_reverse, elem_of_range in H2.
    + intros ->. apply Hj.
      eapply (NoDup_lookup ((reverse (range r1 site m)).*1)); [|by rewrite list_lookup_fmap, H1
        |by rewrite list_lookup_fmap, H2].
      rewrite fmap_reverse. rewrite reverse_Permutation. apply NoDup_range.
  - by rewrite !reverse_Permutation, !range_perm.
Qed.

Section determinism.
Context `{!UnicodeCase, !UnicodeCaseLaws}.

Lemma loadSnapshotState_unique r1 r2 runID load :
  (∀ m, load runID = Ok m → trim_injective (mf_Categories m)) →
  loadSnapshotState r1 runID load = loadSnapshotState r2 runID load.
Proof.
  intros Hinj. unfold loadSnapshotState. destruct (load runID) as [m|]; [|done]. simpl.
  rewrite (foldl_range_unique _ _ _ r1 r2); [done|].
  intros k1 v1 k2 v2 a H1 H2 Hne. unfold snapshot_category. simpl.
  do 2 case_bool_decide; try done. apply insert_insert_ne.
  intros E. apply Hne. symmetry. eapply Hinj; eauto.
Qed.

Lemma loadLiveState_unique r1 r2 reader inst :
  (∀ c, GetCategories reader inst = Ok c → trim_injective c) →
  loadLiveState r1 reader inst = loadLiveState r2 reader inst.
Proof.
  intros Hinj. unfold loadLiveState. destruct (GetCategories reader inst) as [c|]; [|done]. simpl.
  rewrite (foldl_range_unique live_category _ _ r1 r2); [done|].
  intros k1 v1 k2 v2 a H1 H2 Hne. unfold live_category. simpl.
  do 2 case_bool_decide; try done. apply insert_insert_ne.
  intros E. apply Hne. symmetry. eapply Hinj; eauto.
Qed.
End determinism.

(** The diff of a restore does not depend on
    the order in which Go ranges over its maps: two runs over the same
    manifest and the same live instance return the same plan or the same
    error, provided no two category names of either side are equal once
    trimmed. *)
Theorem PlanRestoreDiff_deterministic `{!UnicodeCase, !UnicodeCaseLaws} (r1 r2 : MapRange)
    (load : Z → result Manifest) (reader : backupReader) (runID : Z) (mode : string)
    (opts : option RestorePlanOptions) :
  (∀ m, load runID = Ok m → trim_injective (mf_Categories m)) →
  (∀ inst c, GetCategories reader inst = Ok c → trim_injective c) →
  PlanRestoreDiff r1 load (Some reader) runID mode opts =
  PlanRestoreDiff r2 load (Some reader) runID mode opts.
Proof.
  intros Hm Hc. unfold PlanRestoreDiff. cbn zeta. destruct (negb _); [done|].
  rewrite (loadSnapshotState_unique r1 r2) by done.
  destruct (loadSnapshotState r2 runID load) as [s|] eqn:Es; [|done].
  apply loadSnapshotState_wf in Es. unfold result_bind at 1 4.
  rewrite (loadLiveState_unique r1 r2) by eauto.
  destruct (loadLiveState r2 reader (ss_InstanceID s)) as [l|]; [|done].
  unfold result_bind at 1 3. by rewrite (buildRestorePlan_unique r1 r2) by done.
Qed.

(** ** A concrete snapshot and a concrete instance *)

Definition sample_manifest : Manifest :=
  MkManifest 7
    {["films" := MkCategorySnapshot " /data/films "; "tv" := MkCategorySnapshot "/data/tv"]}
    ["keep"; " new "; ""]
    [MkManifestItem " AA11 " "A" (Some "films") 10 "" None None ["keep"] "blobs/aa11";
     MkManifestItem "bb22" "B" None 20 "" None None [] ""].

Definition sample_reader : backupReader :=
  MkBackupReader
    (λ _, Ok {["films" := MkQbtCategory "films" "/old"; "misc" := MkQbtCategory "misc" "/misc"]})
    (λ _, Ok ["keep"; "old"])
    (λ _, Ok [MkQbtTorrent "AA11" "A" "misc" "keep" [" http://t "; "http://t"] "" "" 10;
              MkQbtTorrent "cc33" "C" "" "" [] "" "" 5]).

Definition sample_load (runID : Z) : result Manifest :=
  if (runID =? 1)%Z then Ok sample_manifest else Err "not found".

Definition sample_snapshot : SnapshotState :=
  match @loadSnapshotState AsciiCase key_order 1 sample_load with
  | Ok s => s | Err _ => MkSnapshotState 0 0 ∅ ∅ ∅ end.

Definition sample_live : LiveState :=
  match @loadLiveState AsciiCase key_order sample_reader 7 with
  | Ok l => l | Err _ => MkLiveState 0 ∅ ∅ ∅ end.

Lemma sample_snapshot_wf : @wf_snapshot AsciiCase sample_snapshot.
Proof. apply (@loadSnapshotState_wf AsciiCase AsciiCase_laws key_order 1 sample_load). reflexivity. Qed.

Lemma sample_live_wf : @wf_live AsciiCase sample_live.
Proof. apply (@loadLiveState_wf AsciiCase AsciiCase_laws key_order sample_reader 7). reflexivity. Qed.

Lemma restore_categories_exact_witness :
  MkCategoryUpdate "films" "/old" "/data/films" ∈
    cp_Update (buildCategoryPlan reverse_order (ss_Categories sample_snapshot)
                 (ls_Categories sample_live) RestoreModeComplete).
Proof.
  destruct (@restore_categories_exact AsciiCase reverse_order sample_snapshot sample_live
    RestoreModeComplete sample_snapshot_wf sample_live_wf) as (_ & Hu & _).
  apply Hu. by vm_compute.
Defined.

Lemma restore_tags_exact_witness :
  "old" ∈ tp_Delete (buildTagPlan reverse_order (ss_Tags sample_snapshot)
                       (ls_Tags sample_live) RestoreModeComplete).
Proof.
  destruct (@restore_tags_exact AsciiCase reverse_order sample_snapshot sample_live
    RestoreModeComplete sample_snapshot_wf sample_live_wf) as (_ & Hd).
  apply Hd. split_and!; [done|by eexists|done].
Defined.

Definition sample_torrent_plan : TorrentPlan :=
  match @buildTorrentPlan AsciiCase key_order (ss_Torrents sample_snapshot)
          (ls_Torrents sample_live) RestoreModeComplete with
  | Ok p => p | Err _ => MkTorrentPlan [] [] [] end.

Lemma restore_torrents_exact_witness :
  "cc33" ∈ trp_Delete sample_torrent_plan.
Proof.
  destruct (@restore_torrents_exact AsciiCase key_order sample_snapshot sample_live
    RestoreModeComplete sample_torrent_plan sample_snapshot_wf sample_live_wf eq_refl)
    as (_ & _ & Hd).
  apply Hd. split_and!; [done|by eexists|done].
Defined.

Lemma trim_injective_dec {V} (m : gmap string V) :
  forallb (λ kv1, forallb (λ kv2, negb (bool_decide (TrimSpace kv1.1 = TrimSpace kv2.1))
                                  || bool_decide (kv1.1 = kv2.1)) (map_to_list m))
    (map_to_list m) = true → trim_injective m.
Proof.
  intros H k1 k2 [v1 H1] [v2 H2] E.
  rewrite forallb_forall in H.
  specialize (H (k1, v1)). rewrite forallb_forall in H.
  specialize (H ltac:(by apply list_elem_of_In, elem_of_map_to_list) (k2, v2)
    ltac:(by apply list_elem_of_In, elem_of_map_to_list)). simpl in H.
  rewrite E, bool_decide_true in H by done. simpl in H. by apply bool_decide_eq_true in H.
Qed.

Lemma PlanRestoreDiff_deterministic_witness :
  @PlanRestoreDiff AsciiCase key_order sample_load (Some sample_reader) 1 "" None =
  @PlanRestoreDiff AsciiCase reverse_order sample_load (Some sample_reader) 1 "" None.
Proof.
  apply (@PlanRestoreDiff_deterministic AsciiCase AsciiCase_laws).
  - intros m [= <-]. by apply trim_injective_dec.
  - intros inst c [= <-]. by apply trim_injective_dec.
Defined.
