(* ===== verification/RestoreExec.v ===== *)
(** * [internal/backups/restore_execute.go]: executing a restore plan

    The executor drives three mutators (categories, tags, torrents) and reads
    torrent blobs from disk.  Those are services outside this component, so
    they are the operations of the class [RestoreBackend] over a world [W];
    the functions below thread the world, the summary of applied operations
    and the recorded errors through a state monad, as the Go code does with
    its pointers to [applied] and [errs]. *)

From Stdlib Require Import ZArith Lia Ascii.
From stdpp Require Import base numbers list strings pretty gmap sorting.
From S2P Require Import Prelude.
From S2P Require Import GoStrings.
From S2P Require Import GoPath.
From S2P Require Import Normalizer.
From S2P Require Import RestorePlan.

Open Scope qui_scope.

(** ** Data *)

Record RestoreOptions := MkRestoreOptions {
  ro_DryRun : bool; ro_StartPaused : bool; ro_SkipHashCheck : bool;
  ro_AutoResumeVerified : bool; ro_ExcludeHashes : list string }.

Record RestoreError := MkRestoreError {
  re_Operation : string; re_Target : string; re_Message : string }.

(** [RestoreApplied] with its three nested summaries laid out flat. *)
Record RestoreApplied := MkRestoreApplied {
  ap_CategoriesCreated : list string; ap_CategoriesUpdated : list string;
  ap_CategoriesDeleted : list string;
  ap_TagsCreated : list string; ap_TagsDeleted : list string;
  ap_TorrentsAdded : list string; ap_TorrentsUpdated : list string;
  ap_TorrentsDeleted : list string }.

Definition no_applied : RestoreApplied := MkRestoreApplied [] [] [] [] [] [] [] [].

Record RestoreResult := MkRestoreResult {
  rr_Mode : string; rr_RunID : Z; rr_InstanceID : Z; rr_DryRun : bool;
  rr_Plan : RestorePlan; rr_Applied : RestoreApplied; rr_Warnings : list string;
  rr_Errors : list RestoreError }.

(** The outcome of [os.ReadFile]. *)
Inductive file_result :=
| FileData (data : string)
| FileNotExist (msg : string)
| FileError (msg : string).

(** ** The services the executor calls

    Every mutation returns the new world and [None], or an error.  [ctx_Err]
    is [ctx.Err()], which may change between two calls. *)
Class RestoreBackend (W : Type) := {
  live_reader : W → backupReader;
  ctx_Err : W → W * option string;
  CreateCategory : W → Z → string → string → W * option string;
  EditCategory : W → Z → string → string → W * option string;
  RemoveCategories : W → Z → list string → W * option string;
  CreateTags : W → Z → list string → W * option string;
  DeleteTags : W → Z → list string → W * option string;
  AddTorrent : W → Z → string → gmap string string → W * option string;
  SetCategory : W → Z → list string → string → W * option string;
  SetTags : W → Z → list string → string → W * option string;
  BulkAction : W → Z → list string → string → W * option string;
  ResumeWhenComplete : W → Z → list string → W;
  ReadFile : W → string → file_result;
}.

(** ** Hash sets and interface values *)

Section helpers.
Context `{!UnicodeCase}.

(** [None] is the nil set. *)
Definition buildHashSet (items : list string) : gset string :=
  foldl (λ set hash,
    let normalized := normalizeLowerTrim hash in
    if bool_decide (normalized = "") then set else {[normalized]} ∪ set) ∅ items.

Definition shouldSkipTorrent (hash : string) (exclude : gset string) : bool :=
  if bool_decide (exclude = ∅) then false
  else bool_decide (normalizeLowerTrim hash ∈ exclude).
End helpers.

Definition asString (value : any) : string :=
  match value with
  | AnyString v => v
  | AnyStrings l => "[" +++ Join l " " +++ "]"
  | AnyInt z => pretty z
  end.

Definition asStringSlice (value : any) : list string :=
  match value with
  | AnyStrings l => cloneStringSlice l
  | AnyString v =>
    if bool_decide (TrimSpace v = "") then []
    else filter (λ t, t ≠ "") (TrimSpace <$> Split v ","%char)
  | AnyInt _ => []
  end.

(** ** Reading a torrent blob *)

(** [%q], for paths without characters that need escaping. *)
Definition quoted (s : string) : string :=
  String "034"%char (s +++ String "034"%char "").

(** [resolve] of [loadTorrentBlobData]: the file below [baseAbs]. *)
Definition resolve_blob (cwd baseAbs : string) (read : string → file_result) (rel : string)
    : file_result :=
  let abs := Abs cwd (PathJoin [baseAbs; rel]) in
  if negb (HasPrefix abs (baseAbs +++ "/")) && negb (bool_decide (abs = baseAbs))
  then FileError ("invalid blob path " +++ quoted rel)
  else read abs.

Definition TrimPrefix (s p : string) : string :=
  if HasPrefix s p
  then of_bytes (drop (length (to_bytes p)) (to_bytes s)) else s.

Definition loadTorrentBlobData (cwd DataDir : string) (read : string → file_result)
    (blobPath : string) : result string :=
  let dataDir := TrimSpace DataDir in
  if bool_decide (dataDir = "") then Err "backup data directory not configured" else
  let cleanRel := TrimPrefix (Clean blobPath) "/" in
  let baseAbs := Abs cwd dataDir in
  match resolve_blob cwd baseAbs read cleanRel with
  | FileData data => Ok data
  | FileError e => Err ("read torrent blob " +++ quoted blobPath +++ ": " +++ e)
  | FileNotExist e =>
    let altRel := PathJoin ["backups"; cleanRel] in
    match resolve_blob cwd baseAbs read altRel with
    | FileData data => Ok data
    | _ => Err ("read torrent blob " +++ quoted blobPath +++ ": " +++ e)
    end
  end.

(** ** The executor's monad *)

Record xstate (W : Type) := MkXState {
  xs_world : W; xs_applied : RestoreApplied; xs_errs : list RestoreError;
  xs_warnings : list string; xs_resume : list string }.
Arguments MkXState {W}.
Arguments xs_world {W}.
Arguments xs_applied {W}.
Arguments xs_errs {W}.
Arguments xs_warnings {W}.
Arguments xs_resume {W}.

(** A computation stops at the first [Err], keeping what it has done. *)
Definition exec (W A : Type) : Type := xstate W → xstate W * result A.

#[export] Instance exec_ret {W} : MRet (exec W) := λ A a s, (s, Ok a).
#[export] Instance exec_bind {W} : MBind (exec W) := λ A B k m s,
  match m s with
  | (s, Ok a) => k a s
  | (s, Err e) => (s, Err e)
  end.

Fixpoint for_each {W A} (f : A → exec W unit) (l : list A) : exec W unit :=
  match l with
  | [] => mret tt
  | x :: l => f x ;; for_each f l
  end.

Section exec.
Context {W : Type} `{!RestoreBackend W}.

Definition check_ctx : exec W unit := λ s,
  let '(w, err) := ctx_Err (xs_world s) in
  (MkXState w (xs_applied s) (xs_errs s) (xs_warnings s) (xs_resume s),
   match err with Some e => Err e | None => Ok tt end).

(** Calls a service and returns its error. *)
Definition call (op : W → W * option string) : exec W (option string) := λ s,
  let '(w, err) := op (xs_world s) in
  (MkXState w (xs_applied s) (xs_errs s) (xs_warnings s) (xs_resume s), Ok err).

Definition read_world {A} (f : W → A) : exec W A := λ s, (s, Ok (f (xs_world s))).

Definition note_applied (f : RestoreApplied → RestoreApplied) : exec W unit := λ s,
  (MkXState (xs_world s) (f (xs_applied s)) (xs_errs s) (xs_warnings s) (xs_resume s), Ok tt).

Definition appendRestoreError (operation target msg : string) : exec W unit := λ s,
  (MkXState (xs_world s) (xs_applied s)
     (xs_errs s ++ [MkRestoreError operation target msg]) (xs_warnings s) (xs_resume s), Ok tt).

Definition warn (msg : string) : exec W unit := λ s,
  (MkXState (xs_world s) (xs_applied s) (xs_errs s) (xs_warnings s ++ [msg]) (xs_resume s),
   Ok tt).

Definition add_pending_resume (hash : string) : exec W unit := λ s,
  (MkXState (xs_world s) (xs_applied s) (xs_errs s) (xs_warnings s) (xs_resume s ++ [hash]),
   Ok tt).

Definition pending_resume : exec W (list string) := λ s, (s, Ok (xs_resume s)).

(** [if err := op; err != nil { appendRestoreError; } else { ok }] *)
Definition record (operation target : string) (err : option string) (ok : exec W unit)
    : exec W unit :=
  match err with
  | Some e => appendRestoreError operation target e
  | None => ok
  end.

(** A batch call that is retried target by target when it fails. *)
Definition batch_or_each (op : W → list string → W * option string) (operation : string)
    (done : list string → exec W unit) (targets : list string) : exec W unit :=
  err ← call (λ w, op w targets);
  match err with
  | None => done targets
  | Some _ =>
    for_each (λ t,
      check_ctx ;;
      err ← call (λ w, op w [t]);
      record operation t err (done [t])) targets
  end.
End exec.

Definition add_cat_created ns a := MkRestoreApplied (ap_CategoriesCreated a ++ ns)
  (ap_CategoriesUpdated a) (ap_CategoriesDeleted a) (ap_TagsCreated a) (ap_TagsDeleted a)
  (ap_TorrentsAdded a) (ap_TorrentsUpdated a) (ap_TorrentsDeleted a).
Definition add_cat_updated ns a := MkRestoreApplied (ap_CategoriesCreated a)
  (ap_CategoriesUpdated a ++ ns) (ap_CategoriesDeleted a) (ap_TagsCreated a) (ap_TagsDeleted a)
  (ap_TorrentsAdded a) (ap_TorrentsUpdated a) (ap_TorrentsDeleted a).
Definition add_cat_deleted ns a := MkRestoreApplied (ap_CategoriesCreated a)
  (ap_CategoriesUpdated a) (ap_CategoriesDeleted a ++ ns) (ap_TagsCreated a) (ap_TagsDeleted a)
  (ap_TorrentsAdded a) (ap_TorrentsUpdated a) (ap_TorrentsDeleted a).
Definition add_tag_created ns a := MkRestoreApplied (ap_CategoriesCreated a)
  (ap_CategoriesUpdated a) (ap_CategoriesDeleted a) (ap_TagsCreated a ++ ns) (ap_TagsDeleted a)
  (ap_TorrentsAdded a) (ap_TorrentsUpdated a) (ap_TorrentsDeleted a).
Definition add_tag_deleted ns a := MkRestoreApplied (ap_CategoriesCreated a)
  (ap_CategoriesUpdated a) (ap_CategoriesDeleted a) (ap_TagsCreated a) (ap_TagsDeleted a ++ ns)
  (ap_TorrentsAdded a) (ap_TorrentsUpdated a) (ap_TorrentsDeleted a).
Definition add_tor_added ns a := MkRestoreApplied (ap_CategoriesCreated a)
  (ap_CategoriesUpdated a) (ap_CategoriesDeleted a) (ap_TagsCreated a) (ap_TagsDeleted a)
  (ap_TorrentsAdded a ++ ns) (ap_TorrentsUpdated a) (ap_TorrentsDeleted a).
Definition add_tor_updated ns a := MkRestoreApplied (ap_CategoriesCreated a)
  (ap_CategoriesUpdated a) (ap_CategoriesDeleted a) (ap_TagsCreated a) (ap_TagsDeleted a)
  (ap_TorrentsAdded a) (ap_TorrentsUpdated a ++ ns) (ap_TorrentsDeleted a).
Definition add_tor_deleted ns a := MkRestoreApplied (ap_CategoriesCreated a)
  (ap_CategoriesUpdated a) (ap_CategoriesDeleted a) (ap_TagsCreated a) (ap_TagsDeleted a)
  (ap_TorrentsAdded a) (ap_TorrentsUpdated a) (ap_TorrentsDeleted a ++ ns).

(** ** Applying the three parts of a plan *)

Section apply.
Context {W : Type} `{!RestoreBackend W} `{!UnicodeCase}.

Definition applyCategoryPlan (plan : RestorePlan) : exec W unit :=
  let instanceID := rp_InstanceID plan in
  for_each (λ spec,
    check_ctx ;;
    err ← call (λ w, CreateCategory w instanceID (cs_Name spec) (cs_SavePath spec));
    record "create_category" (cs_Name spec) err (note_applied (add_cat_created [cs_Name spec])))
    (cp_Create (rp_Categories plan)) ;;
  for_each (λ update,
    check_ctx ;;
    err ← call (λ w, EditCategory w instanceID (cu_Name update) (cu_DesiredPath update));
    record "update_category" (cu_Name update) err
      (note_applied (add_cat_updated [cu_Name update])))
    (cp_Update (rp_Categories plan)) ;;
  if bool_decide (cp_Delete (rp_Categories plan) = []) then mret tt else
  check_ctx ;;
  batch_or_each (λ w ns, RemoveCategories w instanceID ns) "delete_category"
    (λ ns, note_applied (add_cat_deleted ns)) (cp_Delete (rp_Categories plan)).

Definition applyTagPlan (plan : RestorePlan) : exec W unit :=
  let instanceID := rp_InstanceID plan in
  (if bool_decide (tp_Create (rp_Tags plan) = []) then mret tt else
   let tags := ts_Name <$> tp_Create (rp_Tags plan) in
   check_ctx ;;
   batch_or_each (λ w ts, CreateTags w instanceID ts) "create_tag"
     (λ ts, note_applied (add_tag_created ts)) tags) ;;
  if bool_decide (tp_Delete (rp_Tags plan) = []) then mret tt else
  check_ctx ;;
  batch_or_each (λ w ts, DeleteTags w instanceID ts) "delete_tag"
    (λ ts, note_applied (add_tag_deleted ts)) (tp_Delete (rp_Tags plan)).

(** The options map handed to [AddTorrent]. *)
Definition add_options (manifest : ManifestItem) (opts : RestoreOptions) : gmap string string :=
  let paused := if ro_StartPaused opts || ro_SkipHashCheck opts then "true" else "false" in
  let options : gmap string string := {["paused" := paused; "stopped" := paused]} in
  let options := if ro_SkipHashCheck opts then <["skip_checking" := "true"]> options
                 else options in
  let options :=
    match mi_Category manifest with
    | None => options
    | Some c => let category := TrimSpace c in
                if bool_decide (category = "") then options
                else <["category" := category]> options
    end in
  if bool_decide (mi_Tags manifest = []) then options
  else <["tags" := Join (mi_Tags manifest) ","]> options.

(** One iteration over [plan.Torrents.Add]. *)
Definition add_torrent (cwd DataDir : string) (instanceID : Z) (exclude : gset string)
    (opts : RestoreOptions) (spec : TorrentSpec) : exec W unit :=
  let manifest := tsp_Manifest spec in
  let hash := mi_Hash manifest in
  check_ctx ;;
  if shouldSkipTorrent hash exclude then mret tt else
  let blobPath := TrimSpace (mi_TorrentBlob manifest) in
  if bool_decide (blobPath = "") then
    warn ("Torrent " +++ hash +++ " missing cached blob reference") ;;
    appendRestoreError "add_torrent" hash "missing torrent blob"
  else
  payload ← read_world (λ w, loadTorrentBlobData cwd DataDir (ReadFile w) blobPath);
  match payload with
  | Err e => appendRestoreError "add_torrent" hash e
  | Ok payload =>
    err ← call (λ w, AddTorrent w instanceID payload (add_options manifest opts));
    match err with
    | Some e => appendRestoreError "add_torrent" hash e
    | None =>
      let desiredCategory := normalizeCategory (mi_Category manifest) in
      (if bool_decide (desiredCategory = "") then mret tt
       else err ← call (λ w, SetCategory w instanceID [hash] desiredCategory);
            record "set_category" hash err (mret tt)) ;;
      (if bool_decide (mi_Tags manifest = []) then mret tt
       else err ← call (λ w, SetTags w instanceID [hash] (Join (mi_Tags manifest) ","));
            record "set_tags" hash err (mret tt)) ;;
      note_applied (add_tor_added [hash]) ;;
      if ro_SkipHashCheck opts && ro_AutoResumeVerified opts
      then add_pending_resume hash else mret tt
    end
  end.

(** The switch over one change; returns whether a supported field changed. *)
Definition apply_change (instanceID : Z) (hash : string) (change : DiffChange)
    : exec W bool :=
  if negb (dc_Supported change) then
    let message := if bool_decide (dc_Message change = "") then "manual intervention required"
                   else dc_Message change in
    warn (hash +++ ": " +++ dc_Field change +++ " (" +++ message +++ ")") ;; mret false
  else if bool_decide (dc_Field change = "category") then
    let desired := normalizeCategoryPtr (asString (dc_Desired change)) in
    err ← call (λ w, SetCategory w instanceID [hash] desired);
    match err with
    | Some e => appendRestoreError "set_category" hash e ;; mret false
    | None => mret true
    end
  else if bool_decide (dc_Field change = "tags") then
    let tagPayload := Join (asStringSlice (dc_Desired change)) "," in
    err ← call (λ w, SetTags w instanceID [hash] tagPayload);
    match err with
    | Some e => appendRestoreError "set_tags" hash e ;; mret false
    | None => mret true
    end
  else mret false.

Fixpoint apply_changes (instanceID : Z) (hash : string) (supportedApplied : bool)
    (changes : list DiffChange) : exec W bool :=
  match changes with
  | [] => mret supportedApplied
  | c :: cs =>
    b ← apply_change instanceID hash c;
    apply_changes instanceID hash (supportedApplied || b) cs
  end.

(** One iteration over [plan.Torrents.Update]. *)
Definition update_torrent (instanceID : Z) (exclude : gset string) (update : TorrentUpdate)
    : exec W unit :=
  check_ctx ;;
  if shouldSkipTorrent (tu_Hash update) exclude then mret tt else
  supportedApplied ← apply_changes instanceID (tu_Hash update) false (tu_Changes update);
  if (supportedApplied : bool) then note_applied (add_tor_updated [tu_Hash update])
  else mret tt.

Definition applyTorrentPlan (cwd DataDir : string) (plan : RestorePlan)
    (exclude : gset string) (opts : RestoreOptions) : exec W unit :=
  let instanceID := rp_InstanceID plan in
  for_each (add_torrent cwd DataDir instanceID exclude opts) (trp_Add (rp_Torrents plan)) ;;
  for_each (update_torrent instanceID exclude) (trp_Update (rp_Torrents plan)) ;;
  pending ← pending_resume;
  (if bool_decide (pending = []) then mret tt
   else _ ← call (λ w, (ResumeWhenComplete w instanceID pending, None)); mret tt) ;;
  if bool_decide (trp_Delete (rp_Torrents plan) = []) then mret tt else
  check_ctx ;;
  let deleteTargets := filter (λ h, shouldSkipTorrent h exclude = false)
                         (trp_Delete (rp_Torrents plan)) in
  if bool_decide (deleteTargets = []) then mret tt else
  batch_or_each (λ w hs, BulkAction w instanceID hs "delete") "delete_torrent"
    (λ hs, note_applied (add_tor_deleted hs)) deleteTargets.

(** [Service.ExecuteRestore].  [writers] tells whether the three mutators
    are configured.  The result pointer is [None] when planning fails. *)
Definition ExecuteRestore (r : MapRange) (load : Z → result Manifest) (writers : bool)
    (cwd DataDir : string) (w : W) (runID : Z) (mode : string) (opts : RestoreOptions)
    : W * option RestoreResult * option string :=
  let planOpts := if bool_decide (ro_ExcludeHashes opts = []) then None
                  else Some (MkRestorePlanOptions (ro_ExcludeHashes opts)) in
  match PlanRestoreDiff r load (Some (live_reader w)) runID mode planOpts with
  | Err e => (w, None, Some e)
  | Ok plan =>
    let res applied warnings errs :=
      MkRestoreResult (rp_Mode plan) (rp_RunID plan) (rp_InstanceID plan) (ro_DryRun opts)
        plan applied warnings errs in
    if ro_DryRun opts then (w, Some (res no_applied [] []), None)
    else if negb writers then (w, Some (res no_applied [] []), Some "sync manager unavailable")
    else
      let '(s, out) :=
        (applyCategoryPlan plan ;; applyTagPlan plan ;;
         applyTorrentPlan cwd DataDir plan (buildHashSet (ro_ExcludeHashes opts)) opts)
          (MkXState w no_applied [] [] []) in
      (xs_world s, Some (res (xs_applied s) (xs_warnings s) (xs_errs s)),
       match out with Ok _ => None | Err e => Some e end)
  end.
End apply.

(** ** Reasoning about the monad *)

Section logic.
Context {W : Type} `{!RestoreBackend W}.

(** [m] keeps [P] of the world and of the hashes waiting to be resumed,
    whether it returns or stops with an error. *)
Definition keeps {A} (P : W → list string → Prop) (m : exec W A) : Prop :=
  ∀ s, P (xs_world s) (xs_resume s) → P (xs_world (m s).1) (xs_resume (m s).1).

Lemma keeps_ret {A} P (a : A) : keeps P (mret a).
Proof. by intros s H. Qed.
Definition holds {A} (P : W → list string → Prop) (m : exec W A) (s : xstate W) : Prop :=
  P (xs_world (m s).1) (xs_resume (m s).1).
Lemma holds_bind {A B} P (m : exec W A) (k : A → exec W B) s :
  holds P m s → (∀ a, keeps P (k a)) → holds P (m ≫= k) s.
Proof.
  intros Hm Hk. unfold holds, mbind, exec_bind in *.
  destruct (m s) as [s' [a|e]]; simpl in *; [by apply Hk|done].
Qed.
Lemma holds_read {A B} P (f : W → A) (k : A → exec W B) s :
  holds P (k (f (xs_world s))) s → holds P (read_world f ≫= k) s.
Proof. done. Qed.
Lemma holds_pending {B} P (k : list string → exec W B) s :
  holds P (k (xs_resume s)) s → holds P (pending_resume ≫= k) s.
Proof. done. Qed.
Lemma keeps_bind {A B} P (m : exec W A) (k : A → exec W B) :
  keeps P m → (∀ a, keeps P (k a)) → keeps P (m ≫= k).
Proof. intros Hm Hk s H. apply holds_bind; [by apply Hm|done]. Qed.
Lemma keeps_for_each {A} P (f : A → exec W unit) l :
  (∀ x, x ∈ l → keeps P (f x)) → keeps P (for_each f l).
Proof.
  induction l as [|x l IH]; intros H; [apply keeps_ret|].
  simpl. apply keeps_bind; [apply H; by left|]. intros _. apply IH. intros y ?. apply H. by right.
Qed.
Lemma keeps_call P op : (∀ w hs, P w hs → P (op w).1 hs) → keeps P (call op).
Proof.
  intros H s Hs. unfold call. specialize (H _ _ Hs). by destruct (op (xs_world s)).
Qed.
Lemma keeps_check_ctx P : (∀ w hs, P w hs → P (ctx_Err w).1 hs) → keeps P check_ctx.
Proof. intros H s Hs. unfold check_ctx. specialize (H _ _ Hs). by destruct (ctx_Err _). Qed.
Lemma keeps_silent {A} P (m : exec W A) :
  (∀ s, xs_world (m s).1 = xs_world s ∧ xs_resume (m s).1 = xs_resume s) → keeps P m.
Proof. intros H s Hs. by destruct (H s) as [-> ->]. Qed.
Lemma keeps_error P op t e : keeps P (appendRestoreError op t e).
Proof. by apply keeps_silent. Qed.
Lemma keeps_warn P m : keeps P (warn m).
Proof. by apply keeps_silent. Qed.
Lemma keeps_note P f : keeps P (note_applied f).
Proof. by apply keeps_silent. Qed.
Lemma keeps_record P op t err ok : keeps P ok → keeps P (record op t err ok).
Proof. intros. destruct err; [|done]. by apply keeps_silent. Qed.
Lemma keeps_if {A} P (b : bool) (m1 m2 : exec W A) :
  keeps P m1 → keeps P m2 → keeps P (if b then m1 else m2).
Proof. by destruct b. Qed.
Lemma keeps_batch P op operation done targets :
  (∀ w hs, P w hs → P (ctx_Err w).1 hs) →
  (∀ w ts hs, (∀ t, t ∈ ts → t ∈ targets) → P w hs → P (op w ts).1 hs) →
  (∀ ts, keeps P (done ts)) → keeps P (batch_or_each op operation done targets).
Proof.
  intros Hc Ho Hd. apply keeps_bind; [apply keeps_call; auto|]. intros [e|]; [|done].
  apply keeps_for_each. intros t Ht. apply keeps_bind; [by apply keeps_check_ctx|]. intros _.
  apply keeps_bind.
  - apply keeps_call. intros w hs. apply Ho. intros t' ->%list_elem_of_singleton. done.
  - intros err. by apply keeps_record.
Qed.

(** What has been recorded is never dropped. *)
Definition grows (s s' : xstate W) : Prop :=
  xs_errs s `prefix_of` xs_errs s' ∧ xs_warnings s `prefix_of` xs_warnings s' ∧
  let a := xs_applied s in let a' := xs_applied s' in
  ap_CategoriesCreated a `prefix_of` ap_CategoriesCreated a' ∧
  ap_CategoriesUpdated a `prefix_of` ap_CategoriesUpdated a' ∧
  ap_CategoriesDeleted a `prefix_of` ap_CategoriesDeleted a' ∧
  ap_TagsCreated a `prefix_of` ap_TagsCreated a' ∧
  ap_TagsDeleted a `prefix_of` ap_TagsDeleted a' ∧
  ap_TorrentsAdded a `prefix_of` ap_TorrentsAdded a' ∧
  ap_TorrentsUpdated a `prefix_of` ap_TorrentsUpdated a' ∧
  ap_TorrentsDeleted a `prefix_of` ap_TorrentsDeleted a'.

#[export] Instance grows_preorder : PreOrder grows.
Proof.
  split; [by intros s|]. intros s1 s2 s3 H12 H23. unfold grows in *.
  destruct_and!. split_and!; by etrans.
Qed.

Definition growing {A} (m : exec W A) : Prop := ∀ s, grows s (m s).1.

Lemma growing_ret {A} (a : A) : growing (mret a).
Proof. by intros s. Qed.
Lemma growing_bind {A B} (m : exec W A) (k : A → exec W B) :
  growing m → (∀ a, growing (k a)) → growing (m ≫= k).
Proof.
  intros Hm Hk s. specialize (Hm s). unfold mbind, exec_bind.
  destruct (m s) as [s' [a|e]]; simpl in *; [|done]. etrans; [done|apply Hk].
Qed.
Lemma growing_for_each {A} (f : A → exec W unit) l :
  (∀ x, growing (f x)) → growing (for_each f l).
Proof.
  intros H. induction l as [|x l IH]; [apply growing_ret|]. by apply growing_bind.
Qed.
Lemma growing_check_ctx : growing check_ctx.
Proof. intros s. unfold check_ctx. by destruct (ctx_Err _). Qed.
Lemma growing_call op : growing (call op).
Proof. intros s. unfold call. by destruct (op _). Qed.
Lemma growing_error op t e : growing (appendRestoreError op t e).
Proof. intros s. repeat split; simpl; try done. by eexists. Qed.
Lemma growing_warn m : growing (warn m).
Proof. intros s. repeat split; simpl; try done. by eexists. Qed.
Lemma growing_resume h : growing (add_pending_resume h).
Proof. by intros s. Qed.
Lemma growing_pending : growing pending_resume.
Proof. by intros s. Qed.
Lemma growing_read {A} (f : W → A) : growing (read_world f).
Proof. by intros s. Qed.
Lemma growing_record op t err ok : growing ok → growing (record op t err ok).
Proof. destruct err; [intros; apply growing_error|done]. Qed.
Lemma growing_if {A} (b : bool) (m1 m2 : exec W A) :
  growing m1 → growing m2 → growing (if b then m1 else m2).
Proof. by destruct b. Qed.
Lemma growing_batch op operation done targets :
  (∀ ts, growing (done ts)) → growing (batch_or_each op operation done targets).
Proof.
  intros Hd. apply growing_bind; [apply growing_call|]. intros [e|]; [|done].
  apply growing_for_each. intros t. apply growing_bind; [apply growing_check_ctx|]. intros _.
  apply growing_bind; [apply growing_call|]. intros err. by apply growing_record.
Qed.

End logic.

Create HintDb keeps.
Create HintDb growing.
#[export] Hint Resolve keeps_ret keeps_bind keeps_call keeps_check_ctx keeps_error
  keeps_warn keeps_note keeps_record keeps_if : keeps.
#[export] Hint Resolve growing_ret growing_bind growing_for_each growing_check_ctx growing_call
  growing_error growing_warn growing_resume growing_pending growing_read growing_record
  growing_if growing_batch : growing.

Lemma growing_applied {W} `{!RestoreBackend W} (add : list string → RestoreApplied → RestoreApplied) ns :
  add ∈ [add_cat_created; add_cat_updated; add_cat_deleted; add_tag_created; add_tag_deleted;
         add_tor_added; add_tor_updated; add_tor_deleted] →
  growing (W := W) (note_applied (add ns)).
Proof.
  intros Hadd s. set_unfold in Hadd. unfold grows. simpl.
  destruct_or!; subst; simpl; split_and!; try done; by eexists.
Qed.

(** ** Properties *)

(** C29. Loading a torrent blob reads no file outside the
    data directory: two file systems that agree on the data directory and what
    lies below it give the same result, whatever the blob path of the manifest
    is ([..] elements and absolute paths included). *)
Theorem blob_reads_confined (cwd DataDir blobPath : string) (read1 read2 : string → file_result) :
  IsAbs cwd = true →
  (∀ p, inside (Abs cwd (TrimSpace DataDir)) p → read1 p = read2 p) →
  loadTorrentBlobData cwd DataDir read1 blobPath = loadTorrentBlobData cwd DataDir read2 blobPath.
Proof.
  intros Hcwd Hread. unfold loadTorrentBlobData. cbn zeta. case_bool_decide; [done|].
  set (base := Abs cwd (TrimSpace DataDir)) in *.
  assert (∀ rel, resolve_blob cwd base read1 rel = resolve_blob cwd base read2 rel) as Hres.
  { intros rel. unfold resolve_blob.
    destruct (Abs_plain cwd (TrimSpace DataDir) Hcwd) as (bs & Hbs & Eb).
    destruct (Abs_plain cwd (PathJoin [base; rel]) Hcwd) as (cs & Hcs & Ec). rewrite Ec.
    destruct (HasPrefix _ _) eqn:Hp; simpl.
    - apply Hread. unfold base in *. rewrite Eb in *. by apply prefix_inside.
    - case_bool_decide as E; simpl; [|done]. apply Hread. left. by rewrite E. }
  by rewrite !Hres.
Qed.

Section exclusion_safety.
Context {W : Type} `{!RestoreBackend W} `{!UnicodeCase}.
Context (P : W → list string → Prop) (excluded : string → bool) (inst : Z).
Context (ctx_ok : ∀ w hs, P w hs → P (ctx_Err w).1 hs).
Context (category_ok : ∀ w h c hs,
  excluded h = false → P w hs → P (SetCategory w inst [h] c).1 hs).
Context (tags_ok : ∀ w h ts hs,
  excluded h = false → P w hs → P (SetTags w inst [h] ts).1 hs).

Lemma keeps_apply_changes h b cs :
  excluded h = false → keeps P (apply_changes inst h b cs).
Proof.
  intros Hh. revert b. induction cs as [|c cs IH]; intros b; simpl; [apply keeps_ret|].
  apply keeps_bind; [|intros; apply IH].
  unfold apply_change. apply keeps_if; [apply keeps_bind; eauto with keeps|].
  repeat apply keeps_if; try apply keeps_ret.
  - apply keeps_bind; [apply keeps_call; eauto|].
    intros [e|]; [apply keeps_bind|]; eauto with keeps.
  - apply keeps_bind; [apply keeps_call; eauto|].
    intros [e|]; [apply keeps_bind|]; eauto with keeps.
Qed.

Lemma keeps_add_torrent cwd dir exclude opts spec :
  (∀ h, shouldSkipTorrent h exclude = excluded h) →
  (∀ w payload options hs, excluded (mi_Hash (tsp_Manifest spec)) = false →
     loadTorrentBlobData cwd dir (ReadFile w) (TrimSpace (mi_TorrentBlob (tsp_Manifest spec)))
       = Ok payload →
     P w hs → P (AddTorrent w inst payload options).1 hs) →
  (∀ w h hs, excluded h = false → P w hs → P w (hs ++ [h])) →
  keeps P (add_torrent cwd dir inst exclude opts spec).
Proof.
  intros Hex Hadd Hres. unfold add_torrent. cbn zeta.
  apply keeps_bind; [by apply keeps_check_ctx|]. intros _.
  rewrite Hex. destruct (excluded _) eqn:Eh; [apply keeps_ret|].
  case_bool_decide; [apply keeps_bind; eauto with keeps|].
  intros s Hs. apply holds_read.
  destruct (loadTorrentBlobData _ _ _ _) as [payload|e] eqn:Hb; [|exact Hs].
  apply holds_bind.
  { unfold holds, call. pose proof (Hadd _ _ (add_options (tsp_Manifest spec) opts) _
      eq_refl Hb Hs) as Ha. by destruct (AddTorrent _ _ _ _). }
  intros [e|]; [apply keeps_error|].
  apply keeps_bind; [|intros _; apply keeps_bind;
    [|intros _; apply keeps_bind; [apply keeps_note|intros _]]].
  - apply keeps_if; [apply keeps_ret|]. apply keeps_bind; [apply keeps_call; eauto|].
    intros; apply keeps_record, keeps_ret.
  - apply keeps_if; [apply keeps_ret|]. apply keeps_bind; [apply keeps_call; eauto|].
    intros; apply keeps_record, keeps_ret.
  - apply keeps_if; [|apply keeps_ret]. intros s' Hs'. simpl. eauto.
Qed.
End exclusion_safety.

Lemma shouldSkipTorrent_spec `{!UnicodeCase} h hashes :
  shouldSkipTorrent h (buildHashSet hashes) = true ↔
  normalizeLowerTrim h ≠ "" ∧ normalizeLowerTrim h ∈ normalizeLowerTrim <$> hashes.
Proof.
  change (buildHashSet hashes) with (exclude_set hashes).
  rewrite <- elem_of_exclude_set. unfold shouldSkipTorrent.
  case_bool_decide as E; [rewrite E; set_solver|]. apply bool_decide_eq_true.
Qed.

(** What is assumed of a property [P] of the world that only operations on
    excluded hashes could break. *)
Record respects_exclusion {W} `{!RestoreBackend W} (cwd dir : string) (inst : Z)
    (excluded : string → bool) (P : W → list string → Prop) : Prop := {
  re_ctx w hs : P w hs → P (ctx_Err w).1 hs;
  re_category w h c hs : excluded h = false → P w hs → P (SetCategory w inst [h] c).1 hs;
  re_tags w h ts hs : excluded h = false → P w hs → P (SetTags w inst [h] ts).1 hs;
  re_add w spec payload options hs :
    excluded (mi_Hash (tsp_Manifest spec)) = false →
    loadTorrentBlobData cwd dir (ReadFile w) (TrimSpace (mi_TorrentBlob (tsp_Manifest spec)))
      = Ok payload → P w hs → P (AddTorrent w inst payload options).1 hs;
  re_pending w h hs : excluded h = false → P w hs → P w (hs ++ [h]);
  re_resume w hs : P w hs → P (ResumeWhenComplete w inst hs) hs;
  re_delete w targets hs : Forall (λ h, excluded h = false) targets → P w hs →
    P (BulkAction w inst targets "delete").1 hs;
}.

(** Executing the torrent part of a plan never
    operates on an excluded torrent: any property of the instance and of the
    resume queue that the operations on other hashes preserve still holds
    afterwards, also when the run stops half-way with an error.  A hash is
    excluded when its normal form is that of one of [ExcludeHashes]. *)
Theorem excluded_torrents_untouched {W} `{!RestoreBackend W} `{!UnicodeCase}
    (P : W → list string → Prop) (cwd dir : string) (plan : RestorePlan)
    (opts : RestoreOptions) (s : xstate W) :
  respects_exclusion cwd dir (rp_InstanceID plan)
    (λ h, shouldSkipTorrent h (buildHashSet (ro_ExcludeHashes opts))) P →
  P (xs_world s) (xs_resume s) →
  let s' := (applyTorrentPlan cwd dir plan (buildHashSet (ro_ExcludeHashes opts)) opts s).1 in
  P (xs_world s') (xs_resume s').
Proof.
  intros [Hctx Hcat Htags Hadd Hpend Hres Hdel]. cbn zeta.
  set (excluded := λ h, shouldSkipTorrent h (buildHashSet (ro_ExcludeHashes opts))).
  revert s. apply (keeps_bind P).
  { apply keeps_for_each. intros spec _.
    apply (keeps_add_torrent P excluded); [done..| |by eauto].
    intros w payload options hs. by apply Hadd. }
  intros _. apply keeps_bind.
  { apply keeps_for_each. intros u _. apply keeps_bind; [by apply keeps_check_ctx|]. intros _.
    destruct (shouldSkipTorrent (tu_Hash u) _) eqn:Hu; [apply keeps_ret|].
    apply keeps_bind; [by apply (keeps_apply_changes P excluded)|].
    intros []; eauto with keeps. }
  intros _ s Hs. apply holds_pending, holds_bind.
  { case_bool_decide; [exact Hs|]. unfold holds, call. simpl. by apply Hres. }
  intros _. apply keeps_if; [apply keeps_ret|].
  apply keeps_bind; [by apply keeps_check_ctx|]. intros _.
  apply keeps_if; [apply keeps_ret|]. apply keeps_batch; [done| |intros; apply keeps_note].
  intros w ts hs Hts. apply Hdel. apply Forall_forall. intros h Hh%Hts.
  by apply list_elem_of_filter in Hh as [? _].
Qed.

(** ** Every planned operation is accounted for *)

Section accounting.
Context {W : Type} `{!RestoreBackend W}.

Lemma bind_ok {A B} (m : exec W A) (k : A → exec W B) s s'' b :
  (m ≫= k) s = (s'', Ok b) ↔ ∃ s' a, m s = (s', Ok a) ∧ k a s' = (s'', Ok b).
Proof.
  unfold mbind, exec_bind. destruct (m s) as [s' [a|e]]; split; try naive_solver.
Qed.

(** [t] is in the summary of applied operations, or an error of
    [operation] on [t] is recorded. *)
Definition accounted (proj : RestoreApplied → list string) (operation t : string)
    (s : xstate W) : Prop :=
  t ∈ proj (xs_applied s) ∨ ∃ e, MkRestoreError operation t e ∈ xs_errs s.

Definition stable_proj (proj : RestoreApplied → list string) : Prop :=
  ∀ s s', grows (W := W) s s' → ∀ t, t ∈ proj (xs_applied s) → t ∈ proj (xs_applied s').

Lemma prefix_elem {A} (l1 l2 : list A) x : l1 `prefix_of` l2 → x ∈ l1 → x ∈ l2.
Proof. intros [l ->] ?. by apply elem_of_app; left. Qed.

Lemma stable_projs proj :
  proj ∈ [ap_CategoriesCreated; ap_CategoriesUpdated; ap_CategoriesDeleted; ap_TagsCreated;
          ap_TagsDeleted; ap_TorrentsAdded; ap_TorrentsUpdated; ap_TorrentsDeleted] →
  stable_proj proj.
Proof.
  intros Hp s s' Hg t. unfold grows in Hg. destruct_and!.
  set_unfold in Hp. destruct_or!; subst; by apply prefix_elem.
Qed.

Lemma accounted_stable proj op t s s' :
  stable_proj proj → grows s s' → accounted proj op t s → accounted proj op t s'.
Proof.
  intros Hp Hg [Ht|[e He]]; [left; by eapply Hp|right]. exists e.
  destruct Hg as [Hg _]. by eapply prefix_elem.
Qed.

Lemma for_each_all {A} (f : A → exec W unit) (Q : A → xstate W → Prop) l s s' :
  (∀ x s s', f x s = (s', Ok tt) → Q x s') →
  (∀ x s s', grows s s' → Q x s → Q x s') → (∀ x, growing (f x)) →
  for_each f l s = (s', Ok tt) → ∀ x, x ∈ l → Q x s'.
Proof.
  intros HQ Hst Hg. revert s. induction l as [|y l IH]; intros s Hf x Hx;
    [by apply elem_of_nil in Hx|].
  apply bind_ok in Hf as (s1 & [] & Hy & Hl).
  apply elem_of_cons in Hx as [->|Hx]; [|by eapply IH].
  apply (Hst _ s1); [|by eapply HQ].
  pose proof (growing_for_each f l Hg s1) as Hgl.
  change (for_each f l s1 = (s', Ok tt)) in Hl. by rewrite Hl in Hgl.
Qed.

Lemma record_accounted proj op t err ok s s' :
  (∀ s s', ok s = (s', Ok tt) → t ∈ proj (xs_applied s')) →
  record op t err ok s = (s', Ok tt) → accounted proj op t s'.
Proof.
  intros Hok. destruct err as [e|]; [|left; by eapply Hok].
  intros [= <-]. right. exists e. simpl. apply elem_of_app. right. by left.
Qed.

Lemma batch_accounted proj f op operation targets s s' :
  stable_proj proj → (∀ ts, growing (note_applied (W := W) (f ts))) →
  (∀ ts a t, t ∈ ts → t ∈ proj (f ts a)) →
  batch_or_each op operation (λ ts, note_applied (f ts)) targets s = (s', Ok tt) →
  ∀ t, t ∈ targets → accounted proj operation t s'.
Proof.
  intros Hp Hg Hf Hb t Ht. apply bind_ok in Hb as (s1 & err & _ & Hb).
  destruct err as [e|]; [|injection Hb as <-; left; simpl; by apply Hf].
  eapply (for_each_all _ (accounted proj operation)); [| | |exact Hb|exact Ht].
  - intros x s2 s3 Hx. apply bind_ok in Hx as (s4 & [] & _ & Hx).
    apply bind_ok in Hx as (s5 & err & _ & Hx).
    eapply record_accounted; [|exact Hx]. intros s6 s7 [= <-]. simpl. apply Hf. by left.
  - intros x s2 s3. by apply accounted_stable.
  - intros x. apply growing_bind; [apply growing_check_ctx|]. intros _.
    apply growing_bind; [apply growing_call|]. intros err'. by apply growing_record.
Qed.

(** A loop of single calls, each recorded. *)
Lemma each_accounted {A} proj f (name : A → string) (op : A → W → W * option string)
    operation l s s' :
  stable_proj proj → (∀ ts, growing (note_applied (W := W) (f ts))) →
  (∀ ts a t, t ∈ ts → t ∈ proj (f ts a)) →
  for_each (λ x, check_ctx ;; err ← call (op x);
    record operation (name x) err (note_applied (f [name x]))) l s = (s', Ok tt) →
  ∀ x, x ∈ l → accounted proj operation (name x) s'.
Proof.
  intros Hp Hg Hf Hl.
  eapply (for_each_all _ (λ x, accounted proj operation (name x))); [| | |exact Hl].
  - intros x s2 s3 Hx. apply bind_ok in Hx as (s4 & [] & _ & Hx).
    apply bind_ok in Hx as (s5 & err & _ & Hx).
    eapply record_accounted; [|exact Hx]. intros s6 s7 [= <-]. simpl. apply Hf. by left.
  - intros x s2 s3. by apply accounted_stable.
  - intros x. apply growing_bind; [apply growing_check_ctx|]. intros _.
    apply growing_bind; [apply growing_call|]. intros err'. by apply growing_record.
Qed.
End accounting.

Ltac in_list := set_unfold; tauto.
#[export] Hint Extern 1 (stable_proj _) => (apply stable_projs; in_list) : growing.
#[export] Hint Extern 1 (growing (note_applied _)) => (apply growing_applied; in_list) : growing.

Lemma elem_of_snoc_add {A} (t : A) (l ts : list A) : t ∈ ts → t ∈ l ++ ts.
Proof. intros. apply elem_of_app. by right. Qed.

Section accounting_plan.
Context {W : Type} `{!RestoreBackend W} `{!UnicodeCase}.

Lemma growing_applyTagPlan plan : growing (W := W) (applyTagPlan plan).
Proof.
  apply growing_bind; [|intros _].
  - apply growing_if; [apply growing_ret|].
    apply growing_bind; [apply growing_check_ctx|intros _; apply growing_batch; auto with growing].
  - apply growing_if; [apply growing_ret|].
    apply growing_bind; [apply growing_check_ctx|intros _; apply growing_batch; auto with growing].
Qed.

Lemma growing_add_torrent cwd dir inst exclude opts spec :
  growing (W := W) (add_torrent cwd dir inst exclude opts spec).
Proof.
  apply growing_bind; [apply growing_check_ctx|intros _].
  apply growing_if; [apply growing_ret|]. cbn zeta.
  apply growing_if; [apply growing_bind; auto with growing|].
  apply growing_bind; [apply growing_read|intros [payload|e]; [|apply growing_error]].
  apply growing_bind; [apply growing_call|intros [e|]; [apply growing_error|]].
  repeat (apply growing_bind; [|intros _]); auto with growing.
Qed.

Lemma growing_apply_changes inst h b cs : growing (W := W) (apply_changes inst h b cs).
Proof.
  revert b. induction cs as [|c cs IH]; intros b; simpl; [apply growing_ret|].
  apply growing_bind; [|intros; apply IH]. unfold apply_change.
  apply growing_if; [apply growing_bind; auto with growing|].
  repeat apply growing_if; auto with growing;
    (apply growing_bind; [apply growing_call|intros [e|]; auto with growing];
     apply growing_bind; auto with growing).
Qed.

Lemma growing_update_torrent inst exclude u : growing (W := W) (update_torrent inst exclude u).
Proof.
  apply growing_bind; [apply growing_check_ctx|intros _].
  apply growing_if; [apply growing_ret|].
  apply growing_bind; [apply growing_apply_changes|intros []; auto with growing].
Qed.

(** *** Updates of torrents *)

(** What a change of a torrent comes to: a warning when it is not supported, else
    the service has accepted it and the torrent counts as updated, or its error is
    recorded. *)
Definition change_handled (inst : Z) (hash : string) (c : DiffChange) (updated : Prop)
    (warnings : list string) (errs : list RestoreError) : Prop :=
  if negb (dc_Supported c) then
    hash +++ ": " +++ dc_Field c +++ " (" +++
      (if bool_decide (dc_Message c = "") then "manual intervention required" else dc_Message c) +++ ")" ∈ warnings
  else
    dc_Field c = "category" ∧
      (updated ∧ (∃ w w' : W, SetCategory w inst [hash] (normalizeCategoryPtr (asString (dc_Desired c))) = (w', None)) ∨
       ∃ e, MkRestoreError "set_category" hash e ∈ errs) ∨
    dc_Field c = "tags" ∧
      (updated ∧ (∃ w w' : W, SetTags w inst [hash] (Join (asStringSlice (dc_Desired c)) ",") = (w', None)) ∨
       ∃ e, MkRestoreError "set_tags" hash e ∈ errs).

Lemma change_handled_mono inst hash c (U U' : Prop) ws ws' errs errs' :
  (U → U') → ws `prefix_of` ws' → errs `prefix_of` errs' →
  change_handled inst hash c U ws errs → change_handled inst hash c U' ws' errs'.
Proof.
  intros HU Hw He. unfold change_handled. destruct (negb _); [by apply prefix_elem|].
  intros [[? [[? ?]|[e ?]]]|[? [[? ?]|[e ?]]]]; [left|left|right|right]; (split; [done|]);
    [left; auto|right; exists e; by eapply prefix_elem|left; auto|right; exists e; by eapply prefix_elem].
Qed.

(** The changes that a plan has. *)
Definition plannable (c : DiffChange) : Prop := dc_Supported c = true → dc_Field c = "category" ∨ dc_Field c = "tags".

Lemma apply_change_handled inst hash c (s s' : xstate W) b :
  plannable c → apply_change inst hash c s = (s', Ok b) →
  change_handled inst hash c (b = true) (xs_warnings s') (xs_errs s').
Proof.
  intros Hp. unfold apply_change, change_handled. destruct (dc_Supported c) eqn:Es; cbn [negb].
  2:{ intros Hrun. apply bind_ok in Hrun as (s1 & [] & Hw & Hr). injection Hw as <-. injection Hr as <- <-. cbn [xs_warnings].
      apply elem_of_app. right. by left. }
  destruct (Hp Es) as [Ef|Ef]; rewrite Ef.
  - rewrite bool_decide_true by done. intros Hrun. left. split; [done|].
    apply bind_ok in Hrun as (s1 & err & Hcall & Hr). unfold call in Hcall.
    destruct (SetCategory _ _ _ _) as [w' err'] eqn:Eop. injection Hcall as <- <-. destruct err' as [e|].
    + apply bind_ok in Hr as (s2 & [] & He & Hr). injection He as <-. injection Hr as <- <-. right. exists e. cbn [xs_errs].
      apply elem_of_app. right. by left.
    + injection Hr as <- <-. left. split; [done|]. by eexists _, _.
  - rewrite bool_decide_false, bool_decide_true by done. intros Hrun. right. split; [done|].
    apply bind_ok in Hrun as (s1 & err & Hcall & Hr). unfold call in Hcall.
    destruct (SetTags _ _ _ _) as [w' err'] eqn:Eop. injection Hcall as <- <-. destruct err' as [e|].
    + apply bind_ok in Hr as (s2 & [] & He & Hr). injection He as <-. injection Hr as <- <-. right. exists e. cbn [xs_errs].
      apply elem_of_app. right. by left.
    + injection Hr as <- <-. left. split; [done|]. by eexists _, _.
Qed.

Lemma apply_changes_handled inst hash cs b (s s' : xstate W) b' :
  (∀ c, c ∈ cs → plannable c) → apply_changes inst hash b cs s = (s', Ok b') →
  (b = true → b' = true) ∧
  ∀ c, c ∈ cs → change_handled inst hash c (b' = true) (xs_warnings s') (xs_errs s').
Proof.
  revert b s. induction cs as [|c cs IH]; intros b s Hp Hrun.
  { injection Hrun as <- <-. split; [done|]. by intros ? ?%elem_of_nil. }
  apply bind_ok in Hrun as (s1 & b1 & Hc & Hrun).
  change (apply_changes inst hash (b || b1) cs s1 = (s', Ok b')) in Hrun.
  pose proof (growing_apply_changes inst hash (b || b1) cs s1) as Hg. rewrite Hrun in Hg. cbn [fst] in Hg.
  apply apply_change_handled in Hc; [|apply Hp; by left].
  apply IH in Hrun as [Hb Hall]; [|intros; apply Hp; by right].
  split; [intros ->; by apply Hb|]. intros c' [->|Hin]%elem_of_cons; [|by apply Hall].
  destruct Hg as (? & ? & _). eapply change_handled_mono; [|done|done|exact Hc]. intros ->. apply Hb. apply orb_true_r.
Qed.

Lemma update_torrent_handled inst exclude u (s s' : xstate W) :
  (∀ c, c ∈ tu_Changes u → plannable c) → update_torrent inst exclude u s = (s', Ok tt) →
  shouldSkipTorrent (tu_Hash u) exclude = true ∨
  ∀ c, c ∈ tu_Changes u → change_handled inst (tu_Hash u) c
    (tu_Hash u ∈ ap_TorrentsUpdated (xs_applied s')) (xs_warnings s') (xs_errs s').
Proof.
  intros Hp Hrun. apply bind_ok in Hrun as (s1 & [] & _ & Hrun).
  destruct (shouldSkipTorrent _ _); [by left|right]. intros c Hc.
  apply bind_ok in Hrun as (s2 & b & Hcs & Hrun). apply apply_changes_handled in Hcs as [_ Hall]; [|done].
  specialize (Hall c Hc). destruct b; injection Hrun as <-; cbn [xs_warnings xs_errs xs_applied ap_TorrentsUpdated add_tor_updated].
  - eapply change_handled_mono; [|done|done|exact Hall]. intros _. apply elem_of_app. right. by left.
  - eapply change_handled_mono; [|done|done|exact Hall]. done.
Qed.

(** The plan has no other changes. *)
Lemma planned_changes r load reader runID mode opts plan u c :
  PlanRestoreDiff r load reader runID mode opts = Ok plan →
  u ∈ trp_Update (rp_Torrents plan) → c ∈ tu_Changes u → plannable c.
Proof.
  unfold PlanRestoreDiff. destruct reader as [reader|]; [|done]. cbn zeta.
  destruct (negb _); [done|]. rewrite result_bind_ok. intros (s & _ & Hp).
  rewrite result_bind_ok in Hp. destruct Hp as (l & _ & Hp).
  rewrite result_bind_ok in Hp. destruct Hp as (plan0 & Hb & [= <-]). intros Hu.
  assert (u ∈ trp_Update (rp_Torrents plan0)) as Hu0.
  { destruct opts as [opts|]; [|exact Hu].
    destruct (exclusions_exact plan0 opts) as (_ & _ & _ & _ & _ & _ & Hx & _). by apply Hx in Hu as [? _]. }
  unfold buildRestorePlan in Hb. rewrite buildTorrentPlan_eq in Hb. injection Hb as <-.
  cbn [rp_Torrents trp_Update] in Hu0. rewrite elem_of_sort_by in Hu0.
  clear Hu. apply list_elem_of_omap in Hu0 as (kv & _ & Hupd). unfold torrent_update in Hupd.
  destruct (bool_decide (_ = "")) in Hupd; [done|]. destruct (_ !! _); [|done]. destruct (negb _); [done|]. cbn zeta in Hupd.
  case_bool_decide; [done|]. injection Hupd as <-. cbn [tu_Changes]. unfold computeTorrentChanges, infohash_change, plannable.
  rewrite !elem_of_app. intros [Hc|[Hc|[Hc|[Hc|Hc]]]]; repeat case_match;
    first [by apply elem_of_nil in Hc|apply list_elem_of_singleton in Hc as ->; cbn; auto; done].
Qed.

Lemma applyCategoryPlan_accounted plan (s s' : xstate W) :
  applyCategoryPlan plan s = (s', Ok tt) →
  (∀ spec, spec ∈ cp_Create (rp_Categories plan) →
     accounted ap_CategoriesCreated "create_category" (cs_Name spec) s') ∧
  (∀ u, u ∈ cp_Update (rp_Categories plan) →
     accounted ap_CategoriesUpdated "update_category" (cu_Name u) s') ∧
  (∀ n, n ∈ cp_Delete (rp_Categories plan) →
     accounted ap_CategoriesDeleted "delete_category" n s').
Proof.
  intros Hrun. apply bind_ok in Hrun as (s1 & [] & Hc & Hrun). apply bind_ok in Hrun as (s2 & [] & Hu & Hd).
  assert (grows s1 s2) as G12.
  { match type of Hu with for_each ?f ?l s1 = _ =>
      assert (growing (for_each f l)) as G end.
    { apply growing_for_each. intros x. apply growing_bind; [apply growing_check_ctx|intros _].
      apply growing_bind; auto with growing. }
    specialize (G s1). by rewrite Hu in G. }
  assert (grows s2 s') as G2.
  { match type of Hd with ?m s2 = _ => assert (growing m) as G end.
    { apply growing_if; [apply growing_ret|].
      apply growing_bind; [apply growing_check_ctx|intros _; apply growing_batch; auto with growing]. }
    specialize (G s2). by rewrite Hd in G. }
  split_and!.
  - intros spec Hin. eapply accounted_stable; [auto with growing|etrans; [exact G12|exact G2]|].
    eapply (each_accounted _ add_cat_created cs_Name (λ spec w, CreateCategory w
      (rp_InstanceID plan) (cs_Name spec) (cs_SavePath spec))); eauto with growing.
    intros; by apply elem_of_snoc_add.
  - intros u Hin. eapply accounted_stable; [auto with growing|exact G2|].
    eapply (each_accounted _ add_cat_updated cu_Name (λ u w, EditCategory w
      (rp_InstanceID plan) (cu_Name u) (cu_DesiredPath u))); eauto with growing.
    intros; by apply elem_of_snoc_add.
  - clear Hc Hu. case_bool_decide as E; [rewrite E; by intros ? ?%elem_of_nil|].
    apply bind_ok in Hd as (s3 & [] & _ & Hd).
    eapply (batch_accounted _ add_cat_deleted); eauto with growing.
    intros; by apply elem_of_snoc_add.
Qed.

Lemma applyTagPlan_accounted plan (s s' : xstate W) :
  applyTagPlan plan s = (s', Ok tt) →
  (∀ spec, spec ∈ tp_Create (rp_Tags plan) →
     accounted ap_TagsCreated "create_tag" (ts_Name spec) s') ∧
  (∀ n, n ∈ tp_Delete (rp_Tags plan) → accounted ap_TagsDeleted "delete_tag" n s').
Proof.
  intros Hrun. apply bind_ok in Hrun as (s1 & [] & Hc & Hd).
  assert (grows s1 s') as G1.
  { match type of Hd with ?m s1 = _ => assert (growing m) as G end.
    { apply growing_if; [apply growing_ret|].
      apply growing_bind; [apply growing_check_ctx|intros _; apply growing_batch; auto with growing]. }
    specialize (G s1). by rewrite Hd in G. }
  split.
  - intros spec Hin. eapply accounted_stable; [auto with growing|exact G1|].
    clear Hd. case_bool_decide as E; [rewrite E in Hin; by apply elem_of_nil in Hin|].
    apply bind_ok in Hc as (s3 & [] & _ & Hc).
    eapply (batch_accounted _ add_tag_created); eauto with growing.
    + intros; by apply elem_of_snoc_add.
    + by apply list_elem_of_fmap_2.
  - clear Hc. case_bool_decide as E; [rewrite E; by intros ? ?%elem_of_nil|].
    apply bind_ok in Hd as (s3 & [] & _ & Hd).
    eapply (batch_accounted _ add_tag_deleted); eauto with growing.
    intros; by apply elem_of_snoc_add.
Qed.

Lemma add_torrent_accounted cwd dir inst exclude opts spec (s s' : xstate W) :
  add_torrent cwd dir inst exclude opts spec s = (s', Ok tt) →
  shouldSkipTorrent (mi_Hash (tsp_Manifest spec)) exclude = true ∨
  accounted ap_TorrentsAdded "add_torrent" (mi_Hash (tsp_Manifest spec)) s'.
Proof.
  intros Hrun. apply bind_ok in Hrun as (s1 & [] & _ & Hrun).
  destruct (shouldSkipTorrent _ _); [by left|right]. cbn zeta in Hrun.
  case_bool_decide.
  { apply bind_ok in Hrun as (s2 & [] & _ & [= <-]). right. eexists. simpl.
    apply elem_of_app. right. by left. }
  apply bind_ok in Hrun as (s2 & [payload|e] & _ & Hrun).
  2:{ injection Hrun as <-. right. eexists. simpl. apply elem_of_app. right. by left. }
  apply bind_ok in Hrun as (s3 & [e|] & _ & Hrun).
  { injection Hrun as <-. right. eexists. simpl. apply elem_of_app. right. by left. }
  apply bind_ok in Hrun as (s4 & [] & _ & Hrun). apply bind_ok in Hrun as (s5 & [] & _ & Hrun).
  apply bind_ok in Hrun as (s6 & [] & Hn & Hrun). injection Hn as <-. left.
  assert (∀ m : exec W unit, growing m → m _ = (s', Ok tt) → _) as Hg by
    (intros m Hm Hs; specialize (Hm (note_applied (add_tor_added
       [mi_Hash (tsp_Manifest spec)]) s5).1); simpl in Hm; rewrite Hs in Hm; exact Hm).
  eapply (stable_projs ap_TorrentsAdded); [in_list|apply (Hg _ (growing_if _ _ _
    (growing_resume _) (growing_ret _)) Hrun)|].
  simpl. apply elem_of_app. right. by left.
Qed.

Lemma growing_after_updates plan exclude :
  growing (W := W) (
    pending ← pending_resume;
    (if bool_decide (pending = []) then mret tt
     else _ ← call (λ w, (ResumeWhenComplete w (rp_InstanceID plan) pending, None)); mret tt) ;;
    if bool_decide (trp_Delete (rp_Torrents plan) = []) then mret tt else
    check_ctx ;;
    let deleteTargets := filter (λ h, shouldSkipTorrent h exclude = false)
                           (trp_Delete (rp_Torrents plan)) in
    if bool_decide (deleteTargets = []) then mret tt else
    batch_or_each (λ w hs, BulkAction w (rp_InstanceID plan) hs "delete") "delete_torrent"
      (λ hs, note_applied (add_tor_deleted hs)) deleteTargets).
Proof.
  apply growing_bind; [apply growing_pending|intros pending].
  apply growing_bind.
  { apply growing_if; [apply growing_ret|]. apply growing_bind; auto with growing. }
  intros _. apply growing_if; [apply growing_ret|].
  apply growing_bind; [apply growing_check_ctx|intros _].
  apply growing_if; [apply growing_ret|apply growing_batch; auto with growing].
Qed.

Lemma growing_torrent_tail plan exclude :
  growing (W := W) (
    for_each (update_torrent (rp_InstanceID plan) exclude) (trp_Update (rp_Torrents plan)) ;;
    pending ← pending_resume;
    (if bool_decide (pending = []) then mret tt
     else _ ← call (λ w, (ResumeWhenComplete w (rp_InstanceID plan) pending, None)); mret tt) ;;
    if bool_decide (trp_Delete (rp_Torrents plan) = []) then mret tt else
    check_ctx ;;
    let deleteTargets := filter (λ h, shouldSkipTorrent h exclude = false)
                           (trp_Delete (rp_Torrents plan)) in
    if bool_decide (deleteTargets = []) then mret tt else
    batch_or_each (λ w hs, BulkAction w (rp_InstanceID plan) hs "delete") "delete_torrent"
      (λ hs, note_applied (add_tor_deleted hs)) deleteTargets).
Proof.
  apply growing_bind; [apply growing_for_each, growing_update_torrent|intros _]. apply growing_after_updates.
Qed.

Lemma growing_applyTorrentPlan cwd dir plan exclude opts :
  growing (W := W) (applyTorrentPlan cwd dir plan exclude opts).
Proof.
  apply growing_bind; [apply growing_for_each; intros; apply growing_add_torrent|intros _].
  apply growing_torrent_tail.
Qed.

Lemma applyTorrentPlan_accounted cwd dir plan exclude opts (s s' : xstate W) :
  (∀ u c, u ∈ trp_Update (rp_Torrents plan) → c ∈ tu_Changes u → plannable c) →
  applyTorrentPlan cwd dir plan exclude opts s = (s', Ok tt) →
  (∀ spec, spec ∈ trp_Add (rp_Torrents plan) →
     shouldSkipTorrent (mi_Hash (tsp_Manifest spec)) exclude = true ∨
     accounted ap_TorrentsAdded "add_torrent" (mi_Hash (tsp_Manifest spec)) s') ∧
  (∀ u c, u ∈ trp_Update (rp_Torrents plan) → c ∈ tu_Changes u →
     shouldSkipTorrent (tu_Hash u) exclude = true ∨
     change_handled (rp_InstanceID plan) (tu_Hash u) c (tu_Hash u ∈ ap_TorrentsUpdated (xs_applied s'))
       (xs_warnings s') (xs_errs s')) ∧
  (∀ h, h ∈ trp_Delete (rp_Torrents plan) →
     shouldSkipTorrent h exclude = true ∨ accounted ap_TorrentsDeleted "delete_torrent" h s').
Proof.
  intros Hplannable Hrun. apply bind_ok in Hrun as (s1 & [] & Ha & Hrun).
  assert (grows s1 s') as G1.
  { pose proof (growing_torrent_tail plan exclude s1) as G.
    match type of Hrun with ?m s1 = _ => change (grows s1 (m s1).1) in G end.
    by rewrite Hrun in G. }
  split_and!.
  - intros spec Hin.
    eapply (for_each_all _ (λ spec s, shouldSkipTorrent (mi_Hash (tsp_Manifest spec)) exclude
      = true ∨ accounted ap_TorrentsAdded "add_torrent" (mi_Hash (tsp_Manifest spec)) s))
      in Ha; [|intros x s2 s3; apply add_torrent_accounted| | |exact Hin].
    + destruct Ha as [?|Ha]; [by left|right].
      eapply accounted_stable; [auto with growing|exact G1|exact Ha].
    + intros x s2 s3 Hg [?|?]; [by left|right]. eapply accounted_stable; eauto with growing.
    + intros x. apply growing_add_torrent.
  - intros u c Hu Hc. apply bind_ok in Hrun as (s2 & [] & Hupd & Hrun).
    assert (grows s2 s') as G2.
    { pose proof (growing_after_updates plan exclude s2) as G.
      match type of Hrun with ?m s2 = _ => change (grows s2 (m s2).1) in G end. by rewrite Hrun in G. }
    assert (for_each (update_torrent (rp_InstanceID plan) exclude) (trp_Update (rp_Torrents plan)) s1 = (s2, Ok tt) →
      shouldSkipTorrent (tu_Hash u) exclude = true ∨
      change_handled (rp_InstanceID plan) (tu_Hash u) c (tu_Hash u ∈ ap_TorrentsUpdated (xs_applied s2))
       (xs_warnings s2) (xs_errs s2)) as Hone.
    { clear Hrun G2 Hupd Ha G1. revert s1 Hu Hplannable. generalize (trp_Update (rp_Torrents plan)). intros l.
      induction l as [|v l IH]; intros s1 Hu Hplannable Hf; [by apply elem_of_nil in Hu|].
      apply bind_ok in Hf as (s3 & [] & Hv & Hl). apply elem_of_cons in Hu as [->|Hu].
      - apply update_torrent_handled in Hv; [|intros c' Hc'; apply (Hplannable v); [by left|done]].
        destruct Hv as [?|Hv]; [by left|right].
        pose proof (growing_for_each (update_torrent (rp_InstanceID plan) exclude) l (growing_update_torrent _ _) s3) as G.
        change (for_each (update_torrent (rp_InstanceID plan) exclude) l s3 = (s2, Ok tt)) in Hl. rewrite Hl in G.
        cbn [fst] in G. eapply change_handled_mono; [| | |exact (Hv c Hc)]; [|by destruct G as (? & ? & _)..].
        apply (stable_projs ap_TorrentsUpdated); [in_list|done].
      - apply (IH s3); [done| |done]. intros u' c' Hu'. apply Hplannable. by right. }
    destruct (Hone Hupd) as [?|Hh]; [by left|right].
    eapply change_handled_mono; [| | |exact Hh]; [|by destruct G2 as (? & ? & _)..].
    apply (stable_projs ap_TorrentsUpdated); [in_list|done].
  - intros h Hin. destruct (shouldSkipTorrent h exclude) eqn:Hs; [by left|right].
    apply bind_ok in Hrun as (s2 & [] & _ & Hrun). apply bind_ok in Hrun as (s3 & pend & _ & Hrun).
    apply bind_ok in Hrun as (s4 & [] & _ & Hrun).
    rewrite bool_decide_false in Hrun by (intros E; rewrite E in Hin; by apply elem_of_nil in Hin).
    apply bind_ok in Hrun as (s5 & [] & _ & Hrun). cbn zeta in Hrun.
    assert (h ∈ filter (λ h, shouldSkipTorrent h exclude = false)
              (trp_Delete (rp_Torrents plan))) as Hin' by by apply list_elem_of_filter.
    rewrite bool_decide_false in Hrun by (intros E; rewrite E in Hin'; by apply elem_of_nil in Hin').
    eapply (batch_accounted _ add_tor_deleted); eauto with growing.
    intros; by apply elem_of_snoc_add.
Qed.
End accounting_plan.

Lemma kept_not_skipped `{!UnicodeCase} hashes h :
  kept (MkRestorePlanOptions hashes) h → shouldSkipTorrent h (buildHashSet hashes) = false.
Proof.
  intros Hk. apply not_true_iff_false. rewrite shouldSkipTorrent_spec. unfold kept in Hk.
  simpl in Hk. tauto.
Qed.

Lemma buildHashSet_nil `{!UnicodeCase} h : shouldSkipTorrent h (buildHashSet []) = false.
Proof. by apply kept_not_skipped; right; apply not_elem_of_nil. Qed.

(** A plan returned by [PlanRestoreDiff] names no excluded torrent, so the
    executor's second check never skips anything. *)
Lemma planned_not_skipped `{!UnicodeCase} r load reader runID mode hashes plan :
  PlanRestoreDiff r load reader runID mode
    (if bool_decide (hashes = []) then None else Some (MkRestorePlanOptions hashes)) = Ok plan →
  (∀ spec, spec ∈ trp_Add (rp_Torrents plan) →
     shouldSkipTorrent (mi_Hash (tsp_Manifest spec)) (buildHashSet hashes) = false) ∧
  (∀ u, u ∈ trp_Update (rp_Torrents plan) → shouldSkipTorrent (tu_Hash u) (buildHashSet hashes) = false) ∧
  (∀ h, h ∈ trp_Delete (rp_Torrents plan) → shouldSkipTorrent h (buildHashSet hashes) = false).
Proof.
  unfold PlanRestoreDiff. destruct reader as [reader|]; [|done]. cbn zeta.
  destruct (negb _); [done|]. rewrite result_bind_ok. intros (s & _ & Hp).
  rewrite result_bind_ok in Hp. destruct Hp as (l & _ & Hp).
  rewrite result_bind_ok in Hp. destruct Hp as (plan0 & _ & [= <-]).
  case_bool_decide as E; [subst; split_and!; intros; apply buildHashSet_nil|].
  destruct (exclusions_exact plan0 (MkRestorePlanOptions hashes)) as (_ & _ & _ & _ & _ & Ha & Hu & Hd).
  split_and!; [intros spec [_ Hk]%Ha|intros u [_ Hk]%Hu|intros h [_ Hk]%Hd]; by apply kept_not_skipped.
Qed.

(** C28. When [ExecuteRestore] returns without
    an error, every operation of its plan is accounted for, whatever the services
    did: its target is in the summary of applied operations, or an error of that
    operation on that target is in the result.  Nothing is lost when a batch call
    fails and is retried one target at a time.  Of the changes of a torrent, each
    that is supported was accepted by the service and the torrent is in the
    summary, or its error is in the result; each that is not supported is a
    warning, and is not carried out.  A dry run carries nothing out: it leaves the
    services alone and returns the plan and an empty summary. *)
Theorem restore_accounts_for_everything {W} `{!RestoreBackend W} `{!UnicodeCase}
    (r : MapRange) (load : Z → result Manifest) (writers : bool) (cwd dir : string) (w w' : W)
    (runID : Z) (mode : string) (opts : RestoreOptions) (res : RestoreResult) :
  ExecuteRestore r load writers cwd dir w runID mode opts = (w', Some res, None) →
  let plan := rr_Plan res in
  let handled (proj : RestoreApplied → list string) operation target :=
    target ∈ proj (rr_Applied res) ∨ ∃ e, MkRestoreError operation target e ∈ rr_Errors res in
  if ro_DryRun opts then w' = w ∧ rr_Applied res = no_applied ∧ rr_Errors res = [] ∧ rr_Warnings res = [] else
  (∀ c, c ∈ cp_Create (rp_Categories plan) →
     handled ap_CategoriesCreated "create_category" (cs_Name c)) ∧
  (∀ c, c ∈ cp_Update (rp_Categories plan) →
     handled ap_CategoriesUpdated "update_category" (cu_Name c)) ∧
  (∀ n, n ∈ cp_Delete (rp_Categories plan) → handled ap_CategoriesDeleted "delete_category" n) ∧
  (∀ t, t ∈ tp_Create (rp_Tags plan) → handled ap_TagsCreated "create_tag" (ts_Name t)) ∧
  (∀ n, n ∈ tp_Delete (rp_Tags plan) → handled ap_TagsDeleted "delete_tag" n) ∧
  (∀ t, t ∈ trp_Add (rp_Torrents plan) →
     handled ap_TorrentsAdded "add_torrent" (mi_Hash (tsp_Manifest t))) ∧
  (∀ u c, u ∈ trp_Update (rp_Torrents plan) → c ∈ tu_Changes u →
     change_handled (W := W) (rp_InstanceID plan) (tu_Hash u) c (tu_Hash u ∈ ap_TorrentsUpdated (rr_Applied res))
       (rr_Warnings res) (rr_Errors res)) ∧
  (∀ h, h ∈ trp_Delete (rp_Torrents plan) → handled ap_TorrentsDeleted "delete_torrent" h).
Proof.
  unfold ExecuteRestore. cbn zeta.
  destruct (PlanRestoreDiff _ _ _ _ _ _) as [plan|e] eqn:Hplan; [|done].
  destruct (ro_DryRun opts) eqn:Hdry; [by intros [= <- <-]|]. destruct (negb writers); [done|].
  match goal with |- context [let '(_, _) := ?m in _] =>
    destruct m as [s' [[]|e]] eqn:Hrun end; [|done].
  intros [= _ <-]. cbn [rr_Plan rr_Applied rr_Errors rr_Warnings].
  apply bind_ok in Hrun as (s1 & [] & Hc & Hrun). apply bind_ok in Hrun as (s2 & [] & Ht & Htor).
  pose proof (λ u c, planned_changes _ _ _ _ _ _ _ u c Hplan) as Hplannable.
  apply planned_not_skipped in Hplan as (Hadd & Hupd & Hdel).
  apply applyCategoryPlan_accounted in Hc as (Hc1 & Hc2 & Hc3).
  assert (grows s1 s2) as G12.
  { pose proof (growing_applyTagPlan plan s1) as G. by rewrite Ht in G. }
  apply applyTagPlan_accounted in Ht as (Ht1 & Ht2).
  assert (grows s2 s') as G2.
  { pose proof (growing_applyTorrentPlan cwd dir plan (buildHashSet (ro_ExcludeHashes opts)) opts s2)
      as G. by rewrite Htor in G. }
  apply applyTorrentPlan_accounted in Htor as (Ha & Hu & Hd); [|done].
  assert (grows s1 s') as G1 by (etrans; eassumption).
  split_and!.
  - intros c Hin. eapply accounted_stable; [auto with growing|exact G1|auto].
  - intros c Hin. eapply accounted_stable; [auto with growing|exact G1|auto].
  - intros c Hin. eapply accounted_stable; [auto with growing|exact G1|auto].
  - intros c Hin. eapply accounted_stable; [auto with growing|exact G2|auto].
  - intros c Hin. eapply accounted_stable; [auto with growing|exact G2|auto].
  - intros t Hin. destruct (Ha t Hin) as [Hs|?]; [|done]. by rewrite Hadd in Hs.
  - intros u c Hin Hch. destruct (Hu u c Hin Hch) as [Hs|?]; [|done]. by rewrite Hupd in Hs.
  - intros h Hin. destruct (Hd h Hin) as [Hs|?]; [|done]. by rewrite Hdel in Hs.
Qed.

(** ** A complete restore converges *)

(** What the category and tag services promise on a healthy instance whose
    categories and tags are [cats] and [tags]: an operation whose precondition
    holds succeeds, has its effect and touches nothing else. *)
Class CategoryTagLaws (W : Type) `{!RestoreBackend W} (inst : Z)
    (cats : W → gmap string string) (tags : W → gset string) : Prop := {
  law_ctx w : ∃ w', ctx_Err w = (w', None) ∧ cats w' = cats w ∧ tags w' = tags w;
  law_create w n p : cats w !! n = None →
    ∃ w', CreateCategory w inst n p = (w', None) ∧ cats w' = <[n:=p]> (cats w) ∧ tags w' = tags w;
  law_edit w n p : is_Some (cats w !! n) →
    ∃ w', EditCategory w inst n p = (w', None) ∧ cats w' = <[n:=p]> (cats w) ∧ tags w' = tags w;
  law_remove w ns :
    ∃ w', RemoveCategories w inst ns = (w', None) ∧
      cats w' = filter (λ kv, kv.1 ∉ ns) (cats w) ∧ tags w' = tags w;
  law_create_tags w ts :
    ∃ w', CreateTags w inst ts = (w', None) ∧ cats w' = cats w ∧ tags w' = tags w ∪ list_to_set ts;
  law_delete_tags w ts :
    ∃ w', DeleteTags w inst ts = (w', None) ∧ cats w' = cats w ∧ tags w' = tags w ∖ list_to_set ts;
}.

Lemma lookup_foldl_insert {A V} (f : A → string) (g : A → V) (l : list A) (m : gmap string V) n v :
  (∀ x, x ∈ l → f x = n → g x = v) →
  foldl (λ m x, <[f x := g x]> m) m l !! n =
    if decide (n ∈ f <$> l) then Some v else m !! n.
Proof.
  revert m. induction l as [|x l IH]; intros m Hv;
    [by rewrite decide_False by apply not_elem_of_nil|].
  rewrite fmap_cons. cbn [foldl]. rewrite IH by (intros y ??; apply Hv; [by right|done]).
  destruct (decide (n = f x)) as [->|Hne].
  - rewrite lookup_insert_eq, (Hv x) by (by left || done).
    rewrite (decide_True (P := f x ∈ f x :: _)) by left. by case_decide.
  - rewrite lookup_insert_ne by done.
    apply decide_ext. rewrite elem_of_cons. naive_solver.
Qed.

Lemma lookup_foldl_insert_some {A V} (f : A → string) (g : A → V) (l : list A)
    (m : gmap string V) n :
  is_Some (m !! n) → is_Some (foldl (λ m x, <[f x := g x]> m) m l !! n).
Proof.
  revert m. induction l as [|x l IH]; intros m Hm; [done|]. simpl. apply IH.
  rewrite lookup_insert. by case_decide.
Qed.

Section convergence.
Context {W : Type} `{!RestoreBackend W} `{!UnicodeCase} (inst : Z).
Context (cats : W → gmap string string) (tags : W → gset string).
Context `{!CategoryTagLaws W inst cats tags}.

(** [m] succeeds without recording an error and takes the categories from
    [c] to [c'] and the tags from [t] to [t']. *)
Definition turns (m : exec W unit) (c c' : gmap string string) (t t' : gset string) : Prop :=
  ∀ s, cats (xs_world s) = c → tags (xs_world s) = t →
    ∃ s', m s = (s', Ok tt) ∧ xs_errs s' = xs_errs s ∧
      cats (xs_world s') = c' ∧ tags (xs_world s') = t'.

Lemma turns_ret c t : turns (mret tt) c c t t.
Proof. intros s ??. by exists s. Qed.

Lemma turns_bind m1 m2 c c1 c2 t t1 t2 :
  turns m1 c c1 t t1 → turns m2 c1 c2 t1 t2 → turns (m1 ;; m2) c c2 t t2.
Proof.
  intros H1 H2 s Hc Ht. destruct (H1 s Hc Ht) as (s1 & E1 & He1 & Hc1 & Ht1).
  destruct (H2 s1 Hc1 Ht1) as (s2 & E2 & He2 & Hc2 & Ht2). exists s2.
  split_and!; [|by rewrite He2|done..]. unfold mbind, exec_bind. by rewrite E1.
Qed.

Lemma turns_ctx c t : turns check_ctx c c t t.
Proof.
  intros s Hc Ht. destruct (law_ctx (W := W) (xs_world s)) as (w' & E & Hc' & Ht').
  unfold check_ctx. rewrite E. eexists. split; [done|]. simpl. by rewrite Hc', Ht'.
Qed.

Definition performs (op : W → W * option string) c c' t t' : Prop :=
  ∀ w, cats w = c → tags w = t → ∃ w', op w = (w', None) ∧ cats w' = c' ∧ tags w' = t'.

Lemma turns_op op operation target f c c' t t' :
  performs op c c' t t' →
  turns (check_ctx ;; err ← call op; record operation target err (note_applied f)) c c' t t'.
Proof.
  intros Hop. eapply turns_bind; [apply turns_ctx|]. intros s Hc Ht.
  destruct (Hop (xs_world s) Hc Ht) as (w' & E & Hc' & Ht').
  unfold mbind, exec_bind, call. rewrite E. by eexists.
Qed.

Lemma turns_batch op operation f ts c c' t t' :
  performs (λ w, op w ts) c c' t t' →
  turns (batch_or_each op operation (λ ts, note_applied (f ts)) ts) c c' t t'.
Proof.
  intros Hop s Hc Ht. destruct (Hop (xs_world s) Hc Ht) as (w' & E & Hc' & Ht').
  unfold batch_or_each, mbind, exec_bind, call. rewrite E. by eexists.
Qed.

Lemma turns_for_each {A} (f : A → exec W unit) (step : gmap string string → A → gmap string string)
    l c t :
  (∀ pre x post, l = pre ++ x :: post →
     turns (f x) (foldl step c pre) (step (foldl step c pre) x) t t) →
  turns (for_each f l) c (foldl step c l) t t.
Proof.
  revert c. induction l as [|x l IH]; intros c Hf; [apply turns_ret|].
  simpl. eapply turns_bind; [apply (Hf [] x l eq_refl)|].
  apply IH. intros pre y post ->. apply (Hf (x :: pre) y post eq_refl).
Qed.

Lemma turns_creates plan c t :
  rp_InstanceID plan = inst →
  NoDup (cs_Name <$> cp_Create (rp_Categories plan)) →
  (∀ x, x ∈ cp_Create (rp_Categories plan) → c !! cs_Name x = None) →
  turns (for_each (λ spec, check_ctx ;;
      err ← call (λ w, CreateCategory w (rp_InstanceID plan) (cs_Name spec) (cs_SavePath spec));
      record "create_category" (cs_Name spec) err (note_applied (add_cat_created [cs_Name spec])))
      (cp_Create (rp_Categories plan)))
    c (foldl (λ m x, <[cs_Name x := cs_SavePath x]> m) c (cp_Create (rp_Categories plan))) t t.
Proof.
  intros -> Hnd Hc. apply turns_for_each. intros pre x post E.
  apply turns_op. intros w Hw <-. rewrite <- Hw.
  destruct (law_create w (cs_Name x) (cs_SavePath x)) as (w' & ? & ? & ?); [|by exists w'].
  rewrite Hw, (lookup_foldl_insert _ _ _ _ _ (cs_SavePath x)); rewrite E in *.
  - rewrite decide_False; [apply Hc; set_solver|].
    rewrite fmap_app, fmap_cons in Hnd. apply NoDup_app in Hnd as (_ & Hd & _).
    intros Hin. by apply (Hd _ Hin); left.
  - intros y Hy Hn. exfalso. rewrite fmap_app, fmap_cons in Hnd.
    apply NoDup_app in Hnd as (_ & Hd & _). apply (Hd (cs_Name x)); [|by left].
    rewrite <- Hn. by apply list_elem_of_fmap_2.
Qed.

Lemma turns_updates plan c t :
  rp_InstanceID plan = inst →
  (∀ x, x ∈ cp_Update (rp_Categories plan) → is_Some (c !! cu_Name x)) →
  turns (for_each (λ update, check_ctx ;;
      err ← call (λ w, EditCategory w (rp_InstanceID plan) (cu_Name update) (cu_DesiredPath update));
      record "update_category" (cu_Name update) err (note_applied (add_cat_updated [cu_Name update])))
      (cp_Update (rp_Categories plan)))
    c (foldl (λ m x, <[cu_Name x := cu_DesiredPath x]> m) c (cp_Update (rp_Categories plan))) t t.
Proof.
  intros -> Hc. apply turns_for_each. intros pre x post E.
  apply turns_op. intros w Hw <-. rewrite <- Hw.
  destruct (law_edit w (cu_Name x) (cu_DesiredPath x)) as (w' & ? & ? & ?); [|by exists w'].
  rewrite Hw. assert (is_Some (c !! cu_Name x)) as Hx by (apply Hc; rewrite E; set_solver).
  by apply lookup_foldl_insert_some.
Qed.

Lemma turns_deletes plan c t :
  rp_InstanceID plan = inst →
  turns (if bool_decide (cp_Delete (rp_Categories plan) = []) then mret tt else
    check_ctx ;;
    batch_or_each (λ w ns, RemoveCategories w (rp_InstanceID plan) ns) "delete_category"
      (λ ns, note_applied (add_cat_deleted ns)) (cp_Delete (rp_Categories plan)))
    c (filter (λ kv, kv.1 ∉ cp_Delete (rp_Categories plan)) c) t t.
Proof.
  intros ->. case_bool_decide as E.
  - rewrite E, map_filter_id; [apply turns_ret|]. intros; apply not_elem_of_nil.
  - eapply turns_bind; [apply turns_ctx|]. apply turns_batch. intros w <- <-.
    apply law_remove.
Qed.

Lemma turns_tags plan c t :
  rp_InstanceID plan = inst →
  turns (applyTagPlan plan) c c t
    ((t ∪ list_to_set (ts_Name <$> tp_Create (rp_Tags plan))) ∖
       list_to_set (tp_Delete (rp_Tags plan))).
Proof.
  intros Hi. unfold applyTagPlan. cbn zeta. rewrite Hi. eapply turns_bind.
  - instantiate (1 := t ∪ list_to_set (ts_Name <$> tp_Create (rp_Tags plan))).
    instantiate (1 := c). case_bool_decide as E.
    + rewrite E. simpl. rewrite (right_id_L ∅ (∪)). apply turns_ret.
    + eapply turns_bind; [apply turns_ctx|]. apply turns_batch. intros w <- <-.
      apply law_create_tags.
  - case_bool_decide as E.
    + rewrite E. simpl. rewrite difference_empty_L. apply turns_ret.
    + eapply turns_bind; [apply turns_ctx|]. apply turns_batch. intros w <- <-.
      apply law_delete_tags.
Qed.
End convergence.

Lemma lookup_filter_keys {V} (de : list string) (m : gmap string V) n :
  filter (λ kv, kv.1 ∉ de) m !! n = if decide (n ∈ de) then None else m !! n.
Proof.
  rewrite map_lookup_filter. destruct (m !! n) as [v|]; simpl; [|by case_decide].
  case_decide; [rewrite option_guard_False by tauto|rewrite option_guard_True by done]; done.
Qed.

(** The category map after creating, re-pathing and deleting what the plan
    says is the snapshot's. *)
Lemma category_ops_reach_snapshot (live : gmap string LiveCategory)
    (snapshot : gmap string CategorySnapshot) (r : MapRange) :
  normal_keys TrimSpace snapshot → normal_keys TrimSpace live →
  (∀ k v, snapshot !! k = Some v → TrimSpace (csn_SavePath v) = csn_SavePath v) →
  let plan := buildCategoryPlan r snapshot live RestoreModeComplete in
  let m1 := foldl (λ m x, <[cs_Name x := cs_SavePath x]> m) (lc_SavePath <$> live) (cp_Create plan) in
  let m2 := foldl (λ m x, <[cu_Name x := cu_DesiredPath x]> m) m1 (cp_Update plan) in
  filter (λ kv, kv.1 ∉ cp_Delete plan) m2 = csn_SavePath <$> snapshot.
Proof.
  intros Hs Hl Hp. cbn zeta. rewrite buildCategoryPlan_eq. unfold cp_Create, cp_Update, cp_Delete.
  apply map_eq. intros n. rewrite lookup_fmap, lookup_filter_keys.
  set (cr := sort_by cs_Name _). set (up := sort_by cu_Name _). set (de := sort_strings _).
  assert (n ∈ de ↔ is_Some (live !! n) ∧ snapshot !! n = None) as Hde.
  { unfold de. rewrite elem_of_sort_strings.
    change (include_deletes RestoreModeComplete) with true. cbn iota. by rewrite elem_of_deletes. }
  assert (∀ x, x ∈ cr → live !! cs_Name x = None ∧ ∃ v, snapshot !! cs_Name x = Some v ∧
    cs_SavePath x = csn_SavePath v) as Hcr.
  { intros x. unfold cr. rewrite elem_of_sort_by, elem_of_category_create by done.
    intros (? & v & Hv & ->). split; [done|]. rewrite (Hp _ v Hv). eauto. }
  assert (∀ x, x ∈ up → ∃ v, snapshot !! cu_Name x = Some v ∧ cu_DesiredPath x = csn_SavePath v)
    as Hup.
  { intros x. unfold up. rewrite elem_of_sort_by, elem_of_category_update by done.
    intros (_ & v & c & Hv & _ & _ & -> & _). rewrite (Hp _ v Hv). eauto. }
  destruct (snapshot !! n) as [v|] eqn:Hv; simpl.
  - rewrite (lookup_foldl_insert _ _ up _ _ (csn_SavePath v)),
      (lookup_foldl_insert _ _ cr _ _ (csn_SavePath v)), lookup_fmap.
    2:{ intros x (_ & v' & Hv' & ->)%Hcr <-. congruence. }
    2:{ intros x (v' & Hv' & ->)%Hup <-. congruence. }
    rewrite (decide_False (P := n ∈ de)) by (rewrite Hde; by intros [_ ?]).
    destruct (decide (n ∈ cu_Name <$> up)) as [|Hnu]; [done|].
    destruct (decide (n ∈ cs_Name <$> cr)) as [|Hnc]; [done|].
    destruct (live !! n) as [c|] eqn:Hc; simpl.
    + f_equal.
      destruct (decide (csn_SavePath v = lc_SavePath c)) as [|Hne]; [done|]. exfalso. apply Hnu.
      apply list_elem_of_fmap. exists (MkCategoryUpdate n (lc_SavePath c) (csn_SavePath v)).
      split; [done|]. apply elem_of_sort_by, elem_of_category_update; [done|]. simpl.
      split; [done|]. exists v, c. by rewrite (Hp n v Hv).
    + exfalso. apply Hnc. apply list_elem_of_fmap. exists (MkCategorySpec n (csn_SavePath v)).
      split; [done|]. apply elem_of_sort_by, elem_of_category_create; [done|]. simpl.
      split; [done|]. exists v. by rewrite (Hp n v Hv).
  - rewrite (lookup_foldl_insert _ _ up _ _ ""), (lookup_foldl_insert _ _ cr _ _ ""), lookup_fmap.
    2:{ intros x (_ & v' & Hv' & _)%Hcr <-. congruence. }
    2:{ intros x (v' & Hv' & _)%Hup <-. congruence. }
    rewrite (decide_False (P := n ∈ cu_Name <$> up)), (decide_False (P := n ∈ cs_Name <$> cr)).
    2:{ intros (x & -> & (_ & ? & ? & _)%Hcr)%list_elem_of_fmap. congruence. }
    2:{ intros (x & -> & (? & ? & _)%Hup)%list_elem_of_fmap. congruence. }
    destruct (live !! n) as [c|] eqn:Hc; simpl; [|by case_decide].
    rewrite decide_True; [done|]. rewrite Hde. by eauto.
Qed.

Lemma created_names_NoDup (r : MapRange) (snapshot : gmap string CategorySnapshot)
    (live : gmap string LiveCategory) mode :
  normal_keys TrimSpace snapshot →
  NoDup (cs_Name <$> cp_Create (buildCategoryPlan r snapshot live mode)).
Proof.
  intros Hs. rewrite buildCategoryPlan_eq. unfold cp_Create.
  rewrite sort_by_perm. apply (NoDup_omap_key _ fst); [|apply NoDup_range].
  intros [k v] y Hin%elem_of_range ->%category_create_key. by destruct (Hs _ _ Hin).
Qed.

(** C27. On a healthy instance, executing the
    category and tag parts of a [complete] plan succeeds, records no error and
    leaves exactly the categories of the snapshot, at the snapshot's save
    paths, and exactly its tags, whatever the instance had before. *)
Theorem complete_restore_converges {W} `{!RestoreBackend W} `{!UnicodeCase}
    (r : MapRange) (s : SnapshotState) (l : LiveState) (plan : RestorePlan)
    (cats : W → gmap string string) (tags : W → gset string) (w : W) :
  CategoryTagLaws W (ss_InstanceID s) cats tags →
  wf_snapshot s → wf_live l →
  cats w = lc_SavePath <$> ls_Categories l → tags w = dom (ls_Tags l) →
  buildRestorePlan r (Some s) (Some l) RestoreModeComplete = Ok plan →
  ∃ x, (applyCategoryPlan plan ;; applyTagPlan plan) (MkXState w no_applied [] [] []) = (x, Ok tt) ∧
    xs_errs x = [] ∧
    cats (xs_world x) = csn_SavePath <$> ss_Categories s ∧ tags (xs_world x) = dom (ss_Tags s).
Proof.
  intros Hlaws [Hc Hp Ht _ _] [Hlc _ Hlt _ _] Hcw Htw. unfold buildRestorePlan. cbn zeta.
  rewrite result_bind_ok. intros (tp & _ & [= <-]).
  set (plan := MkRestorePlan _ _ _ _ _ _).
  assert (rp_InstanceID plan = ss_InstanceID s) as Hi by done.
  set (live := lc_SavePath <$> ls_Categories l) in *.
  destruct (turns_bind cats tags (applyCategoryPlan plan) (applyTagPlan plan) live
    (csn_SavePath <$> ss_Categories s) (csn_SavePath <$> ss_Categories s)
    (dom (ls_Tags l)) (dom (ls_Tags l)) (dom (ss_Tags s))) with
    (s := MkXState w no_applied [] [] []) as (x & E & He & Hx1 & Hx2); [..|done|done|by exists x].
  - eapply turns_bind; [apply (turns_creates (ss_InstanceID s)); [done|done|by apply created_names_NoDup|]|
      eapply turns_bind; [apply (turns_updates (ss_InstanceID s)); [done|done|]|]].
    + intros y. unfold plan, live. cbn [rp_Categories].
      rewrite buildCategoryPlan_eq. cbn [cp_Create].
      rewrite elem_of_sort_by, elem_of_category_create, lookup_fmap by done.
      by intros [-> _].
    + intros y. unfold plan. cbn [rp_Categories]. rewrite buildCategoryPlan_eq. cbn [cp_Update].
      rewrite elem_of_sort_by, elem_of_category_update by done.
      intros (_ & v & c & _ & Hlive & _). apply lookup_foldl_insert_some.
      unfold live. rewrite lookup_fmap, Hlive. by eexists.
    + unfold live. pose proof (category_ops_reach_snapshot (ls_Categories l) (ss_Categories s) r
        Hc Hlc Hp) as E. cbn zeta in E. rewrite <- E.
      by apply (turns_deletes (ss_InstanceID s)).
  - replace (dom (ss_Tags s)) with ((dom (ls_Tags l) ∪ list_to_set (ts_Name <$> tp_Create (rp_Tags plan)))
      ∖ list_to_set (tp_Delete (rp_Tags plan)) : gset string); [by apply (turns_tags (ss_InstanceID s))|].
    apply set_eq. intros n. unfold plan. cbn [rp_Tags]. rewrite buildTagPlan_eq.
    rewrite elem_of_difference, elem_of_union, !elem_of_list_to_set, !elem_of_dom. cbn [tp_Create tp_Delete].
    change (include_deletes RestoreModeComplete) with true. cbn iota.
    rewrite elem_of_sort_strings, elem_of_deletes by done.
    assert (n ∈ ts_Name <$> sort_by ts_Name (omap (tag_create (ls_Tags l)) (range r 4 (ss_Tags s)))
      ↔ is_Some (ss_Tags s !! n) ∧ ls_Tags l !! n = None) as ->.
    { rewrite list_elem_of_fmap. split.
      - intros (spec & -> & Hspec). by rewrite elem_of_sort_by, elem_of_tag_create in Hspec.
      - intros Hn. exists (MkTagSpec n). split; [done|].
        by rewrite elem_of_sort_by, elem_of_tag_create. }
    destruct (ss_Tags s !! n), (ls_Tags l !! n); rewrite ?is_Some_alt; simpl; naive_solver.
Qed.

(** ** A concrete instance *)

(** A healthy instance that keeps its categories and tags and logs the hashes
    it was asked to change. *)
Record toy := MkToy { toy_cats : gmap string string; toy_tags : gset string; toy_log : list string }.

#[export] Instance toy_backend : RestoreBackend toy := {|
  live_reader w := sample_reader;
  ctx_Err w := (w, None);
  CreateCategory w _ n p := match toy_cats w !! n with
    | Some _ => (w, Some "conflict")
    | None => (MkToy (<[n:=p]> (toy_cats w)) (toy_tags w) (toy_log w), None) end;
  EditCategory w _ n p := match toy_cats w !! n with
    | None => (w, Some "not found")
    | Some _ => (MkToy (<[n:=p]> (toy_cats w)) (toy_tags w) (toy_log w), None) end;
  RemoveCategories w _ ns :=
    (MkToy (filter (λ kv, kv.1 ∉ ns) (toy_cats w)) (toy_tags w) (toy_log w), None);
  CreateTags w _ ts := (MkToy (toy_cats w) (toy_tags w ∪ list_to_set ts) (toy_log w), None);
  DeleteTags w _ ts := (MkToy (toy_cats w) (toy_tags w ∖ list_to_set ts) (toy_log w), None);
  AddTorrent w _ payload _ := (w, None);
  SetCategory w _ hs _ := (MkToy (toy_cats w) (toy_tags w) (toy_log w ++ hs), None);
  SetTags w _ hs _ := (MkToy (toy_cats w) (toy_tags w) (toy_log w ++ hs), None);
  BulkAction w _ hs _ := (MkToy (toy_cats w) (toy_tags w) (toy_log w ++ hs), None);
  ResumeWhenComplete w _ hs := MkToy (toy_cats w) (toy_tags w) (toy_log w ++ hs);
  ReadFile w p := if bool_decide (p = "/data/blobs/aa11") then FileData "payload"
                  else FileNotExist "no such file";
|}.

Lemma toy_laws inst : CategoryTagLaws toy inst toy_cats toy_tags.
Proof.
  split; intros w *; try (by eexists).
  - intros E. eexists. simpl. by rewrite E.
  - intros [p' E]. eexists. simpl. by rewrite E.
Qed.

Definition sample_plan : RestorePlan :=
  match @buildRestorePlan AsciiCase key_order (Some sample_snapshot) (Some sample_live)
          RestoreModeComplete with
  | Ok p => p
  | Err _ => MkRestorePlan "" 0 0 (MkCategoryPlan [] [] []) (MkTagPlan [] []) (MkTorrentPlan [] [] [])
  end.

Definition sample_toy : toy :=
  MkToy (lc_SavePath <$> ls_Categories sample_live) (dom (ls_Tags sample_live)) [].

Lemma complete_restore_converges_witness :
  ∃ x : xstate toy, xs_errs x = [] ∧
    toy_cats (xs_world x) = {["films" := "/data/films"; "tv" := "/data/tv"]}.
Proof.
  destruct (@complete_restore_converges toy toy_backend AsciiCase key_order sample_snapshot
    sample_live sample_plan toy_cats toy_tags sample_toy (toy_laws 7) sample_snapshot_wf
    sample_live_wf eq_refl eq_refl eq_refl) as (x & _ & He & Hc & _).
  exists x. split; [exact He|]. rewrite Hc. by vm_compute.
Defined.

Lemma blob_reads_confined_witness :
  loadTorrentBlobData "/srv" "/data" (λ p, if bool_decide (p = "/etc/shadow") then FileData "secret"
      else FileNotExist "no such file") "../../etc/shadow" =
  loadTorrentBlobData "/srv" "/data" (λ p, FileNotExist "no such file") "../../etc/shadow".
Proof.
  apply blob_reads_confined; [reflexivity|]. intros p Hp. case_bool_decide as E; [|reflexivity].
  exfalso. subst p. destruct Hp as [Hp|(cs & Hne & Hin & Hp)]; vm_compute in Hp; discriminate Hp.
Defined.

Definition sample_opts : RestoreOptions := MkRestoreOptions false false false false [" AA11"].

Lemma excluded_torrents_untouched_witness :
  "aa11" ∉ toy_log (xs_world (@applyTorrentPlan toy toy_backend AsciiCase "/srv" "/data" sample_plan
    (@buildHashSet AsciiCase (ro_ExcludeHashes sample_opts)) sample_opts
    (MkXState sample_toy no_applied [] [] [])).1).
Proof.
  refine (proj1 (@excluded_torrents_untouched toy toy_backend AsciiCase
    (λ w hs, ("aa11" ∉ toy_log w) ∧ ("aa11" ∉ hs)) "/srv" "/data" sample_plan sample_opts
    (MkXState sample_toy no_applied [] [] []) _ _)).
  - assert (∀ h, @shouldSkipTorrent AsciiCase h (@buildHashSet AsciiCase
      (ro_ExcludeHashes sample_opts)) = false → "aa11" ∉ [h]) as Hex.
    { intros h Hh E%list_elem_of_singleton. subst h. by vm_compute in Hh. }
    split; simpl; intros; rewrite ?not_elem_of_app; try tauto.
    + split; [|tauto]. split; [tauto|by apply Hex].
    + split; [|tauto]. split; [tauto|by apply Hex].
    + split; [tauto|]. split; [tauto|by apply Hex].
    + split; [|tauto]. split; [tauto|]. rewrite Forall_forall in *. intros Hin.
      apply (Hex "aa11"); [auto|by left].
  - split; apply not_elem_of_nil.
Defined.

Definition sample_result : RestoreResult :=
  match @ExecuteRestore toy toy_backend AsciiCase key_order sample_load true "/srv" "/data" sample_toy
          1 RestoreModeComplete (MkRestoreOptions false false false false []) with
  | (_, Some res, _) => res
  | _ => MkRestoreResult "" 0 0 false sample_plan no_applied [] []
  end.

Lemma restore_accounts_for_everything_witness :
  "cc33" ∈ ap_TorrentsDeleted (rr_Applied sample_result) ∨
  ∃ e, MkRestoreError "delete_torrent" "cc33" e ∈ rr_Errors sample_result.
Proof.
  refine (proj2 (proj2 (proj2 (proj2 (proj2 (proj2 (proj2 (@restore_accounts_for_everything toy toy_backend
    AsciiCase key_order sample_load true "/srv" "/data" sample_toy
    (@ExecuteRestore toy toy_backend AsciiCase key_order sample_load true "/srv" "/data" sample_toy
      1 RestoreModeComplete (MkRestoreOptions false false false false [])).1.1
    1 RestoreModeComplete (MkRestoreOptions false false false false []) sample_result _)))))))
    "cc33" _).
  - by vm_compute.
  - refine (bool_decide_eq_true_1 _ _). by vm_compute.
Defined.
