(* ===== verification/RateLimiter.v ===== *)
(** * [internal/services/jackett/scheduler.go]: the per-indexer rate limiter

    Times are [time.Duration]s since the limiter's [startTime], int64
    nanoseconds; every method that reads the clock takes the reading [now] as
    an argument.  A state that does not exist yet is created by
    [getStateLocked], as in the code. *)

From Stdlib Require Import ZArith Lia.
From stdpp Require Import base numbers list strings gmap.
From S2P Require Import Prelude.
From S2P Require Import GoFloat.

Open Scope Z_scope.

Definition Minute : Z := 60 * Second.
Definition Hour : Z := 60 * Minute.

Definition defaultMinRequestInterval : Z := 60 * Second.

Definition escalationPeriods : list Z :=
  [0; 1 * Minute; 5 * Minute; 15 * Minute; 30 * Minute; 1 * Hour; 3 * Hour; 6 * Hour; 12 * Hour;
   24 * Hour].

Definition RateLimitPriorityInteractive : string := "interactive".
Definition RateLimitPriorityRSS : string := "rss".
Definition RateLimitPriorityCompletion : string := "completion".
Definition RateLimitPriorityBackground : string := "background".

(** The doubles nearest to 0.1, 0.5, 0.7 and 1. *)
Definition priorityMultipliers : gmap string float64 := {[
  RateLimitPriorityInteractive := f64_const 7205759403792794 (-56);
  RateLimitPriorityRSS := f64_const 4503599627370496 (-53);
  RateLimitPriorityCompletion := f64_const 6305039478318694 (-53);
  RateLimitPriorityBackground := f64_const 4503599627370496 (-52) ]}.

Record RateLimitOptions := MkRateLimitOptions {
  rlo_Priority : string; rlo_MinInterval : Z; rlo_MaxWait : Z }.

Record indexerRateState := MkRateState {
  lastStarted : Z; lastCompleted : Z; cooldownUntil : Z; escalationLevel : nat }.

Definition fresh_state : indexerRateState := MkRateState (-1) (-1) 0 0.

Record RateLimiter := MkRateLimiter {
  rl_minInterval : Z; rl_states : gmap Z indexerRateState }.

Definition NewRateLimiter (minInterval : Z) : RateLimiter :=
  MkRateLimiter (if minInterval <=? 0 then defaultMinRequestInterval else minInterval) ∅.

(** The state [getStateLocked] finds or creates. *)
Definition state_of (r : RateLimiter) (id : Z) : indexerRateState :=
  default fresh_state (rl_states r !! id).

Definition put_state (r : RateLimiter) (id : Z) (st : indexerRateState) : RateLimiter :=
  MkRateLimiter (rl_minInterval r) (<[id := st]> (rl_states r)).

Definition getStateLocked (r : RateLimiter) (id : Z) : RateLimiter * indexerRateState :=
  match rl_states r !! id with
  | Some st => (r, st)
  | None => (put_state r id fresh_state, fresh_state)
  end.

(** [dur] is the clock reading, or the time given by the caller. *)
Definition RecordRequestStart (r : RateLimiter) (id dur : Z) : RateLimiter :=
  let '(r, st) := getStateLocked r id in
  put_state r id (MkRateState dur (lastCompleted st) (cooldownUntil st) (escalationLevel st)).

Definition RecordRequestComplete (r : RateLimiter) (id dur : Z) : RateLimiter :=
  let '(r, st) := getStateLocked r id in
  put_state r id (MkRateState (lastStarted st) dur (cooldownUntil st) (escalationLevel st)).

(** Assigns the cooldown when it is later than the one in force. *)
Definition raise_cooldown (st : indexerRateState) (cooldownDur : Z) : indexerRateState :=
  if cooldownUntil st <? cooldownDur
  then MkRateState (lastStarted st) (lastCompleted st) cooldownDur (escalationLevel st)
  else st.

Definition SetCooldown (r : RateLimiter) (id until : Z) : RateLimiter :=
  let '(r, st) := getStateLocked r id in put_state r id (raise_cooldown st until).

(** [cooldowns] lists the entries of the map in the order of the range loop;
    [None] is the zero time. *)
Definition LoadCooldowns (r : RateLimiter) (cooldowns : list (Z * option Z)) : RateLimiter :=
  foldl (λ r kv, match kv.2 with None => r | Some until => SetCooldown r kv.1 until end) r cooldowns.

Definition ClearCooldown (r : RateLimiter) (id : Z) : RateLimiter :=
  let '(r, st) := getStateLocked r id in
  put_state r id (MkRateState (lastStarted st) (lastCompleted st) 0 (escalationLevel st)).

Definition RecordFailure (now : Z) (r : RateLimiter) (id : Z) : RateLimiter * Z :=
  let '(r, st) := getStateLocked r id in
  let level := if (escalationLevel st <? length escalationPeriods - 1)%nat
               then S (escalationLevel st) else escalationLevel st in
  let cooldown := default 0 (escalationPeriods !! level) in
  (put_state r id (MkRateState (lastStarted st) (lastCompleted st)
     (if 0 <? cooldown then i64 (now + cooldown) else cooldownUntil st) level), cooldown).

Definition RecordSuccess (r : RateLimiter) (id : Z) : RateLimiter :=
  let '(r, st) := getStateLocked r id in
  put_state r id (MkRateState (lastStarted st) (lastCompleted st) (cooldownUntil st) 0).

Definition in_cooldown (st : indexerRateState) (now : Z) : bool :=
  (0 <? cooldownUntil st) && (now <? cooldownUntil st).

(** The end of the cooldown in force, if any. *)
Definition IsInCooldown (now : Z) (r : RateLimiter) (id : Z) : RateLimiter * option Z :=
  let '(r, st) := getStateLocked r id in
  (r, if in_cooldown st now then Some (cooldownUntil st) else None).

Definition GetCooldownIndexers (now : Z) (r : RateLimiter) : gmap Z Z :=
  omap (λ st, if in_cooldown st now then Some (cooldownUntil st) else None) (rl_states r).

Definition computeWaitLocked (r : RateLimiter) (id now minInterval : Z) : RateLimiter * Z :=
  let minInterval := if minInterval <=? 0 then rl_minInterval r else minInterval in
  let '(r, st) := getStateLocked r id in
  let wait := if in_cooldown st now then i64 (cooldownUntil st - now) else 0 in
  let wait :=
    if (0 <? minInterval) && (0 <=? lastCompleted st) then
      let next := i64 (lastCompleted st + minInterval) in
      if now <? next then
        let delay := i64 (next - now) in
        if wait <? delay then delay else wait
      else wait
    else wait in
  (r, wait).

Definition resolveOptions (r : RateLimiter) (opts : option RateLimitOptions) : RateLimitOptions :=
  let cfg := MkRateLimitOptions RateLimitPriorityBackground (rl_minInterval r) 0 in
  let cfg :=
    match opts with
    | None => cfg
    | Some opts =>
      MkRateLimitOptions
        (if bool_decide (rlo_Priority opts = "") then rlo_Priority cfg else rlo_Priority opts)
        (if 0 <? rlo_MinInterval opts then rlo_MinInterval opts else rlo_MinInterval cfg)
        (if 0 <? rlo_MaxWait opts then rlo_MaxWait opts else rlo_MaxWait cfg)
    end in
  let interval := if rlo_MinInterval cfg <=? 0 then defaultMinRequestInterval
                  else rlo_MinInterval cfg in
  MkRateLimitOptions (rlo_Priority cfg)
    match priorityMultipliers !! rlo_Priority cfg with
    | Some multiplier => f64_to_i64 (f64_mul (f64_of_Z interval) multiplier)
    | None => interval
    end (rlo_MaxWait cfg).

(** [indexer] is the indexer's ID, [None] the nil pointer. *)
Definition NextWait (now : Z) (r : RateLimiter) (indexer : option Z)
    (opts : option RateLimitOptions) : RateLimiter * Z :=
  match indexer with
  | None => (r, 0)
  | Some id => computeWaitLocked r id now (rlo_MinInterval (resolveOptions r opts))
  end.

(** ** [WaitForMinInterval] *)

(** The outcome of one iteration of the loop, up to the timer. *)
Inductive slot_outcome :=
| SlotGranted
| SlotCancelled (err : string)
| SlotSleep (wait : Z).

(** One iteration, the part under the lock. *)
Definition try_slot (now : Z) (ctxErr : option string) (interval : Z) (r : RateLimiter) (id : Z)
    : RateLimiter * slot_outcome :=
  let '(r, st) := getStateLocked r id in
  let wait :=
    if (0 <? interval) && (0 <=? lastCompleted st) then
      let next := i64 (lastCompleted st + interval) in
      if now <? next then i64 (next - now) else 0
    else 0 in
  if wait <=? 0 then
    match ctxErr with
    | Some e => (r, SlotCancelled e)
    | None => (put_state r id (MkRateState now now (cooldownUntil st) (escalationLevel st)),
               SlotGranted)
    end
  else (r, SlotSleep wait).

(** What the [n]-th iteration observes: the clock, [ctx.Err()] under the lock,
    the error when the context ends before the timer fires, and what the other
    goroutines did to the limiter while this one slept. *)
Record slot_env := MkSlotEnv {
  se_now : nat → Z; se_ctxErr : nat → option string; se_done : nat → option string;
  se_others : nat → RateLimiter → RateLimiter }.

(** The whole call; [None] when [fuel] iterations were not enough. *)
Fixpoint wait_loop (fuel n : nat) (env : slot_env) (interval : Z) (r : RateLimiter) (id : Z)
    : option (RateLimiter * option string) :=
  match fuel with
  | O => None
  | S fuel =>
    match try_slot (se_now env n) (se_ctxErr env n) interval r id with
    | (r, SlotGranted) => Some (r, None)
    | (r, SlotCancelled e) => Some (r, Some e)
    | (r, SlotSleep _) =>
      match se_done env n with
      | Some e => Some (r, Some e)
      | None => wait_loop fuel (S n) env interval (se_others env n r) id
      end
    end
  end.

Definition WaitForMinInterval (fuel : nat) (env : slot_env) (r : RateLimiter)
    (indexer : option Z) (opts : option RateLimitOptions) : option (RateLimiter * option string) :=
  match indexer with
  | None => Some (r, None)
  | Some id => wait_loop fuel 0 env (rlo_MinInterval (resolveOptions r opts)) r id
  end.

(** ** Lemmas on the states *)

Lemma state_of_put r id id' st :
  state_of (put_state r id st) id' = if decide (id = id') then st else state_of r id'.
Proof. unfold state_of, put_state. simpl. rewrite lookup_insert. by case_decide. Qed.

(** Creating the default state is not observable. *)
Lemma getStateLocked_spec r id :
  (getStateLocked r id).2 = state_of r id ∧
  rl_minInterval (getStateLocked r id).1 = rl_minInterval r ∧
  ∀ id', state_of (getStateLocked r id).1 id' = state_of r id'.
Proof.
  unfold getStateLocked, state_of. destruct (rl_states r !! id) as [st|] eqn:E; simpl; [done|].
  split_and!; [done..|]. intros id'. rewrite lookup_insert. case_decide; [|done]. by subst; rewrite E.
Qed.

(** Splits a use of [getStateLocked] into the state it returns and the facts
    about the limiter it returns. *)
Ltac get_state r id :=
  let r' := fresh r "'" in let st := fresh "st" in
  let E1 := fresh "Est" in let E2 := fresh "Emin" in let E3 := fresh "Esame" in
  destruct (getStateLocked_spec r id) as (E1 & E2 & E3);
  destruct (getStateLocked r id) as [r' st]; cbn [fst snd] in E1, E2, E3; subst st.

Lemma rl_minInterval_put r id st : rl_minInterval (put_state r id st) = rl_minInterval r.
Proof. done. Qed.

#[export] Hint Rewrite state_of_put rl_minInterval_put : qui.

(** ** How long until an indexer is free *)

(** The bound on every clock reading, interval and cooldown below which no
    int64 operation of the limiter wraps: 146 years of uptime. *)
Definition horizon : Z := 2 ^ 62.

(** What the operations maintain with a monotonic clock. *)
Definition sane_state (now : Z) (st : indexerRateState) : Prop :=
  -1 ≤ lastCompleted st ≤ now ∧ 0 ≤ cooldownUntil st < horizon.
Definition sane (now : Z) (r : RateLimiter) : Prop := ∀ id, sane_state now (state_of r id).

(** The interval [NextWait] uses. *)
Definition effective_interval (r : RateLimiter) (opts : option RateLimitOptions) : Z :=
  let i := rlo_MinInterval (resolveOptions r opts) in if i <=? 0 then rl_minInterval r else i.

(** The indexer may not be asked at time [t]. *)
Definition blocked_at (st : indexerRateState) (interval t : Z) : Prop :=
  t < cooldownUntil st ∨ (0 ≤ lastCompleted st ∧ t < lastCompleted st + interval).

(** Evaluates the comparisons of a goal. *)
Ltac z_cases :=
  repeat match goal with
  | |- context [?x <? ?y] => destruct (Z.ltb_spec x y)
  | |- context [?x <=? ?y] => destruct (Z.leb_spec x y)
  end; simpl.

(** [NextWait] is exact: at every time from now on the indexer
    is blocked (by its cooldown, or by the minimum interval since its last
    completed request) if and only if the time is before [now + wait].  Asking
    does not change the limiter. *)
Theorem NextWait_exact (now : Z) (r : RateLimiter) (id : Z) (opts : option RateLimitOptions) :
  0 ≤ now < horizon → sane now r → 0 < effective_interval r opts < horizon →
  let '(r', wait) := NextWait now r (Some id) opts in
  0 ≤ wait ∧
  (∀ t, now ≤ t → blocked_at (state_of r id) (effective_interval r opts) t ↔ t < now + wait) ∧
  ∀ id', state_of r' id' = state_of r id'.
Proof.
  intros Hn Hs. unfold effective_interval, NextWait, computeWaitLocked. cbn zeta.
  generalize (rlo_MinInterval (resolveOptions r opts)). intros i.
  generalize (if i <=? 0 then rl_minInterval r else i). clear i. intros i Hi.
  specialize (Hs id) as (Hc & Hu). get_state r id. revert Hc Hu.
  generalize (state_of r id). intros st Hc Hu. unfold blocked_at, in_cooldown, horizon in *.
  assert (∀ z, - 2 ^ 62 ≤ z < 2 ^ 63 → i64 z = z) as Hid
    by (intros z Hz; apply i64_id; unfold in_i64, min_i64, max_i64; lia).
  rewrite !(Hid (lastCompleted st + i)), !(Hid (lastCompleted st + i - now)),
    !(Hid (cooldownUntil st - now)) by lia.
  assert ((if (0 <? cooldownUntil st) && (now <? cooldownUntil st)
           then cooldownUntil st - now else 0) = Z.max 0 (cooldownUntil st - now)) as ->
    by (z_cases; lia).
  z_cases; (split_and!; [lia|intros t Ht; split; lia|done]).
Qed.

(** ** Escalating back-off *)

(** A call of one of the limiter's methods. *)
Inductive rl_op :=
| OpStart (id dur : Z)
| OpComplete (id dur : Z)
| OpSetCooldown (id until : Z)
| OpLoadCooldowns (cooldowns : list (Z * option Z))
| OpClearCooldown (id : Z)
| OpFailure (now id : Z)
| OpSuccess (id : Z)
| OpIsInCooldown (now id : Z)
| OpNextWait (now : Z) (indexer : option Z) (opts : option RateLimitOptions)
| OpSlot (now : Z) (ctxErr : option string) (interval id : Z).

Definition run_op (r : RateLimiter) (op : rl_op) : RateLimiter :=
  match op with
  | OpStart id dur => RecordRequestStart r id dur
  | OpComplete id dur => RecordRequestComplete r id dur
  | OpSetCooldown id until => SetCooldown r id until
  | OpLoadCooldowns cooldowns => LoadCooldowns r cooldowns
  | OpClearCooldown id => ClearCooldown r id
  | OpFailure now id => (RecordFailure now r id).1
  | OpSuccess id => RecordSuccess r id
  | OpIsInCooldown now id => (IsInCooldown now r id).1
  | OpNextWait now indexer opts => (NextWait now r indexer opts).1
  | OpSlot now ctxErr interval id => (try_slot now ctxErr interval r id).1
  end.

(** The failures of [id] since its last success. *)
Definition failures_since_success (id : Z) (ops : list rl_op) : nat :=
  foldl (λ n op, match op with
    | OpFailure _ id' => if decide (id' = id) then S n else n
    | OpSuccess id' => if decide (id' = id) then O else n
    | _ => n
    end) O ops.

Lemma SetCooldown_level r id until id' :
  escalationLevel (state_of (SetCooldown r id until) id') = escalationLevel (state_of r id').
Proof.
  unfold SetCooldown. get_state r id. rewrite state_of_put. case_decide as E; [subst|by rewrite Esame].
  unfold raise_cooldown. by destruct (_ <? _).
Qed.

Lemma LoadCooldowns_level cooldowns r id :
  escalationLevel (state_of (LoadCooldowns r cooldowns) id) = escalationLevel (state_of r id).
Proof.
  revert r. induction cooldowns as [|[i [until|]] l IH]; intros r; [done| |apply IH].
  change (LoadCooldowns r ((i, Some until) :: l)) with (LoadCooldowns (SetCooldown r i until) l).
  by rewrite IH, SetCooldown_level.
Qed.

Lemma RecordFailure_spec now r id id' :
  let '(r', cooldown) := RecordFailure now r id in
  let level := Nat.min 9 (S (escalationLevel (state_of r id))) in
  (escalationLevel (state_of r id) ≤ 9)%nat →
  escalationLevel (state_of r' id') =
    (if decide (id = id') then level else escalationLevel (state_of r id')) ∧
  escalationPeriods !! level = Some cooldown ∧
  cooldownUntil (state_of r' id) = i64 (now + cooldown).
Proof.
  unfold RecordFailure. get_state r id. intros Hl.
  change (length escalationPeriods - 1)%nat with 9%nat.
  set (n := escalationLevel (state_of r id)) in *.
  assert ((if (n <? 9)%nat then S n else n) = Nat.min 9 (S n)) as -> 
    by (destruct (Nat.ltb_spec n 9); lia).
  assert (1 ≤ Nat.min 9 (S n) ≤ 9)%nat as Hlevel by lia. revert Hlevel.
  generalize (Nat.min 9 (S n)). intros level Hlevel.
  rewrite !state_of_put. rewrite (decide_True (P := id = id)) by done.
  split; [case_decide; [done|by rewrite Esame]|].
  destruct level as [|[|[|[|[|[|[|[|[|[|m]]]]]]]]]]; [lia|by split..|lia].
Qed.

(** Closes a goal about one state of a limiter after [put_state]. *)
Ltac put_cases Esame :=
  rewrite ?state_of_put; try case_decide; subst; rewrite ?Esame; done.

Lemma run_op_level r op id :
  (∀ i, (escalationLevel (state_of r i) ≤ 9)%nat) →
  escalationLevel (state_of (run_op r op) id) =
    match op with
    | OpFailure _ id' => if decide (id' = id) then Nat.min 9 (S (escalationLevel (state_of r id)))
                         else escalationLevel (state_of r id)
    | OpSuccess id' => if decide (id' = id) then O else escalationLevel (state_of r id)
    | _ => escalationLevel (state_of r id)
    end.
Proof.
  intros Hl. destruct op as [i d|i d|i u|l|i|now i|i|now i|now [i|] opts|now e iv i]; simpl; try done.
  - unfold RecordRequestStart. get_state r i. put_cases Esame.
  - unfold RecordRequestComplete. get_state r i. put_cases Esame.
  - apply SetCooldown_level.
  - apply LoadCooldowns_level.
  - unfold ClearCooldown. get_state r i. put_cases Esame.
  - pose proof (RecordFailure_spec now r i id) as H. destruct (RecordFailure now r i) as [r' c].
    simpl.
    destruct (H (Hl i)) as [-> _]. case_decide; by subst.
  - unfold RecordSuccess. get_state r i. put_cases Esame.
  - unfold IsInCooldown. get_state r i. by rewrite Esame.
  - unfold computeWaitLocked. get_state r i. by rewrite Esame.
  - unfold try_slot. cbn zeta. get_state r i.
    repeat case_match; simpl; put_cases Esame.
Qed.

Lemma run_ops_level ops id minInterval :
  escalationLevel (state_of (foldl run_op (NewRateLimiter minInterval) ops) id) =
    Nat.min 9 (failures_since_success id ops).
Proof.
  revert id. induction ops as [|op ops IH] using rev_ind; intros id; [done|].
  unfold failures_since_success in *. rewrite !foldl_app. cbn [foldl]. rewrite run_op_level.
  - rewrite IH. destruct op; try done; case_decide; lia.
  - intros i. rewrite IH. lia.
Qed.

(** After any sequence of calls on a new limiter, a failure
    of [id] is answered with the escalation period of the number of failures
    of [id] since its last success, this one included, capped at the last
    level; other indexers, cooldowns set or cleared in between and waiting do
    not change it, and the indexer is in cooldown for that period. *)
Theorem backoff_escalates (minInterval : Z) (ops : list rl_op) (now id : Z) :
  let r := foldl run_op (NewRateLimiter minInterval) ops in
  let '(r', cooldown) := RecordFailure now r id in
  escalationPeriods !! Nat.min 9 (S (failures_since_success id ops)) = Some cooldown ∧
  cooldownUntil (state_of r' id) = i64 (now + cooldown).
Proof.
  cbn zeta. set (r := foldl run_op (NewRateLimiter minInterval) ops).
  pose proof (RecordFailure_spec now r id id) as H.
  destruct (RecordFailure now r id) as [r' c].
  unfold r in H. rewrite run_ops_level in H. destruct H as (_ & Hc & Hu); [lia|].
  split; [|done]. rewrite <- Hc. f_equal. lia.
Qed.

(** ** Spacing of reserved slots *)

(** One attempt to reserve a slot, as [WaitForMinInterval] makes it. *)
Record slot_call := MkSlotCall {
  sl_now : Z; sl_ctxErr : option string; sl_interval : Z; sl_id : Z }.

(** Runs the attempts in order and keeps those that were granted. *)
Fixpoint run_slots (r : RateLimiter) (calls : list slot_call) : list slot_call :=
  match calls with
  | [] => []
  | c :: calls =>
    let '(r', out) := try_slot (sl_now c) (sl_ctxErr c) (sl_interval c) r (sl_id c) in
    match out with
    | SlotGranted => c :: run_slots r' calls
    | _ => run_slots r' calls
    end
  end.

(** The clock never goes back and stays in the horizon. *)
Fixpoint clock_ok (from : Z) (calls : list slot_call) : Prop :=
  match calls with
  | [] => True
  | c :: calls => from ≤ sl_now c < horizon ∧ 0 < sl_interval c < horizon ∧ clock_ok (sl_now c) calls
  end.

Lemma try_slot_spec now e i r id :
  0 ≤ now < horizon → 0 < i < horizon → -1 ≤ lastCompleted (state_of r id) ≤ now →
  let '(r', out) := try_slot now e i r id in
  let free := lastCompleted (state_of r id) = -1 ∨ lastCompleted (state_of r id) + i ≤ now in
  match out with
  | SlotGranted => free ∧ e = None ∧
      ∀ id', state_of r' id' = if decide (id = id') then MkRateState now now
        (cooldownUntil (state_of r id)) (escalationLevel (state_of r id)) else state_of r id'
  | SlotCancelled e' => free ∧ e = Some e' ∧ ∀ id', state_of r' id' = state_of r id'
  | SlotSleep w => ~ free ∧ w = lastCompleted (state_of r id) + i - now ∧
      ∀ id', state_of r' id' = state_of r id'
  end.
Proof.
  unfold try_slot, horizon. intros Hn Hi Hc. cbn zeta. get_state r id. revert Hc.
  set (st := state_of r id). intros Hc.
  assert (∀ z, - 2 ^ 62 ≤ z < 2 ^ 63 → i64 z = z) as Hid
    by (intros z Hz; apply i64_id; unfold in_i64, min_i64, max_i64; lia).
  rewrite !(Hid (lastCompleted st + i)), !(Hid (lastCompleted st + i - now)) by lia.
  assert (∀ id', state_of (put_state r' id (MkRateState now now (cooldownUntil st)
    (escalationLevel st))) id' = if decide (id = id') then MkRateState now now (cooldownUntil st)
    (escalationLevel st) else state_of r id') as Hput.
  { intros id'. rewrite state_of_put. by case_decide. }
  match goal with |- context [if ?w <=? 0 then _ else _] =>
    assert ((w = 0 ∧ (lastCompleted st = -1 ∨ lastCompleted st + i ≤ now)) ∨
            (w = lastCompleted st + i - now ∧ 0 < w ∧
             ~ (lastCompleted st = -1 ∨ lastCompleted st + i ≤ now))) as Hw by (z_cases; lia);
    generalize dependent w end.
  intros w Hw. destruct (Z.leb_spec w 0); [destruct e|]; (split_and!; [lia|lia || done|done]).
Qed.

Lemma run_slots_after (r : RateLimiter) from calls :
  0 ≤ from → clock_ok from calls → (∀ id, -1 ≤ lastCompleted (state_of r id) ≤ from) →
  ∀ c, c ∈ run_slots r calls → from ≤ sl_now c ∧
    (lastCompleted (state_of r (sl_id c)) = -1 ∨
     lastCompleted (state_of r (sl_id c)) + sl_interval c ≤ sl_now c).
Proof.
  revert r from. induction calls as [|d calls IH]; intros r from Hf Hok Hr c; [by intros ?%elem_of_nil|].
  simpl in Hok. destruct Hok as (Hd & Hi & Hok). simpl.
  pose proof (try_slot_spec (sl_now d) (sl_ctxErr d) (sl_interval d) r (sl_id d)) as Hs.
  specialize (Hr (sl_id d)) as Hrd. specialize (Hs ltac:(lia) Hi ltac:(lia)).
  destruct (try_slot _ _ _ _ _) as [r' out]. cbn zeta in Hs.
  assert ((∀ id, lastCompleted (state_of r' id) = lastCompleted (state_of r id)) →
    c ∈ run_slots r' calls → from ≤ sl_now c ∧ (lastCompleted (state_of r (sl_id c)) = -1 ∨
     lastCompleted (state_of r (sl_id c)) + sl_interval c ≤ sl_now c)) as Hskip.
  { intros Hsame Hin. rewrite <- (Hsame (sl_id c)).
    destruct (IH r' (sl_now d) ltac:(lia) Hok) with c as [??]; [|done|lia].
    intros id. rewrite Hsame. specialize (Hr id). lia. }
  destruct out as [|e|w]; destruct Hs as (Hfree & _ & Hst).
  - intros [->|Hin]%elem_of_cons; [lia|].
    destruct (IH r' (sl_now d) ltac:(lia) Hok) with c as [Hle Hc]; [|done|].
    { intros id. rewrite Hst. specialize (Hr id). case_decide; simpl; lia. }
    rewrite Hst in Hc. case_decide as E; [|lia]. simpl in Hc. rewrite <- E. lia.
  - apply Hskip. intros id. by rewrite Hst.
  - apply Hskip. intros id. by rewrite Hst.
Qed.

(** C32. However concurrent callers interleave, two slots reserved
    for the same indexer are at least the later caller's minimum interval
    apart. *)
Theorem slots_spaced (r : RateLimiter) (from : Z) (calls : list slot_call) :
  0 ≤ from → clock_ok from calls → (∀ id, -1 ≤ lastCompleted (state_of r id) ≤ from) →
  ForallOrdPairs (λ c1 c2, sl_id c1 = sl_id c2 → sl_now c1 + sl_interval c2 ≤ sl_now c2)
    (run_slots r calls).
Proof.
  revert r from. induction calls as [|d calls IH]; intros r from Hf Hok Hr; [constructor|].
  simpl in Hok. destruct Hok as (Hd & Hi & Hok). simpl.
  pose proof (try_slot_spec (sl_now d) (sl_ctxErr d) (sl_interval d) r (sl_id d)) as Hs.
  specialize (Hr (sl_id d)) as Hrd. specialize (Hs ltac:(lia) Hi ltac:(lia)).
  destruct (try_slot _ _ _ _ _) as [r' out]. cbn zeta in Hs.
  destruct out as [|e|w]; destruct Hs as (Hfree & _ & Hst).
  2,3: apply (IH r' (sl_now d)); [lia|done|]; intros id; rewrite Hst; specialize (Hr id); lia.
  assert (∀ id, -1 ≤ lastCompleted (state_of r' id) ≤ sl_now d) as Hr'.
  { intros id. rewrite Hst. specialize (Hr id). case_decide; simpl; lia. }
  constructor; [|by apply (IH r' (sl_now d)); [lia|..]].
  apply List.Forall_forall. intros c Hc%list_elem_of_In E.
  destruct (run_slots_after r' (sl_now d) calls ltac:(lia) Hok Hr' c Hc) as [_ Hc'].
  rewrite <- E, Hst, decide_True in Hc' by done. simpl in Hc'. lia.
Qed.

(** A caller nobody competes with reserves its
    slot in at most two iterations: if the timer fires no earlier than asked,
    the second look at the clock finds the indexer free, and the slot is
    reserved at that time, one interval after the previous request. *)
Theorem WaitForMinInterval_returns (fuel : nat) (env : slot_env) (r : RateLimiter) (id : Z)
    (opts : option RateLimitOptions) :
  let interval := rlo_MinInterval (resolveOptions r opts) in
  0 < interval < horizon →
  0 ≤ se_now env 0 < horizon → 0 ≤ se_now env 1 < horizon →
  -1 ≤ lastCompleted (state_of r id) ≤ se_now env 0 →
  (∀ wait, (try_slot (se_now env 0) None interval r id).2 = SlotSleep wait →
     se_now env 0 + wait ≤ se_now env 1) →
  (∀ n, se_ctxErr env n = None) → (∀ n, se_done env n = None) → (∀ n r, se_others env n r = r) →
  ∃ r' now, WaitForMinInterval (S (S fuel)) env r (Some id) opts = Some (r', None) ∧
    now ∈ [se_now env 0; se_now env 1] ∧ lastCompleted (state_of r' id) = now ∧
    (lastCompleted (state_of r id) = -1 ∨ lastCompleted (state_of r id) + interval ≤ now).
Proof.
  cbn zeta. intros Hi H0 H1 Hc Hwait Hctx Hdone Hothers. unfold WaitForMinInterval.
  generalize dependent (rlo_MinInterval (resolveOptions r opts)). intros i Hi Hwait.
  cbn [wait_loop].
  rewrite !Hctx. pose proof (try_slot_spec (se_now env 0) None i r id H0 Hi Hc) as Hs.
  destruct (try_slot (se_now env 0) None i r id) as [r1 [|e|w]]; cbn zeta in Hs.
  - destruct Hs as (Hfree & _ & Hst). exists r1, (se_now env 0).
    split_and!; [done|by left|by rewrite Hst, decide_True|lia].
  - by destruct Hs as (_ & He & _).
  - destruct Hs as (Hfree & -> & Hst). rewrite Hdone, Hothers. specialize (Hwait _ eq_refl).
    pose proof (try_slot_spec (se_now env 1) None i r1 id H1 Hi) as Hs.
    rewrite !Hst in Hs. specialize (Hs ltac:(lia)).
    destruct (try_slot (se_now env 1) None i r1 id) as [r2 [|e|w']]; cbn zeta in Hs.
    + destruct Hs as (_ & _ & Hst2). exists r2, (se_now env 1).
      split_and!; [done|by right; left|by rewrite Hst2, decide_True|lia].
    + by destruct Hs as (_ & He & _).
    + lia.
Qed.

(** ** Concrete runs *)

Definition busy_limiter : RateLimiter :=
  SetCooldown (RecordRequestComplete (NewRateLimiter 0) 3 (10 * Second)) 3 (100 * Second).

Lemma busy_limiter_sane : sane (20 * Second) busy_limiter.
Proof.
  assert (map_Forall (λ _ st, (-1 ≤ lastCompleted st ≤ 20 * Second) ∧ (0 ≤ cooldownUntil st < horizon))
    (rl_states busy_limiter)) as H.
  { refine (bool_decide_eq_true_1 _ _). by vm_compute. }
  intros id. unfold state_of. destruct (rl_states busy_limiter !! id) as [st|] eqn:E.
  - exact (H id st E).
  - by vm_compute.
Qed.

Lemma NextWait_exact_witness :
  blocked_at (state_of busy_limiter 3) (effective_interval busy_limiter None) (99 * Second) ∧
  (NextWait (20 * Second) busy_limiter (Some 3) None).2 = 80 * Second.
Proof.
  pose proof (NextWait_exact (20 * Second) busy_limiter 3 None ltac:(by vm_compute)
    busy_limiter_sane ltac:(by vm_compute)) as H.
  split; [|by vm_compute]. apply H; by vm_compute.
Defined.

Definition two_callers : list slot_call :=
  [MkSlotCall 5 None (6 * Second) 3; MkSlotCall 6 None (60 * Second) 3;
   MkSlotCall (7 * Second) None (6 * Second) 3].

Lemma slots_spaced_witness :
  run_slots (NewRateLimiter 0) two_callers =
    [MkSlotCall 5 None (6 * Second) 3; MkSlotCall (7 * Second) None (6 * Second) 3] ∧
  ForallOrdPairs (λ c1 c2, sl_id c1 = sl_id c2 → sl_now c1 + sl_interval c2 ≤ sl_now c2)
    (run_slots (NewRateLimiter 0) two_callers).
Proof.
  split; [by vm_compute|]. apply (slots_spaced _ 0); [done|by vm_compute|].
  intros id. assert (state_of (NewRateLimiter 0) id = fresh_state) as -> by reflexivity. by vm_compute.
Defined.

Definition quiet_env : slot_env :=
  MkSlotEnv (λ n, match n with O => 12 * Second | _ => 71 * Second end)
    (λ _, None) (λ _, None) (λ _ r, r).

Lemma WaitForMinInterval_returns_witness :
  ∃ r' now, WaitForMinInterval 2 quiet_env busy_limiter (Some 3) None = Some (r', None) ∧
    70 * Second ≤ now.
Proof.
  destruct (WaitForMinInterval_returns 0 quiet_env busy_limiter 3 None)
    as (r' & now & E & _ & _ & Hw); [by vm_compute..| |done|done|done|].
  - intros w Hw. vm_compute in Hw. injection Hw as <-. by vm_compute.
  - exists r', now. split; [exact E|]. destruct Hw as [Hw|Hw]; [by vm_compute in Hw|exact Hw].
Defined.
