(* ===== verification/Scheduler.v ===== *)
(** * [internal/services/jackett/scheduler.go]: the search scheduler

    The scheduler's mutex makes each critical section atomic, so the state of
    the system is the scheduler's fields, the calls of [Submit] in progress and
    the running workers, and every critical section is one step of the relation
    [step].  Callbacks, history records and started workers are the events of
    a log.  The clock and [ctx.Err()] may give another answer at each reading:
    [c_tick] counts the readings and the environment answers the [n]-th. *)

From Stdlib Require Import ZArith Lia.
From stdpp Require Import base numbers list strings gmap sorting.
From S2P Require Import Prelude.
From S2P Require Import RateLimiter.

Open Scope Z_scope.

(** ** Constants *)

Definition rssMaxWait : Z := 15 * Second.
Definition completionMaxWait : Z := 30 * Second.
Definition backgroundMaxWait : Z := 60 * Second.
Definition maxRetryTimerInterval : Z := 15 * Minute.
Definition rssExecutionTimeout : Z := 15 * Second.
Definition completionExecutionTimeout : Z := 45 * Second.
Definition backgroundExecutionTimeout : Z := 60 * Second.
Definition defaultExecutionTimeout : Z := 30 * Second.

Definition searchJobPriorityInteractive : Z := 0.
Definition searchJobPriorityRSS : Z := 1.
Definition searchJobPriorityCompletion : Z := 2.
Definition searchJobPriorityBackground : Z := 3.

Definition defaultMaxWorkers : nat := 10.
(** The capacity of [submitCh] and of [completeCh]. *)
Definition channel_cap : nat := 128.

(** ** Data *)

(** The fields of [models.TorznabIndexer] and of [searchContext] that the
    scheduler reads. *)
Record TorznabIndexer := MkIndexer { ix_ID : Z; ix_Name : string }.

Record searchContext := MkSearchContext {
  sx_categories : list Z; sx_contentType : string; sx_searchMode : string;
  sx_rateLimit : option RateLimitOptions; sx_releaseName : string; sx_skipHistory : bool }.

Inductive ctx_err := Canceled | DeadlineExceeded.
#[export] Instance ctx_err_eq_dec : EqDecision ctx_err.
Proof. solve_decision. Defined.

(** A caller's context, or the fresh one a dispatch made at reading [at] with
    [context.WithTimeout]. *)
Inductive ctx_ref := CtxCaller (n : nat) | CtxFresh (at_tick : nat) (timeout : Z).

Record JobCallbacks := MkCallbacks { cb_OnComplete : bool; cb_OnJobDone : bool }.

Definition Values : Type := gmap string (list string).

Record workerTask := MkTask {
  wt_jobID : Z; wt_taskID : Z; wt_indexer : TorznabIndexer; wt_params : Values;
  wt_meta : option searchContext; wt_ctx : ctx_ref; wt_ctxCancel : bool;
  wt_callbacks : JobCallbacks; wt_isRSS : bool }.

Record taskItem := MkItem {
  ti_task : workerTask; ti_priority : Z; ti_created : Z; ti_started : Z }.

Record jobState := MkJob { js_total : nat; js_completed : nat; js_callbacks : JobCallbacks }.

Record RateLimitWaitError := MkWaitError {
  we_IndexerID : Z; we_IndexerName : string; we_Wait : Z; we_MaxWait : Z; we_Priority : string }.

(** The error a task ends with. *)
Inductive task_err :=
| ErrCtx (e : option ctx_err)
| ErrRateLimit (e : RateLimitWaitError)
| ErrOther (msg : string).

Record SearchHistoryEntry := MkEntry {
  he_JobID : Z; he_TaskID : Z; he_IndexerID : Z; he_IndexerName : string;
  he_Query : string; he_ReleaseName : string; he_Params : gmap string string;
  he_Categories : list Z; he_ContentType : string; he_Priority : string; he_SearchMode : string;
  he_Status : string; he_ResultCount : nat; he_StartedAt : Z; he_CompletedAt : Z;
  he_DurationMs : Z; he_Error : option task_err }.

Record SubmitRequest := MkRequest {
  rq_Indexers : list (option TorznabIndexer); rq_Params : Values; rq_Meta : option searchContext;
  rq_Callbacks : JobCallbacks; rq_ctx : ctx_ref }.

(** ** Priorities, waits and timeouts *)

Definition rateLimit_of (meta : option searchContext) : option RateLimitOptions :=
  meta ≫= sx_rateLimit.

Definition is_rss_meta (meta : option searchContext) : bool :=
  match rateLimit_of meta with
  | Some o => bool_decide (rlo_Priority o = RateLimitPriorityRSS)
  | None => false
  end.

Definition jobPriority (meta : option searchContext) : Z :=
  match rateLimit_of meta with
  | None => searchJobPriorityBackground
  | Some o =>
    if bool_decide (rlo_Priority o = RateLimitPriorityInteractive) then searchJobPriorityInteractive
    else if bool_decide (rlo_Priority o = RateLimitPriorityRSS) then searchJobPriorityRSS
    else if bool_decide (rlo_Priority o = RateLimitPriorityCompletion)
    then searchJobPriorityCompletion
    else searchJobPriorityBackground
  end.

Definition getMaxWait (item : taskItem) : Z :=
  match rateLimit_of (wt_meta (ti_task item)) with
  | None => 0
  | Some o =>
    if 0 <? rlo_MaxWait o then rlo_MaxWait o
    else if bool_decide (rlo_Priority o = RateLimitPriorityRSS) then rssMaxWait
    else if bool_decide (rlo_Priority o = RateLimitPriorityCompletion) then completionMaxWait
    else if bool_decide (rlo_Priority o = RateLimitPriorityBackground) then backgroundMaxWait
    else 0
  end.

Definition getExecutionTimeout (item : taskItem) : Z :=
  match rateLimit_of (wt_meta (ti_task item)) with
  | None => defaultExecutionTimeout
  | Some o =>
    if bool_decide (rlo_Priority o = RateLimitPriorityRSS) then rssExecutionTimeout
    else if bool_decide (rlo_Priority o = RateLimitPriorityCompletion)
    then completionExecutionTimeout
    else if bool_decide (rlo_Priority o = RateLimitPriorityBackground)
    then backgroundExecutionTimeout
    else defaultExecutionTimeout
  end.

(** [taskHeap.Less] *)
Definition Less (a b : taskItem) : bool :=
  if ti_priority a =? ti_priority b then ti_created a <? ti_created b
  else ti_priority a <? ti_priority b.

(** [b] may come out of the heap after [a]. *)
Definition not_after (a b : taskItem) : Prop := Less b a = false.

#[export] Instance not_after_dec a b : Decision (not_after a b).
Proof. unfold not_after. apply _. Defined.
#[export] Instance not_after_trans : Transitive not_after.
Proof. intros a b c. unfold not_after, Less. z_cases; repeat case_match; lia. Qed.
#[export] Instance not_after_total : Total not_after.
Proof.
  intros a b. unfold not_after, Less.
  destruct (Z.eqb_spec (ti_priority a) (ti_priority b)), (Z.eqb_spec (ti_priority b) (ti_priority a));
    z_cases; lia || (left; done) || (right; done).
Qed.

(** [container/heap] on a [taskHeap]: pushing adds an element, and popping
    until the heap is empty yields the elements in an order [Less] allows.
    Which of several equal elements comes first is left to the library. *)
Class TaskHeap := {
  heap_push : taskItem → list taskItem → list taskItem;
  heap_drain : list taskItem → list taskItem;
  heap_push_perm x q : heap_push x q ≡ₚ x :: q;
  heap_drain_perm q : heap_drain q ≡ₚ q;
  heap_drain_sorted q : StronglySorted not_after (heap_drain q);
}.

Program Instance sorted_heap : TaskHeap := {|
  heap_push x q := x :: q;
  heap_drain q := merge_sort not_after q;
|}.
Next Obligation. done. Qed.
Next Obligation. intros q. apply merge_sort_Permutation. Qed.
Next Obligation. intros q. apply (StronglySorted_merge_sort not_after). Qed.

(** ** What the scheduler observes and emits *)

(** The [n]-th reading of the clock (time since the rate limiter's start) and
    of a context's error. *)
Class Env := {
  clock : nat → Z;
  ctx_Err : nat → ctx_ref → option ctx_err;
}.

Inductive activity_kind := KindIndexerActivity | KindSearchHistory.

Section scheduler.
Context {Result : Type} `{!Env} `{!TaskHeap}.
(** The size of the worker pool, and whether a history recorder is set. *)
Context (maxWorkers : nat) (historyRecorder : bool).

Inductive event :=
| EvOnComplete (jobID : Z) (indexer : TorznabIndexer) (results : list Result) (coverage : list Z)
    (err : option task_err)
| EvOnJobDone (jobID : Z)
| EvAccepted (jobID : Z) (tasks : nat) (callbacks : JobCallbacks)
| EvRecord (entry : SearchHistoryEntry)
| EvExecute (item : taskItem)
| EvPublish (kind : activity_kind).

(** The fields of [searchScheduler] a dispatch works on. *)
Record core := MkCore {
  c_rateLimiter : RateLimiter; c_pendingRSS : gset Z; c_workers : nat;
  c_inFlight : gmap Z taskItem; c_jobs : gmap Z jobState; c_tick : nat; c_log : list event }.

Definition set_rl f (c : core) := MkCore (f (c_rateLimiter c)) (c_pendingRSS c) (c_workers c)
  (c_inFlight c) (c_jobs c) (c_tick c) (c_log c).
Definition set_rss f (c : core) := MkCore (c_rateLimiter c) (f (c_pendingRSS c)) (c_workers c)
  (c_inFlight c) (c_jobs c) (c_tick c) (c_log c).
Definition set_workers f (c : core) := MkCore (c_rateLimiter c) (c_pendingRSS c) (f (c_workers c))
  (c_inFlight c) (c_jobs c) (c_tick c) (c_log c).
Definition set_inFlight f (c : core) := MkCore (c_rateLimiter c) (c_pendingRSS c) (c_workers c)
  (f (c_inFlight c)) (c_jobs c) (c_tick c) (c_log c).
Definition set_jobs f (c : core) := MkCore (c_rateLimiter c) (c_pendingRSS c) (c_workers c)
  (c_inFlight c) (f (c_jobs c)) (c_tick c) (c_log c).
Definition emit (es : list event) (c : core) := MkCore (c_rateLimiter c) (c_pendingRSS c)
  (c_workers c) (c_inFlight c) (c_jobs c) (c_tick c) (c_log c ++ es).
Definition tick (c : core) := MkCore (c_rateLimiter c) (c_pendingRSS c) (c_workers c)
  (c_inFlight c) (c_jobs c) (S (c_tick c)) (c_log c).

(** [time.Now()], [time.Since(startTime)] *)
Definition read_clock (c : core) : core * Z := (tick c, clock (c_tick c)).
Definition read_ctx (c : core) (ctx : ctx_ref) : core * option ctx_err :=
  (tick c, ctx_Err (c_tick c) ctx).

Record scheduler := MkScheduler {
  s_core : core; s_taskQueue : list taskItem; s_submitCh : list (list workerTask);
  s_completeCh : nat; s_jobSeq : Z; s_taskSeq : Z; s_retryTimer : option Z; s_coalesce : bool }.

Definition newSearchScheduler (rl : RateLimiter) : scheduler :=
  MkScheduler (MkCore rl ∅ 0 ∅ ∅ 0 []) [] [] 0 0 0 None false.

(** ** Completing a task *)

(** [url.Values.Get] *)
Definition Values_Get (v : Values) (key : string) : string :=
  default "" (v !! key ≫= head).

(** The entry [handleTaskCompleteLocked] records. *)
Definition history_entry (item : taskItem) (results : list Result) (err : option task_err)
    (completedAt : Z) : SearchHistoryEntry :=
  let task := ti_task item in
  let meta := wt_meta task in
  let priority := match rateLimit_of meta with Some o => rlo_Priority o | None => "" end in
  {| he_JobID := wt_jobID task; he_TaskID := wt_taskID task;
     he_IndexerID := ix_ID (wt_indexer task); he_IndexerName := ix_Name (wt_indexer task);
     he_Query := Values_Get (wt_params task) "q";
     he_ReleaseName := from_option sx_releaseName "" meta;
     he_Params := omap head (delete "apikey" (wt_params task));
     he_Categories := from_option sx_categories [] meta;
     he_ContentType := from_option sx_contentType "" meta;
     he_Priority := if bool_decide (priority = "") then RateLimitPriorityBackground else priority;
     he_SearchMode := from_option sx_searchMode "" meta;
     he_Status := match err with
                  | None => "success" | Some (ErrRateLimit _) => "rate_limited"
                  | Some _ => "error" end;
     he_ResultCount := length results; he_StartedAt := ti_started item;
     he_CompletedAt := completedAt;
     he_DurationMs := Z.quot (i64 (completedAt - ti_started item)) Millisecond;
     he_Error := err |}.

Definition handleTaskCompleteLocked (item : taskItem) (results : list Result) (coverage : list Z)
    (err : option task_err) (c : core) : core * bool :=
  let task := ti_task item in
  let c := if cb_OnComplete (wt_callbacks task)
           then emit [EvOnComplete (wt_jobID task) (wt_indexer task) results coverage err] c
           else c in
  let '(c, historyRecorded) :=
    if historyRecorder && negb (from_option sx_skipHistory false (wt_meta task)) then
      let '(c, completedAt) := read_clock c in
      (emit [EvRecord (history_entry item results err completedAt)] c, true)
    else (c, false) in
  match c_jobs c !! wt_jobID task with
  | None => (c, historyRecorded)
  | Some job =>
    let job := MkJob (js_total job) (S (js_completed job)) (js_callbacks job) in
    if (js_total job <=? js_completed job)%nat then
      let c := if cb_OnJobDone (js_callbacks job) then emit [EvOnJobDone (wt_jobID task)] c else c in
      (set_jobs (delete (wt_jobID task)) c, historyRecorded)
    else (set_jobs (insert (wt_jobID task) job) c, historyRecorded)
  end.

Definition drop_rss (task : workerTask) (c : core) : core :=
  if wt_isRSS task then set_rss (λ s, s ∖ {[ix_ID (wt_indexer task)]}) c else c.

(** ** Dispatching *)

(** The variables of [dispatchTasks]. *)
Record dispatch_state := MkDispatch {
  d_core : core; d_blocked : list taskItem; d_taskCompleted : bool; d_historyRecorded : bool }.

(** Completes an item without running it. *)
Definition skip_item (item : taskItem) (err : core → core * option task_err) (d : dispatch_state)
    : dispatch_state :=
  let '(c, now) := read_clock (d_core d) in
  let item := MkItem (ti_task item) (ti_priority item) (ti_created item) now in
  let '(c, err) := err c in
  let '(c, recorded) := handleTaskCompleteLocked item [] [] err c in
  MkDispatch (drop_rss (ti_task item) c) (d_blocked d) true (recorded || d_historyRecorded d).

Definition block_item (item : taskItem) (d : dispatch_state) : dispatch_state :=
  MkDispatch (d_core d) (d_blocked d ++ [item]) (d_taskCompleted d) (d_historyRecorded d).

Definition with_core (c : core) (d : dispatch_state) : dispatch_state :=
  MkDispatch c (d_blocked d) (d_taskCompleted d) (d_historyRecorded d).

Definition ctx_error (ctx : ctx_ref) (c : core) : core * option task_err :=
  let '(c, e) := read_ctx c ctx in (c, Some (ErrCtx e)).

(** Gives the task a fresh context when its own has expired. *)
Definition refresh_ctx (item : taskItem) (c : core) : core * taskItem :=
  let task := ti_task item in
  let '(c, e) := read_ctx c (wt_ctx task) in
  if bool_decide (e = Some DeadlineExceeded) && negb (wt_ctxCancel task) then
    let ctx := CtxFresh (c_tick c) (getExecutionTimeout item) in
    (c, MkItem (MkTask (wt_jobID task) (wt_taskID task) (wt_indexer task) (wt_params task)
                  (wt_meta task) ctx true (wt_callbacks task) (wt_isRSS task))
          (ti_priority item) (ti_created item) (ti_started item))
  else (c, item).

Definition next_wait (item : taskItem) (c : core) : core * Z :=
  let '(c, now) := read_clock c in
  let '(rl, wait) := NextWait now (c_rateLimiter c) (Some (ix_ID (wt_indexer (ti_task item))))
                       (rateLimit_of (wt_meta (ti_task item))) in
  (set_rl (λ _, rl) c, wait).

(** The tail of the loop body: in-flight check, rate limit, worker. *)
Definition try_start (item : taskItem) (d : dispatch_state) : dispatch_state :=
  let task := ti_task item in
  let id := ix_ID (wt_indexer task) in
  match c_inFlight (d_core d) !! id with
  | Some _ => block_item item d
  | None =>
    let '(c, wait) := next_wait item (d_core d) in
    let d := with_core c d in
    let maxWait := getMaxWait item in
    if (0 <? maxWait) && (maxWait <? wait) then
      let priority := match rateLimit_of (wt_meta task) with
                      | Some o => rlo_Priority o | None => "" end in
      skip_item item (λ c, (c, Some (ErrRateLimit
        (MkWaitError id (ix_Name (wt_indexer task)) wait maxWait priority)))) d
    else if 0 <? wait then block_item item d
    else if (c_workers (d_core d) <? maxWorkers)%nat then
      with_core (emit [EvExecute item] (set_inFlight (insert id item) (set_workers S (d_core d)))) d
    else block_item item d
  end.

(** The body of the loop of [dispatchTasks]. *)
Definition dispatch_item (d : dispatch_state) (item : taskItem) : dispatch_state :=
  let '(c, e) := read_ctx (d_core d) (wt_ctx (ti_task item)) in
  let d := with_core c d in
  if bool_decide (e = Some Canceled) then skip_item item (ctx_error (wt_ctx (ti_task item))) d else
  let '(c, item) := refresh_ctx item (d_core d) in
  let '(c, e) := read_ctx c (wt_ctx (ti_task item)) in
  let d := with_core c d in
  if bool_decide (e ≠ None) && wt_ctxCancel (ti_task item)
  then skip_item item (ctx_error (wt_ctx (ti_task item))) d
  else try_start item d.

(** The loop of [scheduleRetryTimerLocked] over the queue. *)
Fixpoint min_wait (q : list taskItem) (minWait : Z) (c : core) : core * Z :=
  match q with
  | [] => (c, minWait)
  | item :: q =>
    let '(c, wait) := next_wait item c in
    min_wait q (if (0 <? wait) && ((minWait =? 0) || (wait <? minWait)) then wait else minWait) c
  end.

Definition set_timer (q : list taskItem) (c : core) (timer : option Z) : core * option Z :=
  match q with
  | [] => (c, timer)
  | _ =>
    let '(c, minWait) := min_wait q 0 c in
    if 0 <? minWait then
      let minWait := if maxRetryTimerInterval <? minWait then maxRetryTimerInterval else minWait in
      let '(c, now) := read_clock c in
      (c, Some (now + minWait))
    else (c, timer)
  end.

Definition scheduleRetryTimerLocked (s : scheduler) : scheduler :=
  let '(c, timer) := set_timer (s_taskQueue s) (s_core s) (s_retryTimer s) in
  MkScheduler c (s_taskQueue s) (s_submitCh s) (s_completeCh s) (s_jobSeq s) (s_taskSeq s) timer
    (s_coalesce s).

Definition with_queue (q : list taskItem) (c : core) (s : scheduler) : scheduler :=
  MkScheduler c q (s_submitCh s) (s_completeCh s) (s_jobSeq s) (s_taskSeq s) (s_retryTimer s)
    (s_coalesce s).

Definition on_core (f : core → core) (s : scheduler) : scheduler :=
  with_queue (s_taskQueue s) (f (s_core s)) s.

Definition dispatchTasks (s : scheduler) : scheduler :=
  if bool_decide (s_taskQueue s = []) then s else
  let items := heap_drain (s_taskQueue s) in
  let d := foldl dispatch_item (MkDispatch (s_core s) [] false false) items in
  let s := scheduleRetryTimerLocked
             (with_queue (foldl (λ q x, heap_push x q) [] (d_blocked d)) (d_core d) s) in
  on_core (emit ((if d_taskCompleted d then [EvPublish KindIndexerActivity] else []) ++
                 (if d_historyRecorded d then [EvPublish KindSearchHistory] else []))) s.

(** ** Enqueueing *)

Definition enqueue_one (qc : list taskItem * core) (task : workerTask) : list taskItem * core :=
  let '(q, c) := qc in
  let '(c, now) := read_clock c in
  (heap_push (MkItem task (jobPriority (wt_meta task)) now 0) q, c).

Definition enqueueTasks (tasks : list workerTask) (s : scheduler) : scheduler :=
  let '(q, c) := foldl enqueue_one (s_taskQueue s, s_core s) tasks in
  with_queue q (if bool_decide (tasks = []) then c
                else emit [EvPublish KindIndexerActivity] c) s.

(** ** Submitting *)

(** A call of [Submit] in progress: the indexers still to look at, the tasks
    made so far, and whether the job is registered. *)
Record submitter := MkSubmitter {
  sb_jobID : Z; sb_req : SubmitRequest; sb_todo : list (option TorznabIndexer);
  sb_tasks : list workerTask; sb_registered : bool }.

Definition set_seqs (job task : Z) (s : scheduler) : scheduler :=
  MkScheduler (s_core s) (s_taskQueue s) (s_submitCh s) (s_completeCh s) job task
    (s_retryTimer s) (s_coalesce s).

(** [len(req.Indexers) == 0] *)
Definition submit_nothing (req : SubmitRequest) (s : scheduler) : scheduler :=
  if cb_OnJobDone (rq_Callbacks req) then on_core (emit [EvOnJobDone 0]) s else s.

(** [nextJobID]; the code numbers jobs and tasks in [uint64], whose wrap-around
    after 2^64 of them is not written out. *)
Definition submit_begin (req : SubmitRequest) (s : scheduler) : scheduler * submitter :=
  let jobID := s_jobSeq s + 1 in
  (set_seqs jobID (s_taskSeq s) s, MkSubmitter jobID req (rq_Indexers req) [] false).

(** One iteration of the loop over the indexers. *)
Definition submit_indexer (idx : option TorznabIndexer) (todo : list (option TorznabIndexer))
    (s : scheduler) (sb : submitter) : scheduler * submitter :=
  let req := sb_req sb in
  let skip := MkSubmitter (sb_jobID sb) req todo (sb_tasks sb) (sb_registered sb) in
  match idx with
  | None => (s, skip)
  | Some idx =>
    let rss := is_rss_meta (rq_Meta req) in
    if rss && bool_decide (ix_ID idx ∈ c_pendingRSS (s_core s)) then (s, skip) else
    let s := if rss then on_core (set_rss (λ p, {[ix_ID idx]} ∪ p)) s else s in
    let taskID := s_taskSeq s + 1 in
    let task := MkTask (sb_jobID sb) taskID idx (rq_Params req) (rq_Meta req) (rq_ctx req) false
                  (rq_Callbacks req) rss in
    (set_seqs (s_jobSeq s) taskID s,
     MkSubmitter (sb_jobID sb) req todo (sb_tasks sb ++ [task]) (sb_registered sb))
  end.

(** [len(tasks) == 0]: every indexer was filtered out. *)
Definition submit_filtered (s : scheduler) (sb : submitter) : scheduler :=
  let cbs := rq_Callbacks (sb_req sb) in
  on_core (emit (EvAccepted (sb_jobID sb) 0 cbs ::
    (if cb_OnJobDone cbs then [EvOnJobDone (sb_jobID sb)] else []))) s.

Definition submit_register (s : scheduler) (sb : submitter) : scheduler * submitter :=
  (on_core (set_jobs (insert (sb_jobID sb)
     (MkJob (length (sb_tasks sb)) 0 (rq_Callbacks (sb_req sb))))) s,
   MkSubmitter (sb_jobID sb) (sb_req sb) (sb_todo sb) (sb_tasks sb) true).

(** [s.submitCh <- tasks] *)
Definition submit_send (s : scheduler) (sb : submitter) : scheduler :=
  let s := on_core (emit [EvAccepted (sb_jobID sb) (length (sb_tasks sb))
                            (rq_Callbacks (sb_req sb))]) s in
  MkScheduler (s_core s) (s_taskQueue s) (s_submitCh s ++ [sb_tasks sb]) (s_completeCh s)
    (s_jobSeq s) (s_taskSeq s) (s_retryTimer s) (s_coalesce s).

Definition clearPendingRSSLocked (tasks : list workerTask) (c : core) : core :=
  foldl (λ c t, drop_rss t c) c tasks.

(** [<-ctx.Done()] *)
Definition submit_cancel (s : scheduler) (sb : submitter) : scheduler :=
  on_core (λ c, clearPendingRSSLocked (sb_tasks sb) (set_jobs (delete (sb_jobID sb)) c)) s.

(** ** Running *)

(** How far the goroutine of [executeTask] has come, once it has recorded the
    start of its request. *)
Inductive exec_phase := Requested | Answered.

(** [RecordRequestStart] and [item.started] *)
Definition exec_request (id : Z) (item : taskItem) (c : core) : core :=
  let '(c, dur) := read_clock c in
  let c := set_rl (λ rl, RecordRequestStart rl id dur) c in
  let '(c, now) := read_clock c in
  set_inFlight (insert id (MkItem (ti_task item) (ti_priority item) (ti_created item) now)) c.

(** [RecordRequestComplete] *)
Definition exec_answer (id : Z) (c : core) : core :=
  let '(c, dur) := read_clock c in set_rl (λ rl, RecordRequestComplete rl id dur) c.

(** The critical section that ends [executeTask], with what the request
    returned: an answer, the context's error or a recovered panic. *)
Definition exec_finish (id : Z) (item : taskItem) (results : list Result) (coverage : list Z)
    (err : option task_err) (c : core) : core :=
  let '(c, recorded) := handleTaskCompleteLocked item results coverage err c in
  let c := set_inFlight (delete id) c in
  let c := drop_rss (ti_task item) c in
  emit (EvPublish KindIndexerActivity ::
        (if (recorded : bool) then [EvPublish KindSearchHistory] else [])) c.

(** A send on [completeCh] that gives up when the channel is full. *)
Definition notify (s : scheduler) : scheduler :=
  MkScheduler (s_core s) (s_taskQueue s) (s_submitCh s)
    (if (s_completeCh s <? channel_cap)%nat then S (s_completeCh s) else s_completeCh s)
    (s_jobSeq s) (s_taskSeq s) (s_retryTimer s) (s_coalesce s).

Definition set_loop (ch : list (list workerTask)) (complete : nat) (timer : option Z)
    (coalesce : bool) (s : scheduler) : scheduler :=
  MkScheduler (s_core s) (s_taskQueue s) ch complete (s_jobSeq s) (s_taskSeq s) timer coalesce.

(** ** Status *)

Record SchedulerTaskStatus := MkTaskStatus {
  sts_JobID : Z; sts_TaskID : Z; sts_IndexerID : Z; sts_IndexerName : string; sts_Priority : string;
  sts_CreatedAt : Z; sts_IsRSS : bool }.
Record SchedulerJobStatus := MkJobStatus {
  sjs_JobID : Z; sjs_TotalTasks : nat; sjs_CompletedTasks : nat }.
Record SchedulerStatus := MkStatus {
  ss_QueuedTasks : list SchedulerTaskStatus; ss_InFlightTasks : list SchedulerTaskStatus;
  ss_ActiveJobs : list SchedulerJobStatus; ss_QueueLength : nat; ss_WorkerCount : nat;
  ss_WorkersInUse : nat }.

Definition task_status (item : taskItem) : SchedulerTaskStatus :=
  let task := ti_task item in
  MkTaskStatus (wt_jobID task) (wt_taskID task) (ix_ID (wt_indexer task)) (ix_Name (wt_indexer task))
    match rateLimit_of (wt_meta task) with Some o => rlo_Priority o | None => "background" end
    (ti_created item) (wt_isRSS task).

(** The lists over [inFlight] and [jobs] come in the order of a range loop,
    which is any order; here it is that of the keys. *)
Definition GetStatus (s : scheduler) : SchedulerStatus :=
  MkStatus (task_status <$> s_taskQueue s)
    ((λ kv, task_status kv.2) <$> map_to_list (c_inFlight (s_core s)))
    ((λ kv, MkJobStatus kv.1 (js_total kv.2) (js_completed kv.2)) <$> map_to_list (c_jobs (s_core s)))
    (length (s_taskQueue s)) maxWorkers (c_workers (s_core s)).

(** ** The system *)

Record system := MkSystem {
  y_sched : scheduler; y_submits : list submitter; y_exec : gmap Z exec_phase;
  y_releasing : nat }.

Definition with_sched (s : scheduler) (y : system) : system :=
  MkSystem s (y_submits y) (y_exec y) (y_releasing y).

(** One critical section, channel operation or timer of one goroutine. *)
Inductive step : system → system → Prop :=
| step_submit_nothing y req :
    rq_Indexers req = [] →
    step y (with_sched (submit_nothing req (y_sched y)) y)
| step_submit_begin y req s sb :
    rq_Indexers req ≠ [] → submit_begin req (y_sched y) = (s, sb) →
    step y (MkSystem s (sb :: y_submits y) (y_exec y) (y_releasing y))
| step_submit_indexer y pre sb post idx todo s sb' :
    y_submits y = pre ++ sb :: post → sb_todo sb = idx :: todo →
    submit_indexer idx todo (y_sched y) sb = (s, sb') →
    step y (MkSystem s (pre ++ sb' :: post) (y_exec y) (y_releasing y))
| step_submit_filtered y pre sb post :
    y_submits y = pre ++ sb :: post → sb_todo sb = [] → sb_tasks sb = [] →
    step y (MkSystem (submit_filtered (y_sched y) sb) (pre ++ post) (y_exec y) (y_releasing y))
| step_submit_register y pre sb post s sb' :
    y_submits y = pre ++ sb :: post → sb_todo sb = [] → sb_tasks sb ≠ [] →
    sb_registered sb = false → submit_register (y_sched y) sb = (s, sb') →
    step y (MkSystem s (pre ++ sb' :: post) (y_exec y) (y_releasing y))
| step_submit_send y pre sb post :
    y_submits y = pre ++ sb :: post → sb_registered sb = true →
    (length (s_submitCh (y_sched y)) < channel_cap)%nat →
    step y (MkSystem (submit_send (y_sched y) sb) (pre ++ post) (y_exec y) (y_releasing y))
| step_submit_cancel y pre sb post :
    y_submits y = pre ++ sb :: post → sb_registered sb = true →
    ctx_Err (c_tick (s_core (y_sched y))) (rq_ctx (sb_req sb)) ≠ None →
    step y (MkSystem (submit_cancel (y_sched y) sb) (pre ++ post) (y_exec y) (y_releasing y))
| step_loop_submit y batch rest :
    s_submitCh (y_sched y) = batch :: rest →
    step y (with_sched (enqueueTasks batch (set_loop rest (s_completeCh (y_sched y))
      (s_retryTimer (y_sched y)) true (y_sched y))) y)
| step_loop_complete y n :
    s_completeCh (y_sched y) = S n →
    step y (with_sched (dispatchTasks (set_loop (s_submitCh (y_sched y)) n
      (s_retryTimer (y_sched y)) (s_coalesce (y_sched y)) (y_sched y))) y)
| step_loop_coalesce y :
    s_coalesce (y_sched y) = true →
    step y (with_sched (dispatchTasks (set_loop (s_submitCh (y_sched y))
      (s_completeCh (y_sched y)) (s_retryTimer (y_sched y)) false (y_sched y))) y)
| step_timer y deadline :
    s_retryTimer (y_sched y) = Some deadline → deadline ≤ clock (c_tick (s_core (y_sched y))) →
    step y (with_sched (notify (set_loop (s_submitCh (y_sched y)) (s_completeCh (y_sched y)) None
      (s_coalesce (y_sched y)) (y_sched y))) y)
| step_exec_request y id item :
    c_inFlight (s_core (y_sched y)) !! id = Some item → y_exec y !! id = None →
    step y (MkSystem (on_core (exec_request id item) (y_sched y)) (y_submits y)
      (<[id := Requested]> (y_exec y)) (y_releasing y))
| step_exec_answer y id :
    y_exec y !! id = Some Requested →
    step y (MkSystem (on_core (exec_answer id) (y_sched y)) (y_submits y)
      (<[id := Answered]> (y_exec y)) (y_releasing y))
| step_exec_finish y id item results coverage err :
    c_inFlight (s_core (y_sched y)) !! id = Some item → y_exec y !! id = Some Answered →
    step y (MkSystem (on_core (exec_finish id item results coverage err) (y_sched y)) (y_submits y)
      (delete id (y_exec y)) (S (y_releasing y)))
| step_exec_release y n :
    y_releasing y = S n →
    step y (MkSystem (notify (on_core (set_workers Nat.pred) (y_sched y))) (y_submits y)
      (y_exec y) n)
| step_rate_limiter y op :
    step y (with_sched (on_core (set_rl (λ rl, run_op rl op)) (y_sched y)) y)
| step_time y :
    step y (with_sched (on_core tick (y_sched y)) y).

Inductive reachable (rl : RateLimiter) : system → Prop :=
| reachable_init : reachable rl (MkSystem (newSearchScheduler rl) [] ∅ 0)
| reachable_step y y' : reachable rl y → step y y' → reachable rl y'.


(** ** Accounting for the tasks *)

(** What the accounting needs to know of a task. *)
Record profile := MkProfile {
  p_job : Z; p_callbacks : JobCallbacks; p_rss : bool; p_indexer : Z }.

Definition task_profile (t : workerTask) : profile :=
  MkProfile (wt_jobID t) (wt_callbacks t) (wt_isRSS t) (ix_ID (wt_indexer t)).
Definition item_profile (i : taskItem) : profile := task_profile (ti_task i).

Definition flying (c : core) : list profile :=
  (λ kv, item_profile kv.2) <$> map_to_list (c_inFlight c).

(** The tasks of accepted jobs that have not completed: waiting in the
    channel, queued or in flight. *)
Definition live (s : scheduler) : list profile :=
  (task_profile <$> concat (s_submitCh s)) ++ (item_profile <$> s_taskQueue s) ++ flying (s_core s).

Definition of_job (j : Z) (l : list profile) : list profile := filter (λ p, p_job p = j) l.

Definition event_job (e : event) : option Z :=
  match e with
  | EvOnComplete j _ _ _ _ | EvOnJobDone j | EvAccepted j _ _ => Some j
  | _ => None
  end.
Definition events_of (j : Z) (log : list event) : list event :=
  filter (λ e, event_job e = Some j) log.

Definition is_complete (e : event) : bool :=
  match e with EvOnComplete _ _ _ _ _ => true | _ => false end.
Definition is_done (e : event) : bool := match e with EvOnJobDone _ => true | _ => false end.
Definition acceptances (evs : list event) : list (nat * JobCallbacks) :=
  omap (λ e, match e with EvAccepted _ n cbs => Some (n, cbs) | _ => None end) evs.
Definition completions (evs : list event) : nat := length (filter (λ e, is_complete e = true) evs).
Definition dones (evs : list event) : nat := length (filter (λ e, is_done e = true) evs).

(** The events of a job of [n] tasks with the given callbacks, [k] of which
    have completed and which is reported done [d] times. *)
Definition ledger (n : nat) (cbs : JobCallbacks) (k d : nat) (evs : list event) : Prop :=
  acceptances evs = [(n, cbs)] ∧
  completions evs = (if cb_OnComplete cbs then k else 0%nat) ∧
  dones evs = (if cb_OnJobDone cbs then d else 0%nat).

(** The life of a job: its submitters, its entry in [jobs], its live tasks and
    its events. *)
Inductive job_phase : list submitter → option jobState → list profile → list event → Prop :=
| phase_idle : job_phase [] None [] []
| phase_submitting sb :
    job_phase [sb] (if sb_registered sb
                    then Some (MkJob (length (sb_tasks sb)) 0 (rq_Callbacks (sb_req sb)))
                    else None) [] []
| phase_running n k cbs ts evs :
    ts ≠ [] → (k + length ts = n)%nat → Forall (λ p, p_callbacks p = cbs) ts →
    ledger n cbs k 0 evs → job_phase [] (Some (MkJob n k cbs)) ts evs
| phase_finished n cbs evs : ledger n cbs n 1 evs → job_phase [] None [] evs.

Definition submitter_ok (sb : submitter) : Prop :=
  0 < sb_jobID sb ∧
  Forall (λ t, wt_jobID t = sb_jobID sb ∧ wt_callbacks t = rq_Callbacks (sb_req sb)) (sb_tasks sb) ∧
  (sb_registered sb = true → sb_todo sb = [] ∧ sb_tasks sb ≠ []).

Definition rss_ids (l : list profile) : list Z :=
  omap (λ p, if p_rss p then Some (p_indexer p) else None) l.

Definition of_submitter (j : Z) (subs : list submitter) : list submitter :=
  filter (λ sb, sb_jobID sb = j) subs.
Definition submitted (subs : list submitter) : list profile :=
  concat ((λ sb, task_profile <$> sb_tasks sb) <$> subs).

(** The books of the scheduler agree with its live tasks [ts]. *)
Record balanced (subs : list submitter) (jobSeq : Z) (ts : list profile) (c : core) : Prop := {
  bal_jobs j : 0 < j → job_phase (of_submitter j subs) (c_jobs c !! j) (of_job j ts)
                         (events_of j (c_log c));
  bal_future j : jobSeq < j → of_submitter j subs = [] ∧ c_jobs c !! j = None ∧ of_job j ts = [] ∧
                   events_of j (c_log c) = [];
  bal_positive p : p ∈ ts → 0 < p_job p;
  bal_rss : NoDup (rss_ids (ts ++ submitted subs)) ∧
            ∀ id, id ∈ c_pendingRSS c ↔ id ∈ rss_ids (ts ++ submitted subs);
}.

(** ** Lemmas on the books *)

Lemma of_job_perm j l1 l2 : l1 ≡ₚ l2 → of_job j l1 ≡ₚ of_job j l2.
Proof. unfold of_job. by intros ->. Qed.
Lemma rss_ids_perm l1 l2 : l1 ≡ₚ l2 → rss_ids l1 ≡ₚ rss_ids l2.
Proof. apply omap_Permutation. Qed.
Lemma of_job_cons j p l : of_job j (p :: l) = if decide (p_job p = j) then p :: of_job j l else of_job j l.
Proof. unfold of_job. by rewrite filter_cons. Qed.
Lemma of_job_app j l1 l2 : of_job j (l1 ++ l2) = of_job j l1 ++ of_job j l2.
Proof. apply filter_app. Qed.
Lemma events_of_app j l1 l2 : events_of j (l1 ++ l2) = events_of j l1 ++ events_of j l2.
Proof. apply filter_app. Qed.
Lemma rss_ids_app l1 l2 : rss_ids (l1 ++ l2) = rss_ids l1 ++ rss_ids l2.
Proof. apply omap_app. Qed.

Lemma job_phase_perm subs js ts ts' evs :
  ts ≡ₚ ts' → job_phase subs js ts evs → job_phase subs js ts' evs.
Proof.
  intros Hp Hph. destruct Hph as [|sb|n k cbs ts evs Hne Hlen Hcb Hl|n cbs evs Hl].
  - apply Permutation_nil in Hp as ->. constructor.
  - apply Permutation_nil in Hp as ->. constructor.
  - constructor; [|by rewrite <- Hp|by rewrite <- Hp|done].
    intros ->. symmetry in Hp. by apply Permutation_nil in Hp.
  - apply Permutation_nil in Hp as ->. by econstructor.
Qed.

Lemma balanced_perm subs seq ts ts' c : ts ≡ₚ ts' → balanced subs seq ts c → balanced subs seq ts' c.
Proof.
  intros Hp [Hj Hf Hpos [Hnd Hr]]. split.
  - intros j Hjp. eapply job_phase_perm; [by apply of_job_perm|by apply Hj].
  - intros j Hseq. destruct (Hf j Hseq) as (? & ? & Ht & ?). split_and!; [done..| |done].
    pose proof (of_job_perm j _ _ Hp) as E. rewrite Ht in E. by apply Permutation_nil in E.
  - intros p Hin. apply Hpos. by rewrite Hp.
  - split; [|intros id; rewrite Hr]; by rewrite <- (rss_ids_perm (ts ++ _) (ts' ++ _)) by (by rewrite Hp).
Qed.

(** [balanced] looks at the jobs, the pending RSS indexers and the events of
    jobs only. *)
Lemma balanced_core subs seq ts c c' :
  c_jobs c' = c_jobs c → c_pendingRSS c' = c_pendingRSS c →
  (∀ j, events_of j (c_log c') = events_of j (c_log c)) →
  balanced subs seq ts c → balanced subs seq ts c'.
Proof.
  intros E1 E2 E3 [Hj Hf Hpos Hr]. split; [..|by rewrite E2]; try done;
    intros j; rewrite E1, E3; auto.
Qed.

(** A silent change of the core: clock readings, the rate limiter, the worker
    count, the in-flight map and events that are about no job. *)
Definition same_books (c c' : core) : Prop :=
  c_jobs c' = c_jobs c ∧ c_pendingRSS c' = c_pendingRSS c ∧
  (∀ j, events_of j (c_log c') = events_of j (c_log c)).

Lemma balanced_same subs seq ts c c' : same_books c c' → balanced subs seq ts c → balanced subs seq ts c'.
Proof. intros (? & ? & ?). by apply balanced_core. Qed.

Lemma events_of_silent j es c :
  Forall (λ e, event_job e = None) es → events_of j (c_log (emit es c)) = events_of j (c_log c).
Proof.
  intros Hes. simpl. rewrite events_of_app.
  assert (events_of j es = []) as ->; [|by rewrite app_nil_r].
  unfold events_of. induction Hes as [|e es He _ IH]; [done|].
  rewrite filter_cons_False; [done|]. by rewrite He.
Qed.

(** ** Completing a task keeps the books *)

(** The events of job [j] that completing [item] emits. *)
Definition completion_events (item : taskItem) results coverage err (c : core) : list event :=
  let task := ti_task item in
  (if cb_OnComplete (wt_callbacks task)
   then [EvOnComplete (wt_jobID task) (wt_indexer task) results coverage err] else []) ++
  match c_jobs c !! wt_jobID task with
  | Some job => if (js_total job <=? S (js_completed job))%nat && cb_OnJobDone (js_callbacks job)
                then [EvOnJobDone (wt_jobID task)] else []
  | None => []
  end.

Definition job_after (item : taskItem) (c : core) : gmap Z jobState :=
  match c_jobs c !! wt_jobID (ti_task item) with
  | None => c_jobs c
  | Some job =>
    if (js_total job <=? S (js_completed job))%nat then delete (wt_jobID (ti_task item)) (c_jobs c)
    else <[wt_jobID (ti_task item) := MkJob (js_total job) (S (js_completed job)) (js_callbacks job)]>
           (c_jobs c)
  end.

Lemma events_of_same j e : event_job e = Some j → events_of j [e] = [e].
Proof. intros He. unfold events_of. by rewrite filter_cons_True. Qed.
Lemma events_of_other j e : event_job e ≠ Some j → events_of j [e] = [].
Proof. intros He. unfold events_of. by rewrite filter_cons_False. Qed.

Lemma handleTaskCompleteLocked_spec item results coverage err c :
  let c' := (handleTaskCompleteLocked item results coverage err c).1 in
  c_rateLimiter c' = c_rateLimiter c ∧ c_pendingRSS c' = c_pendingRSS c ∧
  c_workers c' = c_workers c ∧ c_inFlight c' = c_inFlight c ∧ c_jobs c' = job_after item c ∧
  ∀ j, events_of j (c_log c') = events_of j (c_log c) ++
    if decide (wt_jobID (ti_task item) = j)
    then completion_events item results coverage err c else [].
Proof.
  unfold handleTaskCompleteLocked, completion_events, job_after. cbn zeta.
  set (job := wt_jobID (ti_task item)). set (ix := wt_indexer (ti_task item)).
  destruct (cb_OnComplete _), (historyRecorder && _); simpl;
    destruct (c_jobs c !! job) as [[n k cbs]|] eqn:E; simpl;
    try (destruct (n <=? S k)%nat; [destruct (cb_OnJobDone cbs)|]); simpl;
    (split_and!; [done..|]); intros j; rewrite ?events_of_app;
    case_decide; subst;
    rewrite ?(events_of_same job (EvOnJobDone job)) by done;
    rewrite ?(events_of_same job (EvOnComplete job ix results coverage err)) by done;
    repeat rewrite (events_of_other j) by (simpl; congruence);
    rewrite ?app_nil_r, <- ?app_assoc; done.
Qed.

Lemma drop_rss_spec t c :
  c_rateLimiter (drop_rss t c) = c_rateLimiter c ∧ c_workers (drop_rss t c) = c_workers c ∧
  c_inFlight (drop_rss t c) = c_inFlight c ∧ c_jobs (drop_rss t c) = c_jobs c ∧
  c_log (drop_rss t c) = c_log c ∧ c_tick (drop_rss t c) = c_tick c ∧
  c_pendingRSS (drop_rss t c) =
    if wt_isRSS t then c_pendingRSS c ∖ {[ix_ID (wt_indexer t)]} else c_pendingRSS c.
Proof. unfold drop_rss. by destruct (wt_isRSS t). Qed.

Lemma ledger_step n cbs k evs item results coverage err :
  wt_callbacks (ti_task item) = cbs → ledger n cbs k 0 evs →
  let evs1 := if cb_OnComplete cbs then [EvOnComplete (wt_jobID (ti_task item))
    (wt_indexer (ti_task item)) results coverage err] else [] in
  ledger n cbs (S k) 0 (evs ++ evs1) ∧
  ledger n cbs (S k) 1 (evs ++ evs1 ++
    if cb_OnJobDone cbs then [EvOnJobDone (wt_jobID (ti_task item))] else []).
Proof.
  intros Hcb (Ha & Hc & Hd). unfold ledger, acceptances, completions, dones in *. cbn zeta.
  rewrite !omap_app, !filter_app, !length_app, Ha, Hc, Hd.
  destruct (cb_OnComplete cbs), (cb_OnJobDone cbs); simpl; split_and!; done || lia.
Qed.

(** One task of a running job completes. *)
Lemma job_phase_complete subs js ts evs item results coverage err c :
  c_jobs c !! wt_jobID (ti_task item) = js →
  job_phase subs js (item_profile item :: ts) evs →
  job_phase subs (job_after item c !! wt_jobID (ti_task item)) ts
    (evs ++ completion_events item results coverage err c).
Proof.
  intros Hjs Hph. remember (item_profile item :: ts) as ts0 eqn:Ets.
  destruct Hph as [| |n k cbs ts' evs Hne Hlen Hcb Hl|]; simplify_eq/=.
  apply Forall_cons in Hcb as [Hcb Hcbs]. simpl in Hcb.
  destruct (ledger_step _ cbs k evs item results coverage err Hcb Hl) as [Hrun Hfin].
  unfold completion_events, job_after. rewrite Hjs. simpl. rewrite Hcb.
  destruct (Nat.leb_spec (k + S (length ts)) (S k)); simpl.
  - assert (ts = []) as -> by (destruct ts; [done|simpl in *; lia]).
    rewrite lookup_delete_eq. eapply phase_finished. simpl in Hfin.
    replace (k + 1)%nat with (S k) in * by lia. exact Hfin.
  - rewrite lookup_insert_eq, app_nil_r. constructor; [|lia|done|done].
    intros ->. simpl in *. lia.
Qed.

Lemma balanced_complete subs seq item results coverage err ts c :
  balanced subs seq (item_profile item :: ts) c →
  balanced subs seq ts
    (drop_rss (ti_task item) (handleTaskCompleteLocked item results coverage err c).1).
Proof.
  intros [Hj Hf Hpos [Hnd Hr]].
  destruct (handleTaskCompleteLocked_spec item results coverage err c)
    as (_ & Erss & _ & _ & Ejobs & Elog).
  set (c1 := (handleTaskCompleteLocked item results coverage err c).1) in *.
  destruct (drop_rss_spec (ti_task item) c1) as (_ & _ & _ & Ejobs2 & Elog2 & _ & Erss2).
  set (job := wt_jobID (ti_task item)) in *.
  assert (∀ j, j ≠ job → job_after item c !! j = c_jobs c !! j) as Hother.
  { intros j Hne. unfold job_after. repeat case_match; try done;
      by rewrite ?lookup_delete_ne, ?lookup_insert_ne by done. }
  assert (0 < job) as Hjob by (apply (Hpos (item_profile item)); by left).
  split.
  - intros j Hp. rewrite Ejobs2, Ejobs, Elog2, Elog. specialize (Hj j Hp).
    rewrite of_job_cons in Hj. change (p_job (item_profile item)) with job in Hj.
    case_decide as E; [subst j; by eapply job_phase_complete|].
    by rewrite Hother, app_nil_r by done.
  - intros j Hs. destruct (Hf j Hs) as (? & Hnone & Ht & Hev).
    rewrite of_job_cons in Ht. change (p_job (item_profile item)) with job in Ht.
    case_decide as E; [done|]. rewrite Ejobs2, Ejobs, Hother, Elog2, Elog, Hev by done.
    by rewrite decide_False.
  - intros p Hin. apply Hpos. by right.
  - rewrite Erss2, Erss. rewrite rss_ids_app in *. unfold rss_ids in Hnd, Hr at 1. simpl in Hnd, Hr.
    destruct (wt_isRSS (ti_task item)) eqn:E; simpl in *; [|done].
    apply NoDup_cons in Hnd as [Hni Hnd]. split; [done|]. intros id.
    rewrite elem_of_difference, elem_of_singleton, Hr, elem_of_cons. unfold rss_ids in *.
    split; [tauto|]. intros Hin. split; [by right|]. intros ->. by apply Hni.
Qed.

(** ** Dispatching keeps the books *)

(** The worker pool: a token for each task in flight and for each goroutine
    about to release its own. *)
Record pool_ok (releasing : nat) (c : core) : Prop := {
  pool_count : c_workers c = (size (c_inFlight c) + releasing)%nat;
  pool_cap : (c_workers c ≤ maxWorkers)%nat;
  pool_key : map_Forall (λ id it, ix_ID (wt_indexer (ti_task it)) = id) (c_inFlight c);
}.

(** Changes of the rate limiter and of the number of readings only. *)
Definition quiet (c c' : core) : Prop :=
  c_jobs c' = c_jobs c ∧ c_pendingRSS c' = c_pendingRSS c ∧ c_workers c' = c_workers c ∧
  c_inFlight c' = c_inFlight c ∧ c_log c' = c_log c.

#[local] Instance quiet_preorder : PreOrder quiet.
Proof.
  split; [by intros c|]. intros c1 c2 c3 (?&?&?&?&?) (?&?&?&?&?). by split_and!; etrans.
Qed.

Lemma quiet_clock c : quiet c (read_clock c).1.
Proof. done. Qed.
Lemma quiet_ctx c ctx : quiet c (read_ctx c ctx).1.
Proof. done. Qed.
Lemma quiet_next_wait item c : quiet c (next_wait item c).1.
Proof. unfold next_wait, read_clock. by destruct (NextWait _ _ _ _). Qed.
Lemma quiet_refresh item c :
  quiet c (refresh_ctx item c).1 ∧ item_profile (refresh_ctx item c).2 = item_profile item.
Proof. unfold refresh_ctx. simpl. by destruct (_ && _). Qed.

Lemma quiet_flying c c' : quiet c c' → flying c' = flying c.
Proof. intros (_ & _ & _ & E & _). unfold flying. by rewrite E. Qed.
Lemma quiet_balanced subs seq ts c c' : quiet c c' → balanced subs seq ts c → balanced subs seq ts c'.
Proof. intros (? & ? & _ & _ & E). apply balanced_core; [done..|]. by rewrite E. Qed.
Lemma quiet_pool n c c' : quiet c c' → pool_ok n c → pool_ok n c'.
Proof. intros (_ & _ & E1 & E2 & _) []. by split; rewrite ?E1, ?E2. Qed.

Definition dispatching (subs : list submitter) (seq : Z) (others : list profile) (releasing : nat)
    (rest : list taskItem) (d : dispatch_state) : Prop :=
  balanced subs seq (others ++ (item_profile <$> rest) ++ (item_profile <$> d_blocked d) ++
                     flying (d_core d)) (d_core d) ∧
  pool_ok releasing (d_core d).

Section dispatching.
Context (subs : list submitter) (seq : Z) (others : list profile) (releasing : nat).
Abbreviation dispatching := (dispatching subs seq others releasing).

Lemma dispatching_quiet rest c d : quiet (d_core d) c → dispatching rest d → dispatching rest (with_core c d).
Proof.
  intros Hq [Hb Hp]. split; [|by eapply quiet_pool]. simpl.
  rewrite (quiet_flying _ _ Hq). by eapply quiet_balanced.
Qed.

Lemma dispatching_profile item item' rest d :
  item_profile item' = item_profile item → dispatching (item :: rest) d → dispatching (item' :: rest) d.
Proof. intros E [Hb Hp]. split; [|done]. by rewrite fmap_cons, E, <- fmap_cons. Qed.

Lemma dispatching_skip item err rest d :
  (∀ c, quiet c (err c).1) → dispatching (item :: rest) d → dispatching rest (skip_item item err d).
Proof.
  intros Herr [Hb Hp]. unfold skip_item, read_clock. cbn zeta.
  set (item' := MkItem _ _ _ _). specialize (Herr (tick (d_core d))).
  destruct (err (tick (d_core d))) as [c e]. cbn [fst] in Herr.
  assert (quiet (d_core d) c) as Hq by (etrans; [|exact Herr]; done).
  destruct (handleTaskCompleteLocked_spec item' [] [] e c) as (_ & _ & E1 & E2 & _ & _).
  pose proof (balanced_complete subs seq item' [] [] e
    (others ++ (item_profile <$> rest) ++ (item_profile <$> d_blocked d) ++ flying (d_core d)) c) as Hc.
  destruct (handleTaskCompleteLocked item' [] [] e c) as [c' rec]. cbn [fst] in E1, E2, Hc.
  destruct (drop_rss_spec (ti_task item') c') as (_ & E3 & E4 & _).
  assert (flying (drop_rss (ti_task item') c') = flying (d_core d)) as Hfl.
  { unfold flying. rewrite E4, E2. by destruct Hq as (_ & _ & _ & -> & _). }
  split; cbn [d_core d_blocked].
  - rewrite Hfl. apply Hc. apply (quiet_balanced _ _ _ _ _ Hq).
    eapply balanced_perm; [|exact Hb]. rewrite fmap_cons. change (item_profile item') with (item_profile item).
    solve_Permutation.
  - destruct Hp. destruct Hq as (_ & _ & Hw & Hi & _).
    split; rewrite ?E3, ?E4, ?E1, ?E2, ?Hw, ?Hi; done.
Qed.

Lemma dispatching_block item rest d :
  dispatching (item :: rest) d → dispatching rest (block_item item d).
Proof.
  intros [Hb Hp]. split; [|done]. eapply balanced_perm; [|exact Hb]. simpl.
  rewrite fmap_app. simpl. solve_Permutation.
Qed.

Lemma dispatching_start item rest d :
  let id := ix_ID (wt_indexer (ti_task item)) in
  c_inFlight (d_core d) !! id = None → (c_workers (d_core d) < maxWorkers)%nat →
  dispatching (item :: rest) d →
  dispatching rest
    (with_core (emit [EvExecute item] (set_inFlight (insert id item) (set_workers S (d_core d)))) d).
Proof.
  cbn zeta. intros Hnone Hw [Hb [Hp1 Hp2 Hp3]]. split; [|split]; simpl.
  - eapply balanced_core with (c := d_core d); [done|done|intros j|].
    { by apply (events_of_silent j [EvExecute item] (d_core d)); repeat constructor. }
    eapply balanced_perm; [|exact Hb]. unfold flying. cbn [c_inFlight set_inFlight set_workers emit].
    rewrite map_to_list_insert by done. rewrite !fmap_cons. cbn [snd d_blocked with_core].
    solve_Permutation.
  - rewrite Hp1, map_size_insert_None by done. lia.
  - lia.
  - by apply map_Forall_insert_2.
Qed.

Lemma dispatching_try_start item rest d :
  dispatching (item :: rest) d → dispatching rest (try_start item d).
Proof.
  intros Hd. unfold try_start. cbn zeta.
  destruct (c_inFlight (d_core d) !! _) eqn:Hf; [by apply dispatching_block|].
  pose proof (quiet_next_wait item (d_core d)) as Hq.
  destruct (next_wait item (d_core d)) as [c wait]. cbn [fst] in Hq.
  apply (dispatching_quiet _ _ _ Hq) in Hd.
  destruct (_ && _); [by apply dispatching_skip|].
  destruct (0 <? wait); [by apply dispatching_block|].
  destruct (Nat.ltb_spec (c_workers (d_core (with_core c d))) maxWorkers);
    [|by apply dispatching_block].
  apply dispatching_start; [|done|done]. cbn [d_core with_core].
  by destruct Hq as (_ & _ & _ & -> & _).
Qed.

Lemma dispatching_item item rest d :
  dispatching (item :: rest) d → dispatching rest (dispatch_item d item).
Proof.
  intros Hd. unfold dispatch_item. simpl.
  apply (dispatching_quiet _ (tick (d_core d))) in Hd; [|done].
  case_bool_decide; [by apply dispatching_skip|].
  destruct (quiet_refresh item (tick (d_core d))) as [Hq Hprof].
  destruct (refresh_ctx item (tick (d_core d))) as [c item']. cbn [fst snd] in Hq, Hprof.
  apply (dispatching_quiet _ (tick c)) in Hd; [|by etrans].
  apply (dispatching_profile _ item') in Hd; [|done].
  destruct (_ && _); [by apply dispatching_skip|by apply dispatching_try_start].
Qed.

Lemma dispatching_loop items d :
  dispatching items d → dispatching [] (foldl dispatch_item d items).
Proof.
  revert d. induction items as [|item items IH]; intros d Hd; [done|]. by apply IH, dispatching_item.
Qed.
End dispatching.

(** ** The steps keep the books *)

Lemma heap_pushes_perm l q : foldl (λ q x, heap_push x q) q l ≡ₚ l ++ q.
Proof.
  revert q. induction l as [|x l IH]; intros q; [done|]. simpl.
  rewrite IH, heap_push_perm. solve_Permutation.
Qed.

Lemma quiet_min_wait q w c : quiet c (min_wait q w c).1.
Proof.
  revert w c. induction q as [|item q IH]; intros w c; [done|]. simpl.
  pose proof (quiet_next_wait item c) as Hq. destruct (next_wait item c) as [c' w'].
  by etrans; [|apply IH].
Qed.

Lemma quiet_set_timer q c timer : quiet c (set_timer q c timer).1.
Proof.
  unfold set_timer. destruct q as [|x q]; [done|].
  pose proof (quiet_min_wait (x :: q) 0 c) as Hq. destruct (min_wait (x :: q) 0 c) as [c' w].
  destruct (0 <? w); [|done]. etrans; [exact Hq|apply quiet_clock].
Qed.

Lemma pool_same n c c' :
  c_workers c' = c_workers c → c_inFlight c' = c_inFlight c → pool_ok n c → pool_ok n c'.
Proof. intros E1 E2 []. by split; rewrite ?E1, ?E2. Qed.

Lemma dispatchTasks_frame s :
  s_submitCh (dispatchTasks s) = s_submitCh s ∧ s_jobSeq (dispatchTasks s) = s_jobSeq s ∧
  s_taskSeq (dispatchTasks s) = s_taskSeq s ∧ s_completeCh (dispatchTasks s) = s_completeCh s.
Proof.
  unfold dispatchTasks. case_bool_decide; [done|]. cbn zeta. unfold scheduleRetryTimerLocked.
  destruct (set_timer _ _ _). by destruct (d_taskCompleted _), (d_historyRecorded _).
Qed.

Lemma dispatchTasks_ok subs seq releasing s :
  balanced subs seq (live s) (s_core s) → pool_ok releasing (s_core s) →
  balanced subs seq (live (dispatchTasks s)) (s_core (dispatchTasks s)) ∧
  pool_ok releasing (s_core (dispatchTasks s)).
Proof.
  intros Hb Hp. unfold dispatchTasks. case_bool_decide; [done|]. cbn zeta.
  assert (dispatching subs seq (task_profile <$> concat (s_submitCh s)) releasing
    (heap_drain (s_taskQueue s)) (MkDispatch (s_core s) [] false false)) as Hd.
  { split; [|done]. eapply balanced_perm; [|exact Hb]. unfold live. cbn [d_core d_blocked].
    rewrite heap_drain_perm. solve_Permutation. }
  apply dispatching_loop in Hd. destruct (foldl dispatch_item _ _) as [c blocked tc hr].
  destruct Hd as [Hb' Hp']. cbn [d_core d_blocked] in Hb', Hp'.
  unfold scheduleRetryTimerLocked. cbn [s_taskQueue s_core with_queue s_retryTimer d_core d_blocked
    d_taskCompleted d_historyRecorded].
  set (q := foldl _ _ _). pose proof (quiet_set_timer q c (s_retryTimer s)) as Hq.
  destruct (set_timer q c (s_retryTimer s)) as [c' timer]. cbn [fst] in Hq.
  apply (quiet_pool _ _ _ Hq) in Hp'. apply (quiet_balanced _ _ _ _ _ Hq) in Hb'.
  split; [|by eapply pool_same; [| |exact Hp']].
  set (es := (if tc then _ else _) ++ _).
  eapply (balanced_core subs seq _ c'); [done|done|intros j; apply events_of_silent|].
  { unfold es. destruct tc, hr; repeat constructor. }
  eapply balanced_perm; [|exact Hb']. unfold live. simpl.
  rewrite <- (quiet_flying _ _ Hq). unfold flying, q. rewrite heap_pushes_perm, app_nil_r.
  solve_Permutation.
Qed.

Lemma enqueue_loop tasks q c :
  let '(q', c') := foldl enqueue_one (q, c) tasks in
  (item_profile <$> q') ≡ₚ (task_profile <$> tasks) ++ (item_profile <$> q) ∧ quiet c c'.
Proof.
  revert q c. induction tasks as [|t tasks IH]; intros q c; [done|]. simpl.
  specialize (IH (heap_push (MkItem t (jobPriority (wt_meta t)) (clock (c_tick c)) 0) q) (tick c)).
  destruct (foldl _ _ tasks) as [q' c']. destruct IH as [Hq Hc]. split; [|by etrans; [|exact Hc]].
  rewrite Hq, heap_push_perm. simpl. change (item_profile _) with (task_profile t).
  solve_Permutation.
Qed.

Lemma enqueueTasks_ok tasks s :
  live (enqueueTasks tasks s) ≡ₚ (task_profile <$> tasks) ++ live s ∧
  same_books (s_core s) (s_core (enqueueTasks tasks s)) ∧
  (∀ n, pool_ok n (s_core s) → pool_ok n (s_core (enqueueTasks tasks s))) ∧
  s_jobSeq (enqueueTasks tasks s) = s_jobSeq s.
Proof.
  unfold enqueueTasks. pose proof (enqueue_loop tasks (s_taskQueue s) (s_core s)) as He.
  destruct (foldl enqueue_one _ tasks) as [q c]. destruct He as [Hq Hc].
  unfold live. cbn [s_core s_taskQueue s_submitCh with_queue s_jobSeq].
  assert (flying (if bool_decide (tasks = []) then c else emit [EvPublish KindIndexerActivity] c) =
    flying (s_core s)) as ->.
  { destruct (bool_decide _); [|change (flying (emit _ c)) with (flying c)]; by apply quiet_flying. }
  destruct Hc as (E1 & E2 & E3 & E4 & E5). split_and!; [rewrite Hq; solve_Permutation| |intros n|done].
  - split_and!; [by destruct (bool_decide _)..|]. intros j.
    destruct (bool_decide _); [by rewrite E5|]. rewrite events_of_silent by repeat constructor.
    by rewrite E5.
  - by apply pool_same; destruct (bool_decide _).
Qed.

(** ** Submitting keeps the books *)

Lemma of_submitter_app j l1 l2 : of_submitter j (l1 ++ l2) = of_submitter j l1 ++ of_submitter j l2.
Proof. apply filter_app. Qed.
Lemma of_submitter_one j sb : of_submitter j [sb] = if decide (sb_jobID sb = j) then [sb] else [].
Proof. unfold of_submitter. by rewrite filter_cons. Qed.
Lemma submitted_app l1 l2 : submitted (l1 ++ l2) = submitted l1 ++ submitted l2.
Proof. unfold submitted. by rewrite fmap_app, concat_app. Qed.
Lemma submitted_one sb : submitted [sb] = task_profile <$> sb_tasks sb.
Proof. unfold submitted. simpl. by rewrite app_nil_r. Qed.

Lemma submitted_swap pre post sb sb' :
  sb_tasks sb' = sb_tasks sb → submitted (pre ++ [sb'] ++ post) = submitted (pre ++ sb :: post).
Proof.
  intros E. change (pre ++ sb :: post) with (pre ++ [sb] ++ post).
  by rewrite !submitted_app, !submitted_one, E.
Qed.

Lemma of_submitter_all j l : Forall (λ sb, sb_jobID sb = j) l → of_submitter j l = l.
Proof.
  induction 1 as [|sb l Hsb _ IH]; [done|]. unfold of_submitter.
  rewrite filter_cons_True by done. by f_equal.
Qed.
Lemma of_submitter_none j j' l :
  j ≠ j' → Forall (λ sb, sb_jobID sb = j') l → of_submitter j l = [].
Proof.
  intros Hne. induction 1 as [|sb l Hsb _ IH]; [done|]. unfold of_submitter.
  rewrite filter_cons_False by congruence. exact IH.
Qed.

(** A call in progress is the only one of its job, which has no live task and
    no event yet. *)
Lemma submitting_phase pre sb post seq ts c :
  balanced (pre ++ sb :: post) seq ts c → submitter_ok sb →
  let j := sb_jobID sb in
  of_submitter j pre = [] ∧ of_submitter j post = [] ∧ of_job j ts = [] ∧
  events_of j (c_log c) = [] ∧ j ≤ seq ∧
  c_jobs c !! j = if sb_registered sb
                  then Some (MkJob (length (sb_tasks sb)) 0 (rq_Callbacks (sb_req sb))) else None.
Proof.
  intros [Hj Hf _ _] (Hpos & _ & _). cbn zeta. specialize (Hj _ Hpos).
  assert (of_submitter (sb_jobID sb) (pre ++ sb :: post) =
    of_submitter (sb_jobID sb) pre ++ [sb] ++ of_submitter (sb_jobID sb) post) as E.
  { change (pre ++ sb :: post) with (pre ++ [sb] ++ post).
    by rewrite !of_submitter_app, of_submitter_one, decide_True. }
  assert (sb_jobID sb ≤ seq) as Hseq.
  { destruct (decide (sb_jobID sb ≤ seq)) as [|Hn]; [done|]. exfalso.
    destruct (Hf (sb_jobID sb)) as [Hnil _]; [lia|]. rewrite E in Hnil.
    by destruct (of_submitter _ pre). }
  rewrite E in Hj.
  remember (of_submitter (sb_jobID sb) pre ++ [sb] ++ of_submitter (sb_jobID sb) post) as l eqn:El.
  destruct Hj as [|sb'|?????|???]; try by destruct (of_submitter _ pre).
  destruct (of_submitter _ pre) as [|? [|]]; simplify_eq/=; split_and!; done.
Qed.

(** Replaces one call in progress by [new], which is its next state or
    nothing, leaving every other job alone. *)
Lemma balanced_submitter pre sb post new seq ts ts' c c' :
  balanced (pre ++ sb :: post) seq ts c → submitter_ok sb →
  Forall (λ sb', sb_jobID sb' = sb_jobID sb) new →
  (∀ j, j ≠ sb_jobID sb → c_jobs c' !! j = c_jobs c !! j ∧
     events_of j (c_log c') = events_of j (c_log c) ∧ of_job j ts' = of_job j ts) →
  job_phase new (c_jobs c' !! sb_jobID sb) (of_job (sb_jobID sb) ts')
    (events_of (sb_jobID sb) (c_log c')) →
  (∀ p, p ∈ ts' → 0 < p_job p) →
  NoDup (rss_ids (ts' ++ submitted (pre ++ new ++ post))) →
  (∀ id, id ∈ c_pendingRSS c' ↔ id ∈ rss_ids (ts' ++ submitted (pre ++ new ++ post))) →
  balanced (pre ++ new ++ post) seq ts' c'.
Proof.
  intros Hb Hok Hnew Hother Hphase Hpos Hnd Hrss.
  destruct (submitting_phase _ _ _ _ _ _ Hb Hok) as (Hpre & Hpost & _ & _ & Hseq & _).
  destruct Hb as [Hj Hf _ _].
  assert (∀ j, j ≠ sb_jobID sb →
    of_submitter j (pre ++ new ++ post) = of_submitter j (pre ++ sb :: post)) as Hsub.
  { intros j Hne. change (pre ++ sb :: post) with (pre ++ [sb] ++ post).
    rewrite !of_submitter_app, of_submitter_one, decide_False by done.
    assert (of_submitter j new = []) as ->; [|done].
    by apply (of_submitter_none j (sb_jobID sb)). }
  split; [..|done].
  - intros j Hjp. destruct (decide (j = sb_jobID sb)) as [->|Hne].
    + rewrite !of_submitter_app, Hpre, Hpost, app_nil_r. simpl.
      by rewrite of_submitter_all.
    + rewrite Hsub by done. destruct (Hother j Hne) as (-> & -> & ->). auto.
  - intros j Hs. assert (j ≠ sb_jobID sb) as Hne by lia. rewrite Hsub by done.
    destruct (Hother j Hne) as (-> & -> & ->). auto.
  - done.
Qed.

Lemma same_other pre sb post new seq ts c :
  balanced (pre ++ sb :: post) seq ts c → submitter_ok sb → sb_registered new = false →
  sb_registered sb = false →
  job_phase [new] (c_jobs c !! sb_jobID sb) (of_job (sb_jobID sb) ts) (events_of (sb_jobID sb) (c_log c)).
Proof.
  intros Hb Hok Hn Hs. destruct (submitting_phase _ _ _ _ _ _ Hb Hok) as (_ & _ & -> & -> & _ & ->).
  rewrite Hs. pose proof (phase_submitting new) as Hp. by rewrite Hn in Hp.
Qed.

Lemma submit_begin_ok req subs seq ts c tasks :
  0 ≤ seq → balanced subs seq ts c →
  balanced (MkSubmitter (seq + 1) req tasks [] false :: subs) (seq + 1) ts c.
Proof.
  intros Hseq [Hj Hf Hpos Hr]. set (sb := MkSubmitter _ _ _ _ _).
  assert (∀ j, of_submitter j (sb :: subs) =
    (if decide (seq + 1 = j) then [sb] else []) ++ of_submitter j subs) as Hsub.
  { intros j. change (sb :: subs) with ([sb] ++ subs). by rewrite of_submitter_app, of_submitter_one. }
  split; [| |done|exact Hr].
  - intros j Hp. rewrite Hsub. case_decide as E; [subst j|by apply Hj].
    destruct (Hf (seq + 1)) as (-> & -> & -> & ->); [lia|]. apply (phase_submitting sb).
  - intros j Hs. rewrite Hsub, decide_False by lia. apply Hf. lia.
Qed.

Lemma submit_indexer_ok idx todo s sb pre post s' sb' ts :
  balanced (pre ++ sb :: post) (s_jobSeq s) ts (s_core s) → submitter_ok sb →
  sb_todo sb = idx :: todo → submit_indexer idx todo s sb = (s', sb') →
  balanced (pre ++ sb' :: post) (s_jobSeq s') ts (s_core s') ∧ submitter_ok sb' ∧
  s_submitCh s' = s_submitCh s ∧ s_taskQueue s' = s_taskQueue s ∧ s_jobSeq s' = s_jobSeq s ∧
  c_inFlight (s_core s') = c_inFlight (s_core s) ∧ c_workers (s_core s') = c_workers (s_core s).
Proof.
  intros Hb Hok Htodo. assert (sb_registered sb = false) as Hreg.
  { destruct Hok as (_ & _ & Hr). destruct (sb_registered sb); [|done].
    destruct Hr as [Hnil _]; [done|]. by rewrite Htodo in Hnil. }
  assert (∀ sk, sk = MkSubmitter (sb_jobID sb) (sb_req sb) todo (sb_tasks sb) (sb_registered sb) →
    balanced (pre ++ sk :: post) (s_jobSeq s) ts (s_core s) ∧ submitter_ok sk) as Hskip.
  { intros sk ->. split; [|destruct Hok as (? & ? & _); split_and!; [done..|by simpl; rewrite Hreg]].
    apply (balanced_submitter pre sb post [_] _ ts ts (s_core s) (s_core s)); try done.
    - by repeat constructor.
    - by eapply same_other.
    - apply Hb.
    - rewrite submitted_swap with (sb := sb) by done. apply (bal_rss _ _ _ _ Hb).
    - rewrite submitted_swap with (sb := sb) by done. apply (bal_rss _ _ _ _ Hb). }
  unfold submit_indexer. cbn zeta. destruct idx as [idx|]; [|intros [= <- <-]; split_and!; by try apply Hskip].
  set (rss := is_rss_meta _). destruct (rss && _) eqn:Erss;
    [intros [= <- <-]; split_and!; by try apply Hskip|].
  set (task := MkTask _ _ _ _ _ _ _ _ _). intros [= <- <-].
  assert (∀ f, s_submitCh (if rss then on_core f s else s) = s_submitCh s ∧
    s_taskQueue (if rss then on_core f s else s) = s_taskQueue s ∧
    s_jobSeq (if rss then on_core f s else s) = s_jobSeq s) as Hframe by (by destruct rss).
  cbn [s_core set_seqs s_submitCh s_taskQueue s_jobSeq].
  split_and!; [|destruct Hok as (? & Hts & _); split_and!; [done| |by simpl; rewrite Hreg]|
    by apply Hframe..|by destruct rss|by destruct rss].
  2:{ simpl. apply Forall_app. split; [done|]. by repeat constructor. }
  destruct (bal_rss _ _ _ _ Hb) as [Hnd Hrss].
  set (sb' := MkSubmitter _ _ _ _ _).
  assert (rss_ids (ts ++ submitted (pre ++ [sb'] ++ post)) ≡ₚ
    (if rss then [ix_ID idx] else []) ++ rss_ids (ts ++ submitted (pre ++ sb :: post))) as Hids.
  { change (pre ++ sb :: post) with (pre ++ [sb] ++ post).
    rewrite !submitted_app, !submitted_one. unfold sb'. cbn [sb_tasks].
    rewrite fmap_app, !rss_ids_app. cbn [fmap list_fmap]. unfold rss_ids at 4. simpl.
    destruct rss; simpl; [|by rewrite app_nil_r]. solve_Permutation. }
  destruct (Hframe (set_rss (λ p, {[ix_ID idx]} ∪ p))) as (_ & _ & ->).
  apply (balanced_submitter pre sb post [sb'] _ ts ts (s_core s)); try done.
  - by repeat constructor.
  - by destruct rss.
  - assert (c_jobs (s_core (if rss then on_core (set_rss (λ p, {[ix_ID idx]} ∪ p)) s else s)) =
      c_jobs (s_core s) ∧ c_log (s_core (if rss then on_core (set_rss (λ p, {[ix_ID idx]} ∪ p)) s
      else s)) = c_log (s_core s)) as [-> ->] by (by destruct rss).
    by eapply same_other.
  - apply Hb.
  - rewrite Hids. destruct rss; [|done]. simpl. apply NoDup_cons. split; [|done].
    simpl in Erss. rewrite <- Hrss. by apply bool_decide_eq_false in Erss.
  - intros id. rewrite Hids, elem_of_app, <- Hrss. destruct rss; simpl; [|set_solver]. set_solver.
Qed.

Lemma submitted_drop pre sb post ts :
  rss_ids (ts ++ submitted (pre ++ sb :: post)) ≡ₚ
    rss_ids (task_profile <$> sb_tasks sb) ++ rss_ids (ts ++ submitted (pre ++ [] ++ post)).
Proof.
  change (pre ++ sb :: post) with (pre ++ [sb] ++ post).
  rewrite !submitted_app, !submitted_one, !rss_ids_app. simpl. solve_Permutation.
Qed.

Lemma submit_filtered_ok s sb pre post ts :
  balanced (pre ++ sb :: post) (s_jobSeq s) ts (s_core s) → submitter_ok sb → sb_tasks sb = [] →
  balanced (pre ++ post) (s_jobSeq s) ts (s_core (submit_filtered s sb)).
Proof.
  intros Hb Hok Htasks. destruct (submitting_phase _ _ _ _ _ _ Hb Hok) as (_ & _ & Ht & Hev & _ & Hjob).
  destruct (bal_rss _ _ _ _ Hb) as [Hnd Hrss].
  assert (sb_registered sb = false) as Hreg.
  { destruct Hok as (_ & _ & Hr). destruct (sb_registered sb); [|done]. by destruct Hr. }
  rewrite Hreg in Hjob.
  pose proof (submitted_drop pre sb post ts) as Hids. rewrite Htasks in Hids. simpl in Hids.
  unfold submit_filtered. cbn [s_core on_core with_queue]. set (es := EvAccepted _ _ _ :: _).
  apply (balanced_submitter pre sb post [] _ ts ts (s_core s)); try done.
  - intros j Hne. split_and!; [done| |done]. simpl. rewrite events_of_app.
    assert (events_of j es = []) as ->; [|by rewrite app_nil_r].
    unfold es, events_of. rewrite filter_cons_False by (simpl; congruence).
    destruct (cb_OnJobDone _); [|done]. by rewrite filter_cons_False by (simpl; congruence).
  - simpl. rewrite events_of_app, Hev, Ht, Hjob. simpl.
    apply (phase_finished 0 (rq_Callbacks (sb_req sb))). unfold es, events_of.
    rewrite filter_cons_True by done.
    destruct (cb_OnJobDone (rq_Callbacks (sb_req sb))) eqn:E; [rewrite filter_cons_True by done|];
      (split_and!; [done|by destruct (cb_OnComplete _)|by rewrite E]).
  - apply Hb.
  - by rewrite <- Hids.
  - intros id. by rewrite Hrss, Hids.
Qed.

Lemma submit_register_ok s sb pre post s' sb' ts :
  balanced (pre ++ sb :: post) (s_jobSeq s) ts (s_core s) → submitter_ok sb →
  sb_todo sb = [] → sb_tasks sb ≠ [] → submit_register s sb = (s', sb') →
  balanced (pre ++ sb' :: post) (s_jobSeq s) ts (s_core s') ∧ submitter_ok sb'.
Proof.
  intros Hb Hok Htodo Htasks [= <- <-].
  destruct (submitting_phase _ _ _ _ _ _ Hb Hok) as (_ & _ & Ht & Hev & _ & _).
  split; [|destruct Hok as (? & ? & _); by split_and!].
  set (sb' := MkSubmitter _ _ _ _ _).
  apply (balanced_submitter pre sb post [sb'] _ ts ts (s_core s)); try done.
  - by repeat constructor.
  - intros j Hne. split_and!; [|done..]. simpl. by rewrite lookup_insert_ne.
  - simpl. rewrite lookup_insert_eq, Ht, Hev. apply (phase_submitting sb').
  - apply Hb.
  - rewrite submitted_swap with (sb := sb) by done. apply (bal_rss _ _ _ _ Hb).
  - rewrite submitted_swap with (sb := sb) by done. apply (bal_rss _ _ _ _ Hb).
Qed.

Lemma of_job_other j l p : Forall (λ q, p_job q = p) l → j ≠ p → of_job j l = [].
Proof.
  intros Hl Hne. induction Hl as [|q l Hq _ IH]; [done|]. unfold of_job.
  rewrite filter_cons_False by congruence. exact IH.
Qed.
Lemma of_job_all j l : Forall (λ q, p_job q = j) l → of_job j l = l.
Proof.
  induction 1 as [|q l Hq _ IH]; [done|]. unfold of_job. rewrite filter_cons_True by done. by f_equal.
Qed.

Lemma submit_send_ok s sb pre post ts :
  balanced (pre ++ sb :: post) (s_jobSeq s) ts (s_core s) → submitter_ok sb →
  sb_registered sb = true →
  balanced (pre ++ post) (s_jobSeq s) ((task_profile <$> sb_tasks sb) ++ ts) (s_core (submit_send s sb)).
Proof.
  intros Hb Hok Hreg. destruct (submitting_phase _ _ _ _ _ _ Hb Hok) as (_ & _ & Ht & Hev & _ & Hjob).
  rewrite Hreg in Hjob. destruct (bal_rss _ _ _ _ Hb) as [Hnd Hrss].
  pose proof Hok as (Hpos & Htasks & Hne). destruct (Hne Hreg) as [_ Hnil].
  assert (Forall (λ q, p_job q = sb_jobID sb ∧ p_callbacks q = rq_Callbacks (sb_req sb))
    (task_profile <$> sb_tasks sb)) as Hall by by apply Forall_fmap.
  assert (Forall (λ q, p_job q = sb_jobID sb) (task_profile <$> sb_tasks sb)) as Hjobs
    by (eapply Forall_impl; [exact Hall|by intros ? []]).
  pose proof (submitted_drop pre sb post ts) as Hids.
  assert (rss_ids (((task_profile <$> sb_tasks sb) ++ ts) ++ submitted (pre ++ [] ++ post)) ≡ₚ
    rss_ids (ts ++ submitted (pre ++ sb :: post))) as Hids'.
  { rewrite Hids, !rss_ids_app. solve_Permutation. }
  unfold submit_send. cbn [s_core on_core with_queue].
  apply (balanced_submitter pre sb post [] _ ts _ (s_core s)); try done.
  - intros j Hj. split_and!; [done| |].
    + simpl. rewrite events_of_app, (events_of_other j) by (simpl; congruence). by rewrite app_nil_r.
    + by rewrite of_job_app, (of_job_other j _ (sb_jobID sb)).
  - simpl. rewrite of_job_app, of_job_all, Ht, app_nil_r, events_of_app, Hev, Hjob by done.
    rewrite events_of_same by done. constructor.
    + intros E. by apply fmap_nil_inv in E.
    + by rewrite length_fmap.
    + eapply Forall_impl; [exact Hall|by intros ? []].
    + split_and!; [done|by destruct (cb_OnComplete _)|by destruct (cb_OnJobDone _)].
  - intros p [Hp|Hp]%elem_of_app; [|by apply (bal_positive _ _ _ _ Hb)].
    rewrite Forall_forall in Hjobs. by rewrite (Hjobs p Hp).
  - by rewrite Hids'.
  - intros id. by rewrite Hrss, Hids'.
Qed.

Lemma clearPendingRSSLocked_spec tasks c :
  let c' := clearPendingRSSLocked tasks c in
  c_jobs c' = c_jobs c ∧ c_log c' = c_log c ∧ c_inFlight c' = c_inFlight c ∧
  c_workers c' = c_workers c ∧
  ∀ id, id ∈ c_pendingRSS c' ↔ id ∈ c_pendingRSS c ∧ id ∉ rss_ids (task_profile <$> tasks).
Proof.
  cbn zeta. revert c. induction tasks as [|t tasks IH]; intros c; simpl.
  { split_and!; [done..|]. intros id. pose proof (not_elem_of_nil id). tauto. }
  destruct (IH (drop_rss t c)) as (-> & -> & -> & -> & Hr).
  destruct (drop_rss_spec t c) as (_ & -> & -> & -> & -> & _ & E). split_and!; [done..|].
  intros id. rewrite Hr, E. unfold rss_ids. simpl.
  destruct (wt_isRSS t); simpl; [|done]. rewrite elem_of_cons. set_solver.
Qed.

Lemma submit_cancel_ok s sb pre post ts :
  balanced (pre ++ sb :: post) (s_jobSeq s) ts (s_core s) → submitter_ok sb →
  balanced (pre ++ post) (s_jobSeq s) ts (s_core (submit_cancel s sb)).
Proof.
  intros Hb Hok. destruct (submitting_phase _ _ _ _ _ _ Hb Hok) as (_ & _ & Ht & Hev & _ & _).
  destruct (bal_rss _ _ _ _ Hb) as [Hnd Hrss]. pose proof (submitted_drop pre sb post ts) as Hids.
  unfold submit_cancel. cbn [s_core on_core with_queue].
  destruct (clearPendingRSSLocked_spec (sb_tasks sb) (set_jobs (delete (sb_jobID sb)) (s_core s)))
    as (Ej & El & _ & _ & Er).
  rewrite Hids in Hnd. apply NoDup_app in Hnd as (_ & Hdis & Hnd).
  apply (balanced_submitter pre sb post [] _ ts ts (s_core s)); try done.
  - intros j Hne. rewrite Ej, El. split_and!; [|done..]. simpl. by rewrite lookup_delete_ne.
  - rewrite Ej, El, Ht. simpl. rewrite Hev, lookup_delete_eq. constructor.
  - apply Hb.
  - intros id. rewrite Er. simpl. rewrite Hrss, Hids, elem_of_app. split; [tauto|].
    intros Hin. split; [by right|]. intros Hin'. by apply (Hdis id).
Qed.

(** ** Running keeps the books *)

Lemma flying_delete id item c :
  c_inFlight c !! id = Some item →
  flying c ≡ₚ item_profile item :: flying (set_inFlight (delete id) c).
Proof.
  intros Hi. unfold flying. simpl. rewrite <- (map_to_list_delete (c_inFlight c) id item) by done. done.
Qed.

Lemma exec_request_ok id item c :
  c_inFlight c !! id = Some item →
  same_books c (exec_request id item c) ∧ flying (exec_request id item c) ≡ₚ flying c ∧
  ∀ n, pool_ok n c → pool_ok n (exec_request id item c).
Proof.
  intros Hi. set (item' := MkItem (ti_task item) (ti_priority item) (ti_created item)
    (clock (S (c_tick c)))).
  split_and!; [done| |].
  - rewrite (flying_delete id item c Hi), (flying_delete id item') by (simpl; by rewrite lookup_insert_eq).
    unfold flying. simpl. by rewrite delete_insert_eq.
  - intros n [Hw Hc Hk]. split; simpl; [|done|].
    + by rewrite map_size_insert_Some by (by eexists).
    + apply map_Forall_insert_2; [|done]. apply (Hk id item Hi).
Qed.

Lemma exec_finish_ok subs seq ts id item results coverage err c :
  c_inFlight c !! id = Some item → balanced subs seq (item_profile item :: ts) c →
  balanced subs seq ts (exec_finish id item results coverage err c) ∧
  flying (exec_finish id item results coverage err c) = flying (set_inFlight (delete id) c) ∧
  ∀ n, pool_ok n c → pool_ok (S n) (exec_finish id item results coverage err c).
Proof.
  intros Hi Hb. unfold exec_finish.
  destruct (handleTaskCompleteLocked_spec item results coverage err c) as (_ & _ & Ew & Ei & _ & _).
  pose proof (balanced_complete subs seq item results coverage err ts c Hb) as Hb'.
  destruct (handleTaskCompleteLocked item results coverage err c) as [c' recorded].
  cbn [fst] in Ew, Ei, Hb'. set (es := _ :: _).
  destruct (drop_rss_spec (ti_task item) (set_inFlight (delete id) c')) as (_ & E1 & E2 & E3 & E4 & _ & E5).
  destruct (drop_rss_spec (ti_task item) c') as (_ & _ & _ & F3 & F4 & _ & F5).
  split_and!.
  - eapply balanced_core; [| | |exact Hb']; [by simpl; rewrite E3, F3|by simpl; rewrite E5, F5|].
    intros j. rewrite events_of_silent by (unfold es; destruct recorded; repeat constructor).
    by rewrite E4, F4.
  - unfold flying. simpl. rewrite E2. simpl. by rewrite Ei.
  - intros n [Hw Hc Hk]. split; simpl; rewrite ?E1, ?E2; simpl; rewrite ?Ew, ?Ei; [|done|].
    + rewrite map_size_delete, Hi, Hw.
      assert (size (c_inFlight c) ≠ 0%nat) by (intros E%map_size_empty_inv; by rewrite E in Hi).
      simpl. lia.
    + by apply map_Forall_delete.
Qed.

Record system_ok (y : system) : Prop := {
  so_books : balanced (y_submits y) (s_jobSeq (y_sched y)) (live (y_sched y)) (s_core (y_sched y));
  so_pool : pool_ok (y_releasing y) (s_core (y_sched y));
  so_submits : Forall submitter_ok (y_submits y);
  so_seq : 0 ≤ s_jobSeq (y_sched y);
}.

Lemma system_ok_init rl : system_ok (MkSystem (newSearchScheduler rl) [] ∅ 0).
Proof.
  assert (live (newSearchScheduler rl) = []) as Hl
    by (unfold live, flying; simpl; by rewrite map_to_list_empty).
  split; [| |constructor|done].
  - cbn [y_submits y_sched]. rewrite Hl. split.
    + intros j _. constructor.
    + done.
    + by intros p ?%elem_of_nil.
    + split; [constructor|]. set_solver.
  - split; simpl; [by rewrite map_size_empty|lia|apply map_Forall_empty].
Qed.

(** A step that only moves tasks between the channel, the queue and the
    workers, and changes the core silently. *)
Lemma system_ok_same y s' exec :
  live s' ≡ₚ live (y_sched y) → same_books (s_core (y_sched y)) (s_core s') →
  pool_ok (y_releasing y) (s_core s') → s_jobSeq s' = s_jobSeq (y_sched y) →
  system_ok y → system_ok (MkSystem s' (y_submits y) exec (y_releasing y)).
Proof.
  intros Hl Hs Hp Hseq [Hb _ Hsub Hq]. split; simpl; [|done|done|by rewrite Hseq].
  rewrite Hseq. eapply balanced_perm; [symmetry; exact Hl|]. by eapply balanced_same.
Qed.

Lemma Forall_middle {A} (P : A → Prop) pre x post :
  Forall P (pre ++ x :: post) ↔ P x ∧ Forall P (pre ++ post).
Proof. rewrite !Forall_app, Forall_cons. tauto. Qed.

(** The steps of [Submit]. *)
Lemma step_submit_ok y y' :
  system_ok y →
  (∃ req, y' = with_sched (submit_nothing req (y_sched y)) y) ∨
  (∃ req s sb, submit_begin req (y_sched y) = (s, sb) ∧
     y' = MkSystem s (sb :: y_submits y) (y_exec y) (y_releasing y)) ∨
  (∃ pre sb post, y_submits y = pre ++ sb :: post ∧
    ((∃ idx todo s sb', sb_todo sb = idx :: todo ∧
        submit_indexer idx todo (y_sched y) sb = (s, sb') ∧
        y' = MkSystem s (pre ++ sb' :: post) (y_exec y) (y_releasing y)) ∨
     (sb_todo sb = [] ∧ sb_tasks sb = [] ∧
        y' = MkSystem (submit_filtered (y_sched y) sb) (pre ++ post) (y_exec y) (y_releasing y)) ∨
     (∃ s sb', sb_todo sb = [] ∧ sb_tasks sb ≠ [] ∧ submit_register (y_sched y) sb = (s, sb') ∧
        y' = MkSystem s (pre ++ sb' :: post) (y_exec y) (y_releasing y)) ∨
     (sb_registered sb = true ∧
        y' = MkSystem (submit_send (y_sched y) sb) (pre ++ post) (y_exec y) (y_releasing y)) ∨
     y' = MkSystem (submit_cancel (y_sched y) sb) (pre ++ post) (y_exec y) (y_releasing y))) →
  system_ok y'.
Proof.
  intros [Hb Hp Hs Hq] [(req & ->)|[(req & s & sb & [= <- <-] & ->)|(pre & sb & post & Es & Hstep)]].
  - unfold submit_nothing. destruct (cb_OnJobDone _); [|by destruct y].
    split; simpl; [|by eapply pool_same; [| |exact Hp]|done|done].
    assert (∀ j, 0 < j → events_of j (c_log (s_core (y_sched y)) ++ [EvOnJobDone 0]) =
      events_of j (c_log (s_core (y_sched y)))) as Hev.
    { intros j Hj. rewrite events_of_app, (events_of_other j); [by rewrite app_nil_r|].
      simpl. intros [= E]. lia. }
    change (live (on_core (emit [EvOnJobDone 0]) (y_sched y))) with (live (y_sched y)).
    destruct Hb as [Hj Hf Hpos Hr]. split; simpl; try done.
    + intros j Hj'. rewrite Hev by done. auto.
    + intros j Hj'. rewrite Hev by lia. auto.
  - split; simpl; [by apply submit_begin_ok|done| |lia].
    constructor; [|done]. split_and!; simpl; [lia|constructor|done].
  - rewrite Es in Hb, Hs. apply Forall_middle in Hs as [Hok Hs].
    destruct Hstep as [(idx & todo & s & sb' & Htodo & Hrun & ->)|[(Htodo & Htasks & ->)|
      [(s & sb' & Htodo & Htasks & Hrun & ->)|[(Hreg & ->)| ->]]]].
    + destruct (submit_indexer_ok _ _ _ _ _ _ _ _ _ Hb Hok Htodo Hrun)
        as (Hb' & Hok' & E1 & E2 & E3 & E4 & E5).
      split; simpl; [| |by apply Forall_middle|by rewrite E3].
      * unfold live, flying in *. by rewrite E1, E2, E4.
      * by eapply pool_same; [| |exact Hp].
    + split; simpl; [by apply submit_filtered_ok|by eapply pool_same; [| |exact Hp]|done|done].
    + destruct (submit_register_ok _ _ _ _ _ _ _ Hb Hok Htodo Htasks Hrun) as [Hb' Hok'].
      injection Hrun as <- <-. split; simpl; [exact Hb'|by eapply pool_same; [| |exact Hp]| |done].
      by apply Forall_middle.
    + split; simpl; [|by eapply pool_same; [| |exact Hp]|done|done].
      pose proof (submit_send_ok _ _ _ _ _ Hb Hok Hreg) as Hb'.
      eapply balanced_perm; [|exact Hb']. unfold live, submit_send. simpl.
      rewrite concat_app, fmap_app. simpl. rewrite app_nil_r.
      change (flying (emit _ (s_core (y_sched y)))) with (flying (s_core (y_sched y))).
      solve_Permutation.
    + destruct (clearPendingRSSLocked_spec (sb_tasks sb)
        (set_jobs (delete (sb_jobID sb)) (s_core (y_sched y)))) as (_ & _ & E1 & E2 & _).
      split; simpl; [|by eapply pool_same; [| |exact Hp]|done|done].
      pose proof (submit_cancel_ok _ _ _ _ _ Hb Hok) as Hb'. unfold live, flying in *. simpl.
      by rewrite E1.
Qed.

Lemma dispatch_ok y s exec :
  live s ≡ₚ live (y_sched y) → s_core s = s_core (y_sched y) →
  s_jobSeq s = s_jobSeq (y_sched y) → system_ok y →
  system_ok (MkSystem (dispatchTasks s) (y_submits y) exec (y_releasing y)).
Proof.
  intros Hl Hc Hseq [Hb Hp Hs Hq].
  destruct (dispatchTasks_ok (y_submits y) (s_jobSeq (y_sched y)) (y_releasing y) s) as [Hb' Hp'].
  - eapply balanced_perm; [symmetry; exact Hl|]. by rewrite Hc.
  - by rewrite Hc.
  - destruct (dispatchTasks_frame s) as (_ & E & _).
    split; simpl; rewrite ?E, ?Hseq; done.
Qed.

Lemma step_ok y y' : step y y' → system_ok y → system_ok y'.
Proof.
  intros Hstep Hok.
  destruct Hstep as [y req ?|y req s sb ? Hrun|y pre sb post idx todo s sb' E ? Hrun|
    y pre sb post E ? ?|y pre sb post s sb' E ? ? ? Hrun|y pre sb post E ? ?|y pre sb post E ? ?|
    y batch rest E|y n ?|y ?|y deadline ? ?|y id item Hi ?|y id ?|y id item results cov err Hi ?|
    y n E|y op|y].
  1-7: eapply step_submit_ok; [done|]; naive_solver.
  - set (s0 := set_loop rest _ _ _ _).
    destruct (enqueueTasks_ok batch s0) as (Hl & Hsame & Hp & Hseq).
    apply system_ok_same; [|done|apply Hp, Hok|done|done].
    rewrite Hl. unfold live. simpl. rewrite E. simpl. rewrite fmap_app. solve_Permutation.
  - by apply dispatch_ok.
  - by apply dispatch_ok.
  - by apply system_ok_same; try apply Hok.
  - destruct (exec_request_ok id item _ Hi) as (Hsame & Hfl & Hp).
    apply system_ok_same; [|done|apply Hp, Hok|done|done]. unfold live. simpl. by rewrite Hfl.
  - apply system_ok_same; try apply Hok; try done. by eapply pool_same; [| |apply Hok].
  - destruct Hok as [Hb Hp Hs Hq].
    destruct (exec_finish_ok (y_submits y) (s_jobSeq (y_sched y)) ((task_profile <$> concat (s_submitCh (y_sched y))) ++
      (item_profile <$> s_taskQueue (y_sched y)) ++ flying (set_inFlight (delete id) (s_core (y_sched y))))
      id item results cov err _ Hi) as (Hb' & Hfl & Hp').
    { eapply balanced_perm; [|exact Hb]. unfold live. rewrite (flying_delete id item) by done.
      solve_Permutation. }
    split; simpl; [|by apply Hp'|done|done]. unfold live. simpl. by rewrite Hfl.
  - destruct Hok as [Hb [Hw Hc Hk] Hs Hq].
    split; simpl; [by eapply balanced_core; [| | |exact Hb]| |done|done].
    rewrite E in Hw. split; simpl; [rewrite Hw; lia|lia|done].
  - apply system_ok_same; try apply Hok; try done. by eapply pool_same; [| |apply Hok].
  - apply system_ok_same; try apply Hok; try done. by eapply pool_same; [| |apply Hok].
Qed.

Lemma reachable_ok rl y : reachable rl y → system_ok y.
Proof. induction 1 as [|y y' _ IH Hstep]; [apply system_ok_init|]. by eapply step_ok. Qed.

(** ** What holds in every reachable state *)

Lemma accepted_phase subs js ts evs n cbs :
  job_phase subs js ts evs → (n, cbs) ∈ acceptances evs →
  (length ts ≤ n)%nat ∧ ledger n cbs (n - length ts) (if decide (ts = []) then 1 else 0) evs.
Proof.
  intros Hph Hin.
  destruct Hph as [|sb|n' k cbs' ts evs Hne Hlen _ Hl|n' cbs' evs Hl];
    [by apply elem_of_nil in Hin|by apply elem_of_nil in Hin|..];
    pose proof Hl as (Ha & _); rewrite Ha in Hin; apply list_elem_of_singleton in Hin; simplify_eq.
  - rewrite decide_False by done. split; [lia|].
    by replace (k + length ts - length ts)%nat with k by lia.
  - simpl. rewrite Nat.sub_0_r. split; [lia|done].
Qed.

(** C30. Whatever the interleaving of submissions,
    dispatches, workers and timers: once a job of [n] tasks is accepted, each
    of its tasks that is no longer live has been reported to [OnComplete]
    exactly once, and [OnJobDone] has been called exactly once if none of its
    tasks is live and not at all before. *)
Theorem job_done_exactly_once (rl : RateLimiter) (y : system) (j : Z) (n : nat) (cbs : JobCallbacks) :
  reachable rl y → 0 < j → EvAccepted j n cbs ∈ c_log (s_core (y_sched y)) →
  let remaining := of_job j (live (y_sched y)) in
  let events := events_of j (c_log (s_core (y_sched y))) in
  (length remaining ≤ n)%nat ∧
  acceptances events = [(n, cbs)] ∧
  completions events = (if cb_OnComplete cbs then n - length remaining else 0)%nat ∧
  dones events = (if cb_OnJobDone cbs && bool_decide (remaining = []) then 1 else 0)%nat.
Proof.
  intros Hy Hj Hin. apply reachable_ok in Hy as [Hb _ _ _]. cbn zeta.
  pose proof (bal_jobs _ _ _ _ Hb j Hj) as Hph.
  apply (accepted_phase _ _ _ _ n cbs) in Hph as (Hlen & Ha & Hc & Hd).
  - split_and!; [done..|]. rewrite Hd. case_decide; [rewrite bool_decide_true by done|
      rewrite bool_decide_false by done]; by destruct (cb_OnJobDone cbs).
  - unfold acceptances. apply elem_of_omap. exists (EvAccepted j n cbs). split; [|done].
    by apply list_elem_of_filter.
Qed.

(** In every reachable state at most [maxWorkers] worker
    tokens are taken, each by a task in flight or by a goroutine about to
    release it, and an indexer has at most one task in flight, filed under its
    own ID. *)
Theorem worker_pool_bounded (rl : RateLimiter) (y : system) :
  reachable rl y →
  let c := s_core (y_sched y) in
  c_workers c = (size (c_inFlight c) + y_releasing y)%nat ∧ (c_workers c ≤ maxWorkers)%nat ∧
  ∀ id item, c_inFlight c !! id = Some item → ix_ID (wt_indexer (ti_task item)) = id.
Proof.
  intros Hy. apply reachable_ok in Hy as [_ [Hw Hc Hk] _ _]. split_and!; [done..|].
  intros id item Hi. by apply (Hk id item).
Qed.

(** In every reachable state each indexer has at most one
    RSS task that is being submitted, queued or in flight, and [pendingRSS] is
    exactly the set of the indexers that have one: no RSS search is started
    twice and no indexer stays blocked after its search has ended. *)
Theorem rss_deduplicated (rl : RateLimiter) (y : system) :
  reachable rl y →
  let tasks := live (y_sched y) ++ submitted (y_submits y) in
  NoDup (rss_ids tasks) ∧
  ∀ id, id ∈ c_pendingRSS (s_core (y_sched y)) ↔
        ∃ p, p ∈ tasks ∧ p_rss p = true ∧ p_indexer p = id.
Proof.
  intros Hy. apply reachable_ok in Hy as [Hb _ _ _]. destruct (bal_rss _ _ _ _ Hb) as [Hnd Hr].
  split; [done|]. intros id. rewrite Hr. unfold rss_ids. rewrite elem_of_omap.
  split; intros (p & Hp & He); exists p; (split; [done|]).
  - destruct (p_rss p); by simplify_eq.
  - by destruct He as [-> ->].
Qed.

(** ** Priorities and rate limits in one dispatch *)

#[local] Arguments NextWait : simpl never.

(** What [NextWait] answers for the item at the [n]-th reading of the clock. *)
Definition wait_at (n : nat) (item : taskItem) (c : core) : RateLimiter * Z :=
  NextWait (clock n) (c_rateLimiter c) (Some (ix_ID (wt_indexer (ti_task item))))
    (rateLimit_of (wt_meta (ti_task item))).

Lemma next_wait_eq item c :
  next_wait item c = (set_rl (λ _, (wait_at (c_tick c) item c).1) (tick c),
                      (wait_at (c_tick c) item c).2).
Proof. unfold next_wait, wait_at. simpl. by destruct (NextWait _ _ _ _). Qed.

Lemma next_wait_state item c id :
  state_of (c_rateLimiter (next_wait item c).1) id = state_of (c_rateLimiter c) id.
Proof.
  unfold next_wait, read_clock, NextWait, computeWaitLocked. simpl.
  generalize (c_rateLimiter c) (ix_ID (wt_indexer (ti_task item))). intros r i.
  generalize (rlo_MinInterval (resolveOptions r (rateLimit_of (wt_meta (ti_task item))))). intros v.
  get_state r i. simpl. apply Esame.
Qed.

(** [item] may run now: its indexer is idle and [NextWait] allows it at the
    [n]-th reading of the clock. *)
Definition ready (item : taskItem) (n : nat) (c : core) : Prop :=
  c_inFlight c !! ix_ID (wt_indexer (ti_task item)) = None ∧ (wait_at n item c).2 ≤ 0.

(** The three outcomes of [try_start]. *)
Inductive start_outcome (item : taskItem) (d d' : dispatch_state) : Prop :=
| outcome_started :
    ready item (c_tick (d_core d)) (d_core d) → (c_workers (d_core d) < maxWorkers)%nat →
    d_blocked d' = d_blocked d → c_workers (d_core d') = S (c_workers (d_core d)) →
    start_outcome item d d'
| outcome_blocked :
    d_blocked d' = d_blocked d ++ [item] → c_workers (d_core d') = c_workers (d_core d) →
    ~ ready item (c_tick (d_core d)) (d_core d) ∨ (maxWorkers ≤ c_workers (d_core d))%nat →
    start_outcome item d d'
| outcome_skipped :
    d_blocked d' = d_blocked d → c_workers (d_core d') = c_workers (d_core d) →
    start_outcome item d d'.

Lemma skip_item_workers item err d :
  (∀ c, quiet c (err c).1) →
  c_workers (d_core (skip_item item err d)) = c_workers (d_core d) ∧
  d_blocked (skip_item item err d) = d_blocked d.
Proof.
  intros Herr. unfold skip_item, read_clock. cbn zeta.
  specialize (Herr (tick (d_core d))). destruct (err (tick (d_core d))) as [c e].
  set (item' := MkItem _ _ _ _).
  destruct (handleTaskCompleteLocked_spec item' [] [] e c) as (_ & _ & E & _).
  destruct (handleTaskCompleteLocked item' [] [] e c) as [c' rec]. cbn [fst] in *.
  destruct (drop_rss_spec (ti_task item') c') as (_ & E' & _). split; [|done].
  cbn [d_core]. rewrite E', E. by destruct Herr as (_ & _ & -> & _).
Qed.

Lemma try_start_outcome item d : start_outcome item d (try_start item d).
Proof.
  unfold try_start. cbn zeta.
  destruct (c_inFlight (d_core d) !! _) eqn:Hf.
  { apply outcome_blocked; [done..|]. left. intros [Hn _]. congruence. }
  rewrite next_wait_eq. destruct (wait_at _ item (d_core d)) as [rl wait] eqn:Hw.
  cbn [fst snd]. set (c := set_rl (λ _, rl) (tick (d_core d))).
  destruct (_ && _).
  { match goal with |- start_outcome _ _ (skip_item _ ?e _) =>
      destruct (skip_item_workers item e (with_core c d)) as [E1 E2] end; [done|].
    by apply outcome_skipped. }
  destruct (Z.ltb_spec 0 wait).
  { apply outcome_blocked; [done..|]. left. unfold ready. rewrite Hw. simpl. lia. }
  assert (ready item (c_tick (d_core d)) (d_core d)) as Hr by (split; [done|by rewrite Hw]).
  cbn [d_core with_core]. change (c_workers c) with (c_workers (d_core d)).
  destruct (Nat.ltb_spec (c_workers (d_core d)) maxWorkers) as [Hlt|Hge];
    [|by apply outcome_blocked; [done..|by right]].
  by apply outcome_started.
Qed.

(** The item a dispatch tries to start, with a fresh context if its own has
    expired, and the state it is tried in. *)
Lemma dispatch_item_outcome item d :
  ∃ item' d1, item_profile item' = item_profile item ∧ wt_meta (ti_task item') = wt_meta (ti_task item) ∧
    quiet (d_core d) (d_core d1) ∧ c_rateLimiter (d_core d1) = c_rateLimiter (d_core d) ∧
    d_blocked d1 = d_blocked d ∧ start_outcome item' d1 (dispatch_item d item) ∧
    (c_tick (d_core d) ≤ c_tick (d_core d1))%nat.
Proof.
  unfold dispatch_item. simpl. case_bool_decide.
  { exists item, d. split_and!; try done.
    destruct (skip_item_workers item (ctx_error (wt_ctx (ti_task item))) (with_core (tick (d_core d)) d))
      as [E1 E2]; [done|]. by apply outcome_skipped. }
  assert (∃ item' c, refresh_ctx item (tick (d_core d)) = (c, item') ∧
    item_profile item' = item_profile item ∧ wt_meta (ti_task item') = wt_meta (ti_task item) ∧
    quiet (d_core d) c ∧ c_rateLimiter c = c_rateLimiter (d_core d) ∧
    c_tick c = S (S (c_tick (d_core d)))) as (item' & c & -> & Hp & Hm & Hq & Hrl & Ht).
  { unfold refresh_ctx. simpl. destruct (_ && _); eexists _, _; split_and!; done. }
  exists item', (with_core (tick c) d). split_and!; [done..| |simpl; lia].
  destruct (_ && _); [|apply try_start_outcome].
  destruct (skip_item_workers item' (ctx_error (wt_ctx (ti_task item'))) (with_core (tick c) d))
    as [E1 E2]; [done|]. by apply outcome_skipped.
Qed.

Lemma dispatch_loop_workers items d :
  (c_workers (d_core d) ≤ c_workers (d_core (foldl dispatch_item d items)))%nat.
Proof.
  revert d. induction items as [|item items IH]; intros d; [done|]. simpl. etrans; [|apply IH].
  destruct (dispatch_item_outcome item d) as (i & d1 & _ & _ & (_ & _ & Hw & _) & _ & _ & Ho & _).
  destruct Ho; lia.
Qed.

(** Items are tried in priority order, and a later
    item never takes a worker an earlier one could have used: if an item is
    left in the queue and a later one of the same dispatch is started, then
    the earlier one could not run, because its indexer was busy or [NextWait]
    asked it to wait.  Only ready items are started. *)
Theorem dispatch_respects_priority (s : scheduler) (pre mid post : list taskItem) (a b : taskItem) :
  heap_drain (s_taskQueue s) = pre ++ a :: mid ++ b :: post →
  let d1 := foldl dispatch_item (MkDispatch (s_core s) [] false false) pre in
  let d2 := dispatch_item d1 a in
  let d3 := foldl dispatch_item d2 mid in
  let d4 := dispatch_item d3 b in
  Less b a = false ∧
  (length (d_blocked d2) = S (length (d_blocked d1)) →
   c_workers (d_core d4) = S (c_workers (d_core d3)) →
   (∃ item n c, item_profile item = item_profile a ∧ wt_meta (ti_task item) = wt_meta (ti_task a) ∧
      quiet (d_core d1) c ∧ c_rateLimiter c = c_rateLimiter (d_core d1) ∧ ~ ready item n c) ∧
   (∃ item n c, item_profile item = item_profile b ∧ wt_meta (ti_task item) = wt_meta (ti_task b) ∧
      quiet (d_core d3) c ∧ c_rateLimiter c = c_rateLimiter (d_core d3) ∧ ready item n c)).
Proof.
  intros Hitems. cbn zeta. split.
  { pose proof (heap_drain_sorted (s_taskQueue s)) as Hs. rewrite Hitems in Hs.
    change (a :: mid ++ b :: post) with ([a] ++ mid ++ b :: post) in Hs. rewrite app_assoc in Hs.
    apply (StronglySorted_app_1_elem_of not_after _ _ a b Hs); set_solver. }
  set (d1 := foldl _ _ pre). intros Hblocked Hstarted.
  destruct (dispatch_item_outcome a d1) as (ia & da & Ha1 & Ha2 & Ha3 & Ha4 & Ha5 & Hoa & _).
  set (d2 := dispatch_item d1 a) in *.
  pose proof (dispatch_loop_workers mid d2) as Hmono. set (d3 := foldl _ d2 mid) in *.
  destruct (dispatch_item_outcome b d3) as (ib & db & Hb1 & Hb2 & Hb3 & Hb4 & _ & Hob & _).
  pose proof Ha3 as (_ & _ & Hwa & _). pose proof Hb3 as (_ & _ & Hwb & _).
  destruct Hob as [Hr Hlt _ _|_ Hw _|_ Hw]; [|lia..].
  split; [|eauto 10].
  destruct Hoa as [_ _ Hbl _|_ Hw [Hn|Hfull]|Hbl _]; [|eauto 10|lia|];
    rewrite Hbl, Ha5 in Hblocked; lia.
Qed.

(** ** Waking up for the tasks left in the queue *)

(** Two limiters that differ at most in which default states exist. *)
Definition rl_same (r1 r2 : RateLimiter) : Prop :=
  rl_minInterval r1 = rl_minInterval r2 ∧ ∀ id, state_of r1 id = state_of r2 id.

#[local] Instance rl_same_equiv : Equivalence rl_same.
Proof.
  split; [by intros r|by intros r1 r2 []|].
  intros r1 r2 r3 [E1 F1] [E2 F2]. split; [by rewrite E1|]. intros id. by rewrite F1.
Qed.

Lemma NextWait_same now r1 r2 id opts :
  rl_same r1 r2 → (NextWait now r1 (Some id) opts).2 = (NextWait now r2 (Some id) opts).2.
Proof.
  intros [E F]. unfold NextWait, computeWaitLocked.
  assert (resolveOptions r1 opts = resolveOptions r2 opts) as -> by (unfold resolveOptions; by rewrite E).
  rewrite E. generalize (rlo_MinInterval (resolveOptions r2 opts)). intros v.
  get_state r1 id. get_state r2 id. cbn [snd]. by rewrite F.
Qed.

Lemma wait_at_same n item c : rl_same (wait_at n item c).1 (c_rateLimiter c).
Proof.
  unfold wait_at, NextWait, computeWaitLocked.
  generalize (c_rateLimiter c) (ix_ID (wt_indexer (ti_task item))). intros r i.
  generalize (rlo_MinInterval (resolveOptions r (rateLimit_of (wt_meta (ti_task item))))). intros v.
  get_state r i. by split.
Qed.

Lemma skip_item_rl item err d :
  (∀ c, c_rateLimiter (err c).1 = c_rateLimiter c ∧ (c_tick c ≤ c_tick (err c).1)%nat) →
  c_rateLimiter (d_core (skip_item item err d)) = c_rateLimiter (d_core d).
Proof.
  intros Herr. unfold skip_item, read_clock. cbn zeta.
  destruct (Herr (tick (d_core d))) as [Hr _]. destruct (err (tick (d_core d))) as [c e].
  set (item' := MkItem _ _ _ _).
  destruct (handleTaskCompleteLocked_spec item' [] [] e c) as (E & _).
  destruct (handleTaskCompleteLocked item' [] [] e c) as [c' rec]. cbn [fst] in *.
  destruct (drop_rss_spec (ti_task item') c') as (E' & _). cbn [d_core]. by rewrite E', E.
Qed.

Lemma try_start_rl item d : rl_same (c_rateLimiter (d_core (try_start item d))) (c_rateLimiter (d_core d)).
Proof.
  unfold try_start. cbn zeta. destruct (c_inFlight (d_core d) !! _); [done|]. rewrite next_wait_eq.
  pose proof (wait_at_same (c_tick (d_core d)) item (d_core d)) as Hs.
  destruct (wait_at _ item (d_core d)) as [rl wait]. cbn [fst snd] in *.
  destruct (_ && _); [rewrite skip_item_rl by (simpl; auto); exact Hs|]. repeat case_match; exact Hs.
Qed.

Lemma dispatch_item_rl item d :
  rl_same (c_rateLimiter (d_core (dispatch_item d item))) (c_rateLimiter (d_core d)).
Proof.
  unfold dispatch_item. simpl. case_bool_decide; [by rewrite skip_item_rl by (simpl; auto)|].
  assert (c_rateLimiter (refresh_ctx item (tick (d_core d))).1 = c_rateLimiter (d_core d)) as Hr
    by (unfold refresh_ctx; simpl; by destruct (_ && _)).
  destruct (refresh_ctx _ _) as [c item']. cbn [fst] in Hr.
  destruct (_ && _); [rewrite skip_item_rl by (simpl; auto)|
    etrans; [apply try_start_rl|]]; simpl; by rewrite Hr.
Qed.

(** The readings never go back. *)
Lemma handleTaskCompleteLocked_tick item results coverage err c :
  (c_tick c ≤ c_tick (handleTaskCompleteLocked item results coverage err c).1)%nat.
Proof.
  unfold handleTaskCompleteLocked. cbn zeta.
  destruct (cb_OnComplete _), (historyRecorder && _); simpl; repeat case_match; simpl; lia.
Qed.

Lemma skip_item_tick item err d :
  (∀ c, c_rateLimiter (err c).1 = c_rateLimiter c ∧ (c_tick c ≤ c_tick (err c).1)%nat) →
  (c_tick (d_core d) ≤ c_tick (d_core (skip_item item err d)))%nat.
Proof.
  intros Herr. unfold skip_item, read_clock. cbn zeta.
  destruct (Herr (tick (d_core d))) as [_ Ht]. destruct (err (tick (d_core d))) as [c e].
  set (item' := MkItem _ _ _ _). pose proof (handleTaskCompleteLocked_tick item' [] [] e c) as Hh.
  destruct (handleTaskCompleteLocked item' [] [] e c) as [c' rec]. cbn [fst] in *.
  destruct (drop_rss_spec (ti_task item') c') as (_ & _ & _ & _ & _ & E & _).
  cbn [d_core]. rewrite E. simpl in Ht. lia.
Qed.

Lemma dispatch_item_tick item d : (c_tick (d_core d) ≤ c_tick (d_core (dispatch_item d item)))%nat.
Proof.
  unfold dispatch_item. simpl.
  case_bool_decide; [etrans; [|apply skip_item_tick; simpl; auto]; simpl; lia|].
  assert (c_tick (refresh_ctx item (tick (d_core d))).1 = S (S (c_tick (d_core d)))) as Ht
    by (unfold refresh_ctx; simpl; by destruct (_ && _)).
  destruct (refresh_ctx _ _) as [c item']. cbn [fst] in Ht.
  destruct (_ && _); [etrans; [|apply skip_item_tick; simpl; auto]; simpl; lia|].
  unfold try_start. cbn zeta. simpl.
  destruct (c_inFlight c !! _); [simpl; lia|]. rewrite next_wait_eq.
  destruct (_ && _); [etrans; [|apply skip_item_tick; simpl; auto]; simpl; lia|].
  repeat case_match; simpl; lia.
Qed.

Section waking.
Context (now : Z) (from : nat) (rl0 : RateLimiter).
Context (frozen : ∀ n, (from ≤ n)%nat → clock n = now).

(** [NextWait] asks the item to wait. *)
Definition must_wait (item : taskItem) : Prop :=
  0 < (NextWait now rl0 (Some (ix_ID (wt_indexer (ti_task item))))
         (rateLimit_of (wt_meta (ti_task item)))).2.

Lemma wait_at_frozen n item c :
  (from ≤ n)%nat → rl_same (c_rateLimiter c) rl0 → 0 < (wait_at n item c).2 ↔ must_wait item.
Proof.
  intros Hn Hs. unfold wait_at, must_wait. rewrite frozen by done. by rewrite (NextWait_same _ _ _ _ _ Hs).
Qed.

(** Either some worker is busy, or every blocked item waits for its limit. *)
Definition waking (d : dispatch_state) : Prop :=
  (from ≤ c_tick (d_core d))%nat ∧ rl_same (c_rateLimiter (d_core d)) rl0 ∧
  ((0 < c_workers (d_core d))%nat ∨ Forall must_wait (d_blocked d)).

Lemma not_ready_must_wait n item c releasing :
  (from ≤ n)%nat → rl_same (c_rateLimiter c) rl0 → pool_ok releasing c → c_workers c = 0%nat →
  ~ ready item n c → must_wait item.
Proof.
  intros Hn Hs [Hw _ _] Hzero Hr. apply (wait_at_frozen n item c Hn Hs).
  destruct (Z.lt_ge_cases 0 (wait_at n item c).2) as [|Hle]; [done|]. exfalso. apply Hr.
  split; [|done]. destruct (c_inFlight c !! _) eqn:E; [|done].
  assert (size (c_inFlight c) ≠ 0%nat) by (intros Ez%map_size_empty_inv; by rewrite Ez in E). lia.
Qed.

Lemma waking_item releasing item d :
  (0 < maxWorkers)%nat → pool_ok releasing (d_core d) → waking d → waking (dispatch_item d item).
Proof.
  intros Hm Hp (Ht & Hs & Hb). pose proof (dispatch_item_tick item d) as Htick.
  split_and!; [lia|by etrans; [apply dispatch_item_rl|]|].
  destruct (dispatch_item_outcome item d) as (it & d1 & Hprof & Hmeta & Hq & Hrl & Hbl & Ho & Ht1).
  pose proof Hq as (_ & _ & Hw & _).
  destruct Ho as [_ _ _ Hw'|Hbl' Hw' Hwhy|Hbl' Hw']; [left; lia| |].
  - destruct (decide (c_workers (d_core d) = 0%nat)) as [E|]; [right|left; lia].
    destruct Hb as [|Hb]; [lia|]. rewrite Hbl', Hbl. apply Forall_app. split; [done|].
    constructor; [|constructor]. destruct Hwhy as [Hr|]; [|lia].
    eapply not_ready_must_wait; [| |by eapply quiet_pool|by rewrite Hw|exact Hr]; [lia|by rewrite Hrl].
  - rewrite Hbl', Hbl, Hw', Hw. done.
Qed.

Lemma waking_loop subs seq others releasing items d :
  (0 < maxWorkers)%nat → dispatching subs seq others releasing items d → waking d →
  waking (foldl dispatch_item d items).
Proof.
  intros Hm. revert d. induction items as [|item items IH]; intros d Hd Hw; [done|]. simpl.
  apply IH; [by apply dispatching_item|]. eapply waking_item; [done|apply Hd|done].
Qed.

Lemma min_wait_positive q w c :
  (from ≤ c_tick c)%nat → rl_same (c_rateLimiter c) rl0 → Forall must_wait q →
  0 ≤ w → q ≠ [] ∨ 0 < w → 0 < (min_wait q w c).2.
Proof.
  revert w c. induction q as [|item q IH]; intros w c Ht Hs Hq Hw Hor; [by destruct Hor|].
  apply Forall_cons in Hq as [Hi Hq]. cbn [min_wait]. rewrite next_wait_eq.
  pose proof (proj2 (wait_at_frozen _ item c Ht Hs) Hi) as Hpos.
  pose proof (wait_at_same (c_tick c) item c) as Hsame.
  destruct (wait_at (c_tick c) item c) as [rl wait]. cbn [fst snd] in *.
  apply IH; [simpl; lia|by etrans; [exact Hsame|]|done|..];
    destruct (Z.ltb_spec 0 wait), (Z.eqb_spec w 0), (Z.ltb_spec wait w); simpl; try right; lia.
Qed.
End waking.

(** C31. A dispatch during which the clock reads the same
    never strands the tasks it leaves in the queue: either a worker token is
    taken, whose release notifies the loop, or the retry timer is armed. *)
Theorem dispatch_arms_wakeup (rl : RateLimiter) (y : system) (now : Z) :
  (0 < maxWorkers)%nat → reachable rl y →
  (∀ n, (c_tick (s_core (y_sched y)) ≤ n)%nat → clock n = now) →
  let s := dispatchTasks (y_sched y) in
  s_taskQueue s ≠ [] → (0 < c_workers (s_core s))%nat ∨ is_Some (s_retryTimer s).
Proof.
  intros Hm Hy Hfrozen. apply reachable_ok in Hy as [Hb Hp _ _]. cbn zeta.
  set (s := y_sched y) in *. unfold dispatchTasks. case_bool_decide as Hne; [done|]. cbn zeta.
  assert (dispatching (y_submits y) (s_jobSeq s) (task_profile <$> concat (s_submitCh s))
    (y_releasing y) (heap_drain (s_taskQueue s)) (MkDispatch (s_core s) [] false false)) as Hd.
  { split; [|done]. eapply balanced_perm; [|exact Hb]. unfold live. cbn [d_core d_blocked].
    rewrite heap_drain_perm. solve_Permutation. }
  assert (waking now (c_tick (s_core s)) (c_rateLimiter (s_core s))
    (MkDispatch (s_core s) [] false false)) as Hw by (split_and!; [done..|by right]).
  pose proof (waking_loop now _ _ Hfrozen _ _ _ _ _ _ Hm Hd Hw) as (Ht & Hs & Hor).
  destruct (foldl dispatch_item _ _) as [c blocked tc hr]. cbn [d_core d_blocked] in *.
  unfold scheduleRetryTimerLocked. cbn [s_taskQueue s_core with_queue s_retryTimer].
  set (q := foldl _ [] blocked). assert (q ≡ₚ blocked) as Hq.
  { unfold q. by rewrite heap_pushes_perm, app_nil_r. }
  pose proof (quiet_set_timer q c (s_retryTimer s)) as Hquiet.
  destruct (set_timer q c (s_retryTimer s)) as [c' timer] eqn:Hset. cbn [fst] in Hquiet.
  simpl. intros Hqne. destruct Hor as [Hpos|Hall].
  { left. destruct Hquiet as (_ & _ & E & _). by rewrite E. }
  right. rewrite <- Hq in Hall. unfold set_timer in Hset. destruct q as [|x q']; [done|].
  pose proof (min_wait_positive now _ _ Hfrozen (x :: q') 0 c Ht Hs Hall) as Hmin.
  destruct (min_wait (x :: q') 0 c) as [c1 w]. cbn [snd] in Hmin.
  destruct (Z.ltb_spec 0 w); [|lia || (exfalso; assert (0 < w) by (apply Hmin; [lia|by left]); lia)].
  injection Hset as _ <-. by eexists.
Qed.
End scheduler.

(** ** A lost wake-up *)

(** No worker runs, nothing is submitted, no timer is armed and no message is
    waiting, yet a task is queued. *)
Definition stranded {Result : Type} (y : system (Result := Result)) : Prop :=
  s_taskQueue (y_sched y) ≠ [] ∧ s_submitCh (y_sched y) = [] ∧ s_completeCh (y_sched y) = 0%nat ∧
  s_retryTimer (y_sched y) = None ∧ s_coalesce (y_sched y) = false ∧
  c_inFlight (s_core (y_sched y)) = ∅ ∧ y_submits y = [] ∧ y_exec y = ∅ ∧ y_releasing y = 0%nat.

(** Nothing but a new submission gets the scheduler out of such a state. *)
Lemma stranded_step {Result : Type} `{!Env, !TaskHeap} (n : nat) (h : bool)
    (y y' : system (Result := Result)) :
  step n h y y' → y_submits y' = [] → stranded y → stranded y'.
Proof.
  intros Hstep Hsub (Hq & Hch & Hco & Ht & Hcoal & Hi & Hs & He & Hr).
  assert (∀ pre (sb : submitter) post, y_submits y = pre ++ sb :: post → False) as Hno.
  { intros pre sb post E. rewrite Hs in E. by destruct pre. }
  destruct Hstep as [y req ?|y req s sb ? Hrun|y pre sb post idx todo s sb' E ? Hrun|
    y pre sb post E ? ?|y pre sb post s sb' E ? ? ? Hrun|y pre sb post E ? ?|y pre sb post E ? ?|
    y batch rest E|y m E|y E|y deadline E ?|y id item E ?|y id E|y id item results cov err E ?|
    y m E|y op|y]; try done; try by (exfalso; eapply Hno; exact E).
  - unfold submit_nothing. destruct (cb_OnJobDone _); by split_and!.
  - by rewrite Hch in E.
  - by rewrite Hco in E.
  - by rewrite Hcoal in E.
  - by rewrite Ht in E.
  - by rewrite Hi in E.
  - by rewrite He in E.
  - by rewrite Hi in E.
  - by rewrite Hr in E.
Qed.

(** One task of one job is submitted, queued and dispatched; the indexer's
    last request completed at 0, so that it is free from 60 s on. *)
Section race.
Context `{!Env}.

Definition race_limiter : RateLimiter := RecordRequestComplete (NewRateLimiter 0) 1 0.
Definition race_request : SubmitRequest :=
  MkRequest [Some (MkIndexer 1 "tracker")] ∅ None (MkCallbacks true true) (CtxCaller 0).

Definition race0 : system (Result := unit) := MkSystem (newSearchScheduler race_limiter) [] ∅ 0.
(** The call of [Submit] in progress. *)
Definition race_call (y : system (Result := unit)) : submitter :=
  match y_submits y with sb :: _ => sb | [] => MkSubmitter 0 race_request [] [] false end.
Definition race_submit (y : system (Result := unit)) : system :=
  let '(s, sb) := submit_begin race_request (y_sched y) in MkSystem s [sb] ∅ 0.
Definition race_indexer (y : system (Result := unit)) : system :=
  match y_submits y with
  | [sb] => let '(s, sb') := submit_indexer (Some (MkIndexer 1 "tracker")) [] (y_sched y) sb in
            MkSystem s [sb'] ∅ 0
  | _ => y
  end.
Definition race_register (y : system (Result := unit)) : system :=
  match y_submits y with
  | [sb] => let '(s, sb') := submit_register (y_sched y) sb in MkSystem s [sb'] ∅ 0
  | _ => y
  end.
Definition race_send (y : system (Result := unit)) : system :=
  match y_submits y with [sb] => MkSystem (submit_send (y_sched y) sb) [] ∅ 0 | _ => y end.
Definition race_enqueue (y : system (Result := unit)) : system :=
  match s_submitCh (y_sched y) with
  | batch :: rest =>
    with_sched (enqueueTasks batch (set_loop rest (s_completeCh (y_sched y))
      (s_retryTimer (y_sched y)) true (y_sched y))) y
  | [] => y
  end.
Definition race_queued : system (Result := unit) :=
  race_enqueue (race_send (race_register (race_indexer (race_submit race0)))).
Definition race_dispatch (y : system (Result := unit)) : system :=
  with_sched (dispatchTasks defaultMaxWorkers false (set_loop (s_submitCh (y_sched y))
    (s_completeCh (y_sched y)) (s_retryTimer (y_sched y)) false (y_sched y))) y.

Definition race_end : system (Result := unit) :=
  race_dispatch race_queued.

Lemma race_queued_reachable : reachable defaultMaxWorkers false race_limiter race_queued.
Proof.
  assert (reachable defaultMaxWorkers false race_limiter race0) as R0 by constructor.
  assert (reachable defaultMaxWorkers false race_limiter (race_submit race0)) as R1.
  { eapply reachable_step; [exact R0|]. by apply (step_submit_begin _ _ race0 race_request). }
  set (y1 := race_submit race0) in *.
  assert (reachable defaultMaxWorkers false race_limiter (race_indexer y1)) as R2.
  { eapply reachable_step; [exact R1|].
    by apply (step_submit_indexer _ _ y1 [] (race_call y1) [] (Some (MkIndexer 1 "tracker")) []). }
  set (y2 := race_indexer y1) in *.
  assert (reachable defaultMaxWorkers false race_limiter (race_register y2)) as R3.
  { eapply reachable_step; [exact R2|]. by apply (step_submit_register _ _ y2 [] (race_call y2) []). }
  set (y3 := race_register y2) in *.
  assert (reachable defaultMaxWorkers false race_limiter (race_send y3)) as R4.
  { eapply reachable_step; [exact R3|].
    apply (step_submit_send _ _ y3 [] (race_call y3) []); [done|done|vm_compute; lia]. }
  set (y4 := race_send y3) in *.
  eapply reachable_step; [exact R4|].
  by apply (step_loop_submit _ _ y4 (sb_tasks (race_call y3)) []).
Qed.

Lemma race_reachable : reachable defaultMaxWorkers false race_limiter race_end.
Proof.
  eapply reachable_step; [apply race_queued_reachable|]. unfold race_end, race_dispatch.
  by apply step_loop_coalesce.
Qed.
End race.

(** The dispatch reads the clock one nanosecond too early, the retry timer one
    nanosecond later. *)
Definition race_env : Env := {|
  clock n := if (n <=? 3)%nat then 59 * Second
             else if (n =? 4)%nat then 60 * Second - 1 else 60 * Second;
  ctx_Err _ _ := None;
|}.

(** A wake-up can be lost.  [dispatchTasks] leaves a task in the
    queue because [NextWait] is still positive; when the limit expires before
    [scheduleRetryTimerLocked] asks again, the minimum is zero and no timer is
    armed.  The state reached is stranded with the queued task ready to run,
    and it stays so, whatever happens, until somebody submits another job. *)
Theorem lost_wakeup :
  let _ := race_env in
  ∃ y : system (Result := unit), reachable defaultMaxWorkers false race_limiter y ∧ stranded y ∧
    (∀ item n, item ∈ s_taskQueue (y_sched y) → (c_tick (s_core (y_sched y)) ≤ n)%nat →
       ready item n (s_core (y_sched y))) ∧
    (∀ y', rtc (λ y1 y2, step defaultMaxWorkers false y1 y2 ∧ y_submits y2 = []) y y' → stranded y').
Proof.
  intros env. assert (stranded race_end) as Hs by (split_and!; by vm_compute).
  exists race_end. split_and!; [apply race_reachable|exact Hs|..].
  - intros item n Hitem Hn.
    assert (s_taskQueue (y_sched race_end) = [MkItem (MkTask 1 1 (MkIndexer 1 "tracker") ∅ None
      (CtxCaller 0) false (MkCallbacks true true) false) 3 (59 * Second) 0]) as E by by vm_compute.
    rewrite E in Hitem. apply list_elem_of_singleton in Hitem as ->.
    assert (clock n = 60 * Second) as Hc.
    { unfold clock. simpl. vm_compute in Hn.
      destruct (Nat.leb_spec n 3); [lia|]. destruct (Nat.eqb_spec n 4); [lia|done]. }
    split; [by vm_compute|]. unfold wait_at. rewrite Hc. by vm_compute.
  - intros y' Hrtc. induction Hrtc as [|y1 y2 y3 [Hstep Hsub] _ IH]; [done|].
    apply IH. by eapply stranded_step.
Qed.

(** ** Concrete states *)

Definition still_env : Env := {| clock _ := 59 * Second; ctx_Err _ _ := None |}.

Lemma job_done_exactly_once_witness :
  let _ := still_env in
  dones (events_of 1 (c_log (s_core (y_sched race_queued)))) = 0%nat ∧
  acceptances (events_of 1 (c_log (s_core (y_sched race_queued)))) = [(1%nat, MkCallbacks true true)].
Proof.
  intros env.
  destruct (job_done_exactly_once _ _ race_limiter race_queued 1 1 (MkCallbacks true true)
    race_queued_reachable) as (_ & Ha & _ & Hd); [lia|vm_compute; left|].
  split; [|exact Ha]. rewrite Hd. by vm_compute.
Defined.

Lemma worker_pool_bounded_witness :
  let _ := still_env in (c_workers (s_core (y_sched race_end)) ≤ 10)%nat.
Proof.
  intros env. apply (worker_pool_bounded _ _ race_limiter race_end race_reachable).
Defined.

Lemma rss_deduplicated_witness :
  let _ := still_env in 1 ∉ c_pendingRSS (s_core (y_sched race_end)).
Proof.
  intros env Hin.
  apply (rss_deduplicated _ _ race_limiter race_end race_reachable) in Hin as (p & Hp & Hr & _).
  vm_compute in Hp. inversion Hp as [|? ? ? Hp']; subst; [done|]. by inversion Hp'.
Defined.

Definition sample_task (id : Z) : workerTask :=
  MkTask id id (MkIndexer id "tracker") ∅ None (CtxCaller 0) false (MkCallbacks true true) false.
Definition slow_item : taskItem := MkItem (sample_task 1) 0 0 0.
Definition quick_item : taskItem := MkItem (sample_task 2) 3 0 0.

Lemma dispatch_respects_priority_witness :
  let _ := still_env in
  let s : scheduler (Result := unit) := with_queue [quick_item; slow_item]
    (MkCore race_limiter ∅ 0 ∅ ∅ 0 []) (newSearchScheduler race_limiter) in
  ∃ item n c, item_profile item = item_profile slow_item ∧ quiet (s_core s) c ∧ ~ ready item n c.
Proof.
  intros env s.
  destruct (dispatch_respects_priority 10 false s [] [] [] slow_item quick_item) as [_ H].
  - by vm_compute.
  - destruct H as [(item & n & c & Hp & _ & Hq & _ & Hr) _]; [by vm_compute|by vm_compute|].
    by exists item, n, c.
Defined.

Lemma dispatch_arms_wakeup_witness :
  let _ := still_env in
  is_Some (s_retryTimer (dispatchTasks defaultMaxWorkers false (y_sched race_queued))).
Proof.
  intros env.
  destruct (dispatch_arms_wakeup defaultMaxWorkers false race_limiter race_queued (59 * Second))
    as [Hw|Ht]; [vm_compute; lia|apply race_queued_reachable|done|by vm_compute| |exact Ht].
  vm_compute in Hw. lia.
Defined.
