(* ===== verification/FileAlign.v ===== *)
(** * [internal/services/crossseed/align.go]: pairing the files of two torrents

    When a torrent is cross-seeded, its files are paired with those of a
    torrent already on disk, by exact path, then base name, then a normalised
    key, then size alone.  This file models the pairing, the rename plan made
    from it, the file-key normalisation, the comparison of sizes and the
    change of root folder. *)

From Stdlib Require Import ZArith Lia Ascii.
From stdpp Require Import base numbers list strings gmap sorting.
From S2P Require Import Prelude.
From S2P Require Import GoStrings.
From S2P Require Import GoPath.
From S2P Require Import Normalizer.
From S2P Require Import UnicodeText.

Open Scope qui_scope.

(** The fields of the files of [qbt.TorrentFiles] that are used. *)
Record TorrentFile := MkFile { tf_Name : string; tf_Size : Z }.

#[export] Instance TorrentFile_eq_dec : EqDecision TorrentFile.
Proof. solve_decision. Defined.

Record fileRenameInstruction := MkRename { oldPath : string; newPath : string }.
Record fileMatchInstruction := MkMatch {
  sourceIndex : nat; sourcePath : string; candidatePath : string }.

Definition DefaultIgnoredExtensions : list string :=
  [".nfo"; ".srr"; ".srt"; ".sub"; ".idx"; ".ass"; ".ssa"; ".sup"; ".vtt"; ".txt"].

Definition DefaultIgnoredPathKeywords : list string :=
  ["sample"; "!sample"; "proof"; "extras"; "bonus"; "trailer"; "featurette"].

Definition fileBaseName (path : string) : string :=
  match CutLast path "/"%char with
  | Some (_, base) => if bool_decide (base = "") then path else base
  | None => path
  end.

Section keys.
Context `{!UnicodeCase, !UnicodeTables}.

(** [base[dot+1:]] and [base[:dot]] for the last dot, when something follows. *)
Definition split_ext (base : string) : string * string :=
  match CutLast base "."%char with
  | Some (stem, ext) => if bool_decide (ext = "") then (base, "") else (stem, ToLower ext)
  | None => (base, "")
  end.

Definition sidecar_exts : list string := ["nfo"; "srt"; "sub"; "idx"; "sfv"; "txt"].
Definition video_exts : list string := ["mkv"; "mp4"; "avi"; "ts"; "m2ts"; "mov"; "mpg"; "mpeg"].

Definition normalizeFileKey (path : string) : string :=
  let base := fileBaseName path in
  if bool_decide (base = "") then "" else
  let '(base, ext) := split_ext base in
  let base :=
    if bool_decide (ext ∈ sidecar_exts) then
      let '(stem, videoExt) := split_ext base in
      if bool_decide (videoExt ∈ video_exts) then stem else base
    else base in
  let base := ToLower (normalizeUnicodeInner base) in
  let base := ReplaceAll base "dd+" "ddp" in
  let b := of_bytes (concat (encode_rune <$>
             filter (λ r, is_letter_or_digit r = true) (runes (to_bytes base)))) in
  if bool_decide (ext = "") then b else b +++ "." +++ ext.

Definition isIgnoredMaterializedSizeOnlyFile (name : string) : bool :=
  let lower := ToLower name in
  let ext := ToLower (Ext (fileBaseName name)) in
  bool_decide (ext ∈ DefaultIgnoredExtensions) ||
  existsb (λ keyword, Contains lower keyword) DefaultIgnoredPathKeywords.

Definition allowMaterializedSizeOnlyMatch (sourcePath candidatePath : string) : bool :=
  negb (isIgnoredMaterializedSizeOnlyFile sourcePath) &&
  negb (isIgnoredMaterializedSizeOnlyFile candidatePath).

(** [shouldIgnoreFile] of matching.go; the normaliser lower-cases and trims. *)
Definition shouldIgnoreFile (filename : string) : bool :=
  let lower := normalizeLowerTrim filename in
  existsb (λ ext, HasSuffix lower ext) DefaultIgnoredExtensions ||
  existsb (λ keyword, Contains lower keyword) DefaultIgnoredPathKeywords.

(** ** Pairing *)

(** A candidate; [ce_id] stands for the pointer, through which [used] is
    shared between the size buckets. *)
Record candidateEntry := MkEntry {
  ce_id : nat; ce_path : string; ce_size : Z; ce_base : string; ce_normalized : string;
  ce_used : bool }.

Definition entry_of (i : nat) (cf : TorrentFile) : candidateEntry :=
  MkEntry i (tf_Name cf) (tf_Size cf) (ToLower (fileBaseName (tf_Name cf)))
    (normalizeFileKey (tf_Name cf)) false.

(** The one element of a singleton list. *)
Definition sole {A} (l : list A) : option A := match l with [x] => Some x | _ => None end.

(** The choice among the unused candidates of the right size. *)
Definition choose_match (allow : string → string → bool) (sf : TorrentFile)
    (available : list candidateEntry) : option candidateEntry :=
  match List.find (λ c, bool_decide (ce_path c = tf_Name sf)) available with
  | Some c => Some c
  | None =>
    let sourceBase := ToLower (fileBaseName (tf_Name sf)) in
    match sole (filter (λ c, ce_base c = sourceBase) available) with
    | Some c => Some c
    | None =>
      match sole (filter (λ c, ce_normalized c = normalizeFileKey (tf_Name sf)) available) with
      | Some c => Some c
      | None =>
        match sole available with
        | Some c => if allow (tf_Name sf) (ce_path c) then Some c else None
        | None => None
        end
      end
    end
  end.

Definition mark_used (id : nat) (cands : list candidateEntry) : list candidateEntry :=
  (λ c, if bool_decide (ce_id c = id)
        then MkEntry (ce_id c) (ce_path c) (ce_size c) (ce_base c) (ce_normalized c) true
        else c) <$> cands.

(** The unused part of the bucket of one size, in the order of the files. *)
Definition available_for (size : Z) (cands : list candidateEntry) : list candidateEntry :=
  filter (λ c, ce_size c = size ∧ ce_used c = false) cands.

(** The loop over the source files. *)
Fixpoint match_loop (allow : string → string → bool) (i : nat) (sources : list TorrentFile)
    (cands : list candidateEntry) : list fileMatchInstruction * list string :=
  match sources with
  | [] => ([], [])
  | sf :: sources =>
    match choose_match allow sf (available_for (tf_Size sf) cands) with
    | None =>
      let '(matches, unmatched) := match_loop allow (S i) sources cands in
      (matches, tf_Name sf :: unmatched)
    | Some c =>
      let '(matches, unmatched) := match_loop allow (S i) sources (mark_used (ce_id c) cands) in
      (MkMatch i (tf_Name sf) (ce_path c) :: matches, unmatched)
    end
  end.

Definition matchSourceFilesToCandidatesWithPolicy (sourceFiles candidateFiles : list TorrentFile)
    (allowSoleCandidateMatch : string → string → bool)
    : list fileMatchInstruction * list string :=
  match_loop allowSoleCandidateMatch 0 sourceFiles (imap entry_of candidateFiles).

Definition matchSourceFilesToCandidates (sourceFiles candidateFiles : list TorrentFile) :=
  matchSourceFilesToCandidatesWithPolicy sourceFiles candidateFiles (λ _ _, true).

Definition matchMaterializedSourceFilesToCandidates
    (sourceFiles candidateFiles : list TorrentFile) :=
  matchSourceFilesToCandidatesWithPolicy sourceFiles candidateFiles allowMaterializedSizeOnlyMatch.

(** The order of the rename plan. *)
Definition rename_le (a b : fileRenameInstruction) : Prop :=
  if decide (oldPath a = oldPath b) then String.le (newPath a) (newPath b)
  else String.le (oldPath a) (oldPath b).

#[export] Instance rename_le_dec : RelDecision rename_le.
Proof. intros a b. unfold rename_le. case_decide; apply _. Defined.

Definition buildFileRenamePlan (sourceFiles candidateFiles : list TorrentFile)
    : list fileRenameInstruction * list string :=
  let '(matches, unmatched) := matchSourceFilesToCandidates sourceFiles candidateFiles in
  let plan := omap (λ m, if bool_decide (sourcePath m = candidatePath m) then None
                         else Some (MkRename (sourcePath m) (candidatePath m))) matches in
  (merge_sort rename_le plan, unmatched).

Definition planRequiresRenames (sourceFiles candidateFiles : list TorrentFile) : bool :=
  existsb (λ instr, negb (bool_decide (oldPath instr = "")) && negb (bool_decide (newPath instr = ""))
                    && negb (bool_decide (oldPath instr = newPath instr)))
    (buildFileRenamePlan sourceFiles candidateFiles).1.

(** ** Multisets of keys and sizes *)

Definition key_size (f : TorrentFile) : string * Z := (normalizeFileKey (tf_Name f), tf_Size f).

Definition count_keys (files : list TorrentFile) : gmap (string * Z) nat :=
  foldl (λ m f, <[key_size f := S (default 0%nat (m !! key_size f))]> m) ∅ files.

(** One source file: consumes a candidate with its key and size, if any. *)
Definition take_key (st : gmap (string * Z) nat * nat) (sf : TorrentFile)
    : gmap (string * Z) nat * nat :=
  let '(m, matched) := st in
  match default 0%nat (m !! key_size sf) with
  | O => (m, matched)
  | S n => (<[key_size sf := n]> m, S matched)
  end.

Definition hasExtraSourceFiles (sourceFiles candidateFiles : list TorrentFile) : bool :=
  let '(_, matched) := foldl take_key (count_keys candidateFiles, 0%nat) sourceFiles in
  (matched <? length sourceFiles)%nat.

Definition filesNeedRenaming (sourceFiles candidateFiles : list TorrentFile) : bool :=
  if bool_decide (sourceFiles = []) || bool_decide (candidateFiles = []) then false else
  if existsb (λ sf, negb (bool_decide (key_size sf ∈ key_size <$> candidateFiles))) sourceFiles
  then true else
  existsb (λ sf, negb (bool_decide (fileBaseName (tf_Name sf) ∈
    (λ cf, fileBaseName (tf_Name cf)) <$> filter (λ cf, tf_Size cf = tf_Size sf) candidateFiles)))
    sourceFiles.

(** ** Size mismatches *)

Record contentFileSizeMismatch := MkMismatch {
  cm_SourceFile : string; cm_SourceSize : Z; cm_CandidateFile : string; cm_CandidateSize : Z }.

(** [candidateInfo]: the files of one key not yet matched, and all of them. *)
Record candidateInfo := MkInfo { ci_files : list TorrentFile; ci_allFiles : list TorrentFile }.

Definition add_candidate (m : gmap string candidateInfo) (cf : TorrentFile)
    : gmap string candidateInfo :=
  let key := normalizeFileKey (tf_Name cf) in
  if bool_decide (key = "") then m else
  match m !! key with
  | Some info => <[key := MkInfo (ci_files info ++ [cf]) (ci_allFiles info ++ [cf])]> m
  | None => <[key := MkInfo [cf] [cf]]> m
  end.

(** [slices.Delete] of the first file of the given size. *)
Fixpoint remove_size (size : Z) (files : list TorrentFile) : option (list TorrentFile) :=
  match files with
  | [] => None
  | f :: files =>
    if bool_decide (tf_Size f = size) then Some files else cons f <$> remove_size size files
  end.

Record mismatch_state := MkMismatchState {
  ms_info : gmap string candidateInfo; ms_mismatches : list contentFileSizeMismatch;
  ms_largestMatched : Z; ms_largestSourceWithKey : Z }.

(** One iteration over the filtered source files. *)
Definition mismatch_step (st : mismatch_state) (sf : TorrentFile) : mismatch_state :=
  let sourceKey := normalizeFileKey (tf_Name sf) in
  if bool_decide (sourceKey = "") then st else
  match ms_info st !! sourceKey with
  | None => st
  | Some info =>
    let largestWithKey := Z.max (ms_largestSourceWithKey st) (tf_Size sf) in
    match remove_size (tf_Size sf) (ci_files info) with
    | Some files =>
      MkMismatchState (<[sourceKey := MkInfo files (ci_allFiles info)]> (ms_info st))
        (ms_mismatches st) (Z.max (ms_largestMatched st) (tf_Size sf)) largestWithKey
    | None =>
      match head (ci_files info ++ ci_allFiles info) with
      | Some cf =>
        MkMismatchState (ms_info st)
          (ms_mismatches st ++ [MkMismatch (tf_Name sf) (tf_Size sf) (tf_Name cf) (tf_Size cf)])
          (ms_largestMatched st) largestWithKey
      | None => MkMismatchState (ms_info st) (ms_mismatches st) (ms_largestMatched st) largestWithKey
      end
    end
  end.

(** The first file of the largest positive size, and that size. *)
Definition largest_file (files : list TorrentFile) : Z * string :=
  foldl (λ acc f, if (acc.1 <? tf_Size f)%Z then (tf_Size f, tf_Name f) else acc) (0%Z, "") files.

Definition minSubstantialSize : Z := 2 ^ 20.

Definition hasContentFileSizeMismatch (sourceFiles candidateFiles : list TorrentFile)
    : bool * list contentFileSizeMismatch :=
  let filteredSource := filter (λ f, shouldIgnoreFile (tf_Name f) = false) sourceFiles in
  let filteredCandidate := filter (λ f, shouldIgnoreFile (tf_Name f) = false) candidateFiles in
  if bool_decide (filteredSource = []) then (false, []) else
  let st := foldl mismatch_step
              (MkMismatchState (foldl add_candidate ∅ filteredCandidate) [] 0 0) filteredSource in
  if negb (bool_decide (ms_mismatches st = [])) then (true, ms_mismatches st) else
  if (ms_largestSourceWithKey st <=? ms_largestMatched st)%Z &&
     (0 <? ms_largestSourceWithKey st)%Z && (minSubstantialSize <=? ms_largestMatched st)%Z
  then (false, []) else
  let '(largestSource, largestSourceName) := largest_file filteredSource in
  let '(largestCandidate, largestCandidateName) := largest_file filteredCandidate in
  if (0 <? largestSource)%Z && (0 <? largestCandidate)%Z &&
     negb (largestSource =? largestCandidate)%Z
  then (true, [MkMismatch largestSourceName largestSource largestCandidateName largestCandidate])
  else (false, []).

Definition contentFileSizeMismatchSourceFiles (mismatches : list contentFileSizeMismatch)
    : list string := cm_SourceFile <$> mismatches.

(** ** Roots *)

(** The loop of [detectCommonRoot]; [root] is empty before the first file. *)
Fixpoint common_root (root : string) (files : list TorrentFile) : string :=
  match files with
  | [] => root
  | f :: files =>
    match Cut (tf_Name f) "/"%char with
    | None => ""
    | Some (first, _) =>
      if bool_decide (first = "") then ""
      else if bool_decide (root = "") then common_root first files
      else if bool_decide (first = root) then common_root root files
      else ""
    end
  end.

Definition detectCommonRoot (files : list TorrentFile) : string := common_root "" files.

Definition adjustPathForRootRename (path oldRoot newRoot : string) : string :=
  if bool_decide (oldRoot = "") || bool_decide (newRoot = "") || bool_decide (path = "") then path
  else if bool_decide (path = oldRoot) then newRoot
  else match CutPrefix path (oldRoot +++ "/") with
       | Some suffix => newRoot +++ "/" +++ suffix
       | None => path
       end.

Definition strip_exts : list string :=
  [".mkv"; ".mp4"; ".avi"; ".mov"; ".wmv"; ".flv"; ".webm"; ".m4v"; ".ts"; ".m2ts"].

Definition strip_video_ext (name : string) : string :=
  match List.find (λ ext, HasSuffix (ToLower name) ext) strip_exts with
  | Some ext => of_bytes (take (length (to_bytes name) - length (to_bytes ext)) (to_bytes name))
  | None => name
  end.

Definition namesMatchIgnoringExtension (name1 name2 : string) : bool :=
  bool_decide (strip_video_ext name1 = strip_video_ext name2).

Definition autoGeneratedSubfolderName (singleFileName : string) : string :=
  let base := fileBaseName singleFileName in TrimSuffix base (Ext base).

Definition needsRenameAlignment (torrentName matchedTorrentName : string)
    (sourceFiles candidateFiles : list TorrentFile) : bool :=
  let sourceRoot := detectCommonRoot sourceFiles in
  let candidateRoot := detectCommonRoot candidateFiles in
  if bool_decide (sourceRoot = "") && negb (bool_decide (candidateRoot = "")) then
    match sourceFiles with
    | [f] => if negb (bool_decide (autoGeneratedSubfolderName (tf_Name f) = candidateRoot)) then true
             else filesNeedRenaming sourceFiles candidateFiles
    | _ => filesNeedRenaming sourceFiles candidateFiles
    end
  else if negb (bool_decide (sourceRoot = "")) && bool_decide (candidateRoot = "") then
    filesNeedRenaming sourceFiles candidateFiles
  else if negb (bool_decide (TrimSpace torrentName = TrimSpace matchedTorrentName)) then true
  else if negb (bool_decide (sourceRoot = "")) && negb (bool_decide (candidateRoot = "")) &&
          negb (bool_decide (sourceRoot = candidateRoot)) then true
  else planRequiresRenames sourceFiles candidateFiles.
End keys.

(** ** Lemmas on the pairing *)

Lemma sole_elem {A} (l : list A) x : sole l = Some x → x ∈ l.
Proof. destruct l as [|y [|]]; [done| |done]. intros [= ->]. by left. Qed.

Lemma find_elem {A} (f : A → bool) l x : List.find f l = Some x → x ∈ l ∧ f x = true.
Proof. intros Hf. apply List.find_some in Hf as [Hin ?]. by rewrite list_elem_of_In. Qed.

Section pairing.
Context `{!UnicodeCase, !UnicodeTables}.

Lemma choose_match_elem allow sf l c : choose_match allow sf l = Some c → c ∈ l.
Proof.
  unfold choose_match. destruct (List.find _ _) eqn:Hf; [intros [= <-]; by apply find_elem in Hf as []|].
  destruct (sole (filter (λ c, ce_base c = _) l)) eqn:Hb.
  { intros [= <-]. apply sole_elem in Hb. by apply list_elem_of_filter in Hb as []. }
  destruct (sole (filter (λ c, ce_normalized c = _) l)) eqn:Hn.
  { intros [= <-]. apply sole_elem in Hn. by apply list_elem_of_filter in Hn as []. }
  destruct (sole l) eqn:Hs; [|done]. destruct (allow _ _); [|done]. intros [= <-]. by apply sole_elem.
Qed.

Lemma elem_of_mark_used id c cands :
  c ∈ mark_used id cands → ce_used c = false → c ∈ cands ∧ ce_id c ≠ id.
Proof.
  unfold mark_used. intros (c' & -> & Hin)%list_elem_of_fmap.
  case_bool_decide; [done|]. done.
Qed.

Lemma mark_used_ids id cands : ce_id <$> mark_used id cands = ce_id <$> cands.
Proof.
  unfold mark_used. rewrite <- list_fmap_compose. apply list_fmap_ext. intros i c _. simpl.
  by case_bool_decide.
Qed.

(** A match pairs a source file with a candidate of the same size. *)
Definition paired (i : nat) (sources : list TorrentFile) (m : fileMatchInstruction)
    (c : candidateEntry) : Prop :=
  (i ≤ sourceIndex m)%nat ∧ ∃ sf, sources !! (sourceIndex m - i)%nat = Some sf ∧
    sourcePath m = tf_Name sf ∧ tf_Size sf = ce_size c ∧ candidatePath m = ce_path c.

Lemma paired_tail i sf sources m c : paired (S i) sources m c → paired i (sf :: sources) m c.
Proof.
  intros (Hi & sf' & Hl & ?). split; [lia|]. exists sf'. split; [|done].
  by replace (sourceIndex m - i)%nat with (S (sourceIndex m - S i)) by lia.
Qed.

Lemma match_loop_spec allow i sources cands :
  let '(ms, un) := match_loop allow i sources cands in
  (∃ picks, NoDup (ce_id <$> picks) ∧ Forall (λ c, c ∈ cands ∧ ce_used c = false) picks ∧
     Forall2 (paired i sources) ms picks) ∧
  StronglySorted lt (sourceIndex <$> ms) ∧ Forall (λ m, (i ≤ sourceIndex m)%nat) ms ∧
  (sourcePath <$> ms) ++ un ≡ₚ tf_Name <$> sources.
Proof.
  revert i cands. induction sources as [|sf sources IH]; intros i cands; simpl.
  { split_and!; try constructor. exists []. split_and!; constructor. }
  destruct (choose_match _ _ _) as [c|] eqn:Hc.
  - specialize (IH (S i) (mark_used (ce_id c) cands)).
    destruct (match_loop allow (S i) sources _) as [ms un].
    destruct IH as ((picks & Hnd & Hall & Hpair) & Hsort & Hle & Hperm).
    apply choose_match_elem in Hc. unfold available_for in Hc.
    apply list_elem_of_filter in Hc as [[Hsize Hused] Hin].
    split_and!; [|constructor; [done|]| |simpl; by rewrite Hperm].
    + exists (c :: picks). split_and!.
      * rewrite fmap_cons. constructor; [|done]. intros (c' & Hid & Hin')%list_elem_of_fmap.
        rewrite Forall_forall in Hall. destruct (Hall c' Hin') as [Hm Hu].
        by apply elem_of_mark_used in Hm as [_ ?].
      * constructor; [done|]. eapply Forall_impl; [exact Hall|]. intros c' [Hm Hu].
        by apply elem_of_mark_used in Hm as [? _].
      * constructor.
        -- split; [simpl; lia|]. exists sf. simpl. by rewrite Nat.sub_diag.
        -- eapply Forall2_impl; [exact Hpair|]. intros m c'. apply paired_tail.
    + apply (Forall_fmap sourceIndex). eapply Forall_impl; [exact Hle|]. intros m. simpl. lia.
    + constructor; [simpl; lia|]. eapply Forall_impl; [exact Hle|]. simpl. lia.
  - specialize (IH (S i) cands). destruct (match_loop allow (S i) sources cands) as [ms un].
    destruct IH as ((picks & Hnd & Hall & Hpair) & Hsort & Hle & Hperm).
    split_and!; [|done| |].
    + exists picks. split_and!; [done..|]. eapply Forall2_impl; [exact Hpair|].
      intros m c'. apply paired_tail.
    + eapply Forall_impl; [exact Hle|]. simpl. lia.
    + rewrite <- Permutation_middle, Hperm. done.
Qed.

Lemma entry_of_ids files : NoDup (ce_id <$> imap entry_of files).
Proof.
  rewrite fmap_imap. change (imap (λ n a, (ce_id ∘ entry_of n) a) files) with (imap (λ i _, i) files).
  apply NoDup_alt. intros i j x. rewrite !list_lookup_imap.
  destruct (files !! i), (files !! j); simpl; intros; simplify_eq; done.
Qed.
End pairing.

(** Pairing files is sound for every policy: it returns the
    matched source files in order, each paired with a candidate of the same
    size, no candidate is used twice, and every source file is either matched
    or listed as unmatched, exactly once. *)
Theorem matching_sound `{!UnicodeCase, !UnicodeTables} (sources candidates : list TorrentFile)
    (allow : string → string → bool) :
  let '(matches, unmatched) := matchSourceFilesToCandidatesWithPolicy sources candidates allow in
  (∃ picks : list nat, NoDup picks ∧
     Forall2 (λ m k, ∃ sf cf, sources !! sourceIndex m = Some sf ∧ candidates !! k = Some cf ∧
       sourcePath m = tf_Name sf ∧ candidatePath m = tf_Name cf ∧ tf_Size sf = tf_Size cf)
       matches picks) ∧
  StronglySorted lt (sourceIndex <$> matches) ∧
  (sourcePath <$> matches) ++ unmatched ≡ₚ tf_Name <$> sources.
Proof.
  unfold matchSourceFilesToCandidatesWithPolicy.
  pose proof (match_loop_spec allow 0 sources (imap entry_of candidates)) as Hm.
  destruct (match_loop _ _ _ _) as [ms un]. destruct Hm as ((picks & Hnd & Hall & Hpair) & Hs & _ & Hp).
  split_and!; [|done..]. exists (ce_id <$> picks). split; [done|].
  apply Forall2_fmap_r. clear Hs Hp Hnd. induction Hpair as [|m c ms picks Hmc _ IH]; constructor.
  - apply Forall_cons in Hall as [[Hin _] _]. destruct Hmc as (_ & sf & Hl & H1 & H2 & H3).
    rewrite Nat.sub_0_r in Hl. apply elem_of_lookup_imap in Hin as (k & cf & -> & Hk).
    exists sf, cf. by split_and!.
  - apply IH. by apply Forall_cons in Hall as [_ ?].
Qed.

(** ** Pairing a torrent with itself *)

Section self_pairing.
Context `{!UnicodeCase, !UnicodeTables}.

Lemma find_first {A} (f : A → bool) pre x l :
  Forall (λ y, f y = false) pre → f x = true → List.find f (pre ++ x :: l) = Some x.
Proof. induction 1 as [|y pre Hy _ IH]; intros Hx; simpl; [by rewrite Hx|rewrite Hy; auto]. Qed.

(** An unused candidate with the same path and size as the source is chosen
    when no other has that path. *)
Lemma choose_exact allow sf l c :
  c ∈ l → ce_path c = tf_Name sf → (∀ c', c' ∈ l → ce_path c' = tf_Name sf → c' = c) →
  choose_match allow sf l = Some c.
Proof.
  intros Hin Hp Huniq. unfold choose_match.
  destruct (List.find _ l) as [c'|] eqn:Hf.
  - apply find_elem in Hf as [Hin' E]. apply bool_decide_eq_true in E. by rewrite (Huniq c' Hin' E).
  - apply list_elem_of_In in Hin. pose proof (List.find_none _ _ Hf c Hin) as E. simpl in E.
    by apply bool_decide_eq_false in E.
Qed.

Lemma match_loop_exact allow i sources cands :
  NoDup (tf_Name <$> sources) → NoDup (ce_path <$> cands) → NoDup (ce_id <$> cands) →
  (∀ sf, sf ∈ sources → ∃ c, c ∈ cands ∧ ce_used c = false ∧ ce_path c = tf_Name sf ∧
     ce_size c = tf_Size sf) →
  match_loop allow i sources cands =
    (imap (λ k sf, MkMatch (i + k) (tf_Name sf) (tf_Name sf)) sources, []).
Proof.
  revert i cands. induction sources as [|sf sources IH]; intros i cands Hns Hnp Hni Hex; [done|].
  apply NoDup_cons in Hns as [Hni' Hns]. simpl.
  destruct (Hex sf) as (c & Hin & Hu & Hp & Hs); [by left|].
  assert (∀ c1 c2, c1 ∈ cands → c2 ∈ cands → ce_path c1 = ce_path c2 → c1 = c2) as Hinj.
  { clear -Hnp. intros c1 c2 H1 H2 E. apply list_elem_of_lookup in H1 as [k1 H1], H2 as [k2 H2].
    rewrite NoDup_alt in Hnp. assert (k1 = k2) as ->; [|congruence].
    apply (Hnp k1 k2 (ce_path c1)); by rewrite list_lookup_fmap, ?H1, ?H2; simpl; rewrite ?E. }
  rewrite (choose_exact allow sf _ c).
  - rewrite (IH (S i)); [|done|..].
    + simpl. rewrite Nat.add_0_r, Hp. do 2 f_equal. apply imap_ext. intros k f _. simpl. f_equal. lia.
    + assert (ce_path <$> mark_used (ce_id c) cands = ce_path <$> cands) as ->; [|done].
      unfold mark_used. rewrite <- list_fmap_compose. apply list_fmap_ext. intros k c' _. simpl.
      by case_bool_decide.
    + by rewrite mark_used_ids.
    + intros sf' Hin'. destruct (Hex sf') as (c' & Hc' & Hu' & Hp' & Hs'); [by right|].
      exists c'. split; [|done]. unfold mark_used. apply list_elem_of_fmap. exists c'. split; [|done].
      rewrite bool_decide_false; [done|]. intros Eid. apply Hni'.
      assert (c' = c) as ->.
      { apply list_elem_of_lookup in Hc' as [k1 H1], Hin as [k2 H2].
        rewrite NoDup_alt in Hni. assert (k1 = k2) as ->; [|congruence].
        apply (Hni k1 k2 (ce_id c')); by rewrite list_lookup_fmap, ?H1, ?H2; simpl; rewrite ?Eid. }
      rewrite <- Hp, Hp'. by apply list_elem_of_fmap_2.
  - unfold available_for. by apply list_elem_of_filter.
  - done.
  - intros c' Hc' Hp'. unfold available_for in Hc'. apply list_elem_of_filter in Hc' as [_ Hc'].
    apply Hinj; [done..|]. by rewrite Hp, Hp'.
Qed.

Lemma entry_of_paths files : ce_path <$> imap entry_of files = tf_Name <$> files.
Proof. rewrite fmap_imap. apply list_eq. intros k. by rewrite list_lookup_imap, list_lookup_fmap. Qed.
End self_pairing.

(** When every source file is among the
    candidates under its own path and size, in whatever order, the pairing
    matches each file with itself and the rename plan is empty: aligning an
    already aligned torrent changes nothing. *)
Theorem identical_files_need_no_rename `{!UnicodeCase, !UnicodeTables}
    (sources candidates : list TorrentFile) :
  NoDup (tf_Name <$> sources) → NoDup (tf_Name <$> candidates) →
  (∀ f, f ∈ sources → f ∈ candidates) →
  (∀ allow, matchSourceFilesToCandidatesWithPolicy sources candidates allow =
     (imap (λ k f, MkMatch k (tf_Name f) (tf_Name f)) sources, [])) ∧
  buildFileRenamePlan sources candidates = ([], []) ∧
  planRequiresRenames sources candidates = false.
Proof.
  intros Hs Hc Hsub.
  assert (∀ allow, matchSourceFilesToCandidatesWithPolicy sources candidates allow =
    (imap (λ k f, MkMatch k (tf_Name f) (tf_Name f)) sources, [])) as Hm.
  { intros allow. unfold matchSourceFilesToCandidatesWithPolicy.
    rewrite match_loop_exact; [done|done|by rewrite entry_of_paths|apply entry_of_ids|].
    intros sf Hin. apply Hsub, list_elem_of_lookup in Hin as [k Hk].
    exists (entry_of k sf). split; [|done]. apply elem_of_lookup_imap. eauto. }
  assert (buildFileRenamePlan sources candidates = ([], [])) as Hplan.
  { unfold buildFileRenamePlan, matchSourceFilesToCandidates. rewrite Hm.
    assert (omap (λ m, if bool_decide (sourcePath m = candidatePath m) then None
      else Some (MkRename (sourcePath m) (candidatePath m)))
      (imap (λ k f, MkMatch k (tf_Name f) (tf_Name f)) sources) = []) as ->; [|done].
    clear. revert sources.
    assert (∀ ms, Forall (λ m, sourcePath m = candidatePath m) ms →
      omap (λ m, if bool_decide (sourcePath m = candidatePath m) then None
        else Some (MkRename (sourcePath m) (candidatePath m))) ms = []) as Ho.
    { induction 1 as [|m ms Hm _ IH]; [done|]. simpl. by rewrite bool_decide_true. }
    intros sources. apply Ho, Forall_forall. intros m Hin.
    by apply elem_of_lookup_imap in Hin as (k & f & -> & _). }
  split_and!; [done..|]. unfold planRequiresRenames. by rewrite Hplan.
Qed.

(** ** Multisets of keys *)

Section multisets.
Context `{!UnicodeCase, !UnicodeTables}.

(** [m] counts the elements of [l]. *)
Definition counts (m : gmap (string * Z) nat) (l : list (string * Z)) : Prop :=
  ∀ k, default 0%nat (m !! k) = length (filter (λ x, x = k) l).

Lemma counts_insert m l k n :
  default 0%nat (m !! k) = n → counts m l → counts (<[k := S n]> m) (k :: l).
Proof.
  intros Hn Hc k'. rewrite lookup_insert, filter_cons. case_decide as E.
  - subst k'. simpl. by rewrite <- Hn, Hc.
  - apply Hc.
Qed.

Lemma counts_perm m l l' : l ≡ₚ l' → counts m l → counts m l'.
Proof. intros Hp Hc k. rewrite Hc. by rewrite Hp. Qed.

Lemma count_keys_counts files : counts (count_keys files) (key_size <$> files).
Proof.
  unfold count_keys. induction files as [|f files IH] using rev_ind; [done|].
  rewrite foldl_app, fmap_app. simpl. eapply counts_perm; [apply Permutation_cons_append|].
  by apply counts_insert.
Qed.

Lemma counts_zero m l k : counts m l → default 0%nat (m !! k) = 0%nat → k ∉ l.
Proof.
  intros Hc Hz Hin. rewrite (Hc k) in Hz. apply length_zero_iff_nil in Hz.
  assert (k ∈ filter (λ x, x = k) l) as Hin' by by apply list_elem_of_filter.
  rewrite Hz in Hin'. by apply elem_of_nil in Hin'.
Qed.

Lemma counts_remove m l k n :
  counts m l → default 0%nat (m !! k) = S n → ∃ l', l ≡ₚ k :: l' ∧ counts (<[k := n]> m) l'.
Proof.
  intros Hc Hn. assert (k ∈ l) as Hin.
  { rewrite (Hc k) in Hn. destruct (filter (λ x, x = k) l) as [|x xs] eqn:E; [done|].
    assert (x ∈ filter (λ x, x = k) l) as Hx by (rewrite E; by left).
    by apply list_elem_of_filter in Hx as [-> ?]. }
  apply elem_of_Permutation in Hin as [l' Hl']. exists l'. split; [done|].
  intros k'. pose proof (counts_perm m l (k :: l') Hl' Hc k') as Hk. rewrite filter_cons in Hk.
  rewrite lookup_insert. case_decide as E.
  - subst k'. rewrite Hn in Hk. simpl in *. lia.
  - done.
Qed.

Lemma take_key_loop sources m n l :
  counts m l →
  let '(_, matched) := foldl take_key (m, n) sources in
  (matched ≤ n + length sources)%nat ∧
  (matched = n + length sources ↔ (key_size <$> sources) ⊆+ l)%nat.
Proof.
  revert m n l. induction sources as [|sf sources IH]; intros m n l Hc; simpl.
  { split; [lia|]. split; [intros; apply submseteq_nil_l|lia]. }
  destruct (default 0%nat (m !! key_size sf)) as [|c] eqn:Hk.
  - specialize (IH m n l Hc). destruct (foldl take_key (m, n) sources) as [m' n'].
    split; [lia|]. split; [lia|]. intros Hsub. exfalso.
    apply (counts_zero m l _ Hc Hk). eapply elem_of_submseteq; [|exact Hsub]. by left.
  - destruct (counts_remove m l _ c Hc Hk) as (l' & Hl' & Hc').
    specialize (IH _ (S n) l' Hc'). destruct (foldl take_key _ sources) as [m' n'].
    destruct IH as [Hle Hiff]. split; [lia|]. rewrite Hl'.
    assert (key_size sf :: (key_size <$> sources) ⊆+ key_size sf :: l' ↔
      (key_size <$> sources) ⊆+ l') as ->.
    { split; [|apply submseteq_skip]. intros Hs. by apply (submseteq_app_inv_l _ _ [key_size sf]). }
    rewrite <- Hiff. lia.
Qed.
End multisets.

(** [hasExtraSourceFiles] answers no exactly when
    the multiset of the (normalised key, size) pairs of the source files is
    contained in that of the candidates: every source file then has a
    counterpart of its own. *)
Theorem extra_source_files_exact `{!UnicodeCase, !UnicodeTables}
    (sources candidates : list TorrentFile) :
  hasExtraSourceFiles sources candidates = false ↔
  (key_size <$> sources) ⊆+ (key_size <$> candidates).
Proof.
  unfold hasExtraSourceFiles.
  pose proof (take_key_loop sources (count_keys candidates) 0 (key_size <$> candidates)
    (count_keys_counts candidates)) as Hl.
  destruct (foldl take_key _ sources) as [m n]. destruct Hl as [Hle Hiff]. rewrite <- Hiff.
  destruct (Nat.ltb_spec n (length sources)); split; (done || lia).
Qed.

(** ** Comparing sizes *)

Section sizes.
Context `{!UnicodeCase, !UnicodeTables}.

Definition keyed (key : string) (files : list TorrentFile) : list TorrentFile :=
  filter (λ f, normalizeFileKey (tf_Name f) = key) files.

Definition sizes_at (m : gmap string candidateInfo) (key : string) : list Z :=
  from_option (λ info, tf_Size <$> ci_files info) [] (m !! key).

Lemma add_candidates_sizes files key :
  key ≠ "" → sizes_at (foldl add_candidate ∅ files) key = tf_Size <$> keyed key files.
Proof.
  intros Hk. induction files as [|f files IH] using rev_ind; [done|].
  rewrite foldl_app. cbn [foldl]. unfold keyed. rewrite filter_app. fold (keyed key files).
  revert IH. generalize (foldl add_candidate ∅ files). intros m IH.
  unfold sizes_at, add_candidate in *. cbn zeta. rewrite filter_cons, filter_nil.
  destruct (decide (normalizeFileKey (tf_Name f) = key)) as [E|E].
  - rewrite E, bool_decide_false by done. rewrite fmap_app, <- IH.
    destruct (m !! key) as [info|]; rewrite lookup_insert_eq; simpl; [by rewrite fmap_app|done].
  - rewrite app_nil_r, <- IH. case_bool_decide; [done|].
    destruct (m !! normalizeFileKey (tf_Name f)); by rewrite lookup_insert_ne.
Qed.

Lemma remove_size_some size files :
  size ∈ tf_Size <$> files →
  ∃ files', remove_size size files = Some files' ∧
    tf_Size <$> files ≡ₚ size :: (tf_Size <$> files').
Proof.
  induction files as [|f files IH]; [by intros ?%elem_of_nil|]. simpl. intros Hin.
  case_bool_decide as E; [exists files; by rewrite E|].
  apply elem_of_cons in Hin as [Hin|Hin]; [done|]. destruct (IH Hin) as (files' & -> & Hp).
  exists (f :: files'). split; [done|]. simpl. rewrite Hp. by apply perm_swap.
Qed.

(** Every remaining source file still has a candidate of its key and size. *)
Definition enough (st : mismatch_state) (rest : list TorrentFile) : Prop :=
  ms_mismatches st = [] ∧
  ∀ key, key ≠ "" → (tf_Size <$> keyed key rest) ⊆+ sizes_at (ms_info st) key.

Lemma enough_step st sf rest : enough st (sf :: rest) → enough (mismatch_step st sf) rest.
Proof.
  intros [Hm He]. unfold mismatch_step. cbn zeta.
  assert (∀ key, keyed key (sf :: rest) = if decide (normalizeFileKey (tf_Name sf) = key)
    then sf :: keyed key rest else keyed key rest) as Hkeyed
    by (intros; unfold keyed; by rewrite filter_cons).
  case_bool_decide as Hkey.
  { split; [done|]. intros key Hk. specialize (He key Hk). by rewrite Hkeyed, decide_False in He by congruence. }
  set (k := normalizeFileKey (tf_Name sf)) in *.
  pose proof (He k Hkey) as Hk. rewrite Hkeyed, decide_True in Hk by done. simpl in Hk.
  unfold sizes_at in Hk. destruct (ms_info st !! k) as [info|] eqn:Hi; simpl in Hk.
  2:{ apply submseteq_nil_r in Hk. done. }
  destruct (remove_size_some (tf_Size sf) (ci_files info)) as (files' & -> & Hp).
  { eapply elem_of_submseteq; [|exact Hk]. by left. }
  split; [done|]. intros key Hk'. unfold sizes_at. simpl.
  destruct (decide (k = key)) as [<-|Hne].
  - rewrite lookup_insert_eq. simpl. rewrite Hp in Hk.
    by apply (submseteq_app_inv_l _ _ [tf_Size sf]) in Hk.
  - rewrite lookup_insert_ne by done. specialize (He key Hk'). by rewrite Hkeyed, decide_False in He.
Qed.

Lemma largest_file_spec files :
  let r := (largest_file files).1 in
  (0 ≤ r)%Z ∧ (∀ f, f ∈ files → tf_Size f ≤ r)%Z ∧ (r = 0%Z ∨ ∃ f, f ∈ files ∧ tf_Size f = r).
Proof.
  cbn zeta. unfold largest_file. induction files as [|f files IH] using rev_ind.
  { simpl. split_and!; [lia|by intros ? ?%elem_of_nil|by left]. }
  rewrite foldl_app. cbn [foldl].
  destruct (foldl _ (0%Z, "") files) as [r name]. cbn [fst] in *.
  destruct IH as (Hr & Hall & Hex). destruct (Z.ltb_spec r (tf_Size f)); cbn [fst]; split_and!.
  - lia.
  - intros f' [Hf'|Hf']%elem_of_app; [specialize (Hall f' Hf'); lia|].
    apply list_elem_of_singleton in Hf' as ->. lia.
  - right. exists f. split; [apply elem_of_app; right; by left|done].
  - lia.
  - intros f' [Hf'|Hf']%elem_of_app; [by apply Hall|]. apply list_elem_of_singleton in Hf' as ->. lia.
  - destruct Hex as [|(f' & Hf' & E)]; [by left|right]. exists f'. split; [|done].
    apply elem_of_app. by left.
Qed.

Lemma largest_file_perm l1 l2 : l1 ≡ₚ l2 → (largest_file l1).1 = (largest_file l2).1.
Proof.
  intros Hp. destruct (largest_file_spec l1) as (H1 & A1 & E1), (largest_file_spec l2) as (H2 & A2 & E2).
  cbn zeta in *.
  destruct E1 as [E1|(f1 & F1 & E1)], E2 as [E2|(f2 & F2 & E2)].
  - congruence.
  - rewrite <- Hp in F2. specialize (A1 _ F2). lia.
  - rewrite Hp in F1. specialize (A2 _ F1). lia.
  - rewrite <- Hp in F2. rewrite Hp in F1. specialize (A1 _ F2). specialize (A2 _ F1). lia.
Qed.
End sizes.

(** Two torrents with the same files, listed in any
    order, are never reported to have mismatching sizes. *)
Theorem same_files_no_mismatch `{!UnicodeCase, !UnicodeTables} (sources candidates : list TorrentFile) :
  sources ≡ₚ candidates → hasContentFileSizeMismatch sources candidates = (false, []).
Proof.
  intros Hp. unfold hasContentFileSizeMismatch. cbn zeta.
  set (fs := filter _ sources). set (fc := filter _ candidates).
  assert (fs ≡ₚ fc) as Hf by (unfold fs, fc; by rewrite Hp). clearbody fs fc.
  case_bool_decide; [done|].
  set (st0 := MkMismatchState _ _ _ _).
  assert (enough st0 fs) as He.
  { split; [done|]. intros key Hk. simpl. rewrite add_candidates_sizes by done.
    unfold keyed. by rewrite Hf. }
  assert (ms_mismatches (foldl mismatch_step st0 fs) = []) as Hm.
  { clear -He. clearbody st0. revert st0 He. induction fs as [|f fs IH]; intros st He; [by destruct He|].
    simpl. by apply IH, enough_step. }
  rewrite bool_decide_true by done. simpl. destruct (_ && _); [done|].
  pose proof (largest_file_perm fs fc Hf) as Hl.
  destruct (largest_file fs) as [s ns], (largest_file fc) as [c nc]. simpl in Hl. subst.
  by rewrite Z.eqb_refl, andb_false_r.
Qed.

(** ** Roots *)

Lemma cut_bytes_spec sep l p q :
  cut_bytes sep l = Some (p, q) ↔ l = p ++ sep :: q ∧ sep ∉ p.
Proof.
  revert p. induction l as [|a l IH]; intros p; simpl.
  { split; [done|]. intros [E _]. by destruct p. }
  destruct p as [|b p].
  - case_bool_decide as Ha.
    + subst a. split; [intros [= <-]; split; [done|apply not_elem_of_nil]|by intros [[= <-] _]].
    + split; [|by intros [[= -> _] _]]. by destruct (cut_bytes sep l) as [[p' q']|].
  - rewrite not_elem_of_cons. case_bool_decide as Ha; [naive_solver|].
    specialize (IH p). destruct (cut_bytes sep l) as [[p' q']|]; simpl; naive_solver.
Qed.

Definition no_slash (s : string) : Prop := "/"%char ∉ to_bytes s.

Lemma Cut_app root rest : no_slash root → Cut (root +++ "/" +++ rest) "/"%char = Some (root, rest).
Proof.
  intros Hr. unfold Cut. rewrite !to_bytes_app.
  rewrite (proj2 (cut_bytes_spec _ _ (to_bytes root) (to_bytes rest))) by done. simpl.
  by rewrite !of_to_bytes.
Qed.

Lemma Cut_some path root rest :
  Cut path "/"%char = Some (root, rest) → path = root +++ "/" +++ rest ∧ no_slash root.
Proof.
  unfold Cut. destruct (cut_bytes _ _) as [[p q]|] eqn:E; [|done]. intros [= <- <-].
  apply cut_bytes_spec in E as [E Hn]. split; [|unfold no_slash; by rewrite to_of_bytes].
  rewrite <- (of_to_bytes path), E.
  rewrite <- (of_to_bytes (of_bytes p +++ "/" +++ of_bytes q)), !to_bytes_app, !to_of_bytes. done.
Qed.

Lemma CutPrefix_app p s : CutPrefix (p +++ s) p = Some s.
Proof.
  unfold CutPrefix. rewrite HasPrefix_of_app, to_bytes_app, drop_app_length. by rewrite of_to_bytes.
Qed.

Lemma append_nonempty s1 s2 : s1 ≠ "" → s1 +++ s2 ≠ "".
Proof. by destruct s1. Qed.

Lemma adjust_below root newRoot rest :
  root ≠ "" → newRoot ≠ "" →
  adjustPathForRootRename (root +++ "/" +++ rest) root newRoot = newRoot +++ "/" +++ rest.
Proof.
  intros Hr Hn. unfold adjustPathForRootRename.
  rewrite !bool_decide_false by (done || by apply append_nonempty). simpl.
  rewrite bool_decide_false.
  - rewrite <- string_app_assoc, CutPrefix_app. by rewrite ?string_app_assoc.
  - intros E. apply (f_equal (λ s, length (to_bytes s))) in E.
    rewrite !to_bytes_app, !length_app in E. simpl in E. lia.
Qed.

Lemma common_root_spec root files r :
  root ≠ "" → common_root root files = r → r ≠ "" →
  r = root ∧ Forall (λ f, ∃ rest, Cut (tf_Name f) "/"%char = Some (root, rest)) files.
Proof.
  intros Hroot. induction files as [|f files IH]; simpl; [by intros ->|].
  destruct (Cut (tf_Name f) "/"%char) as [[first rest]|] eqn:E; [|by intros <-].
  case_bool_decide; [by intros <-|]. rewrite bool_decide_false by done.
  case_bool_decide; [|by intros <-]. subst. intros Hc Hr. destruct (IH Hc Hr) as [-> Hall].
  split; [done|]. constructor; eauto.
Qed.

Lemma common_root_all root files :
  root ≠ "" → Forall (λ f, ∃ rest, Cut (tf_Name f) "/"%char = Some (root, rest)) files →
  common_root root files = root.
Proof.
  intros Hr. induction 1 as [|f files (rest & E) _ IH]; [done|]. simpl. rewrite E.
  rewrite !bool_decide_false by done. by rewrite bool_decide_true.
Qed.

Lemma detectCommonRoot_spec files r :
  r ≠ "" → detectCommonRoot files = r ↔
    files ≠ [] ∧ Forall (λ f, ∃ rest, Cut (tf_Name f) "/"%char = Some (r, rest)) files.
Proof.
  intros Hr. unfold detectCommonRoot. destruct files as [|f files]; simpl; [naive_solver|].
  split.
  - destruct (Cut (tf_Name f) "/"%char) as [[first rest]|] eqn:E; [|by intros <-].
    case_bool_decide; [by intros <-|]. intros Hc.
    destruct (common_root_spec first files r) as [-> Hall]; [done..|]. split; [done|]. constructor; eauto.
  - intros [_ Hall]. apply Forall_cons in Hall as [(rest & E) Hall]. rewrite E.
    rewrite bool_decide_false by done. by apply common_root_all.
Qed.

(** When the files of a torrent share a root folder,
    rewriting their paths for a new root gives files that share the new root,
    and rewriting them back gives the original paths. *)
Theorem root_rename_roundtrip (files : list TorrentFile) (oldRoot newRoot : string) :
  detectCommonRoot files = oldRoot → oldRoot ≠ "" → newRoot ≠ "" → no_slash newRoot →
  let renamed := (λ f, MkFile (adjustPathForRootRename (tf_Name f) oldRoot newRoot) (tf_Size f)) <$> files in
  detectCommonRoot renamed = newRoot ∧
  (λ f, MkFile (adjustPathForRootRename (tf_Name f) newRoot oldRoot) (tf_Size f)) <$> renamed = files.
Proof.
  intros Hroot Hold Hnew Hns. cbn zeta. apply (detectCommonRoot_spec files oldRoot Hold) in Hroot as [Hne Hall].
  assert (∀ f, f ∈ files → ∃ rest, tf_Name f = oldRoot +++ "/" +++ rest) as Hnames.
  { intros f Hf. rewrite Forall_forall in Hall. destruct (Hall f Hf) as (rest & E).
    apply Cut_some in E as [E _]. eauto. }
  split.
  - apply detectCommonRoot_spec; [done|]. split; [by intros E%fmap_nil_inv|].
    apply Forall_fmap, Forall_forall. intros f Hf. destruct (Hnames f Hf) as (rest & E).
    exists rest. simpl. rewrite E, adjust_below by done. by apply Cut_app.
  - rewrite <- list_fmap_compose. rewrite <- (list_fmap_id files) at 2.
    apply list_fmap_ext. intros i f Hi. apply list_elem_of_lookup_2 in Hi.
    destruct (Hnames f Hi) as (rest & E). simpl. rewrite E, !adjust_below by done.
    rewrite <- E. by destruct f.
Qed.

(** ** Witnesses *)

Definition sample_files : list TorrentFile :=
  [MkFile "Show.S01/Show.S01E01.DD+5.1.mkv" 5000000; MkFile "Show.S01/Show.S01E01.mkv.nfo" 120;
   MkFile "Show.S01/Show.S01E02.mkv" 5000000].

Lemma identical_files_need_no_rename_witness :
  let _ := AsciiCase in let _ := AsciiTables in
  planRequiresRenames sample_files (reverse sample_files) = false.
Proof.
  intros c t. apply (@identical_files_need_no_rename c t sample_files (reverse sample_files)).
  - apply (bool_decide_eq_true_1 _). by vm_compute.
  - apply (bool_decide_eq_true_1 _). by vm_compute.
  - intros f Hf. by apply elem_of_reverse.
Defined.

Lemma same_files_no_mismatch_witness :
  let _ := AsciiCase in let _ := AsciiTables in
  hasContentFileSizeMismatch sample_files (reverse sample_files) = (false, []).
Proof.
  intros c t. apply (@same_files_no_mismatch c t). symmetry. apply reverse_Permutation.
Defined.

Lemma root_rename_roundtrip_witness :
  detectCommonRoot ((λ f, MkFile (adjustPathForRootRename (tf_Name f) "Show.S01" "New") (tf_Size f))
    <$> sample_files) = "New".
Proof.
  apply (root_rename_roundtrip sample_files "Show.S01" "New"); [by vm_compute|done|done|].
  unfold no_slash. apply (bool_decide_eq_true_1 _). by vm_compute.
Defined.

(** Different sizes under one key are reported, whatever the dots and the case. *)
Example mismatch_reported :
  let _ := AsciiCase in let _ := AsciiTables in
  hasContentFileSizeMismatch [MkFile "a/Show.S01E01.mkv" 10] [MkFile "b/show s01e01.mkv" 11] =
  (true, [MkMismatch "a/Show.S01E01.mkv" 10 "b/show s01e01.mkv" 11]).
Proof. by vm_compute. Qed.
