(* ===== verification/PieceBoundary.v ===== *)
(** * [internal/services/crossseed/piece_boundary.go]: pieces shared with missing files

    A cross-seeded torrent may have files that are not on disk yet.  They can
    be downloaded safely only if no piece holds bytes of both a missing file
    and a file that is there.  This file models the check and shows that it
    establishes this. *)

From Stdlib Require Import ZArith Lia Ascii.
From stdpp Require Import base numbers list strings pretty gmap.
From S2P Require Import Prelude.
From S2P Require Import GoStrings.
From S2P Require Import UnicodeText.
From S2P Require Import FileAlign.

Open Scope qui_scope.

Record PieceBoundaryViolation := MkViolation {
  v_Offset : Z; v_PieceIndex : Z; v_PieceStart : Z; v_PieceEnd : Z;
  v_ContentFile : string; v_IgnoredFile : string }.

Record PieceBoundarySafetyResult := MkSafety {
  Safe : bool; Reason : string; UnsafeBoundaries : list PieceBoundaryViolation }.

Record TorrentFileForBoundaryCheck := MkBoundaryFile {
  bf_Path : string; bf_Size : Z; bf_IsContent : bool }.

(** The violation at a transition from [cur] to [next] at byte [offset]. *)
Definition violation_at (pieceLength offset : Z) (cur next : TorrentFileForBoundaryCheck)
    : PieceBoundaryViolation :=
  let pieceIndex := Z.quot offset pieceLength in
  let pieceStart := i64 (pieceIndex * pieceLength) in
  let '(contentFile, ignoredFile) :=
    if bf_IsContent cur then (bf_Path cur, bf_Path next) else (bf_Path next, bf_Path cur) in
  MkViolation offset pieceIndex pieceStart (i64 (pieceStart + pieceLength)) contentFile ignoredFile.

(** The loop over adjacent files. *)
Fixpoint boundary_violations (pieceLength offset : Z) (files : list TorrentFileForBoundaryCheck)
    : list PieceBoundaryViolation :=
  match files with
  | cur :: (next :: _) as rest =>
    let offset := i64 (offset + bf_Size cur) in
    let later := boundary_violations pieceLength offset rest in
    if xorb (bf_IsContent cur) (bf_IsContent next) && negb (Z.rem offset pieceLength =? 0)%Z
    then violation_at pieceLength offset cur next :: later else later
  | _ => []
  end.

Definition CheckPieceBoundarySafety (files : list TorrentFileForBoundaryCheck) (pieceLength : Z)
    : PieceBoundarySafetyResult :=
  if (pieceLength <=? 0)%Z then MkSafety false "invalid piece length" [] else
  match files with
  | [] => MkSafety true "no files to check" []
  | _ =>
    let violations := boundary_violations pieceLength 0 files in
    match violations with
    | [] => MkSafety true "all content/ignored transitions are piece-aligned" []
    | _ => MkSafety false ("found " +++ pretty (Z.of_nat (length violations)) +++
             " piece boundary violation(s) between content and ignored files") violations
    end
  end.

(** What is read of [metainfo.Info], from the torrent library: its fields, and
    the values its methods [IsDir] and [DisplayPath] return. *)
Record InfoFile := MkInfoFile { DisplayPath : string; if_Length : Z }.
Record Info := MkTorrentInfo {
  info_Name : string; info_Length : Z; info_Files : list InfoFile; info_IsDir : bool;
  PieceLength : Z }.

Definition boundary_path (info : Info) (f : InfoFile) : string :=
  if info_IsDir info && negb (bool_decide (DisplayPath f = ""))
  then info_Name info +++ "/" +++ DisplayPath f
  else if negb (bool_decide (DisplayPath f = "")) then DisplayPath f
  else info_Name info.

(** The predicate is called once per file, in order; it may have an effect on
    the variables [S] it captures. *)
Section build.
Context {S : Type} (isContentFile : string → S → bool * S).

Fixpoint build_files (info : Info) (files : list InfoFile) (s : S)
    : list TorrentFileForBoundaryCheck * S :=
  match files with
  | [] => ([], s)
  | f :: files =>
    let path := boundary_path info f in
    let '(content, s) := isContentFile path s in
    let '(rest, s) := build_files info files s in
    (MkBoundaryFile path (if_Length f) content :: rest, s)
  end.

Definition BuildFilesForBoundaryCheck (info : option Info) (s : S)
    : list TorrentFileForBoundaryCheck * S :=
  match info with
  | None => ([], s)
  | Some info =>
    match info_Files info with
    | [] => let '(content, s) := isContentFile (info_Name info) s in
            ([MkBoundaryFile (info_Name info) (info_Length info) content], s)
    | files => build_files info files s
    end
  end.
End build.

(** The closure [HasUnsafeIgnoredExtras] passes; its state is [hasIgnored]. *)
Definition content_predicate (isIgnored : string → bool) (path : string) (hasIgnored : bool)
    : bool * bool :=
  if isIgnored path then (false, true) else (true, hasIgnored).

Definition HasUnsafeIgnoredExtras (info : option Info) (isIgnored : string → bool)
    : bool * PieceBoundarySafetyResult :=
  match info with
  | None => (false, MkSafety true "nil torrent info" [])
  | Some i =>
    let '(files, hasIgnored) :=
      BuildFilesForBoundaryCheck (content_predicate isIgnored) info false in
    if negb hasIgnored then (false, MkSafety true "no ignored files" []) else
    let result := CheckPieceBoundarySafety files (PieceLength i) in
    (negb (Safe result), result)
  end.

Section unmaterialized.
Context `{!UnicodeCase, !UnicodeTables}.

Definition unmaterializedSourceFilePaths (sourceFiles candidateFiles : list TorrentFile)
    : gset string :=
  let '(matches, _) := matchMaterializedSourceFilesToCandidates sourceFiles candidateFiles in
  let materialized : gset string := list_to_set (sourcePath <$> matches) in
  list_to_set (filter (λ p, p ∉ materialized) (tf_Name <$> sourceFiles)).

Definition HasUnsafeUnmaterializedSourcePieces (info : option Info)
    (sourceFiles candidateFiles : list TorrentFile) : bool * PieceBoundarySafetyResult :=
  let unmaterialized := unmaterializedSourceFilePaths sourceFiles candidateFiles in
  if bool_decide (unmaterialized = ∅)
  then (false, MkSafety true "no unmaterialized files" [])
  else HasUnsafeIgnoredExtras info (λ path, bool_decide (path ∈ unmaterialized)).
End unmaterialized.

(** ** The bytes of a torrent *)

(** The file that holds byte [i] of the concatenation of [files]. *)
Fixpoint file_at (files : list TorrentFileForBoundaryCheck) (i : Z)
    : option TorrentFileForBoundaryCheck :=
  match files with
  | [] => None
  | f :: files => if (i <? bf_Size f)%Z then Some f else file_at files (i - bf_Size f)
  end.

Definition total_size (files : list TorrentFileForBoundaryCheck) : Z :=
  foldr (λ f n, bf_Size f + n)%Z 0%Z files.

(** Sizes as a valid torrent has them: not negative, with a sum that fits. *)
Definition sizes_ok (files : list TorrentFileForBoundaryCheck) : Prop :=
  Forall (λ f, 0 ≤ bf_Size f)%Z files ∧ (total_size files ≤ max_i64)%Z.

(** No piece holds bytes of a content file and of an ignored file. *)
Definition no_mixed_piece (pieceLength : Z) (files : list TorrentFileForBoundaryCheck) : Prop :=
  ∀ i j f g, (0 ≤ i)%Z → (0 ≤ j)%Z → (i / pieceLength = j / pieceLength)%Z →
    file_at files i = Some f → file_at files j = Some g → bf_IsContent f = bf_IsContent g.

Lemma total_size_cons f files : total_size (f :: files) = (bf_Size f + total_size files)%Z.
Proof. done. Qed.

Lemma total_size_nonneg files : Forall (λ f, 0 ≤ bf_Size f)%Z files → (0 ≤ total_size files)%Z.
Proof. induction 1; simpl; lia. Qed.

(** A position between two positions of one piece, after the first, is not the
    start of a piece. *)
Lemma inner_position pl a b c :
  (0 < pl → 0 ≤ a → a ≤ b → b ≤ c → a / pl = c / pl →
   a / pl = b / pl ∧ (a < b ∨ a mod pl ≠ 0 → b mod pl ≠ 0))%Z.
Proof.
  intros Hpl Ha Hab Hbc E.
  pose proof (Z.div_le_mono a b pl Hpl Hab). pose proof (Z.div_le_mono b c pl Hpl Hbc).
  assert (a / pl = b / pl)%Z as Hd by lia. split; [done|].
  pose proof (Z.div_mod a pl). pose proof (Z.div_mod b pl).
  pose proof (Z.mod_pos_bound a pl Hpl). pose proof (Z.mod_pos_bound b pl Hpl). rewrite Hd in *. lia.
Qed.

Lemma no_violation_cons pl o cur next rest :
  (0 < pl)%Z → (0 ≤ o + bf_Size cur ≤ max_i64)%Z →
  boundary_violations pl o (cur :: next :: rest) = [] ↔
  boundary_violations pl (o + bf_Size cur) (next :: rest) = [] ∧
  (bf_IsContent cur = bf_IsContent next ∨ (o + bf_Size cur) mod pl = 0)%Z.
Proof.
  intros Hpl Ho.
  change (boundary_violations pl o (cur :: next :: rest)) with
    (let offset := i64 (o + bf_Size cur) in
     let later := boundary_violations pl offset (next :: rest) in
     if xorb (bf_IsContent cur) (bf_IsContent next) && negb (Z.rem offset pl =? 0)%Z
     then violation_at pl offset cur next :: later else later).
  rewrite i64_id by (unfold in_i64, min_i64 in *; lia). cbn zeta.
  rewrite Z.rem_mod_nonneg by lia.
  destruct (Z.eqb_spec ((o + bf_Size cur) mod pl) 0) as [E|E];
    destruct (bf_IsContent cur), (bf_IsContent next); simpl; naive_solver.
Qed.

(** Inside a piece that has already begun, the flag does not change. *)
Lemma same_flag_in_piece pl f files o j g :
  (0 < pl)%Z → (0 ≤ o)%Z → (o mod pl ≠ 0)%Z → Forall (λ f, 0 ≤ bf_Size f)%Z (f :: files) →
  (o + total_size (f :: files) ≤ max_i64)%Z → boundary_violations pl o (f :: files) = [] →
  (0 ≤ j)%Z → (o / pl = (o + j) / pl)%Z → file_at (f :: files) j = Some g →
  bf_IsContent f = bf_IsContent g.
Proof.
  intros Hpl. revert f o j. induction files as [|n files IH]; intros f o j Ho Hm Hs Ht Hv Hj Hp Hg;
    simpl in Hg; (destruct (Z.ltb_spec j (bf_Size f)) as [|Hge]; [by simplify_eq|]); [done|].
  apply Forall_cons in Hs as [Hf Hs]. pose proof (total_size_nonneg _ Hs).
  rewrite total_size_cons in Ht.
  apply no_violation_cons in Hv as [Hv Hc]; [|done|lia].
  destruct (inner_position pl o (o + bf_Size f) (o + j))%Z as [Hd Hi]; [lia..|].
  specialize (Hi (or_intror Hm)). destruct Hc as [Hc|Hc]; [|done]. rewrite Hc.
  eapply (IH n (o + bf_Size f)%Z (j - bf_Size f)%Z); [lia|done|done|lia|done|lia| |exact Hg].
  rewrite <- Hd, Hp. f_equal. lia.
Qed.

Lemma no_violation_no_mixed pl files o i j f g :
  (0 < pl)%Z → (0 ≤ o)%Z → Forall (λ f, 0 ≤ bf_Size f)%Z files →
  (o + total_size files ≤ max_i64)%Z → boundary_violations pl o files = [] →
  (0 ≤ i ≤ j)%Z → ((o + i) / pl = (o + j) / pl)%Z →
  file_at files i = Some f → file_at files j = Some g → bf_IsContent f = bf_IsContent g.
Proof.
  intros Hpl. revert o i j. induction files as [|h files IH]; intros o i j Ho Hs Ht Hv Hij Hp Hf Hg; [done|].
  apply Forall_cons in Hs as [Hh Hs]. pose proof (total_size_nonneg _ Hs).
  rewrite total_size_cons in Ht. simpl in Hf, Hg.
  destruct files as [|n files].
  { destruct (i <? bf_Size h)%Z; [|done]. destruct (j <? bf_Size h)%Z; [|done]. congruence. }
  apply no_violation_cons in Hv as [Hv Hc]; [|done|lia].
  destruct (Z.ltb_spec i (bf_Size h)), (Z.ltb_spec j (bf_Size h)); [congruence| |lia|].
  - injection Hf as ->.
    destruct (inner_position pl (o + i) (o + bf_Size f) (o + j))%Z as [Hd Hi]; [lia..|].
    destruct Hc as [Hc|Hc]; [|exfalso; apply Hi; [lia|done]]. rewrite Hc.
    eapply (same_flag_in_piece pl n files (o + bf_Size f)%Z (j - bf_Size f)%Z);
      [done|lia|apply Hi; lia|done|lia|done|lia| |exact Hg].
    rewrite <- Hd, Hp. f_equal. lia.
  - eapply (IH (o + bf_Size h)%Z (i - bf_Size h)%Z (j - bf_Size h)%Z);
      [lia|done|lia|done|lia| |exact Hf|exact Hg].
    by replace (o + bf_Size h + (i - bf_Size h))%Z with (o + i)%Z by lia;
      replace (o + bf_Size h + (j - bf_Size h))%Z with (o + j)%Z by lia.
Qed.

(** With no empty files, a violation is a piece that really is mixed. *)
Lemma no_mixed_no_violation pl files o :
  (0 < pl)%Z → (0 ≤ o)%Z → Forall (λ f, 0 < bf_Size f)%Z files →
  (o + total_size files ≤ max_i64)%Z →
  (∀ i j f g, (0 ≤ i)%Z → (0 ≤ j)%Z → ((o + i) / pl = (o + j) / pl)%Z →
    file_at files i = Some f → file_at files j = Some g → bf_IsContent f = bf_IsContent g) →
  boundary_violations pl o files = [].
Proof.
  intros Hpl. revert o. induction files as [|h files IH]; intros o Ho Hs Ht Hmix; [done|].
  destruct files as [|n files]; [done|]. apply Forall_cons in Hs as [Hh Hs]. simpl in Hh.
  assert (0 ≤ total_size (n :: files))%Z.
  { apply total_size_nonneg. eapply Forall_impl; [exact Hs|]. simpl. lia. }
  rewrite total_size_cons in Ht.
  apply no_violation_cons; [done|lia|]. split.
  - apply IH; [lia|done|lia|]. intros i j f g Hi Hj Hp Hf Hg.
    apply (Hmix (bf_Size h + i) (bf_Size h + j))%Z; [lia|lia|by rewrite !Z.add_assoc| |].
    + cbn [file_at]. rewrite (proj2 (Z.ltb_ge _ _)) by lia. by replace (bf_Size h + i - bf_Size h)%Z with i by lia.
    + cbn [file_at]. rewrite (proj2 (Z.ltb_ge _ _)) by lia. by replace (bf_Size h + j - bf_Size h)%Z with j by lia.
  - destruct (Z.eq_dec ((o + bf_Size h) mod pl)%Z 0%Z) as [|Hm]; [by right|left].
    apply (Hmix (bf_Size h - 1) (bf_Size h))%Z; [lia|lia| | |].
    + pose proof (Z.div_mod (o + bf_Size h)%Z pl). pose proof (Z.mod_pos_bound (o + bf_Size h)%Z pl Hpl).
      replace (o + (bf_Size h - 1))%Z with
        (pl * ((o + bf_Size h) / pl) + ((o + bf_Size h) mod pl - 1))%Z by lia.
      rewrite Z.mul_comm, Z.div_add_l by lia. rewrite (Z.div_small (_ - 1)) by lia. lia.
    + cbn [file_at]. by rewrite (proj2 (Z.ltb_lt _ _)) by lia.
    + cbn [file_at]. rewrite Z.ltb_irrefl, Z.sub_diag. apply Forall_cons in Hs as [Hn _].
      by rewrite (proj2 (Z.ltb_lt _ _)) by lia.
Qed.

Lemma CheckPieceBoundarySafety_safe files pl :
  Safe (CheckPieceBoundarySafety files pl) = true ↔ (0 < pl)%Z ∧ boundary_violations pl 0 files = [].
Proof.
  unfold CheckPieceBoundarySafety. destruct (Z.leb_spec pl 0); [simpl; split; [done|lia]|].
  destruct files as [|f files]; [simpl; naive_solver|].
  destruct (boundary_violations pl 0 (f :: files)); simpl; naive_solver.
Qed.

Lemma safe_no_mixed files pl :
  sizes_ok files → Safe (CheckPieceBoundarySafety files pl) = true → no_mixed_piece pl files.
Proof.
  intros [Hs Ht] [Hpl Hv]%CheckPieceBoundarySafety_safe i j f g Hi Hj Hp Hf Hg.
  destruct (Z.le_ge_cases i j).
  - eapply (no_violation_no_mixed pl files 0 i j); eauto; simpl; lia || done.
  - symmetry. eapply (no_violation_no_mixed pl files 0 j i); eauto; simpl; lia || done.
Qed.

(** C33. When the check passes no piece holds bytes of both a
    content file and an ignored one, whatever the sizes; and when no file is
    empty it passes exactly in that case. *)
Theorem piece_safety_exact (files : list TorrentFileForBoundaryCheck) (pieceLength : Z) :
  sizes_ok files →
  (Safe (CheckPieceBoundarySafety files pieceLength) = true → no_mixed_piece pieceLength files) ∧
  ((0 < pieceLength)%Z → Forall (λ f, 0 < bf_Size f)%Z files →
   Safe (CheckPieceBoundarySafety files pieceLength) = true ↔ no_mixed_piece pieceLength files).
Proof.
  intros Hok. split; [by apply safe_no_mixed|]. intros Hpl Hpos. split; [by apply safe_no_mixed|].
  intros Hmix. apply CheckPieceBoundarySafety_safe. split; [done|]. destruct Hok as [_ Ht].
  by apply no_mixed_no_violation.
Qed.

(** ** Missing files of a cross-seed *)

Lemma build_files_spec isIgnored info files ign :
  build_files (content_predicate isIgnored) info files ign =
  ((λ f, let p := boundary_path info f in MkBoundaryFile p (if_Length f) (negb (isIgnored p))) <$> files,
   ign || existsb (λ f, isIgnored (boundary_path info f)) files).
Proof.
  revert ign. induction files as [|f files IH]; intros ign; simpl; [by rewrite orb_false_r|].
  unfold content_predicate. destruct (isIgnored (boundary_path info f)) eqn:E; rewrite IH; simpl;
    by rewrite ?orb_true_r.
Qed.

(** The layout of a torrent: the paths and sizes of its files, in order. *)
Definition layout (info : Info) : list (string * Z) :=
  match info_Files info with
  | [] => [(info_Name info, info_Length info)]
  | files => (λ f, (boundary_path info f, if_Length f)) <$> files
  end.

Definition flagged (isIgnored : string → bool) (l : list (string * Z))
    : list TorrentFileForBoundaryCheck :=
  (λ f, MkBoundaryFile f.1 f.2 (negb (isIgnored f.1))) <$> l.

Lemma BuildFiles_spec isIgnored info :
  BuildFilesForBoundaryCheck (content_predicate isIgnored) (Some info) false =
  (flagged isIgnored (layout info), existsb isIgnored (layout info).*1).
Proof.
  unfold BuildFilesForBoundaryCheck, flagged, layout. destruct (info_Files info) as [|f files] eqn:E.
  - unfold content_predicate. simpl. by destruct (isIgnored (info_Name info)).
  - rewrite build_files_spec. f_equal; [by rewrite <- list_fmap_compose|].
    rewrite <- list_fmap_compose. generalize (f :: files). intros l. induction l as [|x l IH]; [done|]. simpl in *. by rewrite IH.
Qed.

(** The path of the file that holds byte [i]. *)
Fixpoint path_at (l : list (string * Z)) (i : Z) : option string :=
  match l with
  | [] => None
  | f :: l => if (i <? f.2)%Z then Some f.1 else path_at l (i - f.2)
  end.


Lemma file_at_flagged isIgnored l i p :
  path_at l i = Some p →
  p ∈ l.*1 ∧ ∃ f, file_at (flagged isIgnored l) i = Some f ∧ bf_IsContent f = negb (isIgnored p).
Proof.
  revert i. induction l as [|f l IH]; intros i; simpl; [done|].
  destruct (i <? f.2)%Z.
  - intros [= <-]. split; [by left|]. eauto.
  - intros Hp. destruct (IH _ Hp) as [? ?]. split; [by right|done].
Qed.

(** The sizes of a layout, as a valid torrent has them. *)
Definition layout_ok (l : list (string * Z)) : Prop := sizes_ok (flagged (λ _, false) l).

Lemma layout_ok_flagged isIgnored l : layout_ok l → sizes_ok (flagged isIgnored l).
Proof.
  intros [Hs Ht]. unfold flagged in *. split.
  - apply Forall_fmap. by apply (proj1 (Forall_fmap _ _ _)) in Hs.
  - etrans; [|exact Ht]. clear. induction l as [|f l IH]; [done|]. rewrite !fmap_cons, !total_size_cons. simpl in *. lia.
Qed.

Lemma extras_isolated isIgnored info i j p q :
  layout_ok (layout info) → (HasUnsafeIgnoredExtras (Some info) isIgnored).1 = false →
  (0 ≤ i)%Z → (0 ≤ j)%Z → (i / PieceLength info = j / PieceLength info)%Z →
  path_at (layout info) i = Some p → path_at (layout info) j = Some q →
  isIgnored p = isIgnored q.
Proof.
  intros Hok Hu Hi Hj Hpiece Hp Hq. unfold HasUnsafeIgnoredExtras in Hu. rewrite BuildFiles_spec in Hu.
  apply (file_at_flagged isIgnored) in Hp as (Hp & f & Hf & Ef).
  apply (file_at_flagged isIgnored) in Hq as (Hq & g & Hg & Eg).
  destruct (existsb isIgnored (layout info).*1) eqn:Hex; cbn [negb] in Hu.
  - cbn [fst] in Hu. apply negb_false_iff in Hu.
    pose proof (safe_no_mixed _ _ (layout_ok_flagged isIgnored _ Hok) Hu i j f g Hi Hj Hpiece Hf Hg).
    destruct (isIgnored p), (isIgnored q); simpl in *; congruence.
  - assert (∀ x, x ∈ (layout info).*1 → isIgnored x = false) as Hn.
    { intros x Hx. apply not_true_is_false. intros E. apply (eq_true_false_abs _ (proj2 (existsb_exists _ _)
        (ex_intro _ x (conj (proj1 (list_elem_of_In _ _) Hx) E))) Hex). }
    by rewrite !Hn.
Qed.

Section missing.
Context `{!UnicodeCase, !UnicodeTables}.

Lemma elem_of_unmaterialized sources candidates p :
  p ∈ unmaterializedSourceFilePaths sources candidates ↔
  p ∈ tf_Name <$> sources ∧
  p ∉ sourcePath <$> (matchMaterializedSourceFilesToCandidates sources candidates).1.
Proof.
  unfold unmaterializedSourceFilePaths.
  destruct (matchMaterializedSourceFilesToCandidates sources candidates) as [ms un].
  rewrite elem_of_list_to_set, list_elem_of_filter, elem_of_list_to_set. simpl. naive_solver.
Qed.
End missing.

(** When the check lets a cross-seed pass, no piece
    of the torrent holds bytes of both a source file no file on disk is paired
    with and another file: downloading the missing files cannot touch a piece
    of those that are there. *)
Theorem missing_files_isolated `{!UnicodeCase, !UnicodeTables} (info : Info)
    (sources candidates : list TorrentFile) :
  layout_ok (layout info) →
  (HasUnsafeUnmaterializedSourcePieces (Some info) sources candidates).1 = false →
  let missing p := p ∈ tf_Name <$> sources ∧
    p ∉ sourcePath <$> (matchMaterializedSourceFilesToCandidates sources candidates).1 in
  ∀ i j p q, (0 ≤ i)%Z → (0 ≤ j)%Z → (i / PieceLength info = j / PieceLength info)%Z →
    path_at (layout info) i = Some p → path_at (layout info) j = Some q →
    missing p → missing q.
Proof.
  intros Hok Hu missing i j p q Hi Hj Hpiece Hp Hq. unfold missing.
  rewrite <- !elem_of_unmaterialized. intros Hm. unfold HasUnsafeUnmaterializedSourcePieces in Hu.
  case_bool_decide as He; [by rewrite He in Hm; apply elem_of_empty in Hm|].
  pose proof (extras_isolated _ _ _ _ _ _ Hok Hu Hi Hj Hpiece Hp Hq) as E. simpl in E.
  rewrite bool_decide_true in E by done. symmetry in E. by apply bool_decide_eq_true in E.
Qed.

(** An ignored file of length zero between two content
    files is reported as unsafe when it does not fall on a piece boundary,
    although no byte of the torrent is ignored. *)
Theorem empty_file_reported (a b pl : Z) (before empty after : string) :
  (0 < pl)%Z → (0 < a ≤ max_i64)%Z → (0 ≤ b)%Z → (a mod pl ≠ 0)%Z →
  let files := [MkBoundaryFile before a true; MkBoundaryFile empty 0 false;
                MkBoundaryFile after b true] in
  Safe (CheckPieceBoundarySafety files pl) = false ∧
  ∀ i f, (0 ≤ i)%Z → file_at files i = Some f → bf_IsContent f = true.
Proof.
  intros Hpl Ha Hb Hm files. split.
  - apply not_true_is_false. intros [_ Hv]%CheckPieceBoundarySafety_safe.
    apply no_violation_cons in Hv as [_ [Hv|Hv]]; [done|by apply Hm|done|simpl; lia].
  - intros i f Hi. unfold files. cbn [file_at bf_Size].
    destruct (i <? a)%Z eqn:E1; [intros E; by simplify_eq|]. rewrite Z.sub_0_r.
    destruct (Z.ltb_spec (i - a) 0); [lia|]. destruct (i - a <? b)%Z; [intros E; by simplify_eq|done].
Qed.

(** ** Witnesses *)

Definition sample_info : Info :=
  MkTorrentInfo "Show" 0 [MkInfoFile "e1.mkv" 8; MkInfoFile "e1.nfo" 3; MkInfoFile "e2.mkv" 8] true 4.

Definition sample_layout_files : list TorrentFileForBoundaryCheck :=
  flagged (λ p, HasSuffix p ".nfo") (layout sample_info).

(** The second transition, at byte 11, is inside the piece of bytes 8 to 11. *)
Example sample_unsafe :
  CheckPieceBoundarySafety sample_layout_files 4 =
  MkSafety false "found 1 piece boundary violation(s) between content and ignored files"
    [MkViolation 11 2 8 12 "Show/e2.mkv" "Show/e1.nfo"].
Proof. by vm_compute. Qed.

Lemma sample_sizes_ok : sizes_ok sample_layout_files.
Proof. split; [repeat constructor; simpl; lia|by vm_compute]. Qed.

Lemma piece_safety_exact_witness : ¬ no_mixed_piece 4 sample_layout_files.
Proof.
  intros Hmix.
  assert (Safe (CheckPieceBoundarySafety sample_layout_files 4) = true) as Hs.
  { apply (piece_safety_exact sample_layout_files 4); [exact sample_sizes_ok|lia| |done].
    repeat constructor. }
  by vm_compute in Hs.
Defined.

(** A season pack on disk without the two sidecars of its last episode, which
    share a piece and start on a piece boundary. *)
Definition padded_info : Info :=
  MkTorrentInfo "Show" 0 [MkInfoFile "e1.mkv" 8; MkInfoFile "e2.mkv" 12; MkInfoFile "e2.nfo" 3;
    MkInfoFile "e2.srt" 5] true 4.

Definition pack_on_disk : list TorrentFile := [MkFile "Show/e1.mkv" 8; MkFile "Show/e2.mkv" 12].
Definition pack_sources : list TorrentFile :=
  pack_on_disk ++ [MkFile "Show/e2.nfo" 3; MkFile "Show/e2.srt" 5].

Lemma missing_files_isolated_witness :
  "Show/e2.srt" ∉ sourcePath <$>
    (@matchMaterializedSourceFilesToCandidates AsciiCase AsciiTables pack_sources pack_on_disk).1.
Proof.
  apply (@missing_files_isolated AsciiCase AsciiTables padded_info pack_sources pack_on_disk)
    with (i := 22%Z) (j := 23%Z) (p := "Show/e2.nfo"); [|by vm_compute|lia|lia|done|by vm_compute..|].
  - split; [repeat constructor; simpl; lia|by vm_compute].
  - split; apply (bool_decide_eq_true_1 _); by vm_compute.
Defined.

Lemma empty_file_reported_witness :
  Safe (CheckPieceBoundarySafety [MkBoundaryFile "a" 10 true; MkBoundaryFile "b" 0 false;
    MkBoundaryFile "c" 10 true] 4) = false.
Proof. by apply (empty_file_reported 10 10 4 "a" "b" "c"). Defined.
