(* ===== verification/Domain.v ===== *)
(** * [internal/transmissionqbt/domain.go]: torrents

    The record of a torrent as the rest of the program sees it, and its
    states. *)

From Stdlib Require Import ZArith.
From stdpp Require Import base numbers list strings.
From S2P Require Import Prelude.
From S2P Require Import GoFloat.

(** The type is a string: a server may send any. *)
Definition TorrentState : Type := string.

Definition TorrentStateError : TorrentState := "error".
Definition TorrentStateMissingFiles : TorrentState := "missingFiles".
Definition TorrentStateUploading : TorrentState := "uploading".
Definition TorrentStatePausedUp : TorrentState := "pausedUP".
Definition TorrentStateStoppedUp : TorrentState := "stoppedUP".
Definition TorrentStateQueuedUp : TorrentState := "queuedUP".
Definition TorrentStateStalledUp : TorrentState := "stalledUP".
Definition TorrentStateCheckingUp : TorrentState := "checkingUP".
Definition TorrentStateForcedUp : TorrentState := "forcedUP".
Definition TorrentStateAllocating : TorrentState := "allocating".
Definition TorrentStateDownloading : TorrentState := "downloading".
Definition TorrentStateMetaDl : TorrentState := "metaDL".
Definition TorrentStatePausedDl : TorrentState := "pausedDL".
Definition TorrentStateStoppedDl : TorrentState := "stoppedDL".
Definition TorrentStateQueuedDl : TorrentState := "queuedDL".
Definition TorrentStateStalledDl : TorrentState := "stalledDL".
Definition TorrentStateCheckingDl : TorrentState := "checkingDL".
Definition TorrentStateForcedDl : TorrentState := "forcedDL".
Definition TorrentStateCheckingResumeData : TorrentState := "checkingResumeData".
Definition TorrentStateMoving : TorrentState := "moving".
Definition TorrentStateUnknown : TorrentState := "unknown".

Definition TrackerStatusDisabled : Z := 0.
Definition TrackerStatusNotContacted : Z := 1.
Definition TrackerStatusOK : Z := 2.
Definition TrackerStatusUpdating : Z := 3.
Definition TrackerStatusNotWorking : Z := 4.
Definition TrackerStatusTrackerError : Z := 5.
Definition TrackerStatusUnreachable : Z := 6.

Record TorrentTracker := MkTracker {
  tt_Url : string; tt_Status : Z; tt_NumPeers : Z; tt_NumSeeds : Z; tt_NumLeechers : Z;
  tt_NumDownloaded : Z; tt_Message : string }.

Record Torrent := MkTorrent {
  t_AddedOn : Z; t_AmountLeft : Z; t_AutoManaged : bool; t_Availability : float64;
  t_Category : string; t_Comment : string; t_Completed : Z; t_CompletionOn : Z;
  t_CreatedBy : string; t_ContentPath : string; t_DlLimit : Z; t_DlSpeed : Z;
  t_DownloadPath : string; t_Downloaded : Z; t_DownloadedSession : Z; t_ETA : Z;
  t_FirstLastPiecePrio : bool; t_ForceStart : bool; t_Hash : string; t_InfohashV1 : string;
  t_InfohashV2 : string; t_Popularity : float64; t_Private : bool; t_LastActivity : Z;
  t_MagnetURI : string; t_MaxRatio : float64; t_MaxSeedingTime : Z; t_MaxInactiveSeedingTime : Z;
  t_Name : string; t_NumComplete : Z; t_NumIncomplete : Z; t_NumLeechs : Z; t_NumSeeds : Z;
  t_Priority : Z; t_Progress : float64; t_Ratio : float64; t_RatioLimit : float64;
  t_Reannounce : Z; t_SavePath : string; t_SeedingTime : Z; t_SeedingTimeLimit : Z;
  t_InactiveSeedingTimeLimit : Z; t_ShareLimitAction : string; t_ShareLimitsMode : string;
  t_SeenComplete : Z; t_SequentialDownload : bool; t_Size : Z; t_State : TorrentState;
  t_SuperSeeding : bool; t_Tags : string; t_TimeActive : Z; t_TotalSize : Z; t_Tracker : string;
  t_TrackersCount : Z; t_UpLimit : Z; t_Uploaded : Z; t_UploadedSession : Z; t_UpSpeed : Z;
  t_Trackers : list TorrentTracker }.

(** The zero value. *)
Definition zero_torrent : Torrent :=
  MkTorrent 0 0 false f64_zero "" "" 0 0 "" "" 0 0 "" 0 0 0 false false "" "" "" f64_zero false
    0 "" f64_zero 0 0 "" 0 0 0 0 0 f64_zero f64_zero f64_zero 0 "" 0 0 0 "" "" 0 false 0 ""
    false "" 0 0 "" 0 0 0 0 0 [].

(** Whether the torrent is in a paused or stopped state. *)
Definition is_paused_state (s : TorrentState) : bool :=
  bool_decide (s ∈ [TorrentStatePausedUp; TorrentStatePausedDl; TorrentStateStoppedUp; TorrentStateStoppedDl]).
