(* ===== verification/Automation.v ===== *)
(** * [internal/models/automation.go]: automation rules

    The data model of the rules: condition trees, the actions a rule takes and
    the configuration of the order in which torrents are considered, with
    their validation and normalisation. *)

From Stdlib Require Import ZArith Lia Ascii.
From stdpp Require Import base numbers list strings pretty gmap.
From S2P Require Import Prelude.
From S2P Require Import GoStrings.
From S2P Require Import GoFloat.

Open Scope qui_scope.

(** Both types are strings: a rule read from the database may hold any. *)
Definition ConditionField : Type := string.
Definition ConditionOperator : Type := string.

Definition FieldName : ConditionField := "NAME".
Definition FieldHash : ConditionField := "HASH".
Definition FieldInfohashV1 : ConditionField := "INFOHASH_V1".
Definition FieldInfohashV2 : ConditionField := "INFOHASH_V2".
Definition FieldMagnetURI : ConditionField := "MAGNET_URI".
Definition FieldCategory : ConditionField := "CATEGORY".
Definition FieldTags : ConditionField := "TAGS".
Definition FieldSavePath : ConditionField := "SAVE_PATH".
Definition FieldContentPath : ConditionField := "CONTENT_PATH".
Definition FieldDownloadPath : ConditionField := "DOWNLOAD_PATH".
Definition FieldCreatedBy : ConditionField := "CREATED_BY".
Definition FieldTrackers : ConditionField := "TRACKERS".
Definition FieldContentType : ConditionField := "CONTENT_TYPE".
Definition FieldEffectiveName : ConditionField := "EFFECTIVE_NAME".
Definition FieldRlsSource : ConditionField := "RLS_SOURCE".
Definition FieldRlsResolution : ConditionField := "RLS_RESOLUTION".
Definition FieldRlsCodec : ConditionField := "RLS_CODEC".
Definition FieldRlsHDR : ConditionField := "RLS_HDR".
Definition FieldRlsAudio : ConditionField := "RLS_AUDIO".
Definition FieldRlsChannels : ConditionField := "RLS_CHANNELS".
Definition FieldRlsGroup : ConditionField := "RLS_GROUP".
Definition FieldState : ConditionField := "STATE".
Definition FieldTracker : ConditionField := "TRACKER".
Definition FieldComment : ConditionField := "COMMENT".
Definition FieldSize : ConditionField := "SIZE".
Definition FieldTotalSize : ConditionField := "TOTAL_SIZE".
Definition FieldCompleted : ConditionField := "COMPLETED".
Definition FieldDownloaded : ConditionField := "DOWNLOADED".
Definition FieldDownloadedSession : ConditionField := "DOWNLOADED_SESSION".
Definition FieldUploaded : ConditionField := "UPLOADED".
Definition FieldUploadedSession : ConditionField := "UPLOADED_SESSION".
Definition FieldAmountLeft : ConditionField := "AMOUNT_LEFT".
Definition FieldFreeSpace : ConditionField := "FREE_SPACE".
Definition FieldAddedOn : ConditionField := "ADDED_ON".
Definition FieldCompletionOn : ConditionField := "COMPLETION_ON".
Definition FieldLastActivity : ConditionField := "LAST_ACTIVITY".
Definition FieldSeenComplete : ConditionField := "SEEN_COMPLETE".
Definition FieldETA : ConditionField := "ETA".
Definition FieldReannounce : ConditionField := "REANNOUNCE".
Definition FieldSeedingTime : ConditionField := "SEEDING_TIME".
Definition FieldTimeActive : ConditionField := "TIME_ACTIVE".
Definition FieldMaxSeedingTime : ConditionField := "MAX_SEEDING_TIME".
Definition FieldMaxInactiveSeedingTime : ConditionField := "MAX_INACTIVE_SEEDING_TIME".
Definition FieldSeedingTimeLimit : ConditionField := "SEEDING_TIME_LIMIT".
Definition FieldInactiveSeedingTimeLimit : ConditionField := "INACTIVE_SEEDING_TIME_LIMIT".
Definition FieldAddedOnAge : ConditionField := "ADDED_ON_AGE".
Definition FieldCompletionOnAge : ConditionField := "COMPLETION_ON_AGE".
Definition FieldLastActivityAge : ConditionField := "LAST_ACTIVITY_AGE".
Definition FieldRatio : ConditionField := "RATIO".
Definition FieldRatioLimit : ConditionField := "RATIO_LIMIT".
Definition FieldMaxRatio : ConditionField := "MAX_RATIO".
Definition FieldUploadedOverSize : ConditionField := "UPLOADED_OVER_SIZE".
Definition FieldProgress : ConditionField := "PROGRESS".
Definition FieldAvailability : ConditionField := "AVAILABILITY".
Definition FieldPopularity : ConditionField := "POPULARITY".
Definition FieldDlSpeed : ConditionField := "DL_SPEED".
Definition FieldUpSpeed : ConditionField := "UP_SPEED".
Definition FieldDlLimit : ConditionField := "DL_LIMIT".
Definition FieldUpLimit : ConditionField := "UP_LIMIT".
Definition FieldNumSeeds : ConditionField := "NUM_SEEDS".
Definition FieldNumLeechs : ConditionField := "NUM_LEECHS".
Definition FieldNumComplete : ConditionField := "NUM_COMPLETE".
Definition FieldNumIncomplete : ConditionField := "NUM_INCOMPLETE".
Definition FieldTrackersCount : ConditionField := "TRACKERS_COUNT".
Definition FieldPriority : ConditionField := "PRIORITY".
Definition FieldGroupSize : ConditionField := "GROUP_SIZE".
Definition FieldPrivate : ConditionField := "PRIVATE".
Definition FieldAutoManaged : ConditionField := "AUTO_MANAGED".
Definition FieldFirstLastPiecePrio : ConditionField := "FIRST_LAST_PIECE_PRIO".
Definition FieldForceStart : ConditionField := "FORCE_START".
Definition FieldSequentialDownload : ConditionField := "SEQUENTIAL_DOWNLOAD".
Definition FieldSuperSeeding : ConditionField := "SUPER_SEEDING".
Definition FieldIsUnregistered : ConditionField := "IS_UNREGISTERED".
Definition FieldHasMissingFiles : ConditionField := "HAS_MISSING_FILES".
Definition FieldIsGrouped : ConditionField := "IS_GROUPED".
Definition FieldExistsOnOtherInstance : ConditionField := "EXISTS_ON_OTHER_INSTANCE".
Definition FieldSeedingOnOtherInstance : ConditionField := "SEEDING_ON_OTHER_INSTANCE".
Definition FieldExistsOnSameInstance : ConditionField := "EXISTS_ON_SAME_INSTANCE".
Definition FieldSeedingOnSameInstance : ConditionField := "SEEDING_ON_SAME_INSTANCE".
Definition FieldSystemHour : ConditionField := "SYSTEM_HOUR".
Definition FieldSystemMinute : ConditionField := "SYSTEM_MINUTE".
Definition FieldSystemDayOfWeek : ConditionField := "SYSTEM_DAY_OF_WEEK".
Definition FieldSystemDay : ConditionField := "SYSTEM_DAY".
Definition FieldSystemMonth : ConditionField := "SYSTEM_MONTH".
Definition FieldSystemYear : ConditionField := "SYSTEM_YEAR".
Definition FieldHardlinkScope : ConditionField := "HARDLINK_SCOPE".
Definition FieldHardlinkScopeCross : ConditionField := "HARDLINK_SCOPE_CROSS".

Definition numeric_fields : list ConditionField :=
   [FieldSize; FieldTotalSize; FieldDownloaded; FieldUploaded; FieldAmountLeft;
    FieldFreeSpace; FieldAddedOn; FieldCompletionOn; FieldLastActivity; FieldSeedingTime;
    FieldTimeActive; FieldAddedOnAge; FieldCompletionOnAge; FieldLastActivityAge;
    FieldRatio; FieldProgress; FieldAvailability; FieldDlSpeed; FieldUpSpeed; FieldNumSeeds;
    FieldNumLeechs; FieldNumComplete; FieldNumIncomplete; FieldTrackersCount;
    FieldSystemHour; FieldSystemMinute; FieldSystemDayOfWeek; FieldSystemDay;
    FieldSystemMonth; FieldSystemYear].

Definition IsNumeric (f : ConditionField) : bool := bool_decide (f ∈ numeric_fields).

Definition string_fields : list ConditionField :=
   [FieldName; FieldCategory; FieldTags; FieldTracker; FieldState; FieldSavePath;
    FieldContentPath; FieldComment].

Definition IsString (f : ConditionField) : bool := bool_decide (f ∈ string_fields).

Definition OperatorAnd : ConditionOperator := "AND".
Definition OperatorOr : ConditionOperator := "OR".
Definition OperatorEqual : ConditionOperator := "EQUAL".
Definition OperatorNotEqual : ConditionOperator := "NOT_EQUAL".
Definition OperatorContains : ConditionOperator := "CONTAINS".
Definition OperatorNotContains : ConditionOperator := "NOT_CONTAINS".
Definition OperatorStartsWith : ConditionOperator := "STARTS_WITH".
Definition OperatorEndsWith : ConditionOperator := "ENDS_WITH".
Definition OperatorGreaterThan : ConditionOperator := "GREATER_THAN".
Definition OperatorGreaterThanOrEqual : ConditionOperator := "GREATER_THAN_OR_EQUAL".
Definition OperatorLessThan : ConditionOperator := "LESS_THAN".
Definition OperatorLessThanOrEqual : ConditionOperator := "LESS_THAN_OR_EQUAL".
Definition OperatorBetween : ConditionOperator := "BETWEEN".
Definition OperatorMatches : ConditionOperator := "MATCHES".
Definition OperatorExistsIn : ConditionOperator := "EXISTS_IN".
Definition OperatorContainsIn : ConditionOperator := "CONTAINS_IN".

Definition HardlinkScopeNone : string := "none".
Definition HardlinkScopeTorrentsOnly : string := "torrents_only".
Definition HardlinkScopeOutsideQBitTorrent : string := "outside_qbittorrent".

(** A condition.  A child may be nil.  The field [Compiled] of the source is a
    cache of the pattern compiled from [Value] and is not represented. *)
#[local] Unset Elimination Schemes.
Inductive RuleCondition : Type :=
| MkCondition (Field : ConditionField) (Operator : ConditionOperator) (GroupID Value : string)
    (MinValue MaxValue : option float64) (Regex Negate : bool)
    (Conditions : list (option RuleCondition)).
#[local] Set Elimination Schemes.

Definition rc_Field (c : RuleCondition) := let '(MkCondition f _ _ _ _ _ _ _ _) := c in f.
Definition rc_Operator (c : RuleCondition) := let '(MkCondition _ o _ _ _ _ _ _ _) := c in o.
Definition rc_GroupID (c : RuleCondition) := let '(MkCondition _ _ g _ _ _ _ _ _) := c in g.
Definition rc_Value (c : RuleCondition) := let '(MkCondition _ _ _ v _ _ _ _ _) := c in v.
Definition rc_MinValue (c : RuleCondition) := let '(MkCondition _ _ _ _ m _ _ _ _) := c in m.
Definition rc_MaxValue (c : RuleCondition) := let '(MkCondition _ _ _ _ _ m _ _ _) := c in m.
Definition rc_Regex (c : RuleCondition) := let '(MkCondition _ _ _ _ _ _ r _ _) := c in r.
Definition rc_Negate (c : RuleCondition) := let '(MkCondition _ _ _ _ _ _ _ n _) := c in n.
Definition rc_Conditions (c : RuleCondition) := let '(MkCondition _ _ _ _ _ _ _ _ l) := c in l.

(** Induction with the hypothesis for every child that is not nil. *)
Definition on_child (P : RuleCondition → Prop) (c : option RuleCondition) : Prop :=
  match c with Some c => P c | None => True end.

Fixpoint RuleCondition_tree_ind (P : RuleCondition → Prop)
    (step : ∀ c, Forall (on_child P) (rc_Conditions c) → P c) (c : RuleCondition) : P c.
Proof.
  destruct c as [f o g v mi ma r n l]. apply step. simpl.
  induction l as [|[c|] l IH]; constructor; simpl; [|exact IH|exact I|exact IH].
  exact (RuleCondition_tree_ind P step c).
Defined.

Definition IsGroup (c : RuleCondition) : bool :=
  negb (bool_decide (rc_Conditions c = [])) &&
  (bool_decide (rc_Operator c = OperatorAnd) || bool_decide (rc_Operator c = OperatorOr)).

(** ** Sorting *)

Definition ScoreRuleTypeFieldMultiplier : string := "field_multiplier".
Definition ScoreRuleTypeConditional : string := "conditional".
Definition SortDirectionASC : string := "ASC".
Definition SortDirectionDESC : string := "DESC".
Definition SortingTypeSimple : string := "simple".
Definition SortingTypeScore : string := "score".

Record FieldMultiplierScoreRule := MkFieldMultiplier {
  fm_Field : ConditionField; fm_Multiplier : float64 }.
Record ConditionalScoreRule := MkConditional {
  cn_Condition : option RuleCondition; cn_Score : float64 }.
Record ScoreRule := MkScoreRule {
  sr_Type : string; sr_FieldMultiplier : option FieldMultiplierScoreRule;
  sr_Conditional : option ConditionalScoreRule }.
Record SortingConfig := MkSortingConfig {
  sc_SchemaVersion : string; sc_Type : string; sc_Direction : string; sc_Field : ConditionField;
  sc_ScoreRules : list ScoreRule }.

Definition nat_string (n : nat) : string := pretty (N.of_nat n).

(** The check of score rule number [i]. *)
Definition validate_score_rule (i : nat) (r : ScoreRule) : result unit :=
  let msg m := Err ("score rule " +++ nat_string i +++ ": " +++ m) in
  if bool_decide (sr_Type r = ScoreRuleTypeFieldMultiplier) then
    match sr_FieldMultiplier r with
    | None => msg "content missing for field multiplier"
    | Some fm =>
      if bool_decide (fm_Field fm = "") then msg "field required for field multiplier"
      else if negb (IsNumeric (fm_Field fm))
      then Err ("field multiplier requires numeric field, got: " +++ fm_Field fm)
      else Ok tt
    end
  else if bool_decide (sr_Type r = ScoreRuleTypeConditional) then
    match sr_Conditional r with
    | None => msg "content missing for conditional"
    | Some cn => match cn_Condition cn with
                 | None => msg "condition missing"
                 | Some _ => Ok tt
                 end
    end
  else msg ("unknown type " +++ sr_Type r).

(** The loop over the score rules; the first failure is returned. *)
Fixpoint validate_rules (check : nat → ScoreRule → result unit) (i : nat) (rules : list ScoreRule)
    : result unit :=
  match rules with
  | [] => Ok tt
  | r :: rules => let! _ := check i r in validate_rules check (S i) rules
  end.

Definition SortingConfig_Validate (c : option SortingConfig) : result unit :=
  match c with
  | None => Ok tt
  | Some c =>
    if negb (bool_decide (sc_SchemaVersion c = "1"))
    then Err ("invalid schema version: " +++ sc_SchemaVersion c)
    else if bool_decide (sc_Direction c = "") then Err "direction is required"
    else if negb (bool_decide (sc_Direction c = SortDirectionASC)) &&
            negb (bool_decide (sc_Direction c = SortDirectionDESC))
    then Err ("invalid direction: " +++ sc_Direction c)
    else if bool_decide (sc_Type c = SortingTypeSimple) then
      if bool_decide (sc_Field c = "") then Err "simple sort requires field"
      else if negb (IsNumeric (sc_Field c)) && negb (IsString (sc_Field c))
      then Err ("unknown sort field: " +++ sc_Field c) else Ok tt
    else if bool_decide (sc_Type c = SortingTypeScore) then
      if bool_decide (sc_ScoreRules c = []) then Err "score sort requires at least one rule"
      else validate_rules validate_score_rule 0 (sc_ScoreRules c)
    else if bool_decide (sc_Type c = "") then Err "sorting config type is required"
    else Err ("unknown sorting type: " +++ sc_Type c)
  end.

(** ** Actions *)

Record SpeedLimitAction := MkSpeedLimitAction {
  sl_Enabled : bool; sl_UploadKiB : option Z; sl_DownloadKiB : option Z;
  sl_Condition : option RuleCondition }.
Record ShareLimitsAction := MkShareLimitsAction {
  sh_Enabled : bool; sh_RatioLimit : option float64; sh_SeedingTimeMinutes : option Z;
  sh_ShareLimitAction : option string; sh_ShareLimitsMode : option string;
  sh_Condition : option RuleCondition }.
Record PauseAction := MkPauseAction { pa_Enabled : bool; pa_Condition : option RuleCondition }.
Record ResumeAction := MkResumeAction { ra_Enabled : bool; ra_Condition : option RuleCondition }.
Record RecheckAction := MkRecheckAction { ca_Enabled : bool; ca_Condition : option RuleCondition }.
Record ReannounceAction := MkReannounceAction {
  na_Enabled : bool; na_Condition : option RuleCondition }.
Record AutoManagementAction := MkAutoManagementAction {
  am_Enabled : bool; am_Condition : option RuleCondition }.
Record DeleteAction := MkDeleteAction {
  da_Enabled : bool; da_Mode : string; da_IncludeHardlinks : bool; da_GroupID : string;
  da_Atomic : string; da_Condition : option RuleCondition }.
Record TagAction := MkTagAction {
  ta_Enabled : bool; ta_Tags : list string; ta_Mode : string; ta_DeleteFromClient : bool;
  ta_UseTrackerAsTag : bool; ta_UseDisplayName : bool; ta_Condition : option RuleCondition }.
Record CategoryAction := MkCategoryAction {
  ct_Enabled : bool; ct_Category : string; ct_IncludeCrossSeeds : bool; ct_GroupID : string;
  ct_BlockIfCrossSeedInCategories : list string; ct_Condition : option RuleCondition }.
Record MoveAction := MkMoveAction {
  mv_Enabled : bool; mv_Path : string; mv_BlockIfCrossSeed : bool; mv_GroupID : string;
  mv_Atomic : string; mv_Condition : option RuleCondition }.
Record GroupDefinition := MkGroupDefinition {
  gd_ID : string; gd_Keys : list string; gd_AmbiguousPolicy : string;
  gd_MinFileOverlapPercent : Z }.
Record GroupingConfig := MkGroupingConfig {
  gc_DefaultGroupID : string; gc_Groups : list GroupDefinition }.
Record ExternalProgramAction := MkExternalProgramAction {
  ep_Enabled : bool; ep_ProgramID : Z; ep_Condition : option RuleCondition }.
Record ExportToInstanceAction := MkExportToInstanceAction {
  ex_Enabled : bool; ex_TargetInstanceID : Z; ex_SavePath : string; ex_Category : string;
  ex_Tags : list string; ex_Paused : bool; ex_SkipChecking : option bool;
  ex_ContentLayout : string; ex_Condition : option RuleCondition }.

Definition ExternalProgramAction_Validate (a : option ExternalProgramAction) : result unit :=
  match a with
  | Some a => if ep_Enabled a && (ep_ProgramID a <=? 0)%Z
              then Err "enabled external program action requires valid programId" else Ok tt
  | None => Ok tt
  end.

Definition SkipCheckingEnabled (a : ExportToInstanceAction) : bool :=
  default true (ex_SkipChecking a).

Definition ExportToInstanceAction_Validate (a : option ExportToInstanceAction) : result unit :=
  match a with
  | Some a => if ex_Enabled a && (ex_TargetInstanceID a <=? 0)%Z
              then Err "enabled export to instance action requires valid targetInstanceId"
              else Ok tt
  | None => Ok tt
  end.

Definition TagModeFull : string := "full".
Definition TagModeAdd : string := "add".
Definition TagModeRemove : string := "remove".

Record ActionConditions := MkActionConditions {
  ac_SchemaVersion : string; ac_Grouping : option GroupingConfig;
  ac_SpeedLimits : option SpeedLimitAction; ac_ShareLimits : option ShareLimitsAction;
  ac_Pause : option PauseAction; ac_Resume : option ResumeAction;
  ac_Recheck : option RecheckAction; ac_Reannounce : option ReannounceAction;
  ac_Delete : option DeleteAction; ac_Tag : option TagAction; ac_Tags : list (option TagAction);
  ac_Category : option CategoryAction; ac_Move : option MoveAction;
  ac_ExternalProgram : option ExternalProgramAction;
  ac_AutoManagement : option AutoManagementAction;
  ac_ExportToInstance : option ExportToInstanceAction }.

Definition TagActions (ac : option ActionConditions) : list (option TagAction) :=
  match ac with
  | None => []
  | Some ac =>
    if negb (bool_decide (ac_Tags ac = [])) then ac_Tags ac
    else match ac_Tag ac with Some t => [Some t] | None => [] end
  end.

Definition is_nil {A} (o : option A) : bool := match o with Some _ => false | None => true end.

Definition IsEmpty (ac : option ActionConditions) : bool :=
  match ac with
  | None => true
  | Some a =>
    is_nil (ac_SpeedLimits a) && is_nil (ac_ShareLimits a) && is_nil (ac_Pause a) &&
    is_nil (ac_Resume a) && is_nil (ac_Recheck a) && is_nil (ac_Reannounce a) &&
    is_nil (ac_Delete a) && bool_decide (TagActions ac = []) && is_nil (ac_Category a) &&
    is_nil (ac_Move a) && is_nil (ac_ExternalProgram a) && is_nil (ac_AutoManagement a) &&
    is_nil (ac_ExportToInstance a)
  end.

Definition with_tags (a : ActionConditions) (tag : option TagAction)
    (tags : list (option TagAction)) : ActionConditions :=
  MkActionConditions (ac_SchemaVersion a) (ac_Grouping a) (ac_SpeedLimits a) (ac_ShareLimits a)
    (ac_Pause a) (ac_Resume a) (ac_Recheck a) (ac_Reannounce a) (ac_Delete a) tag tags
    (ac_Category a) (ac_Move a) (ac_ExternalProgram a) (ac_AutoManagement a)
    (ac_ExportToInstance a).

(** [Normalize] updates the two tag fields in place. *)
Definition Normalize_actions (ac : option ActionConditions) : option ActionConditions :=
  match ac with
  | None => None
  | Some a =>
    let tags := if bool_decide (ac_Tags a = []) && negb (is_nil (ac_Tag a)) then [ac_Tag a]
                else ac_Tags a in
    let normalized := filter (λ t, is_nil t = false) tags in
    Some (with_tags a (match normalized with t :: _ => t | [] => ac_Tag a end) normalized)
  end.

(** ** Rules *)

Definition FreeSpaceSourceQBittorrent : string := "qbittorrent".
Definition FreeSpaceSourcePath : string := "path".
Record FreeSpaceSource := MkFreeSpaceSource { fs_Type : string; fs_Path : string }.

(** A rule, without the time stamps of the row that stores it. *)
Record Automation := MkAutomation {
  au_ID : Z; au_InstanceID : Z; au_Name : string; au_TrackerPattern : string;
  au_TrackerDomains : list string; au_Conditions : option ActionConditions;
  au_FreeSpaceSource : option FreeSpaceSource; au_SortingConfig : option SortingConfig;
  au_Enabled : bool; au_DryRun : bool; au_Notify : bool; au_SortOrder : Z;
  au_IntervalSeconds : option Z }.

Definition is_pattern_separator (a : ascii) : bool :=
  bool_decide (a = ","%char) || bool_decide (a = ";"%char) || bool_decide (a = "|"%char).

(** The loop keeps the first occurrence of each part, trimmed. *)
Definition split_step (acc : gset string * list string) (raw : string)
    : gset string * list string :=
  let p := TrimSpace raw in
  if bool_decide (p = "") then acc
  else if bool_decide (p ∈ acc.1) then acc
  else ({[p]} ∪ acc.1, acc.2 ++ [p]).

Definition splitPatterns (pattern : string) : list string :=
  if bool_decide (pattern = "") then [] else
  (foldl split_step (∅, []) (FieldsFunc pattern is_pattern_separator)).2.

Definition normalizeTrackerPattern (pattern : string) (domains : list string) : string :=
  let pattern := if bool_decide (domains = []) then pattern else Join domains "," in
  let pattern := TrimSpace pattern in
  if bool_decide (pattern = "") then "" else
  let parts := splitPatterns pattern in
  if bool_decide (parts = []) then "" else Join parts ",".

(** The part of [Create] and [Update] before the database: what they store, or
    the error they return. *)
Definition prepare_rule (a : option Automation) : result Automation :=
  match a with
  | None => Err "automation is nil"
  | Some a =>
    let conditions := Normalize_actions (au_Conditions a) in
    if IsEmpty conditions then Err "automation must have conditions" else
    let wrap (prefix : string) (r : result unit) : result unit :=
      match r with Err e => Err (prefix +++ e) | ok => ok end in
    let! _ := wrap "invalid external program action: "
                (ExternalProgramAction_Validate (conditions ≫= ac_ExternalProgram)) in
    let! _ := wrap "invalid export to instance action: "
                (ExportToInstanceAction_Validate (conditions ≫= ac_ExportToInstance)) in
    let! _ := wrap "invalid sorting config: " (SortingConfig_Validate (au_SortingConfig a)) in
    Ok (MkAutomation (au_ID a) (au_InstanceID a) (au_Name a)
          (normalizeTrackerPattern (au_TrackerPattern a) (au_TrackerDomains a))
          (au_TrackerDomains a) conditions (au_FreeSpaceSource a) (au_SortingConfig a)
          (au_Enabled a) (au_DryRun a) (au_Notify a) (au_SortOrder a) (au_IntervalSeconds a))
  end.
