(* ===== verification/Conditions.v ===== *)
(** * [internal/services/automations/evaluator.go]: evaluating conditions

    A rule applies to a torrent when its condition tree holds of it.  This
    file models the evaluation of the trees, the comparison operators of every
    kind of field, the look-up of torrents by category, the fields derived
    from the release name (release_fields.go), and the projection of free
    space that the conditions read. *)

From Stdlib Require Import ZArith Lia Ascii SpecFloat.
From stdpp Require Import base numbers list strings pretty gmap.
From S2P Require Import Prelude.
From S2P Require Import GoStrings.
From S2P Require Import GoFloat.
From S2P Require Import Normalizer.
From S2P Require Import UnicodeText.
From S2P Require Import Domain.
From S2P Require Import Automation.

Open Scope qui_scope.

(** ** What is not defined here *)

(** The fields of [rls.Release] that are read. *)
Record Release := MkRelease {
  r_Title : string; r_Series : Z; r_Episode : Z; r_Year : Z; r_Source : string;
  r_Resolution : string; r_Codec : list string; r_HDR : list string; r_Audio : list string;
  r_Channels : string; r_Group : string }.

Definition empty_release : Release := MkRelease "" 0 0 0 "" "" [] [] [] "" "".

(** The parts of a time in the zone of the server. *)
Record CivilTime := MkCivil {
  Hour : Z; Minute : Z; Weekday : Z; Day : Z; Month : Z; Year : Z }.

(** Regular expressions, floating-point text, network names and time zones:
    [regexp_compile] is [regexp.Compile] with the match of a compiled pattern,
    [ParseFloat] is [None] on an error, [url_hostname] is the host of
    [url.Parse], [SplitHostPort] the host it returns, [ParseIP] whether the
    address is one; [time_Now] is the clock, in Unix seconds.  The release
    parser is [ReleaseParser.Parse], and [DetermineContentType] is that of
    pkg/releases.  [path_Match] is [path.Match], [None] on a bad pattern, and
    [map_order] is the order in which Go ranges over maps. *)
Class Library := {
  regexp_compile : string → option (string → bool);
  ParseFloat : string → option float64;
  FormatFloat : float64 → string;
  url_hostname : string → option string;
  SplitHostPort : string → option string;
  ParseIP : string → bool;
  time_Now : Z;
  civil_time : Z → CivilTime;
  parse_release : string → Release;
  DetermineContentType : Release → string;
  path_Match : string → string → option bool;
  map_order : MapRange;
}.

(** ** normalizers.go *)

Section normalizers.
Context `{!UnicodeCase}.

Definition normalizeLower (s : string) : string := ToLower s.

Definition normalizePathInner (p : string) : string :=
  if bool_decide (p = "") then "" else
  TrimSuffix (ReplaceByte "\"%char "/"%char (ToLower p)) "/".

(** [normalizePath] is [normalizePathInner] behind a transparent cache. *)
Definition normalizePath (p : string) : string := normalizePathInner p.

(** [crossSeedKey]: the normalised content and save paths. *)
Definition crossSeedKey : Type := string * string.

Definition makeCrossSeedKey (t : Torrent) : option crossSeedKey :=
  let contentPath := normalizePath (t_ContentPath t) in
  let savePath := normalizePath (t_SavePath t) in
  if bool_decide (contentPath = "") || bool_decide (savePath = "") then None
  else Some (contentPath, savePath).

(** [separatorReplacer] *)
Definition separatorReplacer (s : string) : string :=
  map_bytes (λ a, if bool_decide (a ∈ ["."%char; "_"%char; "-"%char]) then " "%char else a) s.

(** The class [\s] of a regular expression. *)
Definition is_regexp_space (a : ascii) : bool :=
  ((byte a =? 9) || (byte a =? 10) || (byte a =? 12) || (byte a =? 13) || (byte a =? 32))%Z.

(** Runs of white space become one space; [in_run] is set inside a run. *)
Fixpoint collapse_spaces (in_run : bool) (l : bytes) : bytes :=
  match l with
  | [] => []
  | a :: l =>
    if is_regexp_space a then (if in_run then [] else [" "%char]) ++ collapse_spaces true l
    else a :: collapse_spaces false l
  end.

Definition whitespaceCollapser (s : string) : string :=
  of_bytes (collapse_spaces false (to_bytes s)).

Definition normalizeName (s : string) : string :=
  TrimSpace (whitespaceCollapser (separatorReplacer (normalizeLower s))).
End normalizers.

(** ** The context *)

Definition maxConditionDepth : nat := 20.
Definition minContainsNameLength : nat := 10.

Record categoryEntry := MkCategoryEntry {
  cg_Hash : string; cg_Name : string; cg_NormalizedName : string }.

(** The free-space state of one source.  A nil map differs from an empty one:
    nothing is counted in it. *)
Record FreeSpaceSourceState := MkSpaceState {
  fs_FreeSpace : Z; fs_SpaceToClear : Z; fs_FilesToClear : option (gset crossSeedKey);
  fs_HardlinkSignaturesToClear : option (gset string) }.

(** A grouping of the torrents (grouping.go). *)
Record groupIndex := MkGroupIndex {
  gi_groupID : string; gi_keyByHash : gmap string string;
  gi_hashesByKey : gmap string (list string); gi_sizeByHash : gmap string Z;
  gi_ambiguousKeys : gset string }.

Record groupingConditionUsage := MkUsage { us_groupIDs : list string; us_hasUnscoped : bool }.

(** The fields of [EvalContext] that evaluation only reads.  Where the code
    treats a nil map as an empty one, a map stands for both. *)
Record EvalFacts := MkFacts {
  UnregisteredSet : option (gset string); TrackerDownSet : gset string;
  TrackerErrorSet : gset string; HardlinkScopeByHash : gmap string string;
  HardlinkCrossScopeByHash : gmap string string; HasMissingFilesByHash : gmap string bool;
  InstanceHasLocalAccess : bool; HardlinkSignatureByHash : gmap string string;
  DeleteSafeHardlinkSignatureByHash : gmap string string;
  CategoryIndex : gmap string (gmap string (gset string));
  CategoryNames : gmap string (list categoryEntry); NowUnix : Z;
  CrossInstanceHashSet : gset string; CrossInstanceSeedingHashSet : gset string;
  SameInstanceCrossSeedHashSet : gset string; SameInstanceCrossSeedSeedingHashSet : gset string;
  TrackerDisplayNameByDomain : gmap string string; has_ReleaseParser : bool }.

(** The free-space fields: the state of the source that is active, and the
    states kept per rule. *)
Record EvalSpace := MkSpace {
  es_active : FreeSpaceSourceState; FreeSpaceStates : option (gmap string FreeSpaceSourceState);
  ActiveFreeSpaceSource : string }.

(** The grouping fields. *)
Record EvalGroups := MkGroups {
  ActiveRuleID : Z; activeGroupIndex : option groupIndex;
  groupIndexCache : gmap Z (gmap string groupIndex);
  groupConditionUsageByRule : gmap Z groupingConditionUsage }.

Record EvalContext := MkEvalContext {
  ec_facts : EvalFacts; ec_space : EvalSpace; ec_groups : EvalGroups }.

Definition FreeSpace (ctx : EvalContext) : Z := fs_FreeSpace (es_active (ec_space ctx)).
Definition SpaceToClear (ctx : EvalContext) : Z := fs_SpaceToClear (es_active (ec_space ctx)).
Definition FilesToClear (ctx : EvalContext) : option (gset crossSeedKey) :=
  fs_FilesToClear (es_active (ec_space ctx)).
Definition HardlinkSignaturesToClear (ctx : EvalContext) : option (gset string) :=
  fs_HardlinkSignaturesToClear (es_active (ec_space ctx)).

Definition with_space (sp : EvalSpace) (ctx : EvalContext) : EvalContext :=
  MkEvalContext (ec_facts ctx) sp (ec_groups ctx).
Definition with_groups (g : EvalGroups) (ctx : EvalContext) : EvalContext :=
  MkEvalContext (ec_facts ctx) (ec_space ctx) g.

(** *** Free-space sources *)

Definition PersistFreeSpaceSourceState (ctx : EvalContext) : EvalContext :=
  let sp := ec_space ctx in
  match FreeSpaceStates sp with
  | None => ctx
  | Some states =>
    if bool_decide (ActiveFreeSpaceSource sp = "") then ctx else
    match states !! ActiveFreeSpaceSource sp with
    | None => ctx
    | Some state =>
      let state := MkSpaceState (fs_FreeSpace state) (fs_SpaceToClear (es_active sp))
                     (fs_FilesToClear (es_active sp))
                     (fs_HardlinkSignaturesToClear (es_active sp)) in
      with_space (MkSpace (es_active sp) (Some (<[ActiveFreeSpaceSource sp := state]> states))
                    (ActiveFreeSpaceSource sp)) ctx
    end
  end.

Definition LoadFreeSpaceSourceState (sourceKey : string) (ctx : EvalContext) : EvalContext :=
  match FreeSpaceStates (ec_space ctx) with
  | None => ctx
  | Some _ =>
    if bool_decide (sourceKey = "") then ctx
    else if bool_decide (ActiveFreeSpaceSource (ec_space ctx) = sourceKey) then ctx else
    let ctx := if bool_decide (ActiveFreeSpaceSource (ec_space ctx) = "") then ctx
               else PersistFreeSpaceSourceState ctx in
    let states := FreeSpaceStates (ec_space ctx) in
    match states ≫= (.!! sourceKey) with
    | None => with_space (MkSpace (MkSpaceState max_i64 0 None None) states "") ctx
    | Some state => with_space (MkSpace state states sourceKey) ctx
    end
  end.

(** *** Groupings *)

Definition KeyForHash (g : groupIndex) (hash : string) : string :=
  default "" (gi_keyByHash g !! hash).

Definition MembersForHash (g : option groupIndex) (hash : string) : list string :=
  match g with
  | None => []
  | Some g => let key := KeyForHash g hash in
              if bool_decide (key = "") then [] else default [] (gi_hashesByKey g !! key)
  end.

Definition SizeForHash (g : option groupIndex) (hash : string) : Z :=
  match g with Some g => default 0%Z (gi_sizeByHash g !! hash) | None => 0 end.

Definition IsAmbiguousForHash (g : option groupIndex) (hash : string) : bool :=
  match g with
  | None => false
  | Some g => let key := KeyForHash g hash in
              negb (bool_decide (key = "")) && bool_decide (key ∈ gi_ambiguousKeys g)
  end.

Section groups.
Context `{!UnicodeCase, !Library}.

Definition lookupGroupIndexForRule (ctx : EvalContext) (ruleID : Z) (groupID : string)
    : option groupIndex :=
  if bool_decide (groupID = "") then None else
  match groupIndexCache (ec_groups ctx) !! ruleID with
  | None => None
  | Some byRule =>
    let groupID := TrimSpace groupID in
    match byRule !! groupID with
    | Some idx => Some idx
    | None => snd <$> List.find (λ kv, EqualFold (TrimSpace kv.1) groupID) (range map_order 0 byRule)
    end
  end.

Definition resolveConditionGroupIndex (cond : RuleCondition) (ctx : option EvalContext)
    : option groupIndex :=
  match ctx with
  | None => None
  | Some ctx =>
    let groupID := TrimSpace (rc_GroupID cond) in
    if negb (bool_decide (groupID = ""))
    then lookupGroupIndexForRule ctx (ActiveRuleID (ec_groups ctx)) groupID
    else activeGroupIndex (ec_groups ctx)
  end.
End groups.

(** ** Look-up by category *)

Section category.
Context `{!UnicodeCase}.

Definition index_torrent
    (acc : gmap string (gmap string (gset string)) * gmap string (list categoryEntry))
    (t : Torrent) : gmap string (gmap string (gset string)) * gmap string (list categoryEntry) :=
  let '(index, names) := acc in
  let catKey := normalizeLowerTrim (t_Category t) in
  let nameLower := normalizeLower (t_Name t) in
  let byName := default ∅ (index !! catKey) in
  let hashes := default ∅ (byName !! nameLower) in
  (<[catKey := <[nameLower := {[t_Hash t]} ∪ hashes]> byName]> index,
   <[catKey := default [] (names !! catKey) ++
               [MkCategoryEntry (t_Hash t) nameLower (normalizeName (t_Name t))]]> names).

Definition BuildCategoryIndex (torrents : list Torrent)
    : gmap string (gmap string (gset string)) * gmap string (list categoryEntry) :=
  foldl index_torrent (∅, ∅) torrents.

Definition existsInCategory (torrentHash torrentName targetCategory : string)
    (ctx : option EvalContext) : bool :=
  match ctx with
  | None => false
  | Some ctx =>
    let catKey := normalizeLowerTrim targetCategory in
    if negb (bool_decide (targetCategory = "")) && bool_decide (catKey = "") then false else
    match CategoryIndex (ec_facts ctx) !! catKey with
    | None => false
    | Some nameMap =>
      match nameMap !! normalizeLower torrentName with
      | None => false
      | Some hashSet => existsb (λ hash, negb (bool_decide (hash = torrentHash))) (elements hashSet)
      end
    end
  end.

(** Whether one normalised name contains the other. *)
Definition names_overlap (a b : string) : bool := Contains a b || Contains b a.

Definition byte_length (s : string) : nat := length (to_bytes s).

Definition containsInCategory (torrentHash torrentName targetCategory : string)
    (ctx : option EvalContext) : bool :=
  match ctx with
  | None => false
  | Some ctx =>
    let catKey := normalizeLowerTrim targetCategory in
    if negb (bool_decide (targetCategory = "")) && bool_decide (catKey = "") then false else
    let normalizedCurrent := normalizeName torrentName in
    if (byte_length normalizedCurrent <? minContainsNameLength)%nat then false else
    match CategoryNames (ec_facts ctx) !! catKey with
    | None => false
    | Some entries =>
      existsb (λ e, negb (bool_decide (cg_Hash e = torrentHash)) &&
                    negb (byte_length (cg_NormalizedName e) <? minContainsNameLength)%nat &&
                    names_overlap normalizedCurrent (cg_NormalizedName e)) entries
    end
  end.
End category.

(** ** Comparisons *)

Section compare.
Context `{!UnicodeCase, !Library}.

(** The pattern of a condition once [CompileRegex] has been called: it is not
    for the two look-up operators. *)
Definition needs_regex (cond : RuleCondition) : bool :=
  rc_Regex cond || bool_decide (rc_Operator cond = OperatorMatches).
Definition is_lookup (cond : RuleCondition) : bool :=
  bool_decide (rc_Operator cond = OperatorExistsIn) ||
  bool_decide (rc_Operator cond = OperatorContainsIn).
Definition Compiled (cond : RuleCondition) : option (string → bool) :=
  if is_lookup cond then None else regexp_compile ("(?i)" +++ rc_Value cond).

(** The two operators that a match of the pattern refutes. *)
Definition is_negative (cond : RuleCondition) : bool :=
  bool_decide (rc_Operator cond = OperatorNotContains) ||
  bool_decide (rc_Operator cond = OperatorNotEqual).

Definition compareString (value : string) (cond : RuleCondition) : bool :=
  if needs_regex cond then
    match Compiled cond with
    | None => false
    | Some matches => if is_negative cond then negb (matches value) else matches value
    end
  else
    let op := rc_Operator cond in
    let v := rc_Value cond in
    if bool_decide (op = OperatorEqual) then EqualFold value v
    else if bool_decide (op = OperatorNotEqual) then negb (EqualFold value v)
    else if bool_decide (op = OperatorContains) then Contains (ToLower value) (ToLower v)
    else if bool_decide (op = OperatorNotContains) then negb (Contains (ToLower value) (ToLower v))
    else if bool_decide (op = OperatorStartsWith) then HasPrefix (ToLower value) (ToLower v)
    else if bool_decide (op = OperatorEndsWith) then HasSuffix (ToLower value) (ToLower v)
    else false.

(** *** Trackers *)

Definition trim_brackets (s : string) : string := Trim s ["["%char; "]"%char].

(** The text before the first byte that satisfies [stop]. *)
Fixpoint take_until (stop : ascii → bool) (l : bytes) : bytes :=
  match l with [] => [] | a :: l => if stop a then [] else a :: take_until stop l end.
Definition before_any (s : string) (stops : list ascii) : string :=
  of_bytes (take_until (λ a, bool_decide (a ∈ stops)) (to_bytes s)).

(** The host a URL parses to, if it is not empty. *)
Definition parsed_host (url : string) : option string :=
  match url_hostname url with
  | Some h => if bool_decide (h = "") then None else Some h
  | None => None
  end.

Definition extractTrackerDomain (raw : string) : string :=
  let raw := TrimSpace raw in
  if bool_decide (raw = "") then "" else
  match parsed_host raw with
  | Some h => normalizeLower h
  | None =>
    match (if Contains raw "://" then None else parsed_host ("//" +++ raw)) with
    | Some h => normalizeLower h
    | None =>
      let candidate := before_any raw ["/"%char; "?"%char; "#"%char] in
      let candidate := TrimSpace (default candidate (CutPrefix candidate "//")) in
      if bool_decide (candidate = "") then "" else
      match SplitHostPort candidate with
      | Some host => normalizeLower (trim_brackets host)
      | None =>
        if ParseIP candidate && Contains candidate ":" then normalizeLower candidate
        else normalizeLowerTrim (trim_brackets (before_any candidate [":"%char]))
      end
    end
  end.

Definition trackerCandidates (trackerURL : string) (ctx : option EvalContext) : list string :=
  let raw := TrimSpace trackerURL in
  let domain := extractTrackerDomain raw in
  let displayName :=
    match ctx with
    | Some ctx => if bool_decide (domain = "") then ""
                  else from_option TrimSpace "" (TrackerDisplayNameByDomain (ec_facts ctx) !! ToLower domain)
    | None => ""
    end in
  (if bool_decide (raw = "") then [] else [raw]) ++
  (if negb (bool_decide (domain = "")) && negb (EqualFold domain raw) then [domain] else []) ++
  (if negb (bool_decide (displayName = "")) && negb (EqualFold displayName domain) &&
      negb (EqualFold displayName raw) then [displayName] else []).

(** The candidates without those equal to an earlier one when lower-cased. *)
Definition dedup_step (acc : gset string * list string) (candidate : string)
    : gset string * list string :=
  let key := ToLower candidate in
  if bool_decide (key ∈ acc.1) then acc else ({[key]} ∪ acc.1, acc.2 ++ [candidate]).
Definition dedup_fold (candidates : list string) : list string :=
  (foldl dedup_step (∅, []) candidates).2.

Definition compareStringCandidates (candidates : list string) (cond : RuleCondition) : bool :=
  if bool_decide (candidates = []) then compareString "" cond else
  let uniq := dedup_fold candidates in
  if needs_regex cond then
    match Compiled cond with
    | None => false
    | Some matches => if is_negative cond then negb (existsb matches uniq) else existsb matches uniq
    end
  else if bool_decide (rc_Operator cond = OperatorNotEqual)
  then negb (existsb (λ c, EqualFold c (rc_Value cond)) uniq)
  else if bool_decide (rc_Operator cond = OperatorNotContains)
  then negb (existsb (λ c, Contains (ToLower c) (ToLower (rc_Value cond))) uniq)
  else existsb (λ c, compareString c cond) uniq.

Definition compareTracker (trackerURL : string) (cond : RuleCondition) (ctx : option EvalContext)
    : bool := compareStringCandidates (trackerCandidates trackerURL ctx) cond.

Definition compareTrackers (t : Torrent) (cond : RuleCondition) (ctx : option EvalContext) : bool :=
  compareStringCandidates
    (trackerCandidates (t_Tracker t) ctx ++
     (t_Trackers t ≫= λ tr, trackerCandidates (tt_Url tr) ctx)) cond.

(** *** Tags *)

Definition splitTags (raw : string) : list string :=
  if bool_decide (TrimSpace raw = "") then [] else
  filter (λ t, t ≠ "") (TrimSpace <$> Split raw ","%char).

Definition tagContains (tag condValue : string) : bool := Contains (ToLower tag) condValue.
Definition tagStartsWith (tag condValue : string) : bool := HasPrefix (ToLower tag) condValue.
Definition tagEndsWith (tag condValue : string) : bool := HasSuffix (ToLower tag) condValue.

Definition anyTagMatches (tags : list string) (condValue : string)
    (matches : string → string → bool) : bool :=
  existsb (λ tag, matches tag condValue) tags.

Definition compareTags (tagsRaw : string) (cond : RuleCondition) : bool :=
  if needs_regex cond then
    match Compiled cond with
    | None => false
    | Some matches => if is_negative cond then negb (matches tagsRaw) else matches tagsRaw
    end
  else
    let tags := splitTags tagsRaw in
    let condValue := normalizeLowerTrim (rc_Value cond) in
    let op := rc_Operator cond in
    if bool_decide (op = OperatorEqual) then anyTagMatches tags condValue EqualFold
    else if bool_decide (op = OperatorNotEqual) then negb (anyTagMatches tags condValue EqualFold)
    else if bool_decide (op = OperatorContains) then anyTagMatches tags condValue tagContains
    else if bool_decide (op = OperatorNotContains) then negb (anyTagMatches tags condValue tagContains)
    else if bool_decide (op = OperatorStartsWith) then anyTagMatches tags condValue tagStartsWith
    else if bool_decide (op = OperatorEndsWith) then anyTagMatches tags condValue tagEndsWith
    else false.

(** *** Numbers *)

Definition compareInt64 (value : Z) (cond : RuleCondition) : bool :=
  let '(condValue, ok) := ParseInt (rc_Value cond) in
  if negb ok && negb (bool_decide (rc_Value cond = "")) then false else
  let op := rc_Operator cond in
  if bool_decide (op = OperatorEqual) then (value =? condValue)%Z
  else if bool_decide (op = OperatorNotEqual) then negb (value =? condValue)%Z
  else if bool_decide (op = OperatorGreaterThan) then (condValue <? value)%Z
  else if bool_decide (op = OperatorGreaterThanOrEqual) then (condValue <=? value)%Z
  else if bool_decide (op = OperatorLessThan) then (value <? condValue)%Z
  else if bool_decide (op = OperatorLessThanOrEqual) then (value <=? condValue)%Z
  else if bool_decide (op = OperatorBetween) then
    match rc_MinValue cond, rc_MaxValue cond with
    | Some lo, Some hi => f64_leb lo (f64_of_Z value) && f64_leb (f64_of_Z value) hi
    | _, _ => false
    end
  else false.

(** [value != condValue] of floats is the negation of [==]. *)
Definition compareFloat64 (value : float64) (cond : RuleCondition) : bool :=
  match ParseFloat (rc_Value cond), bool_decide (rc_Value cond = "") with
  | None, false => false
  | parsed, _ =>
    let condValue := default f64_zero parsed in
    let op := rc_Operator cond in
    if bool_decide (op = OperatorEqual) then f64_eqb value condValue
    else if bool_decide (op = OperatorNotEqual) then negb (f64_eqb value condValue)
    else if bool_decide (op = OperatorGreaterThan) then f64_ltb condValue value
    else if bool_decide (op = OperatorGreaterThanOrEqual) then f64_leb condValue value
    else if bool_decide (op = OperatorLessThan) then f64_ltb value condValue
    else if bool_decide (op = OperatorLessThanOrEqual) then f64_leb value condValue
    else if bool_decide (op = OperatorBetween) then
      match rc_MinValue cond, rc_MaxValue cond with
      | Some lo, Some hi => f64_leb lo value && f64_leb value hi
      | _, _ => false
      end
    else false
  end.

Definition f64_hundred : float64 := f64_of_Z 100.

Definition normalizeProgressValue (v : float64) : float64 :=
  let v := if f64_ltb f64_one v then f64_div v f64_hundred else v in
  if f64_ltb v f64_zero then f64_zero
  else if f64_ltb f64_one v then f64_one
  else v.

Definition normalizeProgressCondition (c : RuleCondition) : RuleCondition :=
  let value :=
    if bool_decide (rc_Value c = "") then rc_Value c
    else match ParseFloat (rc_Value c) with
         | Some v => FormatFloat (normalizeProgressValue v)
         | None => rc_Value c
         end in
  MkCondition (rc_Field c) (rc_Operator c) (rc_GroupID c) value
    (normalizeProgressValue <$> rc_MinValue c) (normalizeProgressValue <$> rc_MaxValue c)
    (rc_Regex c) (rc_Negate c) (rc_Conditions c).

Definition compareBool (value : bool) (cond : RuleCondition) : bool :=
  let condValue := bool_decide (ToLower (rc_Value cond) = "true") || bool_decide (rc_Value cond = "1") in
  if bool_decide (rc_Operator cond = OperatorEqual) then Bool.eqb value condValue
  else if bool_decide (rc_Operator cond = OperatorNotEqual) then negb (Bool.eqb value condValue)
  else false.

Definition compareHardlinkScope (value : string) (cond : RuleCondition) : bool :=
  if bool_decide (rc_Operator cond = OperatorEqual) then EqualFold value (rc_Value cond)
  else if bool_decide (rc_Operator cond = OperatorNotEqual) then negb (EqualFold value (rc_Value cond))
  else false.

(** The time the context fixes, or the clock. *)
Definition now_unix (ctx : option EvalContext) : Z :=
  match ctx with
  | Some ctx => if (0 <? NowUnix (ec_facts ctx))%Z then NowUnix (ec_facts ctx) else time_Now
  | None => time_Now
  end.
Definition evaluateTime (ctx : option EvalContext) : CivilTime := civil_time (now_unix ctx).

Definition compareAge (timestamp : Z) (cond : RuleCondition) (ctx : option EvalContext) : bool :=
  compareInt64 (Z.max (i64 (now_unix ctx - timestamp)) 0) cond.

Definition compareAgeIfSet (timestamp : Z) (cond : RuleCondition) (ctx : option EvalContext) : bool :=
  if (timestamp <=? 0)%Z then false else compareAge timestamp cond ctx.
End compare.

(** ** State *)

Section state.
Context `{!UnicodeCase, !Library}.

Definition downloading_states : list TorrentState :=
  [TorrentStateDownloading; TorrentStateStalledDl; TorrentStateMetaDl; TorrentStateQueuedDl;
   TorrentStateAllocating; TorrentStateCheckingDl; TorrentStateForcedDl].
Definition uploading_states : list TorrentState :=
  [TorrentStateUploading; TorrentStateStalledUp; TorrentStateQueuedUp; TorrentStateCheckingUp;
   TorrentStateForcedUp].
Definition stopped_states : list TorrentState :=
  [TorrentStatePausedDl; TorrentStatePausedUp; TorrentStateStoppedDl; TorrentStateStoppedUp].
Definition active_states : list TorrentState :=
  [TorrentStateDownloading; TorrentStateUploading; TorrentStateForcedDl; TorrentStateForcedUp].

Definition in_states (t : Torrent) (states : list TorrentState) : bool :=
  bool_decide (t_State t ∈ states).

(** A hash in a set of the context. *)
Definition hash_in (f : EvalFacts → gset string) (t : Torrent) (ctx : option EvalContext) : bool :=
  match ctx with Some ctx => bool_decide (t_Hash t ∈ f (ec_facts ctx)) | None => false end.

(** The meaning of a bucket name, where it is one. *)
Definition state_bucket (t : Torrent) (name : string) (ctx : option EvalContext) : option bool :=
  let named (names : list string) := bool_decide (name ∈ names) in
  if named ["completed"] then Some (f64_leb f64_one (t_Progress t))
  else if named ["downloading"] then Some (in_states t downloading_states)
  else if named ["uploading"; "seeding"] then Some (in_states t uploading_states)
  else if named ["paused"; "stopped"] then Some (in_states t stopped_states)
  else if named ["running"; "resumed"] then Some (negb (in_states t stopped_states))
  else if named ["active"] then Some (in_states t active_states)
  else if named ["inactive"] then Some (negb (in_states t active_states))
  else if named ["stalled"] then Some (in_states t [TorrentStateStalledDl; TorrentStateStalledUp])
  else if named ["stalled_uploading"; "stalled_seeding"] then Some (in_states t [TorrentStateStalledUp])
  else if named ["stalled_downloading"] then Some (in_states t [TorrentStateStalledDl])
  else if named ["checking"] then
    Some (in_states t [TorrentStateCheckingDl; TorrentStateCheckingUp; TorrentStateCheckingResumeData])
  else if named ["moving"] then Some (in_states t [TorrentStateMoving])
  else if named ["errored"; "error"] then Some (in_states t [TorrentStateError; TorrentStateMissingFiles])
  else if named ["missingfiles"] then Some (in_states t [TorrentStateMissingFiles])
  else if named ["unregistered"] then Some (hash_in (λ f, default ∅ (UnregisteredSet f)) t ctx)
  else if named ["tracker_down"] then Some (hash_in TrackerDownSet t ctx)
  else if named ["tracker_error"] then Some (hash_in TrackerErrorSet t ctx)
  else None.

Definition matchesStateValue (t : Torrent) (value : string) (ctx : option EvalContext) : bool :=
  let normalized := TrimSpace value in
  if bool_decide (normalized = "") then false else
  match state_bucket t (ToLower normalized) ctx with
  | Some b => b
  | None => EqualFold (t_State t) normalized
  end.

Definition compareState (t : Torrent) (cond : RuleCondition) (ctx : option EvalContext) : bool :=
  if bool_decide (rc_Operator cond = OperatorEqual) then matchesStateValue t (rc_Value cond) ctx
  else if bool_decide (rc_Operator cond = OperatorNotEqual)
  then negb (matchesStateValue t (rc_Value cond) ctx)
  else compareString (t_State t) cond.
End state.

(** ** Release fields (release_fields.go) *)

Section release.
Context `{!UnicodeCase, !UnicodeTables, !Library}.

Definition parsedTorrentRelease (t : Torrent) (ctx : option EvalContext) : Release :=
  match ctx with
  | Some ctx => if has_ReleaseParser (ec_facts ctx) then parse_release (t_Name t) else empty_release
  | None => empty_release
  end.

Definition torrentContentType (t : Torrent) (ctx : option EvalContext) : string :=
  DetermineContentType (parsedTorrentRelease t ctx).

(** [%02d] of a positive number *)
Definition two_digits (z : Z) : string := if (z <? 10)%Z then "0" +++ pretty z else pretty z.

Definition torrentEffectiveName (t : Torrent) (ctx : option EvalContext) : string :=
  let r := parsedTorrentRelease t ctx in
  let title := TrimSpace (r_Title r) in
  if bool_decide (title = "") then NormalizeForMatching (t_Name t) else
  let base := NormalizeForMatching title in
  let base := if bool_decide (base = "") then ToLower title else base in
  if (0 <? r_Series r)%Z then
    if (0 <? r_Episode r)%Z
    then base +++ "|s" +++ two_digits (r_Series r) +++ "e" +++ two_digits (r_Episode r)
    else base +++ "|s" +++ two_digits (r_Series r)
  else if (0 <? r_Year r)%Z then base +++ "|" +++ pretty (r_Year r)
  else base.

Definition upper_trim (s : string) : string := ToUpper (TrimSpace s).

Definition joinUpperSortedUnique (slice : list string) : string :=
  Join (sort_strings (keep_first (filter (λ n, n ≠ "") (upper_trim <$> slice)))) " ".

Definition torrentRlsSource (t : Torrent) ctx := NormalizeSource (r_Source (parsedTorrentRelease t ctx)).
Definition torrentRlsResolution (t : Torrent) ctx := upper_trim (r_Resolution (parsedTorrentRelease t ctx)).
Definition torrentRlsCodec (t : Torrent) ctx :=
  JoinNormalizedCodecSlice (r_Codec (parsedTorrentRelease t ctx)).
Definition torrentRlsHDR (t : Torrent) ctx := joinUpperSortedUnique (r_HDR (parsedTorrentRelease t ctx)).
Definition torrentRlsAudio (t : Torrent) ctx :=
  joinUpperSortedUnique (r_Audio (parsedTorrentRelease t ctx)).
Definition torrentRlsChannels (t : Torrent) ctx := upper_trim (r_Channels (parsedTorrentRelease t ctx)).
Definition torrentRlsGroup (t : Torrent) ctx := upper_trim (r_Group (parsedTorrentRelease t ctx)).

(** ** Leaves *)

(** The switch of [evaluateLeaf], as one table per kind of field: the labels
    are distinct, so their order does not matter. *)
Definition case_of {A} (f : ConditionField) (table : list (ConditionField * A)) : option A :=
  snd <$> List.find (λ kv, bool_decide (kv.1 = f)) table.

Definition string_leaves : list (ConditionField * (Torrent → option EvalContext → string)) :=
  [(FieldHash, λ t _, t_Hash t); (FieldInfohashV1, λ t _, t_InfohashV1 t);
   (FieldInfohashV2, λ t _, t_InfohashV2 t); (FieldMagnetURI, λ t _, t_MagnetURI t);
   (FieldCategory, λ t _, t_Category t); (FieldSavePath, λ t _, t_SavePath t);
   (FieldContentPath, λ t _, t_ContentPath t); (FieldDownloadPath, λ t _, t_DownloadPath t);
   (FieldCreatedBy, λ t _, t_CreatedBy t); (FieldContentType, torrentContentType);
   (FieldEffectiveName, torrentEffectiveName); (FieldRlsSource, torrentRlsSource);
   (FieldRlsResolution, torrentRlsResolution); (FieldRlsCodec, torrentRlsCodec);
   (FieldRlsHDR, torrentRlsHDR); (FieldRlsAudio, torrentRlsAudio);
   (FieldRlsChannels, torrentRlsChannels); (FieldRlsGroup, torrentRlsGroup);
   (FieldComment, λ t _, t_Comment t)].

Definition int_leaves : list (ConditionField * (Torrent → Z)) :=
  [(FieldSize, t_Size); (FieldTotalSize, t_TotalSize); (FieldCompleted, t_Completed);
   (FieldDownloaded, t_Downloaded); (FieldDownloadedSession, t_DownloadedSession);
   (FieldUploaded, t_Uploaded); (FieldUploadedSession, t_UploadedSession);
   (FieldAmountLeft, t_AmountLeft); (FieldETA, t_ETA); (FieldReannounce, t_Reannounce);
   (FieldSeedingTime, t_SeedingTime); (FieldTimeActive, t_TimeActive);
   (FieldMaxSeedingTime, t_MaxSeedingTime);
   (FieldMaxInactiveSeedingTime, t_MaxInactiveSeedingTime);
   (FieldSeedingTimeLimit, t_SeedingTimeLimit);
   (FieldInactiveSeedingTimeLimit, t_InactiveSeedingTimeLimit); (FieldDlSpeed, t_DlSpeed);
   (FieldUpSpeed, t_UpSpeed); (FieldDlLimit, t_DlLimit); (FieldUpLimit, t_UpLimit);
   (FieldNumSeeds, t_NumSeeds); (FieldNumLeechs, t_NumLeechs); (FieldNumComplete, t_NumComplete);
   (FieldNumIncomplete, t_NumIncomplete); (FieldTrackersCount, t_TrackersCount);
   (FieldPriority, t_Priority)].

Definition age_leaves : list (ConditionField * (Torrent → Z)) :=
  [(FieldAddedOn, t_AddedOn); (FieldCompletionOn, t_CompletionOn);
   (FieldLastActivity, t_LastActivity); (FieldSeenComplete, t_SeenComplete);
   (FieldAddedOnAge, t_AddedOn); (FieldCompletionOnAge, t_CompletionOn);
   (FieldLastActivityAge, t_LastActivity)].

Definition float_leaves : list (ConditionField * (Torrent → float64)) :=
  [(FieldRatio, t_Ratio); (FieldRatioLimit, t_RatioLimit); (FieldMaxRatio, t_MaxRatio);
   (FieldAvailability, t_Availability); (FieldPopularity, t_Popularity)].

Definition time_leaves : list (ConditionField * (CivilTime → Z)) :=
  [(FieldSystemHour, Hour); (FieldSystemMinute, Minute); (FieldSystemDayOfWeek, Weekday);
   (FieldSystemDay, Day); (FieldSystemMonth, Month); (FieldSystemYear, Year)].

Definition bool_leaves : list (ConditionField * (Torrent → option EvalContext → bool)) :=
  [(FieldPrivate, λ t _, t_Private t); (FieldAutoManaged, λ t _, t_AutoManaged t);
   (FieldFirstLastPiecePrio, λ t _, t_FirstLastPiecePrio t);
   (FieldForceStart, λ t _, t_ForceStart t);
   (FieldSequentialDownload, λ t _, t_SequentialDownload t);
   (FieldSuperSeeding, λ t _, t_SuperSeeding t);
   (FieldIsUnregistered, hash_in (λ f, default ∅ (UnregisteredSet f)));
   (FieldExistsOnOtherInstance, hash_in CrossInstanceHashSet);
   (FieldSeedingOnOtherInstance, hash_in CrossInstanceSeedingHashSet);
   (FieldExistsOnSameInstance, hash_in SameInstanceCrossSeedHashSet);
   (FieldSeedingOnSameInstance, hash_in SameInstanceCrossSeedSeedingHashSet)].

(** The leaves whose value is known only for some torrents, on an instance
    with access to its files. *)
Definition known_value {A} (f : EvalFacts → gmap string A) (t : Torrent) (ctx : option EvalContext)
    : option A :=
  match ctx with
  | Some ctx => if InstanceHasLocalAccess (ec_facts ctx) then f (ec_facts ctx) !! t_Hash t else None
  | None => None
  end.

Definition special_leaf (cond : RuleCondition) (t : Torrent) (ctx : option EvalContext) : bool :=
  let f := rc_Field cond in
  if bool_decide (f = FieldName) then
    if bool_decide (rc_Operator cond = OperatorExistsIn)
    then existsInCategory (t_Hash t) (t_Name t) (rc_Value cond) ctx
    else if bool_decide (rc_Operator cond = OperatorContainsIn)
    then containsInCategory (t_Hash t) (t_Name t) (rc_Value cond) ctx
    else compareString (t_Name t) cond
  else if bool_decide (f = FieldTags) then compareTags (t_Tags t) cond
  else if bool_decide (f = FieldState) then compareState t cond ctx
  else if bool_decide (f = FieldTracker) then compareTracker (t_Tracker t) cond ctx
  else if bool_decide (f = FieldTrackers) then compareTrackers t cond ctx
  else if bool_decide (f = FieldFreeSpace) then
    match ctx with
    | Some ctx => compareInt64 (i64 (FreeSpace ctx + SpaceToClear ctx)) cond
    | None => false
    end
  else if bool_decide (f = FieldUploadedOverSize) then
    if (t_TotalSize t =? 0)%Z then false
    else compareFloat64 (f64_div (f64_of_Z (t_Uploaded t)) (f64_of_Z (t_TotalSize t))) cond
  else if bool_decide (f = FieldProgress)
  then compareFloat64 (t_Progress t) (normalizeProgressCondition cond)
  else if bool_decide (f = FieldGroupSize)
  then compareInt64 (SizeForHash (resolveConditionGroupIndex cond ctx) (t_Hash t)) cond
  else if bool_decide (f = FieldIsGrouped)
  then compareBool (1 <? SizeForHash (resolveConditionGroupIndex cond ctx) (t_Hash t))%Z cond
  else if bool_decide (f = FieldHardlinkScope) then
    match known_value HardlinkScopeByHash t ctx with
    | Some scope => compareHardlinkScope scope cond
    | None => false
    end
  else if bool_decide (f = FieldHardlinkScopeCross) then
    match known_value HardlinkCrossScopeByHash t ctx with
    | Some scope => compareHardlinkScope scope cond
    | None => false
    end
  else if bool_decide (f = FieldHasMissingFiles) then
    match known_value HasMissingFilesByHash t ctx with
    | Some missing => compareBool missing cond
    | None => false
    end
  else false.

Definition evaluateLeaf (cond : RuleCondition) (t : Torrent) (ctx : option EvalContext) : bool :=
  let f := rc_Field cond in
  match case_of f string_leaves with Some get => compareString (get t ctx) cond | None =>
  match case_of f int_leaves with Some get => compareInt64 (get t) cond | None =>
  match case_of f age_leaves with Some get => compareAgeIfSet (get t) cond ctx | None =>
  match case_of f float_leaves with Some get => compareFloat64 (get t) cond | None =>
  match case_of f time_leaves with Some get => compareInt64 (get (evaluateTime ctx)) cond | None =>
  match case_of f bool_leaves with Some get => compareBool (get t ctx) cond | None =>
  special_leaf cond t ctx
  end end end end end end.

(** ** Trees *)

(** The pattern of a condition that needs one does not compile. *)
Definition regex_fails (cond : RuleCondition) : bool :=
  negb (is_lookup cond) && needs_regex cond && is_nil (Compiled cond).

(** [remaining] is the number of levels still allowed: a condition at [depth]
    is evaluated with [maxConditionDepth + 1 - depth]. *)
Fixpoint evaluate (remaining : nat) (cond : RuleCondition) (t : Torrent)
    (ctx : option EvalContext) : bool :=
  match remaining with
  | O => false
  | S remaining =>
    if regex_fails cond then false else
    let child c := match c with Some c => evaluate remaining c t ctx | None => false end in
    let result :=
      if IsGroup cond then
        if bool_decide (rc_Operator cond = OperatorOr) then existsb child (rc_Conditions cond)
        else forallb child (rc_Conditions cond)
      else evaluateLeaf cond t ctx in
    if rc_Negate cond then negb result else result
  end.

Definition EvaluateConditionWithContext (cond : option RuleCondition) (t : Torrent)
    (ctx : option EvalContext) (depth : nat) : bool :=
  match cond with
  | Some cond => evaluate (S maxConditionDepth - depth) cond t ctx
  | None => false
  end.
End release.

(** [ConditionUsesField] *)
Fixpoint uses_field (field : ConditionField) (cond : RuleCondition) : bool :=
  match cond with
  | MkCondition f _ _ _ _ _ _ _ children =>
    bool_decide (f = field) ||
    existsb (λ c, match c with Some c => uses_field field c | None => false end) children
  end.

Definition ConditionUsesField (cond : option RuleCondition) (field : ConditionField) : bool :=
  match cond with Some c => uses_field field c | None => false end.

(** ** Unknown values *)

Section unknown.
Context `{!UnicodeCase, !UnicodeTables, !Library}.

Definition known_fields : list ConditionField :=
  [FieldHardlinkScope; FieldHardlinkScopeCross; FieldHasMissingFiles].

(** The value of a field that is known for some torrents only is not known. *)
Definition value_unknown (f : ConditionField) (t : Torrent) (ctx : option EvalContext) : Prop :=
  if bool_decide (f = FieldHardlinkScope) then known_value HardlinkScopeByHash t ctx = None
  else if bool_decide (f = FieldHardlinkScopeCross) then known_value HardlinkCrossScopeByHash t ctx = None
  else known_value HasMissingFilesByHash t ctx = None.

Lemma unknown_leaf cond t ctx :
  rc_Field cond ∈ known_fields → value_unknown (rc_Field cond) t ctx → evaluateLeaf cond t ctx = false.
Proof.
  unfold known_fields, value_unknown, evaluateLeaf, special_leaf.
  intros Hf. rewrite !elem_of_cons, elem_of_nil in Hf.
  destruct Hf as [->|[->|[->|[]]]]; cbn; by intros ->.
Qed.

Lemma evaluate_leaf n cond t ctx :
  IsGroup cond = false → regex_fails cond = false →
  evaluate (S n) cond t ctx = xorb (rc_Negate cond) (evaluateLeaf cond t ctx).
Proof. intros Hg Hr. cbn [evaluate]. rewrite Hr, Hg. cbn zeta. by destruct (rc_Negate cond). Qed.
End unknown.

(** A leaf on a field whose value is not known for
    the torrent - the hard-link scope or the missing files - matches under
    either comparison once it is negated, although an unknown value is meant
    to match no condition. *)
Theorem negated_unknown_matches `{!UnicodeCase, !UnicodeTables, !Library} (f : ConditionField)
    (op value : string) (t : Torrent) (ctx : option EvalContext) :
  f ∈ known_fields → value_unknown f t ctx → op = OperatorEqual ∨ op = OperatorNotEqual →
  let leaf negated := MkCondition f op "" value None None false negated [] in
  EvaluateConditionWithContext (Some (leaf false)) t ctx 0 = false ∧
  EvaluateConditionWithContext (Some (leaf true)) t ctx 0 = true.
Proof.
  intros Hf Hu Hop leaf.
  assert (∀ n, evaluateLeaf (leaf n) t ctx = false) as Hl by (intros; by apply unknown_leaf).
  assert (∀ n, regex_fails (leaf n) = false) as Hr.
  { intros n. unfold regex_fails, needs_regex. simpl. by destruct Hop as [-> | ->]. }
  unfold EvaluateConditionWithContext. rewrite Nat.sub_0_r.
  split; rewrite evaluate_leaf by done; by rewrite Hl.
Qed.

(** ** The category index *)

Section category_index.
Context `{!UnicodeCase}.

Definition in_category (key : string) (t : Torrent) : Prop := normalizeLowerTrim (t_Category t) = key.

#[export] Instance in_category_dec key t : Decision (in_category key t).
Proof. unfold in_category. apply _. Defined.

Lemma index_hashes torrents key name h :
  h ∈ default ∅ (default ∅ ((BuildCategoryIndex torrents).1 !! key) !! name) ↔
  ∃ t, t ∈ torrents ∧ in_category key t ∧ normalizeLower (t_Name t) = name ∧ t_Hash t = h.
Proof.
  unfold BuildCategoryIndex, in_category. induction torrents as [|t ts IH] using rev_ind.
  { simpl. rewrite lookup_empty. simpl. rewrite lookup_empty. simpl.
    split; [by intros ?%elem_of_empty|by intros (? & ?%elem_of_nil & _)]. }
  rewrite foldl_app. cbn [foldl]. destruct (foldl _ _ ts) as [index names]. cbn [fst] in IH.
  unfold index_torrent. cbn [fst]. setoid_rewrite elem_of_app. setoid_rewrite list_elem_of_singleton.
  assert ((∃ t0, (t0 ∈ ts ∨ t0 = t) ∧ normalizeLowerTrim (t_Category t0) = key ∧
      normalizeLower (t_Name t0) = name ∧ t_Hash t0 = h) ↔
    (h ∈ default ∅ (default ∅ (index !! key) !! name)) ∨
    (normalizeLowerTrim (t_Category t) = key ∧ normalizeLower (t_Name t) = name ∧ t_Hash t = h)) as ->
    by (rewrite IH; split;
      [intros (t0 & [Hin| ->] & ?); [left; by exists t0|by right]
      |intros [(t0 & Hin & ?)|?]; [exists t0; tauto|exists t; tauto]]).
  destruct (decide (normalizeLowerTrim (t_Category t) = key)) as [<-|Hk].
  - rewrite lookup_insert_eq. simpl.
    destruct (decide (normalizeLower (t_Name t) = name)) as [<-|Hn].
    + rewrite lookup_insert_eq. simpl. set_solver.
    + rewrite lookup_insert_ne by done. naive_solver.
  - rewrite lookup_insert_ne by done. naive_solver.
Qed.

Lemma index_names torrents key :
  default [] ((BuildCategoryIndex torrents).2 !! key) =
  (λ t, MkCategoryEntry (t_Hash t) (normalizeLower (t_Name t)) (normalizeName (t_Name t))) <$>
    filter (in_category key) torrents.
Proof.
  unfold BuildCategoryIndex. induction torrents as [|t ts IH] using rev_ind; [done|].
  rewrite foldl_app. cbn [foldl]. destruct (foldl _ _ ts) as [index names]. cbn [snd] in IH.
  unfold index_torrent. cbn [snd]. rewrite filter_app, fmap_app, <- IH, filter_cons, filter_nil.
  unfold in_category at 1. case_decide as Hk.
  - subst key. by rewrite lookup_insert_eq.
  - rewrite lookup_insert_ne, app_nil_r by done. done.
Qed.
End category_index.

(** With the index built from a list of torrents,
    EXISTS_IN finds exactly the torrents of the list, in the target category
    and other than the one at hand, whose name is the same without regard to
    case, and CONTAINS_IN those whose normalised name of at least ten bytes
    contains, or is contained in, the normalised name of the one at hand. *)
Theorem category_lookup_exact `{!UnicodeCase} (torrents : list Torrent) (ctx : EvalContext)
    (hash name target : string) :
  CategoryIndex (ec_facts ctx) = (BuildCategoryIndex torrents).1 →
  CategoryNames (ec_facts ctx) = (BuildCategoryIndex torrents).2 →
  target = "" ∨ normalizeLowerTrim target ≠ "" →
  let other t := t ∈ torrents ∧ t_Hash t ≠ hash ∧ in_category (normalizeLowerTrim target) t in
  let long s := (minContainsNameLength ≤ byte_length (normalizeName s))%nat in
  (existsInCategory hash name target (Some ctx) = true ↔
   ∃ t, other t ∧ ToLower (t_Name t) = ToLower name) ∧
  (containsInCategory hash name target (Some ctx) = true ↔
   long name ∧ ∃ t, other t ∧ long (t_Name t) ∧
     names_overlap (normalizeName name) (normalizeName (t_Name t)) = true).
Proof.
  intros Hi Hn Ht other long. unfold existsInCategory, containsInCategory. rewrite Hi, Hn.
  assert (negb (bool_decide (target = "")) && bool_decide (normalizeLowerTrim target = "") = false) as ->.
  { destruct Ht as [->|Ht]; [done|]. by rewrite (bool_decide_false (normalizeLowerTrim target = "")), andb_false_r. }
  set (key := normalizeLowerTrim target) in *. cbn zeta. split.
  - pose proof (λ h, index_hashes torrents key (normalizeLower name) h) as Hh.
    assert ((∃ t, other t ∧ ToLower (t_Name t) = ToLower name) ↔
      ∃ h, h ≠ hash ∧ h ∈ default ∅ (default ∅ ((BuildCategoryIndex torrents).1 !! key) !! normalizeLower name)) as ->.
    { setoid_rewrite Hh. unfold other, normalizeLower. naive_solver. }
    destruct ((BuildCategoryIndex torrents).1 !! key) as [m|]; simpl.
    2:{ rewrite lookup_empty. simpl. set_solver. }
    destruct (m !! normalizeLower name) as [hs|]; simpl; [|set_solver].
    rewrite existsb_exists. setoid_rewrite negb_true_iff. setoid_rewrite bool_decide_eq_false.
    setoid_rewrite <- list_elem_of_In. setoid_rewrite elem_of_elements. naive_solver.
  - unfold long. destruct (Nat.ltb_spec (byte_length (normalizeName name)) minContainsNameLength) as [Hs|Hs].
    { split; [done|]. intros [Hl _]. lia. }
    pose proof (index_names torrents key) as Hl.
    assert (∀ o : option (list categoryEntry), match o with Some l => existsb (λ e,
        negb (bool_decide (cg_Hash e = hash)) &&
        negb (byte_length (cg_NormalizedName e) <? minContainsNameLength)%nat &&
        names_overlap (normalizeName name) (cg_NormalizedName e)) l | None => false end = existsb (λ e,
        negb (bool_decide (cg_Hash e = hash)) &&
        negb (byte_length (cg_NormalizedName e) <? minContainsNameLength)%nat &&
        names_overlap (normalizeName name) (cg_NormalizedName e)) (default [] o)) as -> by by intros [].
    rewrite Hl, existsb_exists. setoid_rewrite <- list_elem_of_In. setoid_rewrite list_elem_of_fmap.
    setoid_rewrite list_elem_of_filter. unfold other. split.
    + intros (e & (t & -> & Hc & Hin) & Hb). simpl in Hb. rewrite !andb_true_iff, !negb_true_iff in Hb.
      destruct Hb as [[Hh Hlen] Ho]. apply bool_decide_eq_false in Hh. apply Nat.ltb_ge in Hlen. eauto 10.
    + intros (_ & t & (Hin & Hh & Hc) & Hlen & Ho). eexists. split; [eauto|]. simpl.
      rewrite bool_decide_false, Ho by done. by rewrite (proj2 (Nat.ltb_ge _ _) Hlen).
Qed.

(** ** Free-space sources *)

Section free_space.

(** The state a rule key stands for: the active one if it is loaded, else the
    one kept for it. *)
Definition space_of (key : string) (ctx : EvalContext) : option FreeSpaceSourceState :=
  let sp := ec_space ctx in
  if bool_decide (ActiveFreeSpaceSource sp = key) then Some (es_active sp)
  else FreeSpaceStates sp ≫= (.!! key).

(** The active source is one of those kept, with the same free space. *)
Definition space_ok (ctx : EvalContext) : Prop :=
  let sp := ec_space ctx in
  ActiveFreeSpaceSource sp ≠ "" →
  ∃ states st, FreeSpaceStates sp = Some states ∧ states !! ActiveFreeSpaceSource sp = Some st ∧
    fs_FreeSpace st = fs_FreeSpace (es_active sp).

Lemma persist_keeps key ctx :
  key ≠ "" → space_ok ctx →
  space_of key (PersistFreeSpaceSourceState ctx) = space_of key ctx ∧
  FreeSpaceStates (ec_space (PersistFreeSpaceSourceState ctx)) ≫= (.!! key) = space_of key ctx.
Proof.
  intros Hk Hok. unfold PersistFreeSpaceSourceState, space_ok in *. cbn zeta in *.
  destruct (FreeSpaceStates (ec_space ctx)) as [states|] eqn:Hs.
  - destruct (decide (ActiveFreeSpaceSource (ec_space ctx) = "")) as [Ha|Ha].
    { rewrite (bool_decide_true (_ = "")) by done. unfold space_of.
      by rewrite Hs, Ha, (bool_decide_false ("" = key)). }
    destruct (Hok Ha) as (? & st & [= <-] & Hst & Hf).
    rewrite (bool_decide_false (_ = "")) by done. rewrite Hst, Hf. unfold space_of. simpl.
    case_bool_decide as Hak; [|by rewrite Hs; simpl; rewrite lookup_insert_ne].
    subst key. rewrite lookup_insert_eq. split; [done|]. by destruct (es_active _).
  - rewrite Hs. unfold space_of. rewrite Hs. case_bool_decide as Ha; [|done].
    destruct Hok as (? & ? & [=] & _). by rewrite Ha.
Qed.
End free_space.

(** Switching between the free-space sources of
    the rules loses nothing: every source keeps its projection, loading a known
    source makes its projection the active one, and for an unknown source
    the free space is the largest there is and no deletion is counted. *)
Theorem free_space_sources_isolated (ctx : EvalContext) (a : string) :
  space_ok ctx → a ≠ "" → FreeSpaceStates (ec_space ctx) ≠ None →
  let ctx' := LoadFreeSpaceSourceState a ctx in
  space_ok ctx' ∧
  (∀ key, key ≠ "" → space_of key ctx' = space_of key ctx) ∧
  es_active (ec_space ctx') =
    default (MkSpaceState max_i64 0 None None) (space_of a ctx).
Proof.
  intros Hok Ha Hs ctx'. unfold ctx', LoadFreeSpaceSourceState.
  destruct (FreeSpaceStates (ec_space ctx)) as [states|] eqn:Hst; [|done].
  rewrite bool_decide_false by done. cbn zeta.
  case_bool_decide as Hact.
  { split_and!; [done..|]. unfold space_of. by rewrite bool_decide_true. }
  set (ctx1 := if bool_decide _ then ctx else _).
  assert (∀ key, key ≠ "" → FreeSpaceStates (ec_space ctx1) ≫= (.!! key) = space_of key ctx) as H1.
  { intros key Hkey. unfold ctx1. case_bool_decide as He; [|by apply persist_keeps].
    unfold space_of. by rewrite He, bool_decide_false. }
  pose proof (H1 a Ha) as Hload. destruct (FreeSpaceStates (ec_space ctx1) ≫= (.!! a)) as [st|].
  - split_and!; [|intros key Hkey|by rewrite <- Hload].
    + intros _. simpl. specialize (H1 a Ha). rewrite <- Hload in H1.
      destruct (FreeSpaceStates (ec_space ctx1)) as [states'|]; simpl in H1; [eauto|done].
    + unfold space_of at 1. simpl. case_bool_decide as E; [by subst key|]. by apply H1.
  - split_and!; [by intros []|intros key Hkey|by rewrite <- Hload].
    unfold space_of at 1. simpl. rewrite bool_decide_false by done. by apply H1.
Qed.

(** ** Progress *)

Lemma normalizeProgressValue_cases v :
  let w := normalizeProgressValue v in
  w = f64_zero ∨ w = f64_one ∨ (f64_ltb w f64_zero = false ∧ f64_ltb f64_one w = false).
Proof.
  unfold normalizeProgressValue. cbn zeta. set (u := if f64_ltb f64_one v then _ else v).
  destruct (f64_ltb u f64_zero) eqn:E1; [by left|].
  destruct (f64_ltb f64_one u) eqn:E2; [by right; left|by right; right].
Qed.

(** Whatever was stored, a progress bound used by a
    condition is not below 0 and not above 1, and normalising it again changes
    nothing. *)
Theorem progress_normalised (v : float64) :
  let w := normalizeProgressValue v in
  f64_ltb w f64_zero = false ∧ f64_ltb f64_one w = false ∧ normalizeProgressValue w = w.
Proof.
  cbn zeta. destruct (normalizeProgressValue_cases v) as [-> |[-> |[H1 H2]]]; [by vm_compute..|].
  split_and!; [done..|]. unfold normalizeProgressValue at 1. cbn zeta. by rewrite H2, H1, H2.
Qed.

(** ** Witnesses *)

(** A library in which a pattern matches the texts that contain it, and no
    text is a float or a URL. *)
Definition SimpleLibrary : Library := {|
  regexp_compile p := Some (λ s, Contains s (default p (CutPrefix p "(?i)")));
  ParseFloat _ := None; FormatFloat _ := ""; url_hostname _ := None; SplitHostPort _ := None;
  ParseIP _ := false; time_Now := 1700000000; civil_time z := MkCivil (z / 3600 mod 24) 0 0 1 1 2024;
  parse_release _ := empty_release; DetermineContentType _ := "unknown";
  path_Match _ _ := Some false; map_order := key_order |}.

Definition no_facts : EvalFacts :=
  MkFacts None ∅ ∅ ∅ ∅ ∅ false ∅ ∅ ∅ ∅ 0 ∅ ∅ ∅ ∅ ∅ false.
Definition no_space : FreeSpaceSourceState := MkSpaceState 0 0 None None.
Definition empty_context : EvalContext :=
  MkEvalContext no_facts (MkSpace no_space None "") (MkGroups 0 None ∅ ∅).

(** A torrent given by hash, name, category, tags and size. *)
Definition sample_torrent (hash name category tags : string) (size : Z) : Torrent :=
  MkTorrent 0 0 false f64_zero category "" 0 0 "" ("/data/" +++ name) 0 0 "" 0 0 0 false false hash
    "" "" f64_zero false 0 "" f64_zero 0 0 name 0 0 0 0 0 f64_zero f64_zero f64_zero 0 "/data" 0 0 0
    "" "" 0 false size TorrentStateUploading false tags 0 size "" 0 0 0 0 0 [].

Definition leaf (f op value : string) (negated : bool) : RuleCondition :=
  MkCondition f op "" value None None false negated [].
Definition group (op : string) (children : list RuleCondition) : RuleCondition :=
  MkCondition "" op "" "" None None false false (Some <$> children).

Lemma negated_unknown_matches_witness :
  @EvaluateConditionWithContext AsciiCase AsciiTables SimpleLibrary
    (Some (leaf FieldHardlinkScope OperatorEqual HardlinkScopeOutsideQBitTorrent true))
    (sample_torrent "aa" "Film.2024" "film" "" 5000) (Some empty_context) 0 = true.
Proof.
  apply (@negated_unknown_matches AsciiCase AsciiTables SimpleLibrary FieldHardlinkScope OperatorEqual);
    [left|by vm_compute|by left].
Defined.

Definition indexed_context (torrents : list Torrent) : EvalContext :=
  let '(index, names) := @BuildCategoryIndex AsciiCase torrents in
  MkEvalContext (MkFacts None ∅ ∅ ∅ ∅ ∅ false ∅ ∅ index names 0 ∅ ∅ ∅ ∅ ∅ false)
    (MkSpace no_space None "") (MkGroups 0 None ∅ ∅).

Definition two_films : list Torrent :=
  [sample_torrent "aa" "Some.Film.2024" "Films" "" 10; sample_torrent "bb" "some.film.2024" "old" "" 10].

Lemma category_lookup_exact_witness :
  @existsInCategory AsciiCase "bb" "some.film.2024" " films" (Some (indexed_context two_films)) = true.
Proof.
  refine (proj2 (proj1 (@category_lookup_exact AsciiCase two_films (indexed_context two_films) "bb"
    "some.film.2024" " films" _ _ _)) _); [by vm_compute|by vm_compute|right; by vm_compute|].
  exists (sample_torrent "aa" "Some.Film.2024" "Films" "" 10). split; [split_and!|by vm_compute].
  - left.
  - done.
  - by vm_compute.
Defined.

Definition two_sources : EvalContext :=
  let st := MkSpaceState 50 20 (Some {[("/data/a", "/data")]}) (Some ∅) in
  MkEvalContext no_facts
    (MkSpace st (Some {["qbt|rule:1" := MkSpaceState 50 0 (Some ∅) (Some ∅);
                        "qbt|rule:2" := MkSpaceState 50 7 (Some ∅) (Some ∅)]}) "qbt|rule:1")
    (MkGroups 0 None ∅ ∅).

Lemma free_space_sources_isolated_witness :
  SpaceToClear (LoadFreeSpaceSourceState "qbt|rule:2" two_sources) = 7%Z.
Proof.
  unfold SpaceToClear.
  destruct (free_space_sources_isolated two_sources "qbt|rule:2") as (_ & _ & ->); [|done|done|done].
  intros _. eexists _, _. split_and!; [done|by vm_compute|done].
Defined.
