(* ===== verification/ConditionMeaning.v ===== *)
(** * [internal/services/automations/evaluator.go]: what a condition means

    A relation between a torrent, a context and a condition says what each kind of
    leaf states of each field, and what a tree of leaves states; evaluation
    computes it.  The relation follows the fields and operators of the rules, not
    the switch of the code: its values are compared by equality of texts,
    occurrence, order of numbers, membership of sets. *)

From Stdlib Require Import ZArith Lia Ascii.
From stdpp Require Import base numbers list strings gmap.
From S2P Require Import Prelude.
From S2P Require Import Order.
From S2P Require Import GoStrings.
From S2P Require Import GoFloat.
From S2P Require Import GoPath.
From S2P Require Import Normalizer.
From S2P Require Import UnicodeText.
From S2P Require Import Domain.
From S2P Require Import Automation.
From S2P Require Import Conditions.

Open Scope qui_scope.

(** ** Occurrence of a text *)

Lemma substring_all s : String.substring 0 (String.length s) s = s.
Proof. induction s as [|a s IH]; [done|]. cbn. by rewrite IH. Qed.

(** A text is found where it occurs. *)
Lemma index_at a b s : String.prefix b s = true → is_Some (String.index 0 b (a +++ s)).
Proof.
  intros Hp. induction a as [|c a IH].
  - change ("" +++ s) with s. destruct s as [|d s]; [destruct b as [|c b]; [by exists 0%nat|discriminate Hp]|].
    cbn [String.index]. rewrite Hp. by exists 0%nat.
  - change (String c a +++ s) with (String c (a +++ s)). cbn [String.index].
    destruct (String.prefix b (String c _)); [by exists 0%nat|]. destruct IH as [n Hn]. rewrite Hn. by exists (S n).
Qed.

Lemma index_split b s n : String.index 0 b s = Some n → ∃ p q, s = p +++ (b +++ q).
Proof.
  revert n. induction s as [|c s IH]; intros n; cbn [String.index].
  - destruct b; [|done]. by exists "", "".
  - destruct (String.prefix b (String c s)) eqn:Hp.
    + intros _. destruct (HasPrefix_app _ _ Hp) as [q ->]. by exists "", q.
    + destruct (String.index 0 b s) as [m|]; [|done]. intros _. destruct (IH m eq_refl) as (p & q & ->).
      by exists (String c p), q.
Qed.

Definition occurs (sub s : string) : Prop := ∃ p q, s = p +++ (sub +++ q).

Lemma Contains_spec s sub : Contains s sub = true ↔ occurs sub s.
Proof.
  unfold Contains, occurs. split.
  - destruct (String.index 0 sub s) as [n|] eqn:E; [|done]. intros _. by eapply index_split.
  - intros (p & q & ->). destruct (index_at p sub (sub +++ q)) as [n ->]; [|done]. apply HasPrefix_of_app.
Qed.

Definition starts_with (pre s : string) : Prop := ∃ r, s = pre +++ r.
Definition ends_with (suf s : string) : Prop := ∃ r, s = r +++ suf.

Lemma HasPrefix_spec s p : HasPrefix s p = true ↔ starts_with p s.
Proof. split; [apply HasPrefix_app|]. intros [r ->]. apply HasPrefix_of_app. Qed.

Lemma HasSuffix_spec s p : HasSuffix s p = true ↔ ends_with p s.
Proof.
  unfold HasSuffix, ends_with. split.
  - intros [r Hr]%HasPrefix_app. apply (f_equal to_bytes) in Hr. rewrite to_bytes_app, !to_of_bytes in Hr.
    apply (f_equal (@List.rev ascii)) in Hr. rewrite rev_app_distr, !rev_involutive in Hr.
    exists (of_bytes (List.rev (to_bytes r))). apply to_bytes_inj. by rewrite to_bytes_app, to_of_bytes.
  - intros [r ->]. rewrite to_bytes_app, rev_app_distr.
    assert (∀ a b, of_bytes (a ++ b) = of_bytes a +++ of_bytes b) as Happ.
    { intros a b. apply to_bytes_inj. by rewrite to_bytes_app, !to_of_bytes. }
    rewrite Happ. apply HasPrefix_of_app.
Qed.

(** ** What a leaf states of a value *)

Section meaning.
Context `{!UnicodeCase, !UnicodeTables, !Library}.

(** The value of the condition is a pattern. *)
Definition pattern_of (cond : RuleCondition) (m : string → bool) : Prop :=
  (rc_Regex cond = true ∨ rc_Operator cond = OperatorMatches) ∧
  rc_Operator cond ≠ OperatorExistsIn ∧ rc_Operator cond ≠ OperatorContainsIn ∧
  regexp_compile ("(?i)" +++ rc_Value cond) = Some m.
Definition plain_text (cond : RuleCondition) : Prop := rc_Regex cond = false ∧ rc_Operator cond ≠ OperatorMatches.

(** The two operators that say what is not so. *)
Definition negative (cond : RuleCondition) : Prop :=
  rc_Operator cond = OperatorNotEqual ∨ rc_Operator cond = OperatorNotContains.

(** Texts compare without regard to case. *)
Definition same_text (a b : string) : Prop := EqualFold a b = true.
Definition occurs_fold (sub s : string) : Prop := occurs (ToLower sub) (ToLower s).

Inductive text_states (s : string) (cond : RuleCondition) : Prop :=
| text_matches m : pattern_of cond m → ¬ negative cond → m s = true → text_states s cond
| text_matches_not m : pattern_of cond m → negative cond → m s = false → text_states s cond
| text_equal : plain_text cond → rc_Operator cond = OperatorEqual → same_text s (rc_Value cond) → text_states s cond
| text_not_equal : plain_text cond → rc_Operator cond = OperatorNotEqual → ¬ same_text s (rc_Value cond) → text_states s cond
| text_contains : plain_text cond → rc_Operator cond = OperatorContains → occurs_fold (rc_Value cond) s → text_states s cond
| text_not_contains :
    plain_text cond → rc_Operator cond = OperatorNotContains → ¬ occurs_fold (rc_Value cond) s → text_states s cond
| text_starts : plain_text cond → rc_Operator cond = OperatorStartsWith →
    starts_with (ToLower (rc_Value cond)) (ToLower s) → text_states s cond
| text_ends : plain_text cond → rc_Operator cond = OperatorEndsWith →
    ends_with (ToLower (rc_Value cond)) (ToLower s) → text_states s cond.

(** The first of several texts that are the same up to case. *)
Definition first_of_kind (l : list string) (c : string) : Prop :=
  ∃ before after, l = before ++ c :: after ∧ ∀ b, b ∈ before → ToLower b ≠ ToLower c.

(** Several texts stand for one field, like the address, host and name of a
    tracker: a positive operator asks for one of them, a negative one refuses
    all; no text at all is the empty text. *)
Inductive some_text_states (l : list string) (cond : RuleCondition) : Prop :=
| texts_none : l = [] → text_states "" cond → some_text_states l cond
| texts_some c : first_of_kind l c → ¬ negative cond → text_states c cond → some_text_states l cond
| texts_all : l ≠ [] → negative cond → ((∃ m, pattern_of cond m) ∨ plain_text cond) →
    (∀ c, first_of_kind l c → text_states c cond) → some_text_states l cond.

(** A tag is compared as a whole, the value without spaces around it. *)
Inductive tags_state (raw : string) (cond : RuleCondition) : Prop :=
| tags_matches m : pattern_of cond m → text_states raw cond → tags_state raw cond
| tags_equal tag : plain_text cond → rc_Operator cond = OperatorEqual → tag ∈ splitTags raw →
    same_text tag (normalizeLowerTrim (rc_Value cond)) → tags_state raw cond
| tags_not_equal : plain_text cond → rc_Operator cond = OperatorNotEqual →
    (∀ tag, tag ∈ splitTags raw → ¬ same_text tag (normalizeLowerTrim (rc_Value cond))) → tags_state raw cond
| tags_contain tag : plain_text cond → rc_Operator cond = OperatorContains → tag ∈ splitTags raw →
    occurs (normalizeLowerTrim (rc_Value cond)) (ToLower tag) → tags_state raw cond
| tags_not_contain : plain_text cond → rc_Operator cond = OperatorNotContains →
    (∀ tag, tag ∈ splitTags raw → ¬ occurs (normalizeLowerTrim (rc_Value cond)) (ToLower tag)) → tags_state raw cond
| tags_start tag : plain_text cond → rc_Operator cond = OperatorStartsWith → tag ∈ splitTags raw →
    starts_with (normalizeLowerTrim (rc_Value cond)) (ToLower tag) → tags_state raw cond
| tags_end tag : plain_text cond → rc_Operator cond = OperatorEndsWith → tag ∈ splitTags raw →
    ends_with (normalizeLowerTrim (rc_Value cond)) (ToLower tag) → tags_state raw cond.

(** An operator that compares with the stated value. *)
Inductive order_states {A} (eq lt le : A → A → Prop) (value stated : A) (cond : RuleCondition) : Prop :=
| order_equal : rc_Operator cond = OperatorEqual → eq value stated → order_states eq lt le value stated cond
| order_not_equal : rc_Operator cond = OperatorNotEqual → ¬ eq value stated → order_states eq lt le value stated cond
| order_greater : rc_Operator cond = OperatorGreaterThan → lt stated value → order_states eq lt le value stated cond
| order_at_least : rc_Operator cond = OperatorGreaterThanOrEqual → le stated value → order_states eq lt le value stated cond
| order_less : rc_Operator cond = OperatorLessThan → lt value stated → order_states eq lt le value stated cond
| order_at_most : rc_Operator cond = OperatorLessThanOrEqual → le value stated → order_states eq lt le value stated cond.

(** The two bounds of [between] are floats. *)
Definition between_states (value : float64) (cond : RuleCondition) : Prop :=
  rc_Operator cond = OperatorBetween ∧
  ∃ lo hi, rc_MinValue cond = Some lo ∧ rc_MaxValue cond = Some hi ∧
    f64_leb lo value = true ∧ f64_leb value hi = true.

(** The stated number; the empty text is zero, and any other text that is not a
    number states nothing. *)
Definition int_states (value : Z) (cond : RuleCondition) : Prop :=
  ∃ stated, (ParseInt (rc_Value cond) = (stated, true) ∨ rc_Value cond = "" ∧ stated = 0%Z) ∧
    (order_states eq Z.lt Z.le value stated cond ∨ between_states (f64_of_Z value) cond).

Definition float_states (value : float64) (cond : RuleCondition) : Prop :=
  ∃ stated, (ParseFloat (rc_Value cond) = Some stated ∨ ParseFloat (rc_Value cond) = None ∧ rc_Value cond = "" ∧ stated = f64_zero) ∧
    (order_states (λ a b, f64_eqb a b = true) (λ a b, f64_ltb a b = true) (λ a b, f64_leb a b = true) value stated cond ∨
     between_states value cond).

(** How long ago a time was; a time that is not set states nothing. *)
Definition age_states (timestamp : Z) (cond : RuleCondition) (ctx : option EvalContext) : Prop :=
  (0 < timestamp)%Z ∧ int_states (Z.max (i64 (now_unix ctx - timestamp)) 0) cond.

Definition fact_states (fact : Prop) (cond : RuleCondition) : Prop :=
  let stated := ToLower (rc_Value cond) = "true" ∨ rc_Value cond = "1" in
  rc_Operator cond = OperatorEqual ∧ (fact ↔ stated) ∨ rc_Operator cond = OperatorNotEqual ∧ ¬ (fact ↔ stated).

Definition scope_states (scope : string) (cond : RuleCondition) : Prop :=
  rc_Operator cond = OperatorEqual ∧ same_text scope (rc_Value cond) ∨
  rc_Operator cond = OperatorNotEqual ∧ ¬ same_text scope (rc_Value cond).

(** ** The fields *)

Inductive text_field : ConditionField → (Torrent → option EvalContext → string) → Prop :=
| field_hash : text_field FieldHash (λ t _, t_Hash t)
| field_infohash_v1 : text_field FieldInfohashV1 (λ t _, t_InfohashV1 t)
| field_infohash_v2 : text_field FieldInfohashV2 (λ t _, t_InfohashV2 t)
| field_magnet : text_field FieldMagnetURI (λ t _, t_MagnetURI t)
| field_category : text_field FieldCategory (λ t _, t_Category t)
| field_save_path : text_field FieldSavePath (λ t _, t_SavePath t)
| field_content_path : text_field FieldContentPath (λ t _, t_ContentPath t)
| field_download_path : text_field FieldDownloadPath (λ t _, t_DownloadPath t)
| field_created_by : text_field FieldCreatedBy (λ t _, t_CreatedBy t)
| field_comment : text_field FieldComment (λ t _, t_Comment t)
| field_content_type : text_field FieldContentType torrentContentType
| field_effective_name : text_field FieldEffectiveName torrentEffectiveName
| field_rls_source : text_field FieldRlsSource torrentRlsSource
| field_rls_resolution : text_field FieldRlsResolution torrentRlsResolution
| field_rls_codec : text_field FieldRlsCodec torrentRlsCodec
| field_rls_hdr : text_field FieldRlsHDR torrentRlsHDR
| field_rls_audio : text_field FieldRlsAudio torrentRlsAudio
| field_rls_channels : text_field FieldRlsChannels torrentRlsChannels
| field_rls_group : text_field FieldRlsGroup torrentRlsGroup.

Inductive int_field : ConditionField → (Torrent → Z) → Prop :=
| field_size : int_field FieldSize t_Size
| field_total_size : int_field FieldTotalSize t_TotalSize
| field_completed : int_field FieldCompleted t_Completed
| field_downloaded : int_field FieldDownloaded t_Downloaded
| field_downloaded_session : int_field FieldDownloadedSession t_DownloadedSession
| field_uploaded : int_field FieldUploaded t_Uploaded
| field_uploaded_session : int_field FieldUploadedSession t_UploadedSession
| field_amount_left : int_field FieldAmountLeft t_AmountLeft
| field_eta : int_field FieldETA t_ETA
| field_reannounce : int_field FieldReannounce t_Reannounce
| field_seeding_time : int_field FieldSeedingTime t_SeedingTime
| field_time_active : int_field FieldTimeActive t_TimeActive
| field_max_seeding_time : int_field FieldMaxSeedingTime t_MaxSeedingTime
| field_max_inactive : int_field FieldMaxInactiveSeedingTime t_MaxInactiveSeedingTime
| field_seeding_limit : int_field FieldSeedingTimeLimit t_SeedingTimeLimit
| field_inactive_limit : int_field FieldInactiveSeedingTimeLimit t_InactiveSeedingTimeLimit
| field_dl_speed : int_field FieldDlSpeed t_DlSpeed
| field_up_speed : int_field FieldUpSpeed t_UpSpeed
| field_dl_limit : int_field FieldDlLimit t_DlLimit
| field_up_limit : int_field FieldUpLimit t_UpLimit
| field_num_seeds : int_field FieldNumSeeds t_NumSeeds
| field_num_leechs : int_field FieldNumLeechs t_NumLeechs
| field_num_complete : int_field FieldNumComplete t_NumComplete
| field_num_incomplete : int_field FieldNumIncomplete t_NumIncomplete
| field_trackers_count : int_field FieldTrackersCount t_TrackersCount
| field_priority : int_field FieldPriority t_Priority.

Inductive age_field : ConditionField → (Torrent → Z) → Prop :=
| field_added : age_field FieldAddedOn t_AddedOn
| field_completion : age_field FieldCompletionOn t_CompletionOn
| field_activity : age_field FieldLastActivity t_LastActivity
| field_seen_complete : age_field FieldSeenComplete t_SeenComplete
| field_added_age : age_field FieldAddedOnAge t_AddedOn
| field_completion_age : age_field FieldCompletionOnAge t_CompletionOn
| field_activity_age : age_field FieldLastActivityAge t_LastActivity.

Inductive float_field : ConditionField → (Torrent → float64) → Prop :=
| field_ratio : float_field FieldRatio t_Ratio
| field_ratio_limit : float_field FieldRatioLimit t_RatioLimit
| field_max_ratio : float_field FieldMaxRatio t_MaxRatio
| field_availability : float_field FieldAvailability t_Availability
| field_popularity : float_field FieldPopularity t_Popularity.

Inductive time_field : ConditionField → (CivilTime → Z) → Prop :=
| field_hour : time_field FieldSystemHour Hour
| field_minute : time_field FieldSystemMinute Minute
| field_weekday : time_field FieldSystemDayOfWeek Weekday
| field_day : time_field FieldSystemDay Day
| field_month : time_field FieldSystemMonth Month
| field_year : time_field FieldSystemYear Year.

(** The hash is in a set that the context has. *)
Definition listed_in (set : EvalFacts → option (gset string)) (t : Torrent) (ctx : option EvalContext) : Prop :=
  ∃ c hashes, ctx = Some c ∧ set (ec_facts c) = Some hashes ∧ t_Hash t ∈ hashes.

Inductive fact_field : ConditionField → (Torrent → option EvalContext → Prop) → Prop :=
| field_private : fact_field FieldPrivate (λ t _, t_Private t = true)
| field_auto_managed : fact_field FieldAutoManaged (λ t _, t_AutoManaged t = true)
| field_first_last : fact_field FieldFirstLastPiecePrio (λ t _, t_FirstLastPiecePrio t = true)
| field_force_start : fact_field FieldForceStart (λ t _, t_ForceStart t = true)
| field_sequential : fact_field FieldSequentialDownload (λ t _, t_SequentialDownload t = true)
| field_super_seeding : fact_field FieldSuperSeeding (λ t _, t_SuperSeeding t = true)
| field_unregistered : fact_field FieldIsUnregistered (listed_in UnregisteredSet)
| field_exists_other : fact_field FieldExistsOnOtherInstance (listed_in (Some ∘ CrossInstanceHashSet))
| field_seeding_other : fact_field FieldSeedingOnOtherInstance (listed_in (Some ∘ CrossInstanceSeedingHashSet))
| field_exists_same : fact_field FieldExistsOnSameInstance (listed_in (Some ∘ SameInstanceCrossSeedHashSet))
| field_seeding_same : fact_field FieldSeedingOnSameInstance (listed_in (Some ∘ SameInstanceCrossSeedSeedingHashSet)).

(** ** States *)

Definition state_in (states : list TorrentState) (t : Torrent) (ctx : option EvalContext) : Prop := t_State t ∈ states.
Definition state_not_in (states : list TorrentState) (t : Torrent) (ctx : option EvalContext) : Prop := t_State t ∉ states.

(** The names that stand for several states, and for the health of trackers. *)
Inductive state_name : string → (Torrent → option EvalContext → Prop) → Prop :=
| bucket_completed : state_name "completed" (λ t _, f64_leb f64_one (t_Progress t) = true)
| bucket_downloading : state_name "downloading" (state_in
    [TorrentStateDownloading; TorrentStateStalledDl; TorrentStateMetaDl; TorrentStateQueuedDl; TorrentStateAllocating;
     TorrentStateCheckingDl; TorrentStateForcedDl])
| bucket_uploading name : name ∈ ["uploading"; "seeding"] → state_name name (state_in
    [TorrentStateUploading; TorrentStateStalledUp; TorrentStateQueuedUp; TorrentStateCheckingUp; TorrentStateForcedUp])
| bucket_stopped name : name ∈ ["paused"; "stopped"] → state_name name (state_in
    [TorrentStatePausedDl; TorrentStatePausedUp; TorrentStateStoppedDl; TorrentStateStoppedUp])
| bucket_running name : name ∈ ["running"; "resumed"] → state_name name (state_not_in
    [TorrentStatePausedDl; TorrentStatePausedUp; TorrentStateStoppedDl; TorrentStateStoppedUp])
| bucket_active : state_name "active" (state_in
    [TorrentStateDownloading; TorrentStateUploading; TorrentStateForcedDl; TorrentStateForcedUp])
| bucket_inactive : state_name "inactive" (state_not_in
    [TorrentStateDownloading; TorrentStateUploading; TorrentStateForcedDl; TorrentStateForcedUp])
| bucket_stalled : state_name "stalled" (state_in [TorrentStateStalledDl; TorrentStateStalledUp])
| bucket_stalled_up name : name ∈ ["stalled_uploading"; "stalled_seeding"] → state_name name (state_in [TorrentStateStalledUp])
| bucket_stalled_down : state_name "stalled_downloading" (state_in [TorrentStateStalledDl])
| bucket_checking : state_name "checking" (state_in
    [TorrentStateCheckingDl; TorrentStateCheckingUp; TorrentStateCheckingResumeData])
| bucket_moving : state_name "moving" (state_in [TorrentStateMoving])
| bucket_errored name : name ∈ ["errored"; "error"] → state_name name (state_in [TorrentStateError; TorrentStateMissingFiles])
| bucket_missing : state_name "missingfiles" (state_in [TorrentStateMissingFiles])
| bucket_unregistered : state_name "unregistered" (listed_in UnregisteredSet)
| bucket_tracker_down : state_name "tracker_down" (listed_in (Some ∘ TrackerDownSet))
| bucket_tracker_error : state_name "tracker_error" (listed_in (Some ∘ TrackerErrorSet)).

(** The state is the stated one: by the bucket of that name, else by its own name. *)
Definition state_is (t : Torrent) (value : string) (ctx : option EvalContext) : Prop :=
  let name := TrimSpace value in
  name ≠ "" ∧
  ((∃ P, state_name (ToLower name) P ∧ P t ctx) ∨ (∀ P, ¬ state_name (ToLower name) P) ∧ same_text (t_State t) name).

Definition state_states (t : Torrent) (cond : RuleCondition) (ctx : option EvalContext) : Prop :=
  rc_Operator cond = OperatorEqual ∧ state_is t (rc_Value cond) ctx ∨
  rc_Operator cond = OperatorNotEqual ∧ ¬ state_is t (rc_Value cond) ctx ∨
  rc_Operator cond ≠ OperatorEqual ∧ rc_Operator cond ≠ OperatorNotEqual ∧ text_states (t_State t) cond.

(** ** Other torrents, and values that are known for some torrents only *)

(** The category of the value; a blank value that is not empty is no category. *)
Definition stated_category (value key : string) : Prop :=
  key = normalizeLowerTrim value ∧ (value = "" ∨ key ≠ "").

(** Another torrent of the category has the same name up to case. *)
Definition named_in_category (t : Torrent) (value : string) (ctx : option EvalContext) : Prop :=
  ∃ c key byName hashes h, ctx = Some c ∧ stated_category value key ∧ CategoryIndex (ec_facts c) !! key = Some byName ∧
    byName !! normalizeLower (t_Name t) = Some hashes ∧ h ∈ hashes ∧ h ≠ t_Hash t.

(** One of two normalised names of at least ten bytes, those of the torrent and of
    another of the category, contains the other. *)
Definition contained_in_category (t : Torrent) (value : string) (ctx : option EvalContext) : Prop :=
  ∃ c key entries e, ctx = Some c ∧ stated_category value key ∧ CategoryNames (ec_facts c) !! key = Some entries ∧
    e ∈ entries ∧ cg_Hash e ≠ t_Hash t ∧
    let mine := normalizeName (t_Name t) in
    let other := cg_NormalizedName e in
    (10 ≤ length (to_bytes mine) ∧ 10 ≤ length (to_bytes other))%nat ∧ (occurs mine other ∨ occurs other mine).

Definition known {A} (values : EvalFacts → gmap string A) (t : Torrent) (ctx : option EvalContext) (value : A) : Prop :=
  ∃ c, ctx = Some c ∧ InstanceHasLocalAccess (ec_facts c) = true ∧ values (ec_facts c) !! t_Hash t = Some value.

(** ** Leaves *)

Inductive leaf_states (cond : RuleCondition) (t : Torrent) (ctx : option EvalContext) : Prop :=
| leaf_text get : text_field (rc_Field cond) get → text_states (get t ctx) cond → leaf_states cond t ctx
| leaf_int get : int_field (rc_Field cond) get → int_states (get t) cond → leaf_states cond t ctx
| leaf_age get : age_field (rc_Field cond) get → age_states (get t) cond ctx → leaf_states cond t ctx
| leaf_float get : float_field (rc_Field cond) get → float_states (get t) cond → leaf_states cond t ctx
| leaf_time get : time_field (rc_Field cond) get → int_states (get (civil_time (now_unix ctx))) cond → leaf_states cond t ctx
| leaf_fact P : fact_field (rc_Field cond) P → fact_states (P t ctx) cond → leaf_states cond t ctx
| leaf_name : rc_Field cond = FieldName → rc_Operator cond ≠ OperatorExistsIn → rc_Operator cond ≠ OperatorContainsIn →
    text_states (t_Name t) cond → leaf_states cond t ctx
| leaf_named : rc_Field cond = FieldName → rc_Operator cond = OperatorExistsIn →
    named_in_category t (rc_Value cond) ctx → leaf_states cond t ctx
| leaf_contained : rc_Field cond = FieldName → rc_Operator cond = OperatorContainsIn →
    contained_in_category t (rc_Value cond) ctx → leaf_states cond t ctx
| leaf_tags : rc_Field cond = FieldTags → tags_state (t_Tags t) cond → leaf_states cond t ctx
| leaf_state : rc_Field cond = FieldState → state_states t cond ctx → leaf_states cond t ctx
| leaf_tracker : rc_Field cond = FieldTracker →
    some_text_states (trackerCandidates (t_Tracker t) ctx) cond → leaf_states cond t ctx
| leaf_trackers : rc_Field cond = FieldTrackers →
    some_text_states ((t_Tracker t :: (tt_Url <$> t_Trackers t)) ≫= λ url, trackerCandidates url ctx) cond → leaf_states cond t ctx
| leaf_free_space c : rc_Field cond = FieldFreeSpace → ctx = Some c →
    int_states (i64 (FreeSpace c + SpaceToClear c)) cond → leaf_states cond t ctx
| leaf_over_size : rc_Field cond = FieldUploadedOverSize → t_TotalSize t ≠ 0%Z →
    float_states (f64_div (f64_of_Z (t_Uploaded t)) (f64_of_Z (t_TotalSize t))) cond → leaf_states cond t ctx
| leaf_progress : rc_Field cond = FieldProgress →
    float_states (t_Progress t) (normalizeProgressCondition cond) → leaf_states cond t ctx
| leaf_group_size : rc_Field cond = FieldGroupSize →
    int_states (SizeForHash (resolveConditionGroupIndex cond ctx) (t_Hash t)) cond → leaf_states cond t ctx
| leaf_grouped : rc_Field cond = FieldIsGrouped →
    fact_states (1 < SizeForHash (resolveConditionGroupIndex cond ctx) (t_Hash t))%Z cond → leaf_states cond t ctx
| leaf_scope scope : rc_Field cond = FieldHardlinkScope → known HardlinkScopeByHash t ctx scope →
    scope_states scope cond → leaf_states cond t ctx
| leaf_scope_cross scope : rc_Field cond = FieldHardlinkScopeCross → known HardlinkCrossScopeByHash t ctx scope →
    scope_states scope cond → leaf_states cond t ctx
| leaf_missing missing : rc_Field cond = FieldHasMissingFiles → known HasMissingFilesByHash t ctx missing →
    fact_states (missing = true) cond → leaf_states cond t ctx.

(** ** Comparisons compute it *)

Lemma op_decide (P Q : Prop) `{!Decision P} (b c : bool) :
  (if bool_decide P then b else c) = true ↔ P ∧ b = true ∨ ¬ P ∧ c = true.
Proof. case_bool_decide; naive_solver. Qed.

Lemma needs_regex_spec cond : needs_regex cond = true ↔ rc_Regex cond = true ∨ rc_Operator cond = OperatorMatches.
Proof. unfold needs_regex. by rewrite orb_true_iff, bool_decide_eq_true. Qed.

Lemma needs_regex_plain cond : needs_regex cond = false ↔ plain_text cond.
Proof. unfold needs_regex, plain_text. by rewrite orb_false_iff, bool_decide_eq_false. Qed.

Lemma is_negative_spec cond : is_negative cond = true ↔ negative cond.
Proof. unfold is_negative, negative. rewrite orb_true_iff, !bool_decide_eq_true. tauto. Qed.

Lemma pattern_of_spec cond m : pattern_of cond m ↔ needs_regex cond = true ∧ Compiled cond = Some m.
Proof.
  rewrite needs_regex_spec. unfold pattern_of, Compiled, is_lookup.
  case_bool_decide; cbn [orb]; [naive_solver|]. case_bool_decide; naive_solver.
Qed.

Lemma pattern_not_plain cond m : pattern_of cond m → ¬ plain_text cond.
Proof. intros [Hp _]%pattern_of_spec Hq%needs_regex_plain. congruence. Qed.

(** The operators are different texts. *)
Ltac operators :=
  repeat match goal with
  | H : rc_Operator ?c = _, H' : rc_Operator ?c = _ |- _ => rewrite H in H'; discriminate H'
  | H : rc_Operator ?c = _ |- context [bool_decide (rc_Operator ?c = _)] => rewrite H
  end.

Lemma Contains_fold s v : Contains (ToLower s) (ToLower v) = true ↔ occurs_fold v s.
Proof. apply Contains_spec. Qed.

Lemma compareString_spec s cond : compareString s cond = true ↔ text_states s cond.
Proof.
  unfold compareString. destruct (needs_regex cond) eqn:Hr.
  - split.
    + destruct (Compiled cond) as [m|] eqn:Hc; [|done].
      assert (pattern_of cond m) as Hp by by apply pattern_of_spec.
      destruct (is_negative cond) eqn:Hn.
      * intros Hm%negb_true_iff. by apply (text_matches_not _ _ m); [|apply is_negative_spec|].
      * intros Hm. apply (text_matches _ _ m); [done| |done]. rewrite <- is_negative_spec. congruence.
    + intros Hs. assert (¬ plain_text cond) as Hnp by (intros ?%needs_regex_plain; congruence).
      inversion Hs as [m Hp Hn Hm|m Hp Hn Hm| | | | | |]; try done; apply pattern_of_spec in Hp as [_ ->].
      * destruct (is_negative cond) eqn:E; [by apply is_negative_spec in E|done].
      * apply is_negative_spec in Hn. by rewrite Hn, Hm.
  - apply needs_regex_plain in Hr. cbv zeta. split.
    + repeat (case_bool_decide as Ho;
        [first [rewrite Contains_fold|rewrite HasPrefix_spec|rewrite HasSuffix_spec|rewrite negb_true_iff|idtac]; intros Hx
        |clear Ho]); [..|done].
      * by apply text_equal.
      * apply text_not_equal; [done..|]. unfold same_text. congruence.
      * by apply text_contains.
      * apply text_not_contains; [done..|]. rewrite <- Contains_fold. congruence.
      * by apply text_starts.
      * by apply text_ends.
    + intros Hs. inversion Hs as [m Hp|m Hp|_ Ho Hx|_ Ho Hx|_ Ho Hx|_ Ho Hx|_ Ho Hx|_ Ho Hx];
        [by apply pattern_not_plain in Hp|by apply pattern_not_plain in Hp|..]; rewrite Ho; cbn.
      * done.
      * unfold same_text in Hx. by destruct (EqualFold _ _).
      * by apply Contains_fold.
      * rewrite <- Contains_fold in Hx. by destruct (Contains _ _).
      * by apply HasPrefix_spec.
      * by apply HasSuffix_spec.
Qed.

(** *** Several texts *)

Lemma dedup_fold_spec l : 
  let acc := foldl dedup_step (∅, []) l in
  (∀ k, k ∈ acc.1 ↔ ∃ b, b ∈ l ∧ ToLower b = k) ∧ (∀ c, c ∈ acc.2 ↔ first_of_kind l c).
Proof.
  cbv zeta. induction l as [|x l [IHk IHc]] using rev_ind.
  { split; [intros k|intros c]; cbn.
    - split; [by intros ?%elem_of_empty|]. by intros (b & ?%elem_of_nil & _).
    - split; [by intros ?%elem_of_nil|]. intros (before & after & E & _). by destruct before. }
  rewrite foldl_snoc. set (acc := foldl dedup_step (∅, []) l) in *. unfold dedup_step.
  assert (∀ c, first_of_kind (l ++ [x]) c ↔ first_of_kind l c ∨ c = x ∧ ∀ b, b ∈ l → ToLower b ≠ ToLower c) as Hsnoc.
  { intros c. unfold first_of_kind. split.
    - intros (before & after & E & Hb). destruct after as [|y after _] using rev_ind.
      + apply app_inj_tail in E as [-> ->]. by right.
      + left. rewrite app_comm_cons, app_assoc in E. apply app_inj_tail in E as [-> ->]. by exists before, after.
    - intros [(before & after & -> & Hb)|[-> Hb]].
      + exists before, (after ++ [x]). by rewrite <- app_assoc.
      + by exists l, []. }
  case_bool_decide as Hin.
  - split; [intros k; rewrite IHk|intros c; rewrite IHc, Hsnoc].
    + setoid_rewrite elem_of_app. setoid_rewrite list_elem_of_singleton. split; [naive_solver|].
      intros (b & [Hb| ->] & <-); [by exists b|]. by apply IHk.
    + split; [by left|]. intros [?|[-> Hb]]; [done|]. apply IHk in Hin as (b & Hbl & E). by destruct (Hb b Hbl).
  - cbn [fst snd]. split; [intros k; rewrite elem_of_union, elem_of_singleton, IHk|intros c; rewrite elem_of_app, list_elem_of_singleton, IHc, Hsnoc].
    + setoid_rewrite elem_of_app. setoid_rewrite list_elem_of_singleton. naive_solver.
    + split; [|naive_solver]. intros [?| ->]; [by left|right]. split; [done|].
      intros b Hb E. apply Hin, IHk. by exists b.
Qed.

Lemma elem_of_dedup l c : c ∈ dedup_fold l ↔ first_of_kind l c.
Proof. apply dedup_fold_spec. Qed.

Lemma some_text_states_spec l cond :
  l ≠ [] →
  some_text_states l cond ↔
  if is_negative cond then ((∃ m, pattern_of cond m) ∨ plain_text cond) ∧ (∀ c, c ∈ dedup_fold l → compareString c cond = true)
  else ∃ c, c ∈ dedup_fold l ∧ compareString c cond = true.
Proof.
  intros Hl. pose proof (λ c, compareString_spec c cond) as Hcs. pose proof (elem_of_dedup l) as Hd.
  destruct (is_negative cond) eqn:E.
  - assert (negative cond) as Hn by by apply is_negative_spec. split.
    + intros [?|c _ Hn'|_ _ Hp Hall]; [done|done|]. split; [done|]. intros c Hc. by apply Hcs, Hall, Hd.
    + intros [Hp Hall]. apply texts_all; [done..|]. intros c Hc. by apply Hcs, Hall, Hd.
  - assert (¬ negative cond) as Hn by (rewrite <- is_negative_spec; congruence). split.
    + intros [?|c Hc _ Ht|_ Hn']; [done| |done]. exists c. split; [by apply Hd|by apply Hcs].
    + intros (c & Hc & Ht). apply (texts_some _ _ c); [by apply Hd|done|by apply Hcs].
Qed.

Lemma negb_existsb_all {A} (f g : A → bool) l :
  (∀ x, g x = negb (f x)) → negb (existsb f l) = true ↔ ∀ x, x ∈ l → g x = true.
Proof.
  intros Hg. rewrite negb_true_iff. split.
  - intros Hf x Hx. rewrite Hg. apply negb_true_iff. destruct (f x) eqn:E; [|done].
    assert (existsb f l = true) by (apply existsb_elem; eauto). congruence.
  - intros Hall. destruct (existsb f l) eqn:E; [|done]. apply existsb_elem in E as (x & Hx & Hf).
    specialize (Hall x Hx). by rewrite Hg, Hf in Hall.
Qed.

Lemma compareStringCandidates_spec l cond : compareStringCandidates l cond = true ↔ some_text_states l cond.
Proof.
  unfold compareStringCandidates. case_bool_decide as Hl.
  { rewrite compareString_spec. split; [by apply texts_none|]. intros [|c (? & ? & E & _)|]; [done| |done].
    subst l. by destruct (app_cons_not_nil _ _ _ E). }
  rewrite some_text_states_spec by done. cbv zeta. generalize (dedup_fold l). intros uniq.
  destruct (needs_regex cond) eqn:Hr.
  - destruct (Compiled cond) as [m|] eqn:Hc.
    + assert (pattern_of cond m) as Hp by by apply pattern_of_spec.
      assert (∀ c, compareString c cond = if is_negative cond then negb (m c) else m c) as Hs
        by (intros; unfold compareString; by rewrite Hr, Hc).
      destruct (is_negative cond).
      * rewrite (negb_existsb_all m (λ c, compareString c cond)) by done. split; [|by intros [_ ?]]. intros ?. split; [left; eauto|done].
      * rewrite existsb_elem. by setoid_rewrite Hs.
    + split; [done|]. assert (∀ c, compareString c cond = false) as Hs by (intros; unfold compareString; by rewrite Hr, Hc).
      destruct (is_negative cond).
      * intros [[[m [_ Hm]%pattern_of_spec]|Hp%needs_regex_plain] _]; congruence.
      * intros (c & _ & Hs'). by rewrite Hs in Hs'.
  - assert (plain_text cond) as Hp by by apply needs_regex_plain.
    case_bool_decide as Hne.
    { assert (is_negative cond = true) as -> by (apply is_negative_spec; by left).
      rewrite (negb_existsb_all _ (λ c, compareString c cond)).
      - split; [intros ?; split; [by right|done]|by intros [_ ?]].
      - intros c. unfold compareString. rewrite Hr. cbv zeta. by rewrite Hne. }
    case_bool_decide as Hnc.
    { assert (is_negative cond = true) as -> by (apply is_negative_spec; by right).
      rewrite (negb_existsb_all _ (λ c, compareString c cond)).
      - split; [intros ?; split; [by right|done]|by intros [_ ?]].
      - intros c. unfold compareString. rewrite Hr. cbv zeta. by rewrite Hnc. }
    destruct (is_negative cond) eqn:E; [apply is_negative_spec in E as [?|?]; done|]. by rewrite existsb_elem.
Qed.

(** *** Tags *)

Lemma compareTags_spec raw cond : compareTags raw cond = true ↔ tags_state raw cond.
Proof.
  unfold compareTags. destruct (needs_regex cond) eqn:Hr.
  - assert (¬ plain_text cond) as Hnp by (intros ?%needs_regex_plain; congruence).
    pose proof (compareString_spec raw cond) as Hs. unfold compareString in Hs. rewrite Hr in Hs. rewrite Hs. split.
    + intros Ht. inversion Ht as [m Hp|m Hp| | | | | |]; try done; by apply (tags_matches _ _ m).
    + intros Ht. inversion Ht; done.
  - apply needs_regex_plain in Hr. cbv zeta. unfold anyTagMatches, tagContains, tagStartsWith, tagEndsWith.
    set (v := normalizeLowerTrim (rc_Value cond)). split.
    + repeat (case_bool_decide as Ho; [first [rewrite existsb_elem; intros (tag & Htag & Hx)|rewrite (negb_existsb_all _ _ _ (λ _, eq_refl)); intros Hx]|clear Ho]);
        [..|done].
      * by apply (tags_equal _ _ tag).
      * apply tags_not_equal; [done..|]. intros tag Htag%Hx%negb_true_iff. unfold same_text. fold v. congruence.
      * apply (tags_contain _ _ tag); [done..|]. by apply Contains_spec.
      * apply tags_not_contain; [done..|]. intros tag Htag%Hx%negb_true_iff. fold v. rewrite <- Contains_spec. congruence.
      * apply (tags_start _ _ tag); [done..|]. by apply HasPrefix_spec.
      * apply (tags_end _ _ tag); [done..|]. by apply HasSuffix_spec.
    + intros Ht. inversion Ht as [m Hp|tag _ Ho Hin Hx|_ Ho Hx|tag _ Ho Hin Hx|_ Ho Hx|tag _ Ho Hin Hx|tag _ Ho Hin Hx];
        [by apply pattern_not_plain in Hp|..]; rewrite Ho; cbn -[existsb];
        first [apply existsb_elem; exists tag; split; [done|]|apply (negb_existsb_all _ _ _ (λ _, eq_refl)); intros tag Hin; specialize (Hx tag Hin); apply negb_true_iff];
        fold v in Hx.
      * done.
      * unfold same_text in Hx. by destruct (EqualFold _ _).
      * by apply Contains_spec.
      * rewrite <- Contains_spec in Hx. by destruct (Contains _ _).
      * by apply HasPrefix_spec.
      * by apply HasSuffix_spec.
Qed.

(** *** Numbers *)

Lemma between_spec value cond :
  rc_Operator cond = OperatorBetween →
  match rc_MinValue cond, rc_MaxValue cond with
  | Some lo, Some hi => f64_leb lo value && f64_leb value hi
  | _, _ => false
  end = true ↔ between_states value cond.
Proof.
  intros Ho. unfold between_states. rewrite Ho. destruct (rc_MinValue cond) as [lo|], (rc_MaxValue cond) as [hi|]; try naive_solver.
  rewrite andb_true_iff. split; [intros [? ?]; split; [done|]; by exists lo, hi|]. by intros (_ & ? & ? & [= <-] & [= <-] & ? & ?).
Qed.

(** The chain of operators. *)
Lemma order_chain {A} (eq lt le : A → A → Prop) (eqb ltb leb : A → A → bool) value stated cond (between : bool) (B : Prop) :
  (eqb value stated = true ↔ eq value stated) →
  (∀ a b, ltb a b = true ↔ lt a b) → (∀ a b, leb a b = true ↔ le a b) →
  (rc_Operator cond = OperatorBetween → between = true ↔ B) → (B → rc_Operator cond = OperatorBetween) →
  (let op := rc_Operator cond in
   if bool_decide (op = OperatorEqual) then eqb value stated
   else if bool_decide (op = OperatorNotEqual) then negb (eqb value stated)
   else if bool_decide (op = OperatorGreaterThan) then ltb stated value
   else if bool_decide (op = OperatorGreaterThanOrEqual) then leb stated value
   else if bool_decide (op = OperatorLessThan) then ltb value stated
   else if bool_decide (op = OperatorLessThanOrEqual) then leb value stated
   else if bool_decide (op = OperatorBetween) then between else false) = true ↔
  order_states eq lt le value stated cond ∨ B.
Proof.
  intros He Hlt Hle Hb HB. cbv zeta. split.
  - repeat (case_bool_decide as Ho;
      [rewrite ?Hlt, ?Hle; intros Hx|clear Ho]); [..|done].
    + left. by apply order_equal; [|apply He].
    + left. apply order_not_equal; [done|]. rewrite <- He. by destruct (eqb _ _).
    + left. by apply order_greater.
    + left. by apply order_at_least.
    + left. by apply order_less.
    + left. by apply order_at_most.
    + right. by apply Hb.
  - intros [Ho|Hx]; [inversion Ho as [E Hx|E Hx|E Hx|E Hx|E Hx|E Hx]; rewrite E; cbn|].
    + by apply He.
    + rewrite <- He in Hx. by destruct (eqb _ _).
    + by apply Hlt.
    + by apply Hle.
    + by apply Hlt.
    + by apply Hle.
    + pose proof (HB Hx) as E. rewrite E. cbn. by apply Hb.
Qed.

Lemma compareInt64_spec value cond : compareInt64 value cond = true ↔ int_states value cond.
Proof.
  unfold compareInt64, int_states. destruct (ParseInt (rc_Value cond)) as [stated ok] eqn:Ep.
  assert (rc_Value cond = "" → stated = 0%Z ∧ ok = false) as Hempty by (intros E; rewrite E in Ep; by injection Ep as <- <-).
  destruct (negb ok && negb (bool_decide (rc_Value cond = ""))) eqn:En.
  - split; [done|]. apply andb_true_iff in En as [->%negb_true_iff En%negb_true_iff%bool_decide_eq_false].
    intros (st & [[= _ ?]|[? _]] & _); done.
  - rewrite (order_chain eq Z.lt Z.le Z.eqb Z.ltb Z.leb value stated cond _ (between_states (f64_of_Z value) cond)).
    + split.
      * intros Hx. exists stated. split; [|done]. apply andb_false_iff in En as [En|En]; apply negb_false_iff in En; [by subst; left|right].
        apply bool_decide_eq_true in En. by destruct (Hempty En).
      * intros (st & [[= -> ->]|[E ->]] & Hx); [done|]. by destruct (Hempty E) as [-> _].
    + apply Z.eqb_eq.
    + apply Z.ltb_lt.
    + apply Z.leb_le.
    + apply between_spec.
    + by intros [? _].
Qed.

Lemma compareFloat64_spec value cond : compareFloat64 value cond = true ↔ float_states value cond.
Proof.
  unfold compareFloat64, float_states. destruct (ParseFloat (rc_Value cond)) as [stated|] eqn:Ep.
  - cbn [default from_option id]. rewrite (order_chain (λ a b, f64_eqb a b = true) (λ a b, f64_ltb a b = true) (λ a b, f64_leb a b = true)
      f64_eqb f64_ltb f64_leb value stated cond _ (between_states value cond)); [|done|done|done|apply between_spec|by intros [? _]].
    split; [intros Hx; exists stated; split; [by left|done]|]. by intros (st & [[= ->]|(? & _)] & Hx).
  - case_bool_decide as E.
    + cbn [default from_option id]. rewrite (order_chain (λ a b, f64_eqb a b = true) (λ a b, f64_ltb a b = true) (λ a b, f64_leb a b = true)
        f64_eqb f64_ltb f64_leb value f64_zero cond _ (between_states value cond)); [|done|done|done|apply between_spec|by intros [? _]].
      split; [intros Hx; exists f64_zero; split; [by right|done]|]. by intros (st & [?|(_ & _ & ->)] & Hx).
    + split; [done|]. by intros (st & [?|(_ & ? & _)] & _).
Qed.

Lemma compareAgeIfSet_spec timestamp cond ctx : compareAgeIfSet timestamp cond ctx = true ↔ age_states timestamp cond ctx.
Proof.
  unfold compareAgeIfSet, compareAge, age_states. destruct (Z.leb_spec timestamp 0).
  - split; [done|]. intros [? _]. lia.
  - rewrite compareInt64_spec. naive_solver.
Qed.

Lemma compareBool_spec (b : bool) (P : Prop) cond : (b = true ↔ P) → compareBool b cond = true ↔ fact_states P cond.
Proof.
  intros HP. unfold compareBool, fact_states.
  set (st := bool_decide (ToLower (rc_Value cond) = "true") || bool_decide (rc_Value cond = "1")).
  assert (st = true ↔ ToLower (rc_Value cond) = "true" ∨ rc_Value cond = "1") as Hst
    by (unfold st; by rewrite orb_true_iff, !bool_decide_eq_true).
  cbv zeta. rewrite <- HP, <- Hst. clear HP Hst. clearbody st.
  destruct (decide (rc_Operator cond = OperatorEqual)) as [Ho|Hn].
  - rewrite Ho. cbn. destruct b, st; cbn; naive_solver.
  - rewrite bool_decide_eq_false_2 by done. case_bool_decide as Ho; [|naive_solver].
    destruct b, st; cbn; naive_solver.
Qed.

Lemma compareHardlinkScope_spec scope cond : compareHardlinkScope scope cond = true ↔ scope_states scope cond.
Proof.
  unfold compareHardlinkScope, scope_states, same_text. destruct (decide (rc_Operator cond = OperatorEqual)) as [Ho|Hn].
  - rewrite Ho. cbn. naive_solver.
  - rewrite bool_decide_eq_false_2 by done. case_bool_decide as Ho; [rewrite negb_true_iff|naive_solver].
    rewrite <- not_true_iff_false. naive_solver.
Qed.

(** *** States *)

Lemma hash_in_spec f g t ctx :
  (∀ facts, g facts = default ∅ (f facts)) → hash_in g t ctx = true ↔ listed_in f t ctx.
Proof.
  intros Hg. unfold hash_in, listed_in. destruct ctx as [c|]; [|naive_solver].
  rewrite bool_decide_eq_true, Hg. destruct (f (ec_facts c)) as [hashes|] eqn:E; cbn; [naive_solver|].
  split; [by intros ?%elem_of_empty|]. intros (c' & hashes & [= <-] & E' & _). congruence.
Qed.

Lemma in_states_spec t states ctx : in_states t states = true ↔ state_in states t ctx.
Proof. apply bool_decide_eq_true. Qed.

Lemma not_in_states_spec t states ctx : negb (in_states t states) = true ↔ state_not_in states t ctx.
Proof. unfold in_states, state_not_in. by rewrite negb_true_iff, bool_decide_eq_false. Qed.

(** A bucket is one of the cases of the code, and it means the same. *)
Lemma bucket_computed t ctx name P :
  state_name name P → ∃ b, state_bucket t name ctx = Some b ∧ (b = true ↔ P t ctx).
Proof.
  intros HP. destruct HP;
    repeat match goal with
    | Hn : _ ∈ _ :: _ |- _ => apply elem_of_cons in Hn as [->|Hn]
    | Hn : _ ∈ [] |- _ => by apply elem_of_nil in Hn
    end;
    (eexists; split; [reflexivity|]);
    first [apply in_states_spec|apply not_in_states_spec|by apply hash_in_spec|done].
Qed.

Lemma bucket_of_case t ctx name b : state_bucket t name ctx = Some b → ∃ P, state_name name P.
Proof.
  unfold state_bucket. cbv zeta.
  repeat match goal with
  | |- (if bool_decide (name ∈ ?l) then _ else _) = _ → _ =>
    destruct (bool_decide_reflect (name ∈ l)) as [Hn|_];
      [intros _; first [apply list_elem_of_singleton in Hn as ->|idtac]; eexists|]
  end; [..|discriminate].
  - apply bucket_completed.
  - apply bucket_downloading.
  - by apply bucket_uploading.
  - by apply bucket_stopped.
  - by apply bucket_running.
  - apply bucket_active.
  - apply bucket_inactive.
  - apply bucket_stalled.
  - by apply bucket_stalled_up.
  - apply bucket_stalled_down.
  - apply bucket_checking.
  - apply bucket_moving.
  - by apply bucket_errored.
  - apply bucket_missing.
  - apply bucket_unregistered.
  - apply bucket_tracker_down.
  - apply bucket_tracker_error.
Qed.

Lemma matchesStateValue_spec t value ctx : matchesStateValue t value ctx = true ↔ state_is t value ctx.
Proof.
  unfold matchesStateValue, state_is. cbv zeta. case_bool_decide as Hv; [naive_solver|].
  destruct (state_bucket t (ToLower (TrimSpace value)) ctx) as [b|] eqn:E.
  - destruct (bucket_of_case _ _ _ _ E) as [P HP]. destruct (bucket_computed t ctx _ _ HP) as (b' & E' & Hb).
    rewrite E in E'. injection E' as <-. rewrite Hb. split; [intros Hx; split; [done|]; left; by exists P|].
    intros [_ [(Q & HQ & Hx)|[HN _]]]; [|by destruct (HN P)].
    destruct (bucket_computed t ctx _ _ HQ) as (b' & E' & Hb'). rewrite E in E'. injection E' as <-. tauto.
  - assert (∀ P, ¬ state_name (ToLower (TrimSpace value)) P) as HN.
    { intros P HP. destruct (bucket_computed t ctx _ _ HP) as (b & E' & _). congruence. }
    split; [intros Hx; split; [done|]; by right|]. intros [_ [(Q & HQ & _)|[_ Hx]]]; [by destruct (HN Q)|done].
Qed.

Lemma compareState_spec t cond ctx : compareState t cond ctx = true ↔ state_states t cond ctx.
Proof.
  unfold compareState, state_states. destruct (decide (rc_Operator cond = OperatorEqual)) as [Ho|Hn].
  { rewrite bool_decide_eq_true_2 by done. rewrite matchesStateValue_spec, Ho. split; [by left|].
    intros [[_ ?]|[[? _]|[? _]]]; done. }
  rewrite bool_decide_eq_false_2 by done. case_bool_decide as Ho.
  - rewrite Ho, negb_true_iff, <- matchesStateValue_spec, <- not_true_iff_false. split; [intros ?; by right; left|].
    intros [[? _]|[[_ ?]|(_ & ? & _)]]; done.
  - rewrite compareString_spec. split; [intros ?; by right; right|]. intros [[? _]|[[? _]|(_ & _ & ?)]]; done.
Qed.

(** *** Other torrents *)

Lemma stated_category_spec value key :
  stated_category value key ↔
  negb (bool_decide (value = "")) && bool_decide (normalizeLowerTrim value = "") = false ∧ key = normalizeLowerTrim value.
Proof.
  unfold stated_category. rewrite andb_false_iff, negb_false_iff, bool_decide_eq_true, bool_decide_eq_false. naive_solver.
Qed.

Lemma existsInCategory_spec t value ctx :
  existsInCategory (t_Hash t) (t_Name t) value ctx = true ↔ named_in_category t value ctx.
Proof.
  unfold existsInCategory, named_in_category. destruct ctx as [c|]; [|naive_solver]. cbv zeta. split.
  - destruct (negb _ && _) eqn:Eg; [done|].
    destruct (CategoryIndex _ !! _) as [byName|] eqn:Ec; [|done].
    destruct (byName !! _) as [hashes|] eqn:En; [|done].
    intros (h & Hh & Hn)%existsb_elem. exists c, (normalizeLowerTrim value), byName, hashes, h.
    split_and!; [done|by apply stated_category_spec|done|done|by apply elem_of_elements|].
    by apply negb_true_iff, bool_decide_eq_false in Hn.
  - intros (c' & key & byName & hashes & h & [= <-] & [Eg ->]%stated_category_spec & Ec & En & Hh & Hn).
    rewrite Eg, Ec, En. apply existsb_elem. exists h. rewrite elem_of_elements. split; [done|]. by rewrite bool_decide_eq_false_2.
Qed.

Lemma long_enough s : negb (byte_length s <? minContainsNameLength)%nat = true ↔ (10 ≤ length (to_bytes s))%nat.
Proof. unfold byte_length, minContainsNameLength. rewrite negb_true_iff, Nat.ltb_ge. done. Qed.

Lemma containsInCategory_spec t value ctx :
  containsInCategory (t_Hash t) (t_Name t) value ctx = true ↔ contained_in_category t value ctx.
Proof.
  unfold containsInCategory, contained_in_category. destruct ctx as [c|]; [|naive_solver]. cbv zeta.
  pose proof (long_enough (normalizeName (t_Name t))) as Hlong. split.
  - destruct (negb _ && _) eqn:Eg; [done|].
    destruct (byte_length (normalizeName (t_Name t)) <? minContainsNameLength)%nat; [done|].
    destruct (CategoryNames _ !! _) as [entries|] eqn:Ec; [|done].
    intros (e & He & [[Hh Hl]%andb_true_iff Ho]%andb_true_iff)%existsb_elem. exists c, (normalizeLowerTrim value), entries, e.
    split_and!; [done|by apply stated_category_spec|done|done| |by apply Hlong|by apply long_enough|].
    + by apply negb_true_iff, bool_decide_eq_false in Hh.
    + unfold names_overlap in Ho. rewrite orb_true_iff, !Contains_spec in Ho. tauto.
  - intros (c' & key & entries & e & [= <-] & [Eg ->]%stated_category_spec & Ec & He & Hh & [Hm Hl] & Ho).
    rewrite Eg. apply Hlong, negb_true_iff in Hm as ->. rewrite Ec. apply existsb_elem. exists e. split; [done|].
    rewrite bool_decide_eq_false_2 by done. apply long_enough in Hl as ->. cbn. unfold names_overlap.
    rewrite orb_true_iff, !Contains_spec. tauto.
Qed.

Lemma known_value_spec {A} (f : EvalFacts → gmap string A) t ctx value :
  known_value f t ctx = Some value ↔ known f t ctx value.
Proof.
  unfold known_value, known. split.
  - destruct ctx as [c|]; [|done]. destruct (InstanceHasLocalAccess _) eqn:E; [|done]. intros Hv. by exists c.
  - intros (c & -> & -> & Hv). done.
Qed.

(** ** Leaves compute it *)

Lemma case_of_sound {A} f (table : list (ConditionField * A)) a : case_of f table = Some a → (f, a) ∈ table.
Proof.
  unfold case_of. destruct (List.find _ _) as [[k v]|] eqn:E; [|done]. intros [= <-].
  apply List.find_some in E as [Hin Hk%bool_decide_eq_true]. cbn in Hk. subst. by apply list_elem_of_In.
Qed.

(** Membership in a table of the code, field by field. *)
Ltac by_field :=
  repeat match goal with
  | Hf : (_, _) ∈ _ :: _ |- _ => apply elem_of_cons in Hf as [[= -> ->]|Hf]
  | Hf : (_, _) ∈ [] |- _ => by apply elem_of_nil in Hf
  end.

Lemma text_field_case f get : case_of f string_leaves = Some get → text_field f get.
Proof. intros Hf%case_of_sound. unfold string_leaves in Hf. by_field; constructor. Qed.
Lemma int_field_case f get : case_of f int_leaves = Some get → int_field f get.
Proof. intros Hf%case_of_sound. unfold int_leaves in Hf. by_field; constructor. Qed.
Lemma age_field_case f get : case_of f age_leaves = Some get → age_field f get.
Proof. intros Hf%case_of_sound. unfold age_leaves in Hf. by_field; constructor. Qed.
Lemma float_field_case f get : case_of f float_leaves = Some get → float_field f get.
Proof. intros Hf%case_of_sound. unfold float_leaves in Hf. by_field; constructor. Qed.
Lemma time_field_case f get : case_of f time_leaves = Some get → time_field f get.
Proof. intros Hf%case_of_sound. unfold time_leaves in Hf. by_field; constructor. Qed.
Lemma fact_field_case f get t ctx :
  case_of f bool_leaves = Some get → ∃ P, fact_field f P ∧ (get t ctx = true ↔ P t ctx).
Proof.
  intros Hf%case_of_sound. unfold bool_leaves in Hf. by_field;
    (eexists; split; [by constructor|]); first [by apply hash_in_spec|done].
Qed.

Lemma bind_of_fmap {A B C} (f : A → B) (g : B → list C) l : (f <$> l) ≫= g = l ≫= λ a, g (f a).
Proof. induction l as [|a l IH]; [done|]. cbn. by rewrite <- IH. Qed.

(** The switch of the code takes the case of the field. *)
Lemma text_field_take f get : text_field f get → case_of f string_leaves = Some get.
Proof. by destruct 1. Qed.
Lemma int_field_take f get :
  int_field f get → case_of f string_leaves = None ∧ case_of f int_leaves = Some get.
Proof. by destruct 1. Qed.
Lemma age_field_take f get :
  age_field f get →
  case_of f string_leaves = None ∧ case_of f int_leaves = None ∧ case_of f age_leaves = Some get.
Proof. by destruct 1. Qed.
Lemma float_field_take f get :
  float_field f get →
  case_of f string_leaves = None ∧ case_of f int_leaves = None ∧ case_of f age_leaves = None ∧
  case_of f float_leaves = Some get.
Proof. by destruct 1. Qed.
Lemma time_field_take f get :
  time_field f get →
  case_of f string_leaves = None ∧ case_of f int_leaves = None ∧ case_of f age_leaves = None ∧
  case_of f float_leaves = None ∧ case_of f time_leaves = Some get.
Proof. by destruct 1. Qed.
Lemma fact_field_take f P t ctx :
  fact_field f P →
  case_of f string_leaves = None ∧ case_of f int_leaves = None ∧ case_of f age_leaves = None ∧
  case_of f float_leaves = None ∧ case_of f time_leaves = None ∧
  ∃ get, case_of f bool_leaves = Some get ∧ (get t ctx = true ↔ P t ctx).
Proof.
  destruct 1; (do 5 (split; [reflexivity|])); (eexists; split; [reflexivity|]);
    first [by apply hash_in_spec|done].
Qed.

(** The fields of the last part of the switch. *)
Definition special_fields : list ConditionField :=
  [FieldName; FieldTags; FieldState; FieldTracker; FieldTrackers; FieldFreeSpace; FieldUploadedOverSize; FieldProgress;
   FieldGroupSize; FieldIsGrouped; FieldHardlinkScope; FieldHardlinkScopeCross; FieldHasMissingFiles].

Lemma special_field_take cond t ctx :
  rc_Field cond ∈ special_fields → evaluateLeaf cond t ctx = special_leaf cond t ctx.
Proof.
  intros Hf. unfold evaluateLeaf. cbv zeta.
  assert (Forall (λ f, case_of f string_leaves = None ∧ case_of f int_leaves = None ∧ case_of f age_leaves = None ∧
    case_of f float_leaves = None ∧ case_of f time_leaves = None ∧ case_of f bool_leaves = None) special_fields) as Hall.
  { unfold special_fields. repeat (apply Forall_cons; split; [by split_and!|]). by apply Forall_nil. }
  rewrite Forall_forall in Hall. by destruct (Hall _ Hf) as (-> & -> & -> & -> & -> & ->).
Qed.

Lemma special_leaf_states cond t ctx : special_leaf cond t ctx = true → leaf_states cond t ctx.
Proof.
  unfold special_leaf, compareTracker, compareTrackers. cbv zeta.
  case_bool_decide as Hf.
  { destruct (decide (rc_Operator cond = OperatorExistsIn)) as [Ho|Hx].
    { rewrite bool_decide_eq_true_2 by done. intros Hl%existsInCategory_spec. by apply leaf_named. }
    rewrite bool_decide_eq_false_2 by done.
    case_bool_decide as Ho; [intros Hl%containsInCategory_spec; by apply leaf_contained|].
    intros Hl%compareString_spec. by apply leaf_name. }
  clear Hf. case_bool_decide as Hf; [intros Hl%compareTags_spec; by apply leaf_tags|].
  clear Hf. case_bool_decide as Hf; [intros Hl%compareState_spec; by apply leaf_state|].
  clear Hf. case_bool_decide as Hf; [intros Hl%compareStringCandidates_spec; by apply leaf_tracker|].
  clear Hf. case_bool_decide as Hf.
  { intros Hl%compareStringCandidates_spec. apply leaf_trackers; [done|]. cbn. by rewrite bind_of_fmap. }
  clear Hf. case_bool_decide as Hf.
  { destruct ctx as [c|]; [|done]. intros Hl%compareInt64_spec. by apply (leaf_free_space _ _ _ c). }
  clear Hf. case_bool_decide as Hf.
  { destruct (Z.eqb_spec (t_TotalSize t) 0); [done|]. intros Hl%compareFloat64_spec. by apply leaf_over_size. }
  clear Hf. case_bool_decide as Hf; [intros Hl%compareFloat64_spec; by apply leaf_progress|].
  clear Hf. case_bool_decide as Hf; [intros Hl%compareInt64_spec; by apply leaf_group_size|].
  clear Hf. case_bool_decide as Hf.
  { intros Hl%(compareBool_spec _ _ _ (Z.ltb_lt _ _)). by apply leaf_grouped. }
  clear Hf. case_bool_decide as Hf.
  { destruct (known_value _ t ctx) as [scope|] eqn:Ek; [|done]. intros Hl%compareHardlinkScope_spec.
    apply known_value_spec in Ek. by apply (leaf_scope _ _ _ scope). }
  clear Hf. case_bool_decide as Hf.
  { destruct (known_value _ t ctx) as [scope|] eqn:Ek; [|done]. intros Hl%compareHardlinkScope_spec.
    apply known_value_spec in Ek. by apply (leaf_scope_cross _ _ _ scope). }
  clear Hf. case_bool_decide as Hf; [|done].
  destruct (known_value _ t ctx) as [missing|] eqn:Ek; [|done]. intros Hl%(compareBool_spec _ _ _ (iff_refl _)).
  apply known_value_spec in Ek. by apply (leaf_missing _ _ _ missing).
Qed.

Lemma leaf_computed cond t ctx : evaluateLeaf cond t ctx = true → leaf_states cond t ctx.
Proof.
  unfold evaluateLeaf. cbv zeta.
  destruct (case_of _ string_leaves) as [get|] eqn:Ef.
  { intros Hl%compareString_spec. eapply leaf_text; [by apply text_field_case|done]. }
  clear Ef. destruct (case_of _ int_leaves) as [get|] eqn:Ef.
  { intros Hl%compareInt64_spec. eapply leaf_int; [by apply int_field_case|done]. }
  clear Ef. destruct (case_of _ age_leaves) as [get|] eqn:Ef.
  { intros Hl%compareAgeIfSet_spec. eapply leaf_age; [by apply age_field_case|done]. }
  clear Ef. destruct (case_of _ float_leaves) as [get|] eqn:Ef.
  { intros Hl%compareFloat64_spec. eapply leaf_float; [by apply float_field_case|done]. }
  clear Ef. destruct (case_of _ time_leaves) as [get|] eqn:Ef.
  { intros Hl%compareInt64_spec. eapply leaf_time; [by apply time_field_case|done]. }
  clear Ef. destruct (case_of _ bool_leaves) as [get|] eqn:Ef.
  { destruct (fact_field_case _ _ t ctx Ef) as (P & HP & Hg). intros Hl%(compareBool_spec _ _ _ Hg).
    by apply (leaf_fact _ _ _ P). }
  apply special_leaf_states.
Qed.

(** The field is decided: the chain of tests takes its case. *)
Ltac take_field Hf :=
  rewrite special_field_take by (rewrite Hf; by apply (bool_decide_unpack _));
  unfold special_leaf; cbv zeta; rewrite Hf;
  repeat match goal with
  | |- context [bool_decide (?a = ?b)] =>
    is_const a; is_const b; let v := eval vm_compute in (bool_decide (a = b)) in
    change (bool_decide (a = b)) with v; cbv iota
  end.

Lemma leaf_spec cond t ctx : evaluateLeaf cond t ctx = true ↔ leaf_states cond t ctx.
Proof.
  split; [apply leaf_computed|].
  intros [get Hf Hs|get Hf Hs|get Hf Hs|get Hf Hs|get Hf Hs|P Hf Hs|Hf Hx Hc Hs|Hf Ho Hs|Hf Ho Hs|Hf Hs|Hf Hs|Hf Hs|Hf Hs
    |c Hf -> Hs|Hf Hz Hs|Hf Hs|Hf Hs|Hf Hs|scope Hf Hk Hs|scope Hf Hk Hs|missing Hf Hk Hs].
  - unfold evaluateLeaf. cbv zeta. rewrite (text_field_take _ _ Hf). by apply compareString_spec.
  - unfold evaluateLeaf. cbv zeta. destruct (int_field_take _ _ Hf) as (-> & ->). by apply compareInt64_spec.
  - unfold evaluateLeaf. cbv zeta. destruct (age_field_take _ _ Hf) as (-> & -> & ->). by apply compareAgeIfSet_spec.
  - unfold evaluateLeaf. cbv zeta. destruct (float_field_take _ _ Hf) as (-> & -> & -> & ->). by apply compareFloat64_spec.
  - unfold evaluateLeaf. cbv zeta. destruct (time_field_take _ _ Hf) as (-> & -> & -> & -> & ->). by apply compareInt64_spec.
  - unfold evaluateLeaf. cbv zeta.
    destruct (fact_field_take _ _ t ctx Hf) as (-> & -> & -> & -> & -> & get & -> & Hg). by apply (compareBool_spec _ _ _ Hg).
  - take_field Hf. rewrite !bool_decide_eq_false_2 by done. by apply compareString_spec.
  - take_field Hf. rewrite bool_decide_eq_true_2 by done. by apply existsInCategory_spec.
  - take_field Hf. rewrite Ho. change (containsInCategory (t_Hash t) (t_Name t) (rc_Value cond) ctx = true). by apply containsInCategory_spec.
  - take_field Hf. by apply compareTags_spec.
  - take_field Hf. by apply compareState_spec.
  - take_field Hf. by apply compareStringCandidates_spec.
  - take_field Hf. apply compareStringCandidates_spec. cbn in Hs. by rewrite bind_of_fmap in Hs.
  - take_field Hf. by apply compareInt64_spec.
  - take_field Hf. destruct (Z.eqb_spec (t_TotalSize t) 0); [done|]. by apply compareFloat64_spec.
  - take_field Hf. by apply compareFloat64_spec.
  - take_field Hf. by apply compareInt64_spec.
  - take_field Hf. by apply (compareBool_spec _ _ _ (Z.ltb_lt _ _)).
  - take_field Hf. apply known_value_spec in Hk as ->. by apply compareHardlinkScope_spec.
  - take_field Hf. apply known_value_spec in Hk as ->. by apply compareHardlinkScope_spec.
  - take_field Hf. apply known_value_spec in Hk as ->. by apply (compareBool_spec _ _ _ (iff_refl _)).
Qed.

(** ** The meaning of a tree *)


(** The proposition a condition states: no bound on the depth, no order of
    evaluation. *)
Fixpoint holds (t : Torrent) (ctx : option EvalContext) (cond : RuleCondition) : Prop :=
  match cond with
  | MkCondition _ op _ _ _ _ _ negated children =>
    let child c := match c with Some c => holds t ctx c | None => False end in
    let fix any l := match l with [] => False | c :: l => child c ∨ any l end in
    let fix all l := match l with [] => True | c :: l => child c ∧ all l end in
    let body :=
      if IsGroup cond then if bool_decide (op = OperatorOr) then any children else all children
      else leaf_states cond t ctx in
    if negated then ¬ body else body
  end.

Definition holds_child (t : Torrent) (ctx : option EvalContext) (c : option RuleCondition) : Prop :=
  match c with Some c => holds t ctx c | None => False end.

Lemma holds_eq t ctx cond :
  holds t ctx cond ↔
  let body :=
    if IsGroup cond then
      if bool_decide (rc_Operator cond = OperatorOr)
      then Exists (holds_child t ctx) (rc_Conditions cond)
      else Forall (holds_child t ctx) (rc_Conditions cond)
    else leaf_states cond t ctx in
  if rc_Negate cond then ¬ body else body.
Proof.
  destruct cond as [f op g v mi ma r n l]. cbn [holds rc_Negate rc_Operator rc_Conditions].
  set (anyl := (fix any l := match l with [] => False | c :: l => _ ∨ any l end)).
  set (alll := (fix all l := match l with [] => True | c :: l => _ ∧ all l end)).
  assert (anyl l ↔ Exists (holds_child t ctx) l) as Hany.
  { induction l as [|c l IH]; [by rewrite Exists_nil|]. rewrite Exists_cons, <- IH. done. }
  assert (alll l ↔ Forall (holds_child t ctx) l) as Hall.
  { clear Hany. induction l as [|c l IH]; [by rewrite Forall_nil|]. rewrite Forall_cons, <- IH. done. }
  cbn zeta. destruct (IsGroup _), n; try case_bool_decide; by rewrite ?Hany, ?Hall.
Qed.

(** Levels of a tree, and whether every pattern in it compiles. *)
Fixpoint height (cond : RuleCondition) : nat :=
  match cond with
  | MkCondition _ _ _ _ _ _ _ _ children =>
    S (list_max (map (λ c, match c with Some c => height c | None => O end) children))
  end.

Fixpoint all_compile (cond : RuleCondition) : bool :=
  match cond with
  | MkCondition _ _ _ _ _ _ _ _ children =>
    negb (regex_fails cond) &&
    forallb (λ c, match c with Some c => all_compile c | None => true end) children
  end.

Lemma existsb_Exists {A} (f : A → bool) (P : A → Prop) l :
  Forall (λ x, f x = true ↔ P x) l → existsb f l = true ↔ Exists P l.
Proof.
  induction 1 as [|x l Hx _ IH]; simpl; [by rewrite Exists_nil|].
  by rewrite orb_true_iff, Exists_cons, Hx, IH.
Qed.

Lemma forallb_Forall' {A} (f : A → bool) (P : A → Prop) l :
  Forall (λ x, f x = true ↔ P x) l → forallb f l = true ↔ Forall P l.
Proof.
  induction 1 as [|x l Hx _ IH]; simpl; [by rewrite Forall_nil|].
  by rewrite andb_true_iff, Forall_cons, Hx, IH.
Qed.

Lemma negb_iff (b : bool) (P : Prop) : (b = true ↔ P) → negb b = true ↔ ¬ P.
Proof. intros <-. rewrite negb_true_iff. by destruct b. Qed.

Lemma evaluate_holds t ctx cond n :
  (height cond ≤ n)%nat → all_compile cond = true →
  evaluate n cond t ctx = true ↔ holds t ctx cond.
Proof.
  revert n. induction cond as [cond IH] using RuleCondition_tree_ind. intros n Hh Hc.
  rewrite holds_eq. destruct n as [|n]; [destruct cond; simpl in Hh; lia|].
  assert (regex_fails cond = false ∧ Forall (λ c,
    match c with Some c => evaluate n c t ctx | None => false end = true ↔ holds_child t ctx c)
    (rc_Conditions cond)) as [Hr Hchildren].
  { destruct cond as [f op g v mi ma r ng l]. cbn [height all_compile rc_Conditions] in *.
    apply andb_true_iff in Hc as [Hr Hc]. apply negb_true_iff in Hr. split; [done|].
    apply le_S_n in Hh. rewrite forallb_forall in Hc. apply Forall_forall. intros [c|] Hin; [|done].
    simpl. rewrite Forall_forall in IH. apply (IH (Some c) Hin).
    - etrans; [|exact Hh]. apply list_elem_of_In, (in_map (λ c, match c with Some c => height c | None => O end)) in Hin.
      pose proof (proj1 (list_max_le _ _) (le_n (list_max (map (λ c, match c with Some c => height c | None => O end) l)))) as Hmax.
      rewrite List.Forall_forall in Hmax. by apply Hmax in Hin.
    - apply (Hc (Some c)). by apply list_elem_of_In. }
  cbn [evaluate]. rewrite Hr. cbn zeta.
  destruct (IsGroup cond); [destruct (bool_decide (rc_Operator cond = OperatorOr))|];
    destruct (rc_Negate cond); rewrite ?(negb_iff _ _ (iff_refl _));
    rewrite ?(existsb_Exists _ _ _ Hchildren), ?(forallb_Forall' _ _ _ Hchildren), ?leaf_spec; done.
Qed.
End meaning.


(** C34. A condition tree of at most 21 levels whose patterns all compile is
    evaluated exactly: the result is true when what the tree states holds of the
    torrent.  A tree states some child, every child, or what its leaf states of
    its field, each possibly negated; [leaf_states] says so for every field and
    operator.  A value that is not known (scopes, missing files) makes no leaf
    hold, hence a negated leaf does hold; with the regex toggle an operator that
    says what is not so asks for no match of the pattern. *)
Theorem evaluation_exact `{!UnicodeCase, !UnicodeTables, !Library} (cond : RuleCondition)
    (t : Torrent) (ctx : option EvalContext) :
  (height cond ≤ S maxConditionDepth)%nat → all_compile cond = true →
  EvaluateConditionWithContext (Some cond) t ctx 0 = true ↔ holds t ctx cond.
Proof. apply evaluate_holds. Qed.

(** ** On a torrent *)

(** Large torrents tagged [keep], or any not in a category of films. *)
Definition sample_condition : RuleCondition :=
  group OperatorOr
    [group OperatorAnd [leaf FieldTags OperatorEqual "Keep" false;
                        leaf FieldSize OperatorGreaterThan "1000" false];
     leaf FieldCategory OperatorMatches "film" true].

Lemma evaluation_exact_witness :
  @holds AsciiCase AsciiTables SimpleLibrary
    (sample_torrent "aa" "Film.2024" "film" "old, KEEP" 5000) None sample_condition.
Proof.
  apply (@evaluation_exact AsciiCase AsciiTables SimpleLibrary sample_condition); [vm_compute; lia|by vm_compute..].
Defined.
