(* ===== verification/Grouping.v ===== *)
(** * [internal/services/automations/grouping.go]: groups of torrents

    A rule may look at groups of torrents: those that share their content, a
    release, a tracker.  This file models the extraction of tracker domains,
    the construction of a grouping from its keys, and the activation of the
    groupings of a rule before it is evaluated. *)

From Stdlib Require Import ZArith Lia Ascii.
From stdpp Require Import base numbers list strings gmap sorting.
From S2P Require Import Prelude.
From S2P Require Import GoStrings.
From S2P Require Import GoFloat.
From S2P Require Import Normalizer.
From S2P Require Import UnicodeText.
From S2P Require Import Domain.
From S2P Require Import Automation.
From S2P Require Import Conditions.

Open Scope qui_scope.

(** ** Tracker domains *)

Section trackers.
Context `{!UnicodeCase, !Library}.

(** [isPseudoTrackerLabel] of internal/qbittorrent/sync_manager.go. *)
Definition isPseudoTrackerLabel (value : string) : bool :=
  let normalized := TrimSpace (Trim (ToLower (TrimSpace value)) ["*"%char]) in
  let normalized :=
    if HasPrefix normalized "[" && HasSuffix normalized "]"
    then TrimSpace (TrimSuffix (default normalized (CutPrefix normalized "[")) "]")
    else normalized in
  bool_decide (normalized ∈ ["dht"; "pex"; "lsd"]).

(** The third strategy: the text before a path, without a port. *)
Definition manual_host (urlStr : string) : option string :=
  let candidate := before_any urlStr ["/"%char; "?"%char; "#"%char] in
  let candidate := TrimSpace (default candidate (CutPrefix candidate "//")) in
  if bool_decide (candidate = "") then None else
  match SplitHostPort candidate with
  | Some host => Some host
  | None =>
    if ParseIP candidate && Contains candidate ":" then Some candidate
    else let candidate := before_any candidate [":"%char] in
         if bool_decide (candidate = "") then None else Some candidate
  end.

Definition known_host (h : string) : option string :=
  if bool_decide (h = "Unknown") then None else Some h.

(** [ExtractDomainFromURL], behind its cache. *)
Definition ExtractDomainFromURL (url : string) : string :=
  let url := TrimSpace url in
  if bool_decide (url = "") then "" else
  if isPseudoTrackerLabel url then "" else
  let first := parsed_host url ≫= known_host in
  let second := match first with
                | Some h => Some h
                | None => if Contains url "://" then None
                          else parsed_host ("//" +++ url) ≫= known_host
                end in
  let found := match second with
               | Some h => Some h
               | None => manual_host url ≫= known_host
               end in
  match found with
  | None => "Unknown"
  | Some domain => let domain := ToLower (trim_brackets domain) in
                   if isPseudoTrackerLabel domain then "" else domain
  end.

(** The characters [trackerHostSanitizeRegexp] keeps. *)
Definition is_host_byte (a : ascii) : bool :=
  is_upper a || is_lower a || ((48 <=? byte a) && (byte a <=? 57))%Z ||
  bool_decide (a = "."%char) || bool_decide (a = "-"%char).

Definition sanitizeTrackerHost (urlOrHost : string) : string :=
  let clean := TrimSpace urlOrHost in
  if bool_decide (clean = "") then "" else
  if Contains clean "://" then "" else
  let clean := before_any (before_any clean ["/"%char]) [":"%char] in
  of_bytes (filter (λ a, is_host_byte a = true) (to_bytes clean)).

Definition add_domain (domains : gset string) (url : string) : gset string :=
  if bool_decide (url = "") then domains else
  let domain := ExtractDomainFromURL url in
  if bool_decide (domain = "") || bool_decide (domain = "Unknown") then domains
  else {[domain]} ∪ domains.

Definition collectTrackerDomains (t : Torrent) : list string :=
  let domains := foldl add_domain ∅ (t_Tracker t :: (tt_Url <$> t_Trackers t)) in
  let domains :=
    if bool_decide (domains = ∅) && negb (bool_decide (t_Tracker t = "")) then
      let domain := sanitizeTrackerHost (t_Tracker t) in
      if bool_decide (domain = "") then domains else {[domain]} ∪ domains
    else domains in
  sort_strings (elements domains).

(** *** The tracker pattern of a rule *)

(** The tokens to include and to exclude, in order. *)
Definition pattern_token (acc : list string * list string) (token : string)
    : list string * list string :=
  let normalized := normalizeLowerTrim token in
  if bool_decide (normalized = "") then acc else
  match CutPrefix normalized "!" with
  | Some after =>
    let negated := normalizeLowerTrim after in
    if bool_decide (negated = "") then acc else (acc.1, acc.2 ++ [negated])
  | None => (acc.1 ++ [normalized], acc.2)
  end.

Definition pattern_tokens (pattern : string) : list string * list string :=
  foldl pattern_token ([], []) (FieldsFunc pattern is_pattern_separator).

Definition is_glob (token : string) : bool := Contains token "*" || Contains token "?".

Definition matchesToken (domains : list string) (token : string) : bool :=
  existsb (λ domain,
    let d := normalizeLower domain in
    if is_glob token then default false (path_Match token d)
    else bool_decide (d = token) || (HasPrefix token "." && HasSuffix d token)) domains.

Definition matchesTracker (pattern : string) (domains : list string) : bool :=
  if bool_decide (pattern = "*") then true
  else if bool_decide (pattern = "") then false else
  let '(includeTokens, excludeTokens) := pattern_tokens pattern in
  if existsb (matchesToken domains) excludeTokens then false
  else if bool_decide (includeTokens = []) then negb (bool_decide (excludeTokens = []))
  else existsb (matchesToken domains) includeTokens.
End trackers.

(** ** Group keys *)

Definition groupKeyContentPath : string := "contentPath".
Definition groupKeySavePath : string := "savePath".
Definition groupKeyEffectiveName : string := "effectiveName".
Definition groupKeyContentType : string := "contentType".
Definition groupKeyTrackerDomain : string := "tracker".
Definition groupKeyRlsSource : string := "rlsSource".
Definition groupKeyRlsResolution : string := "rlsResolution".
Definition groupKeyRlsCodec : string := "rlsCodec".
Definition groupKeyRlsHDR : string := "rlsHDR".
Definition groupKeyRlsAudio : string := "rlsAudio".
Definition groupKeyRlsChannels : string := "rlsChannels".
Definition groupKeyRlsGroup : string := "rlsGroup".
Definition groupKeyHardlinkSignature : string := "hardlinkSignature".

Definition groupAmbiguousVerifyOverlap : string := "verify_overlap".
Definition groupAmbiguousSkip : string := "skip".

Definition GroupCrossSeedContentPath : string := "cross_seed_content_path".
Definition GroupCrossSeedContentSavePath : string := "cross_seed_content_save_path".
Definition GroupReleaseItem : string := "release_item".
Definition GroupTrackerReleaseItem : string := "tracker_release_item".
Definition GroupHardlinkSignature : string := "hardlink_signature".

Definition builtinGroupDefinition (id : string) : option GroupDefinition :=
  if bool_decide (id = GroupCrossSeedContentPath) then
    Some (MkGroupDefinition id [groupKeyContentPath] groupAmbiguousVerifyOverlap 90)
  else if bool_decide (id = GroupCrossSeedContentSavePath) then
    Some (MkGroupDefinition id [groupKeyContentPath; groupKeySavePath] groupAmbiguousVerifyOverlap 90)
  else if bool_decide (id = GroupReleaseItem) then
    Some (MkGroupDefinition id [groupKeyContentType; groupKeyEffectiveName] "" 0)
  else if bool_decide (id = GroupTrackerReleaseItem) then
    Some (MkGroupDefinition id [groupKeyTrackerDomain; groupKeyContentType; groupKeyEffectiveName] "" 0)
  else if bool_decide (id = GroupHardlinkSignature) then
    Some (MkGroupDefinition id [groupKeyHardlinkSignature] "" 0)
  else None.

Section keys.
Context `{!UnicodeCase, !UnicodeTables, !Library}.

(** A part of a key: absent when the value is empty. *)
Definition key_part (v : string) : option string :=
  if bool_decide (v = "") then None else Some v.
Definition lower_part (v : string) : option string :=
  let v := TrimSpace v in if bool_decide (v = "") then None else Some (ToLower v).

(** The part for the key [k]; [has_sm] says that the sync manager is not nil. *)
Definition group_key_part (has_sm : bool) (ctx : option EvalContext) (t : Torrent) (k : string)
    : option string :=
  if bool_decide (k = groupKeyContentPath) then key_part (normalizePath (t_ContentPath t))
  else if bool_decide (k = groupKeySavePath) then key_part (normalizePath (t_SavePath t))
  else if bool_decide (k = groupKeyEffectiveName) then lower_part (torrentEffectiveName t ctx)
  else if bool_decide (k = groupKeyContentType) then lower_part (torrentContentType t ctx)
  else if bool_decide (k = groupKeyTrackerDomain) then
    if has_sm then ToLower <$> head (collectTrackerDomains t) else None
  else if bool_decide (k = groupKeyRlsSource) then lower_part (torrentRlsSource t ctx)
  else if bool_decide (k = groupKeyRlsResolution) then lower_part (torrentRlsResolution t ctx)
  else if bool_decide (k = groupKeyRlsCodec) then lower_part (torrentRlsCodec t ctx)
  else if bool_decide (k = groupKeyRlsHDR) then lower_part (torrentRlsHDR t ctx)
  else if bool_decide (k = groupKeyRlsAudio) then lower_part (torrentRlsAudio t ctx)
  else if bool_decide (k = groupKeyRlsChannels) then lower_part (torrentRlsChannels t ctx)
  else if bool_decide (k = groupKeyRlsGroup) then lower_part (torrentRlsGroup t ctx)
  else if bool_decide (k = groupKeyHardlinkSignature) then
    match ctx with
    | None => None
    | Some ctx => key_part (TrimSpace (default "" (HardlinkSignatureByHash (ec_facts ctx) !! t_Hash t)))
    end
  else None.

Definition buildGroupKey (keys : list string) (t : Torrent) (has_sm : bool) (ctx : option EvalContext)
    : option string :=
  if bool_decide (keys = []) then None else
  (λ parts, Join parts "|") <$> mapM (group_key_part has_sm ctx t) keys.

(** ** Building a grouping *)

Definition containsKey (list : list string) (want : string) : bool := bool_decide (want ∈ list).

(** The loop over the torrents. *)
Definition group_torrent (keys : list string) (has_sm : bool) (ctx : option EvalContext)
    (idx : groupIndex) (t : Torrent) : groupIndex :=
  match buildGroupKey keys t has_sm ctx with
  | None => idx
  | Some key =>
    if bool_decide (key = "") then idx else
    MkGroupIndex (gi_groupID idx) (<[t_Hash t := key]> (gi_keyByHash idx))
      (<[key := default [] (gi_hashesByKey idx !! key) ++ [t_Hash t]]> (gi_hashesByKey idx))
      (gi_sizeByHash idx)
      (if containsKey keys groupKeyContentPath &&
          bool_decide (normalizePath (t_ContentPath t) = normalizePath (t_SavePath t))
       then {[key]} ∪ gi_ambiguousKeys idx else gi_ambiguousKeys idx)
  end.

(** The loop over the groups, in the order Go ranges over them: the members are
    sorted and their sizes recorded. *)
Definition finish_group (idx : groupIndex) (kv : string * list string) : groupIndex :=
  let hashes := sort_strings kv.2 in
  MkGroupIndex (gi_groupID idx) (gi_keyByHash idx) (<[kv.1 := hashes]> (gi_hashesByKey idx))
    (foldl (λ m h, <[h := Z.of_nat (length hashes)]> m) (gi_sizeByHash idx) hashes)
    (gi_ambiguousKeys idx).

Definition buildGroupIndex (groupID : string) (def : GroupDefinition) (torrents : list Torrent)
    (has_sm : bool) (ctx : option EvalContext) : groupIndex :=
  let idx := foldl (group_torrent (gd_Keys def) has_sm ctx) (MkGroupIndex groupID ∅ ∅ ∅ ∅) torrents in
  foldl finish_group idx (range map_order 1 (gi_hashesByKey idx)).

(** ** The groupings of a rule *)

Definition findGroupDefinition (cfg : option GroupingConfig) (id : string) : option GroupDefinition :=
  match cfg with
  | None => None
  | Some cfg => if bool_decide (id = "") then None
                else List.find (λ g, EqualFold (TrimSpace (gd_ID g)) id) (gc_Groups cfg)
  end.

Definition appendUniqueGroupID (groupIDs : list string) (groupID : string) : list string :=
  let groupID := TrimSpace groupID in
  if bool_decide (groupID = "") then groupIDs
  else if existsb (λ existing, EqualFold (TrimSpace existing) groupID) groupIDs then groupIDs
  else groupIDs ++ [groupID].

(** [collectGroupingConditionUsage] on a condition that is not nil. *)
Fixpoint collect_usage (cond : RuleCondition) (usage : groupingConditionUsage)
    : groupingConditionUsage :=
  match cond with
  | MkCondition f _ g _ _ _ _ _ children =>
    let usage :=
      if bool_decide (f = FieldGroupSize) || bool_decide (f = FieldIsGrouped) then
        let groupID := TrimSpace g in
        if bool_decide (groupID = "") then MkUsage (us_groupIDs usage) true
        else MkUsage (appendUniqueGroupID (us_groupIDs usage) groupID) (us_hasUnscoped usage)
      else usage in
    fold_left (λ u c, match c with Some c => collect_usage c u | None => u end) children usage
  end.
Definition collectGroupingConditionUsage (usage : groupingConditionUsage)
    (cond : option RuleCondition) : groupingConditionUsage :=
  match cond with Some c => collect_usage c usage | None => usage end.

Definition sortingConfigConditionTrees (config : option SortingConfig) : list (option RuleCondition) :=
  match config with
  | None => []
  | Some config =>
    if negb (bool_decide (sc_Type config = SortingTypeScore)) then []
    else omap (λ r, cn_Condition <$> sr_Conditional r) (sc_ScoreRules config)
  end.

(** [conditionFrom...Action]: the condition of an action that is enabled. *)
Definition condition_from {A} (enabled : A → bool) (condition : A → option RuleCondition)
    (action : option A) : option RuleCondition :=
  match action with
  | Some a => if enabled a then condition a else None
  | None => None
  end.

(** The condition trees of a rule, as grouping.go lists them. *)
Definition conditionTreesForRule (rule : Automation) : list (option RuleCondition) :=
  let trees := sortingConfigConditionTrees (au_SortingConfig rule) in
  match au_Conditions rule with
  | None => trees
  | Some c =>
    trees ++
    [condition_from sl_Enabled sl_Condition (ac_SpeedLimits c);
     condition_from sh_Enabled sh_Condition (ac_ShareLimits c);
     condition_from pa_Enabled pa_Condition (ac_Pause c);
     condition_from ra_Enabled ra_Condition (ac_Resume c);
     condition_from ca_Enabled ca_Condition (ac_Recheck c);
     condition_from na_Enabled na_Condition (ac_Reannounce c);
     condition_from da_Enabled da_Condition (ac_Delete c);
     condition_from ct_Enabled ct_Condition (ac_Category c);
     condition_from mv_Enabled mv_Condition (ac_Move c);
     condition_from ep_Enabled ep_Condition (ac_ExternalProgram c)] ++
    (condition_from ta_Enabled ta_Condition <$> TagActions (Some c))
  end.

Definition set_usage (id : Z) (u : groupingConditionUsage) (ctx : EvalContext) : EvalContext :=
  let g := ec_groups ctx in
  with_groups (MkGroups (ActiveRuleID g) (activeGroupIndex g) (groupIndexCache g)
                 (<[id := u]> (groupConditionUsageByRule g))) ctx.

Definition getOrComputeGroupingConditionUsage (rule : Automation) (ctx : EvalContext)
    : EvalContext * groupingConditionUsage :=
  match groupConditionUsageByRule (ec_groups ctx) !! au_ID rule with
  | Some cached => (ctx, cached)
  | None =>
    let usage := foldl collectGroupingConditionUsage (MkUsage [] false) (conditionTreesForRule rule) in
    (set_usage (au_ID rule) usage ctx, usage)
  end.

(** Building is done at most once per rule and identifier. *)
Definition getOrBuildGroupIndexForRule (rule : Automation) (groupID : string)
    (torrents : list Torrent) (has_sm : bool) (ctx : EvalContext) : EvalContext * option groupIndex :=
  if bool_decide (groupID = "") then (ctx, None) else
  let byRule := default ∅ (groupIndexCache (ec_groups ctx) !! au_ID rule) in
  let put m (ctx : EvalContext) :=
    let g := ec_groups ctx in
    with_groups (MkGroups (ActiveRuleID g) (activeGroupIndex g)
      (<[au_ID rule := m]> (groupIndexCache g)) (groupConditionUsageByRule g)) ctx in
  match byRule !! groupID with
  | Some cached => (ctx, Some cached)
  | None =>
    let ctx := put byRule ctx in
    let def := match findGroupDefinition (au_Conditions rule ≫= ac_Grouping) groupID with
               | Some d => Some d
               | None => builtinGroupDefinition groupID
               end in
    match def with
    | None => (ctx, None)
    | Some def =>
      let idx := buildGroupIndex groupID def torrents has_sm (Some ctx) in
      (put (<[groupID := idx]> byRule) ctx, Some idx)
    end
  end.

Definition set_active (id : Z) (idx : option groupIndex) (ctx : EvalContext) : EvalContext :=
  let g := ec_groups ctx in
  with_groups (MkGroups id idx (groupIndexCache g) (groupConditionUsageByRule g)) ctx.

Definition activateRuleGrouping (rule : Automation) (torrents : list Torrent) (has_sm : bool)
    (ctx : EvalContext) : EvalContext :=
  let ctx := set_active 0 None ctx in
  match au_Conditions rule with
  | None => ctx
  | Some conditions =>
    let ctx := set_active (au_ID rule) None ctx in
    let '(ctx, usage) := getOrComputeGroupingConditionUsage rule ctx in
    let defaultGroupID := from_option (λ g, TrimSpace (gc_DefaultGroupID g)) "" (ac_Grouping conditions) in
    let defaultGroupID :=
      if bool_decide (defaultGroupID = "") && us_hasUnscoped usage
      then GroupCrossSeedContentSavePath else defaultGroupID in
    let groupIDs := if bool_decide (defaultGroupID = "") then us_groupIDs usage
                    else appendUniqueGroupID (us_groupIDs usage) defaultGroupID in
    let ctx := foldl (λ ctx id, (getOrBuildGroupIndexForRule rule id torrents has_sm ctx).1) ctx groupIDs in
    if bool_decide (defaultGroupID = "") then ctx
    else set_active (au_ID rule) (lookupGroupIndexForRule ctx (au_ID rule) defaultGroupID) ctx
  end.
End keys.

(** ** Lemmas on building *)

Section build.
Context `{!UnicodeCase, !UnicodeTables, !Library}.
Context (keys : list string) (has_sm : bool) (ctx : option EvalContext).

(** The group of a torrent: its key, if it has one that is not empty. *)
Definition group_of (t : Torrent) : option string :=
  match buildGroupKey keys t has_sm ctx with
  | Some key => if bool_decide (key = "") then None else Some key
  | None => None
  end.

Lemma group_torrent_eq idx t :
  group_torrent keys has_sm ctx idx t =
  match group_of t with
  | None => idx
  | Some key =>
    MkGroupIndex (gi_groupID idx) (<[t_Hash t := key]> (gi_keyByHash idx))
      (<[key := default [] (gi_hashesByKey idx !! key) ++ [t_Hash t]]> (gi_hashesByKey idx))
      (gi_sizeByHash idx)
      (if containsKey keys groupKeyContentPath &&
          bool_decide (normalizePath (t_ContentPath t) = normalizePath (t_SavePath t))
       then {[key]} ∪ gi_ambiguousKeys idx else gi_ambiguousKeys idx)
  end.
Proof.
  unfold group_torrent, group_of. destruct (buildGroupKey _ _ _ _) as [key|]; [|done].
  by case_bool_decide.
Qed.

Lemma group_of_nonempty t key : group_of t = Some key → key ≠ "".
Proof.
  unfold group_of. destruct (buildGroupKey _ _ _ _) as [k|]; [|done].
  case_bool_decide; [done|]. by intros [= <-].
Qed.

(** The hashes of the torrents of a group, in their order. *)
Definition members (torrents : list Torrent) (key : string) : list string :=
  t_Hash <$> filter (λ t, group_of t = Some key) torrents.

Lemma members_app l1 l2 key : members (l1 ++ l2) key = members l1 key ++ members l2 key.
Proof. unfold members. by rewrite filter_app, fmap_app. Qed.

Lemma members_single t key : members [t] key = if decide (group_of t = Some key) then [t_Hash t] else [].
Proof. unfold members. rewrite filter_cons, filter_nil. by case_decide. Qed.

Lemma group_torrents_spec id torrents :
  NoDup (t_Hash <$> torrents) →
  let idx := foldl (group_torrent keys has_sm ctx) (MkGroupIndex id ∅ ∅ ∅ ∅) torrents in
  (∀ t, t ∈ torrents → gi_keyByHash idx !! t_Hash t = group_of t) ∧
  (∀ key, gi_hashesByKey idx !! key =
     if decide (members torrents key = []) then None else Some (members torrents key)) ∧
  gi_sizeByHash idx = ∅.
Proof.
  induction torrents as [|t ts IH] using rev_ind; intros Hnd; cbn zeta.
  { split_and!; [by intros ? ?%elem_of_nil|done..]. }
  rewrite fmap_app in Hnd. apply NoDup_app in Hnd as (Hts & Hfresh & _).
  specialize (IH Hts). cbn zeta in IH. destruct IH as (Hk & Hm & Hs).
  rewrite foldl_app. cbn [foldl]. rewrite group_torrent_eq.
  set (idx := foldl _ _ ts) in *.
  assert (∀ t', t' ∈ ts → t_Hash t' ≠ t_Hash t) as Hne.
  { intros t' Hin E. apply (Hfresh (t_Hash t')); [by apply list_elem_of_fmap_2|rewrite E; by left]. }
  destruct (group_of t) as [key|] eqn:Hg; cbn [gi_keyByHash gi_hashesByKey gi_sizeByHash].
  - split_and!; [|intros key'; rewrite members_app, members_single, Hg|done].
    + intros t' [Hin|Hin]%elem_of_app.
      * rewrite lookup_insert_ne by (symmetry; by apply Hne). by apply Hk.
      * apply list_elem_of_singleton in Hin as ->. by rewrite lookup_insert_eq.
    + destruct (decide (key = key')) as [<-|Hkk].
      * rewrite lookup_insert_eq, Hm, (decide_True (P := Some key = Some key)) by done.
        rewrite (decide_False (P := members ts key ++ [t_Hash t] = [])) by (by intros []%app_nil).
        by case_decide as E; [rewrite E|].
      * rewrite lookup_insert_ne, Hm by done. rewrite (decide_False (P := Some key = Some key')) by congruence.
        by rewrite app_nil_r.
  - split_and!; [|intros key'; rewrite members_app, members_single, Hg|done].
    + intros t' [Hin|Hin]%elem_of_app; [by apply Hk|]. apply list_elem_of_singleton in Hin as ->.
      rewrite Hg. clear Hm Hs. assert (∀ l, (∀ t', t' ∈ l → t_Hash t' ≠ t_Hash t) →
        gi_keyByHash (foldl (group_torrent keys has_sm ctx) (MkGroupIndex id ∅ ∅ ∅ ∅) l) !! t_Hash t = None) as Hnone.
      { clear. induction l as [|x l IH] using rev_ind; intros Hl; [done|].
        rewrite foldl_app. cbn [foldl]. rewrite group_torrent_eq.
        assert (t_Hash x ≠ t_Hash t) by (apply Hl, elem_of_app; right; by left).
        destruct (group_of x); cbn [gi_keyByHash]; rewrite ?lookup_insert_ne by done;
          apply IH; intros; apply Hl, elem_of_app; by left. }
      by apply Hnone.
    + rewrite (decide_False (P := None = Some key')) by done. by rewrite app_nil_r.
Qed.

Lemma set_sizes_lookup (hashes : list string) (n : Z) (m : gmap string Z) (h : string) :
  foldl (λ m h, <[h := n]> m) m hashes !! h = if decide (h ∈ hashes) then Some n else m !! h.
Proof.
  revert m. induction hashes as [|x l IH]; intros m; cbn [foldl].
  { by rewrite decide_False by apply not_elem_of_nil. }
  rewrite IH. destruct (decide (h ∈ l)) as [Hl|Hl].
  { rewrite decide_True; [done|by right]. }
  destruct (decide (h = x)) as [->|Hx].
  - rewrite lookup_insert_eq, decide_True; [done|by left].
  - rewrite lookup_insert_ne, decide_False by (rewrite ?elem_of_cons; naive_solver). done.
Qed.

Lemma finish_groups_spec (l : list (string * list string)) (idx : groupIndex) :
  NoDup l.*1 →
  let idx' := foldl finish_group idx l in
  gi_keyByHash idx' = gi_keyByHash idx ∧
  (∀ k v, (k, v) ∈ l → gi_hashesByKey idx' !! k = Some (sort_strings v)) ∧
  (∀ k, k ∉ l.*1 → gi_hashesByKey idx' !! k = gi_hashesByKey idx !! k) ∧
  (∀ h, (∀ k v, (k, v) ∈ l → h ∉ v) → gi_sizeByHash idx' !! h = gi_sizeByHash idx !! h) ∧
  (∀ h k v, (k, v) ∈ l → h ∈ v → (∀ k' v', (k', v') ∈ l → h ∈ v' → v' = v) →
     gi_sizeByHash idx' !! h = Some (Z.of_nat (length v))).
Proof.
  revert idx. induction l as [|[k0 v0] l IH]; intros idx Hnd; cbn zeta.
  { simpl. split_and!; try done; try by intros ? ? ?%elem_of_nil. by intros ? ? ? ?%elem_of_nil. }
  apply NoDup_cons in Hnd as [Hk0 Hnd]. cbn [foldl].
  destruct (IH (finish_group idx (k0, v0)) Hnd) as (F1 & F2 & F3 & F4 & F5). cbn zeta in *.
  split_and!.
  - by rewrite F1.
  - intros k v [Hin|Hin]%elem_of_cons; [|by apply F2]. simplify_eq.
    rewrite F3 by done. simpl. by rewrite lookup_insert_eq.
  - intros k Hk. simpl in Hk. apply not_elem_of_cons in Hk as [Hne Hk]. rewrite F3 by done. simpl.
    by rewrite lookup_insert_ne.
  - intros h Hh. rewrite F4; [|intros k v Hin; apply (Hh k v); by right]. simpl.
    rewrite set_sizes_lookup, decide_False; [done|]. unfold sort_strings.
    rewrite elem_of_sort_by. apply (Hh k0 v0). by left.
  - intros h k v Hin Hh Huniq. destruct (decide (Exists (λ kv, h ∈ kv.2) l)) as [Hex|Hno].
    + apply Exists_exists in Hex as ([k' v'] & Hl & Hv). simpl in Hv.
      assert (v' = v) as -> by (apply (Huniq k' v'); [by right|done]).
      apply (F5 h k' v); [done..|]. intros k'' v'' ??. apply (Huniq k'' v''); [by right|done].
    + assert ((k, v) = (k0, v0)) as [= -> ->].
      { apply elem_of_cons in Hin as [|Hin]; [done|]. exfalso. apply Hno, Exists_exists. eauto. }
      rewrite F4 by (intros k' v' Hl Hv; apply Hno, Exists_exists; eauto). simpl.
      rewrite set_sizes_lookup, decide_True by by (unfold sort_strings; rewrite elem_of_sort_by).
      unfold sort_strings. by rewrite sort_by_perm.
Qed.
End build.

(** C35. Whatever the order in which the groups are visited,
    a grouping built from torrents with distinct hashes partitions those that
    have a key: the members of the group of a torrent are, in order, the hashes
    of the torrents with its key, the size is their number, and a torrent
    without a key is in no group. *)
Theorem group_index_exact `{!UnicodeCase, !UnicodeTables, !Library} (groupID : string)
    (def : GroupDefinition) (torrents : list Torrent) (has_sm : bool) (ctx : option EvalContext)
    (t : Torrent) :
  NoDup (t_Hash <$> torrents) → t ∈ torrents →
  let idx := Some (buildGroupIndex groupID def torrents has_sm ctx) in
  let group := group_of (gd_Keys def) has_sm ctx in
  MembersForHash idx (t_Hash t) =
    match group t with
    | Some key => sort_strings (members (gd_Keys def) has_sm ctx torrents key)
    | None => []
    end ∧
  SizeForHash idx (t_Hash t) = Z.of_nat (length (MembersForHash idx (t_Hash t))).
Proof.
  intros Hnd Hin. cbn zeta. unfold buildGroupIndex.
  pose proof (group_torrents_spec (gd_Keys def) has_sm ctx groupID torrents Hnd) as Hspec.
  set (idx := foldl _ _ torrents) in *. cbn zeta in Hspec. destruct Hspec as (Hk & Hm & Hs).
  set (l := range map_order 1 (gi_hashesByKey idx)).
  assert (∀ k v, (k, v) ∈ l ↔ v = members (gd_Keys def) has_sm ctx torrents k ∧ v ≠ []) as Hl.
  { intros k v. unfold l. rewrite elem_of_range, Hm. case_decide; naive_solver. }
  destruct (finish_groups_spec l idx (NoDup_range _ _ _)) as (F1 & F2 & _ & F4 & F5). cbn zeta in *.
  set (idx' := foldl finish_group idx l) in *.
  assert (∀ key h, h ∈ members (gd_Keys def) has_sm ctx torrents key →
    ∃ t', t' ∈ torrents ∧ t_Hash t' = h ∧ group_of (gd_Keys def) has_sm ctx t' = Some key) as Hmem.
  { intros key h (t' & -> & Ht')%list_elem_of_fmap. apply list_elem_of_filter in Ht' as [? ?]. eauto. }
  assert (∀ t', t' ∈ torrents → t_Hash t' = t_Hash t → t' = t) as Huniq.
  { intros t' Hin' E. apply list_elem_of_lookup in Hin as [i Hi], Hin' as [j Hj].
    rewrite NoDup_alt in Hnd. assert (j = i) as ->; [|congruence].
    apply (Hnd j i (t_Hash t)); by rewrite list_lookup_fmap, ?Hi, ?Hj; simpl; rewrite ?E. }
  unfold MembersForHash, SizeForHash, KeyForHash. rewrite F1, Hk by done.
  destruct (group_of (gd_Keys def) has_sm ctx t) as [key|] eqn:Hg; simpl.
  - rewrite bool_decide_false by (by eapply group_of_nonempty).
    assert (t_Hash t ∈ members (gd_Keys def) has_sm ctx torrents key) as Htm.
    { unfold members. by apply list_elem_of_fmap_2, list_elem_of_filter. }
    assert ((key, members (gd_Keys def) has_sm ctx torrents key) ∈ l) as Hkl.
    { apply Hl. split; [done|]. intros E. rewrite E in Htm. by apply elem_of_nil in Htm. }
    rewrite (F2 _ _ Hkl). simpl. split; [done|].
    rewrite (F5 (t_Hash t) key _ Hkl Htm); [simpl; unfold sort_strings; by rewrite sort_by_perm|].
    intros k' v' [-> _]%Hl Hh. destruct (Hmem _ _ Hh) as (t' & Hin' & E & Hg').
    rewrite (Huniq t' Hin' E), Hg in Hg'. by injection Hg' as ->.
  - split; [done|]. rewrite F4, Hs, lookup_empty; [done|].
    intros k v [-> _]%Hl Hh. destruct (Hmem _ _ Hh) as (t' & Hin' & E & Hg').
    rewrite (Huniq t' Hin' E), Hg in Hg'. done.
Qed.

(** ** Conditions the usage scan does not see *)

(** Actions that are only those of automatic management and of the export. *)
Definition late_actions (am : option AutoManagementAction) (ex : option ExportToInstanceAction)
    : ActionConditions :=
  MkActionConditions "" None None None None None None None None None [] None None None am ex.

(** The scan for grouped conditions leaves out the
    automatic-management and export actions: for a rule with no other action no
    grouping is built, so that their GROUP_SIZE and IS_GROUPED conditions see a
    group of size 0 for every torrent. *)
Theorem grouped_condition_ignored `{!UnicodeCase, !UnicodeTables, !Library} (rule : Automation)
    (am : option AutoManagementAction) (ex : option ExportToInstanceAction)
    (torrents : list Torrent) (has_sm : bool) (ctx : EvalContext) (cond : RuleCondition) (t : Torrent) :
  au_Conditions rule = Some (late_actions am ex) → au_SortingConfig rule = None →
  groupConditionUsageByRule (ec_groups ctx) !! au_ID rule = None →
  TrimSpace (rc_GroupID cond) = "" →
  let ctx' := Some (activateRuleGrouping rule torrents has_sm ctx) in
  SizeForHash (resolveConditionGroupIndex cond ctx') (t_Hash t) = 0%Z.
Proof.
  intros Hc Hs Hu Hg. cbn zeta. unfold resolveConditionGroupIndex. rewrite Hg. cbn.
  unfold activateRuleGrouping. rewrite Hc. cbn zeta.
  unfold getOrComputeGroupingConditionUsage. cbn. rewrite Hu.
  unfold conditionTreesForRule. rewrite Hc, Hs. done.
Qed.

(** ** Witnesses *)

Definition pair_of_seeds : list Torrent :=
  [sample_torrent "aa" "Film" "" "" 10; sample_torrent "bb" "Film" "" "" 10;
   sample_torrent "cc" "Other" "" "" 10].

Lemma group_index_exact_witness :
  @MembersForHash (Some (@buildGroupIndex AsciiCase AsciiTables SimpleLibrary "g"
    (MkGroupDefinition "g" [groupKeyContentPath; groupKeySavePath] "" 0) pair_of_seeds true None)) "bb" =
  ["aa"; "bb"].
Proof.
  destruct (@group_index_exact AsciiCase AsciiTables SimpleLibrary "g"
    (MkGroupDefinition "g" [groupKeyContentPath; groupKeySavePath] "" 0) pair_of_seeds true None
    (sample_torrent "bb" "Film" "" "" 10)) as [E _].
  - apply (bool_decide_eq_true_1 _). by vm_compute.
  - right. left.
  - etrans; [exact E|]. by vm_compute.
Defined.

Definition grouped_leaf : RuleCondition := leaf FieldGroupSize OperatorGreaterThan "1" false.

Definition rule_with (c : ActionConditions) : Automation :=
  MkAutomation 7 1 "rule" "*" [] (Some c) None None true false false 1 None.

Lemma grouped_condition_ignored_witness :
  SizeForHash (@resolveConditionGroupIndex AsciiCase SimpleLibrary grouped_leaf
    (Some (@activateRuleGrouping AsciiCase AsciiTables SimpleLibrary
      (rule_with (late_actions (Some (MkAutoManagementAction true (Some grouped_leaf))) None))
      pair_of_seeds true empty_context))) "bb" = 0%Z.
Proof.
  exact (@grouped_condition_ignored AsciiCase AsciiTables SimpleLibrary
    (rule_with (late_actions (Some (MkAutoManagementAction true (Some grouped_leaf))) None))
    (Some (MkAutoManagementAction true (Some grouped_leaf))) None pair_of_seeds true empty_context
    grouped_leaf (sample_torrent "bb" "Film" "" "" 10) eq_refl eq_refl eq_refl eq_refl).
Defined.

(** The same condition on a pause action does see the pair. *)
Example grouped_pause :
  @EvaluateConditionWithContext AsciiCase AsciiTables SimpleLibrary (Some grouped_leaf)
    (sample_torrent "bb" "Film" "" "" 10)
    (Some (@activateRuleGrouping AsciiCase AsciiTables SimpleLibrary
      (rule_with (MkActionConditions "" None None None (Some (MkPauseAction true (Some grouped_leaf)))
        None None None None None [] None None None None None))
      pair_of_seeds true empty_context)) 0 = true.
Proof. by vm_compute. Qed.
