(* ===== verification/TrackerHealth.v ===== *)
(** * [internal/qbittorrent/tracker_statuses.go], sync_manager.go: the health of trackers

    What the messages of trackers mean, and whether a torrent is unregistered,
    its trackers are down, or all of them fail. *)

From Stdlib Require Import ZArith Lia Ascii.
From stdpp Require Import base numbers list strings gmap.
From S2P Require Import Prelude.
From S2P Require Import GoStrings.
From S2P Require Import Domain.
From S2P Require Import Conditions.
From S2P Require Import Grouping.

Open Scope qui_scope.

(** ** Messages *)

Definition defaultUnregisteredStatuses : list string :=
  ["complete season uploaded"; "dead"; "dupe"; "grab internal"; "i'm sorry dave, i can't do that"; "infohash not found";
   "internal available"; "not exist"; "not registered"; "nuked"; "pack is available"; "packs are available";
   "problem with description"; "problem with file"; "problem with pack"; "repack available"; "retitled"; "season pack";
   "specifically banned"; "torrent does not exist"; "torrent existiert nicht"; "torrent has been deleted";
   "torrent has been nuked"; "torrent introuvable"; "torrent is not authorized for use on this tracker";
   "torrent is not found"; "torrent nicht gefunden"; "tracker nicht registriert"; "torrent not found"; "trump"; "unknown";
   "unregistered"; "não registrado"; "upgraded"; "uploaded"; "nem található"]%string.

Definition trackerDownStatuses : list string :=
  ["continue"; "multiple choices"; "not modified"; "bad request"; "unauthorized"; "forbidden"; "internal server error";
   "not implemented"; "bad gateway"; "service unavailable"; "moved permanently"; "moved temporarily";
   "(unknown http error)"; "down"; "maintenance"; "tracker is down"; "tracker unavailable"; "truncated"; "unreachable";
   "not working"; "not responding"; "timeout"; "refused"; "no connection"; "cannot connect"; "connection failed"; "ssl error";
   "no data"; "timed out"; "temporarily disabled"; "unresolvable"; "host not found"; "offline";
   "your request could not be processed, please try again later"; "unable to process your request"; "<none>"]%string.

(** The expression [(?i)https?://\S+]: the rest after a text that is matched up
    to case.  Folding also takes the long s for an s. *)
Fixpoint fold_prefix (p l : bytes) : option bytes :=
  match p, l with
  | [], _ => Some l
  | c :: p, a :: l => if bool_decide (lower_byte a = c) then fold_prefix p l else None
  | _ :: _, [] => None
  end.

Definition is_regexp_space (a : ascii) : bool := bool_decide (byte a ∈ [9; 10; 12; 13; 32]%Z).

Fixpoint word_length (l : bytes) : nat :=
  match l with a :: l => if is_regexp_space a then O else S (word_length l) | [] => O end.

Definition optional_s (l : bytes) : bytes :=
  match l with
  | a :: b :: l' => if bool_decide (lower_byte a = "s"%char) then b :: l'
                    else if bool_decide (byte a = 0xC5 ∧ byte b = 0xBF)%Z then l' else l
  | _ => l
  end.

(** The length of the match at the start of [l], if there is one. *)
Definition url_length (l : bytes) : nat :=
  match fold_prefix (to_bytes "http") l with
  | None => O
  | Some l1 =>
    match fold_prefix (to_bytes "://") (optional_s l1) with
    | None => O
    | Some l2 => match word_length l2 with
                 | O => O
                 | n => (length l - length l2 + n)%nat
                 end
    end
  end.

(** [ReplaceAllString] with nothing; [skip] counts the bytes of a match. *)
Fixpoint strip_urls (skip : nat) (l : bytes) : bytes :=
  match l with
  | [] => []
  | a :: l' =>
    match skip with
    | S k => strip_urls k l'
    | O => match url_length l with
           | S k => strip_urls k l'
           | O => a :: strip_urls O l'
           end
    end
  end.

Section health.
Context `{!UnicodeCase, !Library}.

Definition trackerMessageMatches (message : string) (patterns : list string) : bool :=
  let text := TrimSpace (ToLower message) in
  if bool_decide (text = "") then false else existsb (Contains text) patterns.

Definition TrackerMessageMatchesUnregistered (message : string) : bool :=
  trackerMessageMatches message defaultUnregisteredStatuses.

Definition TrackerMessageMatchesDown (message : string) : bool :=
  trackerMessageMatches (of_bytes (strip_urls O (to_bytes message))) trackerDownStatuses.

(** ** Torrents *)

Definition Hour_seconds : Z := 3600.

(** [time.Since] of a whole second is below an hour exactly when the whole
    seconds are. *)
Definition recently_added (t : Torrent) : bool :=
  ((0 <? t_AddedOn t) && (time_Now - t_AddedOn t <? Hour_seconds))%Z.

Definition unregistered_tracker (tracker : TorrentTracker) : bool :=
  bool_decide (tt_Status tracker ∈ [TrackerStatusUpdating; TrackerStatusNotWorking; TrackerStatusTrackerError]) &&
  trackerMessageMatches (tt_Message tracker) defaultUnregisteredStatuses.

Definition torrentIsUnregistered (t : Torrent) : bool :=
  if recently_added t then false else
  let hasWorking := existsb (λ tr, bool_decide (tt_Status tr = TrackerStatusOK)) (t_Trackers t) in
  let hasUnregistered := existsb unregistered_tracker (t_Trackers t) in
  hasUnregistered && negb hasWorking.

Definition down_tracker (tracker : TorrentTracker) : bool :=
  bool_decide (tt_Status tracker = TrackerStatusUnreachable) ||
  bool_decide (tt_Status tracker ∈ [TrackerStatusNotWorking; TrackerStatusTrackerError]) &&
    TrackerMessageMatchesDown (tt_Message tracker).

Definition torrentTrackerIsDown (t : Torrent) : bool :=
  let hasWorking :=
    existsb (λ tr, bool_decide (tt_Status tr ∈ [TrackerStatusOK; TrackerStatusUpdating])) (t_Trackers t) in
  existsb down_tracker (t_Trackers t) && negb hasWorking.

Definition is_error_status (status : Z) : bool :=
  bool_decide (status ∈ [TrackerStatusNotWorking; TrackerStatusTrackerError; TrackerStatusUnreachable]).

(** The loop of [torrentHasTrackerError]: [None] when it returns early. *)
Fixpoint count_errored (trackers : list TorrentTracker) (erroredTrackers : Z) : option Z :=
  match trackers with
  | [] => Some erroredTrackers
  | tracker :: trackers =>
    if bool_decide (tt_Status tracker = TrackerStatusDisabled) then count_errored trackers erroredTrackers
    else if is_error_status (tt_Status tracker) then count_errored trackers (erroredTrackers + 1)
    else None
  end.

Definition torrentHasTrackerError (t : Torrent) : bool :=
  if torrentIsUnregistered t || torrentTrackerIsDown t then false
  else match count_errored (t_Trackers t) 0 with
       | Some erroredTrackers => (0 <? erroredTrackers)%Z
       | None => false
       end.

(** [None] is the empty text. *)
Inductive TrackerHealth : Type :=
| TrackerHealthUnregistered
| TrackerHealthDown
| TrackerHealthError.

#[export] Instance TrackerHealth_eq_dec : EqDecision TrackerHealth.
Proof. solve_decision. Defined.

Definition determineTrackerHealth (t : Torrent) : option TrackerHealth :=
  if torrentIsUnregistered t then Some TrackerHealthUnregistered
  else if torrentTrackerIsDown t then Some TrackerHealthDown
  else if torrentHasTrackerError t then Some TrackerHealthError
  else None.

Definition trackerHealthPriority (t : Torrent) (trackerHealthSupported : bool) : Z :=
  if negb trackerHealthSupported then 10 else
  match determineTrackerHealth t with
  | Some TrackerHealthUnregistered => 0
  | Some TrackerHealthDown => 1
  | Some TrackerHealthError => 2
  | None => 10
  end.

Definition torrentBelongsToTrackerDomain (t : Torrent) (domain : string) : bool :=
  match t_Trackers t with
  | [] => bool_decide (ExtractDomainFromURL (t_Tracker t) = domain)
  | trackers => existsb (λ tr, bool_decide (ExtractDomainFromURL (tt_Url tr) = domain)) trackers
  end.

(** ** What health means *)

(** The trackers that count: DHT, PeX and LSD entries are disabled ones. *)
Definition enabled (t : Torrent) : list TorrentTracker :=
  filter (λ tr, tt_Status tr ≠ TrackerStatusDisabled) (t_Trackers t).

Lemma count_errored_spec trackers n :
  count_errored trackers n =
  let en := filter (λ tr, tt_Status tr ≠ TrackerStatusDisabled) trackers in
  if forallb (λ tr, is_error_status (tt_Status tr)) en then Some (n + Z.of_nat (length en))%Z else None.
Proof.
  revert n. induction trackers as [|tr trackers IH]; intros n; cbn [count_errored].
  { cbn. f_equal. lia. }
  case_bool_decide as Hd.
  - rewrite IH, filter_cons_False by auto. done.
  - rewrite filter_cons_True by done. cbn [forallb length]. destruct (is_error_status _); [|done].
    rewrite IH. cbn. destruct (forallb _ _); [|done]. f_equal. lia.
Qed.

Lemma working_not_error t :
  existsb (λ tr, bool_decide (tt_Status tr = TrackerStatusOK)) (t_Trackers t) = true →
  determineTrackerHealth t = None.
Proof.
  intros Hw. unfold determineTrackerHealth.
  assert (torrentIsUnregistered t = false) as ->.
  { unfold torrentIsUnregistered. rewrite Hw. destruct (recently_added t); [done|]. by rewrite andb_false_r. }
  apply existsb_exists in Hw as (tr & Hin & Hok). bool_hyps.
  assert (torrentTrackerIsDown t = false) as Hdown.
  { unfold torrentTrackerIsDown. apply andb_false_iff. right. apply negb_false_iff, existsb_exists.
    exists tr. split; [done|]. rewrite Hok. apply bool_decide_eq_true. by left. }
  rewrite Hdown. unfold torrentHasTrackerError. rewrite Hdown, count_errored_spec. destruct (_ || _); [done|].
  cbv zeta. match goal with |- context [forallb ?f ?l] => destruct (forallb f l) eqn:Hall end; [|done].
  rewrite forallb_forall in Hall.
  assert (tr ∈ filter (λ tr, tt_Status tr ≠ TrackerStatusDisabled) (t_Trackers t)) as Hf.
  { apply list_elem_of_filter. rewrite Hok. split; [done|]. by apply list_elem_of_In. }
  apply list_elem_of_In, Hall in Hf. by rewrite Hok in Hf.
Qed.

(**  A torrent with a working tracker is healthy.  One that is shown as
    failing has a tracker, and all of its enabled trackers report an error; one
    shown as down has a tracker that is unreachable or says so, and one shown as
    unregistered a tracker that says so and was added an hour ago or more. *)
Theorem health_exact (t : Torrent) :
  match determineTrackerHealth t with
  | Some TrackerHealthUnregistered =>
    recently_added t = false ∧ (∃ tr, tr ∈ t_Trackers t ∧ unregistered_tracker tr = true) ∧
    ∀ tr, tr ∈ t_Trackers t → tt_Status tr ≠ TrackerStatusOK
  | Some TrackerHealthDown =>
    (∃ tr, tr ∈ t_Trackers t ∧ down_tracker tr = true) ∧
    ∀ tr, tr ∈ t_Trackers t → tt_Status tr ≠ TrackerStatusOK ∧ tt_Status tr ≠ TrackerStatusUpdating
  | Some TrackerHealthError =>
    enabled t ≠ [] ∧ (∀ tr, tr ∈ enabled t → is_error_status (tt_Status tr) = true ∧ down_tracker tr = false)
  | None =>
    (∃ tr, tr ∈ t_Trackers t ∧ tt_Status tr ∉ [TrackerStatusDisabled; TrackerStatusNotWorking;
                                               TrackerStatusTrackerError; TrackerStatusUnreachable]) ∨
    enabled t = []
  end.
Proof.
  unfold determineTrackerHealth. destruct (torrentIsUnregistered t) eqn:Hu.
  { unfold torrentIsUnregistered in Hu. destruct (recently_added t) eqn:Hr; [done|]. split; [done|].
    apply andb_true_iff in Hu as [(tr & Hin & Ht)%existsb_exists Hw%negb_true_iff]. split.
    - exists tr. split; [by apply list_elem_of_In|done].
    - intros tr' Hin'%list_elem_of_In Hok. apply not_true_iff_false in Hw. apply Hw, existsb_exists.
      exists tr'. split; [done|]. by apply bool_decide_eq_true. }
  destruct (torrentTrackerIsDown t) eqn:Hd.
  { unfold torrentTrackerIsDown in Hd.
    apply andb_true_iff in Hd as [(tr & Hin & Ht)%existsb_exists Hw%negb_true_iff]. split.
    - exists tr. split; [by apply list_elem_of_In|done].
    - intros tr' Hin'%list_elem_of_In. apply not_true_iff_false in Hw.
      split; intros Hs; apply Hw, existsb_exists; exists tr'; (split; [done|]);
        apply bool_decide_eq_true; rewrite Hs; set_solver. }
  destruct (torrentHasTrackerError t) eqn:He.
  { unfold torrentHasTrackerError in He. rewrite Hu, Hd, count_errored_spec in He. cbn [orb] in He. fold (enabled t) in He.
    cbv zeta in He. destruct (forallb _ _) eqn:Hall; [|done]. apply Z.ltb_lt in He. split; [by intros E; rewrite E in He|].
    intros tr Hin. rewrite forallb_forall in Hall. pose proof Hin as Herr%list_elem_of_In%Hall. split; [done|].
    apply not_true_iff_false. intros Hdt. unfold torrentTrackerIsDown in Hd. apply andb_false_iff in Hd as [Hd|Hd].
    - apply not_true_iff_false in Hd. apply Hd, existsb_exists. exists tr. split; [|done].
      apply list_elem_of_In. by apply list_elem_of_filter in Hin as [_ ?].
    - apply negb_false_iff, existsb_exists in Hd as (w & Hw%list_elem_of_In & Hs). bool_hyps.
      rewrite !elem_of_cons, elem_of_nil in Hs.
      assert (w ∈ enabled t) as Hwe%list_elem_of_In%Hall.
      { apply list_elem_of_filter. split; [by destruct Hs as [->|[->|[]]]|done]. }
      by destruct Hs as [Hs|[Hs|[]]]; rewrite Hs in Hwe. }
  unfold torrentHasTrackerError in He. rewrite Hu, Hd, count_errored_spec in He. cbn [orb] in He. fold (enabled t) in He.
  cbv zeta in He. destruct (forallb _ (enabled t)) eqn:Hall.
  - right. apply Z.ltb_ge in He. destruct (enabled t) as [|tr l]; [done|]. cbn [length] in He. lia.
  - left. apply not_true_iff_false in Hall. rewrite forallb_forall in Hall.
    destruct (decide (Exists (λ tr, is_error_status (tt_Status tr) = false) (enabled t))) as [Hex|Hne].
    + apply Exists_exists in Hex as (tr & Hin & Herr). apply list_elem_of_filter in Hin as [Hdis Hin].
      exists tr. split; [done|]. unfold is_error_status in Herr. bool_hyps. set_solver.
    + exfalso. apply Hall. intros tr Hin%list_elem_of_In. apply not_false_iff_true. intros Hf. apply Hne.
      apply Exists_exists. eauto.
Qed.
End health.
