(* ===== verification/TrackerMapping.v ===== *)
(** * [internal/qbittorrent/sync_manager.go]: the caches of tracker data

    For each instance a background refresh keeps which torrents belong to which
    tracker domain, in both directions, and which torrents have failing trackers.
    Edits and deletions change the caches in place between two refreshes. *)

From Stdlib Require Import ZArith Lia Ascii.
From stdpp Require Import base numbers list strings gmap.
From S2P Require Import Prelude.
From S2P Require Import GoStrings.
From S2P Require Import GoFloat.
From S2P Require Import Domain.
From S2P Require Import Conditions.
From S2P Require Import Grouping.
From S2P Require Import TrackerHealth.

Open Scope qui_scope.

(** ** Domains and hashes *)

(** [map[string]map[string]struct{}] *)
Abbreviation Index := (gmap string (gset string)).

Record ValidatedTrackerMapping := MkMapping { HashToDomains : Index; DomainToHashes : Index }.

(** Adding to the inner map, which is made when it is missing. *)
Definition index_add (k v : string) (m : Index) : Index := <[k := {[v]} ∪ default ∅ (m !! k)]> m.

(** Deleting from the inner map, if there is one. *)
Definition index_del (k v : string) (m : Index) : Index :=
  match m !! k with Some s => <[k := s ∖ {[v]}]> m | None => m end.

(** The same, and the inner map goes when it is empty. *)
Definition index_prune (k v : string) (m : Index) : Index :=
  match m !! k with
  | Some s => if bool_decide (s ∖ {[v]} = ∅) then delete k m else <[k := s ∖ {[v]}]> m
  | None => m
  end.

Definition known_domain (domain : string) : bool :=
  negb (bool_decide (domain = "")) && negb (bool_decide (domain = "Unknown")).

Definition addHashToTrackerMapping (hash domain : string) (m : ValidatedTrackerMapping) : ValidatedTrackerMapping :=
  if negb (known_domain domain) then m else
  MkMapping (index_add hash domain (HashToDomains m)) (index_add domain hash (DomainToHashes m)).

Definition removeHashFromTrackerMapping (hash domain : string) (m : ValidatedTrackerMapping) : ValidatedTrackerMapping :=
  if negb (known_domain domain) then m else
  MkMapping (index_prune hash domain (HashToDomains m)) (index_prune domain hash (DomainToHashes m)).

Definition updateTrackerMappingForEdit (hash oldDomain newDomain : string) (m : ValidatedTrackerMapping)
    : ValidatedTrackerMapping :=
  let m :=
    if known_domain oldDomain
    then MkMapping (index_del hash oldDomain (HashToDomains m)) (index_prune oldDomain hash (DomainToHashes m))
    else m in
  if known_domain newDomain
  then MkMapping (index_add hash newDomain (HashToDomains m)) (index_add newDomain hash (DomainToHashes m))
  else m.

Definition remove_one (m : ValidatedTrackerMapping) (hash : string) : ValidatedTrackerMapping :=
  match HashToDomains m !! hash with
  | Some domains =>
    MkMapping (delete hash (HashToDomains m))
      (foldl (λ d2h domain, index_prune domain hash d2h) (DomainToHashes m) (elements domains))
  | None => m
  end.

Definition removeHashFromAllTrackerMappings (hashes : list string) (m : ValidatedTrackerMapping)
    : ValidatedTrackerMapping := foldl remove_one m hashes.

Section domains.
Context `{!UnicodeCase, !Library}.

Definition getDomainsForTorrent (t : Torrent) : gset string :=
  match t_Trackers t with
  | [] => if bool_decide (t_Tracker t = "") then ∅
          else let domain := ExtractDomainFromURL (t_Tracker t) in if known_domain domain then {[domain]} else ∅
  | trackers => list_to_set (filter (λ d, known_domain d = true) (ExtractDomainFromURL ∘ tt_Url <$> trackers))
  end.

(** The mapping part of [refreshTrackerHealthCounts]. *)
Definition map_torrent (m : ValidatedTrackerMapping) (t : Torrent) : ValidatedTrackerMapping :=
  let domains := getDomainsForTorrent t in
  if bool_decide (domains = ∅) then m else
  MkMapping (<[t_Hash t := domains]> (HashToDomains m))
    (foldl (λ d2h domain, index_add domain (t_Hash t) d2h) (DomainToHashes m) (elements domains)).

Definition build_mapping (torrents : list Torrent) : ValidatedTrackerMapping :=
  foldl map_torrent (MkMapping ∅ ∅) torrents.
End domains.

(** ** The relation a mapping stands for *)

Definition holds (m : Index) (k v : string) : Prop := v ∈ default ∅ (m !! k).

(** Both directions agree, no domain is without torrents, and domains are known. *)
Record mapping_ok (m : ValidatedTrackerMapping) : Prop := {
  mo_agree h d : holds (HashToDomains m) h d ↔ holds (DomainToHashes m) d h;
  mo_used d s : DomainToHashes m !! d = Some s → s ≠ ∅;
  mo_known d s : DomainToHashes m !! d = Some s → known_domain d = true }.

Lemma holds_add m k v k' v' : holds (index_add k v m) k' v' ↔ (k' = k ∧ v' = v) ∨ holds m k' v'.
Proof.
  unfold holds, index_add. destruct (decide (k = k')) as [<-|Hne].
  - rewrite lookup_insert_eq. cbn. set_solver.
  - rewrite lookup_insert_ne by done. naive_solver.
Qed.

Lemma holds_del m k v k' v' : holds (index_del k v m) k' v' ↔ holds m k' v' ∧ ¬ (k' = k ∧ v' = v).
Proof.
  unfold holds, index_del. destruct (m !! k) as [s|] eqn:Hk.
  - destruct (decide (k = k')) as [<-|Hne].
    + rewrite lookup_insert_eq, Hk. cbn. set_solver.
    + rewrite lookup_insert_ne by done. naive_solver.
  - split; [|by intros []]. intros Hh. split; [done|]. intros [-> ->]. by rewrite Hk in Hh.
Qed.

Lemma holds_prune m k v k' v' : holds (index_prune k v m) k' v' ↔ holds m k' v' ∧ ¬ (k' = k ∧ v' = v).
Proof.
  rewrite <- holds_del. unfold holds, index_prune, index_del. destruct (m !! k) as [s|] eqn:Hk; [|done].
  case_bool_decide as He; [|done]. destruct (decide (k = k')) as [<-|Hne].
  - rewrite lookup_delete_eq, lookup_insert_eq. cbn. by rewrite He.
  - by rewrite lookup_delete_ne, lookup_insert_ne.
Qed.

Lemma used_add k v (m : Index) : (∀ k s, m !! k = Some s → s ≠ ∅) → ∀ k' s, index_add k v m !! k' = Some s → s ≠ ∅.
Proof.
  intros Hm k' s. unfold index_add. rewrite lookup_insert_Some. intros [[_ <-]|[_ ?]]; [set_solver|eauto].
Qed.

Lemma used_prune k v (m : Index) : (∀ k s, m !! k = Some s → s ≠ ∅) → ∀ k' s, index_prune k v m !! k' = Some s → s ≠ ∅.
Proof.
  intros Hm k' s. unfold index_prune. destruct (m !! k) eqn:Hk; [|apply Hm]. case_bool_decide.
  - rewrite lookup_delete_Some. intros [_ ?]. eauto.
  - rewrite lookup_insert_Some. intros [[_ <-]|[_ ?]]; [done|eauto].
Qed.

Lemma keys_add k v (m : Index) (P : string → Prop) :
  P k → (∀ k s, m !! k = Some s → P k) → ∀ k' s, index_add k v m !! k' = Some s → P k'.
Proof.
  intros Hk Hm k' s. unfold index_add. rewrite lookup_insert_Some. intros [[<- _]|[_ ?]]; [done|eauto].
Qed.

Lemma keys_prune k v (m : Index) (P : string → Prop) :
  (∀ k s, m !! k = Some s → P k) → ∀ k' s, index_prune k v m !! k' = Some s → P k'.
Proof.
  intros Hm k' s. unfold index_prune. destruct (m !! k) eqn:Hk; [|apply Hm]. case_bool_decide.
  - rewrite lookup_delete_Some. intros [_ ?]. eauto.
  - rewrite lookup_insert_Some. intros [[<- _]|[_ ?]]; eauto.
Qed.

(** Steps that change both directions. *)
Lemma mapping_add hash domain m :
  known_domain domain = true → mapping_ok m →
  mapping_ok (MkMapping (index_add hash domain (HashToDomains m)) (index_add domain hash (DomainToHashes m))).
Proof.
  intros Hd [Ha Hu Hk]. split; cbn [HashToDomains DomainToHashes].
  - intros h d. rewrite !holds_add, Ha. naive_solver.
  - by apply used_add.
  - by apply keys_add.
Qed.

Lemma mapping_remove hash domain m h2d :
  (∀ h d, holds h2d h d ↔ holds (HashToDomains m) h d ∧ ¬ (h = hash ∧ d = domain)) → mapping_ok m →
  mapping_ok (MkMapping h2d (index_prune domain hash (DomainToHashes m))).
Proof.
  intros Hh [Ha Hu Hk]. split; cbn [HashToDomains DomainToHashes].
  - intros h d. rewrite Hh, holds_prune, Ha. naive_solver.
  - by apply used_prune.
  - by apply keys_prune.
Qed.

Lemma holds_prune_all hash ds d2h d h :
  holds (foldl (λ d2h domain, index_prune domain hash d2h) d2h ds) d h ↔ holds d2h d h ∧ ¬ (d ∈ ds ∧ h = hash).
Proof.
  revert d2h. induction ds as [|x ds IH]; intros d2h; cbn [foldl].
  - split; [|by intros []]. intros ?. split; [done|]. by intros [?%elem_of_nil _].
  - rewrite IH, holds_prune, elem_of_cons. naive_solver.
Qed.

Lemma holds_add_all hash ds d2h d h :
  holds (foldl (λ d2h domain, index_add domain hash d2h) d2h ds) d h ↔ (d ∈ ds ∧ h = hash) ∨ holds d2h d h.
Proof.
  revert d2h. induction ds as [|x ds IH]; intros d2h; cbn [foldl].
  - split; [by right|]. by intros [[?%elem_of_nil _]|?].
  - rewrite IH, holds_add, elem_of_cons. naive_solver.
Qed.

Lemma fold_keeps {A B} (P : A → Prop) (Q : B → Prop) (f : A → B → A) a l :
  (∀ a b, Q b → P a → P (f a b)) → Forall Q l → P a → P (foldl f a l).
Proof. intros Hf Hl. revert a. induction Hl as [|b l Hb _ IH]; intros a Ha; [done|]. cbn. auto. Qed.

Lemma remove_one_holds m hash h d : mapping_ok m →
  holds (HashToDomains (remove_one m hash)) h d ↔ holds (HashToDomains m) h d ∧ h ≠ hash.
Proof.
  intros _. unfold remove_one. destruct (HashToDomains m !! hash) as [ds|] eqn:Hh; cbn [HashToDomains].
  - unfold holds. destruct (decide (hash = h)) as [<-|Hne].
    + rewrite lookup_delete_eq. split; [intros ?%elem_of_empty|]; naive_solver.
    + rewrite lookup_delete_ne by done. naive_solver.
  - split; [|by intros []]. intros Hd. split; [done|]. intros ->. unfold holds in Hd. by rewrite Hh in Hd.
Qed.

Lemma remove_one_ok m hash : mapping_ok m → mapping_ok (remove_one m hash).
Proof.
  intros Hm. pose proof (λ h d, remove_one_holds m hash h d Hm) as Hh. destruct Hm as [Ha Hu Hk].
  unfold remove_one in *. destruct (HashToDomains m !! hash) as [ds|] eqn:Hl; [|done].
  cbn [HashToDomains] in Hh. split; cbn [HashToDomains DomainToHashes].
  - intros h d. rewrite Hh, holds_prune_all, elem_of_elements, <- Ha. split.
    + intros [? Hne]. split; [done|]. by intros [_ ->].
    + intros [Hd Hn]. split; [done|]. intros ->. apply Hn. split; [|done]. unfold holds in Hd. by rewrite Hl in Hd.
  - apply (fold_keeps (λ d2h, ∀ d s, d2h !! d = Some s → s ≠ ∅) (λ _, True)); [|by apply Forall_true|done].
    intros d2h x _ Hm. by apply used_prune.
  - apply (fold_keeps (λ d2h, ∀ d s, d2h !! d = Some s → known_domain d = true) (λ _, True)); [|by apply Forall_true|done].
    intros d2h x _ Hm. by apply keys_prune.
Qed.

(** ** Edits refine updates of a relation *)

(** What happens to the torrents of an instance between two refreshes. *)
Inductive tracker_edit : Type :=
| TrackerAdded (hash domain : string)
| TrackerRemoved (hash domain : string)
| TrackerEdited (hash oldDomain newDomain : string)
| TorrentsDeleted (hashes : list string).

Definition apply_edit (m : ValidatedTrackerMapping) (e : tracker_edit) : ValidatedTrackerMapping :=
  match e with
  | TrackerAdded hash domain => addHashToTrackerMapping hash domain m
  | TrackerRemoved hash domain => removeHashFromTrackerMapping hash domain m
  | TrackerEdited hash oldDomain newDomain => updateTrackerMappingForEdit hash oldDomain newDomain m
  | TorrentsDeleted hashes => removeHashFromAllTrackerMappings hashes m
  end.

(** A relation of torrents and domains, and the effect of an edit on it. *)
Definition relation : Type := string → string → Prop.

Definition edit_relation (r : relation) (e : tracker_edit) : relation := λ h d,
  match e with
  | TrackerAdded hash domain => r h d ∨ (h = hash ∧ d = domain ∧ known_domain domain = true)
  | TrackerRemoved hash domain => r h d ∧ ¬ (h = hash ∧ d = domain)
  | TrackerEdited hash oldDomain newDomain =>
    (r h d ∧ ¬ (h = hash ∧ d = oldDomain)) ∨ (h = hash ∧ d = newDomain ∧ known_domain newDomain = true)
  | TorrentsDeleted hashes => r h d ∧ h ∉ hashes
  end.

Definition stands_for (m : ValidatedTrackerMapping) (r : relation) : Prop :=
  mapping_ok m ∧ ∀ h d, holds (HashToDomains m) h d ↔ r h d.

Lemma unknown_not_held m h d : mapping_ok m → known_domain d = false → ¬ holds (HashToDomains m) h d.
Proof.
  intros [Ha _ Hk] Hd. rewrite Ha. unfold holds. destruct (DomainToHashes m !! d) as [s|] eqn:Hs.
  - apply Hk in Hs. by rewrite Hd in Hs.
  - by intros ?%elem_of_empty.
Qed.

Lemma remove_all_stands_for hashes m r :
  stands_for m r → stands_for (removeHashFromAllTrackerMappings hashes m) (edit_relation r (TorrentsDeleted hashes)).
Proof.
  unfold removeHashFromAllTrackerMappings. revert m r. induction hashes as [|x hashes IH]; intros m r [Hm Hr].
  - split; [done|]. intros h d. cbn. rewrite Hr. split; [|by intros []]. intros ?. split; [done|]. by intros ?%elem_of_nil.
  - cbn [foldl]. destruct (IH (remove_one m x) (λ h d, r h d ∧ h ≠ x)) as [Hm' Hr'].
    + split; [by apply remove_one_ok|]. intros h d. by rewrite remove_one_holds, Hr.
    + split; [done|]. intros h d. rewrite Hr'. cbn. rewrite elem_of_cons. naive_solver.
Qed.

Lemma edit_stands_for m r e : stands_for m r → stands_for (apply_edit m e) (edit_relation r e).
Proof.
  intros Hs. pose proof Hs as [Hm Hr]. destruct e as [hash domain|hash domain|hash old new|hashes].
  - cbn. unfold addHashToTrackerMapping. destruct (known_domain domain) eqn:Hk; cbn [negb].
    + split; [by apply mapping_add|]. intros h d. cbn [HashToDomains]. rewrite holds_add, Hr. cbn. naive_solver.
    + split; [done|]. intros h d. rewrite Hr. cbn. rewrite Hk. naive_solver.
  - cbn. unfold removeHashFromTrackerMapping. destruct (known_domain domain) eqn:Hk; cbn [negb].
    + split; [apply mapping_remove; [intros h d; apply holds_prune|done]|].
      intros h d. cbn [HashToDomains]. by rewrite holds_prune, Hr.
    + split; [done|]. intros h d. rewrite Hr. cbn. split; [|naive_solver]. intros Hrd. split; [done|].
      intros [-> ->]. eapply unknown_not_held; [done|done|by apply Hr].
  - cbn. unfold updateTrackerMappingForEdit.
    assert (∃ m', (if known_domain old then MkMapping (index_del hash old (HashToDomains m))
      (index_prune old hash (DomainToHashes m)) else m) = m' ∧ stands_for m' (λ h d, r h d ∧ ¬ (h = hash ∧ d = old)))
      as (m' & -> & Hm' & Hr').
    { eexists. split; [done|]. destruct (known_domain old) eqn:Hk.
      - split; [apply mapping_remove; [intros h d; apply holds_del|done]|].
        intros h d. cbn [HashToDomains]. by rewrite holds_del, Hr.
      - split; [done|]. intros h d. rewrite Hr. split; [|naive_solver]. intros Hrd. split; [done|].
        intros [-> ->]. eapply unknown_not_held; [done|done|by apply Hr]. }
    destruct (known_domain new) eqn:Hk.
    + split; [by apply mapping_add|]. intros h d. cbn [HashToDomains]. rewrite holds_add, Hr'. cbn. naive_solver.
    + split; [done|]. intros h d. rewrite Hr'. cbn. rewrite Hk. naive_solver.
  - by apply remove_all_stands_for.
Qed.

Section build.
Context `{!UnicodeCase, !Library}.

Lemma known_domains t d : d ∈ getDomainsForTorrent t → known_domain d = true.
Proof.
  unfold getDomainsForTorrent. destruct (t_Trackers t) as [|tr trs].
  - case_bool_decide; [by intros ?%elem_of_empty|]. cbv zeta. destruct (known_domain _) eqn:Hk; [|by intros ?%elem_of_empty].
    by intros ->%elem_of_singleton.
  - rewrite elem_of_list_to_set, list_elem_of_filter. by intros [? _].
Qed.

(** A refresh relates each torrent to its domains. *)
Lemma build_stands_for torrents :
  NoDup (t_Hash <$> torrents) →
  stands_for (build_mapping torrents) (λ h d, ∃ t, t ∈ torrents ∧ t_Hash t = h ∧ d ∈ getDomainsForTorrent t).
Proof.
  intros Hnd. unfold build_mapping.
  assert (∀ l m done, NoDup (t_Hash <$> done ++ l) →
    stands_for m (λ h d, ∃ t, t ∈ done ∧ t_Hash t = h ∧ d ∈ getDomainsForTorrent t) →
    stands_for (foldl map_torrent m l) (λ h d, ∃ t, t ∈ done ++ l ∧ t_Hash t = h ∧ d ∈ getDomainsForTorrent t)) as Hgen.
  { clear. induction l as [|t l IH]; intros m prev Hnd [Hm Hr]; cbn [foldl]; [by rewrite app_nil_r|].
    replace (prev ++ t :: l) with ((prev ++ [t]) ++ l) in * by by rewrite <- app_assoc.
    apply IH; [done|]. unfold map_torrent. cbv zeta. case_bool_decide as He.
    { split; [done|]. intros h d. rewrite Hr. setoid_rewrite elem_of_app. setoid_rewrite list_elem_of_singleton.
      split; [naive_solver|]. intros (t' & [?| ->] & ? & Hd); [eauto|]. rewrite He in Hd. by apply elem_of_empty in Hd. }
    assert (∀ d, ¬ holds (HashToDomains m) (t_Hash t) d) as Hfresh.
    { intros d (t' & Hin & Heq & _)%Hr. rewrite !fmap_app in Hnd. apply NoDup_app in Hnd as (Hnd & _).
      apply NoDup_app in Hnd as (_ & Hnd & _). apply (Hnd (t_Hash t)); [|by left].
      rewrite <- Heq. by apply list_elem_of_fmap_2. }
    assert (∀ h d, holds (<[t_Hash t:=getDomainsForTorrent t]> (HashToDomains m)) h d ↔
      (h = t_Hash t ∧ d ∈ getDomainsForTorrent t) ∨ holds (HashToDomains m) h d) as Hins.
    { intros h d. specialize (Hfresh d). unfold holds in *. destruct (decide (t_Hash t = h)) as [<-|Hne].
      - rewrite lookup_insert_eq. cbn. naive_solver.
      - rewrite lookup_insert_ne by done. naive_solver. }
    destruct Hm as [Ha Hu Hk]. split; [split; cbn [HashToDomains DomainToHashes]|].
    - intros h d. rewrite Hins, holds_add_all, elem_of_elements, <- Ha. naive_solver.
    - apply (fold_keeps (λ d2h, ∀ d s, d2h !! d = Some s → s ≠ ∅) (λ _, True)); [|by apply Forall_true|done].
      intros d2h x _ Hm. by apply used_add.
    - apply (fold_keeps (λ d2h, ∀ d s, d2h !! d = Some s → known_domain d = true) (λ d, known_domain d = true)); [| |done].
      + intros d2h x Hx Hm. by apply keys_add.
      + apply Forall_forall. intros d Hd%elem_of_elements. by eapply known_domains.
    - intros h d. cbn [HashToDomains]. rewrite Hins, Hr. setoid_rewrite elem_of_app.
      setoid_rewrite list_elem_of_singleton. naive_solver. }
  apply (Hgen torrents (MkMapping ∅ ∅) []); [done|]. split.
  - split; cbn [HashToDomains DomainToHashes]; unfold holds.
    + intros h d. by rewrite !lookup_empty.
    + by intros d s ?%lookup_empty_Some.
    + by intros d s ?%lookup_empty_Some.
  - intros h d. cbn. unfold holds. rewrite lookup_empty. split; [by intros ?%elem_of_empty|].
    by intros (t & ?%elem_of_nil & _).
Qed.

(** C6.  From a refresh on, through any sequence of tracker edits and deletions,
    the two directions of the mapping stay inverse to each other, hold known
    domains only and no domain without torrents, and stand for the relation that
    the same edits make of the refreshed one. *)
Theorem mapping_refines_relation (torrents : list Torrent) (edits : list tracker_edit) :
  NoDup (t_Hash <$> torrents) →
  stands_for (foldl apply_edit (build_mapping torrents) edits)
    (foldl edit_relation (λ h d, ∃ t, t ∈ torrents ∧ t_Hash t = h ∧ d ∈ getDomainsForTorrent t) edits).
Proof.
  intros Hnd%build_stands_for. revert Hnd.
  generalize (build_mapping torrents) (λ h d, ∃ t, t ∈ torrents ∧ t_Hash t = h ∧ d ∈ getDomainsForTorrent t).
  induction edits as [|e edits IH]; intros m r Hm; [done|]. cbn [foldl]. by apply IH, edit_stands_for.
Qed.
End build.

(** ** The counts of failing torrents *)

(** A count and the hashes counted. *)
Record bucket_count := MkCount { bc_count : Z; bc_set : gset string }.

Record TrackerHealthCounts := MkHealthCounts {
  hc_Unregistered : bucket_count; hc_TrackerDown : bucket_count; hc_TrackerError : bucket_count }.

Definition no_counts : TrackerHealthCounts := MkHealthCounts (MkCount 0 ∅) (MkCount 0 ∅) (MkCount 0 ∅).

Definition count_hash (hash : string) (b : bucket_count) : bucket_count :=
  MkCount (bc_count b + 1) ({[hash]} ∪ bc_set b).

Definition uncount_hash (hash : string) (b : bucket_count) : bucket_count :=
  if bool_decide (hash ∈ bc_set b)
  then MkCount (if (0 <? bc_count b)%Z then bc_count b - 1 else bc_count b)%Z (bc_set b ∖ {[hash]})
  else b.

Section health.
Context `{!UnicodeCase, !Library}.

(** The counting part of [refreshTrackerHealthCounts]. *)
Definition count_health (c : TrackerHealthCounts) (t : Torrent) : TrackerHealthCounts :=
  match determineTrackerHealth t with
  | Some TrackerHealthUnregistered =>
    MkHealthCounts (count_hash (t_Hash t) (hc_Unregistered c)) (hc_TrackerDown c) (hc_TrackerError c)
  | Some TrackerHealthDown =>
    MkHealthCounts (hc_Unregistered c) (count_hash (t_Hash t) (hc_TrackerDown c)) (hc_TrackerError c)
  | Some TrackerHealthError =>
    MkHealthCounts (hc_Unregistered c) (hc_TrackerDown c) (count_hash (t_Hash t) (hc_TrackerError c))
  | None => c
  end.

Definition refreshTrackerHealthCounts (enriched : list Torrent) : TrackerHealthCounts :=
  foldl count_health no_counts enriched.

Definition remove_hash (c : TrackerHealthCounts) (hash : string) : TrackerHealthCounts :=
  MkHealthCounts (uncount_hash hash (hc_Unregistered c)) (uncount_hash hash (hc_TrackerDown c))
    (uncount_hash hash (hc_TrackerError c)).

Definition RemoveHashesFromTrackerHealthCache (hashes : list string) (c : TrackerHealthCounts) : TrackerHealthCounts :=
  foldl remove_hash c hashes.

(** The count of a kind of failure. *)
Definition count_of (c : TrackerHealthCounts) (h : TrackerHealth) : bucket_count :=
  match h with
  | TrackerHealthUnregistered => hc_Unregistered c
  | TrackerHealthDown => hc_TrackerDown c
  | TrackerHealthError => hc_TrackerError c
  end.

Definition counted (b : bucket_count) (P : string → Prop) : Prop :=
  bc_count b = Z.of_nat (size (bc_set b)) ∧ ∀ hash, hash ∈ bc_set b ↔ P hash.

Lemma count_of_step c t h :
  count_of (count_health c t) h =
  if bool_decide (determineTrackerHealth t = Some h) then count_hash (t_Hash t) (count_of c h) else count_of c h.
Proof. unfold count_health. by destruct (determineTrackerHealth t) as [[]|], h. Qed.

Lemma refresh_counted h torrents :
  NoDup (t_Hash <$> torrents) →
  counted (count_of (refreshTrackerHealthCounts torrents) h)
    (λ hash, ∃ t, t ∈ torrents ∧ t_Hash t = hash ∧ determineTrackerHealth t = Some h).
Proof.
  unfold refreshTrackerHealthCounts. induction torrents as [|t torrents IH] using rev_ind; intros Hnd.
  { split; [by destruct h|]. intros hash. destruct h; (split; [by intros ?%elem_of_empty|by intros (? & ?%elem_of_nil & _)]). }
  rewrite foldl_snoc, count_of_step. rewrite fmap_app in Hnd. apply NoDup_app in Hnd as (Hnd & Hdis & _).
  destruct (IH Hnd) as [Hc Hs]. case_bool_decide as Hh; split; cbn [count_hash bc_count bc_set].
  - rewrite size_union, size_singleton, Hc; [lia|]. intros x ->%elem_of_singleton (t' & Hin & Heq & _)%Hs.
    apply (Hdis (t_Hash t)); [|by left]. rewrite <- Heq. by apply list_elem_of_fmap_2.
  - intros hash. rewrite elem_of_union, elem_of_singleton, Hs. setoid_rewrite elem_of_app.
    setoid_rewrite list_elem_of_singleton. naive_solver.
  - done.
  - intros hash. rewrite Hs. setoid_rewrite elem_of_app. setoid_rewrite list_elem_of_singleton. naive_solver.
Qed.

Lemma uncount_counted hash b P :
  counted b P → counted (uncount_hash hash b) (λ x, P x ∧ x ≠ hash).
Proof.
  intros [Hc Hs]. unfold uncount_hash. case_bool_decide as Hin.
  - assert (size (bc_set b) ≠ 0%nat) as Hne.
    { intros Hz%size_empty_inv. set_solver. }
    split; cbn [bc_count bc_set].
    + rewrite size_difference, size_singleton by set_solver.
      destruct (0 <? bc_count b)%Z eqn:Hp; [lia|]. apply Z.ltb_ge in Hp. lia.
    + intros x. rewrite elem_of_difference, elem_of_singleton, Hs. done.
  - split; [done|]. intros x. rewrite Hs. split; [|by intros []]. intros Hx. split; [done|]. intros ->. by apply Hin, Hs.
Qed.

(**  After a refresh, and after any deletions since, the cache has for each kind
    of failure exactly the torrents that are left with it, and their number. *)
Theorem health_cache_exact (torrents : list Torrent) (deleted : list string) (h : TrackerHealth) :
  NoDup (t_Hash <$> torrents) →
  counted (count_of (RemoveHashesFromTrackerHealthCache deleted (refreshTrackerHealthCounts torrents)) h)
    (λ hash, ∃ t, t ∈ torrents ∧ t_Hash t = hash ∧ determineTrackerHealth t = Some h ∧ hash ∉ deleted).
Proof.
  intros Hnd%(refresh_counted h). unfold RemoveHashesFromTrackerHealthCache. revert Hnd.
  generalize (refreshTrackerHealthCounts torrents). intros c.
  assert (∀ P, counted (count_of c h) P → counted (count_of (foldl remove_hash c deleted) h) (λ x, P x ∧ x ∉ deleted)) as Hgen.
  { revert c. induction deleted as [|x deleted IH]; intros c P HP; cbn [foldl].
    - destruct HP as [Hc Hs]. split; [done|]. intros y. rewrite Hs. split; [|by intros []]. intros ?. split; [done|].
      by intros ?%elem_of_nil.
    - assert (count_of (remove_hash c x) h = uncount_hash x (count_of c h)) as E by (by destruct h).
      destruct (IH (remove_hash c x) (λ y, P y ∧ y ≠ x)) as [Hc Hs]; [rewrite E; by apply uncount_counted|].
      split; [done|]. intros y. rewrite Hs, elem_of_cons. naive_solver. }
  intros [Hc Hs]%Hgen. split; [done|]. intros hash. rewrite Hs. naive_solver.
Qed.
End health.

(** ** Runs *)

#[local] Existing Instance AsciiCase.

(** A torrent with one tracker, added at the given time. *)
Definition tracked (hash url message : string) (status added : Z) : Torrent :=
  MkTorrent added 0 false f64_zero "" "" 0 0 "" "" 0 0 "" 0 0 0 false false hash "" "" f64_zero false
    0 "" f64_zero 0 0 "" 0 0 0 0 0 f64_zero f64_zero f64_zero 0 "" 0 0 0 "" "" 0 false 0 ""
    false "" 0 0 url 0 0 0 0 0 [MkTracker url status 0 0 0 0 message].

Definition fleet : list Torrent :=
  [tracked "a" "one.org/announce" "Torrent not registered" TrackerStatusTrackerError 1;
   tracked "b" "two.org/announce" "" TrackerStatusOK 1;
   tracked "c" "two.org/announce" "timed out" TrackerStatusNotWorking 1].

Definition fleet_edits : list tracker_edit :=
  [TrackerEdited "a" "one.org" "two.org"; TorrentsDeleted ["b"%string]; TrackerRemoved "c" "two.org"].

Lemma mapping_refines_relation_witness :
  stands_for (foldl apply_edit (@build_mapping AsciiCase SimpleLibrary fleet) fleet_edits)
    (foldl edit_relation (λ h d, ∃ t, t ∈ fleet ∧ t_Hash t = h ∧ d ∈ @getDomainsForTorrent AsciiCase SimpleLibrary t) fleet_edits).
Proof. apply mapping_refines_relation. by apply (bool_decide_eq_true_1 _). Defined.

Example fleet_mapping :
  bool_decide (DomainToHashes (@build_mapping AsciiCase SimpleLibrary fleet) =
    list_to_map [("one.org", {["a"]}); ("two.org", {["b"; "c"]})]%string) = true ∧
  bool_decide (DomainToHashes (foldl apply_edit (@build_mapping AsciiCase SimpleLibrary fleet) fleet_edits) =
    {["two.org" := {["a"]}]}%string) = true.
Proof. by vm_compute. Qed.

Lemma health_cache_exact_witness :
  counted (count_of (RemoveHashesFromTrackerHealthCache ["b"%string]
      (@refreshTrackerHealthCounts AsciiCase SimpleLibrary fleet)) TrackerHealthDown)
    (λ hash, ∃ t, t ∈ fleet ∧ t_Hash t = hash ∧
      @determineTrackerHealth AsciiCase SimpleLibrary t = Some TrackerHealthDown ∧ hash ∉ ["b"%string]).
Proof. apply health_cache_exact. by apply (bool_decide_eq_true_1 _). Defined.

Example fleet_health :
  @determineTrackerHealth AsciiCase SimpleLibrary <$> fleet =
  [Some TrackerHealthUnregistered; None; Some TrackerHealthDown].
Proof. by vm_compute. Qed.

(** The text of a link does not count as the message of an outage. *)
Example link_ignored :
  @TrackerMessageMatchesDown AsciiCase "see HTTPS://x.org/down" = false ∧
  @TrackerMessageMatchesDown AsciiCase "down, see https://x.org" = true.
Proof. by vm_compute. Qed.
