(* ===== verification/PathUtil.v ===== *)
(** * [pkg/pathutil/sanitize.go]: names that are safe as path segments

    The names of torrents become directory names.  This file models their
    sanitisation and the names of the isolation folders of cross-seeds. *)

From Stdlib Require Import ZArith Lia Ascii.
From stdpp Require Import base numbers list strings gmap.
From S2P Require Import Prelude.
From S2P Require Import GoStrings.

Open Scope qui_scope.

Definition windowsReservedNames : gset string :=
  list_to_set ["CON"; "PRN"; "AUX"; "NUL"; "COM1"; "COM2"; "COM3"; "COM4"; "COM5"; "COM6"; "COM7";
    "COM8"; "COM9"; "LPT1"; "LPT2"; "LPT3"; "LPT4"; "LPT5"; "LPT6"; "LPT7"; "LPT8"; "LPT9"].

(** The character classes of [illegalCharsRegex] and [controlCharsRegex]. *)
Definition is_illegal (a : ascii) : bool :=
  bool_decide (a ∈ ["<"; ">"; ":"; "034"; "/"; "\"; "|"; "?"; "*"]%char).
Definition is_control (a : ascii) : bool := (byte a <? 32)%Z.

(** [ReplaceAllString(s, "")] of a class of bytes. *)
Definition remove_bytes (class : ascii → bool) (s : string) : string :=
  of_bytes (filter (λ a, class a = false) (to_bytes s)).

Definition dots_and_spaces : list ascii := ["."; " "]%char.

Section sanitize.
Context `{!UnicodeCase}.

(** The text before the first dot, unless the dot is the first character. *)
Definition base_name (upper : string) : string :=
  match Cut upper "."%char with
  | Some (before, _) => if bool_decide (before = "") then upper else before
  | None => upper
  end.

Definition SanitizePathSegment (name : string) : string :=
  if bool_decide (name = "") then "_" else
  let result := remove_bytes is_illegal name in
  let result := remove_bytes is_control result in
  let result := TrimRight result dots_and_spaces in
  if bool_decide (result = "") then "_"
  else if bool_decide (base_name (ToUpper result) ∈ windowsReservedNames) then "_" +++ result
  else result.

Definition maxNameLen : nat := 80.

(** [s[:n]] for [n] within the string. *)
Definition first_bytes (n : nat) (s : string) : string := of_bytes (take n (to_bytes s)).

Definition short_hash (infohash : string) : string :=
  if bool_decide (8 ≤ length (to_bytes infohash))%nat then ToLower (first_bytes 8 infohash)
  else if bool_decide (infohash = "") then "" else ToLower infohash.

Definition IsolationFolderName (infohash name : string) : string :=
  let sanitizedName := SanitizePathSegment name in
  let sanitizedName :=
    if bool_decide (maxNameLen < length (to_bytes sanitizedName))%nat
    then TrimRight (first_bytes maxNameLen sanitizedName) dots_and_spaces else sanitizedName in
  let shortHash := short_hash infohash in
  if bool_decide (shortHash = "") then sanitizedName
  else sanitizedName +++ ("--" +++ shortHash).
End sanitize.

(** ** What the sanitisation guarantees *)

(** A byte that may occur in a segment. *)
Definition plain_byte (a : ascii) : Prop := is_illegal a = false ∧ is_control a = false.

(** A segment of plain bytes, not empty, that does not end in a dot or a space. *)
Definition clean_segment (s : string) : Prop :=
  s ≠ "" ∧ Forall plain_byte (to_bytes s) ∧
  ∀ a, last (to_bytes s) = Some a → a ∉ dots_and_spaces.

Lemma to_bytes_nil s : to_bytes s = [] ↔ s = "".
Proof. by destruct s. Qed.

Lemma drop_set_suffix cutset l : ∃ p, l = p ++ drop_set cutset l ∧ Forall (.∈ cutset) p.
Proof.
  induction l as [|a l IH]; simpl; [by exists []|].
  case_bool_decide; [|by exists []]. destruct IH as (p & E & Hp). exists (a :: p). split; [simpl; by f_equal|].
  by constructor.
Qed.

Lemma drop_set_head cutset l a : head (drop_set cutset l) = Some a → a ∉ cutset.
Proof.
  induction l as [|b l IH]; simpl; [done|]. case_bool_decide; [done|]. by intros [= <-].
Qed.

Lemma head_rev {A} (l : list A) : head (rev l) = last l.
Proof. rewrite rev_alt. apply head_reverse. Qed.

Lemma TrimRight_last s cutset a : last (to_bytes (TrimRight s cutset)) = Some a → a ∉ cutset.
Proof.
  unfold TrimRight. rewrite to_of_bytes, <- head_rev, rev_involutive. apply drop_set_head.
Qed.

Lemma TrimRight_prefix s cutset : ∃ q, to_bytes s = to_bytes (TrimRight s cutset) ++ q.
Proof.
  unfold TrimRight. rewrite to_of_bytes. destruct (drop_set_suffix cutset (rev (to_bytes s))) as (p & E & _).
  exists (rev p). rewrite <- rev_app_distr, <- E. by rewrite rev_involutive.
Qed.

Lemma TrimRight_id s cutset :
  (∀ a, last (to_bytes s) = Some a → a ∉ cutset) → TrimRight s cutset = s.
Proof.
  intros H. unfold TrimRight. rewrite <- head_rev in H. destruct (rev (to_bytes s)) as [|a l] eqn:E.
  - simpl. rewrite <- (of_to_bytes s). f_equal. by rewrite <- (rev_involutive (to_bytes s)), E.
  - simpl. rewrite bool_decide_false by (by apply H). by rewrite <- E, rev_involutive, of_to_bytes.
Qed.

Lemma remove_bytes_id class s :
  Forall (λ a, class a = false) (to_bytes s) → remove_bytes class s = s.
Proof.
  intros H. unfold remove_bytes. rewrite <- (of_to_bytes s) at 2. f_equal.
  induction H as [|a l Ha _ IH]; [done|]. rewrite filter_cons_True by done. by f_equal.
Qed.

Section safe.
Context `{!UnicodeCase}.

(** What is left before the check for reserved names. *)
Lemma trimmed_clean name :
  let s := TrimRight (remove_bytes is_control (remove_bytes is_illegal name)) dots_and_spaces in
  s ≠ "" → clean_segment s.
Proof.
  cbn zeta. set (r := remove_bytes is_control _). intros Hne. split_and!; [done| |apply TrimRight_last].
  assert (Forall plain_byte (to_bytes r)) as Hr.
  { unfold r, remove_bytes. rewrite !to_of_bytes. apply Forall_forall. intros a Ha.
    apply list_elem_of_filter in Ha as [? Ha]. by apply list_elem_of_filter in Ha as [? _]. }
  destruct (TrimRight_prefix r dots_and_spaces) as (q & E). rewrite E in Hr.
  by apply Forall_app in Hr as [? _].
Qed.

Lemma underscore_clean s : (s = "" ∨ clean_segment s) → clean_segment ("_" +++ s).
Proof.
  intros Hs. split_and!; [done| |]; simpl.
  - constructor; [done|]. destruct Hs as [->|(_ & ? & _)]; [constructor|done].
  - intros a. rewrite last_cons. destruct Hs as [->|(Hne & _ & Hl)].
    + intros [= <-]. by apply (bool_decide_eq_true_1 _).
    + change (to_bytes ("" +++ s)) with (to_bytes s). destruct (last (to_bytes s)) as [b|] eqn:E.
      { intros [= ->]. by apply Hl. }
      apply last_None in E. by apply to_bytes_nil in E.
Qed.
End safe.

Lemma SanitizePathSegment_segment `{!UnicodeCase} (name : string) : clean_segment (SanitizePathSegment name).
Proof.
  pose proof (underscore_clean "" (or_introl eq_refl)) as Hu. pose proof (trimmed_clean name) as Ht.
  unfold SanitizePathSegment. cbn zeta in *. repeat case_bool_decide; auto.
  by apply underscore_clean; right; apply Ht.
Qed.

(** Whatever the name of a torrent, its
    sanitised form is a single path segment: it is not empty, has no
    separator, no character Windows refuses and no control character, and does
    not end in a dot or a space, so that it is neither [.] nor [..]; a name
    that has this form already, and is not reserved, is left unchanged. *)
Theorem SanitizePathSegment_safe `{!UnicodeCase} (name : string) :
  clean_segment (SanitizePathSegment name) ∧
  (clean_segment name → base_name (ToUpper name) ∉ windowsReservedNames →
   SanitizePathSegment name = name).
Proof.
  split; [apply SanitizePathSegment_segment|].
  - intros (Hne & Hp & Hl) Hr. unfold SanitizePathSegment. rewrite bool_decide_false by done.
    rewrite (remove_bytes_id is_illegal name), remove_bytes_id, TrimRight_id by
      first [done|eapply Forall_impl; [exact Hp|by intros ? []]].
    by rewrite !bool_decide_false.
Qed.

(** ** Examples and a witness *)

Example sanitize_traversal : @SanitizePathSegment AsciiCase "../../etc/.." = "....etc".
Proof. by vm_compute. Qed.

Example sanitize_dots : @SanitizePathSegment AsciiCase "..." = "_".
Proof. by vm_compute. Qed.

Example sanitize_reserved : @SanitizePathSegment AsciiCase "con.txt" = "_con.txt".
Proof. by vm_compute. Qed.

Example isolation_folder :
  @IsolationFolderName AsciiCase "ABCDEF0123456789" "My: Film?" = "My Film--abcdef01".
Proof. by vm_compute. Qed.

Lemma SanitizePathSegment_safe_witness :
  @SanitizePathSegment AsciiCase "My.Film.2024" = "My.Film.2024".
Proof.
  apply (@SanitizePathSegment_safe AsciiCase "My.Film.2024").
  - split_and!; [done| |].
    + by apply (bool_decide_eq_true_1 _); vm_compute.
    + intros a [= <-]. by apply (bool_decide_eq_true_1 _); vm_compute.
  - by apply (bool_decide_eq_true_1 _); vm_compute.
Defined.
