(* ===== verification/Processor.v ===== *)
(** * [internal/services/automations/processor.go]: what the rules want

    For every torrent the rules that match its trackers are applied in their
    order to a desired state, which the service then carries out.  This file
    models the desired state, every action of a rule, the free-space projection
    of deletions (free_space.go, service.go) and the loop over the torrents. *)

From Stdlib Require Import ZArith Lia Ascii.
From stdpp Require Import base numbers list strings gmap sorting pretty.
From S2P Require Import Prelude.
From S2P Require Import GoStrings.
From S2P Require Import GoPath.
From S2P Require Import GoFloat.
From S2P Require Import Normalizer.
From S2P Require Import UnicodeText.
From S2P Require Import PathUtil.
From S2P Require Import Domain.
From S2P Require Import Automation.
From S2P Require Import Conditions.
From S2P Require Import Grouping.

Open Scope qui_scope.

(** ** The desired state of a torrent *)

Record ruleRef := MkRef { rr_id : Z; rr_name : string }.
Definition no_ref : ruleRef := MkRef 0 "".
Definition ref_of (rule : Automation) : ruleRef := MkRef (au_ID rule) (au_Name rule).

(** The fields of [torrentDesiredState], by action. *)
Record SpeedState := MkSpeed {
  uploadLimitKiB : option Z; downloadLimitKiB : option Z; uploadRule : ruleRef; downloadRule : ruleRef }.
Record ShareState := MkShare {
  ratioLimit : option float64; seedingMinutes : option Z; shareLimitAction : string;
  shareLimitsMode : string; ratioRule : ruleRef; seedingRule : ruleRef; shareActionRule : ruleRef;
  shareModeRule : ruleRef }.
Record RunState := MkRun {
  shouldPause : bool; pauseRule : ruleRef; shouldResume : bool; resumeRule : ruleRef }.
Record CheckState := MkCheck {
  shouldRecheck : bool; recheckRule : ruleRef; shouldReannounce : bool; reannounceRule : ruleRef;
  shouldAutoManage : bool; autoManageValue : bool; autoManageRule : ruleRef }.
Record TagState := MkTagState {
  currentTags : gset string; tagActions : gmap string string; tagRuleByTag : gmap string ruleRef }.
Record CategoryState := MkCategoryState {
  cs_category : option string; categoryGroupID : string; categoryRuleID : Z;
  categoryIncludeCrossSeeds : bool; categoryRule : ruleRef }.
Record DeleteState := MkDelete {
  shouldDelete : bool; deleteMode : string; deleteIncludeHardlinks : bool; deleteGroupID : string;
  deleteAtomic : string; deleteRuleID : Z; deleteRuleName : string; deleteReason : string }.
Record MoveState := MkMove {
  shouldMove : bool; movePath : string; moveGroupID : string; moveAtomic : string;
  moveBlockIfCrossSeed : bool; moveCondition : option RuleCondition; moveRuleID : Z;
  moveRuleName : string; moveRule : ruleRef }.
Record LateState := MkLate {
  externalProgramID : option Z; programRuleID : Z; programRuleName : string;
  exportToInstance : option ExportToInstanceAction; exportToInstanceRuleID : Z;
  exportToInstanceRuleName : string }.

Record torrentDesiredState := MkDesired {
  ds_hash : string; ds_name : string; ds_trackerDomains : list string; ds_speed : SpeedState;
  ds_share : ShareState; ds_run : RunState; ds_check : CheckState; ds_tags : TagState;
  ds_category : CategoryState; ds_delete : DeleteState; ds_move : MoveState; ds_late : LateState }.

Definition set_domains x (d : torrentDesiredState) :=
  MkDesired (ds_hash d) (ds_name d) x (ds_speed d) (ds_share d) (ds_run d) (ds_check d) (ds_tags d)
    (ds_category d) (ds_delete d) (ds_move d) (ds_late d).
Definition set_speed x (d : torrentDesiredState) :=
  MkDesired (ds_hash d) (ds_name d) (ds_trackerDomains d) x (ds_share d) (ds_run d) (ds_check d)
    (ds_tags d) (ds_category d) (ds_delete d) (ds_move d) (ds_late d).
Definition set_share x (d : torrentDesiredState) :=
  MkDesired (ds_hash d) (ds_name d) (ds_trackerDomains d) (ds_speed d) x (ds_run d) (ds_check d)
    (ds_tags d) (ds_category d) (ds_delete d) (ds_move d) (ds_late d).
Definition set_run x (d : torrentDesiredState) :=
  MkDesired (ds_hash d) (ds_name d) (ds_trackerDomains d) (ds_speed d) (ds_share d) x (ds_check d)
    (ds_tags d) (ds_category d) (ds_delete d) (ds_move d) (ds_late d).
Definition set_check x (d : torrentDesiredState) :=
  MkDesired (ds_hash d) (ds_name d) (ds_trackerDomains d) (ds_speed d) (ds_share d) (ds_run d) x
    (ds_tags d) (ds_category d) (ds_delete d) (ds_move d) (ds_late d).
Definition set_tags x (d : torrentDesiredState) :=
  MkDesired (ds_hash d) (ds_name d) (ds_trackerDomains d) (ds_speed d) (ds_share d) (ds_run d)
    (ds_check d) x (ds_category d) (ds_delete d) (ds_move d) (ds_late d).
Definition set_category x (d : torrentDesiredState) :=
  MkDesired (ds_hash d) (ds_name d) (ds_trackerDomains d) (ds_speed d) (ds_share d) (ds_run d)
    (ds_check d) (ds_tags d) x (ds_delete d) (ds_move d) (ds_late d).
Definition set_delete x (d : torrentDesiredState) :=
  MkDesired (ds_hash d) (ds_name d) (ds_trackerDomains d) (ds_speed d) (ds_share d) (ds_run d)
    (ds_check d) (ds_tags d) (ds_category d) x (ds_move d) (ds_late d).
Definition set_move x (d : torrentDesiredState) :=
  MkDesired (ds_hash d) (ds_name d) (ds_trackerDomains d) (ds_speed d) (ds_share d) (ds_run d)
    (ds_check d) (ds_tags d) (ds_category d) (ds_delete d) x (ds_late d).
Definition set_late x (d : torrentDesiredState) :=
  MkDesired (ds_hash d) (ds_name d) (ds_trackerDomains d) (ds_speed d) (ds_share d) (ds_run d)
    (ds_check d) (ds_tags d) (ds_category d) (ds_delete d) (ds_move d) x.

(** [parseTorrentTags] *)
Definition parseTorrentTags (tags : string) : gset string :=
  list_to_set (filter (.≠ "") (TrimSpace <$> Split tags ","%char)).

(** The state of a torrent no rule was applied to. *)
Definition fresh_state (t : Torrent) : torrentDesiredState :=
  MkDesired (t_Hash t) (t_Name t) [] (MkSpeed None None no_ref no_ref)
    (MkShare None None "" "" no_ref no_ref no_ref no_ref) (MkRun false no_ref false no_ref)
    (MkCheck false no_ref false no_ref false false no_ref)
    (MkTagState (parseTorrentTags (t_Tags t)) ∅ ∅) (MkCategoryState None "" 0 false no_ref)
    (MkDelete false "" false "" "" 0 "" "") (MkMove false "" "" "" false None 0 "" no_ref)
    (MkLate None 0 "" None 0 "").

Definition hasActions (d : torrentDesiredState) : bool :=
  negb (is_nil (uploadLimitKiB (ds_speed d))) || negb (is_nil (downloadLimitKiB (ds_speed d))) ||
  negb (is_nil (ratioLimit (ds_share d))) || negb (is_nil (seedingMinutes (ds_share d))) ||
  shouldPause (ds_run d) || shouldResume (ds_run d) || shouldRecheck (ds_check d) ||
  shouldReannounce (ds_check d) || shouldAutoManage (ds_check d) ||
  negb (bool_decide (tagActions (ds_tags d) = ∅)) || negb (is_nil (cs_category (ds_category d))) ||
  shouldDelete (ds_delete d) || shouldMove (ds_move d) ||
  negb (is_nil (externalProgramID (ds_late d))) || negb (is_nil (exportToInstance (ds_late d))).

(** *** Counters *)

(** The fields of [ruleRunStats]; the record maps each to its count. *)
Inductive stat : Type :=
| MatchedTrackers | SpeedApplied | SpeedConditionNotMet | ShareApplied | ShareConditionNotMet
| PauseApplied | PauseConditionNotMet | ResumeApplied | ResumeConditionNotMet
| RecheckApplied | RecheckConditionNotMet | ReannounceApplied | ReannounceConditionNotMet
| AutoManageApplied | AutoManageConditionNotMet | TagConditionMet | TagConditionNotMet
| TagSkippedMissingUnregisteredSet | CategoryApplied | CategoryConditionNotMetOrBlocked
| DeleteApplied | DeleteConditionNotMet | MoveApplied | MoveConditionNotMet
| MoveAlreadyAtDestination | MoveBlockedByCrossSeed | ExternalProgramApplied
| ExternalProgramConditionNotMet | ExportToInstanceApplied | ExportToInstanceConditionNotMet.

#[export] Instance stat_eq_dec : EqDecision stat.
Proof. solve_decision. Defined.

Definition ruleRunStats : Type := stat → Z.
Definition no_stats : ruleRunStats := λ _, 0%Z.
Definition bump (c : stat) (s : ruleRunStats) : ruleRunStats :=
  λ c', if bool_decide (c' = c) then i64 (s c + 1) else s c'.

Definition totalApplied (s : option ruleRunStats) : Z :=
  match s with
  | None => 0
  | Some s => foldl (λ n c, i64 (n + s c)) 0%Z
      [SpeedApplied; ShareApplied; PauseApplied; ResumeApplied; RecheckApplied; ReannounceApplied;
       AutoManageApplied; TagConditionMet; CategoryApplied; DeleteApplied; MoveApplied;
       ExternalProgramApplied; ExportToInstanceApplied]
  end.

(** ** Fields used by a rule (service.go) *)

Definition scoreRuleUsesField (rule : ScoreRule) (field : ConditionField) : bool :=
  match sr_FieldMultiplier rule with
  | Some fm => bool_decide (fm_Field fm = field)
  | None => false
  end ||
  match sr_Conditional rule with
  | Some c => ConditionUsesField (cn_Condition c) field
  | None => false
  end.

Definition sortingConfigUsesField (config : option SortingConfig) (field : ConditionField) : bool :=
  match config with
  | None => false
  | Some config =>
    if bool_decide (sc_Type config = SortingTypeSimple) then bool_decide (sc_Field config = field)
    else if negb (bool_decide (sc_Type config = SortingTypeScore)) then false
    else existsb (λ r, scoreRuleUsesField r field) (sc_ScoreRules config)
  end.

Definition actionConditionsUseField (ac : option ActionConditions) (field : ConditionField) : bool :=
  match ac with
  | None => false
  | Some c =>
    existsb (λ cond, ConditionUsesField cond field)
      [condition_from sl_Enabled sl_Condition (ac_SpeedLimits c);
       condition_from sh_Enabled sh_Condition (ac_ShareLimits c);
       condition_from pa_Enabled pa_Condition (ac_Pause c);
       condition_from ra_Enabled ra_Condition (ac_Resume c);
       condition_from ca_Enabled ca_Condition (ac_Recheck c);
       condition_from na_Enabled na_Condition (ac_Reannounce c);
       condition_from (λ _, true) am_Condition (ac_AutoManagement c);
       condition_from da_Enabled da_Condition (ac_Delete c);
       condition_from ct_Enabled ct_Condition (ac_Category c);
       condition_from mv_Enabled mv_Condition (ac_Move c);
       condition_from ep_Enabled ep_Condition (ac_ExternalProgram c);
       condition_from ex_Enabled ex_Condition (ac_ExportToInstance c)] ||
    existsb (λ action, ConditionUsesField (condition_from ta_Enabled ta_Condition action) field)
      (TagActions (Some c))
  end.

Definition ruleUsesCondition (rule : Automation) (field : ConditionField) : bool :=
  actionConditionsUseField (au_Conditions rule) field ||
  sortingConfigUsesField (au_SortingConfig rule) field.

Definition rulesUseCondition (rules : list Automation) (field : ConditionField) : bool :=
  existsb (λ rule, ruleUsesCondition rule field) rules.

(** ** Free-space sources (free_space.go) *)

Definition FreeSpaceSourceKeyQBittorrent : string := "qbt".

Definition resolveFreeSpaceSource (src : option FreeSpaceSource) : FreeSpaceSource :=
  match src with
  | Some s => if bool_decide (fs_Type s = "") then MkFreeSpaceSource FreeSpaceSourceQBittorrent "" else s
  | None => MkFreeSpaceSource FreeSpaceSourceQBittorrent ""
  end.

Definition GetFreeSpaceSourceKey (src : option FreeSpaceSource) : string :=
  let resolved := resolveFreeSpaceSource src in
  if bool_decide (fs_Type resolved = FreeSpaceSourcePath) then
    let trimmed := TrimSpace (fs_Path resolved) in
    if bool_decide (trimmed = "") then FreeSpaceSourceKeyQBittorrent else "path:" +++ Clean trimmed
  else FreeSpaceSourceKeyQBittorrent.

Definition GetFreeSpaceRuleKey (rule : option Automation) : string :=
  match rule with
  | None => FreeSpaceSourceKeyQBittorrent +++ "|rule:0"
  | Some rule => GetFreeSpaceSourceKey (au_FreeSpaceSource rule) +++ ("|rule:" +++ pretty (au_ID rule))
  end.

(** ** Torrents that share their data *)

Definition contentPathIndex : Type := gmap string (list Torrent).

Section shared.
Context `{!UnicodeCase}.

Definition index_content_path (idx : contentPathIndex) (t : Torrent) : contentPathIndex :=
  let p := normalizePath (t_ContentPath t) in
  if bool_decide (p = "") then idx else <[p := default [] (idx !! p) ++ [t]]> idx.
Definition buildContentPathIndex (torrents : list Torrent) : contentPathIndex :=
  foldl index_content_path ∅ torrents.

Definition detectCrossSeeds (target : Torrent) (idx : contentPathIndex) : bool :=
  let p := normalizePath (t_ContentPath target) in
  if bool_decide (p = "") then false
  else existsb (λ other, negb (bool_decide (t_Hash other = t_Hash target))) (default [] (idx !! p)).

Definition DeleteModeNone : string := "none".
Definition DeleteModeKeepFiles : string := "delete".
Definition DeleteModeWithFiles : string := "deleteWithFiles".
Definition DeleteModeWithFilesPreserveCrossSeeds : string := "deleteWithFilesPreserveCrossSeeds".
Definition DeleteModeWithFilesIncludeCrossSeeds : string := "deleteWithFilesIncludeCrossSeeds".

Definition deleteFreesSpace (mode : string) (t : Torrent) (cpIndex : contentPathIndex) : bool :=
  if bool_decide (mode ∈ [DeleteModeKeepFiles; DeleteModeNone; ""]) then false
  else if bool_decide (mode = DeleteModeWithFilesPreserveCrossSeeds) then negb (detectCrossSeeds t cpIndex)
  else bool_decide (mode ∈ [DeleteModeWithFiles; DeleteModeWithFilesIncludeCrossSeeds]).

(** The index of the torrents by content and save path; an absent index is an
    empty one. *)
Definition index_cross_seed (index : gmap crossSeedKey (list Torrent)) (t : Torrent)
    : gmap crossSeedKey (list Torrent) :=
  match makeCrossSeedKey t with
  | None => index
  | Some key => <[key := default [] (index !! key) ++ [t]]> index
  end.
Definition buildCrossSeedIndex (torrents : list Torrent) : gmap crossSeedKey (list Torrent) :=
  foldl index_cross_seed ∅ torrents.

Definition containsStringFold (list : list string) (candidate : string) : bool :=
  if bool_decide (candidate = "") then false
  else existsb (λ item, EqualFold (TrimSpace item) candidate) list.

Definition shouldBlockCategoryChangeForCrossSeeds (t : Torrent) (protectedCategories : list string)
    (index : gmap crossSeedKey (list Torrent)) : bool :=
  if bool_decide (protectedCategories = []) then false else
  match makeCrossSeedKey t with
  | None => false
  | Some key =>
    existsb (λ other, negb (bool_decide (t_Hash other = t_Hash t)) &&
                      containsStringFold protectedCategories (t_Category other))
      (default [] (index !! key))
  end.

Definition inSavePath (t : Torrent) (savePath : string) : bool :=
  bool_decide (normalizePath (t_SavePath t) = normalizePath savePath).

(** *** The projection of free space *)

(** [SpaceToClear += size], with the sets of what was counted. *)
Definition clear_more (size : Z) (files : option (gset crossSeedKey)) (links : option (gset string))
    (ctx : EvalContext) : EvalContext :=
  let sp := ec_space ctx in
  let st := es_active sp in
  with_space (MkSpace (MkSpaceState (fs_FreeSpace st) (i64 (fs_SpaceToClear st + size)) files links)
                (FreeSpaceStates sp) (ActiveFreeSpaceSource sp)) ctx.

(** The signature under which hard links are counted once. *)
Definition counted_signature (mode : string) (t : Torrent) (ctx : EvalContext) : option string :=
  if bool_decide (mode = DeleteModeWithFilesIncludeCrossSeeds) then
    match DeleteSafeHardlinkSignatureByHash (ec_facts ctx) !! t_Hash t with
    | Some sig => if bool_decide (sig = "") then None else Some sig
    | None => None
    end
  else None.

Definition updateCumulativeFreeSpaceCleared (t : Torrent) (ctx : EvalContext) (mode : string)
    (cpIndex : contentPathIndex) : EvalContext :=
  match FilesToClear ctx with
  | None => ctx
  | Some files =>
    if negb (deleteFreesSpace mode t cpIndex) then ctx else
    match HardlinkSignaturesToClear ctx, counted_signature mode t ctx with
    | Some links, Some sig =>
      if bool_decide (sig ∈ links) then ctx
      else clear_more (t_Size t) (Some files) (Some ({[sig]} ∪ links)) ctx
    | links, _ =>
      match makeCrossSeedKey t with
      | None => clear_more (t_Size t) (Some files) links ctx
      | Some key =>
        if bool_decide (key ∈ files) then ctx
        else clear_more (t_Size t) (Some ({[key]} ∪ files)) links ctx
      end
    end
  end.
End shared.

(** ** Tags *)

(** [SanitizeCommaSeparatedStringSlice] of models/helpers.go. *)
Definition sanitize_part `{!UnicodeCase} (acc : gset string * list string) (part : string)
    : gset string * list string :=
  let trimmed := TrimSpace part in
  if bool_decide (trimmed = "") then acc else
  let lower := normalizeLowerTrim trimmed in
  if bool_decide (lower ∈ acc.1) then acc else ({[lower]} ∪ acc.1, acc.2 ++ [lower]).
Definition SanitizeCommaSeparatedStringSlice `{!UnicodeCase} (values : list string) : list string :=
  (foldl (λ acc value, foldl sanitize_part acc (Split value ","%char)) (∅, []) values).2.

(** [shouldResetTagActionInClient] of tag_reset.go. *)
Definition shouldResetTagActionInClient `{!UnicodeCase} (action : option TagAction) : bool :=
  match action with
  | None => false
  | Some a =>
    if negb (ta_Enabled a) || ta_UseTrackerAsTag a then false
    else if bool_decide (SanitizeCommaSeparatedStringSlice (ta_Tags a) = []) then false
    else ta_DeleteFromClient a
  end.

Definition getTrackerDisplayName `{!UnicodeCase} (domains : list string) (ctx : option EvalContext)
    : option string :=
  match ctx with
  | None => None
  | Some ctx => head (omap (λ d, TrackerDisplayNameByDomain (ec_facts ctx) !! ToLower d) domains)
  end.

Definition selectTrackerTag `{!UnicodeCase} (domains : list string) (useDisplayName : bool)
    (ctx : option EvalContext) : string :=
  match domains with
  | [] => ""
  | first :: _ =>
    default first (if useDisplayName then getTrackerDisplayName domains ctx else None)
  end.

(** Whether the torrent is to have the tag: a pending action decides, else its
    current tags, which a managed reset clears. *)
Definition has_tag (resetFromClient : bool) (s : TagState) (tag : string) : bool :=
  match tagActions s !! tag with
  | Some pending => bool_decide (pending = "add")
  | None => if resetFromClient then false else bool_decide (tag ∈ currentTags s)
  end.

Definition note_tag (rule : Automation) (tag action : string) (s : TagState) : TagState :=
  MkTagState (currentTags s) (<[tag := action]> (tagActions s)) (<[tag := ref_of rule]> (tagRuleByTag s)).

(** The body of the loop over the managed tags. *)
Definition manage_tag (rule : Automation) (tagMode : string) (matchesCondition resetFromClient : bool)
    (s : TagState) (tag : string) : TagState :=
  let hasTag := has_tag resetFromClient s tag in
  if bool_decide (tagMode = TagModeAdd) then
    if negb hasTag && matchesCondition then note_tag rule tag "add" s else s
  else if bool_decide (tagMode = TagModeRemove) then
    if hasTag && matchesCondition then note_tag rule tag "remove" s else s
  else if negb hasTag && matchesCondition then note_tag rule tag "add" s
  else if hasTag && negb matchesCondition then note_tag rule tag "remove" s else s.

(** ** Applying a rule *)

(** [text/template]: the text a template expands to with the data given, and
    with [sanitize] for [SanitizePathSegment]; nothing when it fails to parse or
    to execute. *)
Class Templates := {
  execute_template : string → gmap string string → (string → string) → option string;
}.

(** What the steps of a rule read and write: the desired state, the counters of
    the rule, the context. *)
Record Work := MkWork {
  w_state : torrentDesiredState; w_stats : option ruleRunStats; w_ctx : option EvalContext }.

Definition count (c : stat) (w : Work) : Work := MkWork (w_state w) (bump c <$> w_stats w) (w_ctx w).
Definition update (f : torrentDesiredState → torrentDesiredState) (w : Work) : Work :=
  MkWork (f (w_state w)) (w_stats w) (w_ctx w).

(** Runs [k] on an action that is present and enabled. *)
Definition on_action {A} (action : option A) (enabled : A → bool) (k : A → Work → Work) (w : Work) : Work :=
  match action with
  | Some a => if enabled a then k a w else w
  | None => w
  end.

Section rules.
Context `{!UnicodeCase, !UnicodeTables, !Library, !Templates}.

(** A condition that is absent is met. *)
Definition condition_met (cond : option RuleCondition) (t : Torrent) (ctx : option EvalContext) : bool :=
  match cond with
  | None => true
  | Some _ => EvaluateConditionWithContext cond t ctx 0
  end.

(** The shape of most steps: count and apply, or count the condition not met. *)
Definition applied_if (cond : option RuleCondition) (t : Torrent) (yes no : stat)
    (f : torrentDesiredState → torrentDesiredState) (w : Work) : Work :=
  if condition_met cond t (w_ctx w) then update f (count yes w) else count no w.

Definition speed_step (rule : Automation) (t : Torrent) (a : SpeedLimitAction) : Work → Work :=
  applied_if (sl_Condition a) t SpeedApplied SpeedConditionNotMet (λ d,
    let s := ds_speed d in
    let s := match sl_UploadKiB a with
             | Some v => MkSpeed (Some v) (downloadLimitKiB s) (ref_of rule) (downloadRule s)
             | None => s
             end in
    let s := match sl_DownloadKiB a with
             | Some v => MkSpeed (uploadLimitKiB s) (Some v) (uploadRule s) (ref_of rule)
             | None => s
             end in
    set_speed s d).

Definition share_step (rule : Automation) (t : Torrent) (a : ShareLimitsAction) : Work → Work :=
  applied_if (sh_Condition a) t ShareApplied ShareConditionNotMet (λ d,
    let s := ds_share d in
    let '(ratio, ratio_rule) := match sh_RatioLimit a with
      | Some v => (Some v, ref_of rule) | None => (ratioLimit s, ratioRule s) end in
    let '(seeding, seeding_rule) := match sh_SeedingTimeMinutes a with
      | Some v => (Some v, ref_of rule) | None => (seedingMinutes s, seedingRule s) end in
    let '(action, action_rule) := match sh_ShareLimitAction a with
      | Some v => (v, ref_of rule) | None => (shareLimitAction s, shareActionRule s) end in
    let '(mode, mode_rule) := match sh_ShareLimitsMode a with
      | Some v => (v, ref_of rule) | None => (shareLimitsMode s, shareModeRule s) end in
    set_share (MkShare ratio seeding action mode ratio_rule seeding_rule action_rule mode_rule) d).

(** Only a torrent that is not paused is paused, clearing a pending resume. *)
Definition pause_step (rule : Automation) (t : Torrent) (a : PauseAction) : Work → Work :=
  applied_if (pa_Condition a) t PauseApplied PauseConditionNotMet (λ d,
    if is_paused_state (t_State t) then d
    else set_run (MkRun true (ref_of rule) false no_ref) d).

(** Only a torrent that is paused is resumed, clearing a pending pause. *)
Definition resume_step (rule : Automation) (t : Torrent) (a : ResumeAction) : Work → Work :=
  applied_if (ra_Condition a) t ResumeApplied ResumeConditionNotMet (λ d,
    if is_paused_state (t_State t) then set_run (MkRun false no_ref true (ref_of rule)) d
    else d).

Definition is_checking_state (s : TorrentState) : bool :=
  bool_decide (s ∈ [TorrentStateCheckingUp; TorrentStateCheckingDl; TorrentStateCheckingResumeData]).

Definition recheck_step (rule : Automation) (t : Torrent) (a : RecheckAction) : Work → Work :=
  applied_if (ca_Condition a) t RecheckApplied RecheckConditionNotMet (λ d,
    let s := ds_check d in
    if is_checking_state (t_State t) then d
    else set_check (MkCheck true (ref_of rule) (shouldReannounce s) (reannounceRule s)
                      (shouldAutoManage s) (autoManageValue s) (autoManageRule s)) d).

Definition reannounce_step (rule : Automation) (t : Torrent) (a : ReannounceAction) : Work → Work :=
  applied_if (na_Condition a) t ReannounceApplied ReannounceConditionNotMet (λ d,
    let s := ds_check d in
    set_check (MkCheck (shouldRecheck s) (recheckRule s) true (ref_of rule)
                 (shouldAutoManage s) (autoManageValue s) (autoManageRule s)) d).

Definition auto_manage_step (rule : Automation) (t : Torrent) (a : AutoManagementAction) : Work → Work :=
  applied_if (am_Condition a) t AutoManageApplied AutoManageConditionNotMet (λ d,
    let s := ds_check d in
    set_check (MkCheck (shouldRecheck s) (recheckRule s) (shouldReannounce s) (reannounceRule s)
                 (negb (Bool.eqb (t_AutoManaged t) (am_Enabled a))) (am_Enabled a) (ref_of rule)) d).

(** The tags an action manages: its own, or the one of the tracker. *)
Definition tagsToManage (a : TagAction) (domains : list string) (ctx : option EvalContext) : list string :=
  if ta_UseTrackerAsTag a && negb (bool_decide (domains = [])) then
    let tag := selectTrackerTag domains (ta_UseDisplayName a) ctx in
    if bool_decide (tag = "") then [] else [tag]
  else ta_Tags a.

(** [processTagAction]: the new state and whether the condition is met. *)
Definition processTagAction (rule : Automation) (a : TagAction) (t : Torrent) (d : torrentDesiredState)
    (ctx : option EvalContext) : torrentDesiredState * bool :=
  let tagMode := if bool_decide (ta_Mode a = "") then TagModeFull else ta_Mode a in
  let matchesCondition := condition_met (ta_Condition a) t ctx in
  let resetFromClient := shouldResetTagActionInClient (Some a) in
  (set_tags (foldl (manage_tag rule tagMode matchesCondition resetFromClient) (ds_tags d)
     (tagsToManage a (ds_trackerDomains d) ctx)) d,
   matchesCondition).

(** The body of the loop over the tag actions. *)
Definition tag_step (rule : Automation) (t : Torrent) (w : Work) (action : option TagAction) : Work :=
  match action with
  | None => w
  | Some a =>
    if negb (ta_Enabled a) || (bool_decide (ta_Tags a = []) && negb (ta_UseTrackerAsTag a)) then w
    else if ConditionUsesField (ta_Condition a) FieldIsUnregistered &&
            is_nil (w_ctx w ≫= λ ctx, UnregisteredSet (ec_facts ctx))
    then count TagSkippedMissingUnregisteredSet w
    else
      let '(d, matches) := processTagAction rule a t (w_state w) (w_ctx w) in
      count (if matches then TagConditionMet else TagConditionNotMet) (MkWork d (w_stats w) (w_ctx w))
  end.

Definition category_step (rule : Automation) (t : Torrent) (index : gmap crossSeedKey (list Torrent))
    (a : CategoryAction) (w : Work) : Work :=
  if condition_met (ct_Condition a) t (w_ctx w) &&
     negb (shouldBlockCategoryChangeForCrossSeeds t (ct_BlockIfCrossSeedInCategories a) index) then
    let groupID := TrimSpace (ct_GroupID a) in
    let groupID := if bool_decide (groupID = "") && ct_IncludeCrossSeeds a
                   then GroupCrossSeedContentSavePath else groupID in
    update (set_category (MkCategoryState (Some (ct_Category a)) groupID (au_ID rule)
              (ct_IncludeCrossSeeds a) (ref_of rule)))
      (count CategoryApplied w)
  else count CategoryConditionNotMetOrBlocked w.

Definition program_step (rule : Automation) (t : Torrent) (a : ExternalProgramAction) : Work → Work :=
  applied_if (ep_Condition a) t ExternalProgramApplied ExternalProgramConditionNotMet (λ d,
    let s := ds_late d in
    set_late (MkLate (Some (ep_ProgramID a)) (au_ID rule) (au_Name rule) (exportToInstance s)
                (exportToInstanceRuleID s) (exportToInstanceRuleName s)) d).

Definition export_step (rule : Automation) (t : Torrent) (a : ExportToInstanceAction) : Work → Work :=
  applied_if (ex_Condition a) t ExportToInstanceApplied ExportToInstanceConditionNotMet (λ d,
    let s := ds_late d in
    set_late (MkLate (externalProgramID s) (programRuleID s) (programRuleName s) (Some a)
                (au_ID rule) (au_Name rule)) d).

(** A deletion needs a condition; it is counted in the projection of free space
    when the condition looks at free space. *)
Definition delete_step (rule : Automation) (t : Torrent) (cpIndex : contentPathIndex)
    (a : DeleteAction) (w : Work) : Work :=
  match da_Condition a with
  | None => count DeleteConditionNotMet w
  | Some cond =>
    if EvaluateConditionWithContext (Some cond) t (w_ctx w) 0 then
      let mode := if bool_decide (da_Mode a = "") then DeleteModeKeepFiles else da_Mode a in
      let w := update (set_delete (MkDelete true mode (da_IncludeHardlinks a) (TrimSpace (da_GroupID a))
                 (TrimSpace (da_Atomic a)) (au_ID rule) (au_Name rule) "condition matched"))
                 (count DeleteApplied w) in
      if ConditionUsesField (Some cond) FieldFreeSpace
      then MkWork (w_state w) (w_stats w)
             ((λ ctx, updateCumulativeFreeSpaceCleared t ctx mode cpIndex) <$> w_ctx w)
      else w
    else count DeleteConditionNotMet w
  end.

Definition shouldBlockMoveForCrossSeeds (t : Torrent) (a : MoveAction)
    (index : gmap crossSeedKey (list Torrent)) (ctx : option EvalContext) : bool :=
  if negb (mv_BlockIfCrossSeed a) then false else
  match makeCrossSeedKey t, mv_Condition a with
  | Some key, Some cond =>
    existsb (λ other, negb (bool_decide (t_Hash other = t_Hash t)) &&
                      negb (EvaluateConditionWithContext (Some cond) other ctx 0))
      (default [] (index !! key))
  | _, _ => false
  end.

Definition resolveMovePath (path : string) (t : Torrent) (d : torrentDesiredState)
    (ctx : option EvalContext) : option string :=
  let tracker := selectTrackerTag (ds_trackerDomains d) true ctx in
  let data : gmap string string :=
    list_to_map [("Name", t_Name t); ("Hash", t_Hash t); ("Category", t_Category t);
      ("IsolationFolderName", IsolationFolderName (t_Hash t) (t_Name t)); ("Tracker", tracker)] in
  match execute_template path data SanitizePathSegment with
  | None => None
  | Some text => let resolvedPath := TrimSpace text in
                 if bool_decide (resolvedPath = "") then None else Some resolvedPath
  end.

Definition evaluateMoveAction (rule : Automation) (t : Torrent)
    (index : gmap crossSeedKey (list Torrent)) (a : MoveAction) (w : Work) : Work :=
  match resolveMovePath (mv_Path a) t (w_state w) (w_ctx w) with
  | None => count MoveConditionNotMet w
  | Some resolvedPath =>
    let conditionMet := condition_met (mv_Condition a) t (w_ctx w) in
    let alreadyAtDest := inSavePath t resolvedPath in
    let blocked := if bool_decide (TrimSpace (mv_GroupID a) = "")
                   then shouldBlockMoveForCrossSeeds t a index (w_ctx w) else false in
    if conditionMet && negb alreadyAtDest && negb blocked then
      update (set_move (MkMove true resolvedPath (TrimSpace (mv_GroupID a)) (TrimSpace (mv_Atomic a))
                (mv_BlockIfCrossSeed a) (mv_Condition a) (au_ID rule) (au_Name rule) (ref_of rule)))
        (count MoveApplied w)
    else count (if negb conditionMet then MoveConditionNotMet
                else if alreadyAtDest then MoveAlreadyAtDestination
                else MoveBlockedByCrossSeed) w
  end.

(** The context a rule is evaluated in: its free-space source is loaded and its
    groupings are active. *)
Definition rule_context (rule : Automation) (has_sm : bool) (allTorrents : list Torrent)
    (ctx : EvalContext) : EvalContext :=
  activateRuleGrouping rule allTorrents has_sm
    (if rulesUseCondition [rule] FieldFreeSpace
     then LoadFreeSpaceSourceState (GetFreeSpaceRuleKey (Some rule)) ctx else ctx).

Definition processRuleForTorrent (rule : Automation) (t : Torrent) (has_sm : bool)
    (index : gmap crossSeedKey (list Torrent)) (allTorrents : list Torrent)
    (cpIndex : contentPathIndex) (w : Work) : Work :=
  match au_Conditions rule with
  | None => w
  | Some c =>
    let w := MkWork (w_state w) (w_stats w) (rule_context rule has_sm allTorrents <$> w_ctx w) in
    let w := on_action (ac_SpeedLimits c) sl_Enabled (speed_step rule t) w in
    let w := on_action (ac_ShareLimits c) sh_Enabled (share_step rule t) w in
    let w := on_action (ac_Pause c) pa_Enabled (pause_step rule t) w in
    let w := on_action (ac_Resume c) ra_Enabled (resume_step rule t) w in
    let w := on_action (ac_Recheck c) ca_Enabled (recheck_step rule t) w in
    let w := on_action (ac_Reannounce c) na_Enabled (reannounce_step rule t) w in
    let w := on_action (ac_AutoManagement c) (λ _, true) (auto_manage_step rule t) w in
    let w := foldl (tag_step rule t) w (TagActions (Some c)) in
    let w := on_action (ac_Category c) (λ a, ct_Enabled a && negb (bool_decide (ct_Category a = "")))
               (category_step rule t index) w in
    let w := on_action (ac_ExternalProgram c) (λ a, ep_Enabled a && (0 <? ep_ProgramID a)%Z)
               (program_step rule t) w in
    let w := on_action (ac_ExportToInstance c) (λ a, ex_Enabled a && (0 <? ex_TargetInstanceID a)%Z)
               (export_step rule t) w in
    let w := on_action (ac_Delete c) da_Enabled (delete_step rule t cpIndex) w in
    on_action (ac_Move c) (λ a, mv_Enabled a && negb (shouldMove (ds_move (w_state w))))
      (evaluateMoveAction rule t index) w
  end.

(** ** The loop over the torrents *)

Definition selectMatchingRules (t : Torrent) (rules : list Automation) : list Automation :=
  let trackerDomains := collectTrackerDomains t in
  filter (λ rule, au_Enabled rule && matchesTracker (au_TrackerPattern rule) trackerDomains = true) rules.

(** What the loop carries: the states, the counters of each rule, the context. *)
Record Run := MkRunState {
  r_states : gmap string torrentDesiredState; r_stats : option (gmap Z ruleRunStats);
  r_ctx : option EvalContext }.

(** One matching rule, unless a rule before it deletes the torrent. *)
Definition apply_matching (t : Torrent) (has_sm : bool) (index : gmap crossSeedKey (list Torrent))
    (torrents : list Torrent) (cpIndex : contentPathIndex)
    (acc : torrentDesiredState * option (gmap Z ruleRunStats) * option EvalContext) (rule : Automation)
    : torrentDesiredState * option (gmap Z ruleRunStats) * option EvalContext :=
  let '(d, stats, ctx) := acc in
  if shouldDelete (ds_delete d) then acc else
  let ruleStats := (λ m, bump MatchedTrackers (default no_stats (m !! au_ID rule))) <$> stats in
  let w := processRuleForTorrent rule t has_sm index torrents cpIndex (MkWork d ruleStats ctx) in
  (w_state w,
   match stats, w_stats w with Some m, Some s => Some (<[au_ID rule := s]> m) | _, _ => stats end,
   w_ctx w).

(** The body of the loop.  A state that exists already is updated in place. *)
Definition process_torrent (rules : list Automation) (has_sm : bool) (skipCheck : string → bool)
    (index : gmap crossSeedKey (list Torrent)) (torrents : list Torrent) (cpIndex : contentPathIndex)
    (r : Run) (t : Torrent) : Run :=
  if skipCheck (t_Hash t) then r else
  match selectMatchingRules t rules with
  | [] => r
  | matching =>
    let existing := r_states r !! t_Hash t in
    let d := set_domains (collectTrackerDomains t) (default (fresh_state t) existing) in
    let '(d, stats, ctx) :=
      foldl (apply_matching t has_sm index torrents cpIndex) (d, r_stats r, r_ctx r) matching in
    MkRunState (if negb (is_nil existing) || hasActions d then <[t_Hash t := d]> (r_states r)
                else r_states r) stats ctx
  end.

(** [skipCheck] nil skips nothing; the states are those given, or none. *)
Definition processTorrents (torrents : list Torrent) (rules : list Automation)
    (ctx : option EvalContext) (has_sm : bool) (skipCheck : option (string → bool))
    (stats : option (gmap Z ruleRunStats)) (existingStates : option (gmap string torrentDesiredState))
    : Run :=
  let index := buildCrossSeedIndex torrents in
  let cpIndex := buildContentPathIndex torrents in
  let r := foldl (process_torrent rules has_sm (default (λ _, false) skipCheck) index torrents cpIndex)
             (MkRunState (default ∅ existingStates) stats ctx) torrents in
  MkRunState (r_states r) (r_stats r) (PersistFreeSpaceSourceState <$> r_ctx r).
End rules.

(** ** Tags: what a tag action achieves *)

(** Whether a managed tag is present afterwards, by mode. *)
Definition tag_outcome (mode : string) (matches before : bool) : bool :=
  if bool_decide (mode = TagModeAdd) then before || matches
  else if bool_decide (mode = TagModeRemove) then before && negb matches
  else matches.

Lemma has_tag_note reset rule tag action s tag' :
  has_tag reset (note_tag rule tag action s) tag' =
  if decide (tag' = tag) then bool_decide (action = "add") else has_tag reset s tag'.
Proof.
  unfold has_tag, note_tag. simpl. case_decide as E.
  - by rewrite E, lookup_insert_eq.
  - by rewrite lookup_insert_ne.
Qed.

Lemma manage_tag_spec rule mode m reset s tag tag' :
  has_tag reset (manage_tag rule mode m reset s tag) tag' =
    (if decide (tag' = tag) then tag_outcome mode m (has_tag reset s tag) else has_tag reset s tag') ∧
  ((has_tag reset (manage_tag rule mode m reset s tag) tag' = has_tag reset s tag') →
   tagActions (manage_tag rule mode m reset s tag) !! tag' = tagActions s !! tag').
Proof.
  unfold manage_tag, tag_outcome. repeat case_bool_decide;
    destruct (has_tag reset s tag) eqn:Hb, m; cbn [negb andb orb]; rewrite ?has_tag_note;
    case_decide as E; subst; rewrite ?Hb; (split; [done|]); try done; intros _;
    unfold note_tag; cbn [tagActions]; by rewrite lookup_insert_ne.
Qed.

Lemma manage_tags_spec rule mode m reset tags s tag' :
  has_tag reset (foldl (manage_tag rule mode m reset) s tags) tag' =
    (if decide (tag' ∈ tags) then tag_outcome mode m (has_tag reset s tag') else has_tag reset s tag') ∧
  ((has_tag reset (foldl (manage_tag rule mode m reset) s tags) tag' = has_tag reset s tag') →
   tagActions (foldl (manage_tag rule mode m reset) s tags) !! tag' = tagActions s !! tag').
Proof.
  assert (∀ b, tag_outcome mode m (tag_outcome mode m b) = tag_outcome mode m b) as Hidem.
  { intros b. unfold tag_outcome. repeat case_bool_decide; by destruct b, m. }
  revert s. induction tags as [|tag tags IH]; intros s; [done|]. cbn [foldl].
  destruct (IH (manage_tag rule mode m reset s tag)) as [E1 E2].
  destruct (manage_tag_spec rule mode m reset s tag tag') as [F1 F2].
  set (s1 := manage_tag rule mode m reset s tag) in *.
  assert (has_tag reset (foldl (manage_tag rule mode m reset) s1 tags) tag' =
    if decide (tag' ∈ tag :: tags) then tag_outcome mode m (has_tag reset s tag') else has_tag reset s tag') as E.
  { rewrite E1, F1. repeat case_decide; subst; rewrite ?Hidem; try done; exfalso; set_solver. }
  split; [exact E|]. rewrite E. intros Heq.
  rewrite E2, F2; [done|..]; rewrite ?E, ?F1; repeat case_decide; subst; rewrite ?Hidem; try done;
    exfalso; set_solver.
Qed.

Section tag_theorem.
Context `{!UnicodeCase, !UnicodeTables, !Library}.

(** After a tag action, with the pending actions of earlier
    rules taken into account, every managed tag is on the torrent exactly as the
    mode asks (full: if and only if the condition is met; add: if it was, or the
    condition is met; remove: if it was and the condition is not met), every
    other tag is as before, and an action is recorded only where a tag changes. *)
Theorem tag_action_exact (rule : Automation) (a : TagAction) (t : Torrent) (d : torrentDesiredState)
    (ctx : option EvalContext) (tag : string) :
  let reset := shouldResetTagActionInClient (Some a) in
  let d' := (processTagAction rule a t d ctx).1 in
  let before := has_tag reset (ds_tags d) tag in
  let after := has_tag reset (ds_tags d') tag in
  after = (if decide (tag ∈ tagsToManage a (ds_trackerDomains d) ctx)
           then tag_outcome (ta_Mode a) (condition_met (ta_Condition a) t ctx) before else before) ∧
  (after = before → tagActions (ds_tags d') !! tag = tagActions (ds_tags d) !! tag).
Proof.
  cbn zeta. unfold processTagAction. cbn zeta. cbn [fst ds_tags set_tags].
  set (mode := if bool_decide (ta_Mode a = "") then TagModeFull else ta_Mode a).
  assert (∀ m b, tag_outcome mode m b = tag_outcome (ta_Mode a) m b) as <-.
  { intros m b. unfold mode. case_bool_decide as E; [by rewrite E|done]. }
  apply manage_tags_spec.
Qed.
End tag_theorem.

(** ** Pausing and resuming *)

(** The part of the state [get] reads is not touched by a step. *)
Definition preserves {A} (get : torrentDesiredState → A) (k : Work → Work) : Prop :=
  ∀ w, get (w_state (k w)) = get (w_state w).

(** A step leaves the context alone. *)
Definition same_ctx (k : Work → Work) : Prop := ∀ w, w_ctx (k w) = w_ctx w.

Section steps.
Context `{!UnicodeCase, !UnicodeTables, !Library, !Templates}.

Lemma preserves_applied {A} (get : torrentDesiredState → A) cond t yes no f :
  (∀ d, get (f d) = get d) → preserves get (applied_if cond t yes no f).
Proof. intros Hf w. unfold applied_if. by destruct (condition_met _ _ _); cbn; rewrite ?Hf. Qed.

Lemma same_ctx_applied cond t yes no f : same_ctx (applied_if cond t yes no f).
Proof. intros w. unfold applied_if. by destruct (condition_met _ _ _). Qed.

Lemma preserves_on_action {B A} (get : torrentDesiredState → A) (a : option B) enabled k :
  (∀ b, preserves get (k b)) → preserves get (on_action a enabled k).
Proof. intros Hk w. unfold on_action. destruct a; [|done]. by destruct (enabled _); rewrite ?Hk. Qed.

Lemma same_ctx_on_action {B} (a : option B) enabled k :
  (∀ b, same_ctx (k b)) → same_ctx (on_action a enabled k).
Proof. intros Hk w. unfold on_action. destruct a; [|done]. by destruct (enabled _); rewrite ?Hk. Qed.

(** The steps other than pausing and resuming leave that part alone, and only
    deleting touches the deletion and the context. *)
Lemma run_frame rule t index :
  (∀ a, preserves ds_run (speed_step rule t a)) ∧ (∀ a, preserves ds_run (share_step rule t a)) ∧
  (∀ a, preserves ds_run (recheck_step rule t a)) ∧ (∀ a, preserves ds_run (reannounce_step rule t a)) ∧
  (∀ a, preserves ds_run (auto_manage_step rule t a)) ∧ (∀ a, preserves ds_run (λ w, tag_step rule t w a)) ∧
  (∀ a, preserves ds_run (category_step rule t index a)) ∧ (∀ a, preserves ds_run (program_step rule t a)) ∧
  (∀ a, preserves ds_run (export_step rule t a)) ∧
  (∀ cp a, preserves ds_run (delete_step rule t cp a)) ∧
  (∀ a, preserves ds_run (evaluateMoveAction rule t index a)).
Proof.
  split_and!; try (intros a; apply preserves_applied; intros d; by repeat case_match).
  - intros a w. unfold tag_step, processTagAction. by repeat case_match; simplify_eq.
  - intros a w. unfold category_step. by case_match.
  - intros cp a w. unfold delete_step. by repeat case_match.
  - intros a w. unfold evaluateMoveAction. by repeat case_match.
Qed.

Lemma delete_frame rule t index :
  (∀ a, preserves ds_delete (speed_step rule t a)) ∧ (∀ a, preserves ds_delete (share_step rule t a)) ∧
  (∀ a, preserves ds_delete (pause_step rule t a)) ∧ (∀ a, preserves ds_delete (resume_step rule t a)) ∧
  (∀ a, preserves ds_delete (recheck_step rule t a)) ∧ (∀ a, preserves ds_delete (reannounce_step rule t a)) ∧
  (∀ a, preserves ds_delete (auto_manage_step rule t a)) ∧ (∀ a, preserves ds_delete (λ w, tag_step rule t w a)) ∧
  (∀ a, preserves ds_delete (category_step rule t index a)) ∧ (∀ a, preserves ds_delete (program_step rule t a)) ∧
  (∀ a, preserves ds_delete (export_step rule t a)) ∧
  (∀ a, preserves ds_delete (evaluateMoveAction rule t index a)).
Proof.
  split_and!; try (intros a; apply preserves_applied; intros d; by repeat case_match).
  - intros a w. unfold tag_step, processTagAction. by repeat case_match; simplify_eq.
  - intros a w. unfold category_step. by case_match.
  - intros a w. unfold evaluateMoveAction. by repeat case_match.
Qed.

Lemma preserves_fold {A B} (get : torrentDesiredState → A) (f : Work → B → Work) l :
  (∀ b, preserves get (λ w, f w b)) → preserves get (λ w, foldl f w l).
Proof. intros Hf. induction l as [|b l IH]; intros w; [done|]. cbn [foldl]. rewrite IH. apply Hf. Qed.

(** Whether an action is present, enabled, and its condition met. *)
Definition fires {A} (action : option A) (enabled : A → bool) (cond : A → option RuleCondition)
    (t : Torrent) (ctx : option EvalContext) : bool :=
  match action with
  | Some a => enabled a && condition_met (cond a) t ctx
  | None => false
  end.

(** The pause and resume part after the actions of a rule. *)
Definition run_after (rule : Automation) (c : ActionConditions) (t : Torrent) (ctx : option EvalContext)
    (r : RunState) : RunState :=
  let r := if fires (ac_Pause c) pa_Enabled pa_Condition t ctx && negb (is_paused_state (t_State t))
           then MkRun true (ref_of rule) false no_ref else r in
  if fires (ac_Resume c) ra_Enabled ra_Condition t ctx && is_paused_state (t_State t)
  then MkRun false no_ref true (ref_of rule) else r.

Lemma run_after_rule rule t has_sm index all cp w c :
  au_Conditions rule = Some c →
  ds_run (w_state (processRuleForTorrent rule t has_sm index all cp w)) =
  run_after rule c t (rule_context rule has_sm all <$> w_ctx w) (ds_run (w_state w)).
Proof.
  intros Hc. unfold processRuleForTorrent. rewrite Hc. cbn zeta.
  destruct (run_frame rule t index) as (F1 & F2 & F3 & F4 & F5 & F6 & F7 & F8 & F9 & F10 & F11).
  rewrite (preserves_on_action ds_run), (preserves_on_action ds_run), (preserves_on_action ds_run),
    (preserves_on_action ds_run), (preserves_on_action ds_run), (preserves_fold ds_run),
    (preserves_on_action ds_run), (preserves_on_action ds_run), (preserves_on_action ds_run) by auto.
  set (w0 := MkWork _ _ _).
  set (w1 := on_action (ac_ShareLimits c) _ _ _).
  assert (ds_run (w_state w1) = ds_run (w_state w)) as E1
    by (unfold w1; rewrite !(preserves_on_action ds_run) by auto; done).
  assert (w_ctx w1 = w_ctx w0) as E2.
  { unfold w1. rewrite !same_ctx_on_action by (intros; apply same_ctx_applied). done. }
  rewrite <- E1. change (rule_context _ _ _ <$> _) with (w_ctx w0). rewrite <- E2.
  clearbody w1. clear. destruct w1 as [d st ctx].
  unfold run_after, on_action, fires, pause_step, resume_step, applied_if.
  destruct (ac_Pause c) as [[[] cp]|], (ac_Resume c) as [[[] cr]|]; cbn; try done;
    repeat match goal with
    | |- context [condition_met ?a t ctx] => destruct (condition_met a t ctx) eqn:?; cbn
    | |- context [is_paused_state ?s] => destruct (is_paused_state s) eqn:?; cbn
    end; done.
Qed.

(** Whatever rules come before and after, a rule that
    pauses only ever adds a pause, to a torrent that runs, and a rule that
    resumes only ever adds a resume, to a torrent that is paused: a later rule
    never takes back what an earlier one asked of the same torrent, and a state
    never asks for both. *)
Theorem pause_resume_exact (rule : Automation) (c : ActionConditions) (t : Torrent) (has_sm : bool)
    (index : gmap crossSeedKey (list Torrent)) (all : list Torrent) (cpIndex : contentPathIndex) (w : Work) :
  au_Conditions rule = Some c →
  let ctx := rule_context rule has_sm all <$> w_ctx w in
  let before := ds_run (w_state w) in
  let after := ds_run (w_state (processRuleForTorrent rule t has_sm index all cpIndex w)) in
  let pauses := fires (ac_Pause c) pa_Enabled pa_Condition t ctx in
  let resumes := fires (ac_Resume c) ra_Enabled ra_Condition t ctx in
  (if is_paused_state (t_State t)
   then shouldResume after = shouldResume before || resumes ∧
        shouldPause after = shouldPause before && negb resumes
   else shouldPause after = shouldPause before || pauses ∧
        shouldResume after = shouldResume before && negb pauses) ∧
  (shouldPause before && shouldResume before = false → shouldPause after && shouldResume after = false).
Proof.
  intros Hc. cbn zeta. rewrite (run_after_rule _ _ _ _ _ _ _ c) by done. unfold run_after.
  destruct (ds_run (w_state w)) as [p pr r rr].
  destruct (fires (ac_Pause c) _ _ _ _), (fires (ac_Resume c) _ _ _ _), (is_paused_state _), p, r; done.
Qed.

(** ** Deletions *)

(** The deletion [d] is the one [rule] asks for on [t], whose explicit condition
    is met in the context. *)
Definition deletion_of (rule : Automation) (t : Torrent) (ctx : option EvalContext) (d : DeleteState) : Prop :=
  ∃ c a cond,
    au_Conditions rule = Some c ∧ ac_Delete c = Some a ∧ da_Enabled a = true ∧
    da_Condition a = Some cond ∧ EvaluateConditionWithContext (Some cond) t ctx 0 = true ∧
    d = MkDelete true (if bool_decide (da_Mode a = "") then DeleteModeKeepFiles else da_Mode a)
          (da_IncludeHardlinks a) (TrimSpace (da_GroupID a)) (TrimSpace (da_Atomic a))
          (au_ID rule) (au_Name rule) "condition matched".

(** No step before the deletion touches the context. *)
Lemma context_frame rule t index :
  (∀ a, same_ctx (speed_step rule t a)) ∧ (∀ a, same_ctx (share_step rule t a)) ∧
  (∀ a, same_ctx (pause_step rule t a)) ∧ (∀ a, same_ctx (resume_step rule t a)) ∧
  (∀ a, same_ctx (recheck_step rule t a)) ∧ (∀ a, same_ctx (reannounce_step rule t a)) ∧
  (∀ a, same_ctx (auto_manage_step rule t a)) ∧ (∀ a, same_ctx (λ w, tag_step rule t w a)) ∧
  (∀ a, same_ctx (category_step rule t index a)) ∧ (∀ a, same_ctx (program_step rule t a)) ∧
  (∀ a, same_ctx (export_step rule t a)).
Proof.
  split_and!; try (intros a; apply same_ctx_applied).
  - intros a w. unfold tag_step, processTagAction. by repeat case_match; simplify_eq.
  - intros a w. unfold category_step. by case_match.
Qed.

Lemma same_ctx_fold {B} (f : Work → B → Work) l :
  (∀ b, same_ctx (λ w, f w b)) → same_ctx (λ w, foldl f w l).
Proof. intros Hf. induction l as [|b l IH]; intros w; [done|]. cbn [foldl]. rewrite IH. apply Hf. Qed.

Lemma delete_after_rule rule t has_sm index all cp w :
  let d' := ds_delete (w_state (processRuleForTorrent rule t has_sm index all cp w)) in
  d' = ds_delete (w_state w) ∨ deletion_of rule t (rule_context rule has_sm all <$> w_ctx w) d'.
Proof.
  cbn zeta. destruct (au_Conditions rule) as [c|] eqn:Hc; [|unfold processRuleForTorrent; rewrite Hc; by left].
  unfold processRuleForTorrent. rewrite Hc. cbn zeta.
  destruct (delete_frame rule t index) as (F1 & F2 & F3 & F4 & F5 & F6 & F7 & F8 & F9 & F10 & F11 & F12).
  destruct (context_frame rule t index) as (G1 & G2 & G3 & G4 & G5 & G6 & G7 & G8 & G9 & G10 & G11).
  rewrite (preserves_on_action ds_delete) by auto.
  set (w1 := on_action (ac_ExportToInstance c) _ _ _).
  assert (ds_delete (w_state w1) = ds_delete (w_state w)) as E1.
  { unfold w1. do 3 rewrite (preserves_on_action ds_delete) by auto.
    rewrite (preserves_fold ds_delete) by auto. do 7 rewrite (preserves_on_action ds_delete) by auto. done. }
  assert (w_ctx w1 = rule_context rule has_sm all <$> w_ctx w) as E2.
  { unfold w1. do 3 rewrite same_ctx_on_action by auto.
    rewrite same_ctx_fold by auto. do 7 rewrite same_ctx_on_action by auto. done. }
  rewrite <- E1, <- E2. clearbody w1. unfold on_action.
  destruct (ac_Delete c) as [a|] eqn:Ha; [|by left]. destruct (da_Enabled a) eqn:He; [|by left].
  unfold delete_step. destruct (da_Condition a) as [cond|] eqn:Hd; [|by left].
  destruct (EvaluateConditionWithContext (Some cond) t (w_ctx w1) 0) eqn:Hv; [|by left].
  right. exists c, a, cond. cbn zeta. by destruct (ConditionUsesField _ _).
Qed.

Section justification.
Context (torrents : list Torrent) (rules : list Automation) (has_sm : bool) (skip : string → bool).

(** The run over some torrents, and what some rules make of the next one. *)
Definition run_over (start : Run) (before : list Torrent) : Run :=
  foldl (process_torrent rules has_sm skip (buildCrossSeedIndex torrents) torrents (buildContentPathIndex torrents)) start before.

Definition after_rules (r : Run) (t : Torrent) (rs : list Automation)
    : torrentDesiredState * option (gmap Z ruleRunStats) * option EvalContext :=
  foldl (apply_matching t has_sm (buildCrossSeedIndex torrents) torrents (buildContentPathIndex torrents))
    (set_domains (collectTrackerDomains t) (default (fresh_state t) (r_states r !! t_Hash t)), r_stats r, r_ctx r) rs.

Lemma after_rules_deletes r t rs :
  let d := ds_delete (after_rules r t rs).1.1 in
  d = ds_delete (after_rules r t []).1.1 ∨
  ∃ rs1 rule rs2, rs = rs1 ++ rule :: rs2 ∧ shouldDelete (ds_delete (after_rules r t rs1).1.1) = false ∧
    deletion_of rule t (rule_context rule has_sm torrents <$> (after_rules r t rs1).2) d.
Proof.
  cbn zeta. induction rs as [|rule rs IH] using rev_ind; [by left|].
  assert (after_rules r t (rs ++ [rule]) = apply_matching t has_sm (buildCrossSeedIndex torrents) torrents
    (buildContentPathIndex torrents) (after_rules r t rs) rule) as E by (unfold after_rules; by rewrite foldl_snoc).
  rewrite E.
  assert (ds_delete (apply_matching t has_sm (buildCrossSeedIndex torrents) torrents (buildContentPathIndex torrents)
      (after_rules r t rs) rule).1.1 = ds_delete (after_rules r t rs).1.1 ∨
    shouldDelete (ds_delete (after_rules r t rs).1.1) = false ∧
    deletion_of rule t (rule_context rule has_sm torrents <$> (after_rules r t rs).2)
      (ds_delete (apply_matching t has_sm (buildCrossSeedIndex torrents) torrents (buildContentPathIndex torrents)
        (after_rules r t rs) rule).1.1)) as Hstep.
  { clear. destruct (after_rules r t rs) as [[d st] ctx]. unfold apply_matching. cbn [fst snd].
    destruct (shouldDelete _); [by left|]. cbn zeta. cbn [fst].
    match goal with |- context [processRuleForTorrent rule t has_sm ?i torrents ?c ?w] =>
      destruct (delete_after_rule rule t has_sm i torrents c w) as [Hd|Hd] end; [by left|by right]. }
  destruct Hstep as [->|[Hno Hd]]; [|right; by exists rs, rule, []].
  destruct IH as [?|(rs1 & rule' & rs2 & -> & ?)]; [by left|right]. exists rs1, rule', (rs2 ++ [rule]).
  by rewrite <- app_assoc.
Qed.

(** A deletion recorded for [h] was recorded before; or it is that of an enabled
    rule whose tracker pattern matches a torrent of that hash that is not skipped,
    and whose condition the torrent meets when the run gets to it: in the context
    that the torrents before it and the rules before this one have left, no
    deletion of the torrent being asked for yet. *)
Definition justified (start : Run) (h : string) (d : DeleteState) : Prop :=
  (∃ d0, r_states start !! h = Some d0 ∧ ds_delete d0 = d) ∨
  ∃ before t after rs1 rule rs2,
    torrents = before ++ t :: after ∧ t_Hash t = h ∧ skip h = false ∧
    selectMatchingRules t rules = rs1 ++ rule :: rs2 ∧
    (rule ∈ rules ∧ au_Enabled rule = true ∧ matchesTracker (au_TrackerPattern rule) (collectTrackerDomains t) = true) ∧
    let reached := after_rules (run_over start before) t rs1 in
    shouldDelete (ds_delete reached.1.1) = false ∧
    deletion_of rule t (rule_context rule has_sm torrents <$> reached.2) d.

Lemma elem_of_matching t rule :
  rule ∈ selectMatchingRules t rules ↔
  rule ∈ rules ∧ au_Enabled rule = true ∧
  matchesTracker (au_TrackerPattern rule) (collectTrackerDomains t) = true.
Proof.
  unfold selectMatchingRules. rewrite list_elem_of_filter, andb_true_iff. tauto.
Qed.

Lemma run_justified start before after h d :
  torrents = before ++ after → r_states (run_over start before) !! h = Some d →
  shouldDelete (ds_delete d) = true → justified start h (ds_delete d).
Proof.
  revert after h d. induction before as [|t before IH] using rev_ind; intros after h d Ht Hl Hdel; [left; by exists d|].
  rewrite <- app_assoc in Ht. cbn [app] in Ht. specialize (IH (t :: after)).
  unfold run_over in Hl. rewrite foldl_snoc in Hl. fold (run_over start before) in Hl.
  unfold process_torrent in Hl. destruct (skip (t_Hash t)) eqn:Hskip; [by apply IH|].
  destruct (selectMatchingRules t rules) as [|r0 rs] eqn:Hm; [by apply IH|]. rewrite <- Hm in Hl.
  fold (after_rules (run_over start before) t (selectMatchingRules t rules)) in Hl.
  pose proof (after_rules_deletes (run_over start before) t (selectMatchingRules t rules)) as Hd. cbn zeta in Hd.
  destruct (after_rules (run_over start before) t (selectMatchingRules t rules)) as [[d1 st] ctx]. cbn [fst r_states] in *.
  destruct (negb (is_nil _) || hasActions d1); [|by apply IH].
  rewrite lookup_insert in Hl. case_decide as E; [|by apply IH]. injection Hl as <-. subst h.
  destruct Hd as [Heq|(rs1 & rule & rs2 & Hrs & Hno & Hof)].
  - rewrite Heq in *. clear Heq d1. unfold after_rules in *. cbn [foldl fst ds_delete set_domains] in *.
    destruct (r_states (run_over start before) !! t_Hash t) as [d|] eqn:El; [by apply IH|done].
  - right. exists before, t, after, rs1, rule, rs2. split_and!; try done; apply (elem_of_matching t rule); rewrite Hrs; set_solver.
Qed.
End justification.

(** C36. Every deletion that processing the torrents asks for is the one that the
    states it was given ask for already, or is asked for by an enabled rule whose
    tracker pattern matches the torrent and whose delete action has an explicit
    condition that the torrent meets when the run gets to it; the rule and the
    options it records are those of that rule.  The condition is evaluated in
    the context of the run - with the free space that the deletions before it
    leave and the groupings of the rule - and no rule before it deletes the
    torrent. *)
Theorem deletions_justified (torrents : list Torrent) (rules : list Automation)
    (ctx : option EvalContext) (has_sm : bool) (skipCheck : option (string → bool))
    (stats : option (gmap Z ruleRunStats)) (existing : option (gmap string torrentDesiredState))
    (h : string) (d : torrentDesiredState) :
  r_states (processTorrents torrents rules ctx has_sm skipCheck stats existing) !! h = Some d →
  shouldDelete (ds_delete d) = true →
  justified torrents rules has_sm (default (λ _, false) skipCheck) (MkRunState (default ∅ existing) stats ctx) h (ds_delete d).
Proof.
  intros Hl Hd. apply (run_justified torrents rules has_sm _ _ torrents []); [by rewrite app_nil_r|exact Hl|done].
Qed.
End steps.

(** ** Shares that are lost *)

(** A state whose only effect is the action or the mode of the share limits has
    no actions, so that [processTorrents] drops it. *)
Lemma share_action_dropped (t : Torrent) (action mode : string) (r1 r2 r3 r4 : ruleRef) :
  hasActions (set_share (MkShare None None action mode r1 r2 r3 r4) (fresh_state t)) = false.
Proof. done. Qed.

(** ** The projection of free space counts shared data once *)

Lemma i64_add a b : i64 (i64 a + b) = i64 (a + b).
Proof.
  unfold i64. f_equal.
  replace ((a + 2 ^ 63) mod 2 ^ 64 - 2 ^ 63 + b + 2 ^ 63)%Z with ((a + 2 ^ 63) mod 2 ^ 64 + b)%Z by lia.
  rewrite Zplus_mod_idemp_l. f_equal. lia.
Qed.

Section projection.
Context `{!UnicodeCase}.
Context (mode : string) (cpIndex : contentPathIndex).

(** What a torrent is counted under: the signature of its hard links or the key
    of its content; nothing, when it is always counted. *)
Definition space_unit (ctx : EvalContext) (t : Torrent) : option (string + crossSeedKey) :=
  match HardlinkSignaturesToClear ctx, counted_signature mode t ctx with
  | Some _, Some sig => Some (inl sig)
  | _, _ => inr <$> makeCrossSeedKey t
  end.

(** The units counted so far. *)
Definition unit_seen (ctx : EvalContext) (u : string + crossSeedKey) : Prop :=
  match u with
  | inl sig => sig ∈ default ∅ (HardlinkSignaturesToClear ctx)
  | inr key => key ∈ default ∅ (FilesToClear ctx)
  end.

(** Two contexts that count under the same units. *)
Definition same_units (ctx ctx' : EvalContext) : Prop :=
  ec_facts ctx' = ec_facts ctx ∧ is_nil (HardlinkSignaturesToClear ctx') = is_nil (HardlinkSignaturesToClear ctx) ∧
  is_nil (FilesToClear ctx') = false.

Lemma space_unit_same ctx ctx' t : same_units ctx ctx' → space_unit ctx' t = space_unit ctx t.
Proof.
  intros (Hf & Hl & _). unfold space_unit, counted_signature. rewrite Hf.
  by destruct (HardlinkSignaturesToClear ctx'), (HardlinkSignaturesToClear ctx).
Qed.

(** The projection of a sequence of deletions. *)
Definition project (ctx : EvalContext) (ts : list Torrent) : EvalContext :=
  foldl (λ ctx t, updateCumulativeFreeSpaceCleared t ctx mode cpIndex) ctx ts.

Definition step_counts (ctx ctx' : EvalContext) (t : Torrent) : Prop :=
  deleteFreesSpace mode t cpIndex = true ∧ SpaceToClear ctx' = i64 (SpaceToClear ctx + t_Size t) ∧
  (∀ k, unit_seen ctx' k ↔ unit_seen ctx k ∨ space_unit ctx t = Some k) ∧
  (∀ k, space_unit ctx t = Some k → ¬ unit_seen ctx k).
Definition step_skips (ctx ctx' : EvalContext) (t : Torrent) : Prop :=
  ctx' = ctx ∧ (deleteFreesSpace mode t cpIndex = false ∨
                ∃ k, space_unit ctx t = Some k ∧ unit_seen ctx k).

(** Counting under [key] when no signature is involved. *)
Lemma clear_by_content ctx t files :
  FilesToClear ctx = Some files → deleteFreesSpace mode t cpIndex = true →
  space_unit ctx t = inr <$> makeCrossSeedKey t →
  let ctx' := match makeCrossSeedKey t with
    | None => clear_more (t_Size t) (Some files) (HardlinkSignaturesToClear ctx) ctx
    | Some key => if bool_decide (key ∈ files) then ctx
                  else clear_more (t_Size t) (Some ({[key]} ∪ files)) (HardlinkSignaturesToClear ctx) ctx
    end in
  same_units ctx ctx' ∧ (step_skips ctx ctx' t ∨ step_counts ctx ctx' t).
Proof.
  intros Hf Hd Hu. cbn zeta. unfold step_skips, step_counts. rewrite Hu.
  destruct (makeCrossSeedKey t) as [key|]; [case_bool_decide as Hk|].
  - split; [by unfold same_units; rewrite Hf|]. left. split; [done|]. right. exists (inr key).
    split; [done|]. unfold unit_seen. by rewrite Hf.
  - split; [done|]. right. split_and!; [done|done| |].
    + intros [sig|k]; unfold unit_seen; cbn [HardlinkSignaturesToClear FilesToClear clear_more with_space ec_space es_active fs_FilesToClear fs_HardlinkSignaturesToClear]; rewrite ?Hf; cbn [default]; [naive_solver|set_solver].
    + intros k [= <-]. unfold unit_seen. by rewrite Hf.
  - split; [done|]. right. split_and!; [done|done| |done].
    intros [sig|k]; simpl; rewrite ?Hf; cbn; naive_solver.
Qed.

Lemma clear_step (ctx : EvalContext) (t : Torrent) :
  is_nil (FilesToClear ctx) = false →
  let ctx' := updateCumulativeFreeSpaceCleared t ctx mode cpIndex in
  same_units ctx ctx' ∧ (step_skips ctx ctx' t ∨ step_counts ctx ctx' t).
Proof.
  intros Hf. cbn zeta. unfold updateCumulativeFreeSpaceCleared.
  destruct (FilesToClear ctx) as [files|] eqn:Efiles; [|done].
  destruct (deleteFreesSpace mode t cpIndex) eqn:Hd; cbn [negb].
  2: { split; [by unfold same_units; rewrite Efiles|]. left. split; [done|by left]. }
  destruct (HardlinkSignaturesToClear ctx) as [links|] eqn:El;
    [destruct (counted_signature mode t ctx) as [sig|] eqn:Es; [case_bool_decide as Hs|]|].
  - split; [by unfold same_units; rewrite Efiles|]. left. split; [done|]. right. exists (inl sig).
    unfold space_unit. simpl. by rewrite El, Es.
  - split; [by unfold same_units; rewrite El|]. right. unfold step_counts, space_unit. rewrite El, Es.
    split_and!; [done|done| |].
    + intros [sig'|k]; simpl; rewrite ?El, ?Efiles; cbn; [set_solver|naive_solver].
    + intros k [= <-]. simpl. by rewrite El.
  - rewrite <- El. apply clear_by_content; [done..|]. unfold space_unit. by rewrite El, Es.
  - rewrite <- El. apply clear_by_content; [done..|]. unfold space_unit. by rewrite El.
Qed.

Definition sizes (ts : list Torrent) : Z := foldr (λ t n, (t_Size t + n)%Z) 0%Z ts.

Lemma step_counts_space ctx ctx' t : in_i64 (SpaceToClear ctx) → step_skips ctx ctx' t ∨ step_counts ctx ctx' t →
  in_i64 (SpaceToClear ctx').
Proof. intros Hr [[-> _]|(_ & -> & _)]; [done|apply i64_range]. Qed.

(** Over any sequence of deletions whose free space is
    projected, the space to clear grows by the sizes of some of the torrents,
    without overflow other than that of the machine word: only those whose
    deletion frees space, never two that share their content or the signature of
    their hard links, none that shares it with something counted before, and at
    least one for everything that is shared by a deleted torrent. *)
Theorem projection_counts_once (ctx : EvalContext) (ts : list Torrent) :
  is_nil (FilesToClear ctx) = false → in_i64 (SpaceToClear ctx) →
  let frees t := deleteFreesSpace mode t cpIndex in
  ∃ counted,
    counted `sublist_of` ts ∧
    SpaceToClear (project ctx ts) = i64 (SpaceToClear ctx + sizes counted) ∧
    NoDup (omap (space_unit ctx) counted) ∧
    (∀ t, t ∈ counted → frees t = true ∧ ∀ u, space_unit ctx t = Some u → ¬ unit_seen ctx u) ∧
    (∀ t, t ∈ ts → frees t = true →
       match space_unit ctx t with
       | Some u => unit_seen ctx u ∨ u ∈ omap (space_unit ctx) counted
       | None => t ∈ counted
       end).
Proof.
  cbn zeta. revert ctx. induction ts as [|t ts IH]; intros ctx Hf Hr.
  { exists []. split_and!; [done| |constructor|by intros ? ?%elem_of_nil..].
    simpl. by rewrite Z.add_0_r, i64_id. }
  destruct (clear_step ctx t Hf) as [Hsame Hstep]. unfold project. cbn [foldl].
  set (ctx' := updateCumulativeFreeSpaceCleared t ctx mode cpIndex) in *.
  destruct (IH ctx') as (counted & Hsub & Hspace & Hnd & Hc & Hall);
    [by destruct Hsame as (_ & _ & ->)|by eapply step_counts_space|].
  fold (project ctx' ts).
  assert (∀ t, space_unit ctx' t = space_unit ctx t) as Hu by (intros; by apply space_unit_same).
  assert (omap (space_unit ctx') counted = omap (space_unit ctx) counted) as Eo
    by (apply list_omap_ext; clear -Hu; induction counted; constructor; auto).
  rewrite Eo in Hnd, Hall. setoid_rewrite Hu in Hc.
  assert (∀ t', t' ∈ ts → deleteFreesSpace mode t' cpIndex = true →
    match space_unit ctx t' with
    | Some u => unit_seen ctx' u ∨ u ∈ omap (space_unit ctx) counted
    | None => t' ∈ counted
    end) as Hall' by (intros t' Hin Hfr; rewrite <- Hu; by apply Hall). clear Hall.
  destruct Hstep as [[E Hwhy]|(Hd & Hs & Hseen & Hnew)].
  - rewrite E in *. exists counted. split_and!; [by constructor|done..|].
    intros t' [->|Hin]%elem_of_cons Hfr; [|by apply Hall'].
    destruct Hwhy as [?|(k & -> & ?)]; [congruence|by left].
  - exists (t :: counted). split_and!.
    + by constructor.
    + rewrite Hspace, Hs, i64_add. f_equal. simpl. lia.
    + simpl. destruct (space_unit ctx t) as [u|] eqn:Et; [|done]. constructor; [|done].
      intros (t' & Hin & Eu)%list_elem_of_omap. destruct (Hc t' Hin) as [_ Hno].
      apply (Hno u Eu), Hseen. by right.
    + intros t' [->|Hin]%elem_of_cons; [done|]. destruct (Hc t' Hin) as [? Hno]. split; [done|].
      intros u Eu Hin'. apply (Hno u Eu), Hseen. by left.
    + intros t' [->|Hin]%elem_of_cons Hfr.
      * simpl. destruct (space_unit ctx t) as [u|]; [right; by left|by left].
      * specialize (Hall' t' Hin Hfr). simpl. destruct (space_unit ctx t') as [u|]; [|by right].
        destruct Hall' as [[?|Et]%Hseen|?]; [by left|rewrite Et; right; by left|].
        right. destruct (space_unit ctx t); [by right|done].
Qed.
End projection.

(** ** Witnesses *)

(** Templates without actions: the text itself. *)
Definition PlainTemplates : Templates := {| execute_template path _ _ := Some path |}.

Definition pausing : ActionConditions :=
  MkActionConditions "" None None None (Some (MkPauseAction true None)) None None None None None []
    None None None None None.
Definition resuming : ActionConditions :=
  MkActionConditions "" None None None None (Some (MkResumeAction true None)) None None None None []
    None None None None None.
Definition deleting : ActionConditions :=
  MkActionConditions "" None None None None None None None
    (Some (MkDeleteAction true "" false "" "" (Some (leaf FieldSize OperatorGreaterThan "1000" false))))
    None [] None None None None None.

Definition rule_of (id : Z) (c : ActionConditions) : Automation :=
  MkAutomation id 1 "rule" "*" [] (Some c) None None true false false 1 None.

Definition running : Torrent := sample_torrent "aa" "Film" "" "" 5000.

Definition run_rules (rules : list Automation) : gmap string torrentDesiredState :=
  r_states (@processTorrents AsciiCase AsciiTables SimpleLibrary PlainTemplates [running] rules
    (Some empty_context) true None None None).

(** On a torrent that runs, a later resume does not take the pause back. *)
Lemma pause_resume_exact_witness :
  let w := MkWork (set_run (MkRun true no_ref false no_ref) (fresh_state running)) None (Some empty_context) in
  shouldPause (ds_run (w_state (@processRuleForTorrent AsciiCase AsciiTables SimpleLibrary PlainTemplates
    (rule_of 2 resuming) running true ∅ [running] ∅ w))) = true.
Proof.
  intros w. destruct (@pause_resume_exact AsciiCase AsciiTables SimpleLibrary PlainTemplates
    (rule_of 2 resuming) resuming running true ∅ [running] ∅ w eq_refl) as [Hr _].
  change (is_paused_state (t_State running)) with false in Hr. cbn iota in Hr.
  destruct Hr as [-> _]. done.
Defined.

Example pause_then_resume :
  (λ d, shouldPause (ds_run d)) <$> run_rules [rule_of 1 pausing; rule_of 2 resuming] !! "aa" = Some true.
Proof. by vm_compute. Qed.

Definition deleted : torrentDesiredState :=
  default (fresh_state running) (run_rules [rule_of 7 deleting; rule_of 8 pausing] !! "aa").

Lemma deletions_justified_witness :
  @justified AsciiCase AsciiTables SimpleLibrary PlainTemplates [running] [rule_of 7 deleting; rule_of 8 pausing] true
    (λ _, false) (MkRunState ∅ None (Some empty_context)) "aa" (ds_delete deleted).
Proof.
  apply (@deletions_justified AsciiCase AsciiTables SimpleLibrary PlainTemplates [running]
    [rule_of 7 deleting; rule_of 8 pausing] (Some empty_context) true None None None "aa" deleted).
  - by vm_compute.
  - by vm_compute.
Defined.

Definition projecting : EvalContext :=
  MkEvalContext no_facts (MkSpace (MkSpaceState 0 0 (Some ∅) (Some ∅)) None "") (MkGroups 0 None ∅ ∅).

Lemma projection_counts_once_witness :
  ∃ counted,
    counted `sublist_of` [running; sample_torrent "bb" "Film" "" "" 5000; sample_torrent "cc" "Other" "" "" 7] ∧
    5007%Z = i64 (0 + sizes counted) ∧ NoDup (omap (@space_unit AsciiCase DeleteModeWithFiles projecting) counted).
Proof.
  destruct (@projection_counts_once AsciiCase DeleteModeWithFiles ∅ projecting
    [running; sample_torrent "bb" "Film" "" "" 5000; sample_torrent "cc" "Other" "" "" 7])
    as (counted & Hs & Hspace & Hnd & _).
  - done.
  - by vm_compute.
  - exists counted. split_and!; [exact Hs| |exact Hnd]. etrans; [|exact Hspace]. by vm_compute.
Defined.
