(* ===== verification/Sorting.v ===== *)
(** * [processor.go]: the order in which torrents are processed

    A rule may have its torrents sorted, by a field or by a score, before they
    are processed; ties are broken by the hash.  This file models the values that
    are compared, the score, the comparison and [SortTorrents], and shows that
    the comparison is a strict total order, so that the result does not depend on
    the sorting algorithm. *)

From Stdlib Require Import ZArith Lia Ascii SpecFloat.
From stdpp Require Import base numbers list strings gmap sorting.
From S2P Require Import Prelude.
From S2P Require Import Order.
From S2P Require Import GoStrings.
From S2P Require Import GoFloat.
From S2P Require Import UnicodeText.
From S2P Require Import Domain.
From S2P Require Import Automation.
From S2P Require Import Conditions.

Open Scope qui_scope.

(** ** The values that are compared *)

Section values.
Context `{!UnicodeCase, !UnicodeTables, !Library}.

Definition getNowUnix (ctx : option EvalContext) : Z := now_unix ctx.

(** A time stamp or duration that is not set counts as zero. *)
Definition if_positive (z : Z) : float64 := if (z <=? 0)%Z then f64_zero else f64_of_Z z.

Definition age_fields : list (ConditionField * (Torrent → Z)) :=
  [(FieldAddedOnAge, t_AddedOn); (FieldCompletionOnAge, t_CompletionOn); (FieldLastActivityAge, t_LastActivity)].

Definition getAgeFieldValue (ctx : option EvalContext) (field : ConditionField) (t : Torrent) : float64 :=
  match case_of field age_fields with
  | None => f64_zero
  | Some get => let ts := get t in
                if (ts <=? 0)%Z then f64_zero else f64_of_Z (i64 (getNowUnix ctx - ts))
  end.

Definition numeric_values : list (ConditionField * (Torrent → option EvalContext → float64)) :=
  [(FieldSize, λ t _, f64_of_Z (t_Size t)); (FieldTotalSize, λ t _, f64_of_Z (t_TotalSize t));
   (FieldDownloaded, λ t _, f64_of_Z (t_Downloaded t)); (FieldUploaded, λ t _, f64_of_Z (t_Uploaded t));
   (FieldAmountLeft, λ t _, f64_of_Z (t_AmountLeft t));
   (FieldFreeSpace, λ _ ctx, from_option (λ c, if_positive (FreeSpace c)) f64_zero ctx);
   (FieldAddedOn, λ t _, if_positive (t_AddedOn t)); (FieldCompletionOn, λ t _, if_positive (t_CompletionOn t));
   (FieldLastActivity, λ t _, if_positive (t_LastActivity t));
   (FieldSeedingTime, λ t _, if_positive (t_SeedingTime t));
   (FieldTimeActive, λ t _, if_positive (t_TimeActive t));
   (FieldAddedOnAge, λ t ctx, getAgeFieldValue ctx FieldAddedOnAge t);
   (FieldCompletionOnAge, λ t ctx, getAgeFieldValue ctx FieldCompletionOnAge t);
   (FieldLastActivityAge, λ t ctx, getAgeFieldValue ctx FieldLastActivityAge t);
   (FieldRatio, λ t _, t_Ratio t); (FieldProgress, λ t _, f64_mul (t_Progress t) (f64_of_Z 100));
   (FieldAvailability, λ t _, t_Availability t); (FieldDlSpeed, λ t _, f64_of_Z (t_DlSpeed t));
   (FieldUpSpeed, λ t _, f64_of_Z (t_UpSpeed t)); (FieldNumSeeds, λ t _, f64_of_Z (t_NumSeeds t));
   (FieldNumLeechs, λ t _, f64_of_Z (t_NumLeechs t)); (FieldNumComplete, λ t _, f64_of_Z (t_NumComplete t));
   (FieldNumIncomplete, λ t _, f64_of_Z (t_NumIncomplete t));
   (FieldTrackersCount, λ t _, f64_of_Z (t_TrackersCount t));
   (FieldSystemHour, λ _ ctx, f64_of_Z (Hour (evaluateTime ctx)));
   (FieldSystemMinute, λ _ ctx, f64_of_Z (Minute (evaluateTime ctx)));
   (FieldSystemDayOfWeek, λ _ ctx, f64_of_Z (Weekday (evaluateTime ctx)));
   (FieldSystemDay, λ _ ctx, f64_of_Z (Day (evaluateTime ctx)));
   (FieldSystemMonth, λ _ ctx, f64_of_Z (Month (evaluateTime ctx)));
   (FieldSystemYear, λ _ ctx, f64_of_Z (Year (evaluateTime ctx)))].

Definition getNumericFieldValue (t : Torrent) (field : ConditionField) (ctx : option EvalContext) : float64 :=
  match case_of field numeric_values with Some get => get t ctx | None => f64_zero end.

Definition string_values : list (ConditionField * (Torrent → string)) :=
  [(FieldName, t_Name); (FieldCategory, t_Category); (FieldTags, t_Tags); (FieldTracker, t_Tracker);
   (FieldState, t_State); (FieldSavePath, t_SavePath); (FieldContentPath, t_ContentPath);
   (FieldComment, t_Comment)].

Definition extractStringValue (t : Torrent) (field : ConditionField) : string * bool :=
  match case_of field string_values with Some get => (ToLower (get t), true) | None => ("", false) end.

(** ** Scores *)

(** The body of the loop over the score rules. *)
Definition add_score (t : Torrent) (ctx : option EvalContext) (total : float64) (r : ScoreRule) : float64 :=
  if bool_decide (sr_Type r = ScoreRuleTypeFieldMultiplier) then
    match sr_FieldMultiplier r with
    | Some fm => if bool_decide (fm_Field fm = "") then total
                 else f64_add total (f64_mul (getNumericFieldValue t (fm_Field fm) ctx) (fm_Multiplier fm))
    | None => total
    end
  else if bool_decide (sr_Type r = ScoreRuleTypeConditional) then
    match sr_Conditional r with
    | Some cn => match cn_Condition cn with
                 | Some cond => if EvaluateConditionWithContext (Some cond) t ctx 0
                                then f64_add total (cn_Score cn) else total
                 | None => total
                 end
    | None => total
    end
  else total.

Definition CalculateScore (t : Torrent) (config : option SortingConfig) (ctx : option EvalContext) : float64 :=
  match config with
  | None => f64_zero
  | Some config => foldl (add_score t ctx) f64_zero (sc_ScoreRules config)
  end.

(** ** The comparison *)

(** [v1 < v2] and [v1 > v2] of the language, by the direction of the order. *)
Definition str_ltb (a b : string) : bool := negb (String.leb b a).
Definition in_direction (asc lt gt : bool) : bool := if asc then lt else gt.

Definition compareTorrents (t1 t2 : Torrent) (config : option SortingConfig)
    (scores : gmap string float64) (ctx : option EvalContext) : bool :=
  let tiebreak := str_ltb (t_Hash t1) (t_Hash t2) in
  let by_added := if bool_decide (t_AddedOn t1 = t_AddedOn t2) then tiebreak
                  else (t_AddedOn t1 <? t_AddedOn t2)%Z in
  match config with
  | None => by_added
  | Some config =>
    let asc := bool_decide (sc_Direction config = SortDirectionASC) in
    let by_float v1 v2 :=
      if f64_eqb v1 v2 then tiebreak else in_direction asc (f64_ltb v1 v2) (f64_ltb v2 v1) in
    if bool_decide (sc_Type config = SortingTypeSimple) then
      if IsNumeric (sc_Field config) then
        by_float (getNumericFieldValue t1 (sc_Field config) ctx) (getNumericFieldValue t2 (sc_Field config) ctx)
      else
        let v1 := (extractStringValue t1 (sc_Field config)).1 in
        let v2 := (extractStringValue t2 (sc_Field config)).1 in
        if bool_decide (v1 = v2) then tiebreak else in_direction asc (str_ltb v1 v2) (str_ltb v2 v1)
    else if bool_decide (sc_Type config = SortingTypeScore) then
      by_float (default f64_zero (scores !! t_Hash t1)) (default f64_zero (scores !! t_Hash t2))
    else by_added
  end.

(** ** Sorting *)

(** The check of score rule number [i]. *)
Definition check_score_rule (i : nat) (r : ScoreRule) : result unit :=
  let msg m := Err ("score rule " +++ nat_string i +++ ": " +++ m) in
  if bool_decide (sr_Type r = ScoreRuleTypeFieldMultiplier) then
    match sr_FieldMultiplier r with
    | None => msg "content missing for field multiplier"
    | Some fm => if negb (IsNumeric (fm_Field fm))
                 then Err ("field multiplier requires numeric field, got: " +++ fm_Field fm) else Ok tt
    end
  else if bool_decide (sr_Type r = ScoreRuleTypeConditional) then
    match sr_Conditional r with
    | None => msg "content missing for conditional"
    | Some cn => match cn_Condition cn with None => msg "condition missing" | Some _ => Ok tt end
    end
  else msg ("unknown type " +++ sr_Type r).

Definition check_config (config : option SortingConfig) : result unit :=
  match config with
  | None => Ok tt
  | Some c =>
    if negb (bool_decide (sc_SchemaVersion c = "1")) then Err ("invalid schema version: " +++ sc_SchemaVersion c)
    else if negb (bool_decide (sc_Direction c = SortDirectionASC)) &&
            negb (bool_decide (sc_Direction c = SortDirectionDESC))
    then Err ("invalid direction: " +++ sc_Direction c)
    else if bool_decide (sc_Type c = SortingTypeSimple) then
      if negb (IsNumeric (sc_Field c)) && negb (IsString (sc_Field c))
      then Err ("unsupported sort field: " +++ sc_Field c) else Ok tt
    else if bool_decide (sc_Type c = SortingTypeScore) then
      if bool_decide (sc_ScoreRules c = []) then Err "score sort requires at least one rule"
      else validate_rules check_score_rule 0 (sc_ScoreRules c)
    else Err ("unsupported sorting type: " +++ sc_Type c)
  end.

(** The scores are computed before sorting, by hash. *)
Definition compute_scores (torrents : list Torrent) (config : option SortingConfig)
    (ctx : option EvalContext) : gmap string float64 :=
  match config with
  | Some c => if bool_decide (sc_Type c = SortingTypeScore)
              then foldl (λ m t, <[t_Hash t := CalculateScore t config ctx]> m) ∅ torrents else ∅
  | None => ∅
  end.

Definition SortTorrents (torrents : list Torrent) (config : option SortingConfig)
    (ctx : option EvalContext) : result (list Torrent) :=
  let! _ := check_config config in
  let scores := compute_scores torrents config ctx in
  Ok (sort_slice (λ t1 t2, compareTorrents t1 t2 config scores ctx) torrents).
End values.

(** ** The order of [SortTorrents] *)

Section order.
Context `{!UnicodeCase, !UnicodeTables, !Library}.
Context (config : option SortingConfig) (scores : gmap string float64) (ctx : option EvalContext).

Definition directed {A} (asc : bool) (c : A → A → comparison) : A → A → comparison :=
  if asc then c else flip_cmp c.

Definition primary_cmp : Torrent → Torrent → comparison :=
  let added := pull_cmp t_AddedOn Z.compare in
  match config with
  | None => added
  | Some c =>
    let asc := bool_decide (sc_Direction c = SortDirectionASC) in
    if bool_decide (sc_Type c = SortingTypeSimple) then
      if IsNumeric (sc_Field c)
      then directed asc (pull_cmp (λ t, getNumericFieldValue t (sc_Field c) ctx) float_cmp)
      else directed asc (pull_cmp (λ t, (extractStringValue t (sc_Field c)).1) String.compare)
    else if bool_decide (sc_Type c = SortingTypeScore)
    then directed asc (pull_cmp (λ t, default f64_zero (scores !! t_Hash t)) float_cmp)
    else added
  end.

Definition torrent_cmp : Torrent → Torrent → comparison :=
  lex_cmp primary_cmp (pull_cmp t_Hash String.compare).

#[export] Instance directed_total {A} asc (c : A → A → comparison) : TotalCmp c → TotalCmp (directed asc c).
Proof. intros ?. destruct asc; apply _. Qed.

#[export] Instance torrent_cmp_total : TotalCmp torrent_cmp.
Proof.
  unfold torrent_cmp, primary_cmp, float_cmp, key3_cmp. apply lex_total; [|apply _].
  repeat case_match; apply _.
Qed.

Lemma torrent_cmp_eq x y : torrent_cmp x y = Eq → t_Hash x = t_Hash y.
Proof.
  unfold torrent_cmp, lex_cmp. destruct (primary_cmp x y); try done. unfold pull_cmp.
  apply String.compare_eq_iff.
Qed.

(** The float that is compared, where one is. *)
Definition float_value (t : Torrent) : float64 :=
  match config with
  | None => f64_zero
  | Some c =>
    if bool_decide (sc_Type c = SortingTypeSimple) then
      if IsNumeric (sc_Field c) then getNumericFieldValue t (sc_Field c) ctx else f64_zero
    else if bool_decide (sc_Type c = SortingTypeScore) then default f64_zero (scores !! t_Hash t)
    else f64_zero
  end.

Lemma str_ltb_spec a b : str_ltb a b = match String.compare a b with Lt => true | _ => false end.
Proof. unfold str_ltb, String.leb. rewrite (cmp_opp (c := String.compare) a b). by destruct (String.compare a b). Qed.

Lemma compareTorrents_spec (x y : Torrent) :
  is_nan (float_value x) = false → is_nan (float_value y) = false →
  compareTorrents x y config scores ctx = cmp_less torrent_cmp x y.
Proof.
  unfold float_value, compareTorrents, cmp_less, torrent_cmp, lex_cmp, primary_cmp.
  rewrite !str_ltb_spec.
  assert ((if bool_decide (t_AddedOn x = t_AddedOn y)
           then match String.compare (t_Hash x) (t_Hash y) with Lt => true | _ => false end
           else (t_AddedOn x <? t_AddedOn y)%Z) =
          match (match pull_cmp t_AddedOn Z.compare x y with
                 | Eq => pull_cmp t_Hash String.compare x y | r => r end)
          with Lt => true | _ => false end) as Hadded.
  { unfold pull_cmp, Z.ltb. case_bool_decide as E; [by rewrite E, Z.compare_refl|].
    destruct (t_AddedOn x ?= t_AddedOn y)%Z eqn:Ec; [by apply Z.compare_eq in Ec|done..]. }
  assert (∀ (asc : bool) (f : Torrent → float64), is_nan (f x) = false → is_nan (f y) = false →
    (if f64_eqb (f x) (f y)
     then match String.compare (t_Hash x) (t_Hash y) with Lt => true | _ => false end
     else in_direction asc (f64_ltb (f x) (f y)) (f64_ltb (f y) (f x))) =
    match (match directed asc (pull_cmp f float_cmp) x y with
           | Eq => pull_cmp t_Hash String.compare x y | r => r end)
    with Lt => true | _ => false end) as Hfloat.
  { intros asc f Hx Hy. unfold f64_eqb, f64_ltb, SFeqb, SFltb. rewrite !float_cmp_spec by done.
    assert (TotalCmp float_cmp) by (unfold float_cmp, key3_cmp; apply _).
    destruct asc; unfold directed, flip_cmp, pull_cmp, in_direction;
      rewrite ?(cmp_opp (c := float_cmp) (f x) (f y)); by destruct (float_cmp (f x) (f y)). }
  destruct config as [c|]; [|by intros; apply Hadded].
  destruct (bool_decide (sc_Type c = SortingTypeSimple)).
  - destruct (IsNumeric (sc_Field c)); [by apply (Hfloat _ (λ t, getNumericFieldValue t _ ctx))|].
    clear Hadded Hfloat. intros _ _. set (f t := (extractStringValue t (sc_Field c)).1).
    change ((extractStringValue x (sc_Field c)).1) with (f x).
    change ((extractStringValue y (sc_Field c)).1) with (f y). rewrite !str_ltb_spec.
    destruct (bool_decide (sc_Direction c = _)); unfold directed, flip_cmp, pull_cmp, in_direction;
      rewrite ?(cmp_opp (c := String.compare) (f x) (f y));
      (case_bool_decide as E; [by rewrite E, (cmp_refl String.compare)|]);
      (destruct (String.compare (f x) (f y)) eqn:Ec; [by apply String.compare_eq_iff in Ec|done..]).
  - destruct (bool_decide (sc_Type c = SortingTypeScore)); [|by intros; apply Hadded].
    apply (Hfloat _ (λ t, default f64_zero (scores !! t_Hash t))).
Qed.
End order.

Lemma lookup_scores `{!UnicodeCase, !UnicodeTables, !Library} (torrents : list Torrent) (c : SortingConfig)
    (ctx : option EvalContext) (t : Torrent) :
  NoDup (t_Hash <$> torrents) → t ∈ torrents → sc_Type c = SortingTypeScore →
  compute_scores torrents (Some c) ctx !! t_Hash t = Some (CalculateScore t (Some c) ctx).
Proof.
  intros Hnd Hin Ht. unfold compute_scores. rewrite bool_decide_true by done.
  induction torrents as [|x l IH] using rev_ind; [by apply elem_of_nil in Hin|].
  rewrite fmap_app in Hnd. apply NoDup_app in Hnd as (Hl & Hx & _).
  rewrite foldl_app. cbn [foldl]. apply elem_of_app in Hin as [Hin|Hin].
  - rewrite lookup_insert_ne; [by apply IH|]. intros E. apply (Hx (t_Hash t)); [by apply list_elem_of_fmap_2|].
    rewrite <- E. by left.
  - apply list_elem_of_singleton in Hin as ->. by rewrite lookup_insert_eq.
Qed.

(** The value a torrent is sorted by, where it is a float. *)
Definition sort_value `{!UnicodeCase, !UnicodeTables, !Library} (config : option SortingConfig)
    (ctx : option EvalContext) (t : Torrent) : float64 :=
  match config with
  | None => f64_zero
  | Some c =>
    if bool_decide (sc_Type c = SortingTypeSimple) then
      if IsNumeric (sc_Field c) then getNumericFieldValue t (sc_Field c) ctx else f64_zero
    else if bool_decide (sc_Type c = SortingTypeScore) then CalculateScore t config ctx
    else f64_zero
  end.

(** For an accepted configuration, torrents with
    distinct hashes and values that are not NaN, [SortTorrents] returns the
    torrents in an order in which none comes before one that compares less, and
    it is the only such order: the outcome depends neither on the sorting
    algorithm nor on the order the torrents were listed in. *)
Theorem sorting_deterministic `{!UnicodeCase, !UnicodeTables, !Library} (torrents : list Torrent)
    (config : option SortingConfig) (ctx : option EvalContext) :
  check_config config = Ok tt → NoDup (t_Hash <$> torrents) →
  (∀ t, t ∈ torrents → is_nan (sort_value config ctx t) = false) →
  let scores := compute_scores torrents config ctx in
  let may_follow a b := compareTorrents b a config scores ctx = false in
  ∃ sorted, SortTorrents torrents config ctx = Ok sorted ∧ sorted ≡ₚ torrents ∧
    StronglySorted may_follow sorted ∧
    ∀ other, other ≡ₚ torrents → StronglySorted may_follow other → other = sorted.
Proof.
  intros Hc Hnd Hnan scores may_follow. unfold SortTorrents. rewrite Hc. cbn [result_bind].
  change (compute_scores torrents config ctx) with scores.
  pose proof (torrent_cmp_total config scores ctx) as Htot.
  assert (∀ x, x ∈ torrents → is_nan (float_value config scores ctx x) = false) as Hnan'.
  { intros x Hx. specialize (Hnan x Hx). unfold float_value, sort_value, scores in *.
    destruct config as [c|]; [|done]. repeat case_bool_decide; try done.
    by rewrite lookup_scores. }
  assert (∀ x y, x ∈ torrents → y ∈ torrents →
    compareTorrents x y config scores ctx = cmp_less (torrent_cmp config scores ctx) x y) as Hcmp
    by (intros; apply compareTorrents_spec; auto).
  assert (∀ l, l ≡ₚ torrents → StronglySorted may_follow l ↔ StronglySorted (cmp_le (torrent_cmp config scores ctx)) l)
    as Hsorted.
  { intros l Hl. assert (∀ x, x ∈ l → x ∈ torrents) as Hsub by (intros; by rewrite <- Hl). clear Hl.
    induction l as [|x l IH]; [split; constructor|].
    assert (∀ y, y ∈ l → may_follow x y ↔ cmp_le (torrent_cmp config scores ctx) x y) as Hxy.
    { intros y Hy. unfold may_follow, cmp_le. rewrite Hcmp by (apply Hsub; by constructor).
      unfold cmp_less. by destruct (torrent_cmp _ _ _ y x). }
    specialize (IH (λ y Hy, Hsub y (list_elem_of_further _ _ _ Hy))).
    split; intros Hs; apply StronglySorted_inv in Hs as [Hs Hx]; (constructor; [by apply IH|]);
      rewrite Forall_forall in Hx |- *; intros y Hy; by apply Hxy, Hx. }
  assert (∀ x y, x ∈ torrents → y ∈ torrents → torrent_cmp config scores ctx x y = Eq → x = y) as Heq.
  { intros x y Hx Hy E%torrent_cmp_eq. by eapply (NoDup_key_inj t_Hash). }
  set (sorted := sort_slice _ torrents).
  assert (sorted = sort_slice (cmp_less (torrent_cmp config scores ctx)) torrents) as Es
    by (by apply sort_slice_ext).
  exists sorted. assert (sorted ≡ₚ torrents) as Hp by apply sort_slice_perm.
  assert (StronglySorted may_follow sorted) as Hss.
  { apply Hsorted; [done|]. rewrite Es. by apply sort_slice_sorted. }
  split_and!; [done..|]. intros other Ho Hos.
  eapply (sorted_unique (torrent_cmp config scores ctx)).
  - intros x y Hx Hy. apply Heq; by rewrite <- Ho.
  - by rewrite Ho.
  - by apply Hsorted.
  - by apply Hsorted.
Qed.

(** ** A witness *)

Definition by_size_desc : SortingConfig := MkSortingConfig "1" SortingTypeSimple SortDirectionDESC FieldSize [].
Definition three_torrents : list Torrent :=
  [sample_torrent "cc" "A" "" "" 5; sample_torrent "aa" "B" "" "" 9; sample_torrent "bb" "C" "" "" 5].

Example sorted_by_size :
  match @SortTorrents AsciiCase AsciiTables SimpleLibrary three_torrents (Some by_size_desc) None with
  | Ok l => t_Hash <$> l
  | Err _ => []
  end = ["aa"; "bb"; "cc"].
Proof. by vm_compute. Qed.

Lemma sorting_deterministic_witness :
  ∃ sorted,
    @SortTorrents AsciiCase AsciiTables SimpleLibrary three_torrents (Some by_size_desc) None = Ok sorted ∧
    sorted ≡ₚ three_torrents.
Proof.
  destruct (@sorting_deterministic AsciiCase AsciiTables SimpleLibrary three_torrents (Some by_size_desc) None)
    as (sorted & E & Hp & _).
  - by vm_compute.
  - apply (bool_decide_eq_true_1 _). by vm_compute.
  - intros t Ht. repeat (apply elem_of_cons in Ht as [->|Ht]; [by vm_compute|]). by apply elem_of_nil in Ht.
  - by exists sorted.
Defined.
