(* ===== verification/FileSystem.v ===== *)
(** * Files, and the operations of [os] and [path/filepath] on them

    A file system is a map from paths, as lists of components below the root,
    to what is there.  Symbolic links occur as leaves only: no path leads through
    one.  Reading a directory or the details of a file may fail, and so may
    removing: which operations fail is part of the state of the world. *)

From Stdlib Require Import ZArith Lia Ascii.
From stdpp Require Import base numbers list strings gmap sorting.
From S2P Require Import Prelude.
From S2P Require Import Order.
From S2P Require Import GoStrings.
From S2P Require Import GoPath.

Open Scope qui_scope.

Definition path : Type := list string.

Record FileInfo := MkInfo {
  fi_Size : Z; fi_ModTime : Z; fi_dev : Z; fi_ino : Z; fi_nlink : Z }.

(** A file, whose details may be unreadable; a symbolic link; a directory, whose
    entries may be unreadable for the reason given. *)
Inductive entry : Type :=
| EFile (info : option FileInfo)
| ELink
| EDir (unreadable : option string).

#[export] Instance FileInfo_eq_dec : EqDecision FileInfo.
Proof. solve_decision. Defined.

#[export] Instance entry_eq_dec : EqDecision entry.
Proof. solve_decision. Defined.

Definition is_dir (e : entry) : bool := match e with EDir _ => true | _ => false end.

Definition FS : Type := gmap path entry.

#[export] Instance FS_eq_dec : EqDecision FS.
Proof. unfold FS. apply _. Defined.

(** Every path below the root has a directory above it, and its components are
    names. *)
Definition fs_wf (fs : FS) : Prop :=
  (∀ p e, fs !! p = Some e → Forall plain p) ∧
  (∀ p n e, fs !! (p ++ [n]) = Some e → ∃ err, fs !! p = Some (EDir err)).

#[export] Instance plain_dec c : Decision (plain c).
Proof. unfold plain, is_element. apply _. Defined.

(** A check of well-formedness. *)
Definition fs_wf_check (fs : FS) : bool :=
  forallb (λ '(p, _), bool_decide (Forall plain p) &&
    match rev p with
    | [] => true
    | _ :: up => match fs !! rev up with Some (EDir _) => true | _ => false end
    end) (map_to_list fs).

Lemma fs_wf_checked fs : fs_wf_check fs = true → fs_wf fs.
Proof.
  unfold fs_wf_check. rewrite forallb_forall. intros Hc.
  assert (∀ p e, fs !! p = Some e → (p, e) ∈ map_to_list fs) as Hin.
  { intros p e Hp. unfold FS in *. by apply elem_of_map_to_list. }
  split.
  - intros p e Hp%Hin%list_elem_of_In%Hc. apply andb_true_iff in Hp as [Hp _].
    by apply bool_decide_eq_true in Hp.
  - intros p n e Hp%Hin%list_elem_of_In%Hc. apply andb_true_iff in Hp as [_ Hp].
    rewrite rev_app_distr in Hp. cbn [rev app] in Hp. rewrite rev_involutive in Hp.
    destruct (fs !! p) as [[| |err]|]; try done. by exists err.
Qed.

(** The components of an absolute path. *)
Definition to_path (p : string) : path := clean_components p.

Lemma to_path_abs cs : Forall plain cs → to_path (abs_path cs) = cs.
Proof. apply clean_components_abs. Qed.

(** ** Errors *)

(** [os.IsNotExist], or another error with its text. *)
Inductive os_error : Type :=
| NotExist
| OtherError (msg : string).

Definition error_text (e : os_error) : string :=
  match e with NotExist => "no such file or directory" | OtherError msg => msg end.

(** Which operations fail: for [RemoveAll] also what it removed before. *)
Record Faults := MkFaults {
  lstat_fault : path → option string;
  remove_fault : path → option string;
  remove_all_fault : path → option (string * (path → bool)) }.

Definition no_faults : Faults := MkFaults (λ _, None) (λ _, None) (λ _, None).

(** ** Operations *)

Section ops.
Context (faults : Faults).

(** Whether a path leads through something that is not a directory. *)
Definition through_file (fs : FS) (p : path) : bool :=
  existsb (λ n, match fs !! take n p with Some e => negb (is_dir e) | None => false end) (seq 0 (length p)).

(** What is missing below a file is another error than what is missing. *)
Definition Lstat (fs : FS) (p : path) : entry + os_error :=
  match lstat_fault faults p with
  | Some msg => inr (OtherError msg)
  | None =>
    match fs !! p with
    | Some e => inl e
    | None => inr (if through_file fs p then OtherError "not a directory" else NotExist)
    end
  end.

Lemma Lstat_inl fs p e : Lstat fs p = inl e → fs !! p = Some e.
Proof.
  unfold Lstat. destruct (lstat_fault _ _); [done|].
  destruct (fs !! p); [by intros [= ->]|by destruct (through_file _ _)].
Qed.

(** Whether [p] has an entry below it. *)
Definition has_entries (fs : FS) (p : path) : bool :=
  existsb (λ q, bool_decide (p `prefix_of` q) && negb (bool_decide (q = p))) (map_to_list fs).*1.

Definition Remove (fs : FS) (p : path) : FS * option os_error :=
  match remove_fault faults p with
  | Some msg => (fs, Some (OtherError msg))
  | None =>
    match fs !! p with
    | None => (fs, Some (if through_file fs p then OtherError "not a directory" else NotExist))
    | Some e => if is_dir e && has_entries fs p then (fs, Some (OtherError "directory not empty"))
                else (delete p fs, None)
    end
  end.

(** [RemoveAll]: what is missing is not an error. *)
Definition RemoveAll (fs : FS) (p : path) : FS * option os_error :=
  match remove_all_fault faults p with
  | Some (msg, gone) =>
    (filter (λ kv, negb (bool_decide (p `prefix_of` kv.1) && gone kv.1) = true) fs, Some (OtherError msg))
  | None => (filter (λ kv, negb (bool_decide (p `prefix_of` kv.1)) = true) fs, None)
  end.
End ops.

(** ** [filepath.WalkDir] *)

(** The order of a walk: a directory before its entries, these by name. *)
Fixpoint path_cmp (p q : path) : comparison :=
  match p, q with
  | [], [] => Eq
  | [], _ :: _ => Lt
  | _ :: _, [] => Gt
  | x :: p, y :: q => match String.compare x y with Eq => path_cmp p q | r => r end
  end.

Definition subtree (fs : FS) (root : path) : list (path * entry) :=
  sort_slice (λ a b, match path_cmp a.1 b.1 with Lt => true | _ => false end)
    (filter (λ kv, root `prefix_of` kv.1) (map_to_list fs)).

Lemma elem_of_subtree fs root p e :
  (p, e) ∈ subtree fs root ↔ fs !! p = Some e ∧ root `prefix_of` p.
Proof.
  unfold subtree, FS in *. rewrite sort_slice_perm, list_elem_of_filter, (elem_of_map_to_list fs p e). simpl. tauto.
Qed.

(** What the callback of a walk returns. *)
Inductive walk_control (E : Type) : Type :=
| Continue
| SkipDir
| SkipAll
| Stop (err : E).
Arguments Continue {E}.
Arguments SkipDir {E}.
Arguments SkipAll {E}.
Arguments Stop {E} err.

Section walk.
Context {S E : Type}.
(** The callback: the path, the entry unless the root is missing, the error of
    the walk. *)
Context (callback : path → option entry → option os_error → S → S * walk_control E).

(** The rest of a walk; entries below [skip] are passed over. *)
Fixpoint walk_rest (skip : option path) (l : list (path * entry)) (s : S) : S * option E :=
  match l with
  | [] => (s, None)
  | (p, e) :: l =>
    if match skip with Some d => bool_decide (d `prefix_of` p) | None => false end
    then walk_rest skip l s
    else
      let '(s, c) := callback p (Some e) None s in
      match c with
      | Continue =>
        match e with
        | EDir (Some msg) =>
          let '(s, c) := callback p (Some e) (Some (OtherError msg)) s in
          match c with
          | Continue | SkipDir => walk_rest (Some p) l s
          | SkipAll => (s, None)
          | Stop err => (s, Some err)
          end
        | _ => walk_rest skip l s
        end
      | SkipDir => walk_rest (Some (if is_dir e then p else removelast p)) l s
      | SkipAll => (s, None)
      | Stop err => (s, Some err)
      end
  end.

Definition WalkDir (faults : Faults) (fs : FS) (root : path) (s : S) : S * option E :=
  match Lstat faults fs root with
  | inl _ => walk_rest None (subtree fs root) s
  | inr err =>
    let '(s, c) := callback root None (Some err) s in
    (s, match c with Stop err => Some err | _ => None end)
  end.
End walk.

(** The entries of a directory, by name; none when it cannot be read. *)
Definition ReadDir (fs : FS) (p : path) : option (list (string * entry)) :=
  match fs !! p with
  | Some (EDir None) =>
    Some (omap (λ '(q, e), match rev q with
                           | n :: up => if bool_decide (rev up = p) then Some (n, e) else None
                           | [] => None
                           end) (subtree fs p))
  | _ => None
  end.

Lemma elem_of_ReadDir fs p l n e :
  ReadDir fs p = Some l → (n, e) ∈ l ↔ fs !! (p ++ [n]) = Some e.
Proof.
  unfold ReadDir. destruct (fs !! p) as [[| |[|]]|]; try done. intros [= <-]. rewrite list_elem_of_omap. split.
  - intros ([q e'] & [Hq _]%elem_of_subtree & Hm). destruct (rev q) as [|m up] eqn:Er; [done|].
    case_bool_decide as Hup; [|done]. injection Hm as -> ->.
    assert (q = rev up ++ [n]) as -> by (by rewrite <- (rev_involutive q), Er). by rewrite Hup in Hq.
  - intros Hq. exists (p ++ [n], e). split; [apply elem_of_subtree; split; [done|by apply prefix_app_r]|].
    rewrite rev_app_distr. cbn [rev app]. rewrite rev_involutive. by rewrite bool_decide_true.
Qed.

(** ** What a walk visits *)

Lemma path_cmp_app p q r : path_cmp (p ++ q) (p ++ r) = path_cmp q r.
Proof. induction p as [|x p IH]; [done|]. cbn. by rewrite (cmp_refl String.compare x). Qed.

(** Between a directory and what is below it, there is only what is below it. *)
Lemma path_cmp_between p q r :
  path_cmp q p ≠ Lt → path_cmp (p ++ r) q ≠ Lt → p `prefix_of` q.
Proof.
  revert q. induction p as [|x p IH]; intros q H1 H2; [apply prefix_nil|].
  destruct q as [|y q]; [done|]. cbn in H1, H2.
  rewrite String.compare_antisym in H2. destruct (String.compare y x) eqn:E; cbn in H2; try done.
  apply String.compare_eq_iff in E as ->. apply prefix_cons. by apply IH.
Qed.

Lemma path_cmp_below p r : r ≠ [] → path_cmp p (p ++ r) = Lt.
Proof. intros Hr. rewrite <- (app_nil_r p) at 1. rewrite path_cmp_app. by destruct r. Qed.

#[export] Instance path_total : TotalCmp path_cmp.
Proof.
  split.
  - intros p. induction p as [|x p IH]; intros [|y q]; try done. cbn. rewrite (cmp_opp (c := String.compare) x y).
    destruct (String.compare x y); try done. apply IH.
  - intros p. induction p as [|x p IH]; intros [|y q] [|z r]; try done. cbn.
    destruct (String.compare x y) eqn:E1; [|intros _|done].
    + rewrite (cmp_eq_l (c := String.compare) x y z E1). destruct (String.compare y z); [apply IH|done..].
    + destruct (String.compare y z) eqn:E2; [|intros _|done].
      * intros _. by rewrite <- (cmp_eq_r String.compare y z x E2), E1.
      * by rewrite (cmp_trans (c := String.compare) x y z E1 E2).
  - intros p. induction p as [|x p IH]; intros [|y q] [|z r]; try done. cbn.
    destruct (String.compare x y) eqn:E1; try done. intros E.
    rewrite (cmp_eq_l (c := String.compare) x y z E1). destruct (String.compare y z); [by apply IH|done..].
Qed.

Lemma subtree_sorted fs root :
  StronglySorted (λ a b : path * entry, path_cmp b.1 a.1 ≠ Lt) (subtree fs root).
Proof. apply (sort_slice_sorted (pull_cmp fst path_cmp)). Qed.

Lemma subtree_NoDup fs root : NoDup (subtree fs root).*1.
Proof.
  unfold subtree, FS in *. rewrite sort_slice_perm.
  eapply sublist_NoDup; [apply (NoDup_fst_map_to_list fs)|]. apply fmap_sublist, sublist_filter.
Qed.

Lemma subtree_split fs root l1 l2 p e q e' :
  l1 ++ l2 = subtree fs root → (p, e) ∈ l1 → (q, e') ∈ l2 → path_cmp q p ≠ Lt ∧ q ≠ p.
Proof.
  intros Hl Hp Hq. pose proof (subtree_sorted fs root) as Hs. pose proof (subtree_NoDup fs root) as Hn.
  rewrite <- Hl in Hs, Hn. split.
  - exact (StronglySorted_app_1_elem_of _ _ _ _ _ Hs Hp Hq).
  - intros ->. rewrite fmap_app in Hn. apply NoDup_app in Hn as (_ & Hd & _).
    apply (Hd p); [by apply (list_elem_of_fmap_2 fst _ (p, e))|by apply (list_elem_of_fmap_2 fst _ (p, e'))].
Qed.

Section reach.
Context (fs : FS) (root : path) (prune : path → bool).

(** Whether a walk stays out of a directory. *)
Definition closed (p : path) (e : entry) : bool :=
  match e with EDir err => prune p || bool_decide (is_Some err) | _ => false end.

(** Whether a walk reaches [q] from the root. *)
Definition reached (q : path) : bool :=
  forallb (λ n, match fs !! take n q with Some e => negb (closed (take n q) e) | None => true end)
    (seq (length root) (length q - length root)).

Lemma reached_spec q : root `prefix_of` q →
  reached q = true ↔ ∀ p r e, q = p ++ r → r ≠ [] → root `prefix_of` p → fs !! p = Some e → closed p e = false.
Proof.
  intros Hroot. unfold reached. rewrite forallb_forall. split.
  - intros Hc p r e -> Hr Hp He. specialize (Hc (length p)). rewrite take_app_length, He in Hc.
    apply negb_true_iff, Hc, in_seq. apply prefix_length in Hp. rewrite length_app.
    destruct r; [done|]. cbn [length]. lia.
  - intros Hc n [H1 H2]%in_seq. destruct (fs !! take n q) as [e|] eqn:He; [|done]. apply negb_true_iff.
    assert (length root ≤ length q)%nat by (by apply prefix_length).
    eapply (Hc (take n q) (drop n q)); [by rewrite take_drop| | |done].
    + intros Hd. apply (f_equal length) in Hd. rewrite length_drop in Hd. cbn [length] in Hd. lia.
    + destruct Hroot as [k ->]. rewrite take_app_ge by lia. by apply prefix_app_r.
Qed.

Definition visits : list (path * entry) := filter (λ pe, reached pe.1 = true) (subtree fs root).

Lemma elem_of_visits p e : (p, e) ∈ visits ↔ fs !! p = Some e ∧ root `prefix_of` p ∧ reached p = true.
Proof. unfold visits. rewrite list_elem_of_filter, elem_of_subtree. simpl. tauto. Qed.

End reach.

Section visits.
Context {S E : Type}.
Context (callback : path → option entry → option os_error → S → S * walk_control E).
Context (fs : FS) (root : path) (prune : path → bool).

(** What the walk does at one entry. *)
Definition visit (s : S) (pe : path * entry) : S :=
  let s := (callback pe.1 (Some pe.2) None s).1 in
  match pe.2 with
  | EDir (Some msg) =>
    if prune pe.1 then s else (callback pe.1 (Some pe.2) (Some (OtherError msg)) s).1
  | _ => s
  end.

(** The callback never stops the walk, and skips the pruned directories. *)
Context (Hentry : ∀ p e s, fs !! p = Some e → root `prefix_of` p →
  (callback p (Some e) None s).2 = if is_dir e && prune p then SkipDir else Continue).
Context (Herror : ∀ p msg s, fs !! p = Some (EDir (Some msg)) → root `prefix_of` p → prune p = false →
  (callback p (Some (EDir (Some msg))) (Some (OtherError msg)) s).2 = Continue).

Definition covered (skip : option path) (q : path) : Prop := ∃ d, skip = Some d ∧ d `prefix_of` q.

Lemma walk_step skip x e l s :
  fs !! x = Some e → root `prefix_of` x → ¬ covered skip x →
  walk_rest callback skip ((x, e) :: l) s =
  walk_rest callback (if closed prune x e then Some x else skip) l (visit s (x, e)).
Proof.
  intros He Hr Hc. cbn [walk_rest].
  assert (match skip with Some d => bool_decide (d `prefix_of` x) | None => false end = false) as ->.
  { destruct skip as [d|]; [|done]. apply bool_decide_eq_false. intros Hd. apply Hc. by exists d. }
  unfold visit. cbn [fst snd]. pose proof (Hentry x e s He Hr) as H1.
  destruct (callback x (Some e) None s) as [s1 c1]. cbn [fst snd] in *. subst c1.
  destruct e as [info| |err]; cbn [is_dir andb closed]; [done..|].
  destruct (prune x) eqn:Ep; cbn [orb is_dir].
  - by destruct err.
  - destruct err as [msg|]; [|by rewrite bool_decide_false by (by intros [])].
    rewrite bool_decide_true by done. pose proof (Herror x msg s1 He Hr Ep) as H2.
    destruct (callback x _ (Some _) s1) as [s2 c2]. cbn [fst snd] in *. by subst c2.
Qed.

Lemma walk_visits l : ∀ l0 skip s,
  l0 ++ l = subtree fs root →
  (∀ d, skip = Some d → ∃ e, (d, e) ∈ l0 ∧ closed prune d e = true) →
  (∀ p e q e', (p, e) ∈ l0 → closed prune p e = true → (q, e') ∈ l → p `prefix_of` q → covered skip q) →
  walk_rest callback skip l s = (foldl visit s (filter (λ pe, reached fs root prune pe.1 = true) l), None).
Proof.
  induction l as [|[x e] l IH]; intros l0 skip s Hl Hskip Hcov; [done|].
  assert (fs !! x = Some e ∧ root `prefix_of` x) as [He Hr].
  { apply elem_of_subtree. rewrite <- Hl. apply elem_of_app. right. by left. }
  assert ((l0 ++ [(x, e)]) ++ l = subtree fs root) as Hl' by (by rewrite <- app_assoc).
  assert (covered skip x ∨ ¬ covered skip x) as [(d & -> & Hd)|Hc].
  { destruct skip as [d|]; [|right; by intros (? & ? & _)].
    destruct (decide (d `prefix_of` x)); [left; by exists d|right; by intros (? & [= <-] & ?)]. }
  - cbn [walk_rest]. rewrite bool_decide_true by done.
    destruct (Hskip d eq_refl) as (ed & Hded & Hcl). rewrite filter_cons_False.
    + apply (IH (l0 ++ [(x, e)])); [done| |].
      * intros d' [= <-]. exists ed. split; [|done]. apply elem_of_app. by left.
      * intros p ep q e' [Hp|[= -> ->]%list_elem_of_singleton]%elem_of_app Hcp Hq Hpq.
        -- eapply Hcov; [done..|by right|done].
        -- exists d. split; [done|]. by etrans.
    + cbn [fst]. intros Hreach. rewrite reached_spec in Hreach by done. destruct Hd as [k ->].
      assert (fs !! d = Some ed ∧ root `prefix_of` d) as [Hde Hrd].
      { apply elem_of_subtree. rewrite <- Hl. apply elem_of_app. by left. }
      assert (k ≠ []) as Hk.
      { intros ->. rewrite app_nil_r in *.
        apply (subtree_split fs root l0 ((d, e) :: l) d ed d e) in Hl as [_ Hne]; [done|done|by left]. }
      by rewrite (Hreach d k ed eq_refl Hk Hrd Hde) in Hcl.
  - rewrite walk_step by done. rewrite filter_cons_True.
    + cbn [foldl]. apply (IH (l0 ++ [(x, e)])); [done| |].
      * intros d Hd. destruct (closed prune x e) eqn:Ecl.
        { injection Hd as <-. exists e. split; [|done]. apply elem_of_app. right. by left. }
        destruct (Hskip d Hd) as (ed & ? & ?). exists ed. split; [|done]. apply elem_of_app. by left.
      * intros p ep q e' [Hp|[= -> ->]%list_elem_of_singleton]%elem_of_app Hcp Hq Hpq.
        2: { rewrite Hcp. by exists x. }
        destruct (Hcov p ep q e' Hp Hcp) as (d & -> & Hdq); [by right|done|].
        exfalso. apply Hc. exists d. split; [done|]. destruct Hdq as [k ->].
        destruct (Hskip d eq_refl) as (ed & Hded & _).
        apply (path_cmp_between d x k).
        -- by apply (subtree_split fs root l0 ((x, e) :: l) d ed x e Hl); [|left].
        -- apply (subtree_split fs root (l0 ++ [(x, e)]) l x e _ e' Hl'); [|done].
           apply elem_of_app. right. by left.
    + cbn [fst]. apply reached_spec; [done|]. intros p r ep -> Hrne Hrp Hep.
      apply not_true_iff_false. intros Hcl.
      assert ((p, ep) ∈ subtree fs root) as Hin by (by apply elem_of_subtree).
      rewrite <- Hl in Hin. apply elem_of_app in Hin as [Hin|Hin].
      * apply Hc. eapply Hcov; [done|done|by left|by apply prefix_app_r].
      * apply elem_of_cons in Hin as [[= Heq _]|Hin].
        { apply (f_equal length) in Heq. rewrite length_app in Heq. destruct r; [done|cbn [length] in Heq; lia]. }
        destruct (subtree_split fs root _ _ (p ++ r) e p ep Hl') as [Hlt _]; [|done|].
        { apply elem_of_app. right. by left. }
        by rewrite path_cmp_below in Hlt.
Qed.

(** A walk that is never stopped visits what can be reached from the root, each
    entry once, a directory before what is below it. *)
Lemma WalkDir_visits faults s e :
  Lstat faults fs root = inl e →
  WalkDir callback faults fs root s = (foldl visit s (visits fs root prune), None).
Proof.
  intros He. unfold WalkDir. rewrite He.
  apply (walk_visits _ []); [done|done|]. by intros p ep q e' ?%elem_of_nil.
Qed.
End visits.

(** ** Comparing walks *)

Section compare.
Context {S E : Type}.
Context (callback callback' : path → option entry → option os_error → S → S * walk_control E).

(** Callbacks that agree on the entries of a walk give the same walk. *)
Lemma walk_rest_congr l : ∀ skip s,
  (∀ p e s, (p, e) ∈ l → callback p (Some e) None s = callback' p (Some e) None s) →
  (∀ p msg s, (p, EDir (Some msg)) ∈ l →
    callback p (Some (EDir (Some msg))) (Some (OtherError msg)) s =
    callback' p (Some (EDir (Some msg))) (Some (OtherError msg)) s) →
  walk_rest callback skip l s = walk_rest callback' skip l s.
Proof.
  induction l as [|[p e] l IH]; intros skip s H1 H2; [done|]. cbn [walk_rest].
  assert (∀ skip s, walk_rest callback skip l s = walk_rest callback' skip l s) as IH'.
  { intros. apply IH; intros; [apply H1|apply H2]; by right. }
  destruct (match skip with Some d => _ | None => _ end); [apply IH'|].
  rewrite H1 by (by left). destruct (callback' p (Some e) None s) as [s1 c].
  destruct c; [|apply IH'|done|done]. destruct e as [info| |[msg|]]; try apply IH'.
  rewrite H2 by (by left). destruct (callback' p _ (Some _) s1) as [s2 c]. destruct c; [apply IH'..|done|done].
Qed.

(** A callback that agrees with another unless it stops the walk. *)
Lemma walk_rest_unstopped l : ∀ skip s,
  (∀ p e err s, callback p e err s = callback' p e err s ∨ ∃ msg, (callback p e err s).2 = Stop msg) →
  (walk_rest callback skip l s).2 = None →
  walk_rest callback skip l s = walk_rest callback' skip l s.
Proof.
  intros skip s H. revert skip s. induction l as [|[p e] l IH]; intros skip s; [done|]. cbn [walk_rest].
  destruct (match skip with Some d => _ | None => _ end); [apply IH|].
  destruct (H p (Some e) None s) as [->|[msg Hm]].
  2: { destruct (callback p (Some e) None s) as [s1 c]. cbn [snd] in Hm. by subst c. }
  destruct (callback' p (Some e) None s) as [s1 c]. destruct c; [|apply IH|done|done].
  destruct e as [info| |[msg|]]; try apply IH.
  destruct (H p (Some (EDir (Some msg))) (Some (OtherError msg)) s1) as [->|[msg' Hm]].
  2: { destruct (callback p _ (Some _) s1) as [s2 c]. cbn [snd] in Hm. by subst c. }
  destruct (callback' p _ (Some _) s1) as [s2 c]. destruct c; [apply IH..|done|done].
Qed.
End compare.
