(* ===== verification/LinkPlan.v ===== *)
(** * [pkg/hardlinktree/plan.go]: planning a tree of links

    Files that exist on disk are paired with the files of a torrent, by size and
    then by path, name, normalised name, or for want of another one; the plan says
    where to link them so that the torrent's layout appears. *)

From Stdlib Require Import ZArith Lia Ascii.
From stdpp Require Import base numbers list strings gmap sorting.
From S2P Require Import Prelude.
From S2P Require Import GoStrings.
From S2P Require Import GoPath.
From S2P Require Import PathUtil.

Open Scope qui_scope.

Record TorrentFile := MkTorrentFile { tf_Path : string; tf_Size : Z }.
Record ExistingFile := MkExistingFile { ef_AbsPath : string; ef_RelPath : string; ef_Size : Z }.
Record FilePlan := MkFilePlan { fp_SourcePath : string; fp_TargetPath : string }.
Record TreePlan := MkTreePlan { tp_RootDir : string; tp_Files : list FilePlan }.

Inductive LinkPlanErrorKind : Type :=
| LinkPlanErrorNoMatchingFile
| LinkPlanErrorNoAvailableFile
| LinkPlanErrorCouldNotMatch.

(** The errors of a plan: about one file, or another text. *)
Inductive plan_error : Type :=
| LinkPlanError (kind : LinkPlanErrorKind) (file : string)
| PlanFailed (msg : string).

Definition plan_error_text (e : plan_error) : string :=
  match e with
  | LinkPlanError LinkPlanErrorNoMatchingFile file => "no matching file for: " +++ file
  | LinkPlanError LinkPlanErrorNoAvailableFile file => "no available match for: " +++ file
  | LinkPlanError LinkPlanErrorCouldNotMatch file => "could not match file: " +++ file
  | PlanFailed msg => msg
  end.

Inductive ContentLayout : Type :=
| LayoutOriginal
| LayoutSubfolder
| LayoutNoSubfolder.

Section plan.
Context `{!UnicodeCase} (cwd : string).

(** ** Names *)

Definition fileBaseName (path : string) : string := Base path.

Definition sidecarExts : gset string := list_to_set ["nfo"; "srt"; "sub"; "idx"; "sfv"; "txt"]%string.
Definition videoExts : gset string :=
  list_to_set ["mkv"; "mp4"; "avi"; "ts"; "m2ts"; "mov"; "mpg"; "mpeg"]%string.

(** The text before and after the last dot, unless the text ends there. *)
Definition cut_ext (base : string) : option (string * string) :=
  match CutLast base "."%char with
  | Some (before, after) => if bool_decide (after = "") then None else Some (before, after)
  | None => None
  end.

Definition is_alnum (a : ascii) : bool :=
  is_lower a || ((48 <=? byte a) && (byte a <=? 57))%Z.

Definition strip_punctuation (s : string) : string :=
  of_bytes (filter (λ a, is_alnum a = true) (to_bytes (ToLower s))).

Definition normalizeFileKey (path : string) : string :=
  let base := fileBaseName path in
  if bool_decide (base = "") then "" else
  let '(base, ext) := match cut_ext base with
                      | Some (before, after) => (before, ToLower after)
                      | None => (base, "")
                      end in
  let base :=
    if bool_decide (ext ∈ sidecarExts) then
      match cut_ext base with
      | Some (before, after) => if bool_decide (ToLower after ∈ videoExts) then before else base
      | None => base
      end
    else base in
  strip_punctuation base +++ (if bool_decide (ext = "") then "" else "." +++ ext).

(** ** Paths *)

Definition validateCandidatePath (path : string) : option string :=
  if bool_decide (path = "") then Some "empty file path in torrent"
  else if HasPrefix path "/" then Some ("absolute path not allowed in torrent: " +++ path)
  else
    let p := Clean path in
    if IsAbs p then Some ("absolute path not allowed in torrent: " +++ path)
    else if bool_decide (p = ".") then Some ("current directory path not allowed: " +++ path)
    else if bool_decide (p = "..") || HasPrefix p "../" then
      Some ("parent directory traversal not allowed: " +++ path)
    else if bool_decide (".." ∈ components p) then
      Some ("parent directory traversal not allowed: " +++ path)
    else None.

(** The name of the folder a torrent is wrapped in: that of a single file loses
    its extension. *)
Definition folder_name (candidatePath torrentName : string) : string :=
  if bool_decide (sep ∈ to_bytes candidatePath) then torrentName
  else let ext := Ext torrentName in
       if bool_decide (ext = "") then torrentName else TrimSuffix torrentName ext.

Definition computeTargetPath (candidatePath : string) (layout : ContentLayout) (torrentName destDir : string)
    : string :=
  match layout with
  | LayoutSubfolder =>
    PathJoin [destDir; SanitizePathSegment (folder_name candidatePath torrentName); candidatePath]
  | LayoutNoSubfolder =>
    match Cut candidatePath sep with
    | Some (_, rest) => PathJoin [destDir; rest]
    | None => PathJoin [destDir; candidatePath]
    end
  | LayoutOriginal => PathJoin [destDir; candidatePath]
  end.

Definition validateTargetInsideBase (targetPath baseDir : string) : option string :=
  match Rel (Abs cwd baseDir) (Abs cwd targetPath) with
  | None => Some ("failed to compute relative path: Rel: can't make " +++ (Abs cwd targetPath +++
                  (" relative to " +++ Abs cwd baseDir)))
  | Some rel =>
    if HasPrefix rel "../" || bool_decide (rel = "..")
    then Some ("target path escapes base directory: " +++ targetPath) else None
  end.

(** ** The plan *)

(** An entry of the index; [ee_id] is its position, under which it is marked as
    used. *)
Record existingEntry := MkEntry {
  ee_id : nat; ee_file : ExistingFile; ee_base : string; ee_normalized : string }.

Definition make_entry (i : nat) (ef : ExistingFile) : existingEntry :=
  MkEntry i ef (ToLower (fileBaseName (ef_RelPath ef))) (normalizeFileKey (ef_RelPath ef)).

(** The bucket of a size: its files in the order given. *)
Definition bucket (entries : list existingEntry) (size : Z) : list existingEntry :=
  filter (λ e, ef_Size (ee_file e) = size) entries.

Definition sole {A} (l : list A) : option A := match l with [x] => Some x | _ => None end.

Definition or_else {A} (o : option A) (k : option A) : option A := match o with Some _ => o | None => k end.

(** The four strategies, in order. *)
Definition find_match (available : list existingEntry) (path : string) : option existingEntry :=
  or_else (List.find (λ e, bool_decide (ef_RelPath (ee_file e) = path)) available)
  (or_else (sole (filter (λ e, ee_base e = ToLower (fileBaseName path)) available))
  (or_else (sole (filter (λ e, ee_normalized e = normalizeFileKey path) available))
  (sole available))).

Definition choose (entries : list existingEntry) (used : gset nat) (cf : TorrentFile)
    : existingEntry + plan_error :=
  let bucket := bucket entries (tf_Size cf) in
  if bool_decide (bucket = []) then inr (LinkPlanError LinkPlanErrorNoMatchingFile (tf_Path cf)) else
  let available := filter (λ e, ee_id e ∉ used) bucket in
  if bool_decide (available = []) then inr (LinkPlanError LinkPlanErrorNoAvailableFile (tf_Path cf)) else
  match find_match available (tf_Path cf) with
  | Some e => inl e
  | None => inr (LinkPlanError LinkPlanErrorCouldNotMatch (tf_Path cf))
  end.

Fixpoint plan_files (entries : list existingEntry) (layout : ContentLayout) (torrentName destDir : string)
    (used : gset nat) (cfs : list TorrentFile) : list FilePlan + plan_error :=
  match cfs with
  | [] => inl []
  | cf :: cfs =>
    match choose entries used cf with
    | inr err => inr err
    | inl e =>
      let targetPath := computeTargetPath (tf_Path cf) layout torrentName destDir in
      match validateTargetInsideBase targetPath destDir with
      | Some msg => inr (PlanFailed msg)
      | None =>
        match plan_files entries layout torrentName destDir ({[ee_id e]} ∪ used) cfs with
        | inr err => inr err
        | inl files => inl (MkFilePlan (ef_AbsPath (ee_file e)) targetPath :: files)
        end
      end
    end
  end.

Fixpoint validate_all (cfs : list TorrentFile) : option string :=
  match cfs with
  | [] => None
  | cf :: cfs => or_else (validateCandidatePath (tf_Path cf)) (validate_all cfs)
  end.

Definition BuildPlan (candidateFiles : list TorrentFile) (existingFiles : list ExistingFile)
    (layout : ContentLayout) (torrentName destDir : string) : TreePlan + plan_error :=
  if bool_decide (length candidateFiles = 0%nat) then inr (PlanFailed "no candidate files provided")
  else if bool_decide (length existingFiles = 0%nat) then inr (PlanFailed "no existing files provided")
  else if bool_decide (destDir = "") then inr (PlanFailed "destination directory is required")
  else
    match validate_all candidateFiles with
    | Some msg => inr (PlanFailed msg)
    | None =>
      match plan_files (imap make_entry existingFiles) layout torrentName destDir ∅ candidateFiles with
      | inr err => inr err
      | inl files => inl (MkTreePlan destDir (sort_by fp_TargetPath files))
      end
    end.

(** The top directory of a path, if it has one. *)
Definition top_folder (path : string) : option string := fst <$> Cut path sep.

Definition HasCommonRootFolder (files : list TorrentFile) : bool :=
  match files with
  | [] => false
  | f :: _ =>
    match top_folder (tf_Path f) with
    | None => false
    | Some root =>
      forallb (λ f, bool_decide (top_folder (tf_Path f) = Some root)) files && negb (bool_decide (root = ""))
    end
  end.

(** ** What a plan is *)

(** Why a file is linked for a candidate: its path, its name or its normalised
    name. *)
Definition link_reason (cf : TorrentFile) (ef : ExistingFile) : Prop :=
  ef_RelPath ef = tf_Path cf ∨
  ToLower (fileBaseName (ef_RelPath ef)) = ToLower (fileBaseName (tf_Path cf)) ∨
  normalizeFileKey (ef_RelPath ef) = normalizeFileKey (tf_Path cf).

(** The [k]-th candidate gets the existing file [i]: of its size, and for a
    reason or because the others of that size are taken. *)
Definition assigned (efs : list ExistingFile) (taken : gset nat) (cf : TorrentFile) (i : nat) : Prop :=
  ∃ ef, efs !! i = Some ef ∧ ef_Size ef = tf_Size cf ∧
    (link_reason cf ef ∨
     ∀ j ef', efs !! j = Some ef' → ef_Size ef' = tf_Size cf → j ≠ i → j ∈ taken).

Definition planned (efs : list ExistingFile) (layout : ContentLayout) (torrentName destDir : string)
    (cf : TorrentFile) (i : nat) : FilePlan :=
  MkFilePlan (from_option ef_AbsPath "" (efs !! i)) (computeTargetPath (tf_Path cf) layout torrentName destDir).

Definition under_base (base target : string) : Prop :=
  clean_components (Abs cwd base) `prefix_of` clean_components (Abs cwd target).

Lemma sole_Some {A} (l : list A) x : sole l = Some x → l = [x].
Proof. destruct l as [|y [|]]; by intros [= ->]. Qed.

Lemma or_else_Some {A} (o k : option A) x : or_else o k = Some x → o = Some x ∨ k = Some x.
Proof. destruct o; simpl; eauto. Qed.

Lemma find_match_spec available path e :
  find_match available path = Some e →
  e ∈ available ∧
  (ef_RelPath (ee_file e) = path ∨ ee_base e = ToLower (fileBaseName path) ∨
   ee_normalized e = normalizeFileKey path ∨ available = [e]).
Proof.
  unfold find_match. intros [Hm|[Hm|[Hm|Hm]%or_else_Some]%or_else_Some]%or_else_Some.
  - apply List.find_some in Hm as [Hin Hm]. bool_hyps. split; [by apply list_elem_of_In|by left].
  - apply sole_Some in Hm. assert (e ∈ [e]) as Hin by (by left). rewrite <- Hm in Hin.
    apply list_elem_of_filter in Hin as [? ?]. eauto.
  - apply sole_Some in Hm. assert (e ∈ [e]) as Hin by (by left). rewrite <- Hm in Hin.
    apply list_elem_of_filter in Hin as [? ?]. eauto.
  - apply sole_Some in Hm as ->. split; [by left|eauto].
Qed.

Lemma elem_of_entries efs e :
  e ∈ imap make_entry efs ↔ ∃ ef, e = make_entry (ee_id e) ef ∧ efs !! ee_id e = Some ef.
Proof.
  rewrite elem_of_lookup_imap. split.
  - intros (i & ef & -> & Hi). by exists ef.
  - intros (ef & He & Hi). by exists (ee_id e), ef.
Qed.

Lemma choose_assigned efs used cf e :
  choose (imap make_entry efs) used cf = inl e →
  assigned efs used cf (ee_id e) ∧ (ee_id e ∉ used) ∧ efs !! ee_id e = Some (ee_file e).
Proof.
  unfold choose, bucket. case_bool_decide; [done|]. case_bool_decide; [done|].
  destruct (find_match _ _) as [e'|] eqn:Hf; [|done]. intros [= ->].
  apply find_match_spec in Hf as [Hin Hwhy].
  pose proof Hin as [Hfree [Hsize Hent]%list_elem_of_filter]%list_elem_of_filter.
  apply elem_of_entries in Hent as (ef & He & Hi).
  assert (ee_file e = ef) as Hef by (by rewrite He). rewrite Hef in *. split_and!; [|done..].
  exists ef. split_and!; [done..|]. rewrite He in Hwhy. cbn [make_entry ee_file ee_base ee_normalized] in Hwhy.
  destruct Hwhy as [|[|[|Hsole]]]; [left; by left|left; by right; left|left; by right; right|right].
  intros j ef' Hj Hs Hne. destruct (decide (j ∈ used)) as [|Hn]; [done|exfalso; apply Hne].
  assert (make_entry j ef' ∈ [e]) as Hj'%list_elem_of_singleton.
  { rewrite He, <- Hsole. apply list_elem_of_filter. split; [done|]. apply list_elem_of_filter.
    split; [done|]. apply elem_of_entries. by exists ef'. }
  by rewrite <- Hj'.
Qed.

Lemma plan_files_spec efs layout name dest cfs : ∀ used files,
  plan_files (imap make_entry efs) layout name dest used cfs = inl files →
  ∃ chosen, length chosen = length cfs ∧ NoDup chosen ∧ (∀ i, i ∈ chosen → i ∉ used) ∧
    (∀ k cf i, cfs !! k = Some cf → chosen !! k = Some i →
      assigned efs (used ∪ list_to_set (take k chosen)) cf i) ∧
    files = zip_with (planned efs layout name dest) cfs chosen ∧
    Forall (λ fp, validateTargetInsideBase (fp_TargetPath fp) dest = None) files.
Proof.
  induction cfs as [|cf cfs IH]; intros used files; cbn [plan_files].
  { intros [= <-]. exists []. split_and!; try done; [constructor|by intros i ?%elem_of_nil]. }
  destruct (choose _ _ _) as [e|] eqn:Hc; [|done]. destruct (validateTargetInsideBase _ _) eqn:Hv; [done|].
  destruct (plan_files _ _ _ _ _ cfs) as [files'|] eqn:Hp; [|done]. intros [= <-].
  apply choose_assigned in Hc as (Ha & Hfree & Hi).
  apply IH in Hp as (chosen & Hlen & Hnd & Hnew & Hall & -> & Hin). exists (ee_id e :: chosen). split_and!.
  - cbn. by rewrite Hlen.
  - constructor; [|done]. intros Hbad%Hnew. set_solver.
  - intros i [->|Hused%Hnew]%elem_of_cons; [done|]. set_solver.
  - intros [|k] cf' i Hcf Hch; cbn in Hcf, Hch.
    + injection Hcf as <-. injection Hch as <-. cbn [take list_to_set]. by rewrite (right_id_L ∅ (∪)).
    + specialize (Hall k cf' i Hcf Hch). cbn [take list_to_set].
      replace (used ∪ ({[ee_id e]} ∪ list_to_set (take k chosen)))
        with ({[ee_id e]} ∪ used ∪ list_to_set (take k chosen)) by set_solver. done.
  - cbn [zip_with]. f_equal. unfold planned. by rewrite Hi.
  - constructor; done.
Qed.

Lemma validated_under_base target base :
  IsAbs cwd = true → validateTargetInsideBase target base = None → under_base base target.
Proof.
  intros Hcwd. unfold validateTargetInsideBase, under_base.
  destruct (Rel _ _) as [rel|] eqn:Hrel; [|done]. destruct (_ || _) eqn:Hout; [done|]. intros _. bool_hyps.
  destruct (Abs_plain cwd target Hcwd) as (cs & _ & Et).
  destruct (Rel_descends (Abs cwd base) (Abs cwd target) rel) as (r & -> & _);
    [rewrite Et; apply abs_path_IsAbs|done..|by apply prefix_app_r].
Qed.

Lemma BuildPlan_files cfs efs layout torrentName destDir plan :
  BuildPlan cfs efs layout torrentName destDir = inl plan →
  ∃ files, plan_files (imap make_entry efs) layout torrentName destDir ∅ cfs = inl files ∧
           plan = MkTreePlan destDir (sort_by fp_TargetPath files).
Proof.
  unfold BuildPlan. do 3 (case_bool_decide; [done|]). destruct (validate_all _); [done|].
  destruct (plan_files _ _ _ _ _ _) as [files|]; [|done]. intros [= <-]. by exists files.
Qed.

(** C25.  A plan gives each file of the torrent an existing file of its size, never
    the same one twice; it is chosen for its path or its name, or because no
    other one of that size was left; the files are linked where the layout wants
    them, all of them below the destination, in the order of their targets. *)
Theorem plan_sound (cfs : list TorrentFile) (efs : list ExistingFile) (layout : ContentLayout)
    (torrentName destDir : string) (plan : TreePlan) :
  IsAbs cwd = true →
  BuildPlan cfs efs layout torrentName destDir = inl plan →
  ∃ chosen,
    length chosen = length cfs ∧ NoDup chosen ∧
    (∀ k cf i, cfs !! k = Some cf → chosen !! k = Some i → assigned efs (list_to_set (take k chosen)) cf i) ∧
    tp_RootDir plan = destDir ∧
    tp_Files plan ≡ₚ zip_with (planned efs layout torrentName destDir) cfs chosen ∧
    StronglySorted (key_le fp_TargetPath) (tp_Files plan) ∧
    ∀ fp, fp ∈ tp_Files plan → under_base destDir (fp_TargetPath fp).
Proof.
  intros Hcwd (files & Hp & ->)%BuildPlan_files. apply plan_files_spec in Hp as (chosen & Hlen & Hnd & _ & Hall & -> & Hin).
  exists chosen. cbn [tp_RootDir tp_Files]. split_and!; [done..| |done|apply sort_by_perm|apply sort_by_sorted|].
  - intros k cf i Hk Hi. specialize (Hall k cf i Hk Hi). by rewrite (left_id_L ∅ (∪)) in Hall.
  - intros fp Hfp%elem_of_sort_by. rewrite Forall_forall in Hin. by apply validated_under_base, Hin.
Qed.

(** ** Plans for identical files *)

Lemma plain_segment s : plain (SanitizePathSegment s).
Proof.
  destruct (SanitizePathSegment_segment s) as (Hne & Hb & Hlast). split_and!; [done|..].
  - intros E. rewrite E in Hlast. by specialize (Hlast "."%char eq_refl ltac:(by left)).
  - intros E. rewrite E in Hlast. by specialize (Hlast "."%char eq_refl ltac:(by left)).
  - intros Hs. rewrite Forall_forall in Hb. by destruct (Hb _ Hs).
Qed.

Lemma cut_bytes_here s l1 l2 : s ∉ l1 → cut_bytes s (l1 ++ s :: l2) = Some (l1, l2).
Proof.
  induction l1 as [|a l1 IH]; intros Hs; simpl; [by rewrite bool_decide_true|].
  rewrite bool_decide_false by set_solver. by rewrite IH by set_solver.
Qed.

Lemma cut_bytes_none s l : s ∉ l → cut_bytes s l = None.
Proof.
  induction l as [|a l IH]; intros Hs; simpl; [done|].
  rewrite bool_decide_false by set_solver. by rewrite IH by set_solver.
Qed.

Lemma Cut_unsplit c r : is_element c → Cut (unsplit (c :: r)) sep =
  if bool_decide (r = []) then None else Some (c, unsplit r).
Proof.
  intros Hc. unfold Cut. destruct r as [|d r]; [by rewrite cut_bytes_none|].
  change (unsplit (c :: d :: r)) with (c +++ ("/" +++ unsplit (d :: r))).
  rewrite to_bytes_app. change (to_bytes ("/" +++ ?x)) with (sep :: to_bytes x).
  rewrite cut_bytes_here by done. cbn. by rewrite !of_to_bytes.
Qed.

(** Where the layout puts a file of components [r]. *)
Definition layout_components (layout : ContentLayout) (torrentName : string) (r : list string) : list string :=
  match layout with
  | LayoutOriginal => r
  | LayoutSubfolder => SanitizePathSegment (folder_name (unsplit r) torrentName) :: r
  | LayoutNoSubfolder => match r with _ :: (_ :: _) as r' => tail r | _ => r end
  end.

Lemma layout_components_plain layout torrentName r :
  r ≠ [] → Forall plain r →
  layout_components layout torrentName r ≠ [] ∧ Forall plain (layout_components layout torrentName r).
Proof.
  intros Hr Hp. destruct layout; cbn [layout_components]; [done|..].
  - split; [done|]. constructor; [apply plain_segment|done].
  - destruct r as [|c [|d r]]; [done|done|]. split; [done|]. by inversion Hp.
Qed.

Lemma computeTargetPath_plain layout torrentName ds r :
  r ≠ [] → Forall plain (ds ++ r) →
  computeTargetPath (unsplit r) layout torrentName (abs_path ds) =
  abs_path (ds ++ layout_components layout torrentName r).
Proof.
  intros Hr [Hds Hp]%Forall_app.
  destruct (layout_components_plain layout torrentName r Hr Hp) as [Hl1 Hl2].
  assert (∀ l, l ≠ [] → Forall plain l → PathJoin [abs_path ds; unsplit l] = abs_path (ds ++ l)) as Hj.
  { intros l Hl Hpl. apply PathJoin_abs; [done|]. by apply Forall_app. }
  destruct layout; cbn [computeTargetPath].
  - by apply Hj.
  - rewrite <- (Hj (layout_components LayoutSubfolder torrentName r)) by done.
    cbn [PathJoin]. by destruct r.
  - destruct r as [|c r]; [done|]. inversion Hp as [|?? (_ & _ & _ & Hc) ?]; subst.
    rewrite Cut_unsplit by done. destruct r as [|d r]; [|rewrite bool_decide_false by done]; by apply Hj.
Qed.

Lemma validateTargetInsideBase_ok ds r : Forall plain (ds ++ r) →
  validateTargetInsideBase (abs_path (ds ++ r)) (abs_path ds) = None.
Proof.
  intros Hp. pose proof Hp as [Hds Hr]%Forall_app.
  unfold validateTargetInsideBase, Abs. rewrite !abs_path_IsAbs, !Clean_abs_path, Rel_abs by done.
  case_bool_decide; [done|]. destruct r as [|c r]; [done|]. inversion Hr as [|?? (_ & _ & Hc & Hel) _]; subst.
  assert (HasPrefix (unsplit (c :: r)) "../" = false ∧ unsplit (c :: r) ≠ "..") as [-> H2];
    [|by rewrite bool_decide_false].
  pose proof (components_unsplit (c :: r) ltac:(done) (plain_elements _ Hr)) as E. split.
  - apply not_true_iff_false. intros [k Hk]%HasPrefix_app. rewrite Hk in E.
    change ("../" +++ k) with (".." +++ "/" +++ k) in E. rewrite components_app in E.
    change (components "..") with [".."] in E. by injection E as <- _.
  - intros Hk. rewrite Hk in E. change (components "..") with [".."] in E. by injection E as <- _.
Qed.

Lemma validateCandidatePath_ok r : r ≠ [] → Forall plain r → validateCandidatePath (unsplit r) = None.
Proof.
  intros Hr Hp. unfold validateCandidatePath. rewrite bool_decide_false by (by apply unsplit_not_empty).
  pose proof (unsplit_relative r Hr Hp) as Ha. unfold IsAbs in Ha. rewrite Ha, Clean_unsplit by done.
  unfold IsAbs. rewrite Ha. pose proof (components_unsplit r Hr (plain_elements _ Hp)) as E.
  assert (∀ c, c ∈ r → c ≠ ".." ∧ c ≠ ".") as Hc.
  { intros c Hin. rewrite Forall_forall in Hp. by destruct (Hp c Hin) as (_ & ? & ? & _). }
  rewrite bool_decide_false.
  2: { intros Hk. rewrite Hk in E. by destruct (Hc "."); [rewrite <- E; by left|]. }
  assert (".." ∉ r) as Hn by (intros Hin; by destruct (Hc _ Hin)).
  rewrite E. rewrite (bool_decide_false (".." ∈ r)) by done.
  rewrite bool_decide_false by (intros Hk; rewrite Hk in E; apply Hn; rewrite <- E; by left). cbn [orb].
  destruct (HasPrefix _ "../") eqn:Hpre; [|done]. apply HasPrefix_app in Hpre as [k Hk].
  rewrite Hk in E. change ("../" +++ k) with (".." +++ "/" +++ k) in E. rewrite components_app in E.
  exfalso. apply Hn. rewrite <- E. by left.
Qed.

Lemma find_exact available path e :
  e ∈ available → ef_RelPath (ee_file e) = path →
  ∃ e', find_match available path = Some e' ∧ e' ∈ available ∧ ef_RelPath (ee_file e') = path.
Proof.
  intros Hin He. destruct (List.find (λ e, bool_decide (ef_RelPath (ee_file e) = path)) available) as [e'|] eqn:Hf.
  - exists e'. unfold find_match. rewrite Hf. split; [done|].
    apply List.find_some in Hf as [? ?]. bool_hyps. split; [by apply list_elem_of_In|done].
  - exfalso. eapply List.find_none in Hf; [|by apply list_elem_of_In]. by rewrite bool_decide_true in Hf.
Qed.

(** The existing files are those of the torrent, wherever [src] has them. *)
Definition identical (src : string → string) (efs : list ExistingFile) (cfs : list TorrentFile) : Prop :=
  Forall (λ cf, ∃ ef, ef ∈ efs ∧ ef_RelPath ef = tf_Path cf ∧ ef_Size ef = tf_Size cf) cfs ∧
  Forall (λ ef, ef_AbsPath ef = src (ef_RelPath ef)) efs.

Lemma choose_identical src efs cfs used cf :
  identical src efs (cf :: cfs) →
  (∀ i ef, i ∈ used → efs !! i = Some ef → ef_RelPath ef ≠ tf_Path cf) →
  ∃ e, choose (imap make_entry efs) used cf = inl e ∧ efs !! ee_id e = Some (ee_file e) ∧
    ef_RelPath (ee_file e) = tf_Path cf ∧ ef_AbsPath (ee_file e) = src (tf_Path cf).
Proof.
  intros [Hex Hsrc] Hused. inversion Hex as [|?? (ef & Hin & Hp & Hs) _]; subst.
  apply list_elem_of_lookup in Hin as [i Hi].
  assert (make_entry i ef ∈ bucket (imap make_entry efs) (tf_Size cf)) as Hb.
  { apply list_elem_of_filter. split; [done|]. apply elem_of_entries. by exists ef. }
  set (av := filter (λ e, ee_id e ∉ used) (bucket (imap make_entry efs) (tf_Size cf))).
  assert (make_entry i ef ∈ av) as Hav.
  { apply list_elem_of_filter. split; [|done]. intros Hu. by apply (Hused i ef Hu Hi). }
  destruct (find_exact av (tf_Path cf) (make_entry i ef) Hav Hp) as (e & Hf & He & Hpe).
  exists e. apply list_elem_of_filter in He as [_ [_ He]%list_elem_of_filter].
  apply elem_of_entries in He as (ef' & He & Hi').
  assert (ee_file e = ef') as Hef by (by rewrite He). rewrite Hef in *. split_and!; [|done..|].
  - unfold choose. rewrite bool_decide_false by (intros E; by rewrite E in Hb; apply elem_of_nil in Hb).
    fold av. rewrite bool_decide_false by (intros E; by rewrite E in Hav; apply elem_of_nil in Hav).
    by rewrite Hf.
  - rewrite Forall_forall in Hsrc. rewrite (Hsrc ef'), Hpe; [done|]. by eapply list_elem_of_lookup_2.
Qed.

(** The files of a torrent with clean relative paths. *)
Definition clean_files (cfs : list TorrentFile) : Prop :=
  Forall (λ cf, ∃ r, r ≠ [] ∧ Forall plain r ∧ tf_Path cf = unsplit r) cfs.

Lemma plan_files_identical src layout name ds efs cfs : Forall plain ds → ∀ used,
  clean_files cfs → NoDup (tf_Path <$> cfs) → identical src efs cfs →
  (∀ i ef, i ∈ used → efs !! i = Some ef → ef_RelPath ef ∉ tf_Path <$> cfs) →
  plan_files (imap make_entry efs) layout name (abs_path ds) used cfs =
  inl ((λ cf, MkFilePlan (src (tf_Path cf)) (computeTargetPath (tf_Path cf) layout name (abs_path ds))) <$> cfs).
Proof.
  intros Hds. induction cfs as [|cf cfs IH]; intros used Hclean Hnd Hid Hused; [done|]. cbn [plan_files].
  inversion Hclean as [|?? (r & Hr & Hp & Hpath) Hclean']; subst. inversion Hnd as [|?? Hnot Hnd']; subst.
  destruct (choose_identical src efs cfs used cf Hid) as (e & -> & Hi & Hrel & Habs).
  { intros i ef Hu Hi. apply (Hused i ef Hu) in Hi. cbn in Hi. set_solver. }
  rewrite Habs. destruct (layout_components_plain layout name r Hr Hp) as [_ Hl].
  rewrite Hpath, computeTargetPath_plain by (done || by apply Forall_app).
  rewrite validateTargetInsideBase_ok by (by apply Forall_app).
  destruct Hid as [Hex Hsrc]. rewrite IH; [|done|done| |].
  - cbn [fmap list_fmap]. by rewrite Hpath, computeTargetPath_plain by (done || by apply Forall_app).
  - split; [by inversion Hex|done].
  - intros i ef [->%elem_of_singleton|Hu]%elem_of_union Hi'.
    + rewrite Hi in Hi'. injection Hi' as <-. by rewrite Hrel.
    + apply (Hused i ef Hu) in Hi'. cbn in Hi'. set_solver.
Qed.

Lemma validate_all_ok cfs : clean_files cfs → validate_all cfs = None.
Proof.
  induction 1 as [|cf cfs (r & Hr & Hp & Hpath) _ IH]; [done|]. cbn [validate_all].
  by rewrite Hpath, validateCandidatePath_ok.
Qed.

(**  When every file of the torrent exists under its path and size, the plan
    succeeds in every layout and links each file to its own copy, whatever other
    files there are. *)
Theorem identical_files_planned (src : string → string) (ds : list string) (cfs : list TorrentFile)
    (efs : list ExistingFile) (layout : ContentLayout) (torrentName : string) :
  Forall plain ds → cfs ≠ [] → clean_files cfs → NoDup (tf_Path <$> cfs) → identical src efs cfs →
  BuildPlan cfs efs layout torrentName (abs_path ds) =
  inl (MkTreePlan (abs_path ds) (sort_by fp_TargetPath
    ((λ cf, MkFilePlan (src (tf_Path cf)) (computeTargetPath (tf_Path cf) layout torrentName (abs_path ds)))
       <$> cfs))).
Proof.
  intros Hds Hne Hclean Hnd Hid. unfold BuildPlan. rewrite bool_decide_false by (by intros ?%nil_length_inv).
  rewrite bool_decide_false.
  2: { intros ->%nil_length_inv. destruct Hid as [Hex _]. inversion Hex as [|?? (ef & Hin & _)]; subst; [done|].
       by apply elem_of_nil in Hin. }
  rewrite bool_decide_false by apply abs_path_not_empty. rewrite validate_all_ok by done.
  rewrite (plan_files_identical src) by (done || by intros i ef ?%elem_of_empty). done.
Qed.
End plan.

(** ** Runs *)

#[local] Existing Instance AsciiCase.

Definition season : list TorrentFile :=
  [MkTorrentFile "Show.S01/Show.S01E01.mkv" 700; MkTorrentFile "Show.S01/Show.S01E01.nfo" 3].

Definition season_on_disk : list ExistingFile :=
  [MkExistingFile "/tv/a.mkv" "Show S01/show.s01e01.MKV" 700; MkExistingFile "/tv/a.nfo" "show_s01e01.mkv.nfo" 3;
   MkExistingFile "/tv/b.mkv" "Other/other.mkv" 700].

Definition season_plan : TreePlan :=
  MkTreePlan "/links" [MkFilePlan "/tv/a.mkv" "/links/Show.S01/Show.S01E01.mkv";
                       MkFilePlan "/tv/a.nfo" "/links/Show.S01/Show.S01E01.nfo"].

Example season_planned : BuildPlan "/" season season_on_disk LayoutOriginal "Show.S01" "/links" = inl season_plan.
Proof. by vm_compute. Qed.

Example subfolder_of_a_file :
  computeTargetPath "film.mkv" LayoutSubfolder "film.mkv" "/links" = "/links/film/film.mkv".
Proof. by vm_compute. Qed.

Example nfo_of_a_video : normalizeFileKey "a/My.Film.mkv.nfo" = "myfilm.nfo".
Proof. by vm_compute. Qed.

(** The check of the target is needed: without its top folder an accepted path
    can leave the destination. *)
Example stripped_path_escapes :
  validateCandidatePath "a/../b" = None ∧
  BuildPlan "/" [MkTorrentFile "a/../b" 1] [MkExistingFile "/tv/b" "b" 1] LayoutNoSubfolder "t" "/links" =
  inr (PlanFailed "target path escapes base directory: /b").
Proof. by vm_compute. Qed.

(** An earlier file without a copy under its own path takes the one copy of its
    name, and the later file, whose exact path that is, gets other content. *)
Example exact_copy_taken :
  BuildPlan "/" [MkTorrentFile "new/film.mkv" 5; MkTorrentFile "old/film.mkv" 5]
    [MkExistingFile "/tv/1" "old/film.mkv" 5; MkExistingFile "/tv/2" "extra.bin" 5] LayoutOriginal "t" "/links" =
  inl (MkTreePlan "/links" [MkFilePlan "/tv/1" "/links/new/film.mkv"; MkFilePlan "/tv/2" "/links/old/film.mkv"]).
Proof. by vm_compute. Qed.

Example common_root : HasCommonRootFolder season = true ∧ HasCommonRootFolder [MkTorrentFile "a" 1] = false.
Proof. by vm_compute. Qed.

Lemma plan_sound_witness :
  ∃ chosen,
    length chosen = 2%nat ∧ NoDup chosen ∧
    (∀ k cf i, season !! k = Some cf → chosen !! k = Some i →
      assigned season_on_disk (list_to_set (take k chosen)) cf i) ∧
    tp_RootDir season_plan = "/links"%string ∧
    tp_Files season_plan ≡ₚ zip_with (planned season_on_disk LayoutOriginal "Show.S01" "/links") season chosen ∧
    StronglySorted (key_le fp_TargetPath) (tp_Files season_plan) ∧
    ∀ fp, fp ∈ tp_Files season_plan → under_base "/" "/links" (fp_TargetPath fp).
Proof. exact (plan_sound "/" season season_on_disk LayoutOriginal "Show.S01" "/links" season_plan eq_refl eq_refl). Defined.

Lemma identical_files_planned_witness :
  BuildPlan "/" season
    [MkExistingFile "/tv/Show.S01/Show.S01E01.nfo" "Show.S01/Show.S01E01.nfo" 3;
     MkExistingFile "/tv/Show.S01/Show.S01E01.mkv" "Show.S01/Show.S01E01.mkv" 700]
    LayoutNoSubfolder "t" (abs_path ["links"%string]) =
  inl (MkTreePlan "/links" [MkFilePlan "/tv/Show.S01/Show.S01E01.mkv" "/links/Show.S01E01.mkv";
                            MkFilePlan "/tv/Show.S01/Show.S01E01.nfo" "/links/Show.S01E01.nfo"]).
Proof.
  rewrite (identical_files_planned "/" (λ p, "/tv/" +++ p)); [by vm_compute| |done|..].
  - by apply (bool_decide_eq_true_1 _).
  - repeat constructor.
    + exists ["Show.S01"; "Show.S01E01.mkv"]%string. split_and!; [done| |done]. by apply (bool_decide_eq_true_1 _).
    + exists ["Show.S01"; "Show.S01E01.nfo"]%string. split_and!; [done| |done]. by apply (bool_decide_eq_true_1 _).
  - by apply (bool_decide_eq_true_1 _).
  - split.
    + repeat constructor; [eexists (MkExistingFile _ _ _)..]; (split; [|split; reflexivity]).
      * right. by left.
      * by left.
    + by repeat constructor.
Defined.
