(* ===== verification/LinkTree.v ===== *)
(** * [pkg/hardlinktree/create.go], [pkg/reflinktree]: making a tree of links

    A plan is carried out file by file; the first failure removes what was made.
    Hard links and clones share the loop and the rollback.  The number of links of
    a file is not kept up to date: nothing here reads it. *)

From Stdlib Require Import ZArith Lia Ascii.
From stdpp Require Import base numbers list strings gmap sorting.
From S2P Require Import Prelude.
From S2P Require Import Order.
From S2P Require Import GoStrings.
From S2P Require Import GoPath.
From S2P Require Import FileSystem.
From S2P Require Import LinkPlan.

Open Scope qui_scope.

(** What the system answers that the file system does not determine: which
    operations fail, where a symbolic link leads, the details of a new file, and
    the answers of the clone calls. *)
Inductive errno : Type :=
| EAGAIN
| EINVAL
| EOPNOTSUPP
| ENOTTY
| ENOSYS
| OtherErrno (msg : string).

Record System := MkSystem {
  sys_faults : Faults;
  mkdir_fault : path → option string;
  open_fault : path → option string;
  write_fault : path → option string;
  link_fault : path → path → option string;
  follow : path → option FileInfo;
  new_info : path → FileInfo;
  file_clone : path → path → nat → option errno;
  file_clone_range : path → path → option errno;
  errno_text : errno → string;
  diagnostics : string → string → string }.

Section tree.
Context (cwd : string) (sys : System).

Definition at_path (p : string) : path := clean_components (Abs cwd p).

(** ** Operations of [os] *)

Definition parent_is_dir (fs : FS) (p : path) : bool :=
  match fs !! removelast p with Some e => is_dir e | None => false end.

(** [MkdirAll] makes the missing directories from the top. *)
Fixpoint mkdir_steps (ps : list path) (fs : FS) : FS * option string :=
  match ps with
  | [] => (fs, None)
  | p :: ps =>
    match fs !! p with
    | Some e => if is_dir e then mkdir_steps ps fs else (fs, Some "not a directory")
    | None =>
      match mkdir_fault sys p with
      | Some msg => (fs, Some msg)
      | None => mkdir_steps ps (<[p := EDir None]> fs)
      end
    end
  end.

Definition ancestors (p : path) : list path := (λ n, take n p) <$> seq 0 (S (length p)).

Definition MkdirAll (p : path) (fs : FS) : FS * option string := mkdir_steps (ancestors p) fs.

(** [Stat]: the details of a file, also at the end of a link. *)
Definition Stat (fs : FS) (p : path) : option FileInfo :=
  match fs !! p with
  | Some (EFile info) => info
  | Some ELink => follow sys p
  | _ => None
  end.

Definition SameFile (a b : FileInfo) : bool :=
  bool_decide (fi_dev a = fi_dev b) && bool_decide (fi_ino a = fi_ino b).

(** [Link] makes another name of a file, or of a link itself. *)
Definition Link (src tgt : path) (fs : FS) : FS * option string :=
  match fs !! src with
  | None => (fs, Some "no such file or directory")
  | Some e =>
    if is_dir e then (fs, Some "operation not permitted")
    else if negb (parent_is_dir fs tgt) then (fs, Some "no such file or directory")
    else match fs !! tgt with
         | Some _ => (fs, Some "file exists")
         | None =>
           match link_fault sys src tgt with
           | Some msg => (fs, Some msg)
           | None => (<[tgt := e]> fs, None)
           end
         end
  end.

(** [OpenFile] with [O_CREATE] and [O_EXCL]. *)
Definition create_new (p : path) (fs : FS) : FS * option string :=
  match fs !! p with
  | Some _ => (fs, Some "file exists")
  | None =>
    if negb (parent_is_dir fs p) then (fs, Some "no such file or directory") else
    match open_fault sys p with
    | Some msg => (fs, Some msg)
    | None => (<[p := EFile (Some (new_info sys p))]> fs, None)
    end
  end.

(** ** The rollback *)

Definition findSubstr (s substr : string) : bool :=
  existsb (λ i, bool_decide (String.substring i (String.length substr) s = substr))
    (seq 0 (S (String.length s - String.length substr))).

Definition containsStr (s substr : string) : bool :=
  bool_decide (String.length substr ≤ String.length s)%nat &&
  (bool_decide (s = substr) || (bool_decide (0 < String.length s)%nat && findSubstr s substr)).

(** [ENOTEMPTY] has the text [directory not empty]. *)
Definition isDirNotEmpty (err : os_error) : bool :=
  let errStr := error_text err in
  containsStr errStr "not empty" || containsStr errStr "directory not empty" ||
  containsStr errStr "The directory is not empty".

(** One round of the exchange sort: the head [x] is exchanged with every longer
    path on the way. *)
Fixpoint exchange (x : string) (l : list string) : string * list string :=
  match l with
  | [] => (x, [])
  | y :: l =>
    if (String.length x <? String.length y)%nat then let '(m, r) := exchange y l in (m, x :: r)
    else let '(m, r) := exchange x l in (m, y :: r)
  end.

Fixpoint exchange_sort (fuel : nat) (l : list string) : list string :=
  match fuel, l with
  | S fuel, x :: l => let '(m, r) := exchange x l in m :: exchange_sort fuel r
  | _, _ => l
  end.

Definition first_error (acc : option string) (msg : string) : option string :=
  match acc with Some _ => acc | None => Some msg end.

Definition remove_file (s : FS * option string) (f : string) : FS * option string :=
  let '(fs, err) := Remove (sys_faults sys) s.1 (at_path f) in
  (fs, match err with
       | Some (OtherError msg) => first_error s.2 ("remove file " +++ f +++ (": " +++ msg))
       | _ => s.2
       end).

Definition remove_dir (s : FS * option string) (d : string) : FS * option string :=
  let '(fs, err) := Remove (sys_faults sys) s.1 (at_path d) in
  (fs, match err with
       | Some (OtherError msg) =>
         if isDirNotEmpty (OtherError msg) then s.2
         else first_error s.2 ("remove directory " +++ d +++ (": " +++ msg))
       | _ => s.2
       end).

Definition rollback (files dirs : list string) (fs : FS) : FS * option string :=
  let s := foldl remove_file (fs, None) files in
  foldl remove_dir s (exchange_sort (length dirs) dirs).

(** The directories of a plan's targets, the root excepted. *)
Definition target_dirs (plan : TreePlan) : gmap string bool :=
  foldl (λ m fp, let dir := Dir (fp_TargetPath fp) in
                 if bool_decide (dir = tp_RootDir plan) then m else <[dir := true]> m)
    ∅ (tp_Files plan).

Definition Rollback (r : MapRange) (plan : option TreePlan) (fs : FS) : FS * option string :=
  match plan with
  | None => (fs, None)
  | Some plan => rollback (fp_TargetPath <$> tp_Files plan) (fst <$> range r 0 (target_dirs plan)) fs
  end.

(** ** The loop over the files of a plan *)

Inductive placed : Type :=
| Placed
| AlreadyThere
| Refused (msg : string).

Section create.
Context (place : FilePlan → FS → FS * placed) (joined : string → string → string).

Definition rollbackOnError (createdFiles createdDirs : list string) (err : string) (fs : FS) : FS * option string :=
  let '(fs, rollbackErr) := rollback createdFiles createdDirs fs in
  (fs, Some (match rollbackErr with Some e => joined err e | None => err end)).

Fixpoint create_files (rootDir : string) (files : list FilePlan) (createdFiles createdDirs : list string)
    (fs : FS) : FS * option string :=
  match files with
  | [] => (fs, None)
  | fp :: files =>
    let parentDir := Dir (fp_TargetPath fp) in
    let '(fs, createdDirs, err) :=
      if bool_decide (parentDir = rootDir) then (fs, createdDirs, None)
      else let '(fs, err) := MkdirAll (at_path parentDir) fs in
           (fs, match err with
                | Some _ => createdDirs
                | None => if bool_decide (parentDir ∈ createdDirs) then createdDirs else createdDirs ++ [parentDir]
                end, err) in
    match err with
    | Some msg => rollbackOnError createdFiles createdDirs ("create directory " +++ parentDir +++ (": " +++ msg)) fs
    | None =>
      match place fp fs with
      | (fs, AlreadyThere) => create_files rootDir files createdFiles createdDirs fs
      | (fs, Refused msg) => rollbackOnError createdFiles createdDirs msg fs
      | (fs, Placed) => create_files rootDir files (createdFiles ++ [fp_TargetPath fp]) createdDirs fs
      end
    end
  end.

Definition check_plan (plan : option TreePlan) : TreePlan + string :=
  match plan with
  | None => inr "plan is nil"
  | Some plan =>
    if bool_decide (tp_RootDir plan = "") then inr "plan root directory is empty"
    else if bool_decide (length (tp_Files plan) = 0%nat) then inr "plan has no files"
    else inl plan
  end.

Definition create_tree (plan : TreePlan) (fs : FS) : FS * option string :=
  match MkdirAll (at_path (tp_RootDir plan)) fs with
  | (fs, Some msg) => (fs, Some ("create root directory " +++ tp_RootDir plan +++ (": " +++ msg)))
  | (fs, None) => create_files (tp_RootDir plan) (tp_Files plan) [] [] fs
  end.
End create.

(** ** Hard links *)

Definition place_hardlink (fp : FilePlan) (fs : FS) : FS * placed :=
  let target := at_path (fp_TargetPath fp) in
  let source := at_path (fp_SourcePath fp) in
  match Lstat (sys_faults sys) fs target with
  | inl e =>
    (fs, if match e, Stat fs source with
            | EFile (Some info), Some srcInfo => SameFile srcInfo info
            | _, _ => false
            end
         then AlreadyThere else Refused ("target already exists: " +++ fp_TargetPath fp))
  | inr (OtherError msg) => (fs, Refused ("check target " +++ fp_TargetPath fp +++ (": " +++ msg)))
  | inr NotExist =>
    match Link source target fs with
    | (fs, None) => (fs, Placed)
    | (fs, Some msg) =>
      (fs, Refused ("hardlink " +++ fp_SourcePath fp +++ (" -> " +++ (fp_TargetPath fp +++ (": " +++ msg)))))
    end
  end.

Definition Create (plan : option TreePlan) (fs : FS) : FS * option string :=
  match check_plan plan with
  | inr msg => (fs, Some msg)
  | inl plan =>
    create_tree place_hardlink (λ err e, err +++ (" (rollback also failed: " +++ (e +++ ")"))) plan fs
  end.

(** ** Clones (reflink.go, reflink_linux.go) *)

Definition reflinkCloneRetryAttempts : nat := 5.
Definition reflinkCloneRetryBaseDelay : Z := 25 * Millisecond.

Definition shouldRetryCloneError (e : errno) : bool :=
  match e with EAGAIN | EINVAL => true | _ => false end.
Definition shouldTryCloneRange (e : errno) : bool :=
  match e with EOPNOTSUPP | ENOTTY | ENOSYS => true | _ => false end.

(** The end of the attempts: done, given up after the last one, or failed with
    an error that is not worth a retry; and the pauses on the way.  The last attempt
    never falls through. *)
Inductive attempts_end : Type :=
| Cloned
| Exhausted (e : errno)
| Failed (e : errno).

Fixpoint clone_attempts (src dst : path) (attempt remaining : nat) (pauses : list Z) : attempts_end * list Z :=
  match remaining with
  | O => (Cloned, pauses)
  | S remaining =>
    match file_clone sys src dst attempt with
    | None => (Cloned, pauses)
    | Some e =>
      if shouldRetryCloneError e then
        if bool_decide (attempt = reflinkCloneRetryAttempts - 1)%nat then (Exhausted e, pauses)
        else clone_attempts src dst (S attempt) remaining
               (pauses ++ [(reflinkCloneRetryBaseDelay * 2 ^ Z.of_nat attempt)%Z])
      else (Failed e, pauses)
    end
  end.

Definition clone_error (src dst : string) : option string :=
  match (clone_attempts (at_path src) (at_path dst) 0 reflinkCloneRetryAttempts []).1 with
  | Cloned => None
  | Exhausted e =>
    Some ("ioctl FICLONE: " +++ (errno_text sys e +++ (" (retries exhausted)" +++ diagnostics sys src dst)))
  | Failed e =>
    if shouldTryCloneRange e then
      match file_clone_range sys (at_path src) (at_path dst) with
      | None => None
      | Some e => Some ("ioctl FICLONERANGE: " +++ (errno_text sys e +++ diagnostics sys src dst))
      end
    else Some ("ioctl FICLONE: " +++ (errno_text sys e +++ diagnostics sys src dst))
  end.

Definition cloneFile (src dst : string) (fs : FS) : FS * option string :=
  match fs !! at_path src with
  | None => (fs, Some "open source: no such file or directory")
  | Some _ =>
    match open_fault sys (at_path src) with
    | Some msg => (fs, Some ("open source: " +++ msg))
    | None =>
      match create_new (at_path dst) fs with
      | (fs, Some msg) => (fs, Some ("create destination: " +++ msg))
      | (fs, None) =>
        match clone_error src dst with
        | None => (fs, None)
        | Some msg => ((Remove (sys_faults sys) fs (at_path dst)).1, Some msg)
        end
      end
    end
  end.

(** [suffix] is the random part of the names of the probe. *)
Definition SupportsReflink (dir suffix : string) (fs : FS) : FS * (bool * string) :=
  match MkdirAll (at_path dir) fs with
  | (fs, Some msg) => (fs, (false, "cannot access directory: " +++ msg))
  | (fs, None) =>
    let srcPath := PathJoin [dir; ".reflink_probe_src_" +++ suffix] in
    let remove (p : string) (fs : FS) := (Remove (sys_faults sys) fs (at_path p)).1 in
    match create_new (at_path srcPath) fs with
    | (fs, Some msg) => (fs, (false, "cannot create temp file: " +++ msg))
    | (fs, None) =>
      match write_fault sys (at_path srcPath) with
      | Some msg => (remove srcPath fs, (false, "cannot write to temp file: " +++ msg))
      | None =>
        let dstPath := PathJoin [dir; ".reflink_probe_dst_" +++ suffix] in
        let '(fs, err) := cloneFile srcPath dstPath fs in
        (remove srcPath (remove dstPath fs),
         match err with
         | Some msg => (false, "reflink not supported: " +++ msg)
         | None => (true, "reflink supported")
         end)
      end
    end
  end.

Definition place_reflink (fp : FilePlan) (fs : FS) : FS * placed :=
  match Lstat (sys_faults sys) fs (at_path (fp_TargetPath fp)) with
  | inl _ => (fs, Refused ("target already exists: " +++ fp_TargetPath fp))
  | inr (OtherError msg) => (fs, Refused ("check target " +++ fp_TargetPath fp +++ (": " +++ msg)))
  | inr NotExist =>
    match cloneFile (fp_SourcePath fp) (fp_TargetPath fp) fs with
    | (fs, None) => (fs, Placed)
    | (fs, Some msg) =>
      (fs, Refused ("reflink " +++ fp_SourcePath fp +++ (" -> " +++ (fp_TargetPath fp +++ (": " +++ msg)))))
    end
  end.

Definition CreateReflinks (suffix : string) (plan : option TreePlan) (fs : FS) : FS * option string :=
  match check_plan plan with
  | inr msg => (fs, Some msg)
  | inl plan =>
    match SupportsReflink (tp_RootDir plan) suffix fs with
    | (fs, (false, reason)) =>
      (fs, Some ("reflink not supported on this platform or filesystem: " +++ reason))
    | (fs, (true, _)) =>
      create_tree place_reflink (λ err e, err +++ (String "010" ("rollback also failed: " +++ e))) plan fs
    end
  end.

(** ** The order of the rollback *)

Lemma exchange_spec x l m r :
  exchange x l = (m, r) →
  m :: r ≡ₚ x :: l ∧ (String.length x ≤ String.length m)%nat ∧
  Forall (λ y, String.length y ≤ String.length m)%nat r.
Proof.
  revert x m r. induction l as [|y l IH]; intros x m r; cbn [exchange].
  { intros [= <- <-]. split_and!; [done|lia|constructor]. }
  destruct (String.length x <? String.length y)%nat eqn:Hlt.
  - apply Nat.ltb_lt in Hlt. destruct (exchange y l) as [m' r'] eqn:E. intros [= <- <-].
    apply IH in E as (Hp & Hle & Hall). split_and!; [|lia|].
    + by rewrite (Permutation_swap x m'), Hp.
    + constructor; [lia|done].
  - apply Nat.ltb_ge in Hlt. destruct (exchange x l) as [m' r'] eqn:E. intros [= <- <-].
    apply IH in E as (Hp & Hle & Hall). split_and!; [|lia|].
    + by rewrite (Permutation_swap y m'), Hp, (Permutation_swap x y).
    + constructor; [lia|done].
Qed.

Lemma exchange_sort_perm fuel l : exchange_sort fuel l ≡ₚ l.
Proof.
  revert l. induction fuel as [|fuel IH]; intros [|x l]; cbn [exchange_sort]; [done..|].
  destruct (exchange x l) as [m r] eqn:E. apply exchange_spec in E as (Hp & _). by rewrite IH.
Qed.

(** The rollback removes a directory before those with shorter paths, so before
    the ones above it. *)
Lemma exchange_sort_sorted fuel l :
  (length l ≤ fuel)%nat → StronglySorted (λ a b, String.length b ≤ String.length a)%nat (exchange_sort fuel l).
Proof.
  revert l. induction fuel as [|fuel IH]; intros [|x l] Hl; cbn [exchange_sort] in *; [constructor|cbn in Hl; lia|constructor|].
  destruct (exchange x l) as [m r] eqn:E. apply exchange_spec in E as (Hp & _ & Hall).
  apply Permutation_length in Hp. cbn in Hp, Hl. constructor; [apply IH; lia|].
  by rewrite exchange_sort_perm.
Qed.

(** ** What a rollback restores *)

Definition same_files (fs0 fs : FS) : Prop :=
  ∀ p e, is_dir e = false → fs !! p = Some e ↔ fs0 !! p = Some e.

#[export] Instance same_files_equiv : Equivalence same_files.
Proof.
  split.
  - by intros fs p e He.
  - intros fs1 fs2 Hs p e He. symmetry. by apply Hs.
  - intros fs1 fs2 fs3 H1 H2 p e He. by rewrite (H2 p e He), (H1 p e He).
Qed.

(** Only directories were added. *)
Definition dirs_added (fs fs' : FS) : Prop :=
  fs ⊆ fs' ∧ ∀ p e, fs' !! p = Some e → fs !! p = Some e ∨ e = EDir None.

Lemma dirs_added_refl fs : dirs_added fs fs.
Proof. unfold dirs_added, FS in *. split; [reflexivity|intros p e Hp; by left]. Qed.

Lemma dirs_added_insert fs p : fs !! p = None → dirs_added fs (<[p := EDir None]> fs).
Proof.
  unfold dirs_added, FS in *. intros Hp. split; [by apply insert_subseteq|].
  intros q e. destruct (decide (p = q)) as [<-|]; [rewrite lookup_insert_eq|rewrite lookup_insert_ne by done].
  - intros [= <-]. by right.
  - by left.
Qed.

Lemma dirs_added_trans fs1 fs2 fs3 : dirs_added fs1 fs2 → dirs_added fs2 fs3 → dirs_added fs1 fs3.
Proof.
  intros [H1 H1'] [H2 H2']. split; [by etrans|].
  intros p e [Hp|]%H2'; [|by right]. by apply H1'.
Qed.

Lemma dirs_added_same fs fs' : dirs_added fs fs' → same_files fs fs'.
Proof.
  intros [Hs Hn] p e He. unfold FS in *. split.
  - intros Hp%Hn. destruct Hp as [?| ->]; [done|done].
  - intros Hp. by eapply lookup_weaken.
Qed.

Lemma mkdir_steps_spec ps fs fs' r :
  mkdir_steps ps fs = (fs', r) →
  dirs_added fs fs' ∧ (r = None → ∀ p, p ∈ ps → ∃ err, fs' !! p = Some (EDir err)).
Proof.
  revert fs. induction ps as [|p ps IH]; intros fs; cbn [mkdir_steps].
  { intros [= <- <-]. split; [apply dirs_added_refl|]. by intros _ p ?%elem_of_nil. }
  destruct (fs !! p) as [e|] eqn:Hp.
  - destruct e as [| |err]; cbn [is_dir]; [intros [= <- <-]; split; [apply dirs_added_refl|done]..|].
    intros Hm. apply IH in Hm as [Ha Hd]. split; [done|].
    intros Hr q [->|Hq]%elem_of_cons; [|by apply Hd]. destruct Ha as [Hs _]. unfold FS in *.
    exists err. by eapply lookup_weaken.
  - destruct (mkdir_fault sys p); [intros [= <- <-]; split; [apply dirs_added_refl|done]|].
    intros Hm. apply IH in Hm as [Ha Hd]. split; [by eapply dirs_added_trans; [apply dirs_added_insert|]|].
    intros Hr q [->|Hq]%elem_of_cons; [|by apply Hd]. destruct Ha as [Hs _]. unfold FS in *.
    exists None. eapply lookup_weaken; [|done]. apply lookup_insert_eq.
Qed.

Lemma MkdirAll_spec p fs fs' r :
  MkdirAll p fs = (fs', r) → dirs_added fs fs' ∧ (r = None → ∃ err, fs' !! p = Some (EDir err)).
Proof.
  unfold MkdirAll. intros Hm. apply mkdir_steps_spec in Hm as [Ha Hd]. split; [done|].
  intros Hr. apply Hd; [done|]. apply list_elem_of_fmap. exists (length p). split; [by rewrite firstn_all|].
  apply elem_of_seq. lia.
Qed.

Lemma Remove_file fs p e :
  fs !! p = Some e → is_dir e = false →
  Remove (sys_faults sys) fs p =
  match remove_fault (sys_faults sys) p with
  | Some msg => (fs, Some (OtherError msg))
  | None => (delete p fs, None)
  end.
Proof. intros Hp He. unfold Remove. rewrite Hp, He. done. Qed.

(** Removing what is a directory, if anything, keeps every file. *)
Lemma Remove_no_file fs p :
  (∀ e, fs !! p = Some e → is_dir e = true) →
  (Remove (sys_faults sys) fs p).1 ⊆ fs ∧ same_files fs (Remove (sys_faults sys) fs p).1.
Proof.
  intros Hd. unfold Remove, same_files, FS in *. destruct (remove_fault _ _); [done|].
  destruct (fs !! p) as [e|] eqn:Hp; [|done]. destruct (_ && _); [done|]. cbn [fst].
  split; [apply delete_subseteq|]. intros q e' He'.
  destruct (decide (p = q)) as [<-|]; [|by rewrite lookup_delete_ne].
  rewrite lookup_delete_eq, Hp. split; [done|]. intros [= ->]. by rewrite Hd in He'.
Qed.

Definition delete_all (files : list string) (fs : FS) : FS := foldl (λ fs f, delete (at_path f) fs) fs files.

Lemma lookup_delete_all files fs p :
  delete_all files fs !! p = if bool_decide (p ∈ at_path <$> files) then None else fs !! p.
Proof.
  unfold delete_all, FS in *. revert fs. induction files as [|f files IH]; intros fs; [done|]. cbn [foldl fmap list_fmap].
  rewrite IH. destruct (decide (p = at_path f)) as [->|Hne].
  - rewrite (bool_decide_true (_ ∈ _ :: _)) by (by left). by rewrite lookup_delete_eq; case_bool_decide.
  - rewrite lookup_delete_ne by done.
    rewrite (bool_decide_ext (p ∈ at_path f :: (at_path <$> files)) (p ∈ at_path <$> files)); [done|].
    rewrite elem_of_cons. naive_solver.
Qed.

(** The state while a tree is made: what was there still is, and what is new are
    directories and the files recorded for the rollback. *)
Record making (fs0 fs : FS) (files dirs : list string) : Prop := {
  mk_old : fs0 ⊆ fs;
  mk_new p e : fs !! p = Some e → fs0 !! p = Some e ∨ e = EDir None ∨ p ∈ at_path <$> files;
  mk_made f : f ∈ files → fs0 !! at_path f = None ∧ ∃ e, fs !! at_path f = Some e ∧ is_dir e = false;
  mk_distinct : NoDup (at_path <$> files);
  mk_dirs d : d ∈ dirs → ∃ err, fs !! at_path d = Some (EDir err) }.

(** The files that can be removed, and the others. *)
Definition removes (f : string) : Prop := remove_fault (sys_faults sys) (at_path f) = None.
#[local] Instance removes_dec f : Decision (removes f).
Proof. unfold removes. apply _. Defined.

Lemma remove_files_spec files fs err :
  NoDup (at_path <$> files) →
  (∀ f, f ∈ files → ∃ e, fs !! at_path f = Some e ∧ is_dir e = false) →
  ∃ err', foldl remove_file (fs, err) files = (delete_all (filter removes files) fs, err') ∧
    (is_Some err ∨ (∃ f, f ∈ files ∧ ¬ removes f) → is_Some err').
Proof.
  revert fs err. induction files as [|f files IH]; intros fs err Hnd Hf.
  { exists err. split; [done|]. intros [?|(f & ?%elem_of_nil & _)]; done. }
  cbn [foldl]. inversion Hnd as [|?? Hnot Hnd']; subst. destruct (Hf f) as (e & He & Hd); [by left|].
  unfold remove_file at 2. cbn [fst snd]. rewrite (Remove_file fs _ e He Hd), filter_cons.
  destruct (decide (removes f)) as [Hr|Hr].
  - unfold removes in Hr. rewrite Hr. destruct (IH (delete (at_path f) fs) err) as (err' & E & Herr); [done| |].
    + intros g Hg. destruct (Hf g) as (e' & He' & ?); [by right|]. exists e'. split; [|done]. unfold FS in *.
      rewrite lookup_delete_ne; [done|]. intros Heq. apply Hnot. rewrite Heq. by apply list_elem_of_fmap_2.
    + exists err'. split; [exact E|].
      intros [?|(g & [->|?]%elem_of_cons & Hg)]; apply Herr; [by left|by destruct (Hg Hr)|right; eauto].
  - destruct (remove_fault _ _) as [msg|] eqn:Hfault; [|by destruct (Hr Hfault)].
    destruct (IH fs (first_error err ("remove file " +++ f +++ (": " +++ msg)))) as (err' & E & Herr);
      [done|intros g Hg; apply Hf; by right|]. exists err'. split; [exact E|]. intros _. apply Herr. left. by destruct err.
Qed.

Lemma remove_dirs_spec ds fs err :
  (∀ d e, d ∈ ds → fs !! at_path d = Some e → is_dir e = true) →
  let r := foldl remove_dir (fs, err) ds in r.1 ⊆ fs ∧ same_files fs r.1 ∧ (is_Some err → is_Some r.2).
Proof.
  cbv zeta. revert fs err. induction ds as [|d ds IH]; intros fs err Hd; [done|]. cbn [foldl].
  destruct (remove_dir (fs, err) d) as [fs1 err1] eqn:E.
  assert (fs1 = (Remove (sys_faults sys) fs (at_path d)).1 ∧ (is_Some err → is_Some err1)) as [-> Herr].
  { unfold remove_dir in E. cbn [fst snd] in E. destruct (Remove _ _ _) as [fs2 e]. injection E as <- <-. split; [done|].
    intros [m ->]. destruct e as [[|msg]|]; cbn; [done| |done]. by destruct (isDirNotEmpty _). }
  destruct (Remove_no_file fs (at_path d)) as [Hsub Hsame]; [intros e; apply Hd; by left|].
  destruct (IH (Remove (sys_faults sys) fs (at_path d)).1 err1) as (H1 & Hs & He).
  { intros d' e' Hin He'. apply (Hd d'); [by right|]. unfold FS in *. by eapply lookup_weaken. }
  split_and!; [unfold FS in *; by etrans|by etrans|auto].
Qed.

(** What is left of a run that failed: every file that was there, and of what is
    new only directories and files that could not be removed again, which the
    error then tells. *)
Definition undone (joined : string → string → string) (made : list path) (fs0 fs : FS) (msg : string) : Prop :=
  (∀ p e, is_dir e = false → fs0 !! p = Some e → fs !! p = Some e) ∧
  ∀ p e, fs !! p = Some e → fs0 !! p = Some e ∨ e = EDir None ∨
    p ∈ made ∧ is_Some (remove_fault (sys_faults sys) p) ∧ ∃ cause text, msg = joined cause text.

Lemma undone_weaken joined made made' fs0 fs msg :
  made ⊆ made' → undone joined made fs0 fs msg → undone joined made' fs0 fs msg.
Proof. intros Hs [Hold Hnew]. split; [done|]. intros p e [?|[?|(? & ?)]]%Hnew; auto 6. Qed.

Lemma undone_dirs joined made fs0 fs msg : dirs_added fs0 fs → undone joined made fs0 fs msg.
Proof.
  intros [Hs Hn]. unfold FS in *. split; [intros p e _ Hp; by eapply lookup_weaken|].
  intros p e [?|?]%Hn; auto.
Qed.

Lemma rollback_leaves fs0 fs files dirs fs' err :
  making fs0 fs files dirs → rollback files dirs fs = (fs', err) →
  (∀ p e, is_dir e = false → fs0 !! p = Some e → fs' !! p = Some e) ∧
  ∀ p e, fs' !! p = Some e → fs0 !! p = Some e ∨ e = EDir None ∨
    p ∈ at_path <$> files ∧ is_Some (remove_fault (sys_faults sys) p) ∧ is_Some err.
Proof.
  intros [Hold Hnew Hmade Hnd Hdirs]. unfold rollback.
  destruct (remove_files_spec files fs None) as (err1 & -> & Herr); [done|by intros f [_ ?]%Hmade|].
  set (fs1 := delete_all _ fs). set (ds := exchange_sort _ _). intros E.
  destruct (remove_dirs_spec ds fs1 err1) as (Hsub & Hsame & Herr').
  { intros d e Hd He. unfold ds in Hd. rewrite exchange_sort_perm in Hd. apply Hdirs in Hd as [er Hd].
    unfold fs1 in He. rewrite lookup_delete_all, Hd in He. case_bool_decide; [done|]. by injection He as <-. }
  cbv zeta in *. rewrite E in Hsub, Hsame, Herr'. cbn [fst snd] in *. unfold FS in *. split.
  - intros p e He Hp. apply Hsame; [done|]. unfold fs1. rewrite lookup_delete_all. case_bool_decide as Hin.
    + apply list_elem_of_fmap in Hin as (f & -> & [_ Hin]%list_elem_of_filter). apply Hmade in Hin as [Hf _]. by rewrite Hf in Hp.
    + by eapply lookup_weaken.
  - intros p e Hp. eapply lookup_weaken in Hp; [|exact Hsub]. unfold fs1 in Hp. rewrite lookup_delete_all in Hp.
    case_bool_decide as Hin; [done|]. apply Hnew in Hp as [?|[?|Hp]]; [auto..|]. do 2 right. split; [done|].
    apply list_elem_of_fmap in Hp as (f & -> & Hf).
    assert (¬ removes f) as Hr by (intros Hr; apply Hin, list_elem_of_fmap_2, list_elem_of_filter; done).
    split; [unfold removes in Hr; by destruct (remove_fault _ _)|]. apply Herr', Herr. right. eauto.
Qed.

(** ** Placing a file *)

(** What the loop relies on: only the target is made. *)
Definition placing (place : FilePlan → FS → FS * placed) : Prop :=
  ∀ fp fs fs' r, place fp fs = (fs', r) →
    match r with
    | Placed => fs !! at_path (fp_TargetPath fp) = None ∧
                ∃ e, is_dir e = false ∧ fs' = <[at_path (fp_TargetPath fp) := e]> fs
    | _ => fs' = fs
    end.

Lemma Lstat_missing fs p : Lstat (sys_faults sys) fs p = inr NotExist → fs !! p = None.
Proof.
  unfold Lstat. destruct (lstat_fault _ _); [done|]. by destruct (fs !! p).
Qed.

Lemma place_hardlink_placing : placing place_hardlink.
Proof.
  intros fp fs fs' r. unfold place_hardlink.
  destruct (Lstat _ _ _) as [e|[|msg]] eqn:Hl; [intros [= <- <-]; by repeat case_match; simplify_eq| |by intros [= <- <-]].
  apply Lstat_missing in Hl. unfold Link.
  destruct (fs !! at_path (fp_SourcePath fp)) as [e|]; [|by intros [= <- <-]].
  destruct (is_dir e) eqn:He; [by intros [= <- <-]|]. destruct (negb _); [by intros [= <- <-]|].
  rewrite Hl. destruct (link_fault _ _ _); intros [= <- <-]; [done|]. split; [done|]. by exists e.
Qed.

(** ** The loop *)

Section loop.
Context (place : FilePlan → FS → FS * placed) (joined : string → string → string).
Context (Hplace : placing place).
(** What holds of a file that was placed, and keeps holding. *)
Context (good : FilePlan → FS → Prop).
Context (good_grows : ∀ fp fs fs', fs ⊆ fs' → good fp fs → good fp fs').
Context (place_good : ∀ fp fs fs' r, place fp fs = (fs', r) → (∀ msg, r ≠ Refused msg) → good fp fs').

Lemma making_dirs fs0 fs fs' files dirs dirs' :
  making fs0 fs files dirs → dirs_added fs fs' →
  (∀ d, d ∈ dirs' → d ∈ dirs ∨ ∃ err, fs' !! at_path d = Some (EDir err)) →
  making fs0 fs' files dirs'.
Proof.
  intros [Hold Hnew Hmade Hnd Hdirs] [Hs Hn] Hd. unfold FS in *. split; [by etrans|..].
  - intros p e [?%Hnew| ->]%Hn; [done|]. right. by left.
  - intros f (? & e & ? & ?)%Hmade. split; [done|]. exists e. split; [by eapply lookup_weaken|done].
  - done.
  - intros d [[err ?]%Hdirs|?]%Hd; [exists err; by eapply lookup_weaken|done].
Qed.

Lemma making_placed fs0 fs files dirs f e :
  making fs0 fs files dirs → fs !! at_path f = None → is_dir e = false →
  making fs0 (<[at_path f := e]> fs) (files ++ [f]) dirs.
Proof.
  intros [Hold Hnew Hmade Hnd Hdirs] Hf He. unfold FS in *.
  assert (fs ⊆ <[at_path f := e]> fs) as Hs by (by apply insert_subseteq).
  assert (at_path f ∉ at_path <$> files) as Hfresh.
  { intros (g & Hg & (_ & e' & Hin & _)%Hmade)%list_elem_of_fmap. by rewrite <- Hg, Hf in Hin. }
  split; [by etrans|..]; unfold FS in *.
  - intros p e'. rewrite fmap_app, elem_of_app.
    destruct (decide (at_path f = p)) as [<-|]; [right; right; right; by left|].
    rewrite lookup_insert_ne by done. intros [?|[?|?]]%Hnew; eauto.
  - intros g [(? & e' & ? & ?)%Hmade| ->%list_elem_of_singleton]%elem_of_app.
    + split; [done|]. exists e'. split; [by eapply lookup_weaken|done].
    + split; [|exists e; by rewrite lookup_insert_eq].
      destruct (fs0 !! at_path f) eqn:E; [|done]. eapply lookup_weaken in E; [|done]. by rewrite Hf in E.
  - rewrite fmap_app. apply NoDup_app. split_and!; [done| |apply NoDup_singleton].
    intros p Hp ->%list_elem_of_singleton. done.
  - intros d [err ?]%Hdirs. exists err. by eapply lookup_weaken.
Qed.

Lemma rollbackOnError_spec fs0 fs files dirs err fs' r :
  making fs0 fs files dirs → rollbackOnError joined files dirs err fs = (fs', r) →
  ∃ msg, r = Some msg ∧ undone joined (at_path <$> files) fs0 fs' msg.
Proof.
  intros Hm. unfold rollbackOnError. destruct (rollback _ _ _) as [fs1 e] eqn:E. intros [= <- <-].
  destruct (rollback_leaves _ _ _ _ _ _ Hm E) as [Hold Hnew]. eexists. split; [done|]. split; [done|].
  intros p e' [?|[?|(? & ? & [text ->])]]%Hnew; [auto..|]. do 2 right. split_and!; [done|done|]. by exists err, text.
Qed.

Lemma create_files_spec root files : ∀ made dirs fs0 fs fs' r,
  making fs0 fs made dirs →
  create_files place joined root files made dirs fs = (fs', r) →
  match r with
  | Some msg => undone joined (at_path <$> made ++ (fp_TargetPath <$> files)) fs0 fs' msg
  | None => fs ⊆ fs' ∧ (∀ fp, fp ∈ files → good fp fs') ∧
            ∃ made' dirs', making fs0 fs' made' dirs' ∧ ∀ f, f ∈ made' → f ∈ made ∨ f ∈ fp_TargetPath <$> files
  end.
Proof.
  induction files as [|fp files IH]; intros made dirs fs0 fs fs' r Hm; cbn [create_files].
  { intros [= <- <-]. unfold FS in *. split; [done|]. split; [by intros fp ?%elem_of_nil|].
    exists made, dirs. split; [done|]. by left. }
  set (prep := if bool_decide _ then _ else _).
  assert (∃ fs1 dirs1 err, prep = (fs1, dirs1, err) ∧ fs ⊆ fs1 ∧ making fs0 fs1 made dirs1) as
    (fs1 & dirs1 & err & -> & Hs1 & Hm1).
  { unfold prep, FS in *. case_bool_decide; [by exists fs, dirs, None|].
    destruct (MkdirAll _ fs) as [fs1 err] eqn:Hmk. apply MkdirAll_spec in Hmk as [Ha Hd].
    eexists fs1, _, err. split; [done|]. split; [apply Ha|]. eapply making_dirs; [done..|].
    intros d Hin. destruct err; [by left|]. case_bool_decide; [by left|].
    apply elem_of_app in Hin as [?| ->%list_elem_of_singleton]; [by left|]. right. by apply Hd. }
  destruct err as [msg|].
  { intros Hr. apply (rollbackOnError_spec fs0) in Hr as (m & -> & Hu); [|done].
    eapply undone_weaken; [|exact Hu]. rewrite fmap_app. set_solver. }
  destruct (place fp fs1) as [fs2 p] eqn:Hp. pose proof (Hplace _ _ _ _ Hp) as Hlaw.
  assert (match p with
          | Refused _ => True
          | _ => ∀ made1, making fs0 fs2 made1 dirs1 → fs1 ⊆ fs2 →
                 (∀ f, f ∈ made1 → f ∈ made ∨ f = fp_TargetPath fp) →
                 create_files place joined root files made1 dirs1 fs2 = (fs', r) →
                 match r with
                 | Some msg => undone joined (at_path <$> made ++ (fp_TargetPath <$> fp :: files)) fs0 fs' msg
                 | None => fs ⊆ fs' ∧ (∀ fp0, fp0 ∈ fp :: files → good fp0 fs') ∧
                     ∃ made' dirs', making fs0 fs' made' dirs' ∧
                       ∀ f, f ∈ made' → f ∈ made ∨ f ∈ fp_TargetPath <$> fp :: files
                 end
          end) as Hrest.
  { destruct p; try done.
    all: intros made1 Hm2 Hs2 Hmade Hc; specialize (IH made1 dirs1 fs0 fs2 fs' r Hm2 Hc);
      destruct r;
      [eapply undone_weaken; [|exact IH]; intros q (f & -> & [[?| ->]%Hmade|?]%elem_of_app)%list_elem_of_fmap;
         apply list_elem_of_fmap_2, elem_of_app; [by left|right; by left|right; by right]|];
      destruct IH as (Hs3 & Hg & made' & dirs' & Hm3 & Hin); unfold FS in *;
      (split; [by do 2 (etrans; [done|])|]); (split;
        [intros fp0 [->|?]%elem_of_cons; [eapply good_grows, place_good; [exact Hs3|exact Hp|done]|by apply Hg]|]);
      exists made', dirs'; split; [done|]; intros f [Hf|Hf]%Hin;
      [apply Hmade in Hf as [?| ->]; [by left|right; by left]|right; by right]. }
  destruct p as [| |msg].
  - destruct Hlaw as (Hnone & e & He & ->). apply Hrest.
    + by apply making_placed.
    + unfold FS in *. by apply insert_subseteq.
    + intros f [?| ->%list_elem_of_singleton]%elem_of_app; [by left|by right].
  - subst. apply Hrest; [done|done|by left].
  - subst. intros Hr. apply (rollbackOnError_spec fs0) in Hr as (m & -> & Hu); [|done].
    eapply undone_weaken; [|exact Hu]. rewrite fmap_app. set_solver.
Qed.

Lemma create_tree_spec plan fs0 fs fs' r :
  dirs_added fs0 fs → create_tree place joined plan fs = (fs', r) →
  match r with
  | Some msg => undone joined ((λ fp, at_path (fp_TargetPath fp)) <$> tp_Files plan) fs0 fs' msg
  | None => fs ⊆ fs' ∧ (∀ fp, fp ∈ tp_Files plan → good fp fs') ∧
      ∀ p e, fs' !! p = Some e → fs0 !! p = Some e ∨ e = EDir None ∨
        ∃ fp, fp ∈ tp_Files plan ∧ p = at_path (fp_TargetPath fp)
  end.
Proof.
  intros H0. unfold create_tree. destruct (MkdirAll _ fs) as [fs1 [msg|]] eqn:Hmk;
    apply MkdirAll_spec in Hmk as [Ha _]; pose proof (dirs_added_trans _ _ _ H0 Ha) as H1.
  { intros [= <- <-]. by apply undone_dirs. }
  intros Hc. assert (making fs0 fs1 [] []) as Hm.
  { destruct H1 as [Hs Hn]. split; [done| |by intros ? ?%elem_of_nil|constructor|by intros ? ?%elem_of_nil].
    intros p e [?|?]%Hn; eauto. }
  pose proof (create_files_spec _ _ _ _ _ _ _ _ Hm Hc) as Hr.
  destruct r; [cbn [app] in Hr; by rewrite <- list_fmap_compose in Hr|].
  destruct Hr as (Hs & Hg & made' & dirs' & [_ Hnew _ _ _] & Hin). destruct Ha as [Ha _]. unfold FS in *.
  split; [by etrans|]. split; [done|]. intros p e [?|[?|(f & -> & Hf)%list_elem_of_fmap]]%Hnew; [eauto..|].
  do 2 right. apply Hin in Hf as [?%elem_of_nil|(fp & -> & ?)%list_elem_of_fmap]; [done|eauto].
Qed.
End loop.

(** ** Trees are made in full or not at all *)

(** The target is the source: the same entry, or a file of the same inode. *)
Definition linked (fp : FilePlan) (fs : FS) : Prop :=
  ∃ e, fs !! at_path (fp_TargetPath fp) = Some e ∧ is_dir e = false ∧
    (fs !! at_path (fp_SourcePath fp) = Some e ∨
     ∃ info srcInfo, e = EFile (Some info) ∧ Stat fs (at_path (fp_SourcePath fp)) = Some srcInfo ∧
       SameFile srcInfo info = true).

Lemma Stat_grows fs fs' p info : fs ⊆ fs' → Stat fs p = Some info → Stat fs' p = Some info.
Proof.
  unfold Stat, FS in *. intros Hs Hp. destruct (fs !! p) as [e|] eqn:He; [|done].
  by rewrite (lookup_weaken _ _ _ _ He Hs).
Qed.

Lemma linked_grows fp fs fs' : fs ⊆ fs' → linked fp fs → linked fp fs'.
Proof.
  intros Hs (e & He & Hd & Hsrc). exists e. pose proof Hs as Hs'. unfold FS in *.
  split; [by eapply lookup_weaken|]. split; [done|].
  destruct Hsrc as [Hsrc|(info & srcInfo & -> & Hst & Hsame)]; [left; by eapply lookup_weaken|right].
  exists info, srcInfo. split; [done|]. split; [|done]. by eapply Stat_grows.
Qed.

Lemma place_hardlink_linked fp fs fs' r :
  place_hardlink fp fs = (fs', r) → (∀ msg, r ≠ Refused msg) → linked fp fs'.
Proof.
  unfold place_hardlink. intros Hp Hr. destruct (Lstat _ _ _) as [e|[|msg]] eqn:Hl.
  - apply Lstat_inl in Hl. destruct e as [[info|]| |]; try (injection Hp as <- <-; by edestruct Hr).
    destruct (Stat fs _) as [srcInfo|] eqn:Hst; [|injection Hp as <- <-; by edestruct Hr].
    destruct (SameFile srcInfo info) eqn:Hsame; injection Hp as <- <-; [|by edestruct Hr].
    eexists. split; [done|]. split; [done|]. right. by exists info, srcInfo.
  - apply Lstat_missing in Hl. unfold Link in Hp.
    destruct (fs !! at_path (fp_SourcePath fp)) as [e|] eqn:Hsrc; [|injection Hp as <- <-; by edestruct Hr].
    destruct (is_dir e) eqn:He; [injection Hp as <- <-; by edestruct Hr|].
    destruct (negb _); [injection Hp as <- <-; by edestruct Hr|]. rewrite Hl in Hp.
    destruct (link_fault _ _ _); injection Hp as <- <-; [by edestruct Hr|]. unfold linked, FS in *.
    exists e. rewrite lookup_insert_eq. split; [done|]. split; [done|]. left.
    rewrite lookup_insert_ne; [done|]. intros Heq. by rewrite Heq, Hsrc in Hl.
  - injection Hp as <- <-. by edestruct Hr.
Qed.

(** What a run on a plan leads to: what there was and what could not be removed
    when it fails, and the whole tree beside what there was when it succeeds. *)
Definition made_or_undone (joined : string → string → string) (good : FilePlan → FS → Prop) (plan : TreePlan) (fs fs' : FS)
    (err : option string) : Prop :=
  match err with
  | Some msg => undone joined ((λ fp, at_path (fp_TargetPath fp)) <$> tp_Files plan) fs fs' msg
  | None =>
    fs ⊆ fs' ∧ (∀ fp, fp ∈ tp_Files plan → good fp fs') ∧
    ∀ p e, fs' !! p = Some e → fs !! p = Some e ∨ e = EDir None ∨
      ∃ fp, fp ∈ tp_Files plan ∧ p = at_path (fp_TargetPath fp)
  end.

(** When everything can be removed: the files as before, or the whole tree. *)
Definition all_or_nothing (good : FilePlan → FS → Prop) (plan : TreePlan) (fs fs' : FS) (err : option string) : Prop :=
  match err with
  | Some _ => same_files fs fs'
  | None => made_or_undone (λ a _, a) good plan fs fs' None
  end.

Definition rollback_failed (err e : string) : string := err +++ (" (rollback also failed: " +++ (e +++ ")")).

Lemma check_plan_some plan plan' : check_plan (Some plan) = inl plan' → plan' = plan.
Proof. unfold check_plan. repeat case_bool_decide; [done..|]. by intros [= ->]. Qed.

Lemma Create_spec plan fs fs' r :
  Create (Some plan) fs = (fs', r) → made_or_undone rollback_failed linked plan fs fs' r.
Proof.
  unfold Create. destruct (check_plan (Some plan)) as [plan'|msg] eqn:Hc.
  - apply check_plan_some in Hc as ->. intros Ht.
    pose proof (create_tree_spec _ rollback_failed place_hardlink_placing linked linked_grows place_hardlink_linked
      _ _ _ _ _ (dirs_added_refl fs) Ht) as Hr.
    unfold made_or_undone. by destruct r.
  - intros [= <- <-]. apply undone_dirs, dirs_added_refl.
Qed.

(** C26.  Making a tree of hard links either fails or succeeds.  When it fails,
    every file is still there as it was, and nothing else is but directories and
    links of the plan that could not be removed again; if there is one, the error
    says that the rollback failed too.  When it succeeds, every target is a link
    to its source, nothing that existed has changed, and nothing appeared but the
    targets and directories. *)
Theorem hardlinks_all_or_nothing (plan : TreePlan) (fs fs' : FS) (err : option string) :
  Create (Some plan) fs = (fs', err) → made_or_undone rollback_failed linked plan fs fs' err.
Proof. apply Create_spec. Qed.

(** ** When everything can be removed *)

Context (removable : ∀ p, remove_fault (sys_faults sys) p = None).

Lemma undone_same joined made fs0 fs msg : undone joined made fs0 fs msg → same_files fs0 fs.
Proof.
  intros [Hold Hnew] p e He. split; [|by apply Hold].
  intros [?|[->|(_ & [? Hf] & _)]]%Hnew; [done|done|]. by rewrite removable in Hf.
Qed.

(** ** Clones *)

Lemma cloneFile_spec src dst fs fs' r :
  cloneFile src dst fs = (fs', r) →
  match r with
  | None => fs !! at_path dst = None ∧ fs' = <[at_path dst := EFile (Some (new_info sys (at_path dst)))]> fs
  | Some _ => fs' = fs
  end.
Proof.
  unfold cloneFile, create_new. destruct (fs !! at_path src); [|by intros [= <- <-]].
  destruct (open_fault _ (at_path src)); [by intros [= <- <-]|].
  destruct (fs !! at_path dst) eqn:Hd; [by intros [= <- <-]|].
  destruct (negb _); [by intros [= <- <-]|]. destruct (open_fault _ _); [by intros [= <- <-]|].
  destruct (clone_error src dst); intros [= <- <-]; [|done]. unfold FS in *.
  erewrite Remove_file; [|apply lookup_insert_eq|done]. rewrite removable. exact (delete_insert_id fs _ _ Hd).
Qed.

Lemma place_reflink_spec fp fs fs' r :
  place_reflink fp fs = (fs', r) →
  match r with
  | Placed => fs !! at_path (fp_TargetPath fp) = None ∧
              fs' = <[at_path (fp_TargetPath fp) := EFile (Some (new_info sys (at_path (fp_TargetPath fp))))]> fs
  | AlreadyThere => False
  | Refused _ => fs' = fs
  end.
Proof.
  unfold place_reflink.
  destruct (Lstat _ _ _) as [e|[|msg]] eqn:Hl; [by intros [= <- <-]| |by intros [= <- <-]].
  destruct (cloneFile _ _ fs) as [fs1 err] eqn:Hc. apply cloneFile_spec in Hc.
  by destruct err; intros [= <- <-].
Qed.

Lemma place_reflink_placing : placing place_reflink.
Proof.
  intros fp fs fs' r H%place_reflink_spec. destruct r; [|done..]. destruct H as [? ->]. split; [done|]. by eexists (EFile _).
Qed.

Definition cloned (fp : FilePlan) (fs : FS) : Prop :=
  fs !! at_path (fp_TargetPath fp) = Some (EFile (Some (new_info sys (at_path (fp_TargetPath fp))))).

Lemma mkdir_steps_other ps fs p : p ∉ ps → (mkdir_steps ps fs).1 !! p = fs !! p.
Proof.
  revert fs. induction ps as [|q ps IH]; intros fs Hp; [done|]. cbn [mkdir_steps].
  destruct (fs !! q) as [e|]; [destruct (is_dir e); [apply IH; set_solver|done]|].
  destruct (mkdir_fault sys q); [done|]. rewrite IH by set_solver. unfold FS in *.
  rewrite lookup_insert_ne; [done|]. set_solver.
Qed.

(** The probe leaves nothing behind but the directory. *)
Lemma SupportsReflink_spec dir suffix fs fs' r :
  let dst := at_path (PathJoin [dir; ".reflink_probe_dst_" +++ suffix]) in
  dst ∉ ancestors (at_path dir) → fs !! dst = None →
  SupportsReflink dir suffix fs = (fs', r) → dirs_added fs fs'.
Proof.
  intros dst Hout Hdst. unfold SupportsReflink. fold dst.
  pose proof (mkdir_steps_other (ancestors (at_path dir)) fs dst Hout) as Ho.
  change (mkdir_steps _ fs) with (MkdirAll (at_path dir) fs) in Ho.
  destruct (MkdirAll _ fs) as [fs1 err1] eqn:Hmk. apply MkdirAll_spec in Hmk as [Ha _]. cbn [fst] in Ho.
  rewrite Hdst in Ho. destruct err1 as [msg|]; [by intros [= <- _]|].
  set (srcPath := PathJoin [dir; ".reflink_probe_src_" +++ suffix]).
  set (dstPath := PathJoin [dir; ".reflink_probe_dst_" +++ suffix]). cbn zeta.
  destruct (create_new (at_path srcPath) fs1) as [fs2 err2] eqn:Hnew.
  unfold create_new in Hnew. destruct (fs1 !! at_path srcPath) eqn:Hsrc; [injection Hnew as <- <-; by intros [= <- _]|].
  destruct (negb _); [injection Hnew as <- <-; by intros [= <- _]|].
  destruct (open_fault _ _); injection Hnew as <- <-; [by intros [= <- _]|].
  set (e := EFile _). pose proof (lookup_insert_eq fs1 (at_path srcPath) e) as Hs2.
  pose proof (delete_insert_id fs1 (at_path srcPath) e Hsrc) as Hdel.
  assert (Remove (sys_faults sys) (<[at_path srcPath := e]> fs1) (at_path srcPath) = (fs1, None)) as Hrm.
  { etrans; [exact (Remove_file _ _ e Hs2 eq_refl)|]. rewrite removable. by f_equal. }
  destruct (write_fault _ _); [intros [= <- _]; by rewrite Hrm|].
  destruct (cloneFile srcPath dstPath _) as [fs3 err3] eqn:Hc. apply cloneFile_spec in Hc. intros [= <- _].
  assert ((Remove (sys_faults sys) fs1 (at_path srcPath)).1 = fs1) as Hgone.
  { unfold Remove. by rewrite removable, Hsrc. }
  destruct err3 as [msg|].
  - subst fs3. change (at_path dstPath) with dst. destruct (decide (dst = at_path srcPath)) as [Heq|Hne].
    + rewrite Heq, Hrm. cbn [fst]. by rewrite Hgone.
    + assert ((Remove (sys_faults sys) (<[at_path srcPath := e]> fs1) dst).1 = <[at_path srcPath := e]> fs1) as ->.
      { unfold Remove, FS in *. by rewrite removable, lookup_insert_ne, Ho. }
      by rewrite Hrm.
  - destruct Hc as [Hd ->]. fold dst in Hd |- *. set (d := EFile _).
    rewrite (Remove_file _ dst d (lookup_insert_eq _ _ _) eq_refl), removable. cbn [fst].
    rewrite (delete_insert_id (<[at_path srcPath := e]> fs1) dst d Hd). by rewrite Hrm.
Qed.

Lemma cloned_grows fp fs fs' : fs ⊆ fs' → cloned fp fs → cloned fp fs'.
Proof. unfold cloned, FS in *. intros Hs Hc. by eapply lookup_weaken. Qed.

Lemma place_reflink_cloned fp fs fs' r :
  place_reflink fp fs = (fs', r) → (∀ msg, r ≠ Refused msg) → cloned fp fs'.
Proof.
  intros Hp%place_reflink_spec Hr. destruct r as [| |msg]; [|done|by edestruct Hr].
  destruct Hp as [_ ->]. unfold cloned, FS in *. by rewrite lookup_insert_eq.
Qed.

(**  The same of a tree of clones, whatever the clone calls answer, if no file
    has the name of the probe. *)
Theorem clones_all_or_nothing (suffix : string) (plan : TreePlan) (fs fs' : FS) (err : option string) :
  at_path (PathJoin [tp_RootDir plan; ".reflink_probe_dst_" +++ suffix]) ∉ ancestors (at_path (tp_RootDir plan)) →
  fs !! at_path (PathJoin [tp_RootDir plan; ".reflink_probe_dst_" +++ suffix]) = None →
  CreateReflinks suffix (Some plan) fs = (fs', err) → all_or_nothing cloned plan fs fs' err.
Proof.
  intros Hout Hfree. unfold CreateReflinks. destruct (check_plan (Some plan)) as [plan'|msg] eqn:Hc.
  2: { intros [= <- <-]. cbn. reflexivity. }
  apply check_plan_some in Hc as ->.
  destruct (SupportsReflink _ _ fs) as [fs1 [ok reason]] eqn:Hs.
  apply SupportsReflink_spec in Hs; [|done..]. destruct ok.
  - intros Ht. pose proof (create_tree_spec _ _ place_reflink_placing cloned cloned_grows place_reflink_cloned
      _ _ _ _ _ Hs Ht) as Hr.
    unfold all_or_nothing. destruct err; [by eapply undone_same|]. destruct Hr as (Hsub & ? & ?). split; [|done].
    destruct Hs as [Hs _]. unfold FS in *. by etrans.
  - intros [= <- <-]. by apply dirs_added_same.
Qed.

(** The pauses between the attempts on a file add up to less than half a second. *)
Lemma clone_pauses_bounded src dst :
  (0 ≤ foldr Z.add 0 (clone_attempts src dst 0 reflinkCloneRetryAttempts []).2 < 500 * Millisecond)%Z.
Proof.
  unfold reflinkCloneRetryAttempts. cbn [clone_attempts].
  repeat match goal with
  | |- context [file_clone sys src dst ?n] =>
    destruct (file_clone sys src dst n) as [?e|]; [|by vm_compute];
    destruct (shouldRetryCloneError _); [|by vm_compute];
    first [rewrite bool_decide_false by done|rewrite bool_decide_true by done; by vm_compute]
  end.
Qed.

(** ** From the plan to the tree *)

(**  A tree of hard links made from a plan shows the torrent: for each of its
    files, what the layout expects at its place is a link to an existing file of
    its size. *)
Theorem torrent_laid_out `{!UnicodeCase} (cfs : list TorrentFile) (efs : list ExistingFile)
    (layout : ContentLayout) (torrentName destDir : string) (plan : TreePlan) (fs fs' : FS) :
  BuildPlan cwd cfs efs layout torrentName destDir = inl plan →
  Create (Some plan) fs = (fs', None) →
  ∀ cf, cf ∈ cfs → ∃ ef, ef ∈ efs ∧ ef_Size ef = tf_Size cf ∧
    linked (MkFilePlan (ef_AbsPath ef) (computeTargetPath (tf_Path cf) layout torrentName destDir)) fs'.
Proof.
  intros (files & Hp & ->)%BuildPlan_files (_ & Hlinked & _)%Create_spec cf Hcf.
  apply plan_files_spec in Hp as (chosen & Hlen & _ & _ & Hall & -> & _). cbn [tp_Files] in Hlinked.
  apply list_elem_of_lookup in Hcf as [k Hk].
  destruct (lookup_lt_is_Some_2 chosen k) as [i Hi]; [rewrite Hlen; by eapply lookup_lt_Some|].
  destruct (Hall k cf i Hk Hi) as (ef & Hef & Hsize & _).
  exists ef. split; [by eapply list_elem_of_lookup_2|]. split; [done|].
  apply Hlinked, elem_of_sort_by. assert (planned efs layout torrentName destDir cf i =
    MkFilePlan (ef_AbsPath ef) (computeTargetPath (tf_Path cf) layout torrentName destDir)) as <-.
  { unfold planned. by rewrite Hef. }
  apply (list_elem_of_lookup_2 _ k). by rewrite lookup_zip_with, Hk, Hi.
Qed.
End tree.

(** ** Runs *)

#[local] Existing Instance AsciiCase.

Definition inode (n : Z) : entry := EFile (Some (MkInfo 700 0 1 n 1)).

Definition healthy : System := {|
  sys_faults := no_faults; mkdir_fault _ := None; open_fault _ := None; write_fault _ := None;
  link_fault _ _ := None; follow _ := None; new_info _ := MkInfo 700 0 1 99 1;
  file_clone _ _ attempt := if (attempt <? 2)%nat then Some EAGAIN else None;
  file_clone_range _ _ := None; errno_text _ := ""; diagnostics _ _ := "" |}.

Definition disk : FS :=
  list_to_map [([], EDir None); (["tv"], EDir None); (["tv"; "a.mkv"], inode 1); (["tv"; "a.nfo"], inode 2);
               (["links"], EDir None); (["links"; "Show.S01"], EDir None)]%string.

Definition disk_linked : FS :=
  <[["links"; "Show.S01"; "Show.S01E01.mkv"]%string := inode 1]>
  (<[["links"; "Show.S01"; "Show.S01E01.nfo"]%string := inode 2]> disk).

Example tree_linked : Create "/" healthy (Some season_plan) disk = (disk_linked, None).
Proof. apply (bool_decide_eq_true_1 _). by vm_compute. Qed.

(** Carrying out the plan again finds the links already there. *)
Example linked_again : Create "/" healthy (Some season_plan) disk_linked = (disk_linked, None).
Proof. apply (bool_decide_eq_true_1 _). by vm_compute. Qed.

(** The second target exists as another file: the first link is removed again, but
    so is an empty directory that was there before. *)
Example existing_directory_removed :
  let plan := MkTreePlan "/links" [MkFilePlan "/tv/a.mkv" "/links/Show.S01/a.mkv"; MkFilePlan "/tv/a.mkv" "/tv/a.nfo"] in
  Create "/" healthy (Some plan) disk =
  (delete ["links"; "Show.S01"]%string disk, Some "target already exists: /tv/a.nfo"%string).
Proof. apply (bool_decide_eq_true_1 _). by vm_compute. Qed.

(** Of the directories made on the way to a target only the last is removed. *)
Example directories_left_behind :
  let plan := MkTreePlan "/links" [MkFilePlan "/tv/a.mkv" "/links/x/y/a.mkv"; MkFilePlan "/tv/a.mkv" "/tv/a.nfo"] in
  (Create "/" healthy (Some plan) disk).1 = <[["links"; "x"]%string := EDir None]> disk.
Proof. apply (bool_decide_eq_true_1 _). by vm_compute. Qed.

(** Undoing a plan also removes the links that were there before it was carried
    out. *)
Example rollback_of_a_plan :
  Rollback "/" healthy key_order (Some season_plan) disk_linked = (delete ["links"; "Show.S01"]%string disk, None).
Proof. apply (bool_decide_eq_true_1 _). by vm_compute. Qed.

Example tree_cloned :
  (CreateReflinks "/" healthy "1" (Some season_plan) disk).2 = None ∧
  clone_attempts healthy [] [] 0 reflinkCloneRetryAttempts [] = (Cloned, [25 * Millisecond; 50 * Millisecond]%Z).
Proof. by vm_compute. Qed.

(** A disk on which the link that was made cannot be removed again. *)
Definition sticky : System := {|
  sys_faults := {| lstat_fault _ := None; remove_fault p := if bool_decide (p = ["links"; "Show.S01"; "a.mkv"]%string) then Some "permission denied"%string else None;
                   remove_all_fault _ := None |};
  mkdir_fault _ := None; open_fault _ := None; write_fault _ := None;
  link_fault _ _ := None; follow _ := None; new_info _ := MkInfo 700 0 1 99 1;
  file_clone _ _ _ := None; file_clone_range _ _ := None; errno_text _ := ""; diagnostics _ _ := "" |}.

Definition second_target_taken : TreePlan :=
  MkTreePlan "/links" [MkFilePlan "/tv/a.mkv" "/links/Show.S01/a.mkv"; MkFilePlan "/tv/a.mkv" "/tv/a.nfo"].

Definition stuck_run : FS * option string := Create "/" sticky (Some second_target_taken) disk.

Lemma hardlinks_all_or_nothing_witness :
  made_or_undone "/" healthy rollback_failed (linked "/" healthy) season_plan disk disk_linked None ∧
  made_or_undone "/" sticky rollback_failed (linked "/" sticky) second_target_taken disk stuck_run.1 stuck_run.2 ∧
  stuck_run.1 !! ["links"; "Show.S01"; "a.mkv"]%string = Some (inode 1).
Proof.
  split; [|split].
  - apply (hardlinks_all_or_nothing "/" healthy). apply (bool_decide_eq_true_1 _). by vm_compute.
  - apply (hardlinks_all_or_nothing "/" sticky). apply surjective_pairing.
  - apply (bool_decide_eq_true_1 _). by vm_compute.
Defined.

Lemma clones_all_or_nothing_witness :
  all_or_nothing "/" healthy (cloned "/" healthy) season_plan disk_linked disk_linked
    (Some "target already exists: /links/Show.S01/Show.S01E01.mkv"%string).
Proof.
  apply (clones_all_or_nothing "/" healthy (λ p, eq_refl) "1").
  - by apply (bool_decide_eq_true_1 _); vm_compute.
  - by vm_compute.
  - apply (bool_decide_eq_true_1 _). by vm_compute.
Defined.

Lemma torrent_laid_out_witness :
  ∃ ef, ef ∈ season_on_disk ∧ ef_Size ef = 700%Z ∧
    linked "/" healthy (MkFilePlan (ef_AbsPath ef) "/links/Show.S01/Show.S01E01.mkv") disk_linked.
Proof.
  apply (torrent_laid_out "/" healthy season season_on_disk LayoutOriginal "Show.S01" "/links"
    season_plan disk disk_linked) with (cf := MkTorrentFile "Show.S01/Show.S01E01.mkv" 700); [by vm_compute| |by left].
  apply (bool_decide_eq_true_1 _). by vm_compute.
Defined.
