(* ===== verification/OrphanPaths.v ===== *)
(** * [internal/services/orphanscan]: paths in use and paths to leave alone

    Files of no torrent are found and deleted by the orphan scan.  This file
    models what protects the others: the map of the files of the torrents
    (filemap.go), the ignore rules (walker.go), and how the service builds the
    map and the roots to scan (service.go). *)

From Stdlib Require Import ZArith Lia Ascii.
From stdpp Require Import base numbers list strings gmap sorting pretty.
From S2P Require Import Prelude.
From S2P Require Import Order.
From S2P Require Import GoStrings.
From S2P Require Import GoPath.
From S2P Require Import FileSystem.
From S2P Require Import GoFloat.
From S2P Require Import Domain.

Open Scope qui_scope.

(** ** Normal forms of paths *)

(** [golang.org/x/text/unicode/norm]: the NFC form of a string. *)
Class NFC := { nfc_String : string → string }.
Definition PlainNFC : NFC := {| nfc_String s := s |}.

(** [utf8.ValidString]: decoding and encoding gives the string back. *)
Definition ValidString (s : string) : bool :=
  bool_decide (mjoin (encode_rune <$> runes (to_bytes s)) = to_bytes s).

(** A string in normal form is its own normal form, so that the test that the
    code makes first only saves work. *)
Definition normalizePath `{!NFC} (p : string) : string :=
  let p := Clean p in if ValidString p then nfc_String p else p.

Definition canonicalizeHash `{!UnicodeCase} (hash : string) : string := ToLower (TrimSpace hash).

(** ** The files of the torrents *)

Record TorrentFileMap := MkFileMap { fm_paths : gset string; fm_dirs : gset string }.
Definition NewTorrentFileMap : TorrentFileMap := MkFileMap ∅ ∅.

(** The directories above a path, from [dir] upwards; each is shorter than the
    one before. *)
Fixpoint add_dirs (fuel : nat) (dir : string) (dirs : gset string) : gset string :=
  match fuel with
  | O => dirs
  | S fuel =>
    if bool_decide (dir = ".") || bool_decide (dir = "/") then dirs else
    let dirs := {[dir]} ∪ dirs in
    let parent := Dir dir in
    if bool_decide (parent = dir) then dirs else add_dirs fuel parent dirs
  end.

Section map.
Context `{!NFC}.

Definition Add (p : string) (m : TorrentFileMap) : TorrentFileMap :=
  let n := normalizePath p in
  MkFileMap ({[n]} ∪ fm_paths m) (add_dirs (S (String.length n)) (Dir n) (fm_dirs m)).

Definition Has (m : TorrentFileMap) (p : string) : bool := bool_decide (p ∈ fm_paths m).
Definition HasAnyInDir (m : TorrentFileMap) (dirPath : string) : bool := bool_decide (dirPath ∈ fm_dirs m).
Definition Len (m : TorrentFileMap) : nat := size (fm_paths m).

(** The union, and how many paths are new. *)
Definition MergeFrom (m : TorrentFileMap) (other : option TorrentFileMap) : TorrentFileMap * nat :=
  match other with
  | None => (m, 0%nat)
  | Some other => (MkFileMap (fm_paths m ∪ fm_paths other) (fm_dirs m ∪ fm_dirs other),
                   size (fm_paths other ∖ fm_paths m))
  end.

(** ** File systems whose paths are in normal form *)

Section normal.
Context `{!NFC}.

(** The paths are in normal form already. *)
Definition normal_fs (fs : FS) : Prop :=
  ∀ q e, fs !! q = Some e → Forall plain q ∧ normalizePath (abs_path q) = abs_path q.

Lemma normal_fs_sub fs fs' : fs' ⊆ fs → normal_fs fs → normal_fs fs'.
Proof. intros Hs Hn q e Hq. eapply Hn. by eapply lookup_weaken. Qed.
End normal.

(** ** Ignored paths *)

(** Whether [child] is strictly below [parent]: both are normalised. *)
Definition isPathUnderNormalized (child parent : string) : bool :=
  if bool_decide (child = parent) then false
  else if negb (HasPrefix child parent) then false
  else bool_decide (to_bytes child !! length (to_bytes parent) = Some sep).

Definition isIgnoredPath (p : string) (ignorePaths : list string) : bool :=
  let normPath := normalizePath p in
  existsb (λ prefix, let normPrefix := normalizePath prefix in
    bool_decide (normPath = normPrefix) || isPathUnderNormalized normPath normPrefix) ignorePaths.

Definition isPathProtectedByIgnorePaths (p : string) (ignorePaths : list string) : bool :=
  isIgnoredPath p ignorePaths ||
  existsb (λ ignorePath, isPathUnderNormalized (normalizePath ignorePath) (normalizePath p)) ignorePaths.

Fixpoint NormalizeIgnorePaths (paths : list string) : result (list string) :=
  match paths with
  | [] => Ok []
  | p :: ps =>
    let cleaned := Clean p in
    if negb (IsAbs cleaned) then Err ("ignore path must be absolute: " +++ p)
    else let! rest := NormalizeIgnorePaths ps in Ok (normalizePath cleaned :: rest)
  end.

(** ** Roots *)

Definition isSameOrDescendantPath (p base : string) : bool :=
  let nPath := normalizePath p in
  let nBase := normalizePath base in
  bool_decide (nPath = nBase) || isPathUnderNormalized nPath nBase.

Definition filterScanRootsCoveredBySkippedRoots (scanRoots skippedRoots : list string) : list string :=
  Clean <$> filter (λ root, existsb (isSameOrDescendantPath root) skippedRoots = false) scanRoots.

Definition scanRootsOverlap (a b : list string) : bool :=
  existsb (λ ra, let na := normalizePath ra in
    negb (bool_decide (na = "")) &&
    existsb (λ rb, let nb := normalizePath rb in
      negb (bool_decide (nb = "")) &&
      (bool_decide (na = nb) || isPathUnderNormalized na nb || isPathUnderNormalized nb na)) b) a.

(** The longest root that contains the path. *)
Definition findScanRoot (p : string) (scanRoots : list string) : string :=
  let nPath := normalizePath p in
  foldl (λ longest root,
    let nRoot := normalizePath root in
    if negb (HasPrefix nPath nRoot) then longest
    else if bool_decide (String.length nRoot < String.length nPath)%nat &&
            negb (bool_decide (to_bytes nPath !! length (to_bytes nRoot) = Some sep)) then longest
    else if bool_decide (String.length longest < String.length root)%nat then root else longest)
    "" scanRoots.
End map.

Definition addAbsoluteScanRoot (scanRoots : gset string) (root : string) : gset string :=
  let root := Clean root in
  if bool_decide (root = "") || negb (IsAbs root) then scanRoots else {[root]} ∪ scanRoots.

Definition scanRootsFromTorrents (torrents : list Torrent) : gset string :=
  foldl (λ roots t, addAbsoluteScanRoot (addAbsoluteScanRoot roots (t_SavePath t)) (t_ContentPath t))
    ∅ torrents.

Definition sortedRoots (roots : gset string) : list string := sort_strings (elements roots).
Definition mergeRootLists (rootLists : list (list string)) : list string :=
  sortedRoots (list_to_set (Clean <$> mjoin rootLists)).

(** ** Building the map *)

(** The part of a file of a torrent that is read. *)
Record TorrentFile := MkTorrentFile { tf_Name : string }.
Definition TorrentFiles : Type := list TorrentFile.

Definition isTransientTorrentStateForOrphanScan (s : TorrentState) : bool :=
  bool_decide (s ∈ [TorrentStateMetaDl; TorrentStateCheckingResumeData; TorrentStateCheckingDl;
                    TorrentStateCheckingUp; TorrentStateAllocating; TorrentStateMoving]).

(** The loop of [torrentRootFolder]. *)
Fixpoint root_folder (acc : string) (files : TorrentFiles) : string :=
  match files with
  | [] => acc
  | f :: fs =>
    match Split (Clean (ReplaceByte "\"%char "/"%char (tf_Name f))) "/"%char with
    | first :: _ :: _ =>
      if bool_decide (acc = "") then root_folder first fs
      else if bool_decide (acc = first) then root_folder acc fs else ""
    | _ => ""
    end
  end.
Definition torrentRootFolder (files : TorrentFiles) : string := root_folder "" files.

(** [strings.TrimSuffix(contentPath, "/"+name)], or the parent directory when
    that changes nothing. *)
Definition trim_name (contentPath name : string) : option string :=
  let trimmed := TrimSuffix contentPath ("/" +++ name) in
  if bool_decide (trimmed = "") || bool_decide (trimmed = contentPath) then None else Some trimmed.

Definition actualSavePathFromContentPath (savePath contentPath : string) (files : TorrentFiles) : string :=
  let savePath := Clean savePath in
  let contentPath := Clean contentPath in
  match files with
  | [] => ""
  | first :: others =>
    if bool_decide (contentPath = "") || negb (IsAbs contentPath) then ""
    else if negb (bool_decide (savePath = "")) && IsAbs savePath && bool_decide (contentPath = savePath)
    then savePath
    else
      let by_first := default (Dir contentPath) (trim_name contentPath (Clean (tf_Name first))) in
      let actual :=
        match others with
        | [] => by_first
        | _ => let rootFolder := torrentRootFolder files in
               if bool_decide (rootFolder = "") then contentPath
               else default by_first (trim_name contentPath rootFolder)
        end in
      if bool_decide (actual = "") || negb (IsAbs actual) then "" else Clean actual
  end.

Record buildFileMapResult := MkBuild {
  bm_fileMap : TorrentFileMap; bm_scanRoots : list string; bm_skippedRoots : list string;
  bm_torrentCount : Z }.

(** What the loop over the torrents accumulates. *)
Record BuildState := MkBuildState {
  bs_map : TorrentFileMap; bs_scan : gset string; bs_skipped : gset string; bs_missing : nat }.

Section build.
Context `{!NFC, !UnicodeCase}.

Definition add_files (savePath : string) (files : TorrentFiles) (m : TorrentFileMap) : TorrentFileMap :=
  foldl (λ m f, Add (normalizePath (PathJoin [savePath; tf_Name f])) m) m files.

(** The body of the loop. *)
Definition build_torrent (filesByHash : gmap string TorrentFiles) (s : BuildState) (t : Torrent) : BuildState :=
  let savePath := Clean (t_SavePath t) in
  let hasAbsSavePath := negb (bool_decide (savePath = "")) && IsAbs savePath in
  match default [] (filesByHash !! canonicalizeHash (t_Hash t)) with
  | [] =>
    if isTransientTorrentStateForOrphanScan (t_State t) then
      if hasAbsSavePath then MkBuildState (bs_map s) (bs_scan s) ({[savePath]} ∪ bs_skipped s) (bs_missing s)
      else s
    else MkBuildState (bs_map s) (bs_scan s) (bs_skipped s) (S (bs_missing s))
  | files =>
    if negb hasAbsSavePath then s else
    let m := add_files savePath files (bs_map s) in
    let scan := {[savePath]} ∪ bs_scan s in
    let actualSavePath := actualSavePathFromContentPath savePath (t_ContentPath t) files in
    if negb (bool_decide (actualSavePath = "")) && negb (bool_decide (actualSavePath = savePath))
    then MkBuildState (add_files actualSavePath files m) ({[actualSavePath]} ∪ scan) (bs_skipped s) (bs_missing s)
    else MkBuildState m scan (bs_skipped s) (bs_missing s)
  end.

Definition buildFileMapFromTorrents (torrents : list Torrent) (filesByHash : gmap string TorrentFiles)
    : result buildFileMapResult :=
  let s := foldl (build_torrent filesByHash) (MkBuildState NewTorrentFileMap ∅ ∅ 0) torrents in
  if bool_decide (0 < bs_missing s)%nat
  then Err (pretty (N.of_nat (bs_missing s)) +++ " stable torrents returned no files - partial data detected")
  else
    let skippedRootList := sortedRoots (bs_skipped s) in
    Ok (MkBuild (bs_map s)
          (filterScanRootsCoveredBySkippedRoots (sortedRoots (bs_scan s)) skippedRootList)
          skippedRootList (Z.of_nat (length torrents))).
End build.

(** ** Lemmas on paths *)

Lemma append_cancel (p a b : string) : p +++ a = p +++ b → a = b.
Proof. apply (inj (String.append p)). Qed.

Lemma lookup_append (p r : string) (a : ascii) :
  to_bytes (p +++ r) !! length (to_bytes p) = Some a ↔ head (to_bytes r) = Some a.
Proof.
  rewrite to_bytes_app, lookup_app_r, Nat.sub_diag by lia. by destruct (to_bytes r).
Qed.

Lemma not_below_root cs r : Forall plain cs → abs_path cs ≠ "/" +++ ("/" +++ r).
Proof.
  intros Hcs E. unfold abs_path in E. apply append_cancel in E.
  destruct (decide (cs = [])) as [->|Hne]; [done|].
  pose proof (components_app "" r) as E'. change ("" +++ "/" +++ r) with ("/" +++ r) in E'.
  rewrite <- E, components_unsplit in E' by auto using plain_elements.
  rewrite E' in Hcs. inversion Hcs as [|?? [Hc _]]. done.
Qed.

(** One normalised absolute path is below another exactly when its components
    extend those of the other; nothing is below the root. *)
Lemma isPathUnder_abs cs ds :
  Forall plain cs → Forall plain ds →
  isPathUnderNormalized (abs_path cs) (abs_path ds) = true ↔ ds ≠ [] ∧ ∃ r, r ≠ [] ∧ cs = ds ++ r.
Proof.
  intros Hc Hd. unfold isPathUnderNormalized. split.
  - case_bool_decide as Hne; [done|]. destruct (HasPrefix _ _) eqn:Hp; [cbn [negb]|done].
    intros Hs%bool_decide_eq_true. apply HasPrefix_app in Hp as [r E]. rewrite E in Hs.
    apply lookup_append in Hs. destruct r as [|a r]; [done|]. injection Hs as ->.
    change (String sep r) with ("/" +++ r) in E.
    assert (HasPrefix (abs_path cs) (abs_path ds +++ "/") = true) as Hpre.
    { rewrite E, <- string_app_assoc. apply HasPrefix_of_app. }
    assert (ds ≠ []) as Hds.
    { intros ->. by apply (not_below_root cs r Hc). }
    split; [done|]. destruct (prefix_inside ds cs Hd Hc Hpre) as [E'|(rest & Hr & Hrp & E')]; [done|].
    exists rest. split; [done|]. apply abs_path_inj; [done|by apply Forall_app|].
    by rewrite E', abs_path_app.
  - intros (Hds & r & Hr & ->). rewrite abs_path_app by done.
    rewrite bool_decide_false, HasPrefix_of_app.
    + cbn [negb]. apply bool_decide_eq_true, lookup_append. done.
    + intros E. assert (abs_path ds +++ ("/" +++ unsplit r) = abs_path ds +++ "") as E'
        by (by rewrite string_app_nil_r). by apply append_cancel in E'.
Qed.

Lemma abs_path_length cs : Forall plain cs → (length cs ≤ String.length (abs_path cs))%nat.
Proof.
  intros Hcs. induction cs as [|c cs IH] using rev_ind; [simpl; lia|].
  apply Forall_app in Hcs as [Hcs Hc]. specialize (IH Hcs). rewrite length_app. cbn [length].
  destruct (decide (cs = [])) as [->|Hne]; [simpl; lia|].
  rewrite abs_path_app by done. unfold unsplit, Join. simpl String.concat.
  assert (∀ a b, String.length (a +++ b) = String.length a + String.length b)%nat as Hlen.
  { intros a b. induction a as [|x a IHa]; [done|]. simpl. by rewrite IHa. }
  rewrite !Hlen. assert (String.length "/" = 1%nat) as -> by done. lia.
Qed.

Lemma add_dirs_abs fuel cs dirs d :
  Forall plain cs → (length cs ≤ fuel)%nat →
  d ∈ add_dirs fuel (abs_path cs) dirs ↔ d ∈ dirs ∨ ∃ ds, ds ≠ [] ∧ ds `prefix_of` cs ∧ d = abs_path ds.
Proof.
  revert fuel dirs. induction cs as [|c cs IH] using rev_ind; intros fuel dirs Hcs Hfuel.
  { assert (add_dirs fuel (abs_path []) dirs = dirs) as -> by (by destruct fuel).
    split; [by left|]. intros [?|(ds & ? & Hp & _)]; [done|]. by apply prefix_nil_inv in Hp. }
  rewrite length_app in Hfuel. simpl in Hfuel. destruct fuel as [|fuel]; [lia|]. cbn [add_dirs].
  assert (abs_path (cs ++ [c]) ≠ "/") as Hroot.
  { intros E. change "/" with (abs_path []) in E. apply abs_path_inj in E; [by destruct cs|done|constructor]. }
  assert (abs_path (cs ++ [c]) ≠ ".") as Hdot by (intros E; discriminate E).
  rewrite (bool_decide_false _ Hdot), bool_decide_false by done. cbn [orb].
  rewrite Dir_abs by done. rewrite bool_decide_false.
  2: { intros E. apply Forall_app in Hcs as [Hcs' ?]. apply abs_path_inj in E; [|done|by apply Forall_app].
       apply (f_equal length) in E. rewrite length_app in E. simpl in E. lia. }
  pose proof Hcs as [Hcs' _]%Forall_app. rewrite IH by (done || lia).
  rewrite elem_of_union, elem_of_singleton. split.
  - intros [[->|?]|(ds & Hne & Hp & ->)]; [right|by left|right].
    + exists (cs ++ [c]). split_and!; [by destruct cs|done..].
    + exists ds. split_and!; [done|by apply prefix_app_r|done].
  - intros [?|(ds & Hne & Hp & ->)]; [by left; right|].
    destruct (decide (ds = cs ++ [c])) as [->|Hds]; [by left; left|].
    right. exists ds. split_and!; [done| |done].
    destruct Hp as [k E]. destruct k as [|x k _] using rev_ind; [by rewrite app_nil_r in E|].
    rewrite app_assoc in E. apply app_inj_tail in E as [-> _]. by apply prefix_app_r.
Qed.

Section map_theorems.
Context `{!NFC}.

Definition from_paths (ps : list string) : TorrentFileMap := foldl (λ m p, Add p m) NewTorrentFileMap ps.

(** The normal form of the path is absolute, below the root. *)
Definition absolute_normal (p : string) : Prop :=
  ∃ cs, cs ≠ [] ∧ Forall plain cs ∧ normalizePath p = abs_path cs.

Lemma dirs_of_path (cs : path) d dirs :
  cs ≠ [] → Forall plain cs →
  d ∈ add_dirs (S (String.length (abs_path cs))) (Dir (abs_path cs)) dirs ↔
  d ∈ dirs ∨ ∃ ds r, ds ≠ [] ∧ r ≠ [] ∧ cs = ds ++ r ∧ d = abs_path ds.
Proof.
  intros Hne Hcs. destruct cs as [|c cs _] using rev_ind; [done|].
  rewrite Dir_abs by done. pose proof Hcs as [Hcs' Hc]%Forall_app.
  rewrite add_dirs_abs; [|done|].
  2: { pose proof (abs_path_length _ Hcs) as Hl. rewrite length_app in Hl. cbn [length] in Hl. lia. }
  split; (intros [?|Hd]; [by left|right]).
  - destruct Hd as (ds & Hds & [k ->] & ->). exists ds, (k ++ [c]). rewrite app_assoc.
    split_and!; [done|by destruct k|done..].
  - destruct Hd as (ds & r & Hds & Hr & E & ->). exists ds. split_and!; [done| |done].
    destruct r as [|x r _] using rev_ind; [done|]. rewrite app_assoc in E.
    apply app_inj_tail in E as [-> _]. by apply prefix_app_r.
Qed.

(** A map built from paths whose normal forms are absolute has
    exactly their normal forms, and reports a file in a directory exactly when
    one of them lies strictly below it: the lookup is equivalent to a scan of all
    the paths. *)
Theorem file_map_exact (ps : list string) :
  (∀ p, p ∈ ps → absolute_normal p) →
  (∀ q, Has (from_paths ps) q = true ↔ ∃ p, p ∈ ps ∧ normalizePath p = q) ∧
  (∀ ds, Forall plain ds →
     HasAnyInDir (from_paths ps) (abs_path ds) = true ↔
     ∃ p, p ∈ ps ∧ isPathUnderNormalized (normalizePath p) (abs_path ds) = true).
Proof.
  unfold from_paths, Has, HasAnyInDir. induction ps as [|p ps IH] using rev_ind; intros Hps.
  { split; intros; rewrite bool_decide_eq_true; cbn; split; try (by intros (? & ?%elem_of_nil & _));
      intros ?; set_solver. }
  destruct IH as [IH1 IH2]; [intros; apply Hps, elem_of_app; by left|].
  assert (p ∈ ps ++ [p]) as Hin by (apply elem_of_app; right; by left).
  destruct (Hps p Hin) as (cs & Hne & Hcs & En). rewrite foldl_app. cbn [foldl].
  unfold Add. rewrite En. cbn [fm_paths fm_dirs]. split.
  - intros q. rewrite bool_decide_eq_true, elem_of_union, elem_of_singleton. specialize (IH1 q).
    rewrite bool_decide_eq_true in IH1. rewrite IH1. split.
    + intros [->|(p' & ? & ?)]; [exists p; by rewrite En|exists p'; set_solver].
    + intros (p' & [?| ->%list_elem_of_singleton]%elem_of_app & <-); [right; by exists p'|by left].
  - intros ds Hds. rewrite bool_decide_eq_true, dirs_of_path by done. specialize (IH2 ds Hds).
    rewrite bool_decide_eq_true in IH2. rewrite IH2. split.
    + intros [(p' & ? & ?)|(es & r & Hes & Hr & -> & E)]; [exists p'; set_solver|].
      exists p. split; [done|]. rewrite En. apply isPathUnder_abs; [done|done|].
      apply Forall_app in Hcs as [He _]. apply abs_path_inj in E as ->; [|done..]. split; [done|by exists r].
    + intros (p' & [?| ->%list_elem_of_singleton]%elem_of_app & Hu); [left; by exists p'|right].
      rewrite En in Hu. apply isPathUnder_abs in Hu as (Hd & r & Hr & ->); [|done..]. by exists ds, r.
Qed.
End map_theorems.

(** ** The map covers the torrents *)

(** What the code relies on: NFC is idempotent, keeps strings valid, and leaves
    the slashes and dots that [Clean] looks at alone. *)
Class NFCLaws `{!NFC} : Prop := {
  nfc_idemp s : nfc_String (nfc_String s) = nfc_String s;
  nfc_valid s : ValidString s = true → ValidString (nfc_String s) = true;
  nfc_Clean s : Clean s = s → Clean (nfc_String s) = nfc_String s }.

Lemma plain_nfc_laws : @NFCLaws PlainNFC.
Proof. by split. Qed.

Lemma normalizePath_idemp `{!NFC, !NFCLaws} p : normalizePath (normalizePath p) = normalizePath p.
Proof.
  unfold normalizePath. cbn zeta. destruct (ValidString (Clean p)) eqn:E.
  - by rewrite nfc_Clean, nfc_valid, nfc_idemp by (done || apply Clean_idemp).
  - by rewrite Clean_idemp, E.
Qed.

Section coverage.
Context `{!NFC, !UnicodeCase}.

Definition grows (m m' : TorrentFileMap) : Prop := ∀ q, Has m q = true → Has m' q = true.

Lemma Add_has p m : Has (Add p m) (normalizePath p) = true.
Proof. unfold Has, Add. simpl. apply bool_decide_eq_true. set_solver. Qed.
Lemma Add_grows p m : grows m (Add p m).
Proof. intros q. unfold Has, Add. simpl. rewrite !bool_decide_eq_true. set_solver. Qed.

Lemma add_files_grows savePath files m : grows m (add_files savePath files m).
Proof.
  unfold add_files. revert m. induction files as [|f fs IH]; intros m q Hq; [done|].
  simpl. by apply IH, Add_grows.
Qed.

Lemma add_files_has `{!NFCLaws} savePath files m f :
  f ∈ files → Has (add_files savePath files m) (normalizePath (PathJoin [savePath; tf_Name f])) = true.
Proof.
  revert m. induction files as [|g fs IH]; intros m; [by intros ?%elem_of_nil|].
  intros [->|Hin]%elem_of_cons; [|by apply IH]. cbn [add_files foldl].
  apply (add_files_grows savePath fs).
  pose proof (Add_has (normalizePath (PathJoin [savePath; tf_Name g])) m) as E. by rewrite normalizePath_idemp in E.
Qed.

Context (filesByHash : gmap string TorrentFiles).

Definition files_of (t : Torrent) : TorrentFiles := default [] (filesByHash !! canonicalizeHash (t_Hash t)).

Lemma build_torrent_grows s t :
  grows (bs_map s) (bs_map (build_torrent filesByHash s t)) ∧
  bs_skipped s ⊆ bs_skipped (build_torrent filesByHash s t) ∧
  (bs_missing s ≤ bs_missing (build_torrent filesByHash s t))%nat.
Proof.
  unfold build_torrent. cbn zeta.
  repeat case_match; cbn [bs_map bs_skipped bs_missing];
    (split; [intros q Hq; repeat apply add_files_grows; done|split; [try done; set_solver|lia]]).
Qed.

(** What the map owes to one torrent. *)
Definition covers (m : TorrentFileMap) (skipped : gset string) (t : Torrent) : Prop :=
  let savePath := Clean (t_SavePath t) in
  IsAbs savePath = true →
  match files_of t with
  | [] => isTransientTorrentStateForOrphanScan (t_State t) = true ∧ savePath ∈ skipped
  | files =>
    ∀ f, f ∈ files →
      Has m (normalizePath (PathJoin [savePath; tf_Name f])) = true ∧
      (let actual := actualSavePathFromContentPath savePath (t_ContentPath t) files in
       actual ≠ "" → Has m (normalizePath (PathJoin [actual; tf_Name f])) = true)
  end.

Lemma build_torrent_covers `{!NFCLaws} s t :
  bs_missing (build_torrent filesByHash s t) = bs_missing s →
  covers (bs_map (build_torrent filesByHash s t)) (bs_skipped (build_torrent filesByHash s t)) t.
Proof.
  unfold covers, build_torrent, files_of. cbn zeta. intros Hm Ha.
  assert (Clean (t_SavePath t) ≠ "") as Hne by (intros E; by rewrite E in Ha).
  rewrite (bool_decide_false _ Hne), Ha in *. cbn [negb andb] in *.
  destruct (default [] (filesByHash !! canonicalizeHash (t_Hash t))) as [|g gs].
  - destruct (isTransientTorrentStateForOrphanScan _); simpl in *; [set_solver|lia].
  - set (actual := actualSavePathFromContentPath _ _ _) in *. intros f Hf.
    case_bool_decide as E1; cbn [negb andb bs_map].
    { split; [by apply add_files_has|done]. }
    case_bool_decide as E2; cbn [negb bs_map].
    { split; [by apply add_files_has|]. intros _. rewrite E2. by apply add_files_has. }
    split; [by apply add_files_grows, add_files_has|]. intros _. by apply add_files_has.
Qed.

Lemma covers_mono m m' sk sk' t : grows m m' → sk ⊆ sk' → covers m sk t → covers m' sk' t.
Proof.
  unfold covers. cbn zeta. intros Hm Hsk Hc Ha. specialize (Hc Ha). destruct (files_of t).
  - destruct Hc. split; [done|set_solver].
  - intros f Hf. destruct (Hc f Hf) as [? Hact]. split; [by apply Hm|]. intros ?. by apply Hm, Hact.
Qed.

Lemma build_loop `{!NFCLaws} torrents s :
  let s' := foldl (build_torrent filesByHash) s torrents in
  grows (bs_map s) (bs_map s') ∧ bs_skipped s ⊆ bs_skipped s' ∧ (bs_missing s ≤ bs_missing s')%nat ∧
  (bs_missing s' = bs_missing s → ∀ t, t ∈ torrents → covers (bs_map s') (bs_skipped s') t).
Proof.
  revert s. induction torrents as [|t ts IH]; intros s; cbn zeta.
  { split_and!; [by intros q|done|done|by intros _ t ?%elem_of_nil]. }
  cbn [foldl]. destruct (IH (build_torrent filesByHash s t)) as (G1 & G2 & G3 & G4).
  destruct (build_torrent_grows s t) as (B1 & B2 & B3).
  split_and!; [by intros q Hq; apply G1, B1|set_solver|lia|].
  intros Hm t' [->|Hin]%elem_of_cons; [|apply G4; [lia|done]].
  eapply covers_mono; [exact G1|exact G2|]. apply build_torrent_covers. lia.
Qed.

Lemma build_covers `{!NFCLaws} (torrents : list Torrent) (r : buildFileMapResult) t :
  buildFileMapFromTorrents torrents filesByHash = Ok r → t ∈ torrents →
  covers (bm_fileMap r) (list_to_set (bm_skippedRoots r)) t.
Proof.
  unfold buildFileMapFromTorrents. cbn zeta.
  destruct (build_loop torrents (MkBuildState NewTorrentFileMap ∅ ∅ 0)) as (_ & _ & _ & Hc). cbn zeta in Hc.
  set (s := foldl _ _ torrents) in *. case_bool_decide as Hm; [done|]. intros [= <-] Ht. simpl.
  eapply covers_mono; [by intros q| |apply Hc; [simpl; lia|done]].
  intros x Hx. apply elem_of_list_to_set. unfold sortedRoots. rewrite elem_of_sort_strings. by apply elem_of_elements.
Qed.

(** When the map is built, every torrent with an absolute
    save path is accounted for: each of its files is in the map, under its save
    path and under the path its content shows, or it is a torrent in transition
    without a file list whose save path is skipped; and no root that is scanned
    lies in a skipped one. *)
Theorem file_map_complete `{!NFCLaws} (torrents : list Torrent) (r : buildFileMapResult) :
  buildFileMapFromTorrents torrents filesByHash = Ok r →
  (∀ t, t ∈ torrents → covers (bm_fileMap r) (list_to_set (bm_skippedRoots r)) t) ∧
  (∀ root, root ∈ bm_scanRoots r → ∃ raw, root = Clean raw ∧
     ∀ skipped, skipped ∈ bm_skippedRoots r → isSameOrDescendantPath raw skipped = false).
Proof.
  intros Hr. split; [intros t; by apply build_covers|]. unfold buildFileMapFromTorrents in Hr. cbn zeta in Hr.
  case_bool_decide; [done|]. injection Hr as <-. simpl.
  intros root Hroot. unfold filterScanRootsCoveredBySkippedRoots in Hroot.
  apply list_elem_of_fmap in Hroot as (raw & -> & [Hf _]%list_elem_of_filter). exists raw. split; [done|].
  intros skipped Hs. apply not_true_iff_false. intros Hd. apply not_true_iff_false in Hf. apply Hf.
  apply existsb_exists. exists skipped. split; [by apply list_elem_of_In|done].
Qed.
End coverage.

(** ** Ignored paths *)

(** Nothing below a path that is not protected is ignored, when the paths are in
    normal form. *)
Lemma unprotected_subtree `{!NFC} (ignorePaths : list string) (cs r : path) :
  Forall plain (cs ++ r) → cs ≠ [] → normalizePath (abs_path cs) = abs_path cs →
  normalizePath (abs_path (cs ++ r)) = abs_path (cs ++ r) →
  (∀ i, i ∈ ignorePaths → absolute_normal i) →
  isPathProtectedByIgnorePaths (abs_path cs) ignorePaths = false →
  isIgnoredPath (abs_path (cs ++ r)) ignorePaths = false.
Proof.
  intros Hp Hne En Enr Hi [Hself Hbelow]%orb_false_iff. pose proof Hp as [Hcs Hr]%Forall_app.
  unfold isIgnoredPath in *. rewrite Enr. rewrite En in Hself, Hbelow.
  apply not_true_iff_false. intros (i & Hin & Hm)%existsb_exists.
  destruct (Hi i) as (ds & Hds & Hdp & Ei); [by apply list_elem_of_In|]. rewrite Ei in Hm.
  assert (∃ k, cs ++ r = ds ++ k) as [k Ek].
  { apply orb_true_iff in Hm as [E%bool_decide_eq_true|Hu].
    - exists []. rewrite app_nil_r. by apply abs_path_inj.
    - apply isPathUnder_abs in Hu as (_ & k & _ & E); [by exists k|done..]. }
  assert (ds `prefix_of` cs ∨ ∃ x, x ≠ [] ∧ ds = cs ++ x) as [[x ->]|(x & Hx & ->)].
  { destruct (decide (length ds ≤ length cs)%nat) as [Hl|Hl].
    - left. apply app_eq_inv in Ek as [(x & -> & _)|(x & -> & _)]; [by exists x|].
      rewrite length_app in Hl. destruct x; [by exists []; rewrite !app_nil_r|simpl in Hl; lia].
    - right. apply app_eq_inv in Ek as [(x & -> & _)|(x & -> & _)]; [rewrite length_app in Hl; lia|].
      exists x. split; [|done]. intros ->. rewrite app_nil_r in Hl. lia. }
  - assert (existsb (λ prefix, bool_decide (abs_path (ds ++ x) = normalizePath prefix) ||
      isPathUnderNormalized (abs_path (ds ++ x)) (normalizePath prefix)) ignorePaths = true) as E; [|by rewrite E in Hself].
    apply existsb_exists. exists i. split; [done|]. rewrite Ei. destruct (decide (x = [])) as [->|Hx].
    + apply orb_true_iff. left. apply bool_decide_eq_true. by rewrite app_nil_r.
    + apply orb_true_iff. right. apply isPathUnder_abs; [done|done|]. split; [done|by exists x].
  - assert (existsb (λ ignorePath, isPathUnderNormalized (normalizePath ignorePath) (abs_path cs)) ignorePaths = true)
      as E; [|by rewrite E in Hbelow].
    apply existsb_exists. exists i. split; [done|]. rewrite Ei. apply isPathUnder_abs; [done|done|].
    split; [done|by exists x].
Qed.

(** ** Instances *)

Definition stored_torrent (hash savePath contentPath : string) (state : TorrentState) : Torrent :=
  MkTorrent 0 0 false f64_zero "" "" 0 0 "" contentPath 0 0 "" 0 0 0 false false hash "" "" f64_zero false
    0 "" f64_zero 0 0 "" 0 0 0 0 0 f64_zero f64_zero f64_zero 0 savePath 0 0 0 "" "" 0 false 0 state
    false "" 0 0 "" 0 0 0 0 0 [].

(** Two torrents: one with a folder, and one that is being checked. *)
Definition sample_torrents : list Torrent :=
  [stored_torrent "AA" "/d/a" "/d/a/Show" TorrentStateUploading;
   stored_torrent "bb" "/d/t" "" TorrentStateCheckingResumeData].
Definition sample_files : gmap string TorrentFiles :=
  {["aa" := [MkTorrentFile "Show/e1.mkv"; MkTorrentFile "Show/e2.mkv"]]}.

Lemma file_map_exact_witness :
  (∀ p, p ∈ ["/d/x/"; "/d/a/../b/y"] → @absolute_normal PlainNFC p) ∧
  (@HasAnyInDir (@from_paths PlainNFC ["/d/x/"; "/d/a/../b/y"]) (abs_path ["d"; "b"]) = true ↔
   ∃ p, p ∈ ["/d/x/"; "/d/a/../b/y"] ∧
        isPathUnderNormalized (@normalizePath PlainNFC p) (abs_path ["d"; "b"]) = true).
Proof.
  assert (∀ p, p ∈ ["/d/x/"; "/d/a/../b/y"] → @absolute_normal PlainNFC p) as Hp.
  { intros p [->|[->|[]%elem_of_nil]%elem_of_cons]%elem_of_cons.
    - exists ["d"; "x"]. split_and!; [done|apply (bool_decide_eq_true_1 _); by vm_compute|by vm_compute].
    - exists ["d"; "b"; "y"]. split_and!; [done|apply (bool_decide_eq_true_1 _); by vm_compute|by vm_compute]. }
  split; [exact Hp|]. apply (@file_map_exact PlainNFC _ Hp).
  apply (bool_decide_eq_true_1 _). by vm_compute.
Defined.

Lemma file_map_complete_witness :
  ∃ r, @buildFileMapFromTorrents PlainNFC AsciiCase sample_torrents sample_files = Ok r ∧
       bm_skippedRoots r = ["/d/t"] ∧ Has (bm_fileMap r) "/d/a/Show/e1.mkv" = true ∧
       (∀ t, t ∈ sample_torrents →
        @covers PlainNFC AsciiCase sample_files (bm_fileMap r) (list_to_set (bm_skippedRoots r)) t).
Proof.
  destruct (@buildFileMapFromTorrents PlainNFC AsciiCase sample_torrents sample_files) as [r|] eqn:E.
  - exists r. pose proof (@file_map_complete PlainNFC AsciiCase sample_files plain_nfc_laws _ _ E) as [Hc _].
    split_and!; [done| | |exact Hc]; vm_compute in E; injection E as <-; by vm_compute.
  - exfalso. by vm_compute in E.
Defined.
