(* ===== verification/OrphanDelete.v ===== *)
(** * [internal/services/orphanscan/delete.go], [executeDeletion]

    The deletion of what an orphan scan found: every target is checked again
    against the files of the torrents and the ignore rules, then removed, and the
    directories left empty are removed too.  The theorems say what can be lost. *)

From Stdlib Require Import ZArith Lia Ascii.
From stdpp Require Import base numbers list strings gmap sorting pretty.
From S2P Require Import Prelude.
From S2P Require Import Order.
From S2P Require Import GoStrings.
From S2P Require Import GoPath.
From S2P Require Import FileSystem.
From S2P Require Import Domain.
From S2P Require Import OrphanPaths.

Open Scope qui_scope.

(** ** Deleting one target (delete.go) *)

Inductive deleteDisposition : Type :=
| deleteDispositionDeleted
| deleteDispositionSkippedInUse
| deleteDispositionSkippedMissing
| deleteDispositionSkippedIgnored.

(** [ErrInUse], or another error with its text. *)
Inductive delete_error : Type :=
| ErrInUse
| DeleteFailed (msg : string).

Definition Outcome : Type := FS * (deleteDisposition + string).

Definition validateDeleteTarget (scanRoot target : string) : option string :=
  if negb (IsAbs target) then Some ("refusing non-absolute path: " +++ target)
  else if bool_decide (Clean target = Clean scanRoot) then Some ("refusing to delete scan root: " +++ scanRoot)
  else match Rel scanRoot target with
       | None => Some ("path escapes scan root: " +++ target)
       | Some rel => if HasPrefix rel ".." then Some ("path escapes scan root: " +++ target) else None
       end.

Section delete.
Context `{!NFC} (faults : Faults).

(** Removing, where what is missing already is skipped. *)
Definition removed (prefix : string) (r : FS * option os_error) : Outcome :=
  (r.1, match r.2 with
        | None => inl deleteDispositionDeleted
        | Some NotExist => inl deleteDispositionSkippedMissing
        | Some (OtherError msg) => inr (prefix +++ msg)
        end).

Definition safeDeleteFile (scanRoot target : string) (tfm : TorrentFileMap) (fs : FS) : Outcome :=
  match validateDeleteTarget scanRoot target with
  | Some msg => (fs, inr msg)
  | None =>
    if Has tfm (normalizePath target) then (fs, inl deleteDispositionSkippedInUse) else
    match Lstat faults fs (to_path target) with
    | inr NotExist => (fs, inl deleteDispositionSkippedMissing)
    | inr (OtherError msg) => (fs, inr msg)
    | inl e => if is_dir e then (fs, inr ("refusing to delete directory as file: " +++ target))
               else removed "" (Remove faults fs (to_path target))
    end
  end.

(** The callback of [checkDirContainsInUseFile]. *)
Definition check_entry (tfm : TorrentFileMap) (p : path) (e : option entry) (err : option os_error)
    (s : unit) : unit * walk_control delete_error :=
  (s, match err with
      | Some NotExist => Continue
      | Some (OtherError msg) => Stop (DeleteFailed msg)
      | None =>
        if from_option is_dir false e then Continue
        else if Has tfm (normalizePath (abs_path p)) then Stop ErrInUse else Continue
      end).

Definition checkDirContainsInUseFile (fs : FS) (target : string) (tfm : TorrentFileMap) : option delete_error :=
  (WalkDir (check_entry tfm) faults fs (to_path target) tt).2.

Definition safeDeleteSymlink (target : string) (tfm : TorrentFileMap) (fs : FS) : Outcome :=
  if Has tfm (normalizePath target) then (fs, inl deleteDispositionSkippedInUse)
  else removed "remove symlink: " (Remove faults fs (to_path target)).

Definition safeDeleteDirectory (target : string) (tfm : TorrentFileMap) (fs : FS) : Outcome :=
  match checkDirContainsInUseFile fs target tfm with
  | Some ErrInUse => (fs, inl deleteDispositionSkippedInUse)
  | Some (DeleteFailed msg) => (fs, inr ("check directory contents: walk directory: " +++ msg))
  | None => removed "remove directory: " (RemoveAll faults fs (to_path target))
  end.

Definition safeDeleteTarget (scanRoot target : string) (tfm : TorrentFileMap) (ignorePaths : list string)
    (fs : FS) : Outcome :=
  match validateDeleteTarget scanRoot target with
  | Some msg => (fs, inr msg)
  | None =>
    if negb (bool_decide (ignorePaths = [])) && isPathProtectedByIgnorePaths target ignorePaths
    then (fs, inl deleteDispositionSkippedIgnored) else
    match Lstat faults fs (to_path target) with
    | inr NotExist => (fs, inl deleteDispositionSkippedMissing)
    | inr (OtherError msg) => (fs, inr ("stat target: " +++ msg))
    | inl ELink => safeDeleteSymlink target tfm fs
    | inl (EFile _) => safeDeleteFile scanRoot target tfm fs
    | inl (EDir _) => safeDeleteDirectory target tfm fs
    end
  end.

(** The new file system, and the error if any; what is gone is not an error. *)
Definition safeDeleteEmptyDir (scanRoot target : string) (fs : FS) : FS * option string :=
  match validateDeleteTarget scanRoot target with
  | Some msg => (fs, Some msg)
  | None =>
    let '(fs', err) := Remove faults fs (to_path target) in
    (fs', match err with Some (OtherError msg) => Some msg | _ => None end)
  end.

(** The directories from [dir] up to the root, until an ignored one. *)
Fixpoint climb (fuel : nat) (scanRoot dir : string) (ignorePaths : list string) (acc : gset string)
    : gset string :=
  match fuel with
  | O => acc
  | S fuel =>
    if bool_decide (dir = scanRoot) || bool_decide (dir = ".") || bool_decide (dir = "/") then acc
    else if isIgnoredPath dir ignorePaths then acc
    else
      let acc := {[dir]} ∪ acc in
      let parent := Dir dir in
      if bool_decide (parent = dir) then acc else climb fuel scanRoot parent ignorePaths acc
  end.

Definition collect_dirs (scanRoots ignorePaths : list string) (acc : gset string) (filePath : string)
    : gset string :=
  let scanRoot := findScanRoot filePath scanRoots in
  if bool_decide (scanRoot = "") then acc else
  climb (S (String.length filePath)) (Clean scanRoot) (Clean (Dir filePath)) ignorePaths acc.

(** The longest first. *)
Definition collectCandidateDirsForCleanup (files scanRoots ignorePaths : list string) : list string :=
  sort_slice (λ a b, bool_decide (String.length b < String.length a)%nat)
    (elements (foldl (collect_dirs scanRoots ignorePaths) ∅ files)).

(** ** A deletion run (service.go) *)

Record OrphanScanFile := MkOrphanFile { of_ID : Z; of_FilePath : string; of_FileSize : Z }.

(** What a run keeps: the files left, the statuses written, the counters, the
    paths that are gone, and how often cancellation was checked. *)
Record DelState := MkDel {
  d_fs : FS; d_statuses : list (Z * string * string); d_filesDeleted : Z; d_bytes : Z;
  d_gone : list string; d_failed : Z; d_readOnly : bool; d_denied : bool }.

Definition note (id : Z) (status msg : string) (s : DelState) : DelState :=
  MkDel (d_fs s) (d_statuses s ++ [(id, status, msg)]) (d_filesDeleted s) (d_bytes s) (d_gone s)
    (d_failed s) (d_readOnly s) (d_denied s).
Definition with_fs (fs : FS) (s : DelState) : DelState :=
  MkDel fs (d_statuses s) (d_filesDeleted s) (d_bytes s) (d_gone s) (d_failed s) (d_readOnly s) (d_denied s).
Definition add_gone (p : string) (s : DelState) : DelState :=
  MkDel (d_fs s) (d_statuses s) (d_filesDeleted s) (d_bytes s) (d_gone s ++ [p]) (d_failed s)
    (d_readOnly s) (d_denied s).
Definition count_deleted (size : Z) (s : DelState) : DelState :=
  MkDel (d_fs s) (d_statuses s) (i64 (d_filesDeleted s + 1)) (i64 (d_bytes s + size)) (d_gone s)
    (d_failed s) (d_readOnly s) (d_denied s).
Definition count_failed (readOnly denied : bool) (s : DelState) : DelState :=
  MkDel (d_fs s) (d_statuses s) (d_filesDeleted s) (d_bytes s) (d_gone s) (i64 (d_failed s + 1))
    (d_readOnly s || readOnly) (d_denied s || denied).

(** [isReadOnlyFSError] and [os.IsPermission] recognise the errors by what is
    also their text. *)
Definition is_read_only (msg : string) : bool := Contains msg "read-only file system".
Definition is_denied (msg : string) : bool :=
  Contains msg "permission denied" || Contains msg "operation not permitted".

(** The body of the loop over the files. *)
Definition delete_file (scanPaths : list string) (tfm : TorrentFileMap) (ignorePaths : list string)
    (s : DelState) (f : OrphanScanFile) : DelState :=
  let scanRoot := findScanRoot (of_FilePath f) scanPaths in
  if bool_decide (scanRoot = "")
  then count_failed false false (note (of_ID f) "failed" "no matching scan root" s)
  else
    let '(fs, r) := safeDeleteTarget scanRoot (of_FilePath f) tfm ignorePaths (d_fs s) in
    let s := with_fs fs s in
    match r with
    | inr msg =>
      count_failed (is_read_only msg) (negb (is_read_only msg) && is_denied msg)
        (note (of_ID f) "failed" msg s)
    | inl deleteDispositionSkippedInUse => note (of_ID f) "skipped" "file is now in use by a torrent" s
    | inl deleteDispositionSkippedMissing =>
      add_gone (of_FilePath f) (note (of_ID f) "skipped" "file no longer exists" s)
    | inl deleteDispositionSkippedIgnored => note (of_ID f) "skipped" "path is protected by ignore paths" s
    | inl deleteDispositionDeleted =>
      add_gone (of_FilePath f) (count_deleted (of_FileSize f) (note (of_ID f) "deleted" "" s))
    end.

(** The loops stop when the context is done; [done n] is the answer to the
    [n]-th question. *)
Fixpoint until_done {A B} (is_done : nat → bool) (n : nat) (f : A → B → A) (a : A) (l : list B) : A :=
  match l with
  | [] => a
  | b :: l => if is_done n then a else until_done is_done (S n) f (f a b) l
  end.

Definition clean_dir (scanPaths : list string) (acc : FS * Z) (dir : string) : FS * Z :=
  let scanRoot := findScanRoot dir scanPaths in
  if bool_decide (scanRoot = "") then acc else
  let '(fs, err) := safeDeleteEmptyDir scanRoot dir acc.1 in
  (fs, match err with None => i64 (acc.2 + 1) | Some _ => acc.2 end).

Definition failure_message (s : DelState) : string :=
  if bool_decide (d_failed s <= 0)%Z then "" else
  "Deletion failed for " +++ pretty (d_failed s) +++
  (if d_readOnly s then " file(s): filesystem is read-only. If running via Docker, remove ':ro' from the volume mapping for your downloads path."
   else if d_denied s then " file(s): permission denied. Check that the qui process has write access to the download directories."
   else " file(s). Check the file details for specific errors.").

(** How a run ends. *)
Inductive run_end : Type :=
| RunFailed (msg : string)
| RunCompleted (files folders bytes : Z) (warning : option string).

(** Deleting the files and cleaning up, with the map and the ignore rules of the
    run. *)
Definition delete_all (is_done : nat → bool) (scanPaths : list string) (tfm : TorrentFileMap)
    (ignorePaths : list string) (files : list OrphanScanFile) (fs : FS) : DelState * FS * Z :=
  let s := until_done is_done 0 (delete_file scanPaths tfm ignorePaths)
             (MkDel fs [] 0 0 [] 0 false false) files in
  let dirs := collectCandidateDirsForCleanup (d_gone s) scanPaths ignorePaths in
  let '(fs', folders) := until_done is_done (length files) (clean_dir scanPaths) (d_fs s, 0%Z) dirs in
  (s, fs', folders).

(** The ignore paths of a run: none when the settings could not be loaded, and as
    they are when they cannot be normalised. *)
Definition run_ignore_paths (settings : option (list string)) : list string :=
  match settings with
  | None => []
  | Some paths => match NormalizeIgnorePaths paths with Ok l => l | Err _ => paths end
  end.

(** [executeDeletion] after the run is marked as deleting: [map] is what
    [buildFileMap] returns, [settings] the ignore paths of the settings if they
    were loaded. *)
Definition executeDeletion (is_done : nat → bool) (scanPaths : list string) (map : result buildFileMapResult)
    (settings : option (list string)) (files : result (list OrphanScanFile)) (fs : FS)
    : FS * list (Z * string * string) * run_end :=
  match map with
  | Err e => (fs, [], RunFailed ("failed to rebuild file map: " +++ e))
  | Ok map =>
    let ignorePaths := run_ignore_paths settings in
    match files with
    | Err e => (fs, [], RunFailed ("failed to get files: " +++ e))
    | Ok files =>
      let '(s, fs', folders) := delete_all is_done scanPaths (bm_fileMap map) ignorePaths files fs in
      (fs', d_statuses s,
       if (0 <? d_failed s)%Z && (d_filesDeleted s =? 0)%Z then RunFailed (failure_message s)
       else RunCompleted (d_filesDeleted s) folders (d_bytes s)
              (if (0 <? d_failed s)%Z then Some (failure_message s) else None))
    end
  end.
End delete.

(** ** What can be lost *)

Lemma findScanRoot_elem `{!NFC} p scanRoots :
  findScanRoot p scanRoots ≠ "" → findScanRoot p scanRoots ∈ scanRoots.
Proof.
  unfold findScanRoot. cbn zeta. set (step := λ longest root, _).
  assert (∀ l acc, foldl step acc l = acc ∨ foldl step acc l ∈ l) as Hl.
  { induction l as [|r l IH]; intros acc; [by left|]. cbn [foldl].
    destruct (IH (step acc r)) as [->|?]; [|right; by right].
    unfold step. repeat case_match; (by left) || (right; by left). }
  destruct (Hl scanRoots "") as [->|?]; [done|done].
Qed.

(** A validated target is an absolute path strictly below its root. *)
Lemma validate_below root target :
  validateDeleteTarget root target = None →
  IsAbs target = true ∧ ∃ r, r ≠ [] ∧ to_path target = to_path root ++ r.
Proof.
  unfold validateDeleteTarget. destruct (IsAbs target) eqn:Ha; [|done]. cbn [negb].
  case_bool_decide as Hc; [done|]. destruct (Rel root target) as [rel|] eqn:Hr; [|done].
  destruct (HasPrefix rel "..") eqn:Hp; [done|]. intros _. split; [done|]. by eapply Rel_below.
Qed.

Section safety.
Context `{!NFC} (faults : Faults).
Context (scanRoots : list string) (tfm : TorrentFileMap) (ignorePaths : list string).

(** The files before the run. *)
Context (fs0 : FS).

(** The ignore rules are absolute and compare with the paths as they are. *)
Definition rules_apply : Prop := (∀ i, i ∈ ignorePaths → absolute_normal i) ∧ normal_fs fs0.

(** What may be lost: it lies strictly below a scan root, it is no file of a
    torrent, and no rule ignores it. *)
Definition expendable (q : path) (e : entry) : Prop :=
  (∃ root r, root ∈ scanRoots ∧ r ≠ [] ∧ q = to_path root ++ r) ∧
  (is_dir e = false → Has tfm (normalizePath (abs_path q)) = false) ∧
  (rules_apply → isIgnoredPath (abs_path q) ignorePaths = false).

(** Only expendable entries are gone, nothing is new or changed. *)
Definition loses_expendable (fs fs' : FS) : Prop :=
  fs' ⊆ fs ∧ ∀ q e, fs !! q = Some e → fs' !! q = None → expendable q e.

Lemma loses_refl fs : loses_expendable fs fs.
Proof. split; [done|]. intros q e H1 H2. by rewrite H1 in H2. Qed.

Lemma loses_trans fs1 fs2 fs3 :
  loses_expendable fs1 fs2 → loses_expendable fs2 fs3 → loses_expendable fs1 fs3.
Proof.
  intros [S1 L1] [S2 L2]. split; [by etrans|]. intros q e Hq Hn.
  destruct (fs2 !! q) as [e'|] eqn:E; [|by apply L1].
  assert (fs1 !! q = Some e') as E' by (by eapply lookup_weaken). rewrite Hq in E'. injection E' as <-.
  by apply L2.
Qed.

Lemma normalize_target target : IsAbs target = true →
  ∃ cs, Forall plain cs ∧ to_path target = cs ∧ normalizePath target = normalizePath (abs_path cs).
Proof.
  intros Ha. exists (to_path target).
  assert (Forall plain (to_path target)) as Hp by (by apply clean_components_plain). split_and!; [done..|].
  destruct (Clean_abs target Ha) as (cs & Hcs & E).
  assert (Clean target = abs_path (to_path target)) as E'.
  { unfold Clean. rewrite bool_decide_false by (by intros ->). by rewrite Ha. }
  unfold normalizePath. by rewrite E', Clean_abs_path.
Qed.

(** Whatever lies at or below a target that is not protected is not ignored. *)
Lemma target_unprotected fs target q e :
  rules_apply → fs ⊆ fs0 → fs !! q = Some e → is_Some (fs !! to_path target) → to_path target `prefix_of` q →
  IsAbs target = true → to_path target ≠ [] →
  negb (bool_decide (ignorePaths = [])) && isPathProtectedByIgnorePaths target ignorePaths = false →
  isIgnoredPath (abs_path q) ignorePaths = false.
Proof.
  intros [Hignore Hn0] Hsub Hq [e' He'] [r ->] Ha Hne Hprot.
  pose proof (normal_fs_sub _ _ Hsub Hn0) as Hn.
  destruct (decide (ignorePaths = [])) as [Ei|Ei].
  { unfold isIgnoredPath. by rewrite Ei. }
  rewrite bool_decide_false in Hprot by done. cbn [negb andb] in Hprot.
  destruct (Hn _ _ Hq) as [Hp1 Hs1]. destruct (Hn _ _ He') as [_ Hs2].
  apply unprotected_subtree; [done..|].
  destruct (normalize_target target Ha) as (cs & _ & E & En). rewrite E in *.
  unfold isPathProtectedByIgnorePaths, isIgnoredPath in *. cbn zeta in *. by rewrite <- En.
Qed.

(** A directory that passes the check holds no file of a torrent. *)
Lemma check_walk l :
  (walk_rest (check_entry tfm) None l tt).2 = None →
  ∀ p e, (p, e) ∈ l → is_dir e = false → Has tfm (normalizePath (abs_path p)) = false.
Proof.
  induction l as [|[p e] l IH]; intros Hw p' e' Hin Hd; [by apply elem_of_nil in Hin|].
  cbn [walk_rest] in Hw. unfold check_entry at 1 in Hw. cbn [from_option] in Hw.
  destruct (is_dir e) eqn:Ed.
  - destruct e as [| |[msg|]]; try done.
    apply elem_of_cons in Hin as [[= -> ->]|Hin]; [done|]. by eapply IH.
  - destruct (Has tfm (normalizePath (abs_path p))) eqn:Eh; [done|].
    apply elem_of_cons in Hin as [[= -> ->]|Hin]; [done|].
    destruct e as [| |]; try done; by eapply IH.
Qed.

Lemma Remove_spec fs p :
  (Remove faults fs p).1 = fs ∨
  ∃ e, fs !! p = Some e ∧ (Remove faults fs p).1 = delete p fs ∧ (Remove faults fs p).2 = None.
Proof.
  unfold Remove. destruct (remove_fault _ _); [by left|]. destruct (fs !! p) as [e|] eqn:E; [|by left].
  destruct (is_dir e && has_entries fs p); [by left|]. right. by exists e.
Qed.

Lemma Remove_loses fs p :
  (∀ e, fs !! p = Some e → expendable p e) → loses_expendable fs (Remove faults fs p).1.
Proof.
  intros He. destruct (Remove_spec fs p) as [->|(e & E & -> & _)]; [apply loses_refl|].
  split; [apply delete_subseteq|]. intros q e' Hq Hn.
  destruct (decide (p = q)) as [<-|Hne]; [auto|]. unfold FS in *.
  by rewrite lookup_delete_ne, Hq in Hn by done.
Qed.

Lemma filter_gone (b : path * entry → bool) (fs : FS) q e :
  fs !! q = Some e → (filter (λ kv, b kv = true) fs : FS) !! q = None → b (q, e) = false.
Proof.
  intros Hq Hn. destruct (b (q, e)) eqn:E; [|done].
  assert ((filter (λ kv, b kv = true) fs : FS) !! q = Some e) as Hs by (by apply map_lookup_filter_Some_2).
  by rewrite Hs in Hn.
Qed.

Lemma RemoveAll_loses fs p :
  (∀ q e, fs !! q = Some e → p `prefix_of` q → expendable q e) →
  loses_expendable fs (RemoveAll faults fs p).1.
Proof.
  intros He. unfold RemoveAll. destruct (remove_all_fault faults p) as [[msg gone]|]; cbn [fst];
    (split; [apply map_filter_subseteq|]); intros q e Hq Hn; (apply He; [done|]);
    apply (filter_gone _ _ _ _ Hq) in Hn; cbn [fst] in Hn;
    destruct (bool_decide (p `prefix_of` q)) eqn:E; try done; by apply bool_decide_eq_true in E.
Qed.

Lemma safeDeleteTarget_loses root target fs :
  root ∈ scanRoots → fs ⊆ fs0 →
  loses_expendable fs (safeDeleteTarget faults root target tfm ignorePaths fs).1.
Proof.
  intros Hroot Hsub. unfold safeDeleteTarget.
  destruct (validateDeleteTarget root target) as [msg|] eqn:Hv; [apply loses_refl|].
  destruct (validate_below _ _ Hv) as (Ha & r & Hr & Et).
  destruct (negb _ && _) eqn:Hprot; [apply loses_refl|].
  destruct (Lstat faults fs (to_path target)) as [e|[|msg]] eqn:Hl; try apply loses_refl.
  assert (fs !! to_path target = Some e) as He.
  { unfold Lstat in Hl. destruct (lstat_fault _ _); [done|].
    destruct (fs !! to_path target); [by injection Hl as ->|by destruct (through_file _ _)]. }
  assert (to_path target ≠ []) as Hne by (rewrite Et; by destruct (to_path root), r).
  assert (∀ q e', fs !! q = Some e' → to_path target `prefix_of` q →
    (is_dir e' = false → Has tfm (normalizePath (abs_path q)) = false) → expendable q e') as Hexp.
  { intros q e' Hq Hpre Huse. split_and!; [|done|].
    - destruct Hpre as [k ->]. exists root, (r ++ k). rewrite Et, app_assoc. split_and!; [done| |done].
      by destruct r.
    - intros Hrules. by eapply target_unprotected. }
  destruct (normalize_target target Ha) as (cs & _ & Ecs & En). rewrite Ecs in *.
  destruct e as [info| |err].
  - unfold safeDeleteFile. rewrite Hv. rewrite En. destruct (Has tfm _) eqn:Hh; [apply loses_refl|].
    rewrite Ecs, Hl. cbn [is_dir]. apply Remove_loses. intros e' He'. apply Hexp; [done|done|]. done.
  - unfold safeDeleteSymlink. rewrite En. destruct (Has tfm _) eqn:Hh; [apply loses_refl|].
    rewrite Ecs. apply Remove_loses. intros e' He'. apply Hexp; [done|done|]. done.
  - unfold safeDeleteDirectory. destruct (checkDirContainsInUseFile faults fs target tfm) as [[|msg]|] eqn:Hc;
      try apply loses_refl.
    rewrite Ecs. apply RemoveAll_loses. intros q e' Hq Hpre. apply Hexp; [done..|].
    unfold checkDirContainsInUseFile, WalkDir in Hc. rewrite Ecs, Hl in Hc.
    eapply check_walk; [exact Hc|]. by apply elem_of_subtree.
Qed.
(** Nothing but directories leads to [p]. *)
Definition parents_dirs (fs : FS) (p : path) : Prop :=
  ∀ q r e, p = q ++ r → r ≠ [] → fs !! q = Some e → is_dir e = true.

Lemma parents_dirs_sub fs fs' p : fs' ⊆ fs → parents_dirs fs p → parents_dirs fs' p.
Proof. intros Hs Hp q r e Er Hr Hq. eapply Hp; [done|done|]. by eapply lookup_weaken. Qed.

Lemma parents_dirs_wf fs p e : fs_wf fs → fs !! p = Some e → parents_dirs fs p.
Proof.
  intros [_ Hup] He q r. revert e He. revert p. induction r as [|n r IH] using rev_ind; [done|].
  intros p e He e' -> _ Hq. rewrite app_assoc in He. destruct (Hup _ _ _ He) as [err Hd].
  destruct (decide (r = [])) as [->|Hr]; [|by eapply IH].
  rewrite app_nil_r in Hd. rewrite Hq in Hd. by injection Hd as ->.
Qed.

Lemma not_through fs p : through_file fs p = false → parents_dirs fs p.
Proof.
  intros Ht q r e -> Hr Hq. unfold through_file in Ht. destruct (is_dir e) eqn:Ed; [done|]. exfalso.
  apply not_true_iff_false in Ht. apply Ht. apply existsb_exists. exists (length q). split.
  - apply in_seq. rewrite length_app. destruct r; [done|cbn [length]; lia].
  - by rewrite take_app_length, Hq, Ed.
Qed.

(** What a run may say is gone: a clean absolute path to which only
    directories led. *)
Definition gone_ok (fs : FS) (p : string) : Prop :=
  ∃ cs, cs ≠ [] ∧ Forall plain cs ∧ p = abs_path cs ∧ parents_dirs fs cs.

Lemma gone_ok_sub fs fs' p : fs' ⊆ fs → gone_ok fs p → gone_ok fs' p.
Proof. intros Hs (cs & ? & ? & ? & ?). exists cs. split_and!; try done. by eapply parents_dirs_sub. Qed.

(** A target that is deleted or missing was reached through directories. *)
Lemma safeDeleteTarget_gone root target fs d :
  fs_wf fs0 → fs ⊆ fs0 → Clean target = target →
  (safeDeleteTarget faults root target tfm ignorePaths fs).2 = inl d →
  d = deleteDispositionDeleted ∨ d = deleteDispositionSkippedMissing → gone_ok fs target.
Proof.
  intros Hwf Hsub Hclean. unfold safeDeleteTarget.
  destruct (validateDeleteTarget root target) as [msg|] eqn:Hv; [done|].
  destruct (validate_below _ _ Hv) as (Ha & r & Hr & Et).
  destruct (negb _ && _); [by intros [= <-] [?|?]|]. intros Hd Hdisp.
  exists (to_path target). split_and!.
  - rewrite Et. by destruct (to_path root), r.
  - by apply clean_components_plain.
  - rewrite <- Hclean at 1. unfold Clean. rewrite bool_decide_false by (by intros ->). by rewrite Ha.
  - destruct (Lstat faults fs (to_path target)) as [e|[|msg]] eqn:Hl.
    + eapply parents_dirs_sub; [exact Hsub|]. eapply parents_dirs_wf; [done|].
      eapply lookup_weaken; [by eapply Lstat_inl|done].
    + apply not_through. unfold Lstat in Hl. destruct (lstat_fault _ _); [done|].
      destruct (fs !! to_path target); [done|]. by destruct (through_file _ _).
    + done.
Qed.

(** One step of the loop over the files keeps this. *)
Definition run_ok (s : DelState) : Prop :=
  loses_expendable fs0 (d_fs s) ∧ Forall (gone_ok (d_fs s)) (d_gone s).

Lemma delete_file_ok s f :
  fs_wf fs0 → Clean (of_FilePath f) = of_FilePath f →
  run_ok s → run_ok (delete_file faults scanRoots tfm ignorePaths s f).
Proof.
  intros Hwf Hclean [Hl Hg]. unfold delete_file.
  case_bool_decide as Hroot; [done|].
  pose proof (safeDeleteTarget_loses (findScanRoot (of_FilePath f) scanRoots) (of_FilePath f) (d_fs s)
    (findScanRoot_elem _ _ Hroot) (proj1 Hl)) as Hstep.
  pose proof (λ d, safeDeleteTarget_gone (findScanRoot (of_FilePath f) scanRoots) (of_FilePath f) (d_fs s) d
    Hwf (proj1 Hl) Hclean) as Hgone.
  destruct (safeDeleteTarget _ _ _ _ _ _) as [fs r]. cbn [fst snd] in *.
  assert (loses_expendable fs0 fs) as Hl' by (by eapply loses_trans).
  assert (Forall (gone_ok fs) (d_gone s)) as Hg'.
  { eapply Forall_impl; [exact Hg|]. intros p. apply gone_ok_sub, Hstep. }
  assert (∀ d, r = inl d → d = deleteDispositionDeleted ∨ d = deleteDispositionSkippedMissing →
    Forall (gone_ok fs) (d_gone s ++ [of_FilePath f])) as Hg2.
  { intros d Hd Hdd. apply Forall_app. split; [done|]. constructor; [|done].
    eapply gone_ok_sub; [apply Hstep|]. by eapply Hgone. }
  destruct r as [[| | |]|msg]; split; cbn; try done; by eapply Hg2; eauto.
Qed.

Lemma until_done_inv {A B} (P : A → Prop) (g : A → B → A) is_done l : ∀ n a,
  (∀ a b, b ∈ l → P a → P (g a b)) → P a → P (until_done is_done n g a l).
Proof.
  induction l as [|b l IH]; intros n a Hs Ha; [done|]. cbn [until_done]. destruct (is_done n); [done|].
  apply IH; [|apply Hs; [left|done]]. intros a' b' Hb. apply Hs. by right.
Qed.

(** The directories to clean up lead to what is gone, and none is ignored. *)
Definition candidate (fs : FS) (dir : string) : Prop :=
  ∃ ds, Forall plain ds ∧ dir = abs_path ds ∧ isIgnoredPath dir ignorePaths = false ∧
  ∀ e, fs !! ds = Some e → is_dir e = true.

Lemma climb_candidates fs n root : ∀ ds r acc,
  Forall plain (ds ++ r) → r ≠ [] → parents_dirs fs (ds ++ r) →
  (∀ d, d ∈ acc → candidate fs d) →
  ∀ d, d ∈ climb n root (abs_path ds) ignorePaths acc → candidate fs d.
Proof.
  induction n as [|n IH]; intros ds r acc Hp Hr Hpd Hacc d; [apply Hacc|]. cbn [climb].
  destruct (_ || _ || _) eqn:Ec; [apply Hacc|].
  destruct (isIgnoredPath (abs_path ds) ignorePaths) eqn:Ei; [apply Hacc|].
  assert (∀ d, d ∈ {[abs_path ds]} ∪ acc → candidate fs d) as Hacc'.
  { intros d' [->%elem_of_singleton|]%elem_of_union; [|by apply Hacc]. exists ds.
    apply Forall_app in Hp as [? _]. split_and!; try done. intros e He. by eapply Hpd. }
  destruct (bool_decide (Dir _ = _)); [apply Hacc'|].
  destruct ds as [|c ds _] using rev_ind.
  - exfalso. apply orb_false_iff in Ec as [_ Ec]. by apply bool_decide_eq_false in Ec.
  - rewrite Dir_abs by (by apply Forall_app in Hp as [? _]).
    rewrite <- app_assoc in Hp, Hpd. by eapply IH.
Qed.

Lemma collect_candidates fs files :
  Forall (gone_ok fs) files →
  ∀ d, d ∈ collectCandidateDirsForCleanup files scanRoots ignorePaths → candidate fs d.
Proof.
  intros Hg d. unfold collectCandidateDirsForCleanup. rewrite sort_slice_perm, elem_of_elements.
  assert (∀ d, d ∈ (∅ : gset string) → candidate fs d) as Hacc by set_solver.
  revert Hacc. generalize (∅ : gset string) as acc. revert d.
  induction Hg as [|p l (cs & Hne & Hcs & -> & Hpd) Hl IH]; intros d acc Hacc; [apply Hacc|]. cbn [foldl].
  apply IH. intros d' Hd'. unfold collect_dirs in Hd'. destruct (bool_decide _); [by apply Hacc|].
  destruct cs as [|c cs _] using rev_ind; [done|].
  rewrite Dir_abs, Clean_abs_path in Hd' by (done || by apply Forall_app in Hcs as [? _]).
  by eapply (climb_candidates fs _ _ cs [c]).
Qed.
Lemma clean_dir_ok fs n dir :
  fs ⊆ fs0 → candidate fs dir → loses_expendable fs (clean_dir faults scanRoots (fs, n) dir).1.
Proof.
  intros Hsub (ds & Hds & -> & Hi & Hdir). unfold clean_dir. cbn zeta. cbn [fst].
  case_bool_decide as Hroot; [apply loses_refl|]. unfold safeDeleteEmptyDir.
  destruct (validateDeleteTarget _ _) as [msg|] eqn:Hv; [apply loses_refl|].
  destruct (validate_below _ _ Hv) as (_ & r & Hr & Et). rewrite to_path_abs in * by done.
  pose proof (Remove_loses fs ds) as Hl. destruct (Remove faults fs ds) as [fs' err]. apply Hl.
  intros e He. split_and!; [|by rewrite (Hdir e He)|done].
  eexists _, r. split_and!; [by apply findScanRoot_elem|done..].
Qed.

Lemma delete_all_loses is_done files :
  fs_wf fs0 → (∀ f, f ∈ files → Clean (of_FilePath f) = of_FilePath f) →
  loses_expendable fs0 (delete_all faults is_done scanRoots tfm ignorePaths files fs0).1.2.
Proof.
  intros Hwf Hclean. unfold delete_all. cbn zeta. set (s := until_done _ _ _ _ files).
  assert (run_ok s) as [Hl Hg].
  { apply until_done_inv; [|by split; [apply loses_refl|constructor]].
    intros a f Hf. apply delete_file_ok; auto. }
  set (dirs := collectCandidateDirsForCleanup _ _ _).
  assert (loses_expendable fs0
    (until_done is_done (length files) (clean_dir faults scanRoots) (d_fs s, 0%Z) dirs).1) as H'.
  { apply (until_done_inv (λ acc, acc.1 ⊆ d_fs s ∧ loses_expendable fs0 acc.1)); [|by split].
    intros [fs n] dir Hdir [Hs Hfs]. cbn [fst] in *.
    destruct (collect_candidates (d_fs s) _ Hg dir Hdir) as (ds & ? & ? & ? & Hd).
    assert (loses_expendable fs (clean_dir faults scanRoots (fs, n) dir).1) as Hstep.
    { apply clean_dir_ok; [apply Hfs|]. exists ds. split_and!; [done..|].
      intros e He. apply Hd. by eapply lookup_weaken. }
    split; [etrans; [apply Hstep|done]|by eapply loses_trans]. }
  by destruct (until_done _ _ _ _ dirs).
Qed.
End safety.

(** A path at which a torrent has a file: below its save path, or below the path
    that its content shows. *)
Definition torrent_file `{!NFC, !UnicodeCase} (filesByHash : gmap string TorrentFiles) (t : Torrent) (p : string) : Prop :=
  let files := default [] (filesByHash !! canonicalizeHash (t_Hash t)) in
  let savePath := Clean (t_SavePath t) in
  let actual := actualSavePathFromContentPath savePath (t_ContentPath t) files in
  ∃ f, f ∈ files ∧ (normalizePath p = normalizePath (PathJoin [savePath; tf_Name f]) ∨
                    actual ≠ "" ∧ normalizePath p = normalizePath (PathJoin [actual; tf_Name f])).

Lemma torrent_file_known `{!NFC, !UnicodeCase, !NFCLaws} filesByHash torrents map t p :
  buildFileMapFromTorrents torrents filesByHash = Ok map → t ∈ torrents → IsAbs (Clean (t_SavePath t)) = true →
  torrent_file filesByHash t p → Has (bm_fileMap map) (normalizePath p) = true.
Proof.
  intros Hm Ht Habs (f & Hf & Hp). pose proof (build_covers filesByHash torrents map t Hm Ht Habs) as Hc. cbv zeta in Hc.
  unfold files_of in Hc. destruct (default [] _) as [|g gs]; [by apply elem_of_nil in Hf|].
  destruct (Hc f Hf) as [Hh Ha]. destruct Hp as [->|[Hne ->]]; [done|by apply Ha].
Qed.

(** C37. A deletion run only ever removes, and what it removes
    lies strictly below a scan root of the run; it is no file of a torrent whose
    files the client told and whose save path is absolute, neither under its save
    path nor under the path that its content shows; and, when the settings were
    loaded, the ignore rules are absolute and names are in normal form, it lies
    neither at nor below an ignored path.  This holds whatever the files of the run
    are, whichever operations fail and whenever the run is cancelled.  It does not
    hold of torrents whose files are not known yet, whose folders only a scan
    leaves alone ([skipped_root_not_protected]), nor of ignored paths when the
    settings cannot be loaded ([ignored_deleted_without_settings]). *)
Theorem orphan_deletion_safe `{!NFC, !UnicodeCase, !NFCLaws} (faults : Faults) (is_done : nat → bool)
    (scanPaths : list string) (torrents : list Torrent) (filesByHash : gmap string TorrentFiles)
    (settings : option (list string)) (files : list OrphanScanFile) (fs : FS) :
  fs_wf fs → (∀ f, f ∈ files → Clean (of_FilePath f) = of_FilePath f) →
  let '(fs', _, _) := executeDeletion faults is_done scanPaths (buildFileMapFromTorrents torrents filesByHash)
                        settings (Ok files) fs in
  fs' ⊆ fs ∧
  ∀ q e, fs !! q = Some e → fs' !! q = None →
  (∃ root r, root ∈ scanPaths ∧ r ≠ [] ∧ q = to_path root ++ r) ∧
  (is_dir e = false → ∀ t, t ∈ torrents → IsAbs (Clean (t_SavePath t)) = true → ¬ torrent_file filesByHash t (abs_path q)) ∧
  (∀ ignored, settings = Some ignored → (∀ i, i ∈ run_ignore_paths settings → absolute_normal i) → normal_fs fs →
   isIgnoredPath (abs_path q) (run_ignore_paths settings) = false).
Proof.
  intros Hwf Hclean. unfold executeDeletion. cbn zeta.
  destruct (buildFileMapFromTorrents torrents filesByHash) as [map|msg] eqn:Hm; [|split; [done|]; intros q e Hq; by rewrite Hq].
  pose proof (delete_all_loses faults scanPaths (bm_fileMap map) (run_ignore_paths settings) fs is_done files
    Hwf Hclean) as [Hs Hl].
  destruct (delete_all _ _ _ _ _ _ _) as [[s fs'] folders]. split; [exact Hs|].
  intros q e Hq Hn. destruct (Hl q e Hq Hn) as (Hr & Hu & Hi). split_and!; [done| |].
  - intros Hd t Ht Habs Hf. by rewrite (torrent_file_known _ _ _ _ _ Hm Ht Habs Hf) in Hu; specialize (Hu Hd).
  - intros ignored _ Hr1 Hr2. by apply Hi.
Qed.

(** ** Instances *)

Definition sample_fs : FS :=
  list_to_map
    [([], EDir None); (["d"], EDir None); (["d"; "a"], EDir None); (["d"; "a"; "Show"], EDir None);
     (["d"; "a"; "Show"; "e1.mkv"], EFile None); (["d"; "a"; "Show"; "e1.nfo"], EFile None);
     (["d"; "b"], EDir None); (["d"; "b"; "old"], EDir None); (["d"; "b"; "old"; "x.mkv"], EFile None);
     (["d"; "keep"], EDir None); (["d"; "keep"; "y.mkv"], EFile None);
     (["d"; "t"], EDir None); (["d"; "t"; "z.mkv"], EFile None)].

(** A file in use, a directory with one in it, two orphans, and an ignored file. *)
Definition sample_orphans : list OrphanScanFile :=
  [MkOrphanFile 1 "/d/a/Show/e1.mkv" 5; MkOrphanFile 2 "/d/a/Show" 5; MkOrphanFile 3 "/d/b/old/x.mkv" 7;
   MkOrphanFile 4 "/d/keep/y.mkv" 7; MkOrphanFile 5 "/d/a/Show/e1.nfo" 1; MkOrphanFile 6 "/e/x" 1].

Definition sample_map : buildFileMapResult :=
  match @buildFileMapFromTorrents PlainNFC AsciiCase sample_torrents sample_files with
  | Ok r => r
  | Err _ => MkBuild NewTorrentFileMap [] [] 0
  end.

Definition sample_run : FS * list (Z * string * string) * run_end :=
  @executeDeletion PlainNFC no_faults (λ _, false) ["/d"] (Ok sample_map) (Some ["/d/keep/"])
    (Ok sample_orphans) sample_fs.

Example sample_run_statuses :
  sample_run.1.2 =
  [(1, "skipped", "file is now in use by a torrent"); (2, "skipped", "file is now in use by a torrent");
   (3, "deleted", ""); (4, "skipped", "path is protected by ignore paths"); (5, "deleted", "");
   (6, "failed", "no matching scan root")]%Z.
Proof. by vm_compute. Qed.

Example sample_run_left :
  ((map_to_list sample_run.1.1).*1 ≡ₚ
    [[]; ["d"]; ["d"; "a"]; ["d"; "a"; "Show"]; ["d"; "a"; "Show"; "e1.mkv"]; ["d"; "keep"];
     ["d"; "keep"; "y.mkv"]; ["d"; "t"]; ["d"; "t"; "z.mkv"]]) ∧
  sample_run.2 = RunCompleted 2 2 8 (Some "Deletion failed for 1 file(s). Check the file details for specific errors.").
Proof. split; [apply (bool_decide_eq_true_1 _)|]; by vm_compute. Qed.

Lemma sample_fs_wf : fs_wf sample_fs.
Proof. apply fs_wf_checked. by vm_compute. Qed.

Lemma sample_orphans_clean f : f ∈ sample_orphans → Clean (of_FilePath f) = of_FilePath f.
Proof.
  intros Hf. assert (forallb (λ f, bool_decide (Clean (of_FilePath f) = of_FilePath f)) sample_orphans = true)
    as Hc by (by vm_compute).
  rewrite forallb_forall in Hc. apply list_elem_of_In, Hc in Hf. by apply bool_decide_eq_true in Hf.
Qed.

Lemma orphan_deletion_safe_witness :
  fs_wf sample_fs ∧ (∀ f, f ∈ sample_orphans → Clean (of_FilePath f) = of_FilePath f) ∧
  let '(fs', _, _) := @executeDeletion PlainNFC no_faults (λ _, false) ["/d"]
    (@buildFileMapFromTorrents PlainNFC AsciiCase sample_torrents sample_files) (Some ["/d/keep/"])
    (Ok sample_orphans) sample_fs in
  fs' ⊆ sample_fs ∧ fs' !! ["d"; "a"; "Show"; "e1.mkv"] = Some (EFile None) ∧ fs' !! ["d"; "b"; "old"; "x.mkv"] = None.
Proof.
  split; [exact sample_fs_wf|]. split; [exact sample_orphans_clean|].
  pose proof (@orphan_deletion_safe PlainNFC AsciiCase plain_nfc_laws no_faults (λ _, false) ["/d"] sample_torrents sample_files
    (Some ["/d/keep/"]) sample_orphans sample_fs sample_fs_wf sample_orphans_clean) as Hs.
  set (run := executeDeletion _ _ _ _ _ _ _) in *.
  assert (run.1.1 !! ["d"; "b"; "old"; "x.mkv"] = None) as Hgone by (by vm_compute).
  destruct run as [[fs' statuses] e]. cbn [fst] in Hgone. destruct Hs as [Hsub Hs].
  split; [exact Hsub|]. split; [|exact Hgone].
  destruct (fs' !! ["d"; "a"; "Show"; "e1.mkv"]) as [e'|] eqn:E.
  - eapply lookup_weaken in E; [|exact Hsub]. vm_compute in E. by injection E as <-.
  - exfalso. destruct (Hs ["d"; "a"; "Show"; "e1.mkv"] (EFile None)) as (_ & Hu & _); [by vm_compute|done|].
    apply (Hu eq_refl (stored_torrent "AA" "/d/a" "/d/a/Show" TorrentStateUploading)); [by left|by vm_compute|].
    exists (MkTorrentFile "Show/e1.mkv"). split; [|left; by vm_compute].
    assert (default [] (sample_files !! "aa") = [MkTorrentFile "Show/e1.mkv"; MkTorrentFile "Show/e2.mkv"]) as Ef
      by (by vm_compute).
    change (canonicalizeHash _) with (@canonicalizeHash AsciiCase "AA").
    assert (@canonicalizeHash AsciiCase "AA" = "aa") as -> by (by vm_compute). rewrite Ef. by left.
Defined.

(** A torrent in transition has no file list yet; its save path is skipped when
    the file map is built, and a scan leaves it alone, but a deletion does not look
    at the skipped roots. *)
Example skipped_root_not_protected :
  bm_skippedRoots sample_map = ["/d/t"] ∧
  let '(fs', statuses, _) := @executeDeletion PlainNFC no_faults (λ _, false) ["/d"] (Ok sample_map) None
    (Ok [MkOrphanFile 1 "/d/t/z.mkv" 9]) sample_fs in
  statuses = [(1%Z, "deleted", "")] ∧ fs' !! ["d"; "t"; "z.mkv"] = None.
Proof. by vm_compute. Qed.

(** When the settings cannot be loaded, the ignore rules are not applied. *)
Example ignored_deleted_without_settings :
  let '(fs', statuses, _) := @executeDeletion PlainNFC no_faults (λ _, false) ["/d"] (Ok sample_map) None
    (Ok [MkOrphanFile 1 "/d/keep/y.mkv" 9]) sample_fs in
  statuses = [(1%Z, "deleted", "")] ∧ fs' !! ["d"; "keep"; "y.mkv"] = None.
Proof. by vm_compute. Qed.
