(* ===== verification/OrphanWalk.v ===== *)
(** * [internal/services/orphanscan/walker.go]: the walk over a scan root

    The walk finds what belongs to no torrent and reports it by units: a file, or
    the whole folder of a disc.  What it reports is stated over the sequence of the
    entries it visits, since earlier files decide for later ones. *)

From Stdlib Require Import ZArith Lia Ascii.
From stdpp Require Import base numbers list strings gmap sorting pretty.
From S2P Require Import Prelude.
From S2P Require Import Order.
From S2P Require Import GoStrings.
From S2P Require Import GoPath.
From S2P Require Import FileSystem.
From S2P Require Import GoFloat.
From S2P Require Import Domain.
From S2P Require Import OrphanPaths.

Open Scope qui_scope.

(** ** Names that are never reported *)

Definition discLayoutMarkers : list string := ["BDMV"; "VIDEO_TS"].
Definition ignoredOrphanFileNames : list string := [".DS_Store"; ".directory"; "desktop.ini"; "Thumbs.db"].
Definition ignoredOrphanFileNamePrefixes : list string := [".fuse"; ".goutputstream-"; ".nfs"; "._"; ".#"; "~$"].
Definition ignoredOrphanFileNameSuffixes : list string := [".parts"; ".!qB"].
Definition ignoredOrphanDirNames : list string :=
  [".AppleDB"; ".AppleDouble"; ".TemporaryItems"; ".Trashes"; ".Recycle.Bin"; ".recycle"; ".snapshot";
   ".snapshots"; ".zfs"; "@eaDir"; "$RECYCLE.BIN"; "#recycle"; "lost+found"; "System Volume Information"].
Definition ignoredOrphanDirNamePrefixes : list string := [".Trash-"; ".."].

Record OrphanFile := MkOrphan { o_Path : string; o_Size : Z; o_ModifiedAt : Z; o_Status : string }.

(** The zero [time.Time], in nanoseconds since 1970. *)
Definition zero_time : Z := -62135596800 * 10 ^ 9.

(** The difference of two times, which saturates. *)
Definition time_sub (t u : Z) : Z := Z.max min_i64 (Z.min max_i64 (t - u)).

Record discUnitDecision := MkDecision { chosenUnit : string; disableGrouping : bool }.

(** [scanWalker]: what changes during a walk. *)
Record Walker := MkWalker {
  w_orphanUnits : gmap string OrphanFile; w_discUnitsInUse : gset string;
  w_discUnitCache : gmap string discUnitDecision; w_discUnitPaths : gset string;
  w_seenInodes : gset (Z * Z); w_truncated : bool }.

Definition newScanWalker : Walker := MkWalker ∅ ∅ ∅ ∅ ∅ false.

Definition with_cache (cache : gmap string discUnitDecision) (w : Walker) : Walker :=
  MkWalker (w_orphanUnits w) (w_discUnitsInUse w) cache (w_discUnitPaths w) (w_seenInodes w) (w_truncated w).
Definition with_units (units : gmap string OrphanFile) (w : Walker) : Walker :=
  MkWalker units (w_discUnitsInUse w) (w_discUnitCache w) (w_discUnitPaths w) (w_seenInodes w) (w_truncated w).
Definition note_disc_unit (u : string) (w : Walker) : Walker :=
  MkWalker (w_orphanUnits w) (w_discUnitsInUse w) (w_discUnitCache w) ({[u]} ∪ w_discUnitPaths w)
    (w_seenInodes w) (w_truncated w).
Definition note_truncated (w : Walker) : Walker :=
  MkWalker (w_orphanUnits w) (w_discUnitsInUse w) (w_discUnitCache w) (w_discUnitPaths w) (w_seenInodes w) true.

Definition inodeKeyFromInfo (info : FileInfo) : Z * Z := (fi_dev info, fi_ino info).

Definition shouldSkipDuplicate (info : FileInfo) (w : Walker) : Walker * bool :=
  if (1 <? fi_nlink info)%Z then (w, false)
  else if bool_decide (inodeKeyFromInfo info ∈ w_seenInodes w) then (w, true)
  else (MkWalker (w_orphanUnits w) (w_discUnitsInUse w) (w_discUnitCache w) (w_discUnitPaths w)
          ({[inodeKeyFromInfo info]} ∪ w_seenInodes w) (w_truncated w), false).

Definition markInUse (unitPath : string) (isDiscUnit : bool) (w : Walker) : Walker :=
  if isDiscUnit
  then MkWalker (delete unitPath (w_orphanUnits w)) ({[unitPath]} ∪ w_discUnitsInUse w) (w_discUnitCache w)
         (w_discUnitPaths w) (w_seenInodes w) (w_truncated w)
  else w.

(** [os.IsPermission], by the text of the errors it recognises. *)
Definition is_permission (e : os_error) : bool :=
  match e with
  | NotExist => false
  | OtherError msg => Contains msg "permission denied" || Contains msg "operation not permitted"
  end.

Definition walk_error_text (e : os_error) : string :=
  match e with NotExist => "no such file or directory" | OtherError msg => msg end.

Section walk.
Context `{!NFC, !UnicodeCase}.

Definition hasPrefixFold (s prefix : string) : bool :=
  negb (bool_decide (String.length s < String.length prefix)%nat) &&
  EqualFold (of_bytes (take (String.length prefix) (to_bytes s))) prefix.
Definition hasSuffixFold (s suffix : string) : bool :=
  negb (bool_decide (String.length s < String.length suffix)%nat) &&
  EqualFold (of_bytes (drop (String.length s - String.length suffix) (to_bytes s))) suffix.

Definition isIgnoredOrphanFileName (name : string) : bool :=
  existsb (EqualFold name) ignoredOrphanFileNames ||
  existsb (hasPrefixFold name) ignoredOrphanFileNamePrefixes ||
  existsb (hasSuffixFold name) ignoredOrphanFileNameSuffixes.
Definition isIgnoredOrphanDirName (name : string) : bool :=
  existsb (EqualFold name) ignoredOrphanDirNames ||
  existsb (hasPrefixFold name) ignoredOrphanDirNamePrefixes.

(** ** Disc folders *)

(** The index of the first marker, the name it has on disk, and in upper case. *)
Fixpoint findDiscMarker (segments : list string) : option (nat * string * string) :=
  match segments with
  | [] => None
  | seg :: segs =>
    if bool_decide (ToUpper seg ∈ discLayoutMarkers) then Some (0%nat, seg, ToUpper seg)
    else match findDiscMarker segs with Some (i, s, u) => Some (S i, s, u) | None => None end
  end.

Definition buildDiscCandidatePaths (root : string) (segments : list string) (markerIndex : nat)
    (markerSegment : string) : string * string :=
  let '(unitRel, markerRel) :=
    match markerIndex with
    | O => (markerSegment, markerSegment)
    | _ =>
      let unitRel := PathJoin (take markerIndex segments) in
      if bool_decide (unitRel = ".") || bool_decide (unitRel = "") then (markerSegment, markerSegment)
      else (unitRel, PathJoin [unitRel; markerSegment])
    end in
  (Clean (PathJoin [root; unitRel]), Clean (PathJoin [root; markerRel])).

Definition discRootAllowedFiles : list string := ["DESKTOP.INI"; "THUMBS.DB"; ".DS_STORE"].
Definition discAllowedDirs (marker : string) : list string :=
  let upper := ToUpper marker in
  if bool_decide (upper = "BDMV") then ["BDMV"; "CERTIFICATE"]
  else if bool_decide (upper = "VIDEO_TS") then ["VIDEO_TS"; "AUDIO_TS"]
  else [upper].

Section disc.
Context (fs : FS) (tfm : TorrentFileMap) (ignorePaths : list string).

(** Whether the folder above a marker can go as a whole: what it holds beside the
    disc is no torrent's. *)
Definition discParentIsSafeDiscRoot (parentAbs marker : string) : bool :=
  match ReadDir fs (to_path parentAbs) with
  | None => false
  | Some entries =>
    forallb (λ '(name, e),
      let nameUpper := ToUpper name in
      let full := PathJoin [parentAbs; name] in
      if is_dir e
      then bool_decide (nameUpper ∈ discAllowedDirs marker) || negb (HasAnyInDir tfm (normalizePath full))
      else bool_decide (nameUpper ∈ discRootAllowedFiles) || negb (Has tfm (normalizePath full))) entries
  end.

Definition protected (p : string) : bool :=
  negb (bool_decide (ignorePaths = [])) && isPathProtectedByIgnorePaths p ignorePaths.

Definition chooseDiscUnit (candidateAbs markerAbs markerUpper : string) : discUnitDecision :=
  let parentProtected := protected candidateAbs in
  let markerProtected := protected markerAbs in
  if parentProtected && markerProtected then MkDecision "" true
  else if parentProtected then MkDecision markerAbs false
  else if markerProtected then MkDecision "" true
  else if discParentIsSafeDiscRoot candidateAbs markerUpper then MkDecision candidateAbs false
  else MkDecision markerAbs false.

Definition discRelativeSegments (root p : string) : option (list string) :=
  match Rel root p with
  | None => None
  | Some rel =>
    if HasPrefix rel ".." then None
    else let relDir := Dir rel in
         if bool_decide (relDir = ".") then None else Some (Split relDir sep)
  end.

(** The unit a decision gives a file. *)
Definition unit_of_decision (originalPath : string) (d : discUnitDecision) : string * bool :=
  if disableGrouping d then (originalPath, false) else (chosenUnit d, true).

Definition discUnitFromParentMarker (originalPath candidateAbs markerAbs markerUpper : string)
    (cache : gmap string discUnitDecision) : string * bool * gmap string discUnitDecision :=
  let key := normalizePath candidateAbs +++ "|" +++ markerUpper in
  match cache !! key with
  | Some decision => (unit_of_decision originalPath decision, cache)
  | None =>
    let decision := chooseDiscUnit candidateAbs markerAbs markerUpper in
    (unit_of_decision originalPath decision, <[key := decision]> cache)
  end.

(** The unit that stands for a file, and whether it is a disc. *)
Definition discOrphanUnitWithContext (scanRoot filePath : string) (cache : gmap string discUnitDecision)
    : string * bool * gmap string discUnitDecision :=
  let root := Clean scanRoot in
  let p := Clean filePath in
  match discRelativeSegments root p with
  | None => (p, false, cache)
  | Some segments =>
    match findDiscMarker segments with
    | None => (p, false, cache)
    | Some (markerIndex, markerSegment, markerUpper) =>
      let '(candidateAbs, markerAbs) := buildDiscCandidatePaths root segments markerIndex markerSegment in
      if bool_decide (candidateAbs = root) then (markerAbs, true, cache)
      else match markerIndex with
           | S _ => discUnitFromParentMarker p candidateAbs markerAbs markerUpper cache
           | O => if protected markerAbs then (p, false, cache) else (markerAbs, true, cache)
           end
    end
  end.

(** ** The walk *)

Context (now : path → Z) (canceled : path → option os_error → bool).
Context (root : string) (gracePeriod maxFiles : Z) (unitFilter : option (string → bool → bool)).

Definition addOrUpdateUnit (unitPath : string) (info : FileInfo) (w : Walker) : Walker * walk_control string :=
  let update (entry : OrphanFile) :=
    MkOrphan (o_Path entry) (i64 (o_Size entry + fi_Size info))
      (if bool_decide (o_ModifiedAt entry = zero_time) || bool_decide (o_ModifiedAt entry < fi_ModTime info)%Z
       then fi_ModTime info else o_ModifiedAt entry) (o_Status entry) in
  match w_orphanUnits w !! unitPath with
  | Some entry => (with_units (<[unitPath := update entry]> (w_orphanUnits w)) w, Continue)
  | None =>
    if (0 <? maxFiles)%Z && (maxFiles <=? Z.of_nat (size (w_orphanUnits w)))%Z
    then (note_truncated w, SkipAll)
    else (with_units (<[unitPath := update (MkOrphan unitPath 0 zero_time "pending")]> (w_orphanUnits w)) w,
          Continue)
  end.

Definition handleDir (p : path) : walk_control string :=
  if isIgnoredPath (abs_path p) ignorePaths then SkipDir
  else if isIgnoredOrphanDirName (Base (abs_path p)) then SkipDir else Continue.

(** A file whose details are [info], if they can be read. *)
Definition handleFile (p : path) (info : option FileInfo) (w : Walker) : Walker * walk_control string :=
  if isIgnoredPath (abs_path p) ignorePaths then (w, Continue) else
  let '(unitPath, isDiscUnit, cache) := discOrphanUnitWithContext root (abs_path p) (w_discUnitCache w) in
  let w := with_cache cache w in
  if Has tfm (normalizePath (abs_path p)) then
    let w := markInUse unitPath isDiscUnit w in
    (match info with Some info => (shouldSkipDuplicate info w).1 | None => w end, Continue)
  else if isIgnoredOrphanFileName (Base (abs_path p)) then (w, Continue)
  else match info with
  | None => (w, Continue)
  | Some info =>
    if (time_sub (now p) (fi_ModTime info) <? gracePeriod)%Z then (w, Continue) else
    let '(w, duplicate) := shouldSkipDuplicate info w in
    if duplicate then (w, Continue)
    else if isDiscUnit && bool_decide (unitPath ∈ w_discUnitsInUse w) then (w, Continue) else
    let w := if isDiscUnit then note_disc_unit unitPath w else w in
    if match unitFilter with Some filter => negb (filter unitPath isDiscUnit) | None => false end
    then (w, Continue) else addOrUpdateUnit unitPath info w
  end.

Definition handleWalkErr (e : os_error) : walk_control string :=
  if is_permission e then Continue else Stop (walk_error_text e).

Definition walk (p : path) (d : option entry) (walkErr : option os_error) (w : Walker)
    : Walker * walk_control string :=
  if canceled p walkErr then (w, Stop "walk canceled") else
  match walkErr with
  | Some e => (w, handleWalkErr e)
  | None =>
    match d with
    | None | Some ELink => (w, Continue)
    | Some (EDir _) => (w, handleDir p)
    | Some (EFile info) => handleFile p info w
    end
  end.
End disc.

(** ** Units inside the folder of a disc *)

Definition containingDiscUnit (order : MapRange) (normUnit : string) (discRoots : gmap string string)
    : option string :=
  head (omap (λ '(normDisc, discUnitPath),
    if bool_decide (normUnit = normDisc) then None
    else if isPathUnderNormalized normUnit normDisc then Some discUnitPath else None) (range order 1 discRoots)).

(** [entry] is what the map holds for [unit] at that time. *)
Definition mergeIntoDiscUnit (unit discUnitPath : string) (units : gmap string OrphanFile)
    : gmap string OrphanFile :=
  match units !! unit with
  | None => units
  | Some entry =>
    delete unit
      (match units !! discUnitPath with
       | Some discEntry =>
         <[discUnitPath := MkOrphan (o_Path discEntry) (i64 (o_Size discEntry + o_Size entry))
             (if bool_decide (o_ModifiedAt discEntry < o_ModifiedAt entry)%Z
              then o_ModifiedAt entry else o_ModifiedAt discEntry) (o_Status discEntry)]> units
       | None => units
       end)
  end.

(** The path a normal form stands for: the last one in the order of the map. *)
Definition disc_roots (order : MapRange) (discUnitPaths : gset string) : gmap string string :=
  foldl (λ m du, <[normalizePath du := du]> m) ∅
    (range order 2 (gset_to_gmap tt discUnitPaths)).*1.

Definition mergeSuppressedUnitsIntoDiscUnits (order : MapRange) (w : Walker) : gmap string OrphanFile :=
  if bool_decide (w_discUnitPaths w = ∅) then w_orphanUnits w else
  let discRoots := disc_roots order (w_discUnitPaths w) in
  foldl (λ units unit,
    match containingDiscUnit order (normalizePath unit) discRoots with
    | None => units
    | Some discUnitPath => mergeIntoDiscUnit unit discUnitPath units
    end) (w_orphanUnits w) (range order 3 (w_orphanUnits w)).*1.

Definition orphans (order : MapRange) (w : Walker) : list OrphanFile :=
  (range order 4 (mergeSuppressedUnitsIntoDiscUnits order w)).*2.

(** The orphans, whether they are cut off, and the error that ended the walk. *)
Definition walkScanRootWithUnitFilter (faults : Faults) (fs : FS) (now : path → Z)
    (canceled : path → option os_error → bool) (order : MapRange) (root : string) (tfm : TorrentFileMap)
    (ignorePaths : list string) (gracePeriod maxFiles : Z) (unitFilter : option (string → bool → bool))
    : list OrphanFile * bool * option string :=
  let '(w, err) := WalkDir (walk fs tfm ignorePaths now canceled root gracePeriod maxFiles unitFilter)
                     faults fs (to_path root) newScanWalker in
  (orphans order w, w_truncated w, err).
End walk.

(** ** After the walk *)

Section merging.
Context `{!NFC}.

(** Whether a unit lies inside a disc folder. *)
Definition inside_disc (discs : gset string) (u : string) : Prop :=
  ∃ du, du ∈ discs ∧ isPathUnderNormalized (normalizePath u) (normalizePath du) = true.

Lemma disc_roots_spec order discs k :
  is_Some (disc_roots order discs !! k) ↔ ∃ du, du ∈ discs ∧ normalizePath du = k.
Proof.
  unfold disc_roots.
  assert (∀ l (m : gmap string string), is_Some (foldl (λ m du, <[normalizePath du := du]> m) m l !! k) ↔
    is_Some (m !! k) ∨ ∃ du, du ∈ l ∧ normalizePath du = k) as Hl.
  { induction l as [|x l IH]; intros m; cbn [foldl].
    - split; [by left|]. by intros [?|(du & ?%elem_of_nil & _)].
    - rewrite IH. destruct (decide (normalizePath x = k)) as [<-|Hne].
      + rewrite lookup_insert_eq. split; [right; exists x; split; [by left|done]|left; by eexists].
      + rewrite lookup_insert_ne by done. split; (intros [?|(du & Hdu & E)]; [by left|right]).
        * exists du. split; [by right|done].
        * apply elem_of_cons in Hdu as [->|]; [done|by exists du]. }
  rewrite Hl, lookup_empty. split.
  - intros [[]|(du & Hdu & E)]; [done|]. exists du. split; [|done].
    apply list_elem_of_fmap in Hdu as ([x []] & -> & Hx). apply elem_of_range, lookup_gset_to_gmap_Some in Hx.
    by destruct Hx.
  - intros (du & Hdu & E). right. exists du. split; [|done]. apply (list_elem_of_fmap_2 fst _ (du, tt)).
    apply elem_of_range, lookup_gset_to_gmap_Some. done.
Qed.

Lemma containing_spec order discs u :
  is_Some (containingDiscUnit order (normalizePath u) (disc_roots order discs)) ↔ inside_disc discs u.
Proof.
  unfold containingDiscUnit. set (g := λ _, _). set (l := range order 1 _).
  assert (is_Some (head (omap g l)) ↔ ∃ x, x ∈ l ∧ is_Some (g x)) as ->.
  { induction l as [|x l IH]; cbn.
    - split; [by intros []|by intros (x & ?%elem_of_nil & _)].
    - destruct (g x) as [y|] eqn:Ex; cbn.
      + split; [intros _; exists x; split; [by left|by rewrite Ex]|by eexists].
      + rewrite IH. split; intros (z & Hz & Hg); [exists z; split; [by right|done]|].
        apply elem_of_cons in Hz as [->|?]; [rewrite Ex in Hg; by destruct Hg|by exists z]. }
  split.
  - intros ([k v] & Hin & Hg). apply elem_of_range in Hin.
    destruct (proj1 (disc_roots_spec order discs k)) as (du & Hdu & <-); [by eexists|].
    exists du. split; [done|]. unfold g in Hg. case_bool_decide; [by destruct Hg|].
    by destruct (isPathUnderNormalized _ _); [|destruct Hg].
  - intros (du & Hdu & Hin). destruct (proj2 (disc_roots_spec order discs (normalizePath du))) as [v Hv].
    { by exists du. }
    exists (normalizePath du, v). split; [by apply elem_of_range|]. unfold g.
    unfold isPathUnderNormalized in Hin |- *. case_bool_decide; [done|]. by rewrite Hin.
Qed.

Lemma merge_keys unit du (units : gmap string OrphanFile) v :
  is_Some (mergeIntoDiscUnit unit du units !! v) ↔ is_Some (units !! v) ∧ v ≠ unit.
Proof.
  unfold mergeIntoDiscUnit. destruct (units !! unit) as [e|] eqn:E.
  - destruct (decide (unit = v)) as [<-|Hne]; [rewrite lookup_delete_eq; split; [by intros []|by intros []]|].
    rewrite lookup_delete_ne by done. destruct (units !! du) as [de|] eqn:Ed; [|by split; [|intros []]].
    destruct (decide (du = v)) as [<-|Hdv]; [rewrite lookup_insert_eq, Ed|rewrite lookup_insert_ne by done];
      (split; [intros Hv; split; [try done; by eexists|done]|intros [Hv _]; try done; by eexists]).
  - split; [|by intros []]. intros Hv. split; [done|]. intros ->. rewrite E in Hv. by destruct Hv.
Qed.

Definition paths_ok (units : gmap string OrphanFile) : Prop := ∀ v o, units !! v = Some o → o_Path o = v.

Lemma merge_paths unit du units : paths_ok units → paths_ok (mergeIntoDiscUnit unit du units).
Proof.
  intros Hp v o. unfold mergeIntoDiscUnit. destruct (units !! unit) as [e|]; [|apply Hp].
  rewrite lookup_delete_Some. intros [_ Hv]. destruct (units !! du) as [de|] eqn:Ed; [|by apply Hp].
  apply lookup_insert_Some in Hv as [[<- <-]|[_ Hv]]; [cbn; by apply Hp|by apply Hp].
Qed.

(** What is reported is what the walk collected, less what lies in a disc. *)
Lemma orphans_spec order w : paths_ok (w_orphanUnits w) →
  NoDup (o_Path <$> orphans order w) ∧
  ∀ u, u ∈ o_Path <$> orphans order w ↔ is_Some (w_orphanUnits w !! u) ∧ ¬ inside_disc (w_discUnitPaths w) u.
Proof.
  intros Hp. unfold orphans. set (units := mergeSuppressedUnitsIntoDiscUnits order w).
  assert (paths_ok units ∧ ∀ u, is_Some (units !! u) ↔
    is_Some (w_orphanUnits w !! u) ∧ ¬ inside_disc (w_discUnitPaths w) u) as [Hpu Hk].
  { unfold units, mergeSuppressedUnitsIntoDiscUnits. case_bool_decide as He.
    - split; [done|]. intros u. split; [|by intros []]. intros Hu. split; [done|]. rewrite He.
      intros (du & Hdu & _). set_solver.
    - cbn zeta. set (roots := disc_roots _ _). set (step := λ units unit, _). set (l := (range _ _ _).*1).
      assert (∀ l m, paths_ok m → paths_ok (foldl step m l) ∧ ∀ u, is_Some (foldl step m l !! u) ↔
        is_Some (m !! u) ∧ ¬ (u ∈ l ∧ inside_disc (w_discUnitPaths w) u)) as Hl.
      { clear l. induction l as [|x l IH]; intros m Hm; cbn [foldl].
        - split; [done|]. intros u. split; [|by intros []]. intros Hu. split; [done|]. by intros [?%elem_of_nil _].
        - pose proof (containing_spec order (w_discUnitPaths w) x) as Hx. fold roots in Hx. unfold step at 2 4.
          destruct (containingDiscUnit order (normalizePath x) roots) as [du|].
          + destruct (IH (mergeIntoDiscUnit x du m)) as [H1 H2]; [by apply merge_paths|]. split; [done|].
            intros u. rewrite H2, merge_keys. rewrite elem_of_cons.
            assert (inside_disc (w_discUnitPaths w) x) by (apply Hx; by eexists).
            destruct (decide (u = x)) as [->|]; naive_solver.
          + destruct (IH m Hm) as [H1 H2]. split; [done|]. intros u. rewrite H2, elem_of_cons.
            assert (¬ inside_disc (w_discUnitPaths w) x) by (intros Hi; apply Hx in Hi; by destruct Hi).
            destruct (decide (u = x)) as [->|]; naive_solver. }
      destruct (Hl l (w_orphanUnits w) Hp) as [H1 H2]. split; [done|]. intros u. rewrite H2.
      split; intros [[o Hu] Hn]; (split; [by eexists|]); intros Hi; apply Hn; [|tauto]. split; [|done].
      apply (list_elem_of_fmap_2 fst _ (u, o)). by apply elem_of_range. }
  assert (o_Path <$> (range order 4 units).*2 = (range order 4 units).*1) as ->.
  { assert (∀ l, (∀ v o, (v, o) ∈ l → units !! v = Some o) → o_Path <$> l.*2 = l.*1) as Hl.
    { induction l as [|[v o] l IH]; intros Hin; [done|]. cbn. rewrite (Hpu v o) by (apply Hin; by left).
      f_equal. apply IH. intros v' o' Hv. apply Hin. by right. }
    apply Hl. intros v o. apply elem_of_range. }
  split; [apply NoDup_range|]. intros u. rewrite <- Hk. split.
  - intros ([v o] & -> & Hv)%list_elem_of_fmap. apply elem_of_range in Hv. by eexists.
  - intros [o Ho]. apply (list_elem_of_fmap_2 fst _ (u, o)). by apply elem_of_range.
Qed.

End merging.

(** ** The unit of a file *)

Section units.
Context `{!NFC, !UnicodeCase}.
Context (fs : FS) (tfm : TorrentFileMap) (ignorePaths : list string) (rs : path).

(** The unit of a file when nothing is cached. *)
Definition disc_unit (p : path) : string * bool :=
  (discOrphanUnitWithContext fs tfm ignorePaths (abs_path rs) (abs_path p) ∅).1.

Context (Hwf : fs_wf fs).

Lemma wf_prefix q r e : fs !! (q ++ r) = Some e → r ≠ [] → ∃ err, fs !! q = Some (EDir err).
Proof.
  revert e. induction r as [|n r IH] using rev_ind; intros e He Hr; [done|].
  rewrite app_assoc in He. destruct Hwf as [_ Hup]. destruct (Hup _ _ _ He) as [err Hd].
  destruct (decide (r = [])) as [->|Hne]; [rewrite app_nil_r in Hd; by exists err|by eapply IH].
Qed.

Lemma findDiscMarker_Some segs i s u :
  findDiscMarker segs = Some (i, s, u) →
  ∃ rest, segs = take i segs ++ s :: rest ∧ length (take i segs) = i ∧ u = ToUpper s ∧ u ∈ discLayoutMarkers.
Proof.
  revert i s u. induction segs as [|seg segs IH]; intros i s u; [done|]. cbn [findDiscMarker].
  case_bool_decide as Hm.
  - intros [= <- <- <-]. by exists segs.
  - destruct (findDiscMarker segs) as [[[j s'] u']|] eqn:E; [|done]. intros [= <- <- <-].
    destruct (IH _ _ _ eq_refl) as (rest & Hs & Hl & Hu & Hin). exists rest. cbn [take app length].
    split_and!; [by f_equal|by f_equal|done|done].
Qed.

Lemma discRelativeSegments_abs p :
  Forall plain (rs ++ p) →
  discRelativeSegments (abs_path rs) (abs_path (rs ++ p)) = None ∨
  ∃ segs n, p = segs ++ [n] ∧ segs ≠ [] ∧
    discRelativeSegments (abs_path rs) (abs_path (rs ++ p)) = Some segs.
Proof.
  intros Hp. unfold discRelativeSegments. rewrite Rel_abs by done. pose proof Hp as [_ Hpp]%Forall_app.
  case_bool_decide as E; [by left|]. destruct (HasPrefix _ _); [by left|].
  destruct p as [|n segs _] using rev_ind; [done|]. rewrite Dir_unsplit by done. cbn zeta.
  destruct (decide (segs = [])) as [->|Es]; [by left|]. rewrite (bool_decide_false (segs = [])) by done. pose proof Hpp as [Hsegs _]%Forall_app.
  rewrite bool_decide_false.
  - right. exists segs, n. split_and!; [done..|]. f_equal.
    apply components_unsplit; [done|by apply plain_elements].
  - intros Hd. pose proof (clean_components_unsplit segs Es Hsegs) as Hc. rewrite Hd in Hc.
    change (clean_components ".") with (@nil string) in Hc. by subst.
Qed.

Lemma buildDiscCandidatePaths_abs segs i s rest :
  Forall plain (rs ++ segs) → segs = take i segs ++ s :: rest → length (take i segs) = i →
  buildDiscCandidatePaths (abs_path rs) segs i s =
  (abs_path (rs ++ if bool_decide (i = 0%nat) then [s] else take i segs), abs_path (rs ++ take i segs ++ [s])).
Proof.
  intros Hp Hsegs Hi. unfold buildDiscCandidatePaths. set (us := take i segs) in *.
  assert (Forall plain (rs ++ us ++ [s])) as Hps.
  { rewrite Hsegs in Hp. rewrite !Forall_app in *. destruct Hp as (? & ? & [? _]%Forall_cons). auto. }
  destruct i as [|i].
  - change us with (@nil string). cbn [app]. rewrite bool_decide_true by done.
    assert (PathJoin [abs_path rs; s] = abs_path (rs ++ [s])) as -> by (by apply (PathJoin_abs rs [s])).
    by rewrite Clean_abs_path.
  - rewrite (bool_decide_false (S i = 0%nat)) by done.
    assert (us ≠ []) as Hne by (intros E; by rewrite E in Hi).
    assert (Forall plain us) as Hu by (rewrite !Forall_app in Hps; tauto).
    assert (Forall plain (us ++ [s])) as Hus by (rewrite !Forall_app in *; tauto).
    assert (Forall plain (rs ++ us)) as Hru by (rewrite !Forall_app in *; tauto).
    assert (unsplit us ≠ ".") as Hdot.
    { intros Hd. pose proof (clean_components_unsplit us Hne Hu) as Hc. by rewrite Hd in Hc; subst us. }
    rewrite PathJoin_plain by done.
    rewrite (bool_decide_false _ Hdot), (bool_decide_false _ (unsplit_not_empty us Hne Hu)). cbn [orb].
    rewrite PathJoin_rel by done. rewrite !PathJoin_abs, !Clean_abs_path by (done || by destruct us). done.
Qed.

(** How the unit of a file is found: it is the file, a directory above it, or a
    decision on the folder of a marker. *)
Lemma discOrphanUnit_cases p : Forall plain (rs ++ p) →
  let unit := discOrphanUnitWithContext fs tfm ignorePaths (abs_path rs) (abs_path (rs ++ p)) in
  (∀ cache, unit cache = (abs_path (rs ++ p), false, cache)) ∨
  (∃ us r, us ≠ [] ∧ r ≠ [] ∧ p = us ++ r ∧ ∀ cache, unit cache = (abs_path (rs ++ us), true, cache)) ∨
  (∃ us seg r, us ≠ [] ∧ r ≠ [] ∧ p = us ++ seg :: r ∧ ToUpper seg ∈ discLayoutMarkers ∧
   ∀ cache, unit cache = discUnitFromParentMarker fs tfm ignorePaths (abs_path (rs ++ p)) (abs_path (rs ++ us))
                           (abs_path (rs ++ us ++ [seg])) (ToUpper seg) cache).
Proof.
  intros Hp. cbn zeta. unfold discOrphanUnitWithContext. cbn zeta.
  rewrite !Clean_abs_path by (done || by apply Forall_app in Hp as [? _]).
  destruct (discRelativeSegments_abs p Hp) as [->|(segs & n & -> & Hsegs & ->)]; [by left|].
  destruct (findDiscMarker segs) as [[[i seg] u]|] eqn:Em; [|by left].
  destruct (findDiscMarker_Some segs i seg u Em) as (rest & Es & Hi & -> & Hu).
  assert (Forall plain (rs ++ segs)) as Hps by (rewrite app_assoc in Hp; by apply Forall_app in Hp as [? _]).
  rewrite (buildDiscCandidatePaths_abs segs i seg rest Hps Es Hi).
  set (us := take i segs) in *.
  assert (∀ k : path, k ≠ [] → Forall plain (rs ++ k) → abs_path (rs ++ k) ≠ abs_path rs) as Hroot.
  { intros k Hk Hpk E. pose proof Hpk as [Hr _]%Forall_app. apply abs_path_inj in E; [|done..].
    apply (f_equal length) in E. rewrite length_app in E. destruct k; [done|cbn [length] in E; lia]. }
  rewrite Es in Hps. destruct i as [|i].
  - rewrite (bool_decide_true (0%nat = 0%nat)) by done. change us with (@nil string) in *. cbn [app] in *.
    rewrite bool_decide_false.
    2: { apply Hroot; [done|]. change (seg :: rest) with ([seg] ++ rest) in Hps. rewrite app_assoc in Hps.
         by apply Forall_app in Hps as [? _]. }
    destruct (protected _ _); [by left|]. right. left. exists [seg], (rest ++ [n]).
    split_and!; [done|by destruct rest|by rewrite Es|done].
  - rewrite (bool_decide_false (S i = 0%nat)) by done.
    assert (us ≠ []) as Hne by (intros E; by rewrite E in Hi).
    rewrite bool_decide_false.
    2: { apply Hroot; [done|]. rewrite app_assoc in Hps. by apply Forall_app in Hps as [? _]. }
    right. right. exists us, seg, (rest ++ [n]). split_and!; [done|by destruct rest| |done|done].
    rewrite Es at 1. by rewrite <- app_assoc.
Qed.

Lemma marker_key_inj a b u u' :
  u ∈ discLayoutMarkers → u' ∈ discLayoutMarkers → a +++ "|" +++ u = b +++ "|" +++ u' → a = b ∧ u = u'.
Proof.
  intros Hu Hu' E. apply (f_equal to_bytes) in E. rewrite !to_bytes_app in E.
  assert (u = u') as <-.
  { apply (f_equal last) in E. rewrite !last_app in E.
    unfold discLayoutMarkers in *. rewrite !elem_of_cons, elem_of_nil in *.
    destruct Hu as [->|[->|[]]], Hu' as [->|[->|[]]]; done. }
  split; [|done]. apply app_inv_tail in E. by apply to_bytes_inj.
Qed.

(** A file whose folder has a marker is decided on by the folder and the marker;
    the key is what the cache knows them by. *)
Definition own_decision (p : path) : option (string * discUnitDecision) :=
  head (map_to_list (discOrphanUnitWithContext fs tfm ignorePaths (abs_path rs) (abs_path p) ∅).2).

Lemma discParentMarker_own originalPath candidateAbs markerAbs markerUpper :
  let key := normalizePath candidateAbs +++ "|" +++ markerUpper in
  let d := chooseDiscUnit fs tfm ignorePaths candidateAbs markerAbs markerUpper in
  (discUnitFromParentMarker fs tfm ignorePaths originalPath candidateAbs markerAbs markerUpper ∅).2 = {[key := d]} ∧
  ∀ cache, discUnitFromParentMarker fs tfm ignorePaths originalPath candidateAbs markerAbs markerUpper cache =
    (unit_of_decision originalPath (default d (cache !! key)),
     match cache !! key with Some _ => cache | None => <[key := d]> cache end).
Proof.
  cbn zeta. unfold discUnitFromParentMarker. split; [by rewrite lookup_empty|].
  intros cache. by destruct (cache !! _).
Qed.

Lemma own_decision_cases p : Forall plain (rs ++ p) →
  let unit := discOrphanUnitWithContext fs tfm ignorePaths (abs_path rs) (abs_path (rs ++ p)) in
  own_decision (rs ++ p) = None ∧ (∀ cache, unit cache = (disc_unit (rs ++ p), cache)) ∧
    (disc_unit (rs ++ p) = (abs_path (rs ++ p), false) ∨
     ∃ us r, us ≠ [] ∧ r ≠ [] ∧ p = us ++ r ∧ disc_unit (rs ++ p) = (abs_path (rs ++ us), true)) ∨
  ∃ us seg r d, us ≠ [] ∧ r ≠ [] ∧ p = us ++ seg :: r ∧ ToUpper seg ∈ discLayoutMarkers ∧
    own_decision (rs ++ p) = Some (normalizePath (abs_path (rs ++ us)) +++ "|" +++ ToUpper seg, d) ∧
    d = chooseDiscUnit fs tfm ignorePaths (abs_path (rs ++ us)) (abs_path (rs ++ us ++ [seg])) (ToUpper seg) ∧
    ∀ cache, unit cache =
      let key := normalizePath (abs_path (rs ++ us)) +++ "|" +++ ToUpper seg in
      (unit_of_decision (abs_path (rs ++ p)) (default d (cache !! key)),
       match cache !! key with Some _ => cache | None => <[key := d]> cache end).
Proof.
  intros Hp. cbn zeta. unfold own_decision, disc_unit.
  destruct (discOrphanUnit_cases p Hp) as [Hu|[(us & r & Hne & Hr & Ep & Hu)|(us & seg & r & Hne & Hr & Ep & Hseg & Hu)]].
  - left. rewrite Hu. cbn [fst snd]. rewrite map_to_list_empty. split_and!; [done|done|by left].
  - left. rewrite Hu. cbn [fst snd]. rewrite map_to_list_empty. split_and!; [done|done|right]. by exists us, r.
  - right. rewrite Hu. edestruct discParentMarker_own as [E Hc]. rewrite E, map_to_list_singleton. cbn [head].
    exists us, seg, r, (chooseDiscUnit fs tfm ignorePaths (abs_path (rs ++ us)) (abs_path (rs ++ us ++ [seg])) (ToUpper seg)).
    split_and!; try done. intros cache. by rewrite Hu, Hc.
Qed.

(** What a decision chooses is the folder or the marker in it. *)
Lemma chooseDiscUnit_chosen candidateAbs markerAbs markerUpper :
  let d := chooseDiscUnit fs tfm ignorePaths candidateAbs markerAbs markerUpper in
  disableGrouping d = true ∨ disableGrouping d = false ∧ (chosenUnit d = candidateAbs ∨ chosenUnit d = markerAbs).
Proof.
  cbn zeta. unfold chooseDiscUnit. cbn zeta.
  destruct (protected _ candidateAbs), (protected _ markerAbs); cbn; auto.
  destruct (discParentIsSafeDiscRoot _ _ _); cbn; auto.
Qed.

(** ** What a walk finds *)

Context (now : path → Z) (canceled : path → option os_error → bool) (gracePeriod maxFiles : Z).
Context (Hmax : (maxFiles ≤ 0)%Z).

Definition pruned (p : path) : bool :=
  isIgnoredPath (abs_path p) ignorePaths || isIgnoredOrphanDirName (Base (abs_path p)).

(** A file of a torrent that the walk looks at. *)
Definition used_file (p : path) : Prop :=
  isIgnoredPath (abs_path p) ignorePaths = false ∧ Has tfm (normalizePath (abs_path p)) = true.

(** A file that belongs to no torrent, is not ignored and old enough. *)
Definition orphan_file (p : path) (info : FileInfo) : Prop :=
  isIgnoredPath (abs_path p) ignorePaths = false ∧ Has tfm (normalizePath (abs_path p)) = false ∧
  isIgnoredOrphanFileName (Base (abs_path p)) = false ∧
  (gracePeriod ≤ time_sub (now p) (fi_ModTime info))%Z.

(** *** What earlier files decide *)

(** Something that is so of an entry and of what was visited before it. *)
Definition at_some_step (Q : list (path * entry) → path * entry → Prop) (l : list (path * entry)) : Prop :=
  ∃ l1 x l2, l = l1 ++ x :: l2 ∧ Q l1 x.

(** The decision under a key of the first file that has one. *)
Definition decision_of (k : string) (x : path * entry) : option discUnitDecision :=
  match x.2 with
  | EFile _ =>
    if isIgnoredPath (abs_path x.1) ignorePaths then None else
    match own_decision x.1 with
    | Some (k', d) => if bool_decide (k' = k) then Some d else None
    | None => None
    end
  | _ => None
  end.
Definition first_decision (l : list (path * entry)) (k : string) : option discUnitDecision :=
  head (omap (decision_of k) l).

(** The unit of a file after the entries of [l]. *)
Definition unit_at (l : list (path * entry)) (p : path) : string * bool :=
  match own_decision p with
  | None => disc_unit p
  | Some (k, d) => unit_of_decision (abs_path p) (default d (first_decision l k))
  end.

(** A file with one link whose inode an earlier file had, which is a file of a
    torrent or itself an orphan file. *)
Definition seen (l : list (path * entry)) (k : Z * Z) : Prop :=
  ∃ p info, (p, EFile (Some info)) ∈ l ∧ (fi_nlink info ≤ 1)%Z ∧ inodeKeyFromInfo info = k ∧
    (used_file p ∨ orphan_file p info).
Definition duplicate (l : list (path * entry)) (info : FileInfo) : Prop :=
  (fi_nlink info ≤ 1)%Z ∧ seen l (inodeKeyFromInfo info).

(** A file of a torrent has the disc folder [u] as its unit. *)
Definition uses (l : list (path * entry)) (u : string) : Prop :=
  at_some_step (λ l x, ∃ info, x.2 = EFile info ∧ used_file x.1 ∧ unit_at l x.1 = (u, true)) l.

(** An orphan file that is no duplicate has the unit [u]. *)
Definition finds (u : string) (d : bool) (l : list (path * entry)) (x : path * entry) : Prop :=
  ∃ info, x.2 = EFile (Some info) ∧ orphan_file x.1 info ∧ ¬ duplicate l info ∧ unit_at l x.1 = (u, d).
Definition orphaned (l : list (path * entry)) (u : string) (d : bool) : Prop := at_some_step (finds u d) l.

(** A disc folder found before any file of a torrent in it. *)
Definition disc_found (l : list (path * entry)) (u : string) : Prop :=
  at_some_step (λ l x, finds u true l x ∧ ¬ uses l u) l.

Lemma at_some_step_snoc Q l y : at_some_step Q (l ++ [y]) ↔ at_some_step Q l ∨ Q l y.
Proof.
  unfold at_some_step. split.
  - intros (l1 & x & l2 & E & HQ). destruct l2 as [|z l2 _] using rev_ind.
    + apply app_inj_tail in E as [-> ->]. by right.
    + left. rewrite app_comm_cons, app_assoc in E. apply app_inj_tail in E as [-> ->]. by exists l1, x, l2.
  - intros [(l1 & x & l2 & -> & HQ)|HQ]; [exists l1, x, (l2 ++ [y]); by rewrite <- app_assoc|by exists l, y, []].
Qed.

Lemma at_some_step_nil Q : ¬ at_some_step Q [].
Proof. intros (l1 & x & l2 & E & _). by destruct l1. Qed.

Lemma at_some_step_prefix Q l1 l2 : at_some_step Q l1 → at_some_step Q (l1 ++ l2).
Proof. intros (a & x & b & -> & HQ). exists a, x, (b ++ l2). by rewrite <- app_assoc. Qed.

Lemma first_decision_snoc l x k :
  first_decision (l ++ [x]) k = match first_decision l k with Some d => Some d | None => decision_of k x end.
Proof.
  unfold first_decision. rewrite omap_app. destruct (omap (decision_of k) l) as [|d ds]; [|done].
  cbn. by destruct (decision_of k x).
Qed.

Lemma first_decision_from l k d : first_decision l k = Some d →
  ∃ p info, (p, EFile info) ∈ l ∧ own_decision p = Some (k, d).
Proof.
  unfold first_decision. induction l as [|[p e] l IH]; [done|]. cbn. unfold decision_of at 1. cbn [fst snd].
  assert (head (omap (decision_of k) l) = Some d → ∃ p' info, (p', EFile info) ∈ (p, e) :: l ∧ own_decision p' = Some (k, d)) as Hlater.
  { intros (q & info & Hq & Ho)%IH. exists q, info. split; [by right|done]. }
  destruct e as [info| |err]; [|apply Hlater..]. destruct (isIgnoredPath _ _); [apply Hlater|].
  destruct (own_decision p) as [[k' d']|] eqn:Ho; [|apply Hlater]. case_bool_decide as Ek; [|apply Hlater].
  cbn. intros [= ->]. subst k'. exists p, info. split; [by left|done].
Qed.

(** What is done with the cache is what the earlier files decided. *)
Definition cache_ok (l : list (path * entry)) (cache : gmap string discUnitDecision) : Prop :=
  ∀ k, cache !! k = first_decision l k.

Lemma unit_computed l p e info cache :
  fs !! (rs ++ p) = Some e → cache_ok l cache → isIgnoredPath (abs_path (rs ++ p)) ignorePaths = false →
  let r := discOrphanUnitWithContext fs tfm ignorePaths (abs_path rs) (abs_path (rs ++ p)) cache in
  r.1 = unit_at l (rs ++ p) ∧ cache_ok (l ++ [(rs ++ p, EFile info)]) r.2.
Proof.
  intros He Hc Hi. cbn zeta. destruct Hwf as [Hplain _]. unfold unit_at, cache_ok.
  assert (∀ k, decision_of k (rs ++ p, EFile info) =
    match own_decision (rs ++ p) with Some (k', d) => if bool_decide (k' = k) then Some d else None | None => None end) as Hd.
  { intros k. unfold decision_of. cbn [fst snd]. by rewrite Hi. }
  destruct (own_decision_cases p (Hplain _ _ He)) as [(Ho & Hu & _)|(us & seg & r & d & _ & _ & _ & _ & Ho & _ & Hu)];
    rewrite Hu, Ho in *.
  - split; [done|]. intros k. cbn [snd]. rewrite first_decision_snoc, Hd, <- Hc. by destruct (cache !! k).
  - cbn zeta. rewrite <- Hc. split; [done|]. intros k. cbn [snd]. rewrite first_decision_snoc, Hd.
    rewrite <- Hc. destruct (cache !! (_ +++ _)) as [d'|] eqn:Ek.
    + case_bool_decide as E; [|by destruct (cache !! k)]. rewrite <- E, Ek. done.
    + case_bool_decide as E; [rewrite <- E, Ek; by rewrite lookup_insert_eq|].
      rewrite lookup_insert_ne by done. by destruct (cache !! k).
Qed.

(** Folders that share a decision: they have the same normal form, or they are
    markers of the same kind in such folders. *)
Definition same_folder (f g : path) : Prop :=
  normalizePath (abs_path f) = normalizePath (abs_path g) ∨
  ∃ c m c' m', f = c ++ [m] ∧ g = c' ++ [m'] ∧ normalizePath (abs_path c) = normalizePath (abs_path c') ∧
    ToUpper m = ToUpper m' ∧ ToUpper m ∈ discLayoutMarkers.

Definition in_fs (l : list (path * entry)) : Prop := ∀ p e, (p, e) ∈ l → fs !! p = Some e ∧ rs `prefix_of` p.

(** The unit of a file is the file, or a folder strictly below the root that
    shares its decision with a folder above the file. *)
Lemma unit_at_shape l p e : in_fs l → fs !! (rs ++ p) = Some e →
  unit_at l (rs ++ p) = (abs_path (rs ++ p), false) ∨
  ∃ us r vs t, us ≠ [] ∧ r ≠ [] ∧ is_Some (fs !! (rs ++ us ++ r)) ∧ unit_at l (rs ++ p) = (abs_path (rs ++ us), true) ∧
    vs ≠ [] ∧ t ≠ [] ∧ p = vs ++ t ∧ same_folder (rs ++ us) (rs ++ vs).
Proof.
  intros Hl He. destruct Hwf as [Hplain _]. unfold unit_at.
  destruct (own_decision_cases p (Hplain _ _ He)) as [(Ho & _ & Hu)|(us & seg & r & d & Hne & Hr & Ep & Hseg & Ho & Ed & _)];
    rewrite Ho; clear Ho.
  { destruct Hu as [->|(us & r & Hne & Hr & -> & ->)]; [by left|right]. exists us, r, us, r.
    split_and!; [done|done|by eexists|done..|by left]. }
  set (k := _ +++ _).
  assert (∃ us' seg' r', us' ≠ [] ∧ r' ≠ [] ∧ is_Some (fs !! (rs ++ us' ++ seg' :: r')) ∧
    normalizePath (abs_path (rs ++ us')) = normalizePath (abs_path (rs ++ us)) ∧ ToUpper seg' = ToUpper seg ∧
    default d (first_decision l k) =
      chooseDiscUnit fs tfm ignorePaths (abs_path (rs ++ us')) (abs_path (rs ++ us' ++ [seg'])) (ToUpper seg'))
    as (us' & seg' & r' & Hne' & Hr' & Hin' & Hnorm & Hup & ->).
  { destruct (first_decision l k) as [d'|] eqn:Ef; cbn [default from_option id].
    - destruct (first_decision_from _ _ _ Ef) as (q & info & Hq & Ho). destruct (Hl _ _ Hq) as [Hq' [p' ->]].
      destruct (own_decision_cases p' (Hplain _ _ Hq')) as [(Ho' & _)|(us' & seg' & r' & d'' & Hne' & Hr' & -> & Hseg' & Ho' & Ed' & _)];
        rewrite Ho' in Ho; [done|]. injection Ho as Ek ->. apply marker_key_inj in Ek as [Hn Hk]; [|done..].
      exists us', seg', r'. split_and!; [done|done|by eexists|done..].
    - exists us, seg, r. split_and!; [done|done|subst p; by eexists|done..]. }
  destruct (chooseDiscUnit_chosen (abs_path (rs ++ us')) (abs_path (rs ++ us' ++ [seg'])) (ToUpper seg')) as
    [Hg|[Hg [Hc|Hc]]]; unfold unit_of_decision; rewrite Hg; [by left|right; rewrite Hc..].
  - exists us', (seg' :: r'), us, (seg :: r). split_and!; [done..|by left].
  - exists (us' ++ [seg']), r', (us ++ [seg]), r. rewrite <- !app_assoc.
    split_and!; [by destruct us'|done|done|done|by destruct us|done|done|]. right.
    exists (rs ++ us'), seg', (rs ++ us), seg. rewrite <- !app_assoc, Hup. done.
Qed.

(** No file has the path of a disc folder. *)
Lemma unit_not_file l l' p p' e e' u : in_fs l → in_fs l' →
  fs !! p = Some e → rs `prefix_of` p → unit_at l p = (u, true) →
  fs !! p' = Some (EFile e') → rs `prefix_of` p' → unit_at l' p' = (u, false) → False.
Proof.
  intros Hl Hl' He [k ->] Hu He' [k' ->] Hu'.
  destruct (unit_at_shape l k e Hl He) as [E|(us & r & _ & _ & Hus & Hr & [er Her] & E & _)]; rewrite E in Hu; [done|].
  injection Hu as <-. destruct (unit_at_shape l' k' _ Hl' He') as [E'|(us' & r' & _ & _ & _ & _ & _ & E' & _)];
    rewrite E' in Hu'; [|done].
  apply (f_equal fst) in Hu' as Heq. cbn [fst] in Heq. destruct Hwf as [Hplain _].
  rewrite app_assoc in Her. pose proof (Hplain _ _ Her) as Hp. apply Forall_app in Hp as [Hp _].
  apply abs_path_inj in Heq; [|by eapply Hplain|done]. rewrite Heq in He'.
  destruct (wf_prefix (rs ++ us) r er) as [err Hd]; [done|done|]. by rewrite Hd in He'.
Qed.

(** ** One step of the walk *)

Record walk_ok (l : list (path * entry)) (w : Walker) : Prop := {
  wo_cache : cache_ok l (w_discUnitCache w);
  wo_inUse u : u ∈ w_discUnitsInUse w ↔ uses l u;
  wo_units u : is_Some (w_orphanUnits w !! u) ↔ ∃ d, orphaned l u d ∧ (d = true → ¬ uses l u);
  wo_paths u o : w_orphanUnits w !! u = Some o → o_Path o = u;
  wo_seen k : k ∈ w_seenInodes w ↔ seen l k;
  wo_discs u : u ∈ w_discUnitPaths w ↔ disc_found l u;
  wo_truncated : w_truncated w = false }.

Lemma seen_snoc l p e k :
  seen (l ++ [(p, e)]) k ↔ seen l k ∨
  ∃ info, e = EFile (Some info) ∧ (fi_nlink info ≤ 1)%Z ∧ inodeKeyFromInfo info = k ∧ (used_file p ∨ orphan_file p info).
Proof.
  unfold seen. split.
  - intros (q & info & [Hq|[= -> <-]%list_elem_of_singleton]%elem_of_app & Hrest); [left; by exists q, info|right; by exists info].
  - intros [(q & info & Hq & Hrest)|(info & -> & Hrest)].
    + exists q, info. split; [|done]. apply elem_of_app. by left.
    + exists p, info. split; [|done]. apply elem_of_app. right. by left.
Qed.

(** An entry that is neither in use nor an orphan file changes the cache at most. *)
Lemma walk_ok_neutral l p e w cache :
  (∀ info, e = EFile info → ¬ used_file p) → (∀ info, e = EFile (Some info) → ¬ orphan_file p info) →
  cache_ok (l ++ [(p, e)]) cache → walk_ok l w → walk_ok (l ++ [(p, e)]) (with_cache cache w).
Proof.
  intros Hu Ho Hc [W1 W2 W3 W4 W5 W6 W7].
  assert (∀ u, uses (l ++ [(p, e)]) u ↔ uses l u) as Eu.
  { intros u. unfold uses. rewrite at_some_step_snoc. split; [|by left]. intros [?|(info & E & Hx & _)]; [done|].
    by destruct (Hu info E). }
  assert (∀ u d x, finds u d l x → x = (p, e) → False) as Hf.
  { intros u d x (info & E & Hx & _) ->. by destruct (Ho info E). }
  assert (∀ u d, orphaned (l ++ [(p, e)]) u d ↔ orphaned l u d) as Eo.
  { intros u d. unfold orphaned. rewrite at_some_step_snoc. split; [|by left]. intros [?|Hx]; [done|]. by destruct (Hf _ _ _ Hx). }
  split; cbn; try done.
  - intros u. by rewrite Eu.
  - intros u. rewrite W3. by setoid_rewrite Eo; setoid_rewrite Eu.
  - intros k. rewrite W5, seen_snoc. split; [by left|]. intros [?|(info & E & _ & _ & [Hx|Hx])]; [done| |].
    + by destruct (Hu _ E).
    + by destruct (Ho _ E).
  - intros u. rewrite W6. unfold disc_found. rewrite at_some_step_snoc. split; [by left|].
    intros [?|[Hx _]]; [done|]. by destruct (Hf _ _ _ Hx).
Qed.

Lemma with_own_cache w : with_cache (w_discUnitCache w) w = w.
Proof. by destruct w. Qed.

Lemma cache_ok_snoc l x cache : (∀ k, decision_of k x = None) → cache_ok l cache → cache_ok (l ++ [x]) cache.
Proof. intros Hx Hc k. rewrite first_decision_snoc, Hx, <- Hc. by destruct (cache !! k). Qed.

Lemma walk_ok_skip l p e w :
  (∀ info, e = EFile info → isIgnoredPath (abs_path p) ignorePaths = true) →
  walk_ok l w → walk_ok (l ++ [(p, e)]) w.
Proof.
  intros He Hw. rewrite <- (with_own_cache w). apply walk_ok_neutral; [..|done].
  - intros info E [Hi _]. by rewrite (He _ E) in Hi.
  - intros info E [Hi _]. by rewrite (He _ E) in Hi.
  - apply cache_ok_snoc; [|apply Hw]. intros k. unfold decision_of. cbn [fst snd].
    destruct e as [info| |]; [|done..]. by rewrite (He info eq_refl).
Qed.

Lemma shouldSkipDuplicate_spec info w :
  let w' := (shouldSkipDuplicate info w).1 in
  w_orphanUnits w' = w_orphanUnits w ∧ w_discUnitsInUse w' = w_discUnitsInUse w ∧
  w_discUnitCache w' = w_discUnitCache w ∧ w_discUnitPaths w' = w_discUnitPaths w ∧
  w_truncated w' = w_truncated w ∧
  (∀ k, k ∈ w_seenInodes w' ↔ k ∈ w_seenInodes w ∨ (fi_nlink info ≤ 1)%Z ∧ inodeKeyFromInfo info = k) ∧
  ((shouldSkipDuplicate info w).2 = true ↔ (fi_nlink info ≤ 1)%Z ∧ inodeKeyFromInfo info ∈ w_seenInodes w).
Proof.
  unfold shouldSkipDuplicate. destruct (Z.ltb_spec 1 (fi_nlink info)) as [Hn|Hn].
  { cbn. split_and!; try done; [intros k; split; [by left|]; intros [?|[? _]]; [done|lia]|split; [done|]; intros [? _]; lia]. }
  case_bool_decide as Hk; cbn; (split_and!; try done).
  - intros k. split; [by left|]. intros [?|[_ <-]]; done.
  - intros k. rewrite elem_of_union, elem_of_singleton. naive_solver.
  - split; [done|]. by intros [_ ?].
Qed.

Lemma in_fs_app l1 l2 : in_fs (l1 ++ l2) → in_fs l1.
Proof. intros Hl q e Hq. apply Hl, elem_of_app. by left. Qed.

Lemma orphaned_file l u d : in_fs l → orphaned l u d →
  ∃ l1 l2 p info, l = l1 ++ (p, EFile (Some info)) :: l2 ∧ fs !! p = Some (EFile (Some info)) ∧ rs `prefix_of` p ∧
    orphan_file p info ∧ unit_at l1 p = (u, d).
Proof.
  intros Hl (l1 & [p e] & l2 & -> & info & E & Ho & _ & Hu). cbn [fst snd] in *. subst e.
  destruct (Hl p (EFile (Some info))) as [He Hr]; [apply elem_of_app; right; by left|].
  by exists l1, l2, p, info.
Qed.

(** A file of a torrent: its disc folder, if it has one, is in use. *)
Lemma step_used l w p info cache u d :
  walk_ok l w → in_fs (l ++ [(p, EFile info)]) → used_file p →
  unit_at l p = (u, d) → cache_ok (l ++ [(p, EFile info)]) cache →
  walk_ok (l ++ [(p, EFile info)])
    (match info with
     | Some info => (shouldSkipDuplicate info (markInUse u d (with_cache cache w))).1
     | None => markInUse u d (with_cache cache w)
     end).
Proof.
  intros [W1 W2 W3 W4 W5 W6 W7] Hl Hused Hu Hc. set (x := (p, EFile info)) in *.
  destruct (Hl p (EFile info)) as [He Hr]; [apply elem_of_app; right; by left|].
  set (w1 := markInUse u d (with_cache cache w)).
  assert (∀ v e, orphaned (l ++ [x]) v e ↔ orphaned l v e) as Eo.
  { intros v e. unfold orphaned. rewrite at_some_step_snoc. split; [|by left]. intros [?|(i & _ & (_ & Hh & _) & _)]; [done|].
    destruct Hused as [_ Hh']. cbn [fst x] in Hh. by rewrite Hh' in Hh. }
  assert (∀ v, uses (l ++ [x]) v ↔ uses l v ∨ d = true ∧ v = u) as Eu.
  { intros v. unfold uses. rewrite at_some_step_snoc. apply or_iff_compat_l. split.
    - intros (i & _ & _ & Hd). cbn [fst x] in Hd. rewrite Hu in Hd. by injection Hd as -> ->.
    - intros [-> ->]. by exists info. }
  assert (∀ v, disc_found (l ++ [x]) v ↔ disc_found l v) as Ed.
  { intros v. unfold disc_found. rewrite at_some_step_snoc. split; [|by left]. intros [?|[(i & _ & (_ & Hh & _) & _) _]]; [done|].
    destruct Hused as [_ Hh']. cbn [fst x] in Hh. by rewrite Hh' in Hh. }
  assert (∀ v, is_Some (w_orphanUnits w1 !! v) ↔ ∃ e, orphaned (l ++ [x]) v e ∧ (e = true → ¬ uses (l ++ [x]) v)) as Hunits.
  { intros v. setoid_rewrite Eo. setoid_rewrite Eu. destruct d; cbn [w1 markInUse with_cache w_orphanUnits].
    - destruct (decide (u = v)) as [<-|Hne].
      + rewrite lookup_delete_eq. split; [by intros []|]. intros (e & Ho & Hd). exfalso. destruct e; [apply (Hd eq_refl); by right|].
        destruct (orphaned_file l u false (in_fs_app _ _ Hl) Ho) as (l1 & l2 & q & i & El & Hq & Hrq & _ & Hq'). subst l.
        eapply (unit_not_file _ l1 p q); [by eapply in_fs_app| |done..].
        intros r' e' Hr'. apply Hl. apply elem_of_app. left. apply elem_of_app. by left.
      + rewrite lookup_delete_ne, W3 by done. split; intros (e & Ho & Hd); exists e; (split; [done|]); intros Et;
          specialize (Hd Et); naive_solver.
    - rewrite W3. split; intros (e & Ho & Hd); exists e; (split; [done|]); intros Et; specialize (Hd Et); naive_solver. }
  assert (∀ v, v ∈ w_discUnitsInUse w1 ↔ uses (l ++ [x]) v) as Huse.
  { intros v. rewrite Eu, <- W2. destruct d; cbn; [|naive_solver]. rewrite elem_of_union, elem_of_singleton. naive_solver. }
  assert (∀ v o, w_orphanUnits w1 !! v = Some o → o_Path o = v) as Hpaths.
  { intros v o. destruct d; cbn; [|apply W4]. rewrite lookup_delete_Some. intros [_ ?]. by apply W4. }
  assert (w_discUnitCache w1 = cache ∧ w_discUnitPaths w1 = w_discUnitPaths w ∧ w_truncated w1 = w_truncated w ∧
    w_seenInodes w1 = w_seenInodes w) as (F1 & F2 & F3 & F4) by (subst w1; by destruct d).
  destruct info as [info|].
  - pose proof (shouldSkipDuplicate_spec info w1) as (E1 & E2 & E3 & E4 & E5 & E6 & _).
    split; rewrite ?E1, ?E2, ?E3, ?E4, ?E5, ?F1, ?F2, ?F3; try done.
    + intros k. rewrite E6, F4, W5. unfold x. rewrite seen_snoc. apply or_iff_compat_l. split.
      * intros [Hn Hk]. exists info. split_and!; [done..|by left].
      * by intros (i & [= <-] & ? & ? & _).
    + intros v. by rewrite Ed.
  - split; rewrite ?F1, ?F2, ?F3, ?F4; try done.
    + intros k. rewrite W5. unfold x. rewrite seen_snoc. split; [by left|]. by intros [?|(i & [=] & _)].
    + intros v. by rewrite Ed.
Qed.

Lemma addOrUpdateUnit_spec u info w :
  let w' := (addOrUpdateUnit maxFiles u info w).1 in
  (∀ v, is_Some (w_orphanUnits w' !! v) ↔ v = u ∨ is_Some (w_orphanUnits w !! v)) ∧
  (∀ v o, w_orphanUnits w' !! v = Some o → (∀ v o, w_orphanUnits w !! v = Some o → o_Path o = v) → o_Path o = v) ∧
  w_discUnitsInUse w' = w_discUnitsInUse w ∧ w_discUnitCache w' = w_discUnitCache w ∧
  w_discUnitPaths w' = w_discUnitPaths w ∧ w_truncated w' = w_truncated w ∧ w_seenInodes w' = w_seenInodes w ∧
  (addOrUpdateUnit maxFiles u info w).2 = Continue.
Proof.
  unfold addOrUpdateUnit. rewrite (proj2 (Z.ltb_ge 0 maxFiles)) by done. cbn [andb].
  destruct (w_orphanUnits w !! u) as [o0|] eqn:E; cbn; split_and!; try done;
    try (intros v; destruct (decide (u = v)) as [<-|Hne];
      [rewrite lookup_insert_eq; split; [by left|by eexists]|rewrite lookup_insert_ne by done; naive_solver]);
    intros v o; (destruct (decide (u = v)) as [<-|Hne];
      [rewrite lookup_insert_eq; intros [= <-]; cbn; auto|rewrite lookup_insert_ne by done; auto]).
Qed.

Lemma handleFile_continues p info w :
  (handleFile fs tfm ignorePaths now (abs_path rs) gracePeriod maxFiles None p info w).2 = Continue.
Proof.
  unfold handleFile. destruct (isIgnoredPath _ _); [done|].
  destruct (discOrphanUnitWithContext _ _ _ _ _ _) as [[u d] cache].
  destruct (Has _ _); [done|]. destruct (isIgnoredOrphanFileName _); [done|].
  destruct info as [info|]; [|done]. destruct (_ <? gracePeriod)%Z; [done|].
  destruct (shouldSkipDuplicate _ _) as [w1 dup]. destruct dup; [done|]. destruct (_ && _); [done|].
  apply addOrUpdateUnit_spec.
Qed.

(** What an orphan file adds. *)
Section found.
Context (l : list (path * entry)) (p : path) (info : FileInfo).
Context (Horphan : orphan_file p info).

Lemma orphan_not_used i : (p, EFile (Some info)).2 = EFile i → used_file p → False.
Proof. intros _ [_ Hu]. destruct Horphan as (_ & Ho & _). by rewrite Hu in Ho. Qed.

Lemma uses_orphan v : uses (l ++ [(p, EFile (Some info))]) v ↔ uses l v.
Proof.
  unfold uses. rewrite at_some_step_snoc. split; [|by left]. intros [?|(i & E & Hu & _)]; [done|].
  by destruct (orphan_not_used i E).
Qed.

Lemma finds_orphan u d : finds u d l (p, EFile (Some info)) ↔ ¬ duplicate l info ∧ unit_at l p = (u, d).
Proof.
  unfold finds. cbn [fst snd]. split; [by intros (i & [= <-] & _ & Hd & Hu)|]. intros [Hd Hu]. by exists info.
Qed.

Lemma seen_orphan k :
  seen (l ++ [(p, EFile (Some info))]) k ↔ seen l k ∨ (fi_nlink info ≤ 1)%Z ∧ inodeKeyFromInfo info = k.
Proof.
  rewrite seen_snoc. apply or_iff_compat_l. split; [by intros (i & [= <-] & ? & ? & _)|].
  intros [? ?]. exists info. split_and!; [done..|by right].
Qed.
End found.

(** The last part of handling an orphan file with the unit [u]. *)
Definition count_orphan (u : string) (d : bool) (info : FileInfo) (w : Walker) : Walker * walk_control string :=
  let '(w, dup) := shouldSkipDuplicate info w in
  if dup then (w, Continue)
  else if d && bool_decide (u ∈ w_discUnitsInUse w) then (w, Continue)
  else addOrUpdateUnit maxFiles u info (if d then note_disc_unit u w else w).

Lemma step_orphan l w p info cache u d :
  walk_ok l w → orphan_file p info → unit_at l p = (u, d) → cache_ok (l ++ [(p, EFile (Some info))]) cache →
  walk_ok (l ++ [(p, EFile (Some info))]) (count_orphan u d info (with_cache cache w)).1.
Proof.
  intros [W1 W2 W3 W4 W5 W6 W7] Ho Hu Hc. set (x := (p, EFile (Some info))) in *. unfold count_orphan.
  pose proof (shouldSkipDuplicate_spec info (with_cache cache w)) as (E1 & E2 & E3 & E4 & E5 & E6 & E7).
  destruct (shouldSkipDuplicate info (with_cache cache w)) as [w1 dup]. cbn [fst snd with_cache w_orphanUnits
    w_discUnitsInUse w_discUnitCache w_discUnitPaths w_truncated w_seenInodes] in *.
  rewrite W5 in E7. change (_ ∧ _) with (duplicate l info) in E7.
  assert (∀ k, k ∈ w_seenInodes w1 ↔ seen (l ++ [x]) k) as Hseen.
  { intros k. unfold x. by rewrite seen_orphan, E6, W5. }
  assert (∀ v, v ∈ w_discUnitsInUse w1 ↔ uses (l ++ [x]) v) as Huse by (intros v; unfold x; by rewrite uses_orphan, E2, W2).
  assert (∀ v e, orphaned (l ++ [x]) v e ↔ orphaned l v e ∨ ¬ duplicate l info ∧ (u, d) = (v, e)) as Eo.
  { intros v e. unfold orphaned. rewrite at_some_step_snoc. unfold x. by rewrite (finds_orphan l p info Ho), Hu. }
  assert (∀ v, disc_found (l ++ [x]) v ↔ disc_found l v ∨ (¬ duplicate l info ∧ (u, d) = (v, true)) ∧ ¬ uses l v) as Ed.
  { intros v. unfold disc_found. rewrite at_some_step_snoc. unfold x. by rewrite (finds_orphan l p info Ho), Hu. }
  assert (∀ v, uses (l ++ [x]) v ↔ uses l v) as Eu by (intros v; by apply uses_orphan).
  destruct dup.
  { apply proj1 in E7. specialize (E7 eq_refl). cbn [fst]. split; rewrite ?E1, ?E3, ?E4, ?E5; try done.
    - intros v. rewrite W3. setoid_rewrite Eo. setoid_rewrite Eu. split; intros (e & He & Hd); exists e; (split; [|done]); [by left|].
      by destruct He as [?|[? _]].
    - intros v. rewrite W6, Ed. naive_solver. }
  assert (¬ duplicate l info) as Hnd by (intros Hd; by apply E7 in Hd).
  destruct (d && bool_decide (u ∈ w_discUnitsInUse w1)) eqn:Ei.
  { apply andb_true_iff in Ei as [-> Hin%bool_decide_eq_true]. rewrite E2, W2 in Hin. cbn [fst].
    split; rewrite ?E1, ?E3, ?E4, ?E5; try done.
    - intros v. rewrite W3. setoid_rewrite Eo. setoid_rewrite Eu. split; intros (e & He & Hd); exists e; (split; [|done]); [by left|].
      destruct He as [?|[_ [= <- <-]]]; [done|]. by destruct (Hd eq_refl).
    - intros v. rewrite W6, Ed. split; [by left|]. intros [?|[[_ [= <-]] Hn]]; [done|]. by destruct (Hn Hin). }
  assert (d = true → ¬ uses l u) as Hnu.
  { intros ->. cbn [andb] in Ei. apply bool_decide_eq_false in Ei. by rewrite E2, W2 in Ei. }
  set (w2 := if d then note_disc_unit u w1 else w1).
  pose proof (addOrUpdateUnit_spec u info w2) as (A1 & A2 & A3 & A4 & A5 & A6 & A7 & _).
  assert (w_orphanUnits w2 = w_orphanUnits w ∧ w_discUnitsInUse w2 = w_discUnitsInUse w1 ∧ w_discUnitCache w2 = cache ∧
    w_seenInodes w2 = w_seenInodes w1 ∧ w_truncated w2 = w_truncated w ∧
    ∀ v, v ∈ w_discUnitPaths w2 ↔ v ∈ w_discUnitPaths w ∨ (u, d) = (v, true)) as (F1 & F2 & F3 & F4 & F5 & F6).
  { subst w2. destruct d; cbn; rewrite ?E1, ?E2, ?E3, ?E4, ?E5; split_and!; try done; intros v.
    - rewrite elem_of_union, elem_of_singleton. naive_solver.
    - naive_solver. }
  split; rewrite ?A3, ?A4, ?A5, ?A6, ?A7, ?F2, ?F3, ?F4, ?F5; try done.
  - intros v. rewrite A1, F1, W3. setoid_rewrite Eo. setoid_rewrite Eu. split.
    + intros [->|(e & He & Hd)]; [exists d; split; [by right|done]|exists e; split; [by left|done]].
    + intros (e & [He|[_ [= -> ->]]] & Hd); [right; by exists e|by left].
  - intros v o Hv. apply (A2 v o Hv). by rewrite F1.
  - intros v. rewrite F6, W6, Ed. naive_solver.
Qed.

Lemma step_file l w p info : walk_ok l w → in_fs (l ++ [(p, EFile info)]) →
  walk_ok (l ++ [(p, EFile info)])
    (handleFile fs tfm ignorePaths now (abs_path rs) gracePeriod maxFiles None p info w).1.
Proof.
  intros Hw Hl. unfold handleFile. destruct (isIgnoredPath (abs_path p) ignorePaths) eqn:Hi.
  { apply walk_ok_skip; [|done]. by intros. }
  destruct (Hl p (EFile info)) as [He [k ->]]; [apply elem_of_app; right; by left|].
  destruct (unit_computed l k _ info (w_discUnitCache w) He) as [Hu Hc]; [apply Hw|done|].
  destruct (discOrphanUnitWithContext _ _ _ _ _ _) as [[u d] cache]. cbn [fst snd] in Hu, Hc.
  destruct (Has tfm _) eqn:Hh.
  { cbn [fst]. by apply step_used. }
  assert (∀ i, EFile info = EFile i → ¬ used_file (rs ++ k)) as Hnu.
  { intros i _ [_ Hh']. by rewrite Hh in Hh'. }
  destruct (isIgnoredOrphanFileName (Base _)) eqn:Hname.
  { apply walk_ok_neutral; [done| |done..]. intros i _ (_ & _ & Hn & _). by rewrite Hname in Hn. }
  destruct info as [info|]; [|by apply walk_ok_neutral].
  destruct (Z.ltb_spec (time_sub (now (rs ++ k)) (fi_ModTime info)) gracePeriod) as [Hage|Hage].
  { apply walk_ok_neutral; [done| |done..]. intros i [= <-] (_ & _ & _ & Hn). lia. }
  pose proof (step_orphan l w (rs ++ k) info cache u d Hw) as Hstep. unfold count_orphan in Hstep.
  destruct (shouldSkipDuplicate info _) as [w1 dup]. destruct dup; [by apply Hstep|].
  destruct (_ && _); by apply Hstep.
Qed.

Definition callback : path → option entry → option os_error → Walker → Walker * walk_control string :=
  walk fs tfm ignorePaths now canceled (abs_path rs) gracePeriod maxFiles None.

(** The walk without cancellation and errors. *)
Definition steady (p : path) (d : option entry) (walkErr : option os_error) (w : Walker)
    : Walker * walk_control string :=
  match walkErr, d with
  | Some _, _ | _, None | _, Some ELink => (w, Continue)
  | None, Some (EDir _) => (w, handleDir ignorePaths p)
  | None, Some (EFile info) =>
    handleFile fs tfm ignorePaths now (abs_path rs) gracePeriod maxFiles None p info w
  end.

Lemma callback_steady p d err w :
  callback p d err w = steady p d err w ∨ ∃ msg, (callback p d err w).2 = Stop msg.
Proof.
  unfold callback, walk, steady. destruct (canceled p err); [right; by eexists|].
  destruct err as [e|]; [|by left]. unfold handleWalkErr. destruct (is_permission e); [by left|right; by eexists].
Qed.

Lemma step_visit l w p e : walk_ok l w → in_fs (l ++ [(p, e)]) →
  walk_ok (l ++ [(p, e)]) (visit steady pruned w (p, e)).
Proof.
  intros Hw Hl. unfold visit, steady. cbn [fst snd]. destruct e as [info| |err].
  - by apply step_file.
  - by apply walk_ok_skip.
  - assert (walk_ok (l ++ [(p, EDir err)]) w) by (by apply walk_ok_skip).
    destruct err as [msg|]; [|done]. by destruct (pruned p).
Qed.

(** What the walk visits, in its order. *)
Definition visited : list (path * entry) := visits fs rs pruned.

Lemma visited_in_fs l1 l2 : l1 ++ l2 = visited → in_fs l1.
Proof.
  intros E p e Hin. assert ((p, e) ∈ visited) as Hv by (rewrite <- E; apply elem_of_app; by left).
  apply elem_of_visits in Hv as (? & ? & _). done.
Qed.

Lemma walk_fold l2 : ∀ l1 w, l1 ++ l2 = visited → walk_ok l1 w →
  walk_ok visited (foldl (visit steady pruned) w l2).
Proof.
  induction l2 as [|[p e] l2 IH]; intros l1 w E Hw; cbn [foldl].
  { rewrite app_nil_r in E. by subst. }
  rewrite cons_middle, app_assoc in E. apply (IH _ _ E). apply step_visit; [done|by eapply visited_in_fs].
Qed.

Lemma walk_ok_start : walk_ok [] newScanWalker.
Proof.
  split; cbn; try done.
  - intros u. split; [set_solver|by intros ?%at_some_step_nil].
  - intros u. rewrite lookup_empty. split; [by intros []|by intros (d & ?%at_some_step_nil & _)].
  - intros k. split; [set_solver|]. by intros (p & info & ?%elem_of_nil & _).
  - intros u. split; [set_solver|by intros ?%at_some_step_nil].
Qed.

Lemma WalkDir_steady faults e :
  Lstat faults fs rs = inl e →
  ∃ w, WalkDir steady faults fs rs newScanWalker = (w, None) ∧ walk_ok visited w.
Proof.
  intros He. exists (foldl (visit steady pruned) newScanWalker visited). split.
  - refine (WalkDir_visits steady fs rs pruned _ _ faults newScanWalker e He).
    + intros p e' s _ _. unfold steady. destruct e' as [info| |err]; cbn [is_dir andb].
      * apply handleFile_continues.
      * done.
      * unfold handleDir, pruned. by destruct (isIgnoredPath _ _), (isIgnoredOrphanDirName _).
    + done.
  - apply (walk_fold _ []); [done|apply walk_ok_start].
Qed.

(** A walk that ends without an error has seen everything; it does when it is
    not cancelled and directories are unreadable for lack of permission only. *)
Lemma WalkDir_walk faults e :
  Lstat faults fs rs = inl e →
  ((∀ p err, canceled p err = false) →
   (∀ p msg, fs !! p = Some (EDir (Some msg)) → is_permission (OtherError msg) = true) →
   (WalkDir callback faults fs rs newScanWalker).2 = None) ∧
  ((WalkDir callback faults fs rs newScanWalker).2 = None →
   walk_ok visited (WalkDir callback faults fs rs newScanWalker).1).
Proof.
  intros He. destruct (WalkDir_steady faults e He) as (w & Hw & Hok). unfold WalkDir in *. rewrite He in *. split.
  - intros Hrun Hreadable. rewrite (walk_rest_congr callback steady), Hw; [done| |].
    + intros p d s _. unfold callback, walk, steady. by rewrite Hrun.
    + intros p msg s Hin. apply elem_of_subtree in Hin as [Hp _]. unfold callback, walk, steady.
      rewrite Hrun. unfold handleWalkErr. by rewrite (Hreadable _ _ Hp).
  - intros Hn. rewrite (walk_rest_unstopped callback steady), Hw by (done || apply callback_steady). done.
Qed.

(** ** The result of a walk *)

(** C38. A walk without a limit and a filter, as a scan walks, that ends without an
    error - as it does when it is not cancelled and directories are unreadable for
    lack of permission only - reports each unit once.  It reports a unit exactly
    when an orphan file that it visits (of no torrent, not ignored, old enough, and
    no second name of an inode of one link) has that unit when it is visited, no
    file of a torrent that it visits has it as its disc folder, and it does not lie
    in a disc folder that such an orphan file had before any file of a torrent had
    it.  The unit of a file below a marker is what the first file decides that the
    walk looks at below a folder and a marker that are the same up to normal form
    and letter case. *)
Theorem walk_exact (faults : Faults) (order : MapRange) (e : entry) :
  Lstat faults fs rs = inl e →
  let '(os, truncated, err) := walkScanRootWithUnitFilter faults fs now canceled order (abs_path rs) tfm
                                 ignorePaths gracePeriod maxFiles None in
  ((∀ p werr, canceled p werr = false) →
   (∀ p msg, fs !! p = Some (EDir (Some msg)) → is_permission (OtherError msg) = true) → err = None) ∧
  (err = None →
   truncated = false ∧ NoDup (o_Path <$> os) ∧
   ∀ u, u ∈ o_Path <$> os ↔
     (∃ d, orphaned visited u d ∧ (d = true → ¬ uses visited u)) ∧
     ¬ ∃ du, disc_found visited du ∧ isPathUnderNormalized (normalizePath u) (normalizePath du) = true).
Proof.
  intros He. unfold walkScanRootWithUnitFilter.
  assert (Forall plain rs) as Hp by (destruct Hwf as [Hplain _]; eapply Hplain; by eapply Lstat_inl).
  rewrite to_path_abs by done. destruct (WalkDir_walk faults e He) as [Hterm Hfound].
  unfold callback in *. destruct (WalkDir _ faults fs rs newScanWalker) as [w err]. cbn [fst snd] in *.
  split; [exact Hterm|]. intros ->. specialize (Hfound eq_refl).
  destruct (orphans_spec order w) as [Hn Hu]; [intros v o; apply (wo_paths _ _ Hfound)|].
  split_and!; [by eapply wo_truncated|done|]. intros u. rewrite Hu, (wo_units _ _ Hfound).
  unfold inside_disc. by setoid_rewrite (wo_discs _ _ Hfound).
Qed.

(** What a walk without an error reports, when its root exists: units of orphan
    files. *)
Lemma walk_reports faults order e os truncated o :
  Lstat faults fs rs = inl e →
  walkScanRootWithUnitFilter faults fs now canceled order (abs_path rs) tfm ignorePaths gracePeriod maxFiles None =
    (os, truncated, None) →
  o ∈ os →
  ∃ k info, fs !! (rs ++ k) = Some (EFile (Some info)) ∧ orphan_file (rs ++ k) info ∧
    (o_Path o = abs_path (rs ++ k) ∨
     ∃ us vs r, us ≠ [] ∧ vs ≠ [] ∧ r ≠ [] ∧ k = vs ++ r ∧ o_Path o = abs_path (rs ++ us) ∧
       (∃ err, fs !! (rs ++ us) = Some (EDir err)) ∧ same_folder (rs ++ us) (rs ++ vs)).
Proof.
  intros He. unfold walkScanRootWithUnitFilter.
  assert (Forall plain rs) as Hp by (destruct Hwf as [Hplain _]; eapply Hplain; by eapply Lstat_inl).
  rewrite to_path_abs by done. destruct (WalkDir_walk faults e He) as [_ Hfound].
  unfold callback in *. destruct (WalkDir _ faults fs rs newScanWalker) as [w err]. cbn [fst snd] in *.
  intros [= <- _ ->] Ho. specialize (Hfound eq_refl).
  destruct (orphans_spec order w) as [_ Hu]; [intros v o'; apply (wo_paths _ _ Hfound)|].
  destruct (proj1 (Hu (o_Path o))) as [Hk _]; [by apply list_elem_of_fmap_2|].
  apply (wo_units _ _ Hfound) in Hk as (d & Hk & _).
  destruct (orphaned_file _ _ _ (visited_in_fs visited [] (app_nil_r _)) Hk) as (l1 & l2 & p & info & E & Hf & [k ->] & Ho' & Hunit).
  exists k, info. split_and!; [done..|].
  destruct (unit_at_shape l1 k _ (visited_in_fs l1 _ (eq_sym E)) Hf) as
    [Es|(us & r & vs & t & ? & Hr & [er Her] & Es & ? & ? & ? & ?)]; rewrite Es in Hunit;
    apply (f_equal fst) in Hunit; cbn [fst] in Hunit; [by left|right]. exists us, vs, t. rewrite app_assoc in Her.
  split_and!; try done. by eapply wf_prefix.
Qed.
End units.
