(* ===== verification/OrphanScan.v ===== *)
(** * [internal/services/orphanscan/service.go]: a scan

    The file map of an instance and of those that share its folders, a scan of all
    its roots, and the preview that a scan leaves. *)

From Stdlib Require Import ZArith Lia Ascii.
From stdpp Require Import base numbers list strings gmap sorting pretty.
From S2P Require Import Prelude.
From S2P Require Import Order.
From S2P Require Import GoStrings.
From S2P Require Import GoPath.
From S2P Require Import FileSystem.
From S2P Require Import GoFloat.
From S2P Require Import Domain.
From S2P Require Import OrphanPaths.
From S2P Require Import OrphanWalk.

Open Scope qui_scope.

(** ** The file map of several instances *)

Record Instance := MkInstance {
  in_ID : Z; in_Name : string; in_IsActive : bool; in_HasLocalFilesystemAccess : bool }.

(** What the clients of the instances answer: the scan roots of their torrents
    (at first, and when asked again), their file maps, and the roots of the last
    completed run. *)
Record Instances := MkInstances {
  listInstances : result (list Instance);
  buildInstanceScanRoots : Z → bool → result (list string);
  buildInstanceFileMap : Z → result buildFileMapResult;
  getLastCompletedRun : Z → result (option (list string)) }.

(** [client.IsHealthy], the time of the last synchronisation if any, now. *)
Definition MaxSyncAge : Z := 2 * 60 * 10 ^ 9.
Definition checkReadinessGates (healthy : bool) (lastSync : option Z) (now : Z) : option string :=
  if negb healthy then Some "qBittorrent client is unhealthy" else
  match lastSync with
  | None => Some "instance not ready: waiting for first sync"
  | Some t => if (MaxSyncAge <? time_sub now t)%Z then Some "sync data stale" else None
  end.

Section instances.
Context `{!NFC} (env : Instances).

Definition getOtherLocalInstances (excludeInstanceID : Z) : result (list Instance) :=
  let! instances := listInstances env in
  Ok (filter (λ inst, in_ID inst ≠ excludeInstanceID ∧
                      in_IsActive inst && in_HasLocalFilesystemAccess inst = true) instances).

Definition instanceScanRootsForOverlap (instanceID : Z) : result (list string) :=
  match buildInstanceScanRoots env instanceID false with
  | Ok roots => Ok roots
  | Err e =>
    match getLastCompletedRun env instanceID with
    | Ok (Some (root :: roots)) => Ok (root :: roots)
    | _ => Err e
    end
  end.

(** One of the other instances: [Ok None] when it shares no folder. *)
Definition shared_map (result : buildFileMapResult) (inst : Instance) : Prelude.result (option buildFileMapResult) :=
  match instanceScanRootsForOverlap (in_ID inst) with
  | Err e => Err ("could not determine scan roots for other local-access instance (id=" +++ pretty (in_ID inst) +++
                  " name=" +++ in_Name inst +++ "): " +++ e)
  | Ok otherRoots =>
    let merge :=
      match buildInstanceFileMap env (in_ID inst) with
      | Ok other => Ok (Some other)
      | Err e => Err ("overlapping local-access instance unavailable (id=" +++ pretty (in_ID inst) +++
                      " name=" +++ in_Name inst +++ "): " +++ e)
      end in
    if scanRootsOverlap (bm_scanRoots result) otherRoots then merge else
    match buildInstanceScanRoots env (in_ID inst) true with
    | Err e => Err ("could not confirm non-overlapping scan roots for other local-access instance (id=" +++
                    pretty (in_ID inst) +++ " name=" +++ in_Name inst +++ "): " +++ e)
    | Ok confirmedRoots => if scanRootsOverlap (bm_scanRoots result) confirmedRoots then merge else Ok None
    end
  end.

Definition merge_instance (result : buildFileMapResult) (inst : Instance) : Prelude.result buildFileMapResult :=
  let! other := shared_map result inst in
  match other with
  | None => Ok result
  | Some other =>
    let skippedRoots := mergeRootLists [bm_skippedRoots result; bm_skippedRoots other] in
    Ok (MkBuild (MergeFrom (bm_fileMap result) (Some (bm_fileMap other))).1
          (filterScanRootsCoveredBySkippedRoots (bm_scanRoots result) skippedRoots) skippedRoots
          (bm_torrentCount result))
  end.

Fixpoint merge_instances (result : buildFileMapResult) (l : list Instance) : Prelude.result buildFileMapResult :=
  match l with
  | [] => Ok result
  | inst :: l => let! result := merge_instance result inst in merge_instances result l
  end.

Definition buildFileMap (instanceID : Z) : result buildFileMapResult :=
  let! result := buildInstanceFileMap env instanceID in
  let! others := getOtherLocalInstances instanceID in
  merge_instances result others.
End instances.

(** ** The preview *)

Record Settings := MkSettings {
  s_Enabled : bool; s_GracePeriodMinutes : Z; s_IgnorePaths : list string; s_ScanIntervalHours : Z;
  s_PreviewSort : string; s_MaxFilesPerRun : Z; s_AutoCleanupEnabled : bool; s_AutoCleanupMaxFiles : Z }.

Definition DefaultSettings : Settings := MkSettings false 10 [] 24 "size_desc" 1000 false 100.

Section preview.
Context `{!NFC, !UnicodeCase}.

(** Of orphans with the same normal form, the first, with the largest size and
    the latest time of all. *)
Definition merge_orphan (existing o : OrphanFile) : OrphanFile :=
  MkOrphan (o_Path existing) (if bool_decide (o_Size existing < o_Size o)%Z then o_Size o else o_Size existing)
    (if bool_decide (o_ModifiedAt existing < o_ModifiedAt o)%Z then o_ModifiedAt o else o_ModifiedAt existing)
    (o_Status existing).

Definition dedupe_step (byPath : gmap string OrphanFile) (o : OrphanFile) : gmap string OrphanFile :=
  let key := normalizePath (o_Path o) in
  <[key := match byPath !! key with None => o | Some existing => merge_orphan existing o end]> byPath.

Definition dedupeOrphans (order : MapRange) (allOrphans : list OrphanFile) : list OrphanFile :=
  if bool_decide (length allOrphans ≤ 1)%nat then allOrphans
  else (range order 5 (foldl dedupe_step ∅ allOrphans)).*2.

Definition lower_dir (o : OrphanFile) : string := ToLower (Clean (Dir (o_Path o))).

(** Orphans of the same size (and directory) whose paths differ by case only come
    in any order. *)
Definition preview_less (previewSort : string) (a b : OrphanFile) : bool :=
  let by_size := if negb (bool_decide (o_Size a = o_Size b)) then bool_decide (o_Size b < o_Size a)%Z
                 else match String.compare (ToLower (o_Path a)) (ToLower (o_Path b)) with Lt => true | _ => false end in
  if bool_decide (previewSort = "directory_size_desc")
  then if negb (bool_decide (lower_dir a = lower_dir b))
       then match String.compare (lower_dir a) (lower_dir b) with Lt => true | _ => false end
       else by_size
  else by_size.

Definition previewSort (settings : Settings) : string :=
  let s := TrimSpace (s_PreviewSort settings) in if bool_decide (s = "") then "size_desc" else s.

(** The orphans kept, and whether some are left out. *)
Definition preview (order : MapRange) (settings : Settings) (allOrphans : list OrphanFile) : list OrphanFile * bool :=
  let sorted := sort_slice (preview_less (previewSort settings)) (dedupeOrphans order allOrphans) in
  let maxFiles := if (s_MaxFilesPerRun settings <=? 0)%Z then s_MaxFilesPerRun DefaultSettings
                  else s_MaxFilesPerRun settings in
  let truncated := (0 <? maxFiles)%Z && (maxFiles <? Z.of_nat (length sorted))%Z in
  (if truncated then take (Z.to_nat maxFiles) sorted else sorted, truncated).

Definition bytes_found (l : list OrphanFile) : Z := foldl (λ n o, i64 (n + o_Size o)) 0%Z l.

(** ** [executeScan] *)

(** Whether auto-cleanup confirms the deletion. *)
Definition maybeAutoCleanup (triggeredBy : string) (settings : option Settings) (filesFound : Z) : bool :=
  bool_decide (triggeredBy = "scheduled") &&
  match settings with
  | None => false
  | Some s =>
    s_AutoCleanupEnabled s &&
    negb ((if (s_AutoCleanupMaxFiles s <=? 0)%Z then 100 else s_AutoCleanupMaxFiles s) <? filesFound)%Z
  end.

Inductive scan_end : Type :=
| ScanFailed (msg : string)
| ScanCanceled
| ScanClean
| PreviewReady (autoCleanup : bool).

(** What a scan leaves: its roots, the files it found, the truncation mark, their
    size, the warnings, and how it ends. *)
Record ScanOutcome := MkOutcome {
  so_roots : list string; so_files : list OrphanFile; so_truncated : bool; so_bytes : Z;
  so_warnings : list string; so_end : scan_end }.

(** The state of the world during a scan: its files, the failures, the clock and
    the cancellation of each walk, whether the scan is cancelled before and after
    the walk of a root, and how maps are ranged over. *)
Record World := MkWorld {
  wd_fs : FS; wd_faults : Faults; wd_now : string → path → Z;
  wd_canceled : string → path → option os_error → bool;
  wd_before : string → bool; wd_after : string → bool; wd_order : string → MapRange }.

(** The walks of the roots: [None] when the scan is cancelled. *)
Fixpoint walk_roots (w : World) (tfm : TorrentFileMap) (ignorePaths : list string) (gracePeriod : Z)
    (orphans : list OrphanFile) (walkErrors : list string) (roots : list string)
    : option (list OrphanFile * list string) :=
  match roots with
  | [] => Some (orphans, walkErrors)
  | root :: roots =>
    if wd_before w root then None else
    let '(found, _, err) := walkScanRootWithUnitFilter (wd_faults w) (wd_fs w) (wd_now w root)
                              (wd_canceled w root) (wd_order w root) root tfm ignorePaths gracePeriod 0 None in
    match err with
    | Some e => if wd_after w root then None
                else walk_roots w tfm ignorePaths gracePeriod orphans (walkErrors ++ [root +++ ": " +++ e]) roots
    | None => walk_roots w tfm ignorePaths gracePeriod (orphans ++ found) walkErrors roots
    end
  end.

Definition lines (l : list string) : string := Join l "
".

(** The scan of an instance: [settings] of the store, the file map, whether the
    files can be stored, and what triggered the run. *)
Definition executeScan (w : World) (settings : result (option Settings)) (map : result buildFileMapResult)
    (order : MapRange) (insert_error : option string) (triggeredBy : string) : ScanOutcome :=
  let failed roots warnings msg := MkOutcome roots [] false 0 warnings (ScanFailed msg) in
  match settings with
  | Err _ => failed [] [] "failed to get settings"
  | Ok settings =>
    let settings := default DefaultSettings settings in
    match map with
    | Err e => failed [] [] ("failed to build file map: " +++ e)
    | Ok map =>
      let roots := bm_scanRoots map in
      let skipped := bm_skippedRoots map in
      let warnings :=
        match skipped with
        | [] => []
        | _ => ["Skipped " +++ pretty (Z.of_nat (length skipped)) +++
                " scan path(s) because qBittorrent had transitional torrents with unavailable file lists:" +++ "
" +++ lines skipped]
        end in
      match roots with
      | [] =>
        failed [] warnings
          (match skipped with
           | [] => "no scan roots found (no torrents with absolute save paths)"
           | _ => "no scan roots available: qBittorrent still has transitional torrents with unavailable file lists"
           end)
      | _ =>
        match NormalizeIgnorePaths (s_IgnorePaths settings ++ skipped) with
        | Err e => failed roots warnings ("invalid ignore paths: " +++ e)
        | Ok ignorePaths =>
          match walk_roots w (bm_fileMap map) ignorePaths (i64 (s_GracePeriodMinutes settings * (60 * 10 ^ 9)))
                  [] [] roots with
          | None => MkOutcome roots [] false 0 warnings ScanCanceled
          | Some (allOrphans, walkErrors) =>
            let '(files, truncated) := preview order settings allOrphans in
            let inaccessible := pretty (Z.of_nat (length walkErrors)) in
            if bool_decide (files = []) && negb (bool_decide (walkErrors = []))
            then failed roots warnings
                   ("Failed to access " +++ inaccessible +++ " scan path(s):" +++ "
" +++ lines walkErrors)
            else
              let warnings :=
                match walkErrors with
                | [] => warnings
                | _ => warnings ++ ["Partial scan: " +++ inaccessible +++ " path(s) inaccessible:" +++ "
" +++ lines walkErrors]
                end in
              match insert_error with
              | Some e => failed roots warnings ("failed to insert files: " +++ e)
              | None =>
                MkOutcome roots files truncated (bytes_found files) warnings
                  (match files with
                   | [] => ScanClean
                   | _ => PreviewReady (maybeAutoCleanup triggeredBy (Some settings) (Z.of_nat (length files)))
                   end)
              end
          end
        end
      end
    end
  end.
End preview.

(** ** Theorems *)

Section instance_theorems.
Context `{!NFC} (env : Instances).

Lemma normalizePath_Clean p : normalizePath (Clean p) = normalizePath p.
Proof. unfold normalizePath. by rewrite Clean_idemp. Qed.

(** Roots that are left out do not add an overlap. *)
Lemma overlap_filter roots skipped other :
  scanRootsOverlap (filterScanRootsCoveredBySkippedRoots roots skipped) other = true →
  scanRootsOverlap roots other = true.
Proof.
  unfold scanRootsOverlap. rewrite !existsb_exists. intros (r & Hr%list_elem_of_In & Ho).
  apply list_elem_of_fmap in Hr as (raw & -> & [_ Hraw]%list_elem_of_filter).
  rewrite normalizePath_Clean in Ho. exists raw. split; [by apply list_elem_of_In|done].
Qed.

(** What one map owes to another instance. *)
Definition instance_covered (r : buildFileMapResult) (inst : Instance) : Prop :=
  (∃ other, buildInstanceFileMap env (in_ID inst) = Ok other ∧
     (∀ q, Has (bm_fileMap other) q = true → Has (bm_fileMap r) q = true) ∧
     (∀ root, root ∈ bm_skippedRoots other → ∃ root', root' ∈ bm_skippedRoots r ∧ Clean root' = Clean root)) ∨
  (∃ roots, buildInstanceScanRoots env (in_ID inst) true = Ok roots ∧
     scanRootsOverlap (bm_scanRoots r) roots = false).

Definition extends (r r' : buildFileMapResult) : Prop :=
  (∀ q, Has (bm_fileMap r) q = true → Has (bm_fileMap r') q = true) ∧
  (∀ root, root ∈ bm_skippedRoots r → ∃ root', root' ∈ bm_skippedRoots r' ∧ Clean root' = Clean root) ∧
  (∀ other, scanRootsOverlap (bm_scanRoots r') other = true → scanRootsOverlap (bm_scanRoots r) other = true).

Lemma extends_refl r : extends r r.
Proof. split_and!; [done| |done]. intros root ?. by exists root. Qed.

Lemma extends_trans r1 r2 r3 : extends r1 r2 → extends r2 r3 → extends r1 r3.
Proof.
  intros (A1 & A2 & A3) (B1 & B2 & B3). split_and!; [auto| |auto].
  intros root (root1 & H1 & <-)%A2. apply B2 in H1 as (root2 & H2 & <-). by exists root2.
Qed.

Lemma covered_extends r r' inst : extends r r' → instance_covered r inst → instance_covered r' inst.
Proof.
  intros (E1 & E2 & E3) [(other & Ho & Hf & Hs)|(roots & Hr & Ho)]; [left|right].
  - exists other. split_and!; [done|auto|].
    intros root (root1 & H1 & <-)%Hs. apply E2 in H1 as (root2 & H2 & <-). by exists root2.
  - exists roots. split; [done|]. apply not_true_iff_false. intros Hn%E3. by rewrite Ho in Hn.
Qed.

Lemma elem_of_mergeRootLists ls l root : l ∈ ls → root ∈ l → Clean root ∈ mergeRootLists ls.
Proof.
  intros Hl Hr. unfold mergeRootLists, sortedRoots. rewrite elem_of_sort_strings, elem_of_elements.
  apply elem_of_list_to_set, list_elem_of_fmap_2, list_elem_of_join. by exists l.
Qed.

Lemma merge_extends r inst other r' :
  shared_map env r inst = Ok (Some other) → merge_instance env r inst = Ok r' →
  extends r r' ∧ (∀ q, Has (bm_fileMap other) q = true → Has (bm_fileMap r') q = true) ∧
  (∀ root, root ∈ bm_skippedRoots other → ∃ root', root' ∈ bm_skippedRoots r' ∧ Clean root' = Clean root).
Proof.
  unfold merge_instance. intros ->. cbn [result_bind]. intros [= <-]. unfold extends. simpl.
  assert (∀ l root, l ∈ [bm_skippedRoots r; bm_skippedRoots other] → root ∈ l → ∃ root',
    root' ∈ mergeRootLists [bm_skippedRoots r; bm_skippedRoots other] ∧ Clean root' = Clean root) as Hm.
  { intros l root Hl Hr. exists (Clean root). split; [by eapply elem_of_mergeRootLists|apply Clean_idemp]. }
  split_and!.
  - intros q Hq. unfold Has in *. rewrite bool_decide_eq_true in *. simpl. set_solver.
  - intros root. apply Hm. by left.
  - intros l. apply overlap_filter.
  - intros q Hq. unfold Has in *. rewrite bool_decide_eq_true in *. simpl. set_solver.
  - intros root. apply Hm. right. by left.
Qed.

Lemma merge_instance_ok r inst r' : merge_instance env r inst = Ok r' → extends r r' ∧ instance_covered r' inst.
Proof.
  intros Hm. destruct (shared_map env r inst) as [[other|]|e] eqn:Es.
  - destruct (merge_extends r inst other r' Es Hm) as (He & Hf & Hs). split; [done|]. left. exists other.
    split_and!; [|done..]. unfold shared_map in Es. repeat case_match; congruence.
  - unfold merge_instance in Hm. rewrite Es in Hm. injection Hm as <-. split; [apply extends_refl|]. right.
    unfold shared_map in Es. repeat case_match; try congruence. by eexists.
  - unfold merge_instance in Hm. by rewrite Es in Hm.
Qed.

Lemma merge_instances_ok l : ∀ r r', merge_instances env r l = Ok r' →
  extends r r' ∧ ∀ inst, inst ∈ l → instance_covered r' inst.
Proof.
  induction l as [|inst l IH]; intros r r'; cbn [merge_instances].
  - intros [= <-]. split; [apply extends_refl|]. by intros inst ?%elem_of_nil.
  - destruct (merge_instance env r inst) as [r1|e] eqn:E; [|done]. cbn [result_bind]. intros Hr.
    destruct (merge_instance_ok _ _ _ E) as [He Hc]. destruct (IH r1 r' Hr) as [He' Hc'].
    split; [by eapply extends_trans|]. intros i [->|Hi]%elem_of_cons; [by eapply covered_extends|by apply Hc'].
Qed.

(** When the file map of an instance is built, it has
    every file of every other active instance with local access, and skips what
    that skips, unless the roots of that instance, asked for again, overlap none
    of the roots that are scanned; an instance that does not answer makes the
    build fail. *)
Theorem other_instances_respected (instanceID : Z) (instances : list Instance) (r : buildFileMapResult) :
  listInstances env = Ok instances → buildFileMap env instanceID = Ok r →
  (∃ own, buildInstanceFileMap env instanceID = Ok own ∧
     ∀ q, Has (bm_fileMap own) q = true → Has (bm_fileMap r) q = true) ∧
  ∀ inst, inst ∈ instances → in_ID inst ≠ instanceID → in_IsActive inst = true →
    in_HasLocalFilesystemAccess inst = true → instance_covered r inst.
Proof.
  intros Hl. unfold buildFileMap, getOtherLocalInstances. rewrite Hl.
  destruct (buildInstanceFileMap env instanceID) as [own|e]; [|done]. cbn [result_bind]. intros Hm.
  apply merge_instances_ok in Hm as [(Hf & _) Hc]. split; [by exists own|].
  intros inst Hin Hid Ha Hlocal. apply Hc, list_elem_of_filter. by rewrite Ha, Hlocal.
Qed.
End instance_theorems.

Section preview_theorems.
Context `{!NFC, !UnicodeCase}.

(** The order of the preview: by directory when asked, then by size, the largest
    first, then by path. *)
Definition preview_cmp (previewSort : string) : OrphanFile → OrphanFile → comparison :=
  let by_size := lex_cmp (flip_cmp (pull_cmp o_Size Z.compare)) (pull_cmp (λ o, ToLower (o_Path o)) String.compare) in
  if bool_decide (previewSort = "directory_size_desc")
  then lex_cmp (pull_cmp lower_dir String.compare) by_size else by_size.

#[export] Instance preview_cmp_total sort : TotalCmp (preview_cmp sort).
Proof. unfold preview_cmp. cbn zeta. case_bool_decide; apply _. Qed.

Lemma preview_less_cmp sort a b : preview_less sort a b = cmp_less (preview_cmp sort) a b.
Proof.
  unfold preview_less, cmp_less, preview_cmp. cbn zeta.
  assert ((if negb (bool_decide (o_Size a = o_Size b)) then bool_decide (o_Size b < o_Size a)%Z
           else match String.compare (ToLower (o_Path a)) (ToLower (o_Path b)) with Lt => true | _ => false end) =
          match lex_cmp (flip_cmp (pull_cmp o_Size Z.compare)) (pull_cmp (λ o, ToLower (o_Path o)) String.compare) a b
          with Lt => true | _ => false end) as ->.
  { unfold lex_cmp, flip_cmp, pull_cmp. destruct (Z.compare_spec (o_Size b) (o_Size a)) as [E|E|E].
    - by rewrite bool_decide_true.
    - rewrite bool_decide_false by lia. cbn [negb]. by rewrite bool_decide_true.
    - rewrite bool_decide_false by lia. cbn [negb]. rewrite bool_decide_false by lia. done. }
  destruct (bool_decide (sort = _)); [|done]. unfold lex_cmp at 2, pull_cmp at 3.
  destruct (String.compare (lower_dir a) (lower_dir b)) eqn:E.
  - apply String.compare_eq_iff in E. by rewrite bool_decide_true.
  - rewrite bool_decide_false; [done|]. intros Eq. rewrite Eq, (cmp_refl String.compare) in E. done.
  - rewrite bool_decide_false; [done|]. intros Eq. rewrite Eq, (cmp_refl String.compare) in E. done.
Qed.

(** What deduplication keeps of the orphans seen so far. *)
Record deduped (l : list OrphanFile) (m : gmap string OrphanFile) : Prop := {
  dd_keys k : is_Some (m !! k) ↔ ∃ o, o ∈ l ∧ normalizePath (o_Path o) = k;
  dd_path k o : m !! k = Some o → normalizePath (o_Path o) = k ∧ o_Path o ∈ o_Path <$> l;
  dd_size k o o' : m !! k = Some o → o' ∈ l → normalizePath (o_Path o') = k → (o_Size o' ≤ o_Size o)%Z;
  dd_size' k o : m !! k = Some o → o_Size o ∈ o_Size <$> l }.

Lemma merge_orphan_size e o : o_Size (merge_orphan e o) = Z.max (o_Size e) (o_Size o).
Proof. unfold merge_orphan. simpl. case_bool_decide; lia. Qed.

Lemma deduped_step l m o : deduped l m → deduped (l ++ [o]) (dedupe_step m o).
Proof.
  intros [D1 D2 D3 D4]. unfold dedupe_step. cbn zeta. set (k := normalizePath (o_Path o)).
  assert (∀ o', o' ∈ l ++ [o] ↔ o' ∈ l ∨ o' = o) as Hin by set_solver.
  split.
  - intros k'. setoid_rewrite Hin. destruct (decide (k = k')) as [<-|Hne].
    + rewrite lookup_insert_eq. split; [intros _; exists o; split; [by right|done]|by eexists].
    + rewrite lookup_insert_ne, D1 by done. split; [naive_solver|]. intros (o' & [?| ->] & E); [by exists o'|done].
  - intros k' x. rewrite fmap_app, elem_of_app. destruct (decide (k = k')) as [<-|Hne].
    + rewrite lookup_insert_eq. intros [= <-]. destruct (m !! k) as [e|] eqn:E.
      * destruct (D2 _ _ E). split; [done|by left].
      * split; [done|right; by left].
    + rewrite lookup_insert_ne by done. intros Hx%D2. tauto.
  - intros k' x o'. rewrite Hin. destruct (decide (k = k')) as [<-|Hne].
    + rewrite lookup_insert_eq. intros [= <-] Ho' Ek. destruct (m !! k) as [e|] eqn:E.
      * rewrite merge_orphan_size. destruct Ho' as [Ho'| ->]; [|lia].
        pose proof (D3 _ _ _ E Ho' Ek). lia.
      * destruct Ho' as [Ho'| ->]; [|lia]. destruct (proj2 (D1 k)) as [z Hz]; [by exists o'|]. by rewrite E in Hz.
    + rewrite lookup_insert_ne by done. intros Hx [Ho'| ->] Ek; [by eapply D3|done].
  - intros k' x. rewrite fmap_app, elem_of_app. destruct (decide (k = k')) as [<-|Hne].
    + rewrite lookup_insert_eq. intros [= <-]. destruct (m !! k) as [e|] eqn:E; [|right; by left].
      rewrite merge_orphan_size. destruct (Z.max_spec (o_Size e) (o_Size o)) as [[_ ->]|[_ ->]];
        [right; by left|left; by eapply D4].
    + rewrite lookup_insert_ne by done. intros Hx%D4. by left.
Qed.

Lemma deduped_all l : deduped l (foldl dedupe_step ∅ l).
Proof.
  induction l as [|o l IH] using rev_ind.
  - split; cbn; intros *; rewrite ?lookup_empty; try done.
    split; [by intros []|by intros (o & ?%elem_of_nil & _)].
  - rewrite foldl_app. by apply deduped_step.
Qed.

Lemma dedupeOrphans_spec order l :
  NoDup ((λ o, normalizePath (o_Path o)) <$> dedupeOrphans order l) ∧
  (∀ o, o ∈ dedupeOrphans order l → o_Path o ∈ o_Path <$> l ∧ o_Size o ∈ o_Size <$> l) ∧
  (∀ o, o ∈ l → ∃ o', o' ∈ dedupeOrphans order l ∧ normalizePath (o_Path o') = normalizePath (o_Path o) ∧
     (o_Size o ≤ o_Size o')%Z).
Proof.
  unfold dedupeOrphans. case_bool_decide as Hlen.
  { split_and!.
    - destruct l as [|o [|]]; [constructor|apply NoDup_singleton|cbn in Hlen; lia].
    - intros o Ho. split; by apply list_elem_of_fmap_2.
    - intros o Ho. by exists o. }
  destruct (deduped_all l) as [D1 D2 D3 D4]. set (m := foldl _ _ l) in *.
  assert (∀ o, o ∈ (range order 5 m).*2 ↔ ∃ k, m !! k = Some o) as Hin.
  { intros o. rewrite list_elem_of_fmap. setoid_rewrite <- (elem_of_range order 5 m). split.
    - intros ([k o'] & -> & Hk). by exists k.
    - intros [k Hk]. by exists (k, o). }
  split_and!.
  - assert ((λ o, normalizePath (o_Path o)) <$> (range order 5 m).*2 = (range order 5 m).*1) as ->; [|apply NoDup_range].
    assert (∀ l', (∀ k o, (k, o) ∈ l' → m !! k = Some o) →
      (λ o, normalizePath (o_Path o)) <$> l'.*2 = l'.*1) as Hl.
    { induction l' as [|[k o] l' IH]; intros Hl'; [done|]. cbn. f_equal.
      - apply (D2 k o). apply Hl'. by left.
      - apply IH. intros k' o' ?. apply Hl'. by right. }
    apply Hl. intros k o. apply elem_of_range.
  - intros o [k Hk]%Hin. split; [by eapply D2|by eapply D4].
  - intros o Ho. destruct (proj2 (D1 (normalizePath (o_Path o)))) as [o' Ho']; [by exists o|].
    exists o'. split_and!; [apply Hin; by eexists|by eapply D2|by eapply D3].
Qed.

(** The preview of a scan has at most the number of files that
    the settings allow, no two of the same normal form, each found by a walk; it
    is cut off exactly when there are more, and else has every file found, with
    the largest of the sizes found for it; what is shown and what is left out are
    in the order asked for. *)
Theorem preview_exact (order : MapRange) (settings : Settings) (all : list OrphanFile) :
  let '(files, truncated) := preview order settings all in
  let limit := if (s_MaxFilesPerRun settings <=? 0)%Z then 1000%Z else s_MaxFilesPerRun settings in
  (Z.of_nat (length files) ≤ limit)%Z ∧
  NoDup ((λ o, normalizePath (o_Path o)) <$> files) ∧
  (∀ o, o ∈ files → o_Path o ∈ o_Path <$> all ∧ o_Size o ∈ o_Size <$> all) ∧
  ∃ rest, (truncated = true ↔ rest ≠ []) ∧
    (∀ o, o ∈ all → ∃ o', o' ∈ files ++ rest ∧ normalizePath (o_Path o') = normalizePath (o_Path o) ∧
       (o_Size o ≤ o_Size o')%Z) ∧
    StronglySorted (λ a b, preview_less (previewSort settings) b a = false) (files ++ rest).
Proof.
  unfold preview. change (s_MaxFilesPerRun DefaultSettings) with 1000%Z. cbn zeta.
  set (limit := if (_ <=? 0)%Z then _ else _).
  assert (0 < limit)%Z as Hlim by (subst limit; destruct (s_MaxFilesPerRun settings <=? 0)%Z eqn:E; lia).
  rewrite (proj2 (Z.ltb_lt 0 limit)) by done. cbn [andb].
  set (sorted := sort_slice _ _).
  destruct (dedupeOrphans_spec order all) as (Hn & Hin & Hcov).
  assert (sorted ≡ₚ dedupeOrphans order all) as Hp by apply sort_slice_perm.
  assert (StronglySorted (λ a b, preview_less (previewSort settings) b a = false) sorted) as Hs.
  { pose proof (sort_slice_sorted (preview_cmp (previewSort settings)) (dedupeOrphans order all)) as Hs.
    assert (sort_slice (cmp_less (preview_cmp (previewSort settings))) (dedupeOrphans order all) = sorted) as E.
    { apply sort_slice_ext. intros x y _ _. by rewrite preview_less_cmp. }
    rewrite E in Hs. eapply StronglySorted_weaken; [|exact Hs]. intros a b Hab. rewrite preview_less_cmp.
    unfold cmp_le in Hab. unfold cmp_less. by destruct (preview_cmp _ b a). }
  rewrite <- Hp in Hn. setoid_rewrite <- Hp in Hin. setoid_rewrite <- Hp in Hcov.
  destruct (limit <? Z.of_nat (length sorted))%Z eqn:El.
  - assert (take (Z.to_nat limit) sorted ++ drop (Z.to_nat limit) sorted = sorted) as Ht by apply take_drop.
    split_and!.
    + rewrite length_take. lia.
    + rewrite <- Ht, fmap_app in Hn. by apply NoDup_app in Hn as [? _].
    + intros o Ho. apply Hin. rewrite <- Ht. apply elem_of_app. by left.
    + exists (drop (Z.to_nat limit) sorted). rewrite Ht. split; [|by split]. split; [intros _|done].
      intros E. apply (f_equal length) in E. rewrite length_drop in E. cbn in E. lia.
  - split_and!; [lia|done..|]. exists []. rewrite app_nil_r. split; [by split; [|intros []]|by split].
Qed.

Lemma preview_paths order settings all o : o ∈ (preview order settings all).1 → o_Path o ∈ o_Path <$> all.
Proof.
  intros Ho. destruct (dedupeOrphans_spec order all) as (_ & Hin & _). apply Hin.
  rewrite <- (sort_slice_perm (preview_less (previewSort settings))). unfold preview in Ho. cbn zeta in Ho.
  destruct (_ && _); cbn [fst] in Ho; [|done].
  rewrite <- (take_drop (Z.to_nat (if (s_MaxFilesPerRun settings <=? 0)%Z
    then s_MaxFilesPerRun DefaultSettings else s_MaxFilesPerRun settings))).
  apply elem_of_app. by left.
Qed.

Lemma walk_roots_found w tfm ignorePaths grace roots : ∀ acc errs all errs',
  walk_roots w tfm ignorePaths grace acc errs roots = Some (all, errs') →
  ∀ o, o ∈ all → o ∈ acc ∨ ∃ root os truncated, root ∈ roots ∧ o ∈ os ∧
    walkScanRootWithUnitFilter (wd_faults w) (wd_fs w) (wd_now w root) (wd_canceled w root) (wd_order w root)
      root tfm ignorePaths grace 0 None = (os, truncated, None).
Proof.
  induction roots as [|root roots IH]; intros acc errs all errs'; cbn [walk_roots].
  { intros [= <- _] o Ho. by left. }
  destruct (wd_before w root); [done|].
  destruct (walkScanRootWithUnitFilter _ _ _ _ _ _ _ _ _ _ _) as [[os truncated] [e|]] eqn:E.
  - destruct (wd_after w root); [done|]. intros Hw o Ho. destruct (IH _ _ _ _ Hw o Ho) as [?|(r & l & t & ? & ?)].
    + by left.
    + right. exists r, l, t. split; [by right|done].
  - intros Hw o Ho. destruct (IH _ _ _ _ Hw o Ho) as [[?|Hos]%elem_of_app|(r & l & t & ? & ?)]; [by left|right..].
    + exists root, os, truncated. split; [by left|done].
    + exists r, l, t. split; [by right|done].
Qed.

(** The files of a scan come from a preview of the walks of all the roots. *)
Lemma executeScan_files w settings map order insert_error triggeredBy o :
  o ∈ so_files (executeScan w settings (Ok map) order insert_error triggeredBy) →
  ∃ st ip all errs, settings = Ok st ∧
    NormalizeIgnorePaths (s_IgnorePaths (default DefaultSettings st) ++ bm_skippedRoots map) = Ok ip ∧
    walk_roots w (bm_fileMap map) ip (i64 (s_GracePeriodMinutes (default DefaultSettings st) * (60 * 10 ^ 9)))
      [] [] (bm_scanRoots map) = Some (all, errs) ∧
    o_Path o ∈ o_Path <$> all.
Proof.
  unfold executeScan. destruct settings as [st|e]; [|by intros ?%elem_of_nil]. cbn zeta.
  destruct (bm_scanRoots map) as [|r0 rs0] eqn:Er; [by intros ?%elem_of_nil|].
  destruct (NormalizeIgnorePaths _) as [ip|e] eqn:Eip; [|by intros ?%elem_of_nil].
  destruct (walk_roots _ _ _ _ _ _ _) as [[all errs]|] eqn:Ew; [|by intros ?%elem_of_nil].
  destruct (preview order _ all) as [files truncated] eqn:Ep.
  destruct (_ && _); [by intros ?%elem_of_nil|]. destruct insert_error; [by intros ?%elem_of_nil|].
  cbn [so_files]. intros Ho. exists st, ip, all, errs. split_and!; [done..|].
  apply (preview_paths order (default DefaultSettings st)). by rewrite Ep.
Qed.

(** C39. Whatever fails or is cancelled, each path that a scan of absolute roots
    stores stands for an orphan file: a file that belongs to no torrent, lies below
    one of the scan roots, is neither ignored nor at or below a skipped root, and is
    old enough.  The path is that of the file, or of a directory strictly below the
    root that is above the file or, up to normal form and the letter case of a disc
    marker, the same as one above it. *)
Theorem scan_sound (w : World) (settings : result (option Settings)) (map : buildFileMapResult)
    (order : MapRange) (insert_error : option string) (triggeredBy : string) (o : OrphanFile) :
  fs_wf (wd_fs w) →
  (∀ root, root ∈ bm_scanRoots map → ∃ rs, Forall plain rs ∧ root = abs_path rs) →
  o ∈ so_files (executeScan w settings (Ok map) order insert_error triggeredBy) →
  ∃ st ip rs k info, settings = Ok st ∧
    NormalizeIgnorePaths (s_IgnorePaths (default DefaultSettings st) ++ bm_skippedRoots map) = Ok ip ∧
    abs_path rs ∈ bm_scanRoots map ∧ wd_fs w !! (rs ++ k) = Some (EFile (Some info)) ∧
    Has (bm_fileMap map) (normalizePath (abs_path (rs ++ k))) = false ∧
    isIgnoredPath (abs_path (rs ++ k)) ip = false ∧
    (i64 (s_GracePeriodMinutes (default DefaultSettings st) * (60 * 10 ^ 9)) ≤
       time_sub (wd_now w (abs_path rs) (rs ++ k)) (fi_ModTime info))%Z ∧
    (o_Path o = abs_path (rs ++ k) ∨
     ∃ us vs r, us ≠ [] ∧ vs ≠ [] ∧ r ≠ [] ∧ k = vs ++ r ∧ o_Path o = abs_path (rs ++ us) ∧
       (∃ err, wd_fs w !! (rs ++ us) = Some (EDir err)) ∧ same_folder (rs ++ us) (rs ++ vs)).
Proof.
  intros Hwf Hroots Ho.
  apply executeScan_files in Ho as (st & ip & all & errs & -> & Hip & Hw & Hpath).
  apply list_elem_of_fmap in Hpath as (o' & Ep & Ho').
  destruct (walk_roots_found _ _ _ _ _ _ _ _ _ Hw o' Ho') as [?%elem_of_nil|(root & os & tr & Hr & Hos & Hwalk)]; [done|].
  destruct (Hroots root Hr) as (rs & Hrs & ->).
  destruct (Lstat (wd_faults w) (wd_fs w) rs) as [e|err] eqn:Hl.
  - destruct (walk_reports (wd_fs w) (bm_fileMap map) ip rs Hwf (wd_now w (abs_path rs))
      (wd_canceled w (abs_path rs)) _ 0%Z (Z.le_refl 0) _ _ e os tr o' Hl Hwalk Hos)
      as (k & info & Hk & (Hi & Hh & _ & Hg) & Hpo).
    exists st, ip, rs, k, info. rewrite Ep. split_and!; done.
  - exfalso. unfold walkScanRootWithUnitFilter, WalkDir in Hwalk. rewrite to_path_abs, Hl in Hwalk by done.
    destruct (walk _ _ _ _ _ _ _ _ _ _ _ _ _) as [w1 c] eqn:Ec.
    assert (w1 = newScanWalker) as ->.
    { unfold walk in Ec. destruct (wd_canceled _ _ _ _); by injection Ec as <- _. }
    injection Hwalk as <- _ _. destruct (orphans_spec (wd_order w (abs_path rs)) newScanWalker) as [_ Hu]; [done|].
    destruct (proj1 (Hu (o_Path o'))) as [[x Hx] _]; [by apply list_elem_of_fmap_2|]. done.
Qed.
End preview_theorems.

(** ** Instances *)

Definition file (ino size : Z) : entry := EFile (Some (MkInfo size 0 1 ino 1)).

(** A disc folder with a stray file, a torrent's file, a fresh and a metadata file. *)
Definition scan_fs : FS :=
  list_to_map
    [([], EDir None); (["d"], EDir None); (["d"; "M"], EDir None); (["d"; "M"; "BDMV"], EDir None);
     (["d"; "M"; "BDMV"; "index.bdmv"], file 1 10); (["d"; "M"; "extra.txt"], file 2 1);
     (["d"; "Show"], EDir None); (["d"; "Show"; "e1.mkv"], file 3 5); (["d"; "Show"; "old.mkv"], file 4 7);
     (["d"; "Show"; ".DS_Store"], file 5 1);
     (["d"; "keep"], EDir None); (["d"; "keep"; "y.mkv"], file 6 7)].

Definition scan_map : buildFileMapResult :=
  MkBuild (@Add PlainNFC "/d/Show/e1.mkv" NewTorrentFileMap) ["/d"] [] 1.

Definition quiet_world (fs : FS) (order : MapRange) : World :=
  MkWorld fs no_faults (λ _ _, 10 ^ 12)%Z (λ _ _ _, false) (λ _, false) (λ _, false) (λ _, order).

Definition scan_settings : Settings := MkSettings true 10 ["/d/keep"] 24 "" 0 true 100.

Definition scan_of (fs : FS) (order : MapRange) (map : buildFileMapResult) : ScanOutcome :=
  @executeScan PlainNFC AsciiCase (quiet_world fs order) (Ok (Some scan_settings)) (Ok map) order None "scheduled".

Example scan_ex :
  ((λ o, (o_Path o, o_Size o)) <$> so_files (scan_of scan_fs key_order scan_map)) =
    [("/d/M", 11%Z); ("/d/Show/old.mkv", 7%Z)] ∧
  so_end (scan_of scan_fs key_order scan_map) = PreviewReady true.
Proof. by vm_compute. Qed.

(** A disc folder is reported although a torrent has a file in its audio folder:
    only files beside or below the marker count. The deletion then refuses it. *)
Example disc_with_used_audio :
  let fs : FS := list_to_map
    [([], EDir None); (["d"], EDir None); (["d"; "M"], EDir None); (["d"; "M"; "VIDEO_TS"], EDir None);
     (["d"; "M"; "VIDEO_TS"; "v.vob"], file 1 10); (["d"; "M"; "AUDIO_TS"], EDir None);
     (["d"; "M"; "AUDIO_TS"; "a.aob"], file 2 1)] in
  let map := MkBuild (@Add PlainNFC "/d/M/AUDIO_TS/a.aob" NewTorrentFileMap) ["/d"] [] 1 in
  o_Path <$> so_files (scan_of fs key_order map) = ["/d/M"].
Proof. by vm_compute. Qed.

(** Maps are ranged over in different orders at different sites. *)
Definition reverse_at (n : nat) : MapRange.
Proof.
  refine {| range V site m := if bool_decide (site = n) then rev (map_to_list m) else map_to_list m |}.
  intros V site m. case_bool_decide; [symmetry; apply Permutation_rev|done].
Defined.

Definition nested_discs : FS :=
  list_to_map
    [([], EDir None); (["d"], EDir None); (["d"; "A"], EDir None); (["d"; "A"; "BDMV"], EDir None);
     (["d"; "A"; "BDMV"; "i"], file 1 100); (["d"; "A"; "B"], EDir None); (["d"; "A"; "B"; "BDMV"], EDir None);
     (["d"; "A"; "B"; "BDMV"; "j"], file 2 20); (["d"; "A"; "B"; "x"], file 3 3)].

(** The size shown for a disc folder inside another depends on the order in
    which the units are ranged over: what is merged into the inner folder after
    that is merged into the outer one is lost. *)
Example nested_disc_sizes :
  let sizes order := (λ o, (o_Path o, o_Size o)) <$> so_files (scan_of nested_discs order scan_map) in
  sizes key_order = [("/d/A", 123%Z)] ∧ sizes (reverse_at 3) = [("/d/A", 120%Z)].
Proof. by vm_compute. Qed.

(** Whether a stray file beside a disc in use is reported depends on the name of
    the file in use: a disc folder found before it suppresses what lies in it. *)
Example stray_file_beside_used_disc :
  let fs a b : FS := list_to_map
    [([], EDir None); (["d"], EDir None); (["d"; "M"], EDir None); (["d"; "M"; "BDMV"], EDir None);
     (["d"; "M"; "BDMV"; a], file 1 10); (["d"; "M"; "BDMV"; b], file 2 10); (["d"; "M"; "extra"], file 3 1)] in
  let map := MkBuild (@Add PlainNFC "/d/M/BDMV/m" NewTorrentFileMap) ["/d"] [] 1 in
  (o_Path <$> so_files (scan_of (fs "a" "m") key_order map) = []) ∧
  (o_Path <$> so_files (scan_of (fs "m" "z") key_order map) = ["/d/M/extra"]).
Proof. by vm_compute. Qed.

(** Two markers that differ by case only share a decision: the folder that is
    reported holds no orphan that is old enough, the file found lies in the
    other. *)
Example markers_share_decision :
  let young := EFile (Some (MkInfo 5 (10 ^ 12) 1 1 1)) in
  let fs : FS := list_to_map
    [([], EDir None); (["d"], EDir None); (["d"; "M"], EDir None); (["d"; "M"; "BDMV"], EDir None);
     (["d"; "M"; "BDMV"; "young"], young); (["d"; "M"; "bdmv"], EDir None); (["d"; "M"; "bdmv"; "old"], file 2 7);
     (["d"; "M"; "used"], file 3 1)] in
  let map := MkBuild (@Add PlainNFC "/d/M/used" NewTorrentFileMap) ["/d"] [] 1 in
  (λ o, (o_Path o, o_Size o)) <$> so_files (scan_of fs key_order map) = [("/d/M/BDMV", 7%Z)].
Proof. by vm_compute. Qed.

(** An orphan file with the inode of an earlier file of a torrent, each with one
    link, is not reported. *)
Example duplicate_inode_skipped :
  let fs : FS := list_to_map
    [([], EDir None); (["d"], EDir None); (["d"; "a"], file 7 5); (["d"; "b"], file 7 5); (["d"; "c"], file 8 5)] in
  let map := MkBuild (@Add PlainNFC "/d/a" NewTorrentFileMap) ["/d"] [] 1 in
  o_Path <$> so_files (scan_of fs key_order map) = ["/d/c"].
Proof. by vm_compute. Qed.

Lemma scan_fs_wf : fs_wf scan_fs.
Proof. apply fs_wf_checked. by vm_compute. Qed.

Lemma walk_exact_witness :
  fs_wf scan_fs ∧
  let '(os, truncated, err) :=
    @walkScanRootWithUnitFilter PlainNFC AsciiCase no_faults scan_fs (λ _, 10 ^ 12)%Z (λ _ _, false) key_order
      (abs_path ["d"]) (bm_fileMap scan_map) ["/d/keep"] (600 * 10 ^ 9) 0 None in
  err = None ∧ truncated = false ∧ NoDup (o_Path <$> os).
Proof.
  split; [exact scan_fs_wf|].
  pose proof (@walk_exact PlainNFC AsciiCase scan_fs (bm_fileMap scan_map) ["/d/keep"] ["d"] scan_fs_wf
    (λ _, 10 ^ 12)%Z (λ _ _, false) (600 * 10 ^ 9) 0 (Z.le_refl 0) no_faults key_order (EDir None)) as Hw.
  assert (Lstat no_faults scan_fs ["d"] = inl (EDir None)) as Hl by (by vm_compute). specialize (Hw Hl).
  destruct (walkScanRootWithUnitFilter _ _ _ _ _ _ _ _ _ _ _) as [[os truncated] err].
  destruct Hw as [Hterm Hfound].
  assert (err = None) as He.
  { apply Hterm; [done|]. intros p msg Hp.
    assert (map_Forall (λ _ e, e ≠ EDir (Some msg)) scan_fs) as Hf.
    { clear. intros p e Hp. unfold scan_fs, FS in Hp. apply elem_of_list_to_map_2 in Hp.
      repeat (apply elem_of_cons in Hp as [[= -> ->]|Hp]; [done|]). by apply elem_of_nil in Hp. }
    by destruct (Hf p _ Hp). }
  split; [exact He|]. destruct (Hfound He) as (Ht & Hn & _). by split.
Defined.

Lemma scan_sound_witness :
  fs_wf scan_fs ∧
  ∃ o, o ∈ so_files (scan_of scan_fs key_order scan_map) ∧ o_Path o = "/d/M" ∧
  ∃ rs k info, abs_path rs ∈ ["/d"] ∧ scan_fs !! (rs ++ k) = Some (EFile (Some info)).
Proof.
  split; [exact scan_fs_wf|].
  assert (head (so_files (scan_of scan_fs key_order scan_map)) =
    Some (MkOrphan "/d/M" 11 0 "pending")) as Hh by (by vm_compute).
  exists (MkOrphan "/d/M" 11 0 "pending").
  assert (MkOrphan "/d/M" 11 0 "pending" ∈ so_files (scan_of scan_fs key_order scan_map)) as Ho.
  { by apply head_Some_elem_of. }
  split; [exact Ho|]. split; [done|].
  destruct (@scan_sound PlainNFC AsciiCase (quiet_world scan_fs key_order) (Ok (Some scan_settings)) scan_map
    key_order None "scheduled" (MkOrphan "/d/M" 11 0 "pending") scan_fs_wf) as (st & ip & rs & k & info & _ & _ & Hr & Hk & _).
  - intros root ->%list_elem_of_singleton. exists ["d"]. split; [|done].
    apply (bool_decide_eq_true_1 _). by vm_compute.
  - exact Ho.
  - exists rs, k, info. split; [exact Hr|exact Hk].
Defined.

(** Two instances that share a folder. *)
Definition sample_instances : Instances :=
  MkInstances (Ok [MkInstance 1 "a" true true; MkInstance 2 "b" true true; MkInstance 3 "c" true true])
    (λ id _, Ok (if bool_decide (id = 3%Z) then ["/other"] else ["/d"]))
    (λ id, Ok (MkBuild (@Add PlainNFC (if bool_decide (id = 2%Z) then "/d/b" else "/d/a") NewTorrentFileMap)
                 ["/d"] [] 1))
    (λ _, Ok None).

Lemma other_instances_respected_witness :
  ∃ r, @buildFileMap PlainNFC sample_instances 1 = Ok r ∧
    @instance_covered PlainNFC sample_instances r (MkInstance 2 "b" true true) ∧
    Has (bm_fileMap r) "/d/b" = true.
Proof.
  destruct (@buildFileMap PlainNFC sample_instances 1) as [r|e] eqn:E.
  - exists r. split; [done|]. split.
    + apply (@other_instances_respected PlainNFC sample_instances 1
        [MkInstance 1 "a" true true; MkInstance 2 "b" true true; MkInstance 3 "c" true true] r eq_refl E);
        [right; by left|done..].
    + vm_compute in E. injection E as <-. by vm_compute.
  - exfalso. by vm_compute in E.
Defined.
