(* ===== verification/OrphanRuns.v ===== *)
(** * [internal/services/orphanscan/service.go]: the life of a run

    Triggering, scanning, confirming, deleting and cancelling run in goroutines and
    requests that interleave between their accesses to the store, to the table of
    cancel functions and to the locks of the instances.  A step is one such access
    by one of them. *)

From Stdlib Require Import ZArith Lia.
From stdpp Require Import base numbers list strings gmap.
From S2P Require Import Prelude.

Open Scope qui_scope.

(** ** State *)

Record Run := MkRun { r_InstanceID : Z; r_Status : string; r_TriggeredBy : string; r_FilesFound : Z }.

(** Where a goroutine or a request is. *)
Inductive thread : Type :=
| Triggered (run inst : Z)                   (* [TriggerScan], the run is created *)
| ScanPending (run inst : Z) (ctx : nat)     (* [executeScan] is to mark the run as scanning *)
| Scanning (run inst : Z) (ctx : nat)
| ScanFound (run inst : Z) (ctx : nat) (files : Z) (* the files are stored *)
| ScanReady (run inst : Z) (ctx : nat)       (* the run is ready; auto-cleanup may confirm *)
| ScanLeaving (run : Z)                      (* [executeScan] is to return *)
| ConfirmChecked (run inst : Z) (scan : bool) (* [ConfirmDeletion], the status is checked *)
| ConfirmLocked (run inst : Z) (scan : bool)
| DeletePending (run inst : Z) (ctx : nat)   (* [executeDeletion] is to mark the run as deleting *)
| Deleting (run inst : Z) (ctx : nat)
| CancelActive (run : Z)                     (* [CancelRun], the run was pending, scanning or ready *)
| CancelStale (run : Z)                      (* the run was deleting *)
| CancelMark (run : Z)                       (* about to mark the run as cancelled *)
| Done (error : option string).

(** The store, the table of cancel functions (a context each), the contexts that
    are cancelled, the locks held, and what runs. *)
Record State := MkState {
  runs : gmap Z Run; nextRun : Z; cancelFuncs : gmap Z nat; canceled : gset nat; locked : gset Z;
  threads : gmap nat thread; nextThread : nat; nextCtx : nat }.

Definition start : State := MkState ∅ 1 ∅ ∅ ∅ ∅ 0 0.

Definition set_runs (m : gmap Z Run) (s : State) : State :=
  MkState m (nextRun s) (cancelFuncs s) (canceled s) (locked s) (threads s) (nextThread s) (nextCtx s).
Definition set_funcs (m : gmap Z nat) (s : State) : State :=
  MkState (runs s) (nextRun s) m (canceled s) (locked s) (threads s) (nextThread s) (nextCtx s).
Definition cancel_ctx (c : nat) (s : State) : State :=
  MkState (runs s) (nextRun s) (cancelFuncs s) ({[c]} ∪ canceled s) (locked s) (threads s) (nextThread s) (nextCtx s).
Definition set_locked (l : gset Z) (s : State) : State :=
  MkState (runs s) (nextRun s) (cancelFuncs s) (canceled s) l (threads s) (nextThread s) (nextCtx s).
Definition set_thread (t : nat) (th : thread) (s : State) : State :=
  MkState (runs s) (nextRun s) (cancelFuncs s) (canceled s) (locked s) (<[t := th]> (threads s)) (nextThread s)
    (nextCtx s).
Definition spawn (th : thread) (s : State) : State :=
  MkState (runs s) (nextRun s) (cancelFuncs s) (canceled s) (locked s) (<[nextThread s := th]> (threads s))
    (S (nextThread s)) (nextCtx s).
(** A fresh context, registered as the cancel function of the run. *)
Definition register (run : Z) (s : State) : State :=
  MkState (runs s) (nextRun s) (<[run := nextCtx s]> (cancelFuncs s)) (canceled s) (locked s) (threads s)
    (nextThread s) (S (nextCtx s)).

(** ** The store *)

Definition is_active (r : Run) : bool :=
  bool_decide (r_Status r ∈ ["pending"; "scanning"; "deleting"]) ||
  (bool_decide (r_Status r = "preview_ready") && (0 <? r_FilesFound r)%Z).

Definition has_active (inst : Z) (m : gmap Z Run) : bool :=
  existsb (λ '(_, r), bool_decide (r_InstanceID r = inst) && is_active r) (map_to_list m).

Definition CreateRunIfNoActive (inst : Z) (triggeredBy : string) (s : State) : option (Z * State) :=
  if has_active inst (runs s) then None
  else Some (nextRun s,
    MkState (<[nextRun s := MkRun inst "pending" triggeredBy 0]> (runs s)) (nextRun s + 1) (cancelFuncs s)
      (canceled s) (locked s) (threads s) (nextThread s) (nextCtx s)).

Definition UpdateRunStatus (run : Z) (status : string) (s : State) : State :=
  set_runs (alter (λ r, MkRun (r_InstanceID r) status (r_TriggeredBy r) (r_FilesFound r)) run (runs s)) s.
Definition UpdateRunFoundStats (run : Z) (filesFound : Z) (s : State) : State :=
  set_runs (alter (λ r, MkRun (r_InstanceID r) (r_Status r) (r_TriggeredBy r) filesFound) run (runs s)) s.

(** ** Steps *)

(** How a scan or a deletion goes on. *)
Inductive event : Type :=
| TriggerScan (inst : Z) (triggeredBy : string)
| ConfirmDeletion (inst run : Z)
| CancelRun (run : Z)
| Finds (t : nat) (files : Z) (counted : bool) (* the files are stored, and maybe their number *)
| Fails (t : nat)                    (* the scan or the deletion fails *)
| AutoCleanup (t : nat)              (* [maybeAutoCleanup] confirms *)
| Advance (t : nat)                  (* the next access *)
| StoreFails (t : nat)               (* the next access to the store fails *)
| Restart (stuck : gset Z).          (* the process restarts; these runs are old *)

(** The deferred removal of the cancel function, and the end. *)
Definition finish (t : nat) (run : Z) (s : State) : State :=
  set_thread t (Done None) (set_funcs (delete run (cancelFuncs s)) s).
Definition finish_deletion (t : nat) (run inst : Z) (s : State) : State :=
  set_locked (locked s ∖ {[inst]}) (finish t run s).

Definition is_canceled (ctx : nat) (s : State) : bool := bool_decide (ctx ∈ canceled s).

(** [ConfirmDeletion] up to the check of the status, for a request or for a scan
    with auto-cleanup. *)
Definition confirm_check (inst run : Z) (scan : bool) (s : State) : thread :=
  match runs s !! run with
  | Some r =>
    if negb (bool_decide (r_InstanceID r = inst)) then Done (Some "run not found")
    else if negb (bool_decide (r_Status r = "preview_ready")) then Done (Some "invalid run status")
    else ConfirmChecked run inst scan
  | None => Done (Some "run not found")
  end.

(** The access that [Advance t] makes. *)
Definition advance (t : nat) (s : State) : option State :=
  match threads s !! t with
  | Some (Triggered run inst) =>
    Some (set_thread t (Done None) (spawn (ScanPending run inst (nextCtx s)) (register run s)))
  | Some (ScanPending run inst ctx) =>
    Some (if is_canceled ctx s then finish t run s
          else set_thread t (Scanning run inst ctx) (UpdateRunStatus run "scanning" s))
  | Some (ScanFound run inst ctx files) =>
    Some (if is_canceled ctx s then finish t run s
          else if bool_decide (files = 0%Z)
          then finish t run (UpdateRunStatus run "completed" s)
          else set_thread t (ScanReady run inst ctx) (UpdateRunStatus run "preview_ready" s))
  | Some (ScanReady run _ _) | Some (ScanLeaving run) => Some (finish t run s)
  | Some (ConfirmChecked run inst scan) =>
    Some (if bool_decide (inst ∈ locked s)
          then if scan then set_thread t (ScanLeaving run) s
               else set_thread t (Done (Some "scan in progress")) s
          else set_thread t (ConfirmLocked run inst scan) (set_locked ({[inst]} ∪ locked s) s))
  | Some (ConfirmLocked run inst scan) =>
    let s' := spawn (DeletePending run inst (nextCtx s)) (register run s) in
    Some (set_thread t (if scan then ScanLeaving run else Done None) s')
  | Some (DeletePending run inst ctx) =>
    Some (if is_canceled ctx s then finish_deletion t run inst s
          else set_thread t (Deleting run inst ctx) (UpdateRunStatus run "deleting" s))
  | Some (Deleting run inst ctx) =>
    Some (finish_deletion t run inst
            (if is_canceled ctx s then s else UpdateRunStatus run "completed" s))
  | Some (CancelActive run) =>
    Some (set_thread t (CancelMark run)
            (match cancelFuncs s !! run with Some ctx => cancel_ctx ctx s | None => s end))
  | Some (CancelStale run) =>
    Some (match cancelFuncs s !! run with
          | Some _ => set_thread t (Done (Some "cannot cancel run while deletion is in progress")) s
          | None => set_thread t (CancelMark run) s
          end)
  | Some (CancelMark run) => Some (set_thread t (Done None) (UpdateRunStatus run "canceled" s))
  | Some (Scanning _ _ _) | Some (Done _) | None => None
  end.

(** The same access when the store fails. *)
Definition store_fails (t : nat) (s : State) : option State :=
  match threads s !! t with
  | Some (ScanPending run _ _) | Some (ScanFound run _ _ _) => Some (finish t run s)
  | Some (DeletePending run inst _) | Some (Deleting run inst _) => Some (finish_deletion t run inst s)
  | Some (CancelMark _) => Some (set_thread t (Done (Some "store")) s)
  | _ => None
  end.

Definition restart_run (stuck : gset Z) (run : Z) (r : Run) : Run :=
  if bool_decide (r_Status r = "deleting") ||
     (bool_decide (run ∈ stuck) && bool_decide (r_Status r ∈ ["pending"; "scanning"]))
  then MkRun (r_InstanceID r) "failed" (r_TriggeredBy r) (r_FilesFound r) else r.

Definition step (e : event) (s : State) : option State :=
  match e with
  | TriggerScan inst triggeredBy =>
    Some (match CreateRunIfNoActive inst triggeredBy s with
          | None => spawn (Done (Some "scan already in progress")) s
          | Some (run, s) => spawn (Triggered run inst) s
          end)
  | ConfirmDeletion inst run => Some (spawn (confirm_check inst run false s) s)
  | CancelRun run =>
    Some (spawn (match r_Status <$> runs s !! run with
                 | None => Done (Some "run not found")
                 | Some status =>
                   if bool_decide (status ∈ ["pending"; "scanning"; "preview_ready"]) then CancelActive run
                   else if bool_decide (status = "deleting") then CancelStale run
                   else Done (Some "run already finished")
                 end) s)
  | Finds t files counted =>
    match threads s !! t with
    | Some (Scanning run inst ctx) =>
      Some (if is_canceled ctx s then finish t run s
            else set_thread t (ScanFound run inst ctx files)
                   (if counted then UpdateRunFoundStats run files s else s))
    | _ => None
    end
  | Fails t =>
    match threads s !! t with
    | Some (Scanning run inst ctx) =>
      Some (finish t run (if is_canceled ctx s then s else UpdateRunStatus run "failed" s))
    | Some (Deleting run inst ctx) =>
      Some (finish_deletion t run inst (if is_canceled ctx s then s else UpdateRunStatus run "failed" s))
    | _ => None
    end
  | AutoCleanup t =>
    match threads s !! t with
    | Some (ScanReady run inst ctx) =>
      if is_canceled ctx s || negb (bool_decide (r_TriggeredBy <$> runs s !! run = Some "scheduled")) then None
      else Some (set_thread t (match confirm_check inst run true s with
                               | Done _ => ScanLeaving run
                               | th => th
                               end) s)
    | _ => None
    end
  | Advance t => advance t s
  | StoreFails t => store_fails t s
  | Restart stuck =>
    Some (MkState (map_imap (λ run r, Some (restart_run stuck run r)) (runs s)) (nextRun s) ∅ (canceled s) ∅ ∅
            (nextThread s) (nextCtx s))
  end.

Fixpoint steps (es : list event) (s : State) : option State :=
  match es with
  | [] => Some s
  | e :: es => match step e s with Some s => steps es s | None => None end
  end.

Inductive reachable : State → Prop :=
| reachable_start : reachable start
| reachable_step e s s' : reachable s → step e s = Some s' → reachable s'.

(** ** One deletion at a time *)

(** The instance whose lock a goroutine or request holds. *)
Definition holds (th : thread) : option Z :=
  match th with
  | ConfirmLocked _ inst _ | DeletePending _ inst _ | Deleting _ inst _ => Some inst
  | _ => None
  end.

Record locks_ok (s : State) : Prop := {
  lo_ids t th : threads s !! t = Some th → (t < nextThread s)%nat;
  lo_held t th i : threads s !! t = Some th → holds th = Some i → i ∈ locked s;
  lo_unique t1 t2 th1 th2 i : threads s !! t1 = Some th1 → threads s !! t2 = Some th2 →
    holds th1 = Some i → holds th2 = Some i → t1 = t2 }.

(** What the lemmas below look at. *)
Definition same_threads (s s' : State) : Prop :=
  threads s' = threads s ∧ nextThread s' = nextThread s ∧ locked s' = locked s.

Lemma locks_same s s' : same_threads s s' → locks_ok s → locks_ok s'.
Proof. intros (E1 & E2 & E3) [L1 L2 L3]. split; rewrite ?E1, ?E2, ?E3; eauto. Qed.

(** A thread that goes on without the lock it may have, or with the same. *)
Lemma locks_set_thread s t th th' :
  locks_ok s → threads s !! t = Some th → (holds th' = None ∨ holds th' = holds th) →
  locks_ok (set_thread t th' s).
Proof.
  intros [L1 L2 L3] Ht Hh. split; cbn.
  - intros u x [[<- <-]|[_ Hx]]%lookup_insert_Some; eauto.
  - intros u x i [[<- <-]|[_ Hx]]%lookup_insert_Some Hi; [|eauto].
    destruct Hh as [Hh|Hh]; [congruence|]. rewrite Hh in Hi. eauto.
  - intros u1 u2 x1 x2 i [[<- <-]|[N1 H1]]%lookup_insert_Some [[<- <-]|[N2 H2]]%lookup_insert_Some I1 I2; [done|..|eauto].
    + destruct Hh as [Hh|Hh]; [congruence|]. rewrite Hh in I1. eauto.
    + destruct Hh as [Hh|Hh]; [congruence|]. rewrite Hh in I2. eauto.
Qed.

Lemma locks_spawn s th : locks_ok s → holds th = None → locks_ok (spawn th s).
Proof.
  intros [L1 L2 L3] Hh. split; cbn.
  - intros u x [[<- <-]|[_ Hx]]%lookup_insert_Some; [lia|]. apply L1 in Hx. lia.
  - intros u x i [[<- <-]|[_ Hx]]%lookup_insert_Some Hi; [congruence|eauto].
  - intros u1 u2 x1 x2 i [[<- <-]|[N1 H1]]%lookup_insert_Some [[<- <-]|[N2 H2]]%lookup_insert_Some I1 I2;
      [done|congruence..|eauto].
Qed.

Lemma locks_take s t th th' i :
  locks_ok s → threads s !! t = Some th → holds th = None → i ∉ locked s → holds th' = Some i →
  locks_ok (set_thread t th' (set_locked ({[i]} ∪ locked s) s)).
Proof.
  intros [L1 L2 L3] Ht Hn Hi Hh. split; cbn.
  - intros u x [[<- <-]|[_ Hx]]%lookup_insert_Some; eauto.
  - intros u x j [[<- <-]|[_ Hx]]%lookup_insert_Some Hj; [|pose proof (L2 _ _ _ Hx Hj); set_solver].
    rewrite Hh in Hj. injection Hj as <-. set_solver.
  - intros u1 u2 x1 x2 j [[<- <-]|[N1 H1]]%lookup_insert_Some [[<- <-]|[N2 H2]]%lookup_insert_Some I1 I2; [done|..|eauto].
    + rewrite Hh in I1. injection I1 as <-. by destruct Hi; eauto.
    + rewrite Hh in I2. injection I2 as <-. by destruct Hi; eauto.
Qed.

(** The lock passes to the goroutine of the deletion. *)
Lemma locks_pass s t th th1 th2 i :
  locks_ok s → threads s !! t = Some th → holds th = Some i → holds th1 = None → holds th2 = Some i →
  locks_ok (set_thread t th1 (spawn th2 s)).
Proof.
  intros [L1 L2 L3] Ht Hi H1 H2. pose proof (L1 _ _ Ht). split; cbn.
  - intros u x [[<- <-]|[_ [[<- <-]|[_ Hx]]%lookup_insert_Some]]%lookup_insert_Some; [lia|lia|]. apply L1 in Hx. lia.
  - intros u x j [[<- <-]|[_ [[<- <-]|[_ Hx]]%lookup_insert_Some]]%lookup_insert_Some Hj; [congruence| |eauto].
    rewrite H2 in Hj. injection Hj as <-. eauto.
  - intros u1 u2 x1 x2 j
      [[<- <-]|[N1 [[<- <-]|[M1 X1]]%lookup_insert_Some]]%lookup_insert_Some
      [[<- <-]|[N2 [[<- <-]|[M2 X2]]%lookup_insert_Some]]%lookup_insert_Some I1 I2; try congruence; eauto.
    + rewrite H2 in I1. injection I1 as <-. by destruct N2; eauto.
    + rewrite H2 in I2. injection I2 as <-. by destruct N1; eauto.
Qed.

Lemma locks_release s t th i run :
  locks_ok s → threads s !! t = Some th → holds th = Some i → locks_ok (finish_deletion t run i s).
Proof.
  intros [L1 L2 L3] Ht Hi. unfold finish_deletion, finish. split; cbn.
  - intros u x [[<- <-]|[_ Hx]]%lookup_insert_Some; eauto.
  - intros u x j [[<- <-]|[Hne Hx]]%lookup_insert_Some Hj; [done|].
    apply elem_of_difference. split; [eauto|]. intros ->%elem_of_singleton. by destruct Hne; eauto.
  - intros u1 u2 x1 x2 j [[<- <-]|[N1 H1]]%lookup_insert_Some [[<- <-]|[N2 H2]]%lookup_insert_Some I1 I2; eauto; done.
Qed.

Lemma locks_finish s t th run : locks_ok s → threads s !! t = Some th → locks_ok (finish t run s).
Proof.
  intros Hs Ht. unfold finish. apply (locks_set_thread _ _ th); [|done|by left]. by apply (locks_same s).
Qed.

Lemma locks_release' s s' t th i run : same_threads s s' →
  locks_ok s → threads s !! t = Some th → holds th = Some i → locks_ok (finish_deletion t run i s').
Proof.
  intros Hsame Hs Ht Hi. apply (locks_release _ _ th); [by apply (locks_same s)| |done].
  destruct Hsame as (E & _). by rewrite E.
Qed.

Lemma advance_locks t s s' : locks_ok s → advance t s = Some s' → locks_ok s'.
Proof.
  intros Hs. unfold advance. destruct (threads s !! t) as [th|] eqn:Ht; [|done].
  assert (∀ s1 th', same_threads s s1 → holds th' = None ∨ holds th' = holds th → locks_ok (set_thread t th' s1)) as Hset.
  { intros s1 th' Hsame Hh. apply (locks_set_thread _ _ th); [by apply (locks_same s)| |done].
    destruct Hsame as (E & _). by rewrite E. }
  assert (∀ s1 run, same_threads s s1 → locks_ok (finish t run s1)) as Hfin.
  { intros s1 run Hsame. apply Hset; [|by left]. destruct Hsame as (? & ? & ?). by split_and!. }
  destruct th as [run inst|run inst ctx| |run inst ctx files|run inst ctx|run|run inst scan|run inst scan|
    run inst ctx|run inst ctx|run|run|run|]; try done.
  - intros [= <-]. apply (locks_set_thread _ _ (Triggered run inst)); [|cbn|by left].
    + apply locks_spawn; [|done]. by apply (locks_same s).
    + apply lookup_insert_Some. right. split; [|done]. intros E. apply (lo_ids _ Hs) in Ht. lia.
  - intros [= <-]. destruct (is_canceled ctx s); [by apply Hfin|]. apply Hset; [done|by left].
  - intros [= <-]. destruct (is_canceled ctx s); [by apply Hfin|].
    destruct (bool_decide _); [by apply Hfin|]. apply Hset; [done|by left].
  - intros [= <-]. by apply Hfin.
  - intros [= <-]. by apply Hfin.
  - intros [= <-]. case_bool_decide as Hl; [destruct scan; (apply Hset; [done|by left])|].
    apply (locks_take _ _ (ConfirmChecked run inst scan)); done.
  - intros [= <-]. apply (locks_pass _ _ (ConfirmLocked run inst scan) _ _ inst); try done.
    + by apply (locks_same s).
    + by destruct scan.
  - intros [= <-]. destruct (is_canceled ctx s).
    + by apply (locks_release _ _ (DeletePending run inst ctx)).
    + apply Hset; [done|by right].
  - intros [= <-]. apply (locks_release' s _ _ (Deleting run inst ctx)); [|done..].
    by destruct (is_canceled ctx s).
  - intros [= <-]. apply Hset; [|by left]. by destruct (cancelFuncs s !! run).
  - intros [= <-]. destruct (cancelFuncs s !! run); apply Hset; (done || by left).
  - intros [= <-]. apply Hset; [done|by left].
Qed.

Lemma step_locks e s s' : locks_ok s → step e s = Some s' → locks_ok s'.
Proof.
  intros Hs. destruct e as [inst tb|inst run|run|t files counted|t|t|t|t|stuck]; cbn [step].
  - intros [= <-]. unfold CreateRunIfNoActive. destruct (has_active inst (runs s)); apply locks_spawn; try done.
    by apply (locks_same s).
  - intros [= <-]. apply locks_spawn; [done|]. unfold confirm_check. repeat case_match; done.
  - intros [= <-]. apply locks_spawn; [done|]. repeat case_match; done.
  - destruct (threads s !! t) as [[]|] eqn:Ht; try done. intros [= <-].
    destruct (is_canceled _ s); [by eapply locks_finish|].
    eapply locks_set_thread; [|destruct counted; exact Ht|by left]. destruct counted; [by apply (locks_same s)|done].
  - destruct (threads s !! t) as [[]|] eqn:Ht; try done; intros [= <-].
    + eapply locks_finish; [|by destruct (is_canceled _ s)]. destruct (is_canceled _ s); [done|by apply (locks_same s)].
    + eapply (locks_release' s); [|done..|]; [by destruct (is_canceled _ s)|done].
  - destruct (threads s !! t) as [[]|] eqn:Ht; try done. destruct (_ || _); [done|]. intros [= <-].
    eapply locks_set_thread; [done..|left]. unfold confirm_check. repeat case_match; simplify_eq/=; done.
  - by apply advance_locks.
  - unfold store_fails. destruct (threads s !! t) as [[]|] eqn:Ht; try done; intros [= <-].
    + by eapply locks_finish.
    + by eapply locks_finish.
    + by eapply locks_release.
    + by eapply locks_release.
    + eapply locks_set_thread; [done..|by left].
  - intros [= <-]. by split; cbn; intros *; rewrite ?lookup_empty.
Qed.

Lemma reachable_locks s : reachable s → locks_ok s.
Proof.
  induction 1 as [|e s s' _ IH Hst]; [|by eapply step_locks].
  by split; cbn; intros *; rewrite ?lookup_empty.
Qed.

Lemma steps_reachable es : ∀ s s', reachable s → steps es s = Some s' → reachable s'.
Proof.
  induction es as [|e es IH]; intros s s' Hs; cbn [steps]; [by intros [= <-]|].
  destruct (step e s) as [s1|] eqn:E; [|done]. apply IH. by eapply reachable_step.
Qed.

(** C40. However requests, goroutines, failures of the
    store and restarts interleave, at most one of them deletes, or is about to
    delete, the orphans of an instance. *)
Theorem one_deletion_per_instance (s : State) (t1 t2 : nat) (th1 th2 : thread) (inst : Z) :
  reachable s → threads s !! t1 = Some th1 → threads s !! t2 = Some th2 →
  holds th1 = Some inst → holds th2 = Some inst → t1 = t2.
Proof. intros Hs. apply (lo_unique _ (reachable_locks s Hs)). Qed.

(** ** Cancellation *)

(** The context of what a goroutine does. *)
Definition context_of (th : thread) : option nat :=
  match th with
  | ScanPending _ _ ctx | Scanning _ _ ctx | ScanFound _ _ ctx _ | ScanReady _ _ ctx
  | DeletePending _ _ ctx | Deleting _ _ ctx => Some ctx
  | _ => None
  end.

(** The events that are steps of a thread. *)
Definition event_of (e : event) : option nat :=
  match e with
  | Finds t _ _ | Fails t | AutoCleanup t | Advance t | StoreFails t => Some t
  | _ => None
  end.

(** A goroutine whose context is cancelled ends with its
    next step, and this step changes no run; a context that is cancelled stays
    so. *)
Theorem cancellation_final (s s' : State) (t : nat) (th : thread) (ctx : nat) (e : event) :
  threads s !! t = Some th → context_of th = Some ctx → ctx ∈ canceled s → step e s = Some s' →
  ctx ∈ canceled s' ∧ (event_of e = Some t → threads s' !! t = Some (Done None) ∧ runs s' = runs s).
Proof.
  intros Ht Hctx Hc Hstep.
  assert (is_canceled ctx s = true) as Hic by (by apply bool_decide_eq_true). split.
  - destruct e; cbn [step] in Hstep; unfold advance, store_fails, CreateRunIfNoActive in Hstep;
      repeat case_match; simplify_eq/=; try done; set_solver.
  - intros He. destruct e; simplify_eq/=; unfold advance, store_fails in Hstep; rewrite Ht in Hstep;
      destruct th; simplify_eq/=; try rewrite Hic in Hstep; simplify_eq/=; rewrite ?Hic; cbn; by rewrite lookup_insert_eq.
Qed.

(** ** Instances *)

(** A scan with auto-cleanup: when the deletion is on its way, the scan returns
    and removes the cancel function of its run, which is that of the deletion. *)
Definition auto_cleanup : list event :=
  [TriggerScan 1 "scheduled"; Advance 0; Advance 1; Finds 1 3 true; Advance 1; AutoCleanup 1; Advance 1; Advance 1;
   Advance 2; Advance 1].

Definition auto_cleanup_state : State := default start (steps auto_cleanup start).

Lemma one_deletion_per_instance_witness :
  ∃ s t th, reachable s ∧ threads s !! t = Some th ∧ holds th = Some 1%Z ∧
    ∀ t' th', threads s !! t' = Some th' → holds th' = Some 1%Z → t = t'.
Proof.
  exists auto_cleanup_state, 2%nat, (Deleting 1 1 1).
  assert (reachable auto_cleanup_state) as Hr.
  { destruct (steps auto_cleanup start) as [s|] eqn:E; [|by vm_compute in E].
    unfold auto_cleanup_state. rewrite E. by eapply steps_reachable; [apply reachable_start|]. }
  split_and!; [exact Hr|by vm_compute|done|]. intros t' th' Ht' Hh.
  apply (one_deletion_per_instance auto_cleanup_state 2 t' (Deleting 1 1 1) th' 1); [exact Hr|by vm_compute|exact Ht'|done|exact Hh].
Defined.

(** A scan that is cancelled while it walks. *)
Definition cancelled_state : State :=
  default start (steps [TriggerScan 1 "manual"; Advance 0; Advance 1; CancelRun 1; Advance 2; Advance 2] start).

Lemma cancellation_final_witness :
  ∃ s', step (Finds 1 7 true) cancelled_state = Some s' ∧
    threads s' !! 1%nat = Some (Done None) ∧ runs s' = runs cancelled_state.
Proof.
  destruct (step (Finds 1 7 true) cancelled_state) as [s'|] eqn:E; [|by vm_compute in E].
  exists s'. split; [done|].
  destruct (cancellation_final cancelled_state s' 1 (Scanning 1 1 0) 0 (Finds 1 7 true)) as [_ Hd].
  - by vm_compute.
  - done.
  - apply (bool_decide_eq_true_1 _). by vm_compute.
  - exact E.
  - by apply Hd.
Defined.

Definition status_of (run : Z) (s : State) : option string := r_Status <$> runs s !! run.

(** During a deletion by auto-cleanup, a run can be cancelled, although the
    deletion goes on and another scan may start beside it. *)
Example cancelled_while_deleting :
  let s := default start (steps (auto_cleanup ++ [CancelRun 1; Advance 3; Advance 3; TriggerScan 1 "manual"; Advance 4]) start) in
  threads s !! 3%nat = Some (Done None) ∧ status_of 1 s = Some "canceled" ∧
  threads s !! 2%nat = Some (Deleting 1 1 1) ∧ is_canceled 1 s = false ∧ status_of 2 s = Some "pending".
Proof. by vm_compute. Qed.

(** After a confirmation by hand the cancellation is refused. *)
Example refused_while_deleting :
  let s := default start (steps [TriggerScan 1 "manual"; Advance 0; Advance 1; Finds 1 3 true; Advance 1; Advance 1;
    ConfirmDeletion 1 1; Advance 2; Advance 2; Advance 3; CancelRun 1; Advance 4] start) in
  threads s !! 4%nat = Some (Done (Some "cannot cancel run while deletion is in progress")) ∧
  status_of 1 s = Some "deleting".
Proof. by vm_compute. Qed.

(** A run that is cancelled between the check of its status and the lock is
    deleted all the same. *)
Example deleted_after_cancellation :
  let s := default start (steps [TriggerScan 1 "manual"; Advance 0; Advance 1; Finds 1 3 true; Advance 1; Advance 1;
    ConfirmDeletion 1 1; CancelRun 1; Advance 3; Advance 3; Advance 2; Advance 2; Advance 4] start) in
  threads s !! 3%nat = Some (Done None) ∧ threads s !! 4%nat = Some (Deleting 1 1 1) ∧
  status_of 1 s = Some "deleting".
Proof. by vm_compute. Qed.

(** A run that is cancelled before its cancel function is registered is scanned
    all the same. *)
Example scanned_after_cancellation :
  let s := default start (steps [TriggerScan 1 "manual"; CancelRun 1; Advance 1; Advance 1; Advance 0; Advance 2] start) in
  threads s !! 1%nat = Some (Done None) ∧ status_of 1 s = Some "scanning".
Proof. by vm_compute. Qed.
