(* ===== verification/TransmissionRpc.v ===== *)
(** * [internal/transmissionqbt/methods.go]: what goes over the wire

    The client speaks Transmission's RPC protocol and shows it to the rest of
    the program as qBittorrent's API.  Inside, every argument and every field
    has its snake-case name; this file has the translation to the names of the
    daemon and back, the normalisation of the payloads it answers with, and
    the coercions of loosely typed option values. *)

From Stdlib Require Import ZArith Lia Ascii SpecFloat.
From stdpp Require Import base numbers list strings gmap.
From S2P Require Import Prelude.
From S2P Require Import GoStrings.
From S2P Require Import GoFloat.

Open Scope qui_scope.

(** ** Values of type [interface{}] *)

(** The values that options, RPC arguments and decoded JSON hold.  [VNumber]
    is a [json.Number], the text of a number; [VInt] is any of Go's integer
    types.  A map is the list of its entries in the order a range loop visits
    them. *)
Inductive any : Type :=
| VNil
| VBool (b : bool)
| VInt (z : Z)
| VFloat (f : float64)
| VNumber (s : string)
| VStr (s : string)
| VStrs (l : list string)
| VInts (l : list Z)
| VList (l : list any)
| VMap (m : list (string * any)).

Section any_induction.
Context (P : any → Prop).
Context (Hnil : P VNil) (Hbool : ∀ b, P (VBool b)) (Hint : ∀ z, P (VInt z)) (Hfloat : ∀ f, P (VFloat f)).
Context (Hnumber : ∀ s, P (VNumber s)) (Hstr : ∀ s, P (VStr s)) (Hstrs : ∀ l, P (VStrs l)) (Hints : ∀ l, P (VInts l)).
Context (Hlist : ∀ l, Forall P l → P (VList l)).
Context (Hmap : ∀ m, Forall (λ kv, P kv.2) m → P (VMap m)).

Fixpoint any_nested_ind (v : any) : P v :=
  match v with
  | VNil => Hnil
  | VBool b => Hbool b
  | VInt z => Hint z
  | VFloat f => Hfloat f
  | VNumber s => Hnumber s
  | VStr s => Hstr s
  | VStrs l => Hstrs l
  | VInts l => Hints l
  | VList l =>
    Hlist l ((fix go l : Forall P l :=
      match l with
      | [] => List.Forall_nil P
      | x :: l => List.Forall_cons P x l (any_nested_ind x) (go l)
      end) l)
  | VMap m =>
    Hmap m ((fix go m : Forall (λ kv, P kv.2) m :=
      match m with
      | [] => List.Forall_nil _
      | kv :: m => List.Forall_cons (λ kv, P kv.2) kv m (any_nested_ind kv.2) (go m)
      end) m)
  end.
End any_induction.

(** ** Maps as association lists *)

Fixpoint assoc {A} (k : string) (m : list (string * A)) : option A :=
  match m with
  | [] => None
  | (k', v) :: m => if bool_decide (k = k') then Some v else assoc k m
  end.

(** [m[k] = v]. *)
Fixpoint assoc_set {A} (k : string) (v : A) (m : list (string * A)) : list (string * A) :=
  match m with
  | [] => [(k, v)]
  | (k', v') :: m => if bool_decide (k = k') then (k, v) :: m else (k', v') :: assoc_set k v m
  end.

Lemma assoc_set_keys {A} k (v : A) m x : x ∈ (assoc_set k v m).*1 ↔ x = k ∨ x ∈ m.*1.
Proof.
  induction m as [|[k' v'] m IH]; simpl; [set_solver|].
  case_bool_decide; set_solver.
Qed.

Lemma NoDup_assoc_set {A} k (v : A) m : NoDup m.*1 → NoDup (assoc_set k v m).*1.
Proof.
  induction m as [|[k' v'] m IH]; simpl; [intros _; by apply NoDup_singleton|].
  intros [Hk Hnd]%NoDup_cons. case_bool_decide as E; simpl; [by subst; constructor|].
  constructor; [|by apply IH]. rewrite assoc_set_keys. naive_solver.
Qed.

Lemma assoc_set_eq {A} k (v : A) m : assoc k (assoc_set k v m) = Some v.
Proof.
  induction m as [|[k' v'] m IH]; simpl; [by rewrite bool_decide_true|].
  destruct (bool_decide (k = k')) eqn:E; simpl; [by rewrite bool_decide_true|by rewrite E].
Qed.

Lemma assoc_set_ne {A} k k' (v : A) m : k ≠ k' → assoc k (assoc_set k' v m) = assoc k m.
Proof.
  intros Hne. induction m as [|[k2 v2] m IH]; simpl; [by rewrite bool_decide_false|].
  destruct (bool_decide (k' = k2)) eqn:E; simpl; [|by rewrite IH].
  bool_hyps. subst. by rewrite !(bool_decide_false (k = k2)).
Qed.

Lemma assoc_elem_of {A} k (v : A) m : assoc k m = Some v → (k, v) ∈ m.
Proof.
  induction m as [|[k' v'] m IH]; simpl; [done|].
  case_bool_decide; intros; simplify_eq; [left|right; auto].
Qed.

Lemma assoc_set_Forall {A} (P : string * A → Prop) k v m :
  P (k, v) → Forall P m → Forall P (assoc_set k v m).
Proof.
  intros Hkv. induction 1 as [|[k' v'] m Hp Hm IH]; simpl; [by constructor|].
  case_bool_decide; constructor; auto.
Qed.

(** ** Names *)

Definition transmissionMethodName (method : string) : string := ReplaceByte "_"%char "-"%char method.

Definition snakeToHyphen (value : string) : string := ReplaceByte "_"%char "-"%char value.

Definition underscore : Z := 95.
Definition is_upper_rune (r : Z) : bool := ((65 <=? r) && (r <=? 90))%Z.
Definition is_lower_rune (r : Z) : bool := ((97 <=? r) && (r <=? 122))%Z.

Fixpoint camel_runes (upperNext : bool) (l : list Z) : list Z :=
  match l with
  | [] => []
  | r :: l =>
    if bool_decide (r = underscore) then camel_runes true l
    else (if upperNext && is_lower_rune r then r - 32 else r)%Z :: camel_runes false l
  end.

Definition encode_runes (l : list Z) : string := of_bytes (concat (encode_rune <$> l)).

Definition snakeToLowerCamel (value : string) : string :=
  if bool_decide (value = "") || negb (bool_decide ("_"%char ∈ to_bytes value)) then value
  else encode_runes (camel_runes false (runes (to_bytes value))).

Definition sessionRequestKey (key : string) : string :=
  if bool_decide (key = "seed_ratio_limit") then "seedRatioLimit"
  else if bool_decide (key = "seed_ratio_limited") then "seedRatioLimited"
  else snakeToHyphen key.

Definition plain_request_keys : list string :=
  ["ids"; "fields"; "filename"; "metainfo"; "paused"; "labels"; "group"; "comment"; "location"; "move"; "path"; "name"]%string.

Definition torrentAddRequestKey (key : string) : string :=
  if bool_decide (key ∈ plain_request_keys) then key
  else if bool_decide (key ∈ ["download_dir"; "peer_limit"; "files_unwanted"; "files_wanted"; "priority_low";
                              "priority_normal"; "priority_high"]%string)
  then snakeToHyphen key
  else snakeToLowerCamel key.

Definition torrentSetRequestKey (key : string) : string :=
  if bool_decide (key ∈ plain_request_keys) then key
  else if bool_decide (key ∈ ["peer_limit"; "files_unwanted"; "files_wanted"; "priority_low"; "priority_normal";
                              "priority_high"]%string)
  then snakeToHyphen key
  else snakeToLowerCamel key.

Definition groupSetRequestKey (key : string) : string :=
  if bool_decide (key = "honors_session_limits") then "honorsSessionLimits" else snakeToHyphen key.

Definition torrentGetField (field : string) : string :=
  if bool_decide (field ∈ ["file_count"; "peer_limit"; "primary_mime_type"]%string) then snakeToHyphen field
  else snakeToLowerCamel field.

Definition transmissionRequestKey (method key : string) : string :=
  if bool_decide (method = "session_get") then key
  else if bool_decide (method = "session_set") then sessionRequestKey key
  else if bool_decide (method = "free_space") then key
  else if bool_decide (method = "torrent_remove") then snakeToHyphen key
  else if bool_decide (method = "torrent_add") then torrentAddRequestKey key
  else if bool_decide (method = "torrent_set") then torrentSetRequestKey key
  else if bool_decide (method = "group_set") then groupSetRequestKey key
  else key.

Definition request_field (method field : string) : string :=
  if bool_decide (method = "session_get") then sessionRequestKey field
  else if bool_decide (method = "torrent_get") then torrentGetField field
  else field.

Definition transmissionRequestFields (method : string) (fields : list string) : list string :=
  request_field method <$> fields.

Fixpoint normalizeTransmissionRequestValue (method key : string) (value : any) : any :=
  match value with
  | VMap m =>
    VMap (fold_left (λ acc kv,
      assoc_set (transmissionRequestKey method kv.1) (normalizeTransmissionRequestValue method kv.1 kv.2) acc) m [])
  | VStrs l => if bool_decide (key = "fields") then VStrs (transmissionRequestFields method l) else value
  | VList l => VList (map (normalizeTransmissionRequestValue method key) l)
  | _ => value
  end.

Definition normalizeTransmissionRequest (method : string) (params : any) : any :=
  normalizeTransmissionRequestValue method "" params.

(** The range loop of [transmissionKeyToSnake]; [first] says that the index
    is 0, and [prev] is the rune written last. *)
Fixpoint snake_runes (first : bool) (prev : Z) (l : list Z) : list Z :=
  match l with
  | [] => []
  | r :: l =>
    if is_upper_rune r then
      (if negb first && negb (bool_decide (prev = underscore)) then [underscore] else [])
      ++ (r + 32)%Z :: snake_runes false (r + 32) l
    else r :: snake_runes false r l
  end.

Definition transmissionKeyToSnake (key : string) : string :=
  if bool_decide (key = "") then key
  else encode_runes (snake_runes true 0 (runes (to_bytes (ReplaceByte "-"%char "_"%char key)))).

(** ** The names round-trip *)

(** A snake-case name: words of lower-case letters and digits that begin with
    a letter, separated by single underscores. *)
Definition is_digit (a : ascii) : bool := ((48 <=? byte a) && (byte a <=? 57))%Z.

Fixpoint words_ok (start : bool) (l : bytes) : bool :=
  match l with
  | [] => negb start
  | a :: l =>
    if bool_decide (a = "_"%char) then negb start && words_ok true l
    else (is_lower a || negb start && is_digit a) && words_ok false l
  end.
Definition snake_name (s : string) : bool := words_ok true (to_bytes s).

Definition ascii_rune (r : Z) : Prop := (0 ≤ r < 128)%Z.

Lemma runes_encode_ascii rs : Forall ascii_rune rs → runes (to_bytes (encode_runes rs)) = rs.
Proof.
  intros H. unfold encode_runes. rewrite to_of_bytes.
  induction H as [|r rs Hr _ IH]; [done|].
  assert (∃ a, r = byte a ∧ (byte a < 128)%Z) as (a & -> & Ha).
  { exists (chr r). unfold ascii_rune in Hr. unfold byte, chr. rewrite N_ascii_embedding by lia. lia. }
  cbn [fmap list_fmap concat]. rewrite encode_rune_ascii by done.
  cbn [app runes]. by rewrite (proj2 (Z.ltb_lt _ _) Ha), IH.
Qed.

Lemma encode_runes_bytes (l : bytes) : Forall (λ a, byte a < 128)%Z l → encode_runes (byte <$> l) = of_bytes l.
Proof.
  intros H. unfold encode_runes. f_equal. induction H as [|a l Ha _ IH]; [done|].
  cbn [fmap list_fmap concat]. rewrite encode_rune_ascii by done. cbn [app]. by rewrite IH.
Qed.

(** The bytes of a snake-case name. *)
Definition name_byte (a : ascii) : bool := is_lower a || is_digit a || bool_decide (a = "_"%char).

Lemma words_ok_bytes start l : words_ok start l = true → Forall (λ a, name_byte a = true) l.
Proof.
  revert start. induction l as [|a l IH]; intros start; simpl; [done|]. unfold name_byte.
  destruct (bool_decide (a = "_"%char)) eqn:E; intros H; constructor.
  - rewrite E. by rewrite orb_true_r.
  - apply andb_true_iff in H as [_ H]. eauto.
  - apply andb_true_iff in H as [H _]. rewrite E, orb_false_r. by destruct (is_lower a), start; simpl in *.
  - apply andb_true_iff in H as [_ H]. eauto.
Qed.

Lemma name_byte_rune a :
  name_byte a = true → ascii_rune (byte a) ∧ (byte a < 128)%Z ∧ is_upper_rune (byte a) = false ∧ a ≠ "-"%char.
Proof. unfold ascii_rune. by destruct a as [[][][][][][][][]]. Qed.

Lemma rune_underscore a : bool_decide (byte a = underscore) = bool_decide (a = "_"%char).
Proof. by destruct a as [[][][][][][][][]]. Qed.

Lemma lower_rune a : is_lower_rune (byte a) = is_lower a.
Proof. reflexivity. Qed.

(** In the middle of a word, and right after an underscore. *)
Lemma snake_camel_words l :
  (words_ok false l = true →
   ∀ prev, prev ≠ underscore → snake_runes false prev (camel_runes false (byte <$> l)) = byte <$> l) ∧
  (words_ok true l = true →
   ∀ prev, prev ≠ underscore → snake_runes false prev (camel_runes true (byte <$> l)) = underscore :: (byte <$> l)).
Proof.
  induction l as [|a l [IHw IHu]]; [done|]. cbn [words_ok fmap list_fmap camel_runes].
  rewrite rune_underscore. destruct (bool_decide (a = "_"%char)) eqn:E; cbn [negb andb].
  - split; [|done]. intros Hw prev Hp. apply bool_decide_eq_true in E as ->. by apply IHu.
  - assert (byte a ≠ underscore) as Hu.
    { intros Hu. rewrite <- rune_underscore in E. by rewrite bool_decide_true in E. }
    split; intros [Ha Hw]%andb_true_iff prev Hp.
    + assert (is_upper_rune (byte a) = false) as Hup.
      { apply name_byte_rune. unfold name_byte. by rewrite Ha. }
      cbn [snake_runes andb]. rewrite Hup. by rewrite IHw.
    + rewrite orb_false_r in Ha. rewrite lower_rune, Ha. cbn [snake_runes andb].
      assert (is_upper_rune (byte a - 32) = true) as ->.
      { revert Ha. clear. by destruct a as [[][][][][][][][]]. }
      rewrite bool_decide_false by done. cbn [negb andb app].
      replace (byte a - 32 + 32)%Z with (byte a) by lia. by rewrite IHw.
Qed.

Lemma camel_runes_ascii up l : Forall ascii_rune l → Forall ascii_rune (camel_runes up l).
Proof.
  intros H. revert up. induction H as [|r l Hr _ IH]; intros up; [constructor|]. cbn [camel_runes].
  case_bool_decide; [apply IH|]. constructor; [|apply IH].
  unfold ascii_rune, is_lower_rune in *. destruct up; cbn [andb]; [|done].
  destruct ((97 <=? r)%Z && (r <=? 122)%Z) eqn:E; [|done]. lia.
Qed.

(** Without upper-case letters and hyphens nothing changes. *)
Lemma snake_runes_id first prev l :
  Forall (λ r, is_upper_rune r = false) l → snake_runes first prev l = l.
Proof.
  intros H. revert first prev. induction H as [|r l Hr _ IH]; intros first prev; [done|].
  cbn [snake_runes]. by rewrite Hr, IH.
Qed.

Lemma ReplaceByte_id old new s : old ∉ to_bytes s → ReplaceByte old new s = s.
Proof.
  intros H. unfold ReplaceByte, map_bytes. rewrite <- (of_to_bytes s) at 2. f_equal.
  induction (to_bytes s) as [|a l IH]; [done|]. apply not_elem_of_cons in H as [H1 H2]. simpl.
  rewrite bool_decide_false by done. by rewrite IH.
Qed.

Lemma ReplaceByte_back old new s : new ∉ to_bytes s → ReplaceByte new old (ReplaceByte old new s) = s.
Proof.
  intros H. unfold ReplaceByte, map_bytes. rewrite to_of_bytes. rewrite <- (of_to_bytes s) at 2. f_equal.
  induction (to_bytes s) as [|a l IH]; [done|]. apply not_elem_of_cons in H as [H1 H2]. simpl.
  rewrite IH by done. f_equal. destruct (bool_decide (a = old)) eqn:E; bool_hyps; [by rewrite bool_decide_true|].
  by rewrite bool_decide_false.
Qed.

Lemma snake_name_no_hyphen s : snake_name s = true → "-"%char ∉ to_bytes s.
Proof.
  intros H%words_ok_bytes Hin. rewrite Forall_forall in H. by apply H, name_byte_rune in Hin as (_ & _ & _ & ?).
Qed.

Lemma snake_name_ascii s : snake_name s = true → Forall (λ a, byte a < 128)%Z (to_bytes s).
Proof. intros H%words_ok_bytes. eapply Forall_impl; [done|]. intros a Ha. by apply name_byte_rune in Ha as (? & ? & ? & ?). Qed.

Lemma toSnake_id s : snake_name s = true → transmissionKeyToSnake s = s.
Proof.
  intros H. unfold transmissionKeyToSnake. case_bool_decide; [done|].
  rewrite ReplaceByte_id by by apply snake_name_no_hyphen.
  rewrite runes_ascii, snake_runes_id, encode_runes_bytes, of_to_bytes; [done| | |]; try by apply snake_name_ascii.
  apply Forall_fmap. eapply Forall_impl; [by apply words_ok_bytes in H|]. intros a Ha. by apply name_byte_rune in Ha as (? & ? & ? & ?).
Qed.

Lemma toSnake_hyphen s : snake_name s = true → transmissionKeyToSnake (snakeToHyphen s) = s.
Proof.
  intros H. destruct s as [|a s]; [done|]. set (t := String a s) in *.
  assert (transmissionKeyToSnake t = t) as Ht by by apply toSnake_id.
  unfold transmissionKeyToSnake, snakeToHyphen in *. rewrite ReplaceByte_back by by apply snake_name_no_hyphen.
  rewrite ReplaceByte_id in Ht by by apply snake_name_no_hyphen.
  by rewrite !bool_decide_false in *.
Qed.

Lemma to_bytes_encode_ascii rs : Forall ascii_rune rs → to_bytes (encode_runes rs) = chr <$> rs.
Proof.
  intros H. unfold encode_runes. rewrite to_of_bytes. induction H as [|r rs Hr _ IH]; [done|].
  cbn [fmap list_fmap concat]. rewrite IH. unfold ascii_rune in Hr. unfold encode_rune.
  rewrite (proj2 (Z.ltb_ge _ _)), (proj2 (Z.ltb_ge _ _)), (proj2 (Z.leb_gt _ _)), (proj2 (Z.ltb_lt _ _)) by lia. done.
Qed.

Lemma camel_no_hyphen up l :
  Forall (λ a, name_byte a = true) l → "-"%char ∉ chr <$> camel_runes up (byte <$> l).
Proof.
  intros H. revert up. induction H as [|a l Ha _ IH]; intros up; [set_solver|].
  cbn [fmap list_fmap camel_runes]. rewrite rune_underscore.
  destruct (bool_decide (a = "_"%char)); [apply IH|]. cbn [fmap list_fmap].
  apply not_elem_of_cons. split; [|apply IH]. rewrite lower_rune.
  revert Ha. clear. by destruct a as [[][][][][][][][]], up.
Qed.

Lemma toSnake_camel s : snake_name s = true → transmissionKeyToSnake (snakeToLowerCamel s) = s.
Proof.
  intros H. unfold snakeToLowerCamel.
  destruct (bool_decide (s = "") || negb (bool_decide ("_"%char ∈ to_bytes s))); [by apply toSnake_id|].
  pose proof (words_ok_bytes _ _ H) as Hb. rewrite runes_ascii by by apply snake_name_ascii.
  assert (Forall ascii_rune (byte <$> to_bytes s)) as Hasc.
  { apply Forall_fmap. eapply Forall_impl; [done|]. intros a Ha. by apply name_byte_rune in Ha as (? & ? & ? & ?). }
  set (rs := camel_runes false (byte <$> to_bytes s)).
  assert (Forall ascii_rune rs) as Hrs by by apply camel_runes_ascii.
  assert (snake_runes true 0 rs = byte <$> to_bytes s) as Hback.
  { unfold rs. unfold snake_name in H. destruct (to_bytes s) as [|a l] eqn:E; [done|].
    cbn [words_ok fmap list_fmap camel_runes] in *. rewrite rune_underscore.
    destruct (bool_decide (a = "_"%char)) eqn:Eu; [by bool_hyps|].
    apply andb_true_iff in H as [Ha Hl]. cbn [negb andb] in Ha. cbn [andb snake_runes].
    assert (name_byte a = true) as (_ & _ & -> & _)%name_byte_rune by (inversion Hb; done).
    f_equal. apply snake_camel_words; [done|]. rewrite <- rune_underscore in Eu. by bool_hyps. }
  unfold transmissionKeyToSnake. case_bool_decide as Hempty.
  { rewrite Hempty. apply (f_equal to_bytes) in Hempty. rewrite to_bytes_encode_ascii in Hempty by done.
    apply (inj to_bytes). destruct rs as [|r rs']; [|done]. cbn in Hback.
    destruct (to_bytes s); done. }
  rewrite ReplaceByte_id, runes_encode_ascii, Hback, encode_runes_bytes, of_to_bytes; try done.
  - by apply snake_name_ascii.
  - rewrite to_bytes_encode_ascii by done. by apply camel_no_hyphen.
Qed.

(** ** [strconv.ParseFloat(s, 64)] for decimal text *)

Fixpoint span_digits (acc : Z) (n : Z) (l : bytes) : Z * Z * bytes :=
  match l with
  | a :: l' =>
    match digit_value a with
    | Some d => span_digits (10 * acc + d) (n + 1) l'
    | None => (acc, n, l)
    end
  | [] => (acc, n, [])
  end.

Definition take_sign (l : bytes) : bool * bytes :=
  match l with
  | a :: l' => if bool_decide (a = "+"%char) then (false, l') else if bool_decide (a = "-"%char) then (true, l') else (false, l)
  | [] => (false, [])
  end.

(** The exponent after the mantissa; [None] when the text is malformed. *)
Definition read_exponent (l : bytes) : option Z :=
  match l with
  | [] => Some 0%Z
  | a :: l =>
    if bool_decide (lower_byte a = "e"%char) then
      let '(neg, l) := take_sign l in
      match span_digits 0 0 l with
      | (v, n, []) => if bool_decide (n = 0%Z) then None else Some (if neg then - v else v)%Z
      | _ => None
      end
    else None
  end.

(** Mantissa [m] and decimal exponent [e] of an unsigned number [m * 10^e]. *)
Definition read_decimal (l : bytes) : option (Z * Z) :=
  let '(m1, n1, l1) := span_digits 0 0 l in
  let '(m2, n2, l2) :=
    match l1 with
    | a :: l' => if bool_decide (a = "."%char) then span_digits m1 0 l' else (m1, 0%Z, l1)
    | [] => (m1, 0%Z, [])
    end in
  if bool_decide (n1 + n2 = 0)%Z then None
  else (λ e, (m2, e - n2)%Z) <$> read_exponent l2.

(** The float nearest to [m * 10^e], [m >= 0]: below 1 the quotient is taken to
    66 bits and its last bit made sticky, so that rounding it is rounding the
    exact value. *)
Definition f64_of_decimal (m e : Z) : float64 :=
  if (0 <=? e)%Z then f64_of_Z (m * 10 ^ e)
  else
    let d := (10 ^ (- e))%Z in
    let s := Z.max 0 (66 + Z.log2 d - Z.log2 m) in
    let n := (m * 2 ^ s)%Z in
    binary_normalize 53 1024 (2 * (n / d) + (if bool_decide (n mod d = 0)%Z then 0 else 1)) (- s - 1) false.

(** The value and whether there is no error.  Out of range the value is an
    infinity.  The hexadecimal form, and underscores between digits, are not
    modelled: such text is refused. *)
Definition parse_float (s : string) : float64 * bool :=
  let '(neg, l) := take_sign (to_bytes s) in
  if bool_decide (map_bytes lower_byte (of_bytes l) ∈ ["inf"; "infinity"]%string) then (S754_infinity neg, true)
  else if bool_decide (map_bytes lower_byte s = "nan") then (S754_nan, true)
  else
    match read_decimal l with
    | None => (f64_zero, false)
    | Some (m, e) =>
      match f64_of_decimal m e with
      | S754_infinity _ => (S754_infinity neg, false)
      | f => (if neg then SFopp f else f, true)
      end
    end.

Example parse_float_ex :
  (parse_float "0.1").1 = f64_div (f64_of_Z 1) (f64_of_Z 10) ∧ (parse_float "-2.50e1").1 = f64_of_Z (-25) ∧
  (parse_float "1e400").2 = false ∧ parse_float "1e" = (f64_zero, false) ∧ (parse_float "5e-324").1 = S754_finite false 1 (-1074).
Proof. vm_compute. done. Qed.

(** ** Payloads *)

Definition transmissionBoolFields : list string :=
  ["alt_speed_enabled"; "blocklist_enabled"; "dht_enabled"; "download_limited"; "download_queue_enabled";
   "has_announced"; "has_scraped"; "honors_session_limits"; "idle_seeding_limit_enabled"; "incomplete_dir_enabled";
   "is_backup"; "is_downloading_from"; "is_encrypted"; "is_finished"; "is_incoming"; "is_private"; "is_stalled";
   "is_uploading_to"; "is_utp"; "last_announce_succeeded"; "last_announce_timed_out"; "last_scrape_succeeded";
   "last_scrape_timed_out"; "lpd_enabled"; "pex_enabled"; "port_forwarding_enabled"; "queue_stalled_enabled";
   "rename_partial_files"; "script_torrent_added_enabled"; "seed_queue_enabled"; "seed_ratio_limited";
   "sequential_download"; "speed_limit_down_enabled"; "speed_limit_up_enabled"; "start_added_torrents";
   "trash_original_torrent_files"; "upload_limited"; "utp_enabled"; "wanted"]%string.

(** The test [math.Trunc(f) == f && f >= math.MinInt64 && f <= math.MaxInt64]:
    the constant [math.MaxInt64] becomes the float [2^63]. *)
Definition f64_integral (f : float64) : bool :=
  match f64_trunc f with
  | Some z => f64_eqb (f64_of_Z z) f && f64_leb (f64_of_Z min_i64) f && f64_leb f (f64_of_Z max_i64)
  | None => false
  end.

(** The [int64] a number stands for, read as an integer first and as a float
    without a fraction second. *)
Definition integral_number (s : string) : option Z :=
  match ParseInt s with
  | (i, true) => Some i
  | (_, false) =>
    match parse_float s with
    | (f, true) => if f64_integral f then Some (f64_to_i64 f) else None
    | (_, false) => None
    end
  end.

Definition normalizeTransmissionBoolNumber (key s : string) : option bool :=
  if bool_decide (key ∈ transmissionBoolFields) then
    match integral_number s with
    | Some i => if bool_decide (i = 0%Z) then Some false else if bool_decide (i = 1%Z) then Some true else None
    | None => None
    end
  else None.

Definition normalizeTransmissionNumber (s : string) : any :=
  match integral_number s with Some i => VInt i | None => VNumber s end.

Fixpoint normalizeTransmissionValue (key : string) (value : any) : any :=
  match value with
  | VMap m =>
    VMap (fold_left (λ acc kv,
      assoc_set (transmissionKeyToSnake kv.1) (normalizeTransmissionValue (transmissionKeyToSnake kv.1) kv.2) acc) m [])
  | VList l => VList (map (normalizeTransmissionValue key) l)
  | VNumber s =>
    match normalizeTransmissionBoolNumber key s with
    | Some b => VBool b
    | None => normalizeTransmissionNumber s
    end
  | _ => value
  end.

Definition normalizeTransmissionKeys (value : any) : any := normalizeTransmissionValue "" value.

(** [unmarshalTransmissionPayload] decodes with [UseNumber], normalises, and
    unmarshals the result into the caller's struct by its field tags: an
    object's field as the caller finds it. *)
Definition field (v : any) (name : string) : option any :=
  match v with VMap m => assoc name m | _ => None end.

(** ** Coercions *)

Definition ParseBool (s : string) : bool :=
  bool_decide (s ∈ ["1"; "t"; "T"; "true"; "TRUE"; "True"]%string).

Definition truthy (v : any) : bool :=
  match v with
  | VBool b => b
  | VStr s => ParseBool s
  | VInt z => negb (bool_decide (z = 0%Z))
  | VFloat f => negb (f64_eqb f f64_zero)
  | _ => false
  end.

Definition int64Value (v : any) : Z :=
  match v with
  | VInt z => z
  | VFloat f => f64_to_i64 f
  | VNumber s | VStr s => (ParseInt s).1
  | _ => 0%Z
  end.

Definition intValue (v : any) : Z := int64Value v.

Definition floatValue (v : any) : float64 :=
  match v with
  | VFloat f => f
  | VInt z => f64_of_Z z
  | VNumber s | VStr s => (parse_float s).1
  | _ => f64_zero
  end.

Definition boolToInt (v : bool) : Z := if v then 1%Z else 0%Z.

Definition kbToBytes (v : Z) (enabled : bool) : Z :=
  if negb enabled || (v <=? 0)%Z then 0%Z else i64 (v * 1000).

Definition bytesToKB (v : Z) : Z := if (v <=? 0)%Z then 0%Z else (v / 1000)%Z.

Definition is_csv_separator (a : ascii) : bool := bool_decide (a = ","%char) || bool_decide (a = "|"%char).

Definition splitCSV (value : string) : list string :=
  if bool_decide (TrimSpace value = "") then []
  else filter (λ part, part ≠ "") (TrimSpace <$> FieldsFunc value is_csv_separator).

(** [parseFileIDs]: [None] on an error of [strconv.Atoi]. *)
Definition parseFileIDs (raw : string) : option (list Z) :=
  foldr (λ part acc,
    if bool_decide (TrimSpace part = "") then acc
    else match ParseInt (TrimSpace part), acc with
         | (id, true), Some ids => Some (id :: ids)
         | _, _ => None
         end)
    (Some []) (FieldsFunc raw (λ a, is_csv_separator a || bool_decide (a = " "%char))).

Definition removeDuplicateStrings (input : list string) : list string :=
  (foldl (λ '(seen, result) item,
     if bool_decide (item ∈ seen) then (seen, result) else ({[item]} ∪ seen, result ++ [item]))
     (∅ : gset string, []) input).2.

(** ** Objects after normalisation *)

(** A loop that rewrites the entries of a map. *)
Definition rekey {A B} (fk : string → string) (fv : string → A → B) (m : list (string * A)) acc : list (string * B) :=
  fold_left (λ acc kv, assoc_set (fk kv.1) (fv kv.1 kv.2) acc) m acc.

Lemma rekey_keys {A B} fk (fv : string → A → B) m acc x :
  x ∈ (rekey fk fv m acc).*1 ↔ x ∈ acc.*1 ∨ x ∈ fk <$> m.*1.
Proof.
  unfold rekey. revert acc. induction m as [|[k v] m IH]; intros acc; simpl; [set_solver|].
  rewrite IH, assoc_set_keys. set_solver.
Qed.

Lemma rekey_NoDup {A B} fk (fv : string → A → B) m acc : NoDup acc.*1 → NoDup (rekey fk fv m acc).*1.
Proof.
  unfold rekey. revert acc. induction m as [|[k v] m IH]; intros acc H; simpl; [done|].
  by apply IH, NoDup_assoc_set.
Qed.

Lemma rekey_other {A B} fk (fv : string → A → B) m acc x :
  x ∉ fk <$> m.*1 → assoc x (rekey fk fv m acc) = assoc x acc.
Proof.
  unfold rekey. revert acc. induction m as [|[k v] m IH]; intros acc H; simpl; [done|].
  rewrite IH by set_solver. apply assoc_set_ne. set_solver.
Qed.

Lemma rekey_assoc {A B} fk (fv : string → A → B) m acc k v :
  NoDup (fk <$> m.*1) → (k, v) ∈ m → assoc (fk k) (rekey fk fv m acc) = Some (fv k v).
Proof.
  revert acc. induction m as [|[k' v'] m IH]; intros acc Hnd Hin; [by apply elem_of_nil in Hin|].
  cbn [fmap list_fmap fst] in Hnd. apply NoDup_cons in Hnd as [Hk Hnd].
  apply elem_of_cons in Hin as [[= -> ->]|Hin].
  - unfold rekey. cbn [fold_left fst snd]. fold (rekey fk fv m (assoc_set (fk k') (fv k' v') acc)).
    rewrite rekey_other by done. apply assoc_set_eq.
  - apply (IH (assoc_set (fk k') (fv k' v') acc)); done.
Qed.

Lemma rekey_Forall {A B} fk (fv : string → A → B) (P : string * B → Prop) m acc :
  Forall (λ kv, P (fk kv.1, fv kv.1 kv.2)) m → Forall P acc → Forall P (rekey fk fv m acc).
Proof.
  unfold rekey. intros H. revert acc. induction H as [|kv m Hkv _ IH]; intros acc Hacc; simpl; [done|].
  apply IH, assoc_set_Forall; done.
Qed.

Lemma normalize_map key m :
  normalizeTransmissionValue key (VMap m) =
  VMap (rekey transmissionKeyToSnake (λ k v, normalizeTransmissionValue (transmissionKeyToSnake k) v) m []).
Proof. done. Qed.

(** Every converter is undone. *)
Ltac names_back :=
  repeat case_bool_decide; subst;
  first [by apply toSnake_id|by apply toSnake_hyphen|by apply toSnake_camel|reflexivity].

Lemma request_field_back method f : snake_name f = true → transmissionKeyToSnake (request_field method f) = f.
Proof. intros H. unfold request_field, torrentGetField, sessionRequestKey. names_back. Qed.

Lemma request_key_back method key :
  snake_name key = true → transmissionKeyToSnake (transmissionRequestKey method key) = key.
Proof.
  intros H. unfold transmissionRequestKey, sessionRequestKey, torrentAddRequestKey, torrentSetRequestKey, groupSetRequestKey.
  names_back.
Qed.

(** The fields that the client asks for. *)
Definition torrentFields : list string :=
  ["activity_date"; "added_date"; "availability"; "bandwidth_priority"; "bytes_completed";
   "comment"; "corrupt_ever"; "creator"; "date_created"; "desired_available"; "done_date";
   "download_dir"; "downloaded_ever"; "download_limit"; "download_limited"; "error";
   "error_string"; "eta"; "file_count"; "files"; "file_stats"; "group"; "hash_string";
   "have_unchecked"; "have_valid"; "honors_session_limits"; "id"; "is_finished";
   "is_private"; "is_stalled"; "labels"; "left_until_done"; "magnet_link";
   "max_connected_peers"; "metadata_percent_complete"; "name"; "peer_limit";
   "peers_connected"; "peers_getting_from_us"; "peers_sending_to_us"; "percent_complete";
   "percent_done"; "piece_count"; "piece_size"; "priorities"; "queue_position";
   "rate_download"; "rate_upload"; "recheck_progress"; "seconds_downloading";
   "seconds_seeding"; "seed_idle_limit"; "seed_idle_mode"; "seed_ratio_limit";
   "seed_ratio_mode"; "sequential_download"; "size_when_done"; "start_date"; "status";
   "torrent_file"; "total_size"; "trackers"; "tracker_list"; "tracker_stats";
   "uploaded_ever"; "upload_limit"; "upload_limited"; "upload_ratio"; "wanted";
   "webseeds"; "webseeds_ex"; "webseeds_sending_to_us"]%string.

Definition session_fields : list string :=
  ["version"; "rpc_version"; "rpc_version_semver"; "download_dir";
   "download_queue_enabled"; "download_queue_size"; "seed_queue_enabled";
   "seed_queue_size"; "queue_stalled_enabled"; "queue_stalled_minutes";
   "speed_limit_down"; "speed_limit_down_enabled"; "speed_limit_up";
   "speed_limit_up_enabled"; "alt_speed_down"; "alt_speed_up";
   "alt_speed_enabled"; "peer_port"; "peer_limit_global";
   "peer_limit_per_torrent"; "pex_enabled"; "dht_enabled"; "lpd_enabled";
   "utp_enabled"; "port_forwarding_enabled"; "rename_partial_files";
   "start_added_torrents"; "trash_original_torrent_files"; "seed_ratio_limit";
   "seed_ratio_limited"; "idle_seeding_limit"; "idle_seeding_limit_enabled";
   "incomplete_dir"; "incomplete_dir_enabled"; "script_torrent_added_enabled";
   "script_torrent_added_filename"; "blocklist_enabled"; "blocklist_url"]%string.

Lemma fmap_request_back method fields :
  Forall (λ f, snake_name f = true) fields →
  transmissionKeyToSnake <$> transmissionRequestFields method fields = fields.
Proof.
  unfold transmissionRequestFields. induction 1 as [|f fields Hf _ IH]; [done|].
  cbn [fmap list_fmap]. by rewrite request_field_back, IH.
Qed.

(** C21.  The names of the fields survive the trip: when a
    daemon answers a [session_get] or [torrent_get] with one value for each
    field asked for, under the names that were sent and in any order, the
    normalised payload has exactly the fields asked for under their snake-case
    names, each with its normalised value. *)
Theorem answered_fields_found (method : string) (fields : list string) (answers : list (string * any)) :
  NoDup fields → Forall (λ f, snake_name f = true) fields →
  answers.*1 ≡ₚ transmissionRequestFields method fields →
  ∃ m, normalizeTransmissionKeys (VMap answers) = VMap m ∧ m.*1 ≡ₚ fields ∧
    ∀ f v, f ∈ fields → (request_field method f, v) ∈ answers →
      field (normalizeTransmissionKeys (VMap answers)) f = Some (normalizeTransmissionValue f v).
Proof.
  intros Hnd Hsn Hperm. unfold normalizeTransmissionKeys. rewrite normalize_map. eexists. split; [done|].
  assert (transmissionKeyToSnake <$> answers.*1 ≡ₚ fields) as Hkeys.
  { rewrite Hperm. by rewrite fmap_request_back. }
  split.
  - apply NoDup_Permutation; [by apply rekey_NoDup; constructor|done|].
    intros x. rewrite rekey_keys, Hkeys. set_solver.
  - intros f v Hf Hin. cbn [field]. rewrite Forall_forall in Hsn.
    rewrite <- (request_field_back method f) at 1 by by apply Hsn.
    rewrite (rekey_assoc _ _ _ _ _ v); [by rewrite request_field_back by by apply Hsn|by rewrite Hkeys|done].
Qed.

Definition sample_answers : list (string * any) :=
  [("percentDone", VNumber "1.0"); ("file-count", VNumber "2"); ("isPrivate", VNumber "1")]%string.

Lemma answered_fields_found_witness :
  (NoDup torrentFields ∧ Forall (λ f, snake_name f = true) torrentFields ∧
   NoDup session_fields ∧ Forall (λ f, snake_name f = true) session_fields) ∧
  ∃ m, normalizeTransmissionKeys (VMap sample_answers) = VMap m ∧ m.*1 ≡ₚ ["is_private"; "file_count"; "percent_done"]%string ∧
    ∀ f v, f ∈ ["is_private"; "file_count"; "percent_done"]%string → (request_field "torrent_get" f, v) ∈ sample_answers →
      field (normalizeTransmissionKeys (VMap sample_answers)) f = Some (normalizeTransmissionValue f v).
Proof.
  split; [split_and!; apply (bool_decide_eq_true_1 _); by vm_compute|].
  apply (answered_fields_found "torrent_get"); apply (bool_decide_eq_true_1 _); by vm_compute.
Defined.

Example sample_payload :
  normalizeTransmissionKeys (VMap sample_answers) =
  VMap [("percent_done", VInt 1); ("file_count", VInt 2); ("is_private", VBool true)]%string.
Proof. vm_compute. done. Qed.

(** Transmission sends the flag of a peer as [isUTP], which is normalised to a
    name that no struct has. *)
Example is_utp_lost : transmissionKeyToSnake "isUTP" = "is_u_t_p"%string ∧ torrentGetField "is_utp" = "isUtp"%string.
Proof. vm_compute. done. Qed.

(** The integer just out of range wraps around. *)
Example number_wraps : normalizeTransmissionNumber "9223372036854775808" = VInt min_i64.
Proof. vm_compute. done. Qed.

(** ** The shape of a normalised payload *)

(** What [encoding/json] decodes into an [interface{}]. *)
Inductive json : any → Prop :=
| json_nil : json VNil
| json_bool b : json (VBool b)
| json_number s : json (VNumber s)
| json_string s : json (VStr s)
| json_list l : Forall json l → json (VList l)
| json_map m : Forall (λ kv, json kv.2) m → json (VMap m).

Definition snake_byte (a : ascii) : Prop := is_upper a = false ∧ a ≠ "-"%char.

(** A value at a field: the names of objects are in snake case and distinct; a
    number is an [int64], or has a fraction or is out of range; a boolean
    field is not 0 or 1. *)
Inductive canonical : string → any → Prop :=
| canonical_nil key : canonical key VNil
| canonical_bool key b : canonical key (VBool b)
| canonical_string key s : canonical key (VStr s)
| canonical_int key z :
  in_i64 z → (key ∈ transmissionBoolFields → z ≠ 0 ∧ z ≠ 1)%Z → canonical key (VInt z)
| canonical_number key s : integral_number s = None → canonical key (VNumber s)
| canonical_list key l : Forall (canonical key) l → canonical key (VList l)
| canonical_map key m :
  NoDup m.*1 → Forall (λ kv, Forall snake_byte (to_bytes kv.1) ∧ canonical kv.1 kv.2) m → canonical key (VMap m).

Lemma runes_small n l r :
  length l ≤ n → r ∈ runes l → (0 ≤ r)%Z ∧ (r < 128 → ∃ a, a ∈ l ∧ byte a = r)%Z.
Proof.
  revert l. induction n as [|n IH]; intros [|a l1] Hn Hr; simpl in Hn; try lia; [by apply elem_of_nil in Hr..|].
  assert (∀ l', length l' ≤ length l1 → (∀ x, x ∈ l' → x ∈ l1) → r ∈ runes l' →
    (0 ≤ r)%Z ∧ (r < 128 → ∃ b, b ∈ a :: l1 ∧ byte b = r)%Z) as Hrec.
  { intros l' Hl Hsub H. destruct (IH l' ltac:(lia) H) as [H0 H1]. split; [done|].
    intros Hlt. destruct (H1 Hlt) as (b & Hb & <-). exists b. split; [right; auto|done]. }
  pose proof (byte_range a) as Ha. cbn [runes] in Hr.
  destruct (Z.ltb_spec (byte a) 128); [apply elem_of_cons in Hr as [->|Hr]; [split; [lia|exists a; split; [left|done]]|by apply (Hrec l1)]|].
  assert (∀ z, (128 ≤ z)%Z → r = z → (0 ≤ r)%Z ∧ (r < 128 → ∃ b, b ∈ a :: l1 ∧ byte b = r)%Z) as Hbig by (intros; split; lia).
  assert (r = rune_error → (0 ≤ r)%Z ∧ (r < 128 → ∃ b, b ∈ a :: l1 ∧ byte b = r)%Z) as Herr.
  { apply Hbig. unfold rune_error. lia. }
  unfold is_cont in Hr. destruct l1 as [|b l2]; [apply list_elem_of_singleton in Hr; auto|].
  case_match eqn:E2.
  { apply elem_of_cons in Hr as [Hr|Hr]; [|apply (Hrec l2); [simpl; lia|by right|done]].
    eapply Hbig, Hr. lia. }
  destruct l2 as [|c l3]; [apply elem_of_cons in Hr as [Hr|Hr]; [auto|by apply (Hrec [b])]|].
  case_match eqn:E3.
  { apply elem_of_cons in Hr as [Hr|Hr]; [|apply (Hrec l3); [simpl; lia|by do 2 right|done]].
    eapply Hbig, Hr. lia. }
  destruct l3 as [|d l4]; [apply elem_of_cons in Hr as [Hr|Hr]; [auto|by apply (Hrec [b; c])]|].
  case_match eqn:E4.
  { apply elem_of_cons in Hr as [Hr|Hr]; [|apply (Hrec l4); [simpl; lia|by do 3 right|done]].
    eapply Hbig, Hr. lia. }
  apply elem_of_cons in Hr as [Hr|Hr]; [auto|]. by apply (Hrec (b :: c :: d :: l4)).
Qed.

Lemma snake_runes_spec first prev l r :
  r ∈ snake_runes first prev l → is_upper_rune r = false ∧ (r = underscore ∨ r ∈ l ∨ 97 ≤ r ≤ 122)%Z.
Proof.
  revert first prev. induction l as [|x l IH]; intros first prev; cbn [snake_runes]; [set_solver|].
  assert (∀ fi p, r ∈ snake_runes fi p l →
    is_upper_rune r = false ∧ (r = underscore ∨ r ∈ x :: l ∨ 97 ≤ r ≤ 122)%Z) as Hrec.
  { intros fi p H. destruct (IH _ _ H) as [? [?|[?|?]]]; split; auto. right; left; by right. }
  destruct (is_upper_rune x) eqn:E.
  - rewrite elem_of_app, elem_of_cons. intros [H|[->|H]]; [|unfold is_upper_rune in *; lia|eauto].
    destruct (_ && _) in H; [|by apply elem_of_nil in H]. apply list_elem_of_singleton in H as ->. by split; [|left].
  - rewrite elem_of_cons. intros [->|H]; [split; [done|right; left; left]|eauto].
Qed.

Lemma byte_chr z : (0 ≤ z < 256)%Z → byte (chr z) = z.
Proof. intros. unfold byte, chr. rewrite N_ascii_embedding by lia. lia. Qed.

Lemma high_snake_byte a : (128 ≤ byte a)%Z → snake_byte a.
Proof.
  intros H. split; [unfold is_upper; lia|]. intros ->. by cbv in H.
Qed.

(** The byte after the escape of a part of a rune is not ASCII. *)
Lemma encode_rune_bytes r :
  (0 ≤ r)%Z → is_upper_rune r = false → r ≠ 45%Z → Forall snake_byte (encode_rune r).
Proof.
  intros H0 Hup Hhy. unfold encode_rune, is_upper_rune in *.
  assert (∀ z, (128 ≤ z < 256)%Z → snake_byte (chr z)) as Hhigh.
  { intros z Hz. apply high_snake_byte. rewrite byte_chr; lia. }
  assert (∀ z, 0 ≤ z mod 64 < 64)%Z as Hmod by (intros; apply Z.mod_pos_bound; lia).
  destruct (_ || _ || _) eqn:E1; [repeat (apply List.Forall_cons; [apply Hhigh; lia|]); apply List.Forall_nil|].
  destruct (Z.ltb_spec r 128).
  { constructor; [|constructor]. split; [unfold is_upper; rewrite byte_chr by lia; lia|].
    intros E. apply (f_equal byte) in E. rewrite byte_chr in E by lia. cbv in E. lia. }
  destruct (Z.ltb_spec r 2048).
  { pose proof (Hmod r). pose proof (Z.div_lt_upper_bound r 64 32 ltac:(lia) ltac:(lia)). pose proof (Z.div_pos r 64 ltac:(lia) ltac:(lia)).
    repeat (apply List.Forall_cons; [apply Hhigh; lia|]); apply List.Forall_nil. }
  destruct (Z.ltb_spec r 65536).
  { pose proof (Hmod r). pose proof (Hmod (r / 64)%Z).
    pose proof (Z.div_lt_upper_bound r 4096 16 ltac:(lia) ltac:(lia)). pose proof (Z.div_pos r 4096 ltac:(lia) ltac:(lia)).
    repeat (apply List.Forall_cons; [apply Hhigh; lia|]); apply List.Forall_nil. }
  pose proof (Hmod r). pose proof (Hmod (r / 64)%Z). pose proof (Hmod (r / 4096)%Z).
  pose proof (Z.div_lt_upper_bound r 262144 5 ltac:(lia) ltac:(lia)). pose proof (Z.div_pos r 262144 ltac:(lia) ltac:(lia)).
  repeat (apply List.Forall_cons; [apply Hhigh; lia|]); apply List.Forall_nil.
Qed.

Lemma toSnake_bytes key : Forall snake_byte (to_bytes (transmissionKeyToSnake key)).
Proof.
  unfold transmissionKeyToSnake. case_bool_decide as E; [subst; constructor|].
  unfold encode_runes. rewrite to_of_bytes.
  apply Forall_concat, Forall_fmap, Forall_forall. intros r Hr. cbn.
  apply snake_runes_spec in Hr as [Hup Hr].
  destruct Hr as [->|[Hr|Hr]]; [by apply encode_rune_bytes| |apply encode_rune_bytes; [lia|done|lia]].
  destruct (runes_small _ _ _ (le_n _) Hr) as [H0 H1].
  apply encode_rune_bytes; [done..|]. intros ->. destruct (H1 ltac:(lia)) as (a & Ha & Hb).
  unfold ReplaceByte, map_bytes in Ha. rewrite to_of_bytes in Ha.
  apply list_elem_of_fmap in Ha as (b & Ha & _).
  case_bool_decide as Eb; subst a; [by cbv in Hb|]. apply Eb.
  rewrite <- (chr_byte b), Hb. reflexivity.
Qed.

Lemma f64_integral_range f : in_i64 (f64_to_i64 f).
Proof.
  unfold f64_to_i64, in_i64. destruct (f64_trunc f) as [z|]; [|done].
  destruct ((min_i64 <=? z)%Z && (z <=? max_i64)%Z) eqn:E; [|done].
  apply andb_true_iff in E as [E1 E2]. lia.
Qed.

Lemma integral_number_range s i : integral_number s = Some i → in_i64 i.
Proof.
  unfold integral_number. pose proof (ParseInt_range s) as H. destruct (ParseInt s) as [z []]; [by intros [= <-]|].
  destruct (parse_float s) as [f []]; [|done]. destruct (f64_integral f); [|done].
  intros [= <-]. apply f64_integral_range.
Qed.

(** C22.  Whatever JSON value the daemon answers with, in the
    classic or in the newer naming, after normalisation all names of objects
    are in snake case and distinct, every number that is an [int64] is one,
    and no boolean field is left as the number 0 or 1. *)
Theorem payload_canonical (value : any) : json value → canonical "" (normalizeTransmissionKeys value).
Proof.
  unfold normalizeTransmissionKeys. generalize ""%string.
  induction value as [| | | |s|s|l|l|l IH|m IH] using any_nested_ind; intros key Hj; inversion Hj; subst; cbn [normalizeTransmissionValue].
  - constructor.
  - constructor.
  - unfold normalizeTransmissionBoolNumber, normalizeTransmissionNumber.
    destruct (integral_number s) as [i|] eqn:E; [|by case_bool_decide; constructor].
    pose proof (integral_number_range _ _ E).
    case_bool_decide; [|by constructor].
    case_bool_decide; [constructor|]. case_bool_decide; constructor; auto.
  - constructor.
  - constructor. apply List.Forall_map. rewrite Forall_forall in *. naive_solver.
  - change (fold_left _ m []) with
      (rekey transmissionKeyToSnake (λ k v, normalizeTransmissionValue (transmissionKeyToSnake k) v) m []).
    constructor; [by apply rekey_NoDup; constructor|].
    apply rekey_Forall; [|constructor]. rewrite Forall_forall in *.
    intros kv Hkv. split; [apply toSnake_bytes|]. by apply IH, H0.
Qed.

Lemma payload_canonical_witness :
  json (VMap sample_answers) ∧ canonical "" (normalizeTransmissionKeys (VMap sample_answers)).
Proof.
  assert (json (VMap sample_answers)) as H by (repeat constructor).
  split; [exact H|exact (payload_canonical _ H)].
Defined.

(** ** Lists and limits *)

Lemma removeDuplicateStrings_aux input seen result :
  (∀ x, x ∈ seen ↔ x ∈ result) → NoDup result →
  let r := (foldl (λ '(seen, result) item,
     if bool_decide (item ∈ seen) then (seen, result) else ({[item]} ∪ seen, result ++ [item]))
     (seen : gset string, result) input).2 in
  NoDup r ∧ ∀ x, x ∈ r ↔ x ∈ result ∨ x ∈ input.
Proof.
  revert seen result. induction input as [|y input IH]; intros seen result Hs Hnd; [set_solver|]. cbn [foldl].
  case_bool_decide as E.
  - specialize (IH seen result Hs Hnd) as [? Hx]. split; [done|]. intros x. rewrite Hx, elem_of_cons.
    apply Hs in E. split; [intros [?|?]; auto|intros [?|[->|?]]; auto].
  - specialize (IH ({[y]} ∪ seen) (result ++ [y])) as [? Hx].
    + set_solver.
    + apply NoDup_app. rewrite Hs in E. split_and!; [done| |apply NoDup_singleton].
      intros x Hx ->%list_elem_of_singleton. done.
    + split; [done|]. intros x. rewrite Hx. set_solver.
Qed.

Lemma NoDup_removeDuplicateStrings l : NoDup (removeDuplicateStrings l).
Proof. apply (removeDuplicateStrings_aux l ∅ []); [set_solver|constructor]. Qed.

Lemma elem_of_removeDuplicateStrings x l : x ∈ removeDuplicateStrings l ↔ x ∈ l.
Proof.
  destruct (removeDuplicateStrings_aux l ∅ []) as [_ H]; [set_solver|constructor|].
  unfold removeDuplicateStrings. rewrite H. set_solver.
Qed.

(** A limit in bytes, as it is read back from a daemon that keeps the pair
    [speed_limit_down], [speed_limit_down_enabled] it was sent. *)
Lemma limit_read_back limit :
  in_i64 limit → kbToBytes (bytesToKB limit) (bool_decide (0 < limit)%Z) = (if (limit <=? 0)%Z then 0 else limit - limit mod 1000)%Z.
Proof.
  intros Hr. unfold kbToBytes, bytesToKB. destruct (Z.leb_spec limit 0) as [H|H].
  { rewrite bool_decide_false by lia. done. }
  rewrite bool_decide_true by lia. cbn [negb orb].
  pose proof (Z.div_mod limit 1000 ltac:(lia)). pose proof (Z.mod_pos_bound limit 1000 ltac:(lia)).
  destruct (Z.leb_spec (limit / 1000) 0) as [H'|H']; [|rewrite i64_id; unfold in_i64, max_i64, min_i64 in *; lia].
  assert (limit / 1000 = 0)%Z by (pose proof (Z.div_pos limit 1000 ltac:(lia) ltac:(lia)); lia). lia.
Qed.
