(* ===== verification/TorrentFilter.v ===== *)
(** * [internal/transmissionqbt/filter.go], [filter_generated.go]: filters and sorting

    The filter options of a listing: which torrents match, the comparator of a
    sort field, the sort over indices whose permutation is applied in place
    cycle by cycle, and the window of offset and limit. *)

From Stdlib Require Import ZArith Lia Ascii SpecFloat.
From stdpp Require Import base numbers list strings gmap sorting.
From S2P Require Import Prelude.
From S2P Require Import Order.
From S2P Require Import GoStrings.
From S2P Require Import GoFloat.
From S2P Require Import Domain.
From S2P Require Import TransmissionRpc.

Open Scope qui_scope.

(** ** Filters *)

Definition TorrentFilter : Type := string.

Definition TorrentFilterAll : TorrentFilter := "all".
Definition TorrentFilterActive : TorrentFilter := "active".
Definition TorrentFilterInactive : TorrentFilter := "inactive".
Definition TorrentFilterCompleted : TorrentFilter := "completed".
Definition TorrentFilterResumed : TorrentFilter := "resumed".
Definition TorrentFilterPaused : TorrentFilter := "paused".
Definition TorrentFilterStopped : TorrentFilter := "stopped".
Definition TorrentFilterRunning : TorrentFilter := "running".
Definition TorrentFilterStalled : TorrentFilter := "stalled".
Definition TorrentFilterUploading : TorrentFilter := "uploading".
Definition TorrentFilterStalledUploading : TorrentFilter := "stalled_uploading".
Definition TorrentFilterDownloading : TorrentFilter := "downloading".
Definition TorrentFilterStalledDownloading : TorrentFilter := "stalled_downloading".
Definition TorrentFilterError : TorrentFilter := "errored".
Definition TorrentFilterChecking : TorrentFilter := "checking".
Definition TorrentFilterMoving : TorrentFilter := "moving".

Record TorrentFilterOptions := MkFilter {
  fo_Filter : TorrentFilter; fo_Category : string; fo_Tag : string; fo_Sort : string; fo_Reverse : bool;
  fo_Limit : Z; fo_Offset : Z; fo_Hashes : list string; fo_IncludeTrackers : bool }.

Definition no_filter : TorrentFilterOptions := MkFilter "" "" "" "" false 0 0 [] false.

Definition stateFilterMatches : list (TorrentState * list TorrentFilter) :=
  [(TorrentStateError, [TorrentFilterAll; TorrentFilterError; TorrentFilterInactive]);
   (TorrentStateMissingFiles, [TorrentFilterAll; TorrentFilterInactive]);
   (TorrentStateUploading, [TorrentFilterAll; TorrentFilterActive; TorrentFilterUploading; TorrentFilterCompleted; TorrentFilterResumed]);
   (TorrentStatePausedUp, [TorrentFilterAll; TorrentFilterPaused; TorrentFilterStopped; TorrentFilterCompleted; TorrentFilterInactive]);
   (TorrentStateStoppedUp, [TorrentFilterAll; TorrentFilterPaused; TorrentFilterStopped; TorrentFilterCompleted; TorrentFilterInactive]);
   (TorrentStateQueuedUp, [TorrentFilterAll; TorrentFilterCompleted; TorrentFilterInactive]);
   (TorrentStateStalledUp, [TorrentFilterAll; TorrentFilterStalled; TorrentFilterStalledUploading; TorrentFilterCompleted; TorrentFilterInactive]);
   (TorrentStateCheckingUp, [TorrentFilterAll; TorrentFilterActive; TorrentFilterCompleted; TorrentFilterResumed]);
   (TorrentStateForcedUp, [TorrentFilterAll; TorrentFilterActive; TorrentFilterUploading; TorrentFilterCompleted; TorrentFilterResumed]);
   (TorrentStateAllocating, [TorrentFilterAll; TorrentFilterActive; TorrentFilterDownloading; TorrentFilterResumed]);
   (TorrentStateDownloading, [TorrentFilterAll; TorrentFilterActive; TorrentFilterDownloading; TorrentFilterResumed]);
   (TorrentStateMetaDl, [TorrentFilterAll; TorrentFilterActive; TorrentFilterDownloading; TorrentFilterResumed]);
   (TorrentStatePausedDl, [TorrentFilterAll; TorrentFilterPaused; TorrentFilterStopped; TorrentFilterInactive]);
   (TorrentStateStoppedDl, [TorrentFilterAll; TorrentFilterPaused; TorrentFilterStopped; TorrentFilterInactive]);
   (TorrentStateQueuedDl, [TorrentFilterAll; TorrentFilterInactive]);
   (TorrentStateStalledDl, [TorrentFilterAll; TorrentFilterStalled; TorrentFilterStalledDownloading; TorrentFilterInactive]);
   (TorrentStateCheckingDl, [TorrentFilterAll; TorrentFilterActive; TorrentFilterDownloading; TorrentFilterResumed]);
   (TorrentStateForcedDl, [TorrentFilterAll; TorrentFilterActive; TorrentFilterDownloading; TorrentFilterResumed]);
   (TorrentStateCheckingResumeData, [TorrentFilterAll]);
   (TorrentStateMoving, [TorrentFilterAll]);
   (TorrentStateUnknown, [TorrentFilterAll])].

Definition matchesStateFilter (state : TorrentState) (f : TorrentFilter) : bool :=
  if bool_decide (f = TorrentFilterRunning) then
    negb (bool_decide (state = TorrentStateStoppedUp)) && negb (bool_decide (state = TorrentStateStoppedDl))
  else if bool_decide (f = TorrentFilterResumed) then
    negb (bool_decide (state = TorrentStatePausedUp)) && negb (bool_decide (state = TorrentStatePausedDl))
    && negb (bool_decide (state = TorrentStateStoppedUp)) && negb (bool_decide (state = TorrentStateStoppedDl))
  else
    match assoc state stateFilterMatches with
    | Some filters => bool_decide (f ∈ filters)
    | None => bool_decide (f = TorrentFilterAll)
    end.

Definition containsExactTag (tags target : string) : bool :=
  if bool_decide (tags = "") || bool_decide (target = "") then false
  else if bool_decide (TrimSpace target = "") then false
  else existsb (λ tag, bool_decide (TrimSpace tag = TrimSpace target)) (Split tags ","%char).

Definition matchesTorrentFilter (torrent : Torrent) (options : TorrentFilterOptions) : bool :=
  (bool_decide (fo_Hashes options = []) || bool_decide (t_Hash torrent ∈ fo_Hashes options))
  && (bool_decide (fo_Category options = "") || bool_decide (t_Category torrent = fo_Category options))
  && (bool_decide (fo_Tag options = "") || containsExactTag (t_Tags torrent) (fo_Tag options))
  && (bool_decide (fo_Filter options = "") || matchesStateFilter (t_State torrent) (fo_Filter options)).

(** ** Comparators *)

(** What a comparator returns, as a sign; [compareX] is generated for each field
    from one of four templates. *)
Definition cmp_int (f : Torrent → Z) (a b : Torrent) : comparison :=
  if (f a <? f b)%Z then Lt else if (f a >? f b)%Z then Gt else Eq.
Definition cmp_float (f : Torrent → float64) (a b : Torrent) : comparison :=
  if f64_ltb (f a) (f b) then Lt else if f64_ltb (f b) (f a) then Gt else Eq.
Definition cmp_string (f : Torrent → string) (a b : Torrent) : comparison :=
  if bool_decide (f a = f b) then Eq else if negb (String.leb (f b) (f a)) then Lt else Gt.
Definition cmp_bool (f : Torrent → bool) (a b : Torrent) : comparison :=
  if bool_decide (f a = f b) then Eq else if f a then Gt else Lt.

Inductive sort_key :=
| KInt (f : Torrent → Z)
| KFloat (f : Torrent → float64)
| KString (f : Torrent → string)
| KBool (f : Torrent → bool).

Definition key_comparator (k : sort_key) : Torrent → Torrent → comparison :=
  match k with KInt f => cmp_int f | KFloat f => cmp_float f | KString f => cmp_string f | KBool f => cmp_bool f end.

Definition torrentComparators : list (string * sort_key) :=
  [("added_on", KInt t_AddedOn); ("amount_left", KInt t_AmountLeft); ("auto_tmm", KBool t_AutoManaged);
   ("availability", KFloat t_Availability); ("category", KString t_Category); ("comment", KString t_Comment);
   ("completed", KInt t_Completed); ("completion_on", KInt t_CompletionOn); ("created_by", KString t_CreatedBy);
   ("content_path", KString t_ContentPath); ("dl_limit", KInt t_DlLimit); ("dlspeed", KInt t_DlSpeed);
   ("download_path", KString t_DownloadPath); ("downloaded", KInt t_Downloaded);
   ("downloaded_session", KInt t_DownloadedSession); ("eta", KInt t_ETA);
   ("f_l_piece_prio", KBool t_FirstLastPiecePrio); ("force_start", KBool t_ForceStart); ("hash", KString t_Hash);
   ("infohash_v1", KString t_InfohashV1); ("infohash_v2", KString t_InfohashV2); ("popularity", KFloat t_Popularity);
   ("private", KBool t_Private); ("last_activity", KInt t_LastActivity); ("magnet_uri", KString t_MagnetURI);
   ("max_ratio", KFloat t_MaxRatio); ("max_seeding_time", KInt t_MaxSeedingTime);
   ("max_inactive_seeding_time", KInt t_MaxInactiveSeedingTime); ("name", KString t_Name);
   ("num_complete", KInt t_NumComplete); ("num_incomplete", KInt t_NumIncomplete); ("num_leechs", KInt t_NumLeechs);
   ("num_seeds", KInt t_NumSeeds); ("priority", KInt t_Priority); ("progress", KFloat t_Progress); ("ratio", KFloat t_Ratio);
   ("ratio_limit", KFloat t_RatioLimit); ("reannounce", KInt t_Reannounce); ("save_path", KString t_SavePath);
   ("seeding_time", KInt t_SeedingTime); ("seeding_time_limit", KInt t_SeedingTimeLimit);
   ("inactive_seeding_time_limit", KInt t_InactiveSeedingTimeLimit); ("share_limit_action", KString t_ShareLimitAction);
   ("share_limits_mode", KString t_ShareLimitsMode); ("seen_complete", KInt t_SeenComplete);
   ("seq_dl", KBool t_SequentialDownload); ("size", KInt t_Size); ("state", KString t_State);
   ("super_seeding", KBool t_SuperSeeding); ("tags", KString t_Tags); ("time_active", KInt t_TimeActive);
   ("total_size", KInt t_TotalSize); ("tracker", KString t_Tracker); ("trackers_count", KInt t_TrackersCount);
   ("up_limit", KInt t_UpLimit); ("uploaded", KInt t_Uploaded); ("uploaded_session", KInt t_UploadedSession);
   ("upspeed", KInt t_UpSpeed); ("default", KString t_Name)]%string.

(** [torrentSorter.compare]: ties are broken by the hash, and all of it is
    reversed. *)
Definition sorter_compare (k : sort_key) (reverse : bool) (a b : Torrent) : comparison :=
  let r := match key_comparator k a b with
           | Eq => cmp_string t_Hash a b
           | r => r
           end in
  if reverse then CompOpp r else r.

(** ** Sorting in place *)

(** The loop along one cycle: position [j] takes the element that its index
    names, and the last one the element [temp] of position [i] that was taken
    out.  [None] is an index out of range, or fuel that ran out. *)
Fixpoint apply_cycle {A} (fuel : nat) (i : nat) (temp : A) (j : nat) (xs : list A) (indices : list nat) :
    option (list A * list nat) :=
  match fuel with
  | O => None
  | S fuel =>
    k ← indices !! j;
    let indices := <[j := j]> indices in
    if bool_decide (k = i) then Some (<[j := temp]> xs, indices)
    else x ← xs !! k; apply_cycle fuel i temp k (<[j := x]> xs) indices
  end.

Fixpoint apply_cycles {A} (todo : list nat) (xs : list A) (indices : list nat) : option (list A * list nat) :=
  match todo with
  | [] => Some (xs, indices)
  | i :: todo =>
    k ← indices !! i;
    if bool_decide (k = i) then apply_cycles todo xs indices
    else
      temp ← xs !! i;
      '(xs, indices) ← apply_cycle (length xs) i temp i xs indices;
      apply_cycles todo xs indices
  end.

Definition comparator_of (sortField : string) : sort_key :=
  match assoc sortField torrentComparators with Some k => k | None => KString t_Name end.

Definition compare_at (k : sort_key) (reverse : bool) (torrents : list Torrent) (i j : nat) : comparison :=
  match torrents !! i, torrents !! j with
  | Some a, Some b => sorter_compare k reverse a b
  | _, _ => Eq
  end.

(** The sorted indices: [slices.SortFunc] is modelled by an insertion sort. *)
Definition sorted_indices (k : sort_key) (reverse : bool) (torrents : list Torrent) : list nat :=
  sort_slice (λ i j, match compare_at k reverse torrents i j with Lt => true | _ => false end) (seq 0 (length torrents)).

Definition applyTorrentSorting (torrents : list Torrent) (sortField : string) (reverse : bool) : option (list Torrent) :=
  if bool_decide (sortField = "") then Some torrents
  else fst <$> apply_cycles (seq 0 (length torrents)) torrents (sorted_indices (comparator_of sortField) reverse torrents).

(** The slice expression of offset and limit; [None] is the panic of a negative
    start, [start+options.Limit] wraps around. *)
Definition window {A} (offset limit : Z) (l : list A) : option (list A) :=
  if (0 <? offset)%Z || (0 <? limit)%Z then
    if (Z.of_nat (length l) <=? offset)%Z then Some []
    else
      let stop := i64 (offset + limit) in
      let n := if (0 <? limit)%Z && (stop <? Z.of_nat (length l))%Z then stop else Z.of_nat (length l) in
      if (offset <? 0)%Z || (n <? offset)%Z then None
      else Some (take (Z.to_nat (n - offset)) (drop (Z.to_nat offset) l))
  else Some l.

Definition applyTorrentFilterOptions (torrents : list Torrent) (options : TorrentFilterOptions) : option (list Torrent) :=
  torrents ← applyTorrentSorting torrents (fo_Sort options) (fo_Reverse options);
  window (fo_Offset options) (fo_Limit options) torrents.

(** [removeStrings] *)
Definition removeStrings (input toRemove : list string) : list string :=
  if bool_decide (input = []) || bool_decide (toRemove = []) then input
  else filter (λ item, item ∉ toRemove) input.

(** ** The permutation is applied exactly *)

Section cycles.
Context {A : Type} (xs0 : list A) (p : nat → nat).
Context (Hp : ∀ x, x < length xs0 → p x < length xs0).
Context (Hinj : ∀ x y, x < length xs0 → y < length xs0 → p x = p y → x = y).

(** The positions in [D] have their element and are marked, the others are as
    they were. *)
Definition placed (D : gset nat) (xs : list A) (indices : list nat) : Prop :=
  length xs = length xs0 ∧ length indices = length xs0 ∧ D ⊆ set_seq 0 (length xs0) ∧
  ∀ x, x < length xs0 →
    (x ∈ D → indices !! x = Some x ∧ xs !! x = xs0 !! p x) ∧
    (x ∉ D → indices !! x = Some (p x) ∧ xs !! x = xs0 !! x).

(** Whole cycles are done. *)
Definition closed (D : gset nat) : Prop := ∀ x, x < length xs0 → p x ∈ D → x ∈ D.

Lemma placed_step D xs indices j x :
  placed D xs indices → j < length xs0 → xs0 !! p j = Some x → placed ({[j]} ∪ D) (<[j := x]> xs) (<[j := j]> indices).
Proof.
  intros (Hx & Hi & HD & Hat) Hj Hpj. split_and!; [by rewrite length_insert..| |].
  - intros y. rewrite elem_of_union, elem_of_singleton. intros [->|Hy]; [|by apply HD].
    apply elem_of_set_seq. lia.
  - intros y Hy. destruct (decide (y = j)) as [->|Hne].
    + split; [|set_solver]. intros _. rewrite !list_lookup_insert_eq by lia. by rewrite Hpj.
    + rewrite !list_lookup_insert_ne by done. destruct (Hat y Hy) as [H1 H2].
      split; intros Hy'; [apply H1|apply H2]; set_solver.
Qed.

Lemma placed_full D xs indices j :
  placed D xs indices → j < length xs0 → j ∉ D → size D < length xs0.
Proof.
  intros (_ & _ & HD & _) Hj Hn.
  assert ({[j]} ∪ D ⊆ (set_seq 0 (length xs0) : gset nat)) as Hsub.
  { intros y. rewrite elem_of_union, elem_of_singleton. intros [->|Hy]; [apply elem_of_set_seq; lia|by apply HD]. }
  apply subseteq_size in Hsub. rewrite size_union, size_singleton, size_set_seq in Hsub by set_solver. lia.
Qed.

Lemma apply_cycle_spec fuel D i temp j xs indices :
  placed D xs indices → i < length xs0 → j < length xs0 → xs0 !! i = Some temp → j ∉ D →
  (∀ x, x < length xs0 → p x ∈ D → p x ≠ i → x ∈ D) →
  (j ≠ i → i ∈ D ∧ ∀ x, x < length xs0 → p x = j → x ∈ D) →
  length xs0 - size D ≤ fuel →
  ∃ D' xs' indices', apply_cycle fuel i temp j xs indices = Some (xs', indices') ∧
    placed D' xs' indices' ∧ D ⊆ D' ∧ i ∈ D' ∧ closed D'.
Proof.
  revert D j xs indices. induction fuel as [|fuel IH]; intros D j xs indices Hpl Hi Hj Ht HjD Hclosed Hfrom Hfuel.
  { pose proof (placed_full _ _ _ _ Hpl Hj HjD). lia. }
  pose proof Hpl as (Hx & Hl & HD & Hat).
  assert (j ≠ i → i ∈ D) as Hfi by (intros Hne; by destruct (Hfrom Hne)).
  assert (∀ x, x < length xs0 → p x = j → j ≠ i → x ∈ D) as Hfx by (intros x Hxl Hpx Hne; destruct (Hfrom Hne); auto).
  destruct (Hat j Hj) as [_ [Hij Hxj]]; [done|]. cbn [apply_cycle]. rewrite Hij. cbn [mbind option_bind].
  destruct (bool_decide (p j = i)) eqn:Ek; bool_hyps.
  - exists ({[j]} ∪ D). do 2 eexists. split; [done|]. split_and!.
    + apply placed_step; [done..|]. by rewrite Ek.
    + set_solver.
    + destruct (decide (j = i)) as [->|Hne]; [set_solver|]. apply elem_of_union_r, Hfi, Hne.
    + intros x Hxl. rewrite !elem_of_union, !elem_of_singleton.
      destruct (decide (p x = i)) as [Hpi|Hpi]; [left; apply Hinj; [done..|by rewrite Ek]|].
      intros [Hpx|Hpx]; right; [|by apply Hclosed].
      apply Hfx; [done..|]. by rewrite <- Hpx.
  - pose proof (Hp j Hj) as Hk.
    assert (p j ∉ D) as HkD by (intros Hin; by apply HjD, Hclosed).
    assert (p j ≠ j) as Hkj.
    { intros Hin. apply HjD, Hfx; [done..|]. intros ->. done. }
    destruct (Hat (p j) Hk) as [_ [_ Hxk]]; [done|]. rewrite Hxk.
    destruct (lookup_lt_is_Some_2 xs0 (p j) Hk) as [y Hy]. rewrite Hy. cbn [mbind option_bind].
    edestruct (IH ({[j]} ∪ D) (p j)) as (D' & xs' & ind' & Hrun & Hpl' & Hsub & HiD & Hcl);
      [by apply placed_step|done|done|done|set_solver| | | |].
    + intros x Hxl. rewrite !elem_of_union, !elem_of_singleton. intros [Hpx|Hpx] Hpi; right; [|by apply Hclosed].
      apply Hfx; [done..|]. by rewrite <- Hpx.
    + intros _. split.
      * destruct (decide (j = i)) as [->|Hne]; [set_solver|]. apply elem_of_union_r, Hfi, Hne.
      * intros x Hxl Hpx%Hinj; [|done..]. set_solver.
    + rewrite size_union, size_singleton by set_solver. lia.
    + exists D', xs', ind'. split_and!; [done|done|set_solver|done|done].
Qed.

Lemma apply_cycles_spec todo D xs indices :
  placed D xs indices → closed D → (∀ x, x ∈ todo → x < length xs0) →
  (∀ x, x < length xs0 → x ∈ D ∨ x ∈ todo) →
  ∃ D' xs' indices', apply_cycles todo xs indices = Some (xs', indices') ∧
    placed D' xs' indices' ∧ ∀ x, x < length xs0 → x ∈ D'.
Proof.
  revert D xs indices. induction todo as [|i todo IH]; intros D xs indices Hpl Hcl Htodo Hall.
  { exists D, xs, indices. split_and!; [done..|]. intros x Hx. destruct (Hall x Hx) as [?|Hn]; [done|].
    by apply elem_of_nil in Hn. }
  assert (i < length xs0) as Hi by (apply Htodo; left).
  assert (∀ x, x ∈ todo → x < length xs0) as Htodo' by (intros; apply Htodo; by right).
  assert (∀ D', D ⊆ D' → i ∈ D' → ∀ x, x < length xs0 → x ∈ D' ∨ x ∈ todo) as Hrest.
  { intros D' Hsub HiD x Hx. destruct (Hall x Hx) as [?|[->|?]%elem_of_cons]; auto. }
  pose proof Hpl as (Hx & Hl & HD & Hat).
  cbn [apply_cycles]. destruct (Hat i Hi) as [Hin Hout]. destruct (decide (i ∈ D)) as [HiD|HiD].
  { destruct (Hin HiD) as [-> _]. cbn [mbind option_bind]. rewrite bool_decide_true by done.
    apply (IH D); auto. }
  destruct (Hout HiD) as [-> Hxi]. cbn [mbind option_bind].
  destruct (lookup_lt_is_Some_2 xs0 i Hi) as [temp Htemp].
  destruct (bool_decide (p i = i)) eqn:Ek; bool_hyps.
  - apply (IH ({[i]} ∪ D)); [|  |done|apply Hrest; set_solver].
    + pose proof (placed_step D xs indices i temp Hpl Hi) as Hs. rewrite Ek in Hs. specialize (Hs Htemp).
      rewrite !list_insert_id in Hs; [done| |by rewrite Hxi]. destruct (Hout HiD) as [-> _]. by rewrite Ek.
    + intros x Hxl. rewrite !elem_of_union, !elem_of_singleton. intros [Hpx|Hpx]; [left|right; by apply Hcl].
      apply Hinj; [done..|congruence].
  - rewrite Hxi, Htemp. cbn [mbind option_bind].
    destruct (apply_cycle_spec (length xs) D i temp i xs indices) as (D' & xs' & ind' & -> & Hpl' & Hsub & HiD' & Hcl');
      try done; [by intros; apply Hcl|lia|]. cbn [mbind option_bind].
    apply (IH D'); auto.
Qed.
End cycles.

(** The in-place loops put at each position the element its index names. *)
Lemma apply_cycles_exact {A} (xs : list A) (indices : list nat) :
  indices ≡ₚ seq 0 (length xs) →
  fst <$> apply_cycles (seq 0 (length xs)) xs indices = mapM (xs !!.) indices.
Proof.
  intros Hperm. assert (length indices = length xs) as Hlen by (by rewrite Hperm, length_seq).
  assert (NoDup indices) as Hnd by (rewrite Hperm; apply NoDup_seq).
  set (p x := default 0 (indices !! x)).
  assert (∀ x, x < length xs → indices !! x = Some (p x)) as Hidx.
  { intros x Hx. unfold p. destruct (lookup_lt_is_Some_2 indices x) as [k ->]; [lia|done]. }
  assert (∀ x, x < length xs → p x < length xs) as Hp.
  { intros x Hx. apply Hidx, list_elem_of_lookup_2 in Hx. rewrite Hperm, elem_of_seq in Hx. lia. }
  destruct (apply_cycles_spec xs p Hp) with (todo := seq 0 (length xs)) (D := ∅ : gset nat) (xs := xs) (indices := indices)
    as (D & xs' & ind' & -> & (Hx & _ & _ & Hat) & HD).
  - intros x y Hx Hy Hxy. apply (NoDup_lookup indices x y (p x)); [done|by apply Hidx|rewrite Hxy; by apply Hidx].
  - split_and!; [done|done|set_solver|]. intros x Hx. split; [set_solver|]. auto.
  - intros x Hx Hin. set_solver.
  - intros x. rewrite elem_of_seq. lia.
  - intros x Hx. right. apply elem_of_seq. lia.
  - symmetry. apply mapM_Some, Forall2_same_length_lookup_2; [simpl; lia|].
    intros x i y Hi Hy. simpl in Hy. assert (x < length xs) as Hxl by (apply lookup_lt_Some in Hi; lia).
    destruct (Hat x Hxl) as [Hin _]. destruct (Hin (HD x Hxl)) as [_ Hxs]. rewrite (Hidx x Hxl) in Hi. congruence.
Qed.

(** ** The order of a sorted listing *)

Definition key_cmp (k : sort_key) : Torrent → Torrent → comparison :=
  match k with
  | KInt f => pull_cmp f Z.compare
  | KFloat f => pull_cmp f float_cmp
  | KString f => pull_cmp f String.compare
  | KBool f => pull_cmp (λ t, boolToInt (f t)) Z.compare
  end.

Definition sorter_cmp (k : sort_key) (reverse : bool) : Torrent → Torrent → comparison :=
  let c := lex_cmp (key_cmp k) (pull_cmp t_Hash String.compare) in if reverse then flip_cmp c else c.

#[export] Instance key_cmp_total k : TotalCmp (key_cmp k).
Proof. destruct k; apply _. Qed.

#[export] Instance sorter_cmp_total k reverse : TotalCmp (sorter_cmp k reverse).
Proof. unfold sorter_cmp. destruct reverse; apply _. Qed.

(** Go orders the torrents of a sort field by [<], which NaN does not take
    part in. *)
Definition ordered (k : sort_key) (t : Torrent) : Prop :=
  match k with KFloat f => is_nan (f t) = false | _ => True end.

#[export] Instance ordered_dec k t : Decision (ordered k t).
Proof. destruct k; unfold ordered; apply _. Defined.

Lemma cmp_string_spec f a b : cmp_string f a b = pull_cmp f String.compare a b.
Proof.
  unfold cmp_string, pull_cmp, String.leb. case_bool_decide as E.
  { rewrite E. symmetry. apply (cmp_refl String.compare). }
  rewrite (cmp_opp (c := String.compare) (f a) (f b)).
  destruct (String.compare (f a) (f b)) eqn:Ec; [|done..]. by apply String.compare_eq_iff in Ec.
Qed.

Lemma key_comparator_spec k a b : ordered k a → ordered k b → key_comparator k a b = key_cmp k a b.
Proof.
  destruct k as [f|f|f|f]; intros Ha Hb; cbn in *.
  - unfold cmp_int, pull_cmp, Z.ltb, Z.gtb. by destruct (f a ?= f b)%Z.
  - unfold cmp_float, pull_cmp, f64_ltb, SFltb. rewrite !float_cmp_spec by done.
    rewrite (cmp_opp (c := float_cmp) (f a) (f b)). by destruct (float_cmp (f a) (f b)).
  - apply cmp_string_spec.
  - unfold cmp_bool, pull_cmp. by destruct (f a), (f b).
Qed.

Lemma sorter_compare_spec k reverse a b :
  ordered k a → ordered k b → sorter_compare k reverse a b = sorter_cmp k reverse a b.
Proof.
  intros Ha Hb. unfold sorter_compare, sorter_cmp. rewrite key_comparator_spec, cmp_string_spec by done.
  fold (lex_cmp (key_cmp k) (pull_cmp t_Hash String.compare) a b). destruct reverse; [|done].
  unfold flip_cmp. symmetry. apply (cmp_opp (c := lex_cmp (key_cmp k) (pull_cmp t_Hash String.compare)) a b).
Qed.

Lemma sorter_cmp_eq k reverse a b : sorter_cmp k reverse a b = Eq → t_Hash a = t_Hash b.
Proof.
  unfold sorter_cmp, flip_cmp, lex_cmp. destruct reverse; destruct (key_cmp k _ _); try done;
    unfold pull_cmp; intros H%String.compare_eq_iff; congruence.
Qed.

Lemma StronglySorted_map {A B} (R : B → B → Prop) (f : A → B) l :
  StronglySorted (λ x y, R (f x) (f y)) l → StronglySorted R (f <$> l).
Proof. induction 1; simpl; constructor; [done|]. by apply Forall_fmap. Qed.

Lemma mapM_default {A} (d : A) (xs : list A) (l : list nat) :
  Forall (λ i, i < length xs) l → mapM (xs !!.) l = Some ((λ i, default d (xs !! i)) <$> l).
Proof.
  induction 1 as [|i l Hi _ IH]; [done|]. cbn [mapM fmap list_fmap]. rewrite IH.
  by destruct (lookup_lt_is_Some_2 xs i Hi) as [x ->].
Qed.

Lemma seq_lookup_id {A} (d : A) (xs : list A) : (λ i, default d (xs !! i)) <$> seq 0 (length xs) = xs.
Proof.
  apply list_eq. intros i. rewrite list_lookup_fmap. destruct (decide (i < length xs)) as [Hi|Hi].
  - rewrite lookup_seq_lt by done. simpl. by destruct (lookup_lt_is_Some_2 xs i Hi) as [x ->].
  - rewrite lookup_seq_ge by lia. simpl. symmetry. apply lookup_ge_None. lia.
Qed.

Lemma sorted_listing (torrents : list Torrent) (sortField : string) (reverse : bool) :
  sortField ≠ "" → Forall (ordered (comparator_of sortField)) torrents →
  ∃ l, applyTorrentSorting torrents sortField reverse = Some l ∧ l ≡ₚ torrents ∧
    StronglySorted (cmp_le (sorter_cmp (comparator_of sortField) reverse)) l.
Proof.
  intros Hne Hord. unfold applyTorrentSorting. rewrite bool_decide_false by done.
  set (k := comparator_of sortField) in *. set (at_ i := default zero_torrent (torrents !! i)).
  set (c := pull_cmp at_ (sorter_cmp k reverse)).
  assert (TotalCmp c) by (unfold c; apply _).
  assert (sorted_indices k reverse torrents = sort_slice (cmp_less c) (seq 0 (length torrents))) as ->.
  { apply sort_slice_ext. intros i j Hi Hj. rewrite elem_of_seq in Hi, Hj.
    unfold compare_at, cmp_less, c, pull_cmp, at_.
    destruct (lookup_lt_is_Some_2 torrents i) as [a Ha]; [lia|].
    destruct (lookup_lt_is_Some_2 torrents j) as [b Hb]; [lia|]. rewrite Ha, Hb. cbn [default].
    rewrite sorter_compare_spec; [done|..]; rewrite Forall_forall in Hord; apply Hord; by eapply list_elem_of_lookup_2. }
  set (l := sort_slice _ _). assert (l ≡ₚ seq 0 (length torrents)) as Hl by apply sort_slice_perm.
  rewrite apply_cycles_exact by done. rewrite (mapM_default zero_torrent).
  - exists (at_ <$> l). split_and!; [done| |].
    + rewrite Hl. unfold at_. by rewrite seq_lookup_id.
    + apply StronglySorted_map. apply (sort_slice_sorted c).
  - apply Forall_forall. intros i. rewrite Hl, elem_of_seq. lia.
Qed.

(**  Sorting a listing by a field returns the only order of its
    torrents in which none comes after one that compares greater, by the field
    and then by the hash, both reversed when asked for: the sort over indices
    and the in-place loops that apply its permutation lose and duplicate
    nothing and never run out of range, and the order does not depend on the
    sorting algorithm. *)
Theorem listing_sorted (torrents : list Torrent) (sortField : string) (reverse : bool) :
  sortField ≠ "" → Forall (ordered (comparator_of sortField)) torrents → NoDup (t_Hash <$> torrents) →
  ∃ l, applyTorrentSorting torrents sortField reverse = Some l ∧
    ∀ l', l' = l ↔ l' ≡ₚ torrents ∧ StronglySorted (cmp_le (sorter_cmp (comparator_of sortField) reverse)) l'.
Proof.
  intros Hne Hord Hnd. destruct (sorted_listing torrents sortField reverse) as (l & Hl & Hp & Hs); [done..|].
  exists l. split; [done|]. intros l'. split; [intros ->; done|]. intros [Hp' Hs'].
  apply (sorted_unique (sorter_cmp (comparator_of sortField) reverse)); [|by rewrite Hp', Hp|done|done].
  intros x y Hx Hy Heq%sorter_cmp_eq. rewrite Hp' in Hx, Hy. by apply (NoDup_key_inj t_Hash torrents).
Qed.

Definition listed (hash name : string) (size : Z) : Torrent :=
  MkTorrent 0 0 false f64_zero "" "" 0 0 "" "" 0 0 "" 0 0 0 false false hash "" "" f64_zero false
    0 "" f64_zero 0 0 name 0 0 0 0 0 f64_zero f64_zero f64_zero 0 "" 0 0 0 "" "" 0 false size ""
    false "" 0 0 "" 0 0 0 0 0 [].
Definition sample_listing : list Torrent :=
  [listed "CC" "c" 5; listed "AA" "a" 9; listed "DD" "d" 1; listed "BB" "b" 5].

Example listing_by_size :
  match applyTorrentSorting sample_listing "size" true with
  | Some l => map t_Hash l
  | None => []
  end = ["AA"; "CC"; "BB"; "DD"]%string.
Proof. by vm_compute. Qed.

Lemma listing_sorted_witness :
  ∃ l, applyTorrentSorting sample_listing "size" true = Some l ∧
    ∀ l', l' = l ↔ l' ≡ₚ sample_listing ∧ StronglySorted (cmp_le (sorter_cmp (comparator_of "size") true)) l'.
Proof.
  apply (listing_sorted sample_listing "size" true); [done| |]; apply (bool_decide_eq_true_1 _); by vm_compute.
Defined.

Lemma elem_of_prefix {A} n (l : list A) x : x ∈ take n l → x ∈ l.
Proof. intros H. rewrite <- (take_drop n l). apply elem_of_app. by left. Qed.

Lemma elem_of_window {A} offset limit (l l' : list A) x : window offset limit l = Some l' → x ∈ l' → x ∈ l.
Proof.
  unfold window. destruct (_ || _); [|by intros [= ->]]. destruct (_ <=? _)%Z.
  { intros [= <-] Hx. by apply elem_of_nil in Hx. }
  cbv zeta. destruct (_ || _); [done|]. intros [= <-] Hx.
  rewrite <- (take_drop (Z.to_nat offset) l). apply elem_of_app. right.
  eapply elem_of_prefix. exact Hx.
Qed.
