(* ===== verification/TransmissionTorrent.v ===== *)
(** * [internal/transmissionqbt/methods.go]: Transmission's torrents as qBittorrent's

    The records that Transmission's answers are decoded into, and their
    translation: a torrent with its state, its trackers, its files and peers,
    and the session as preferences. *)

From Stdlib Require Import ZArith Lia Ascii SpecFloat.
From stdpp Require Import base numbers list strings gmap.
From S2P Require Import Prelude.
From S2P Require Import GoStrings.
From S2P Require Import GoPath.
From S2P Require Import GoFloat.
From S2P Require Import Domain.
From S2P Require Import TransmissionRpc.
From S2P Require Import TorrentFilter.

Open Scope qui_scope.

(** ** What Transmission answers *)

Record trFile := MkTrFile { trf_BytesCompleted : Z; trf_Length : Z; trf_Name : string; trf_BeginPiece : Z; trf_EndPiece : Z }.
Record trFileStat := MkTrFileStat { trs_BytesCompleted : Z; trs_Wanted : bool; trs_Priority : Z }.
Record trTracker := MkTrTracker { trt_Announce : string; trt_ID : Z; trt_Scrape : string; trt_SiteName : string; trt_Tier : Z }.

Record trTrackerStat := MkTrTrackerStat {
  ts_Announce : string; ts_AnnounceState : Z; ts_DownloadCount : Z; ts_DownloaderCount : Z; ts_HasAnnounced : bool;
  ts_HasScraped : bool; ts_Host : string; ts_ID : Z; ts_IsBackup : bool; ts_LastAnnouncePeerCount : Z;
  ts_LastAnnounceResult : string; ts_LastAnnounceSucceeded : bool; ts_LastAnnounceTimedOut : bool;
  ts_LastScrapeResult : string; ts_LastScrapeSucceeded : bool; ts_LastScrapeTimedOut : bool; ts_LeecherCount : Z;
  ts_NextAnnounceTime : Z; ts_SeederCount : Z; ts_Scrape : string; ts_ScrapeState : Z; ts_SiteName : string; ts_Tier : Z }.

Record trPeer := MkTrPeer {
  pe_Address : string; pe_ClientName : string; pe_FlagStr : string; pe_IsDownloadingFrom : bool; pe_IsEncrypted : bool;
  pe_IsIncoming : bool; pe_IsUploadingTo : bool; pe_IsUTP : bool; pe_PeerID : string; pe_Port : Z; pe_Progress : float64;
  pe_RateToClient : Z; pe_RateToPeer : Z; pe_BytesToClient : Z; pe_BytesToPeer : Z }.

Record trTorrent := MkTrTorrent {
  tr_ActivityDate : Z; tr_AddedDate : Z; tr_Availability : list Z; tr_BandwidthPriority : Z; tr_BytesCompleted : list Z;
  tr_Comment : string; tr_CorruptEver : Z; tr_Creator : string; tr_DateCreated : Z; tr_DesiredAvailable : Z; tr_DoneDate : Z;
  tr_DownloadDir : string; tr_DownloadedEver : Z; tr_DownloadLimit : Z; tr_DownloadLimited : bool; tr_Error : Z;
  tr_ErrorString : string; tr_Eta : Z; tr_FileCount : Z; tr_Files : list trFile; tr_FileStats : list trFileStat;
  tr_Group : string; tr_HashString : string; tr_HaveUnchecked : Z; tr_HaveValid : Z; tr_HonorsSessionLimits : bool; tr_ID : Z;
  tr_IsFinished : bool; tr_IsPrivate : bool; tr_IsStalled : bool; tr_Labels : list string; tr_LeftUntilDone : Z;
  tr_MagnetLink : string; tr_MaxConnectedPeers : Z; tr_MetadataPercentComplete : float64; tr_Name : string; tr_PeerLimit : Z;
  tr_Peers : list trPeer; tr_PeersConnected : Z; tr_PeersGettingFromUs : Z; tr_PeersSendingToUs : Z;
  tr_PercentComplete : float64; tr_PercentDone : float64; tr_Pieces : string; tr_PieceCount : Z; tr_PieceSize : Z;
  tr_Priorities : list Z; tr_QueuePosition : Z; tr_RateDownload : Z; tr_RateUpload : Z; tr_RecheckProgress : float64;
  tr_SecondsDownloading : Z; tr_SecondsSeeding : Z; tr_SeedIdleLimit : Z; tr_SeedIdleMode : Z; tr_SeedRatioLimit : float64;
  tr_SeedRatioMode : Z; tr_SequentialDownload : bool; tr_SizeWhenDone : Z; tr_StartDate : Z; tr_Status : Z;
  tr_TorrentFile : string; tr_TotalSize : Z; tr_Trackers : list trTracker; tr_TrackerList : string;
  tr_TrackerStats : list trTrackerStat; tr_UploadedEver : Z; tr_UploadLimit : Z; tr_UploadLimited : bool;
  tr_UploadRatio : float64; tr_Wanted : list bool; tr_WebSeeds : list string; tr_WebSeedsEx : list string;
  tr_WebSeedsSendingToUs : Z }.

(** The zero value, with a hash. *)
Definition tr_torrent (hash : string) : trTorrent :=
  MkTrTorrent 0 0 [] 0 [] "" 0 "" 0 0 0 "" 0 0 false 0 "" 0 0 [] [] "" hash 0 0 false 0 false false false [] 0 "" 0 f64_zero "" 0
    [] 0 0 0 f64_zero f64_zero "" 0 0 [] 0 0 0 f64_zero 0 0 0 0 f64_zero 0 false 0 0 0 "" 0 [] "" [] 0 0 false f64_zero [] [] [] 0.

Record trSession := MkTrSession {
  se_Version : string; se_RPCVersion : Z; se_RPCVersionSemver : string; se_DownloadDir : string;
  se_DownloadQueueEnabled : bool; se_DownloadQueueSize : Z; se_SeedQueueEnabled : bool; se_SeedQueueSize : Z;
  se_QueueStalledEnabled : bool; se_QueueStalledMinutes : Z; se_SpeedLimitDown : Z; se_SpeedLimitDownEnabled : bool;
  se_SpeedLimitUp : Z; se_SpeedLimitUpEnabled : bool; se_AltSpeedDown : Z; se_AltSpeedUp : Z; se_AltSpeedEnabled : bool;
  se_PeerPort : Z; se_PeerLimitGlobal : Z; se_PeerLimitPerTorrent : Z; se_PEXEnabled : bool; se_DHTEnabled : bool;
  se_LPDEnabled : bool; se_UTPEnabled : bool; se_PortForwardingEnabled : bool; se_RenamePartialFiles : bool;
  se_StartAddedTorrents : bool; se_TrashOriginalTorrentFiles : bool; se_SeedRatioLimit : float64; se_SeedRatioLimited : bool;
  se_IdleSeedingLimit : Z; se_IdleSeedingLimitEnabled : bool; se_IncompleteDir : string; se_IncompleteDirEnabled : bool;
  se_ScriptTorrentAddedEnabled : bool; se_ScriptTorrentAddedFilename : string; se_BlocklistEnabled : bool; se_BlocklistURL : string }.

Definition zero_session : trSession :=
  MkTrSession "" 0 "" "" false 0 false 0 false 0 0 false 0 false 0 0 false 0 0 0 false false false false false false false
    false f64_zero false 0 false "" false false "" false "".

(** ** Trackers *)


Definition trackerStatus (stat : trTrackerStat) : Z :=
  if ts_LastAnnounceSucceeded stat || ts_LastScrapeSucceeded stat then TrackerStatusOK
  else if bool_decide (ts_AnnounceState stat = 1%Z) || bool_decide (ts_ScrapeState stat = 1%Z) then TrackerStatusUpdating
  else if ts_LastAnnounceTimedOut stat || ts_LastScrapeTimedOut stat then TrackerStatusUnreachable
  else if negb (bool_decide (ts_LastAnnounceResult stat = "")) || negb (bool_decide (ts_LastScrapeResult stat = ""))
  then TrackerStatusTrackerError
  else TrackerStatusNotContacted.

Fixpoint firstNonEmpty (values : list string) : string :=
  match values with
  | [] => ""
  | value :: values => if negb (bool_decide (TrimSpace value = "")) then value else firstNonEmpty values
  end.

Definition toTrackers (tr : trTorrent) : list TorrentTracker :=
  match tr_TrackerStats tr with
  | [] => (λ t, MkTracker (trt_Announce t) TrackerStatusNotContacted 0 0 0 0 "") <$> tr_Trackers tr
  | stats =>
    (λ s, MkTracker (ts_Announce s) (trackerStatus s) (ts_LastAnnouncePeerCount s) (ts_SeederCount s) (ts_LeecherCount s)
                    (ts_DownloadCount s) (firstNonEmpty [ts_LastAnnounceResult s; ts_LastScrapeResult s])) <$> stats
  end.

Definition first_count (f : trTrackerStat → Z) (stats : list trTrackerStat) : Z :=
  match filter (λ s, 0 ≤ f s)%Z stats with s :: _ => f s | [] => 0%Z end.
Definition firstSeederCount : list trTrackerStat → Z := first_count ts_SeederCount.
Definition firstLeecherCount : list trTrackerStat → Z := first_count ts_LeecherCount.

Definition availabilityScore (availability : list Z) : float64 :=
  if bool_decide (availability = []) then f64_zero
  else f64_div (f64_of_Z (Z.of_nat (length (filter (λ v, v ≠ 0%Z) availability)))) (f64_of_Z (Z.of_nat (length availability))).

(** ** Torrents *)

Definition complete (tr : trTorrent) (progress : float64) : bool := f64_leb f64_one progress || tr_IsFinished tr.

Definition toState (tr : trTorrent) (progress : float64) : TorrentState :=
  if negb (bool_decide (tr_Error tr = 0%Z)) then TorrentStateError
  else
    match tr_Status tr with
    | 0%Z => if complete tr progress then TorrentStateStoppedUp else TorrentStateStoppedDl
    | 1%Z => TorrentStateCheckingResumeData
    | 2%Z => if complete tr progress then TorrentStateCheckingUp else TorrentStateCheckingDl
    | 3%Z => TorrentStateQueuedDl
    | 4%Z => if tr_IsStalled tr then TorrentStateStalledDl else TorrentStateDownloading
    | 5%Z => TorrentStateQueuedUp
    | 6%Z => if tr_IsStalled tr then TorrentStateStalledUp else TorrentStateUploading
    | _ => TorrentStateUnknown
    end.

Definition tr_progress (tr : trTorrent) : float64 :=
  if f64_eqb (tr_PercentDone tr) f64_zero && f64_ltb f64_zero (tr_PercentComplete tr) then tr_PercentComplete tr
  else tr_PercentDone tr.

Section case.
Context `{!UnicodeCase}.

Definition toQBT (tr : trTorrent) : Torrent :=
  let hash := ToUpper (TrimSpace (tr_HashString tr)) in
  let progress := tr_progress tr in
  let total := if bool_decide (tr_TotalSize tr = 0%Z) then tr_SizeWhenDone tr else tr_TotalSize tr in
  let savePath := tr_DownloadDir tr in
  let contentPath :=
    match tr_Files tr with
    | [f] => PathJoin [savePath; trf_Name f]
    | _ => PathJoin [savePath; tr_Name tr]
    end in
  let trackers := toTrackers tr in
  let trackerURL := match trackers with t :: _ => tt_Url t | [] => "" end in
  let completionOn :=
    if bool_decide (tr_DoneDate tr = 0%Z) && (tr_IsFinished tr || f64_leb f64_one progress) then tr_ActivityDate tr
    else tr_DoneDate tr in
  {| t_AddedOn := tr_AddedDate tr;
     t_AmountLeft := tr_LeftUntilDone tr;
     t_AutoManaged := true;
     t_Availability := availabilityScore (tr_Availability tr);
     t_Category := tr_Group tr;
     t_Comment := tr_Comment tr;
     t_Completed := i64 (tr_SizeWhenDone tr - tr_LeftUntilDone tr);
     t_CompletionOn := completionOn;
     t_CreatedBy := tr_Creator tr;
     t_ContentPath := contentPath;
     t_DlLimit := kbToBytes (tr_DownloadLimit tr) (tr_DownloadLimited tr);
     t_DlSpeed := tr_RateDownload tr;
     t_DownloadPath := savePath;
     t_Downloaded := tr_DownloadedEver tr;
     t_DownloadedSession := 0;
     t_ETA := tr_Eta tr;
     t_FirstLastPiecePrio := false;
     t_ForceStart := bool_decide (tr_Status tr = 4%Z) && (tr_QueuePosition tr <? 0)%Z;
     t_Hash := hash;
     t_InfohashV1 := hash;
     t_InfohashV2 := "";
     t_Popularity := f64_zero;
     t_Private := tr_IsPrivate tr;
     t_LastActivity := 0;
     t_MagnetURI := tr_MagnetLink tr;
     t_MaxRatio := tr_SeedRatioLimit tr;
     t_MaxSeedingTime := tr_SecondsSeeding tr;
     t_MaxInactiveSeedingTime := tr_SeedIdleLimit tr;
     t_Name := tr_Name tr;
     t_NumComplete := firstSeederCount (tr_TrackerStats tr);
     t_NumIncomplete := firstLeecherCount (tr_TrackerStats tr);
     t_NumLeechs := tr_PeersSendingToUs tr;
     t_NumSeeds := tr_PeersGettingFromUs tr;
     t_Priority := tr_QueuePosition tr;
     t_Progress := progress;
     t_Ratio := tr_UploadRatio tr;
     t_RatioLimit := tr_SeedRatioLimit tr;
     t_Reannounce := 0;
     t_SavePath := savePath;
     t_SeedingTime := tr_SecondsSeeding tr;
     t_SeedingTimeLimit := tr_SeedIdleLimit tr;
     t_InactiveSeedingTimeLimit := tr_SeedIdleLimit tr;
     t_ShareLimitAction := "";
     t_ShareLimitsMode := "";
     t_SeenComplete := completionOn;
     t_SequentialDownload := tr_SequentialDownload tr;
     t_Size := tr_SizeWhenDone tr;
     t_State := toState tr progress;
     t_SuperSeeding := false;
     t_Tags := Join (tr_Labels tr) ", ";
     t_TimeActive := i64 (tr_SecondsDownloading tr + tr_SecondsSeeding tr);
     t_TotalSize := total;
     t_Tracker := trackerURL;
     t_TrackersCount := Z.of_nat (length trackers);
     t_UpLimit := kbToBytes (tr_UploadLimit tr) (tr_UploadLimited tr);
     t_Uploaded := tr_UploadedEver tr;
     t_UploadedSession := 0;
     t_UpSpeed := tr_RateUpload tr;
     t_Trackers := trackers |}.
End case.

(** ** Files *)

Record QbtFile := MkQbtFile {
  qf_Index : Z; qf_IsSeed : bool; qf_Name : string; qf_PieceRange : list Z; qf_Priority : Z; qf_Progress : float64; qf_Size : Z }.

(** [float32(f)], as the float it is exactly. *)
Definition f32_round (f : float64) : float64 :=
  match f with
  | S754_finite s m e => binary_normalize 24 128 (if s then Zneg m else Zpos m) e s
  | f => f
  end.

Definition file_priority (stat : trFileStat) : Z :=
  if negb (trs_Wanted stat) then 0
  else if (trs_Priority stat <? 0)%Z then 1
  else if (0 <? trs_Priority stat)%Z then 7
  else 4.

Definition transmissionFilesToQBT (torrent : trTorrent) : list QbtFile :=
  imap (λ i file,
    let stat := default (MkTrFileStat 0 true 0) (tr_FileStats torrent !! i) in
    {| qf_Index := Z.of_nat i;
       qf_IsSeed := (trf_Length file <=? trf_BytesCompleted file)%Z && (0 <? trf_Length file)%Z;
       qf_Name := trf_Name file;
       qf_PieceRange := [trf_BeginPiece file; trf_EndPiece file];
       qf_Priority := file_priority stat;
       qf_Progress :=
         if (0 <? trf_Length file)%Z
         then f32_round (f64_div (f64_of_Z (trf_BytesCompleted file)) (f64_of_Z (trf_Length file)))
         else f64_zero;
       qf_Size := trf_Length file |}) (tr_Files torrent).

(** ** Pieces *)

Definition PieceStateNotDownloadYet : Z := 0.
Definition PieceStateAlreadyDownloaded : Z := 2.

(** The states from the decoded bit field [pieces]; [make] panics on a negative
    count. *)
Definition piece_states (pieces : bytes) (count : Z) : option (list Z) :=
  if (count <? 0)%Z then None
  else Some ((λ i : nat,
    match pieces !! (i / 8) with
    | Some b => if Z.testbit (byte b) (7 - Z.of_nat (i mod 8)) then PieceStateAlreadyDownloaded else PieceStateNotDownloadYet
    | None => PieceStateNotDownloadYet
    end) <$> seq 0 (Z.to_nat count)).

(** ** Peers *)

Definition transmissionPeerFlags (peer : trPeer) : string :=
  (if pe_IsEncrypted peer then "E" else "") +++ (if pe_IsIncoming peer then "I" else "") +++
  (if pe_IsUTP peer then "U" else "") +++ (if pe_IsDownloadingFrom peer then "D" else "") +++
  (if pe_IsUploadingTo peer then "U" else "").

(** ** Preferences *)

(** The fields of [AppPreferences] that Transmission has a counterpart for; the
    others keep their zero values. *)
Record AppPreferences := MkPrefs {
  ap_SavePath : string; ap_TempPath : string; ap_TempPathEnabled : bool; ap_QueueingEnabled : bool;
  ap_MaxActiveDownloads : Z; ap_MaxActiveUploads : Z; ap_MaxActiveTorrents : Z; ap_DlLimit : Z; ap_UpLimit : Z;
  ap_AltDlLimit : Z; ap_AltUpLimit : Z; ap_SchedulerEnabled : bool; ap_ListenPort : Z; ap_MaxConnec : Z;
  ap_MaxConnecPerTorrent : Z; ap_Pex : bool; ap_Dht : bool; ap_Lsd : bool; ap_Upnp : bool; ap_IncompleteFilesExt : bool;
  ap_StartPausedEnabled : bool; ap_AutoDeleteMode : Z; ap_MaxRatio : float64; ap_MaxRatioEnabled : bool;
  ap_MaxSeedingTime : Z; ap_MaxSeedingTimeEnabled : bool; ap_AutorunOnTorrentAddedEnabled : bool;
  ap_AutorunOnTorrentAddedProgram : string; ap_IPFilterEnabled : bool; ap_IPFilterPath : string;
  ap_UseSubcategories : bool; ap_AutoTmmEnabled : bool; ap_TorrentContentLayout : string }.

Definition sessionToPreferences (session : trSession) : AppPreferences :=
  {| ap_SavePath := se_DownloadDir session;
     ap_TempPath := se_IncompleteDir session;
     ap_TempPathEnabled := se_IncompleteDirEnabled session;
     ap_QueueingEnabled := se_DownloadQueueEnabled session || se_SeedQueueEnabled session;
     ap_MaxActiveDownloads := se_DownloadQueueSize session;
     ap_MaxActiveUploads := se_SeedQueueSize session;
     ap_MaxActiveTorrents := Z.max (i64 (se_DownloadQueueSize session + se_SeedQueueSize session)) 0;
     ap_DlLimit := kbToBytes (se_SpeedLimitDown session) (se_SpeedLimitDownEnabled session);
     ap_UpLimit := kbToBytes (se_SpeedLimitUp session) (se_SpeedLimitUpEnabled session);
     ap_AltDlLimit := se_AltSpeedDown session;
     ap_AltUpLimit := se_AltSpeedUp session;
     ap_SchedulerEnabled := se_AltSpeedEnabled session;
     ap_ListenPort := se_PeerPort session;
     ap_MaxConnec := se_PeerLimitGlobal session;
     ap_MaxConnecPerTorrent := se_PeerLimitPerTorrent session;
     ap_Pex := se_PEXEnabled session;
     ap_Dht := se_DHTEnabled session;
     ap_Lsd := se_LPDEnabled session;
     ap_Upnp := se_PortForwardingEnabled session;
     ap_IncompleteFilesExt := se_RenamePartialFiles session;
     ap_StartPausedEnabled := negb (se_StartAddedTorrents session);
     ap_AutoDeleteMode := boolToInt (se_TrashOriginalTorrentFiles session);
     ap_MaxRatio := se_SeedRatioLimit session;
     ap_MaxRatioEnabled := se_SeedRatioLimited session;
     ap_MaxSeedingTime := se_IdleSeedingLimit session;
     ap_MaxSeedingTimeEnabled := se_IdleSeedingLimitEnabled session;
     ap_AutorunOnTorrentAddedEnabled := se_ScriptTorrentAddedEnabled session;
     ap_AutorunOnTorrentAddedProgram := se_ScriptTorrentAddedFilename session;
     ap_IPFilterEnabled := se_BlocklistEnabled session;
     ap_IPFilterPath := se_BlocklistURL session;
     ap_UseSubcategories := false;
     ap_AutoTmmEnabled := true;
     ap_TorrentContentLayout := "Original" |}.

(** ** States and filters agree *)

(**  The state that a Transmission torrent is shown with puts
    it under the filters it belongs to: it is stopped exactly when the daemon
    says so and it has no error, and otherwise running; it is never both active
    and inactive; it counts as downloading only while the daemon downloads or
    checks it, and as completed only while it seeds, waits to seed, or has all
    its data; every torrent is under the filter for all. *)
Theorem states_filtered (tr : trTorrent) (progress : float64) :
  let s := toState tr progress in
  (matchesStateFilter s TorrentFilterStopped = true ↔ tr_Error tr = 0%Z ∧ tr_Status tr = 0%Z) ∧
  matchesStateFilter s TorrentFilterRunning = negb (matchesStateFilter s TorrentFilterStopped) ∧
  matchesStateFilter s TorrentFilterActive && matchesStateFilter s TorrentFilterInactive = false ∧
  (matchesStateFilter s TorrentFilterDownloading = true →
     tr_Status tr = 4%Z ∨ tr_Status tr = 2%Z ∧ complete tr progress = false) ∧
  (matchesStateFilter s TorrentFilterCompleted = true →
     tr_Status tr = 5%Z ∨ tr_Status tr = 6%Z ∨ complete tr progress = true) ∧
  (matchesStateFilter s TorrentFilterError = true ↔ tr_Error tr ≠ 0%Z) ∧
  matchesStateFilter s TorrentFilterAll = true.
Proof.
  cbv zeta. unfold toState. destruct (bool_decide (tr_Error tr = 0%Z)) eqn:E; bool_hyps; cbn [negb].
  2:{ split_and!; vm_compute; naive_solver. }
  destruct (tr_Status tr) as [|[[[?|?|]|[?|?|]|]|[[?|?|]|[?|?|]|]|]|?];
    try destruct (complete tr progress); try destruct (tr_IsStalled tr); split_and!; vm_compute; naive_solver.
Qed.

(** No state is listed under these two filters, not even the checking ones. *)
Example checking_matches_nothing :
  matchesStateFilter TorrentStateCheckingUp TorrentFilterChecking = false ∧
  matchesStateFilter TorrentStateCheckingDl TorrentFilterChecking = false ∧
  matchesStateFilter TorrentStateMoving TorrentFilterMoving = false.
Proof. done. Qed.

(** The peers that download from us are counted as seeds, and those that send to
    us as leechers. *)
Example peer_counts_swapped `{!UnicodeCase} (tr : trTorrent) :
  t_NumSeeds (toQBT tr) = tr_PeersGettingFromUs tr ∧ t_NumLeechs (toQBT tr) = tr_PeersSendingToUs tr.
Proof. done. Qed.
