(* ===== verification/TransmissionClient.v ===== *)
(** * [internal/transmissionqbt/methods.go]: the operations of the client

    Every operation is a program over one effect, a call of Transmission's RPC
    service ([rpcCall]): a method and its arguments under their snake-case names,
    answered by a decoded payload or an error.  The service is the interface
    [RpcService]; [TransmissionHttp.v] implements it over HTTP, and
    [Daemon] of [TransmissionSpec.v] states what the client relies on of a daemon. *)

From Stdlib Require Import ZArith Lia Ascii SpecFloat.
From stdpp Require Import base numbers list strings gmap pretty.
From S2P Require Import Prelude.
From S2P Require Import GoStrings.
From S2P Require Import GoPath.
From S2P Require Import GoFloat.
From S2P Require Import Domain.
From S2P Require Import TransmissionRpc.
From S2P Require Import TorrentFilter.
From S2P Require Import TransmissionTorrent.

Open Scope qui_scope.

(** ** The RPC service *)

(** A payload as it is decoded into the structs that the operations pass:
    the torrents of [torrent_get], the session, the counters, what
    [torrent_add] created, and the free space. *)
Record trStatsGroup := MkStatsGroup {
  sg_UploadedBytes : Z; sg_DownloadedBytes : Z; sg_FilesAdded : Z; sg_SecondsActive : Z; sg_SessionCount : Z }.
Record trStats := MkStats {
  st_ActiveTorrentCount : Z; st_PausedTorrentCount : Z; st_TorrentCount : Z; st_DownloadSpeed : Z; st_UploadSpeed : Z;
  st_CumulativeStats : trStatsGroup; st_CurrentStats : trStatsGroup }.
Record Reply := MkReply {
  rp_torrents : list trTorrent; rp_session : trSession; rp_stats : trStats;
  rp_added : option trTorrent; rp_duplicate : option trTorrent; rp_free : Z }.

Definition zero_group : trStatsGroup := MkStatsGroup 0 0 0 0 0.
Definition empty_reply : Reply := MkReply [] zero_session (MkStats 0 0 0 0 0 zero_group zero_group) None None 0.

Abbreviation Params := (gmap string any).

(** The flag says whether the caller wants the payload: without it the payload is
    not decoded. *)
Class RpcService (D : Type) := rpcCall : bool → string → Params → D → result Reply * D.

(** Programs that call the service: a result or an error, and the service's
    next state. *)
Definition Cl (D A : Type) : Type := D → result A * D.

Definition cl_ret {D A} (a : A) : Cl D A := λ d, (Ok a, d).
Definition cl_err {D A} (e : string) : Cl D A := λ d, (Err e, d).
Definition cl_bind {D A B} (m : Cl D A) (k : A → Cl D B) : Cl D B :=
  λ d, match m d with
       | (Ok a, d) => k a d
       | (Err e, d) => (Err e, d)
       end.

Notation "'call!' x ':=' m 'in' k" := (cl_bind m (λ x, k))
  (at level 10, x pattern, m at level 100, k at level 200, format "'call!'  x  ':='  m  'in' '//' k") : qui_scope.

Lemma cl_bind_ok {D A B} (m : Cl D A) (k : A → Cl D B) d d' b :
  cl_bind m k d = (Ok b, d') ↔ ∃ a d1, m d = (Ok a, d1) ∧ k a d1 = (Ok b, d').
Proof.
  unfold cl_bind. split.
  - destruct (m d) as [[a|e] d1]; [eauto|done].
  - by intros (a & d1 & -> & ?).
Qed.

(** A loop that stops at the first error. *)
Fixpoint cl_iter {D A} (f : A → Cl D unit) (l : list A) : Cl D unit :=
  match l with
  | [] => cl_ret tt
  | x :: l => call! _ := f x in cl_iter f l
  end.

(** [errors.Wrap] of a third-party package. *)
Class ErrorText := { Wrap : string → string → string }.

(** The instance the concrete runs use: the message, then the cause. *)
Definition PlainErrors : ErrorText := {| Wrap e message := message +++ ": " +++ e |}.

Definition ErrTorrentNotFound : string := "torrent not found".
Definition ErrInvalidPriority : string := "priority is invalid or at least one id is not an integer".
Definition ErrReannounceTookTooLong : string := "reannounce took too long, deleted torrent".
Definition ErrUnsupportedVersion : string := "feature is not supported by Transmission RPC".

Section operations.
Context {D : Type} `{!UnicodeCase, !ErrorText, !RpcService D}.

Definition unsupported {A} (feature : string) : Cl D A :=
  cl_err (Wrap ErrUnsupportedVersion (feature +++ " is not supported by Transmission RPC")).

(** [rpcCall] with [nil] for [out]. *)
Definition rpc_do (method : string) (params : Params) : Cl D unit :=
  call! _ := rpcCall false method params in cl_ret tt.

Definition idsParam (hashes : list string) : Params := {[ "ids"%string := VStrs hashes ]}.

(** *** Session *)

Definition getSession (fields : list string) : Cl D trSession :=
  let fields := match fields with [] => session_fields | _ => fields end in
  call! reply := rpcCall true "session_get" {[ "fields"%string := VStrs fields ]} in cl_ret (rp_session reply).

Definition LoginCtx : Cl D unit := λ d,
  match rpcCall true "session_get" {[ "fields"%string := VStrs ["version"; "rpc_version_semver"; "rpc_version"; "download_dir"]%string ]} d with
  | (Ok _, d) => (Ok tt, d)
  | (Err e, d) => (Err (Wrap e "failed to connect to Transmission instance"), d)
  end.

Definition ShutdownCtx : Cl D unit := rpc_do "session_close" ∅.

Definition GetAppPreferencesCtx : Cl D AppPreferences :=
  call! session := getSession [] in cl_ret (sessionToPreferences session).

Definition GetDefaultSavePathCtx : Cl D string :=
  call! session := getSession ["download_dir"]%string in cl_ret (se_DownloadDir session).

Definition GetAppVersionCtx : Cl D string :=
  call! session := getSession ["version"]%string in cl_ret (se_Version session).

(** What one preference adds to the arguments of [session_set]. *)
Definition preference_step (params : Params) (kv : string * any) : Params :=
  let value := kv.2 in
  let put (k : string) (v : any) := <[k := v]> params in
  let limit := int64Value value in
  let on name := bool_decide (kv.1 = name%string) in
  if on "save_path" then put "download_dir" value
  else if on "temp_path" then put "incomplete_dir" value
  else if on "temp_path_enabled" then put "incomplete_dir_enabled" value
  else if on "queueing_enabled" then
    <["seed_queue_enabled"%string := VBool (truthy value)]> (put "download_queue_enabled" (VBool (truthy value)))
  else if on "max_active_downloads" then put "download_queue_size" (VInt (intValue value))
  else if on "max_active_uploads" then put "seed_queue_size" (VInt (intValue value))
  else if on "dl_limit" then
    <["speed_limit_down_enabled"%string := VBool (bool_decide (0 < limit)%Z)]> (put "speed_limit_down" (VInt (bytesToKB limit)))
  else if on "up_limit" then
    <["speed_limit_up_enabled"%string := VBool (bool_decide (0 < limit)%Z)]> (put "speed_limit_up" (VInt (bytesToKB limit)))
  else if on "alt_dl_limit" then put "alt_speed_down" (VInt (int64Value value))
  else if on "alt_up_limit" then put "alt_speed_up" (VInt (int64Value value))
  else if on "scheduler_enabled" then put "alt_speed_enabled" (VBool (truthy value))
  else if on "listen_port" then put "peer_port" (VInt (intValue value))
  else if on "max_connec" then put "peer_limit_global" (VInt (intValue value))
  else if on "max_connec_per_torrent" then put "peer_limit_per_torrent" (VInt (intValue value))
  else if on "pex" then put "pex_enabled" (VBool (truthy value))
  else if on "dht" then put "dht_enabled" (VBool (truthy value))
  else if on "lsd" then put "lpd_enabled" (VBool (truthy value))
  else if on "upnp" then put "port_forwarding_enabled" (VBool (truthy value))
  else if on "incomplete_files_ext" then put "rename_partial_files" (VBool (truthy value))
  else if on "start_paused_enabled" then put "start_added_torrents" (VBool (negb (truthy value)))
  else if on "max_ratio" then put "seed_ratio_limit" (VFloat (floatValue value))
  else if on "max_ratio_enabled" then put "seed_ratio_limited" (VBool (truthy value))
  else if on "max_seeding_time" then put "idle_seeding_limit" (VInt (intValue value))
  else if on "max_seeding_time_enabled" then put "idle_seeding_limit_enabled" (VBool (truthy value))
  else if on "autorun_on_torrent_added_enabled" then put "script_torrent_added_enabled" (VBool (truthy value))
  else if on "autorun_on_torrent_added_program" then put "script_torrent_added_filename" value
  else if on "ip_filter_enabled" then put "blocklist_enabled" (VBool (truthy value))
  else if on "ip_filter_path" then put "blocklist_url" value
  else params.

Definition preference_params (prefs : list (string * any)) : Params := foldl preference_step ∅ prefs.

Definition SetPreferencesCtx (r : MapRange) (prefs : gmap string any) : Cl D unit :=
  let params := preference_params (range r 0 prefs) in
  if bool_decide (params = ∅) then cl_ret tt else rpc_do "session_set" params.

Definition SetPreferencesQueueingEnabled (r : MapRange) (enabled : bool) : Cl D unit :=
  SetPreferencesCtx r {[ "queueing_enabled"%string := VBool enabled ]}.
Definition SetPreferencesMaxActiveDownloads (r : MapRange) (max : Z) : Cl D unit :=
  SetPreferencesCtx r {[ "max_active_downloads"%string := VInt max ]}.
Definition SetPreferencesMaxActiveTorrents (r : MapRange) (maxActive : Z) : Cl D unit :=
  let half := Z.quot maxActive 2 in
  SetPreferencesCtx r (<["max_active_downloads"%string := VInt half]> {[ "max_active_uploads"%string := VInt (i64 (maxActive - half)) ]}).
Definition SetPreferencesMaxActiveUploads (r : MapRange) (maxUploads : Z) : Cl D unit :=
  SetPreferencesCtx r {[ "max_active_uploads"%string := VInt maxUploads ]}.

Definition GetAlternativeSpeedLimitsModeCtx : Cl D bool :=
  call! session := getSession ["alt_speed_enabled"]%string in cl_ret (se_AltSpeedEnabled session).

Definition ToggleAlternativeSpeedLimitsCtx : Cl D unit :=
  call! enabled := GetAlternativeSpeedLimitsModeCtx in
  rpc_do "session_set" {[ "alt_speed_enabled"%string := VBool (negb enabled) ]}.

Definition SetGlobalDownloadLimitCtx (limit : Z) : Cl D unit :=
  rpc_do "session_set" (<["speed_limit_down"%string := VInt (bytesToKB limit)]>
                        {[ "speed_limit_down_enabled"%string := VBool (bool_decide (0 < limit)%Z) ]}).
Definition GetGlobalDownloadLimitCtx : Cl D Z :=
  call! session := getSession ["speed_limit_down"; "speed_limit_down_enabled"]%string in
  cl_ret (kbToBytes (se_SpeedLimitDown session) (se_SpeedLimitDownEnabled session)).
Definition SetGlobalUploadLimitCtx (limit : Z) : Cl D unit :=
  rpc_do "session_set" (<["speed_limit_up"%string := VInt (bytesToKB limit)]>
                        {[ "speed_limit_up_enabled"%string := VBool (bool_decide (0 < limit)%Z) ]}).
Definition GetGlobalUploadLimitCtx : Cl D Z :=
  call! session := getSession ["speed_limit_up"; "speed_limit_up_enabled"]%string in
  cl_ret (kbToBytes (se_SpeedLimitUp session) (se_SpeedLimitUpEnabled session)).

Definition GetWebAPIVersionCtx : Cl D string :=
  call! session := getSession ["rpc_version_semver"; "rpc_version"]%string in
  cl_ret (if negb (bool_decide (se_RPCVersionSemver session = "")) then se_RPCVersionSemver session
          else if (0 <? se_RPCVersion session)%Z then pretty (se_RPCVersion session) +++ ".0.0"
          else "6.0.0").

Definition GetFreeSpaceOnDiskCtx : Cl D Z :=
  call! session := getSession ["download_dir"]%string in λ d,
  match rpcCall true "free_space" {[ "path"%string := VStr (se_DownloadDir session) ]} d with
  | (Ok reply, d) => (Ok (rp_free reply), d)
  | (Err _, d) => (Ok 0%Z, d)
  end.

(** *** Listing torrents *)

Definition GetTorrentsCtx (o : TorrentFilterOptions) : Cl D (list Torrent) := λ d,
  let params : Params := {[ "fields"%string := VStrs torrentFields ]} in
  let params := if bool_decide (fo_Hashes o = []) then params else <["ids"%string := VStrs (fo_Hashes o)]> params in
  match rpcCall true "torrent_get" params d with
  | (Err e, d) => (Err (Wrap e "get torrents error"), d)
  | (Ok reply, d) =>
    let torrents := filter (λ t, matchesTorrentFilter t o = true) (toQBT <$> rp_torrents reply) in
    match applyTorrentFilterOptions torrents o with
    | Some torrents => (Ok torrents, d)
    | None => (Err "panic", d)
    end
  end.

Definition GetTorrentsActiveDownloadsCtx : Cl D (list Torrent) :=
  GetTorrentsCtx (MkFilter TorrentFilterDownloading "" "" "" false 0 0 [] false).

Definition fetchTRTorrents (hashes : list string) (fields : list string) : Cl D (list trTorrent) :=
  let params : Params := {[ "fields"%string := VStrs fields ]} in
  let params := if bool_decide (hashes = []) then params else <["ids"%string := VStrs hashes]> params in
  call! reply := rpcCall true "torrent_get" params in cl_ret (rp_torrents reply).

(** The first torrent of the answer to a query for one hash. *)
Definition fetch_one (hash : string) (fields : list string) : Cl D trTorrent :=
  call! torrents := fetchTRTorrents [hash] fields in
  match torrents with
  | [] => cl_err ErrTorrentNotFound
  | tr :: _ => cl_ret tr
  end.

Definition GetTorrentTrackersCtx (hash : string) : Cl D (list TorrentTracker) :=
  call! tr := fetch_one hash ["hash_string"; "trackers"; "tracker_stats"]%string in cl_ret (toTrackers tr).

Definition GetFilesInformationCtx (hash : string) : Cl D (list QbtFile) :=
  call! tr := fetch_one hash ["hash_string"; "files"; "file_stats"; "priorities"; "wanted"]%string in
  cl_ret (transmissionFilesToQBT tr).

Definition GetTorrentsWebSeedsCtx (hash : string) : Cl D (list string) :=
  call! tr := fetch_one hash ["hash_string"; "webseeds"; "webseeds_ex"]%string in
  cl_ret (tr_WebSeedsEx tr ++ tr_WebSeeds tr).

(** [b64] is [base64.StdEncoding.DecodeString], [None] on an error. *)
Definition GetTorrentPieceStatesCtx (b64 : string → option bytes) (hash : string) : Cl D (list Z) :=
  call! tr := fetch_one hash ["hash_string"; "pieces"; "piece_count"]%string in
  match b64 (tr_Pieces tr) with
  | None => cl_err "illegal base64 data"
  | Some pieces =>
    match piece_states pieces (tr_PieceCount tr) with
    | Some states => cl_ret states
    | None => cl_err "panic"
    end
  end.

(** *** Starting, stopping, removing *)

Definition PauseCtx (hashes : list string) : Cl D unit := rpc_do "torrent_stop" (idsParam hashes).
Definition StopCtx (hashes : list string) : Cl D unit := PauseCtx hashes.
Definition ResumeCtx (hashes : list string) : Cl D unit := rpc_do "torrent_start" (idsParam hashes).
Definition StartCtx (hashes : list string) : Cl D unit := ResumeCtx hashes.
Definition SetForceStartCtx (hashes : list string) (value : bool) : Cl D unit :=
  rpc_do (if value then "torrent_start_now" else "torrent_start") (idsParam hashes).
Definition RecheckCtx (hashes : list string) : Cl D unit := rpc_do "torrent_verify" (idsParam hashes).
Definition ReAnnounceTorrentsCtx (hashes : list string) : Cl D unit := rpc_do "torrent_reannounce" (idsParam hashes).
Definition DeleteTorrentsCtx (hashes : list string) (deleteFiles : bool) : Cl D unit :=
  rpc_do "torrent_remove" (<["ids"%string := VStrs hashes]> {[ "delete_local_data"%string := VBool deleteFiles ]}).
Definition SetAutoManagementCtx (hashes : list string) (enable : bool) : Cl D unit := cl_ret tt.
Definition SetLocationCtx (hashes : list string) (location : string) : Cl D unit :=
  rpc_do "torrent_set_location"
    (<["ids"%string := VStrs hashes]> (<["location"%string := VStr location]> {[ "move"%string := VBool true ]})).

Definition SetMaxPriorityCtx (hashes : list string) : Cl D unit := rpc_do "queue_move_top" (idsParam hashes).
Definition SetMinPriorityCtx (hashes : list string) : Cl D unit := rpc_do "queue_move_bottom" (idsParam hashes).
Definition DecreasePriorityCtx (hashes : list string) : Cl D unit := rpc_do "queue_move_down" (idsParam hashes).
Definition IncreasePriorityCtx (hashes : list string) : Cl D unit := rpc_do "queue_move_up" (idsParam hashes).

(** *** Adding torrents *)

Definition add_step (params : Params) (kv : string * string) : Params :=
  let value := VStr kv.2 in
  let limit := int64Value value in
  let on name := bool_decide (kv.1 = name%string) in
  if on "savepath" then <["download_dir"%string := value]> params
  else if on "category" then <["group"%string := value]> params
  else if on "tags" then <["labels"%string := VStrs (splitCSV kv.2)]> params
  else if on "paused" || on "stopped" then
    if truthy value then <["paused"%string := VBool true]> params else params
  else if on "skip_checking" then <["paused"%string := VBool (truthy value)]> params
  else if on "upLimit" then
    if (0 <? limit)%Z then <["upload_limit"%string := VInt (bytesToKB limit)]> params else params
  else if on "dlLimit" then
    if (0 <? limit)%Z then <["download_limit"%string := VInt (bytesToKB limit)]> params else params
  else if on "ratioLimit" then
    <["seed_ratio_mode"%string := VInt 1]> (<["seed_ratio_limit"%string := VFloat (floatValue value)]> params)
  else if on "seedingTimeLimit" then
    <["seed_idle_mode"%string := VInt 1]> (<["seed_idle_limit"%string := VInt (intValue value)]> params)
  else if on "sequentialDownload" then <["sequential_download"%string := VBool (truthy value)]> params
  else params.

Definition addParamsFromOptions (r : MapRange) (options : gmap string string) : Params :=
  foldl add_step ∅ (range r 1 options).

Record AddResponse := MkAdd { ar_Success : Z; ar_Pending : Z; ar_Failure : Z; ar_Ids : list string }.

Definition addTorrent (params : Params) : Cl D AddResponse := λ d,
  match rpcCall true "torrent_add" params d with
  | (Err e, d) => (Err (Wrap e "could not add torrent"), d)
  | (Ok reply, d) =>
    (Ok match rp_added reply, rp_duplicate reply with
        | Some tr, _ => MkAdd 1 0 0 [ToUpper (tr_HashString tr)]
        | None, Some tr => MkAdd 0 1 0 [ToUpper (tr_HashString tr)]
        | None, None => MkAdd 1 0 0 []
        end, d)
  end.

(** [b64] is [base64.StdEncoding.EncodeToString]. *)
Definition AddTorrentFromMemoryCtx (r : MapRange) (b64 : bytes → string) (buf : bytes) (options : gmap string string) :
    Cl D AddResponse :=
  addTorrent (<["metainfo"%string := VStr (b64 buf)]> (addParamsFromOptions r options)).
Definition AddTorrentFromUrlCtx (r : MapRange) (rawURL : string) (options : gmap string string) : Cl D AddResponse :=
  addTorrent (<["filename"%string := VStr rawURL]> (addParamsFromOptions r options)).

(** One after the other; an error counts as a failure and the loop goes on. *)
Fixpoint add_each {A} (add : A → Cl D AddResponse) (l : list A) (response : AddResponse) : Cl D AddResponse := λ d,
  match l with
  | [] => (Ok response, d)
  | x :: l =>
    match add x d with
    | (Err _, d) => add_each add l (MkAdd (ar_Success response) (ar_Pending response) (ar_Failure response + 1) (ar_Ids response)) d
    | (Ok added, d) =>
      add_each add l (MkAdd (ar_Success response + ar_Success added) (ar_Pending response + ar_Pending added)
                            (ar_Failure response + ar_Failure added) (ar_Ids response ++ ar_Ids added)) d
    end
  end.
Definition AddTorrentsFromMemoryCtx r b64 (files : list bytes) (options : gmap string string) : Cl D AddResponse :=
  add_each (λ file, AddTorrentFromMemoryCtx r b64 file options) files (MkAdd 0 0 0 []).
Definition AddTorrentsFromUrlsCtx r (urls : list string) (options : gmap string string) : Cl D AddResponse :=
  add_each (λ url, AddTorrentFromUrlCtx r url options) urls (MkAdd 0 0 0 []).

(** *** Categories *)

Definition SetCategoryCtx (hashes : list string) (category : string) : Cl D unit :=
  rpc_do "torrent_set" (<["ids"%string := VStrs hashes]> {[ "group"%string := VStr category ]}).
Definition SetCommentCtx (hashes : list string) (comment : string) : Cl D unit :=
  rpc_do "torrent_set" (<["ids"%string := VStrs hashes]> {[ "comment"%string := VStr comment ]}).
Definition CreateCategoryCtx (category categoryPath : string) : Cl D unit :=
  rpc_do "group_set" {[ "name"%string := VStr category ]}.
Definition EditCategoryCtx (category categoryPath : string) : Cl D unit :=
  rpc_do "group_set" {[ "name"%string := VStr category ]}.

Definition RemoveCategoriesCtx (categories : list string) : Cl D unit :=
  call! torrents := GetTorrentsCtx no_filter in
  let hashes := t_Hash <$> filter (λ t, t_Category t ∈ categories) torrents in
  if bool_decide (hashes = []) then cl_ret tt else SetCategoryCtx hashes "".

(** The categories are those of the torrents; the last torrent of a category
    gives its path. *)
Definition torrent_categories (torrents : list Torrent) : gmap string (string * string) :=
  foldl (λ m t, if bool_decide (t_Category t = "") then m else <[t_Category t := (t_Category t, t_SavePath t)]> m) ∅ torrents.

Definition GetCategoriesCtx : Cl D (gmap string (string * string)) :=
  call! torrents := GetTorrentsCtx no_filter in cl_ret (torrent_categories torrents).

(** *** Tags *)

Definition torrent_tags (torrents : list Torrent) : gset string :=
  foldl (λ set t, set ∪ list_to_set (splitCSV (t_Tags t))) ∅ torrents.

Definition GetTagsCtx : Cl D (list string) :=
  call! torrents := GetTorrentsCtx no_filter in cl_ret (sort_strings (elements (torrent_tags torrents))).

Definition labelMap (hashes : list string) : Cl D (gmap string (list string)) :=
  call! torrents := fetchTRTorrents hashes ["hash_string"; "labels"]%string in
  cl_ret (foldl (λ m t, <[ToUpper (tr_HashString t) := tr_Labels t]> m) ∅ torrents).

Definition setLabels (hashes labels : list string) : Cl D unit :=
  rpc_do "torrent_set" (<["ids"%string := VStrs hashes]> {[ "labels"%string := VStrs (removeDuplicateStrings labels) ]}).

Definition CreateTagsCtx (tags : list string) : Cl D unit := cl_ret tt.

Definition AddTagsCtx (hashes : list string) (tags : string) : Cl D unit :=
  call! current := labelMap hashes in
  cl_iter (λ hash, setLabels [hash] (default [] (current !! ToUpper hash) ++ splitCSV tags)) hashes.

Definition SetTags (hashes : list string) (tags : string) : Cl D unit := setLabels hashes (splitCSV tags).

Definition RemoveTagsCtx (hashes : list string) (tags : string) : Cl D unit :=
  call! current := labelMap hashes in
  cl_iter (λ hash, setLabels [hash] (filter (λ label, label ∉ splitCSV tags) (default [] (current !! ToUpper hash)))) hashes.

Definition DeleteTagsCtx (tags : list string) : Cl D unit :=
  call! torrents := GetTorrentsCtx no_filter in
  RemoveTagsCtx (t_Hash <$> torrents) (Join tags ",").

(** *** Trackers *)

Definition trackerURLs (torrent : trTorrent) : list string :=
  if negb (bool_decide (TrimSpace (tr_TrackerList torrent) = "")) then Fields (tr_TrackerList torrent)
  else filter (λ u, u ≠ "") (trt_Announce <$> tr_Trackers torrent).

Definition newline : string := String "010"%char EmptyString.

Definition updateTrackerList (hash : string) (update : list string → list string) : Cl D unit :=
  call! tr := fetch_one hash ["hash_string"; "tracker_list"; "trackers"]%string in
  rpc_do "torrent_set" (<["ids"%string := VStrs [hash]]>
    {[ "tracker_list"%string := VStr (Join (update (trackerURLs tr)) newline) ]}).

Definition RemoveTrackersCtx (hash urls : string) : Cl D unit :=
  updateTrackerList hash (λ existing, filter (λ u, u ∉ Fields urls) existing).
Definition EditTrackerCtx (hash old new : string) : Cl D unit :=
  updateTrackerList hash (λ existing, (λ u, if bool_decide (u = old) then new else u) <$> existing).
Definition AddTrackersCtx (hash urls : string) : Cl D unit :=
  updateTrackerList hash (λ existing,
    removeDuplicateStrings (existing ++ filter (λ u, u ≠ "") (TrimSpace <$> Fields urls))).

(** *** Files *)

(** The arguments for a priority: the list of files and how they are set. *)
Definition priority_params (ids : list Z) (priority : Z) : Params :=
  if (priority <=? 0)%Z then {[ "files_unwanted"%string := VInts ids ]}
  else <["files_wanted"%string := VInts ids]>
    {[ (if (priority <=? 1)%Z then "priority_low" else if (6 <=? priority)%Z then "priority_high" else "priority_normal")%string
       := VInts ids ]}.

Definition SetFilePriorityCtx (hash IDs : string) (priority : Z) : Cl D unit :=
  match parseFileIDs IDs with
  | None => cl_err ErrInvalidPriority
  | Some ids => rpc_do "torrent_set" (<["ids"%string := VStrs [hash]]> (priority_params ids priority))
  end.

Definition RenameFileCtx (hash oldPath newPath : string) : Cl D unit :=
  rpc_do "torrent_rename_path" (<["ids"%string := VStrs [hash]]>
    (<["path"%string := VStr oldPath]> {[ "name"%string := VStr (Base newPath) ]})).
Definition RenameFolderCtx (hash oldPath newPath : string) : Cl D unit := RenameFileCtx hash oldPath newPath.

Definition SetTorrentNameCtx (hash name : string) : Cl D unit :=
  call! tr := fetch_one hash ["hash_string"; "name"]%string in
  rpc_do "torrent_rename_path" (<["ids"%string := VStrs [hash]]>
    (<["path"%string := VStr (tr_Name tr)]> {[ "name"%string := VStr name ]})).

(** *** Limits of a torrent *)

Definition limit_map (f : trTorrent → Z) (torrents : list trTorrent) : gmap string Z :=
  foldl (λ m t, <[ToUpper (tr_HashString t) := f t]> m) ∅ torrents.

Definition GetTorrentUploadLimitCtx (hashes : list string) : Cl D (gmap string Z) :=
  call! torrents := fetchTRTorrents hashes ["hash_string"; "upload_limit"; "upload_limited"]%string in
  cl_ret (limit_map (λ t, kbToBytes (tr_UploadLimit t) (tr_UploadLimited t)) torrents).
Definition GetTorrentDownloadLimitCtx (hashes : list string) : Cl D (gmap string Z) :=
  call! torrents := fetchTRTorrents hashes ["hash_string"; "download_limit"; "download_limited"]%string in
  cl_ret (limit_map (λ t, kbToBytes (tr_DownloadLimit t) (tr_DownloadLimited t)) torrents).

Definition SetTorrentDownloadLimitCtx (hashes : list string) (limit : Z) : Cl D unit :=
  rpc_do "torrent_set" (<["ids"%string := VStrs hashes]> (<["download_limit"%string := VInt (bytesToKB limit)]>
    {[ "download_limited"%string := VBool (bool_decide (0 < limit)%Z) ]})).
Definition SetTorrentUploadLimitCtx (hashes : list string) (limit : Z) : Cl D unit :=
  rpc_do "torrent_set" (<["ids"%string := VStrs hashes]> (<["upload_limit"%string := VInt (bytesToKB limit)]>
    {[ "upload_limited"%string := VBool (bool_decide (0 < limit)%Z) ]})).

Definition ToggleTorrentSequentialDownloadCtx (hashes : list string) : Cl D unit :=
  call! torrents := fetchTRTorrents hashes ["hash_string"; "sequential_download"]%string in
  cl_iter (λ tr, rpc_do "torrent_set" (<["ids"%string := VStrs [tr_HashString tr]]>
    {[ "sequential_download"%string := VBool (negb (tr_SequentialDownload tr)) ]})) torrents.

Record ShareLimitOptions := MkShare {
  sl_RatioLimit : float64; sl_SeedingTimeLimit : Z; sl_InactiveSeedingTimeLimit : Z; sl_Action : string; sl_Mode : string }.

Definition SetTorrentShareLimitCtx (hashes : list string) (opts : ShareLimitOptions) : Cl D unit :=
  let params : Params := {[ "ids"%string := VStrs hashes ]} in
  let params :=
    if f64_leb f64_zero (sl_RatioLimit opts)
    then <["seed_ratio_mode"%string := VInt 1]> (<["seed_ratio_limit"%string := VFloat (sl_RatioLimit opts)]> params) else params in
  let params :=
    if (0 <=? sl_SeedingTimeLimit opts)%Z
    then <["seed_idle_mode"%string := VInt 1]> (<["seed_idle_limit"%string := VInt (sl_SeedingTimeLimit opts)]> params) else params in
  rpc_do "torrent_set" params.

(** *** Reannouncing until a tracker answers *)

Definition unregistered_words : list string := ["unregistered"; "not registered"; "not found"; "not exist"]%string.
Definition isUnregistered (msg : string) : bool := existsb (Contains (ToLower msg)) unregistered_words.
Definition isTrackerStatusOK (trackers : list TorrentTracker) : bool :=
  existsb (λ t, bool_decide (tt_Status t = TrackerStatusOK) && negb (isUnregistered (tt_Message t))) trackers.

Definition ReannounceMaxAttempts : Z := 50.
Record ReannounceOptions := MkReannounce { ro_Interval : Z; ro_MaxAttempts : Z; ro_DeleteOnFailure : bool }.

(** The attempts: [None] when all of them passed without a working tracker.  The
    sleep between the announce and the look at the trackers is left out. *)
Fixpoint reannounce_attempts (n : nat) (hash : string) : Cl D (option unit) :=
  match n with
  | O => cl_ret None
  | S n =>
    call! _ := ReAnnounceTorrentsCtx [hash] in λ d,
    match GetTorrentTrackersCtx hash d with
    | (Ok trackers, d) => if isTrackerStatusOK trackers then (Ok (Some tt), d) else reannounce_attempts n hash d
    | (Err _, d) => reannounce_attempts n hash d
    end
  end.

Definition max_attempts (opts : option ReannounceOptions) : Z :=
  match opts with
  | Some o => if (0 <? ro_MaxAttempts o)%Z then ro_MaxAttempts o else ReannounceMaxAttempts
  | None => ReannounceMaxAttempts
  end.
Definition deletes_on_failure (opts : option ReannounceOptions) : bool :=
  match opts with Some o => ro_DeleteOnFailure o | None => false end.

Definition ReannounceTorrentWithRetry (hash : string) (opts : option ReannounceOptions) : Cl D unit :=
  call! ok := reannounce_attempts (Z.to_nat (max_attempts opts)) hash in λ d,
  match ok with
  | Some _ => (Ok tt, d)
  | None => if deletes_on_failure opts then (Err ErrReannounceTookTooLong, (DeleteTorrentsCtx [hash] false d).2) else (Ok tt, d)
  end.

(** *** The main data of a sync *)

(** The fields of [ServerState] that are filled in. *)
Record ServerState := MkServerState {
  ss_AlltimeDl : Z; ss_AlltimeUl : Z; ss_ConnectionStatus : string; ss_DlInfoData : Z; ss_DlInfoSpeed : Z; ss_DlRateLimit : Z;
  ss_FreeSpaceOnDisk : Z; ss_Queueing : bool; ss_RefreshInterval : Z; ss_UpInfoData : Z; ss_UpInfoSpeed : Z; ss_UpRateLimit : Z }.

Definition serverState : Cl D ServerState :=
  call! reply := rpcCall true "session_stats" ∅ in
  let stats := rp_stats reply in
  call! session := getSession ["speed_limit_down"; "speed_limit_down_enabled"; "speed_limit_up"; "speed_limit_up_enabled"]%string in λ d,
  let '(free, d) := match GetFreeSpaceOnDiskCtx d with (Ok free, d) => (free, d) | (Err _, d) => (0%Z, d) end in
  (Ok {| ss_AlltimeDl := sg_DownloadedBytes (st_CumulativeStats stats);
         ss_AlltimeUl := sg_UploadedBytes (st_CumulativeStats stats);
         ss_ConnectionStatus := "connected";
         ss_DlInfoData := sg_DownloadedBytes (st_CurrentStats stats);
         ss_DlInfoSpeed := st_DownloadSpeed stats;
         ss_DlRateLimit := kbToBytes (se_SpeedLimitDown session) (se_SpeedLimitDownEnabled session);
         ss_FreeSpaceOnDisk := free;
         ss_Queueing := true;
         ss_RefreshInterval := 1500;
         ss_UpInfoData := sg_UploadedBytes (st_CurrentStats stats);
         ss_UpInfoSpeed := st_UploadSpeed stats;
         ss_UpRateLimit := kbToBytes (se_SpeedLimitUp session) (se_SpeedLimitUpEnabled session) |}, d).

Record MainData := MkMainData {
  md_Rid : Z; md_FullUpdate : bool; md_Torrents : gmap string Torrent; md_Categories : gmap string (string * string);
  md_Tags : list string; md_Trackers : gmap string (list string); md_ServerState : option ServerState }.

Definition torrent_map (torrents : list Torrent) : gmap string Torrent :=
  foldl (λ m t, <[t_Hash t := t]> m) ∅ torrents.
Definition tracker_map (torrents : list Torrent) : gmap string (list string) :=
  foldl (λ m t, if bool_decide (t_Tracker t = "") then m
                else <[t_Tracker t := default [] (m !! t_Tracker t) ++ [t_Hash t]]> m) ∅ torrents.

(** [now] is [time.Now().UnixNano()]. *)
Definition SyncMainDataCtxWithRaw (now : Z) : Cl D MainData :=
  call! torrents := GetTorrentsCtx no_filter in
  call! state := serverState in
  cl_ret {| md_Rid := now; md_FullUpdate := true; md_Torrents := torrent_map torrents;
            md_Categories := torrent_categories torrents;
            md_Tags := sort_strings (elements (torrent_tags torrents));
            md_Trackers := tracker_map torrents; md_ServerState := Some state |}.
End operations.
