(* ===== verification/TransmissionSpec.v ===== *)
(** * What the client makes of a Transmission daemon

    The interface [Daemon] states what the client relies on of Transmission's
    documented RPC methods [torrent_get] and [torrent_set], as an abstract view
    of the torrents' labels, groups and limits.  Against it the qBittorrent
    operations of [TransmissionClient.v] refine updates of that view. *)

From Stdlib Require Import ZArith Lia Ascii SpecFloat.
From stdpp Require Import base numbers list strings gmap.
From S2P Require Import Prelude.
From S2P Require Import GoStrings.
From S2P Require Import GoFloat.
From S2P Require Import Domain.
From S2P Require Import TransmissionRpc.
From S2P Require Import TorrentFilter.
From S2P Require Import TransmissionTorrent.
From S2P Require Import TransmissionClient.

Open Scope qui_scope.

(** ** The view of a daemon *)

(** The attributes of a torrent that the operations below change: a limit is the
    pair of its value in kB/s and whether it applies. *)
Record attrs := MkAttrs { at_labels : list string; at_group : string; at_down : Z * bool; at_up : Z * bool }.

#[export] Instance attrs_eq_dec : EqDecision attrs.
Proof. solve_decision. Defined.

Definition with_labels (l : list string) (a : attrs) : attrs := MkAttrs l (at_group a) (at_down a) (at_up a).
Definition with_group (g : string) (a : attrs) : attrs := MkAttrs (at_labels a) g (at_down a) (at_up a).

(** A torrent of an answer has the attributes that were asked for. *)
Definition agrees (fields : list string) (t : trTorrent) (a : attrs) : Prop :=
  ("labels"%string ∈ fields → tr_Labels t = at_labels a) ∧
  ("group"%string ∈ fields → tr_Group t = at_group a) ∧
  ("download_limit"%string ∈ fields → tr_DownloadLimit t = (at_down a).1) ∧
  ("download_limited"%string ∈ fields → tr_DownloadLimited t = (at_down a).2) ∧
  ("upload_limit"%string ∈ fields → tr_UploadLimit t = (at_up a).1) ∧
  ("upload_limited"%string ∈ fields → tr_UploadLimited t = (at_up a).2).

(** The arguments of [torrent_set]. *)
Definition arg_strs (params : Params) (key : string) (d : list string) : list string :=
  match params !! key with Some (VStrs l) => l | _ => d end.
Definition arg_str (params : Params) (key d : string) : string :=
  match params !! key with Some (VStr s) => s | _ => d end.
Definition arg_int (params : Params) (key : string) (d : Z) : Z :=
  match params !! key with Some (VInt z) => z | _ => d end.
Definition arg_bool (params : Params) (key : string) (d : bool) : bool :=
  match params !! key with Some (VBool b) => b | _ => d end.

Definition set_attrs (params : Params) (a : attrs) : attrs :=
  MkAttrs (arg_strs params "labels" (at_labels a)) (arg_str params "group" (at_group a))
    (arg_int params "download_limit" (at_down a).1, arg_bool params "download_limited" (at_down a).2)
    (arg_int params "upload_limit" (at_up a).1, arg_bool params "upload_limited" (at_up a).2).

(** ** Maps filled by a loop *)

Lemma foldl_insert_other {T V} (key : T → string) (v : T → V) l (m : gmap string V) k :
  k ∉ key <$> l → foldl (λ m t, <[key t := v t]> m) m l !! k = m !! k.
Proof.
  revert m. induction l as [|t l IH]; intros m Hk; [done|]. cbn [foldl]. rewrite IH by set_solver.
  apply lookup_insert_ne. set_solver.
Qed.

Lemma foldl_insert_lookup {T V} (key : T → string) (v : T → V) l (m : gmap string V) t :
  NoDup (key <$> l) → t ∈ l → foldl (λ m t, <[key t := v t]> m) m l !! key t = Some (v t).
Proof.
  revert m. induction l as [|t' l IH]; intros m Hnd Ht; [by apply elem_of_nil in Ht|].
  cbn [foldl fmap list_fmap] in *. apply NoDup_cons in Hnd as [Hn Hnd].
  apply elem_of_cons in Ht as [->|Ht]; [|by apply IH].
  rewrite foldl_insert_other by done. apply lookup_insert_eq.
Qed.

Section laws.
Context `{!UnicodeCase}.

(** The torrents that a request is about: those with the hashes it names, in any
    case, or all. *)
Definition selected (params : Params) (h : string) : Prop :=
  match params !! "ids"%string with Some (VStrs l) => h ∈ ToUpper <$> l | _ => True end.

#[export] Instance selected_dec params h : Decision (selected params h).
Proof. unfold selected. repeat case_match; apply _. Defined.

Lemma selected_ids params ids h :
  params !! "ids"%string = Some (VStrs ids) → selected params h ↔ h ∈ ToUpper <$> ids.
Proof. unfold selected. by intros ->. Qed.

(** The key of a torrent in the view: its hash in upper case. *)
Definition tr_key (t : trTorrent) : string := ToUpper (tr_HashString t).

(** The documented behaviour of a daemon, for requests that succeed:
    [torrent_get] changes nothing and answers each selected torrent once, with
    the fields asked for; [torrent_set] sets the attributes it names on the
    torrents of a non-empty list of hashes. *)
Class Daemon (D : Type) `{!RpcService D} := {
  attrs_of : D → gmap string attrs;
  attrs_key d h a : attrs_of d !! h = Some a → ToUpper h = h ∧ TrimSpace h = h;
  torrent_get_ok d d' params fields reply :
    params !! "fields"%string = Some (VStrs fields) → "hash_string"%string ∈ fields →
    rpcCall true "torrent_get" params d = (Ok reply, d') →
    attrs_of d' = attrs_of d ∧ NoDup (tr_key <$> rp_torrents reply) ∧
    (∀ t, t ∈ rp_torrents reply → TrimSpace (tr_HashString t) = tr_HashString t ∧
      ∃ a, attrs_of d !! tr_key t = Some a ∧ selected params (tr_key t) ∧ agrees fields t a) ∧
    (∀ h a, attrs_of d !! h = Some a → selected params h → h ∈ tr_key <$> rp_torrents reply);
  torrent_set_ok d d' params reply ids :
    params !! "ids"%string = Some (VStrs ids) → ids ≠ [] →
    rpcCall false "torrent_set" params d = (Ok reply, d') →
    ∀ h, attrs_of d' !! h = (λ a, if decide (selected params h) then set_attrs params a else a) <$> attrs_of d !! h;
}.

Context {D : Type} `{!ErrorText, !RpcService D, !Daemon D}.

(** ** One request *)

Lemma rpc_do_ok method params d d' u : rpc_do method params d = (Ok u, d') ↔ ∃ reply, rpcCall false method params d = (Ok reply, d').
Proof.
  unfold rpc_do. rewrite cl_bind_ok. unfold cl_ret. split.
  - intros (reply & d1 & Hrun & [= _ ->]). eauto.
  - intros [reply Hrun]. exists reply, d'. by destruct u.
Qed.

Lemma fetch_ok hashes fields d d' l :
  "hash_string"%string ∈ fields → fetchTRTorrents hashes fields d = (Ok l, d') →
  attrs_of d' = attrs_of d ∧ NoDup (tr_key <$> l) ∧
  ∀ h a, attrs_of d !! h = Some a → hashes = [] ∨ h ∈ ToUpper <$> hashes →
    ∃ t, t ∈ l ∧ tr_key t = h ∧ agrees fields t a.
Proof.
  intros Hf. unfold fetchTRTorrents. rewrite cl_bind_ok. intros (reply & d1 & Hcall & [= <- <-]).
  set (params := if bool_decide (hashes = []) then _ else _) in Hcall.
  assert (params !! "fields"%string = Some (VStrs fields)) as Hfields by (unfold params; by case_bool_decide).
  destruct (torrent_get_ok _ _ _ _ _ Hfields Hf Hcall) as (Hsame & Hnd & Hback & Hall).
  split_and!; [done..|]. intros h a Ha Hsel.
  assert (selected params h) as Hin.
  { unfold selected, params. case_bool_decide as E; [by simpl_map|]. rewrite lookup_insert_eq. naive_solver. }
  pose proof (Hall h a Ha Hin) as (t & -> & Ht)%list_elem_of_fmap.
  exists t. destruct (Hback t Ht) as (_ & a' & Ha' & _ & Hag). naive_solver congruence.
Qed.

Lemma GetTorrents_ok d d' l :
  GetTorrentsCtx no_filter d = (Ok l, d') →
  attrs_of d' = attrs_of d ∧
  (∀ t, t ∈ l → ∃ a, attrs_of d !! t_Hash t = Some a ∧ t_Category t = at_group a) ∧
  ∀ h a, attrs_of d !! h = Some a → ∃ t, t ∈ l ∧ t_Hash t = h ∧ t_Category t = at_group a.
Proof.
  unfold GetTorrentsCtx. cbn [fo_Hashes no_filter]. rewrite bool_decide_true by done.
  destruct (rpcCall _ _ _ d) as [[reply|e] d1] eqn:Hcall; [|done].
  change (applyTorrentFilterOptions ?l no_filter) with (Some l). intros [= <- <-].
  assert ("hash_string"%string ∈ torrentFields ∧ "group"%string ∈ torrentFields) as [Hf Hg].
  { split; apply (bool_decide_eq_true_1 _); by vm_compute. }
  destruct (torrent_get_ok _ _ _ _ _ (lookup_insert_eq _ _ _) Hf Hcall) as (Hsame & Hnd & Hback & Hall).
  assert (∀ t, t ∈ rp_torrents reply → ∃ a, attrs_of d !! tr_key t = Some a ∧ t_Hash (toQBT t) = tr_key t ∧ t_Category (toQBT t) = at_group a) as Hof.
  { intros t Ht. destruct (Hback t Ht) as (Htrim & a & Ha & _ & _ & Hgr & _). exists a. cbn. rewrite Htrim.
    split_and!; [done..|]. by apply Hgr. }
  split_and!; [done| |].
  - intros t [_ (u & -> & Hu)%list_elem_of_fmap]%list_elem_of_filter.
    destruct (Hof u Hu) as (a & Ha & -> & Hc). eauto.
  - intros h a Ha. pose proof (Hall h a Ha I) as (u & -> & Hu)%list_elem_of_fmap.
    destruct (Hof u Hu) as (a' & Ha' & Hk & Hc). exists (toQBT u). split_and!; [|done|congruence].
    apply list_elem_of_filter. split; [|by apply list_elem_of_fmap_2]. done.
Qed.

(** ** Labels *)

Definition relabel (hs : list string) (f : string → list string → list string) (h : string) (a : attrs) : attrs :=
  if decide (h ∈ hs) then with_labels (f h (at_labels a)) a else a.

Lemma setLabels_ok hashes labels d d' u h :
  hashes ≠ [] → setLabels hashes labels d = (Ok u, d') →
  attrs_of d' !! h = relabel (ToUpper <$> hashes) (λ _ _, removeDuplicateStrings labels) h <$> attrs_of d !! h.
Proof.
  intros Hne (reply & Hrun)%rpc_do_ok.
  rewrite (torrent_set_ok _ _ _ _ hashes (lookup_insert_eq _ _ _) Hne Hrun). apply option_fmap_ext. intros a.
  unfold relabel. rewrite (decide_ext _ _ _ _ (selected_ids _ _ h (lookup_insert_eq _ _ _))).
  case_decide; [|done]. by destruct a as [l g [] []].
Qed.

Lemma set_each f hashes d d' u h :
  cl_iter (λ hash, setLabels [hash] (f (ToUpper hash))) hashes d = (Ok u, d') →
  attrs_of d' !! h = relabel (ToUpper <$> hashes) (λ h _, removeDuplicateStrings (f h)) h <$> attrs_of d !! h.
Proof.
  revert d. induction hashes as [|hash hashes IH]; intros d; cbn [cl_iter].
  { intros [= _ <-]. rewrite <- (option_fmap_id (attrs_of d !! h)) at 1. apply option_fmap_ext. intros a.
    unfold relabel. by rewrite decide_False by set_solver. }
  rewrite cl_bind_ok. intros (u1 & d1 & Hset & Hrest). rewrite (IH _ Hrest), (setLabels_ok [hash] _ _ _ _ h ltac:(done) Hset).
  rewrite <- option_fmap_compose. apply option_fmap_ext. intros a. unfold compose, relabel.
  assert (h ∈ ToUpper <$> hash :: hashes ↔ h = ToUpper hash ∨ h ∈ ToUpper <$> hashes) as Hcons by apply elem_of_cons.
  assert (h ∈ ToUpper <$> [hash] ↔ h = ToUpper hash) as Hone by apply list_elem_of_singleton.
  repeat case_decide; try done; naive_solver.
Qed.

Lemma labelMap_ok hashes d d' m :
  labelMap hashes d = (Ok m, d') →
  attrs_of d' = attrs_of d ∧
  ∀ h a, attrs_of d !! h = Some a → h ∈ ToUpper <$> hashes → m !! h = Some (at_labels a).
Proof.
  unfold labelMap. rewrite cl_bind_ok. intros (l & d1 & Hf & [= <- <-]).
  apply fetch_ok in Hf as (Hsame & Hnd & Hall); [|apply (bool_decide_eq_true_1 _); by vm_compute].
  split; [done|]. intros h a Ha Hh. destruct (Hall h a Ha ltac:(by right)) as (t & Ht & <- & Hag & _).
  rewrite (foldl_insert_lookup tr_key) by done. rewrite Hag; [done|]. apply (bool_decide_eq_true_1 _); by vm_compute.
Qed.

(** A loop that sets for each hash a function of the labels it had. *)
Lemma label_loop f hashes d d' u :
  (call! current := labelMap hashes in
   cl_iter (λ hash, setLabels [hash] (f (default [] (current !! ToUpper hash)))) hashes) d = (Ok u, d') →
  ∀ h, attrs_of d' !! h = relabel (ToUpper <$> hashes) (λ _ l, removeDuplicateStrings (f l)) h <$> attrs_of d !! h.
Proof.
  rewrite cl_bind_ok. intros (m & d1 & Hm & Hrest) h.
  rewrite (set_each (λ h, f (default [] (m !! h))) _ _ _ _ h Hrest).
  apply labelMap_ok in Hm as [-> Hm]. destruct (attrs_of d !! h) as [a|] eqn:Ha; [|done]. cbn [fmap option_fmap option_map].
  f_equal. unfold relabel. case_decide as Hh; [|done]. by rewrite (Hm h a Ha Hh).
Qed.

(** The tags of each torrent, as a qBittorrent client sees them. *)
Definition tag_view (d : D) : gmap string (gset string) := (λ a, list_to_set (at_labels a)) <$> attrs_of d.
(** All the rest of the view. *)
Definition other_view (d : D) : gmap string attrs := with_labels [] <$> attrs_of d.

(** An update of the tags of some torrents. *)
Definition update_tags (hs : list string) (f : gset string → gset string) (m : gmap string (gset string)) :=
  map_imap (λ h s, Some (if decide (h ∈ hs) then f s else s)) m.

Lemma relabel_view d d' hs f (g : gset string → gset string) :
  (∀ h, attrs_of d' !! h = relabel hs f h <$> attrs_of d !! h) →
  (∀ h l, list_to_set (f h l) = g (list_to_set l)) →
  tag_view d' = update_tags hs g (tag_view d) ∧ other_view d' = other_view d.
Proof.
  intros Hd Hg. unfold tag_view, update_tags, other_view. split; apply map_eq; intros h.
  - rewrite map_lookup_imap, !lookup_fmap, Hd. destruct (attrs_of d !! h) as [a|]; [|done].
    cbn [fmap option_fmap option_map option_bind mbind]. f_equal. unfold relabel. case_decide; [|done]. apply Hg.
  - rewrite !lookup_fmap, Hd. destruct (attrs_of d !! h) as [a|]; [|done].
    cbn [fmap option_fmap option_map]. unfold relabel. by case_decide.
Qed.

Lemma dedup_set l : list_to_set (removeDuplicateStrings l) = list_to_set l :> gset string.
Proof. apply set_eq. intros x. by rewrite !elem_of_list_to_set, elem_of_removeDuplicateStrings. Qed.

Definition tag_set (tags : string) : gset string := list_to_set (splitCSV tags).

Lemma AddTags_ok hashes tags d d' :
  AddTagsCtx hashes tags d = (Ok tt, d') →
  ∀ h, attrs_of d' !! h =
    relabel (ToUpper <$> hashes) (λ _ l, removeDuplicateStrings (l ++ splitCSV tags)) h <$> attrs_of d !! h.
Proof. intros Hrun. by apply (label_loop (λ l, l ++ splitCSV tags) _ _ _ _ Hrun). Qed.

Lemma RemoveTags_ok hashes tags d d' :
  RemoveTagsCtx hashes tags d = (Ok tt, d') →
  ∀ h, attrs_of d' !! h =
    relabel (ToUpper <$> hashes) (λ _ l, removeDuplicateStrings (filter (λ x, x ∉ splitCSV tags) l)) h <$> attrs_of d !! h.
Proof. intros Hrun. by apply (label_loop (λ l, filter (λ x, x ∉ splitCSV tags) l) _ _ _ _ Hrun). Qed.

Lemma filter_set (tags : string) l :
  list_to_set (removeDuplicateStrings (filter (λ x, x ∉ splitCSV tags) l)) = list_to_set l ∖ tag_set tags.
Proof.
  rewrite dedup_set. apply set_eq. intros x. unfold tag_set.
  rewrite elem_of_difference, !elem_of_list_to_set, list_elem_of_filter. naive_solver.
Qed.

Lemma GetTorrents_all d d1 l :
  GetTorrentsCtx no_filter d = (Ok l, d1) → ∀ h a, attrs_of d !! h = Some a → h ∈ ToUpper <$> (t_Hash <$> l).
Proof.
  intros (_ & _ & Hall)%GetTorrents_ok h a Ha. destruct (Hall h a Ha) as (t & Ht & Hh & _).
  rewrite <- (proj1 (attrs_key _ _ _ Ha)). apply list_elem_of_fmap_2. rewrite <- Hh. by apply list_elem_of_fmap_2.
Qed.

(** C16.  The tag operations of the qBittorrent API, which Transmission
    does not have, are carried out on its labels: when they succeed, adding,
    replacing and removing tags changes the tag sets of exactly the torrents
    named, by union, assignment and difference, deleting tags removes them from
    all torrents, and none of them changes anything else. *)
Theorem tags_refine (hashes : list string) (tags : string) (deleted : list string) (d d' : D) :
  (AddTagsCtx hashes tags d = (Ok tt, d') →
     tag_view d' = update_tags (ToUpper <$> hashes) (λ s, s ∪ tag_set tags) (tag_view d) ∧ other_view d' = other_view d) ∧
  (hashes ≠ [] → SetTags hashes tags d = (Ok tt, d') →
     tag_view d' = update_tags (ToUpper <$> hashes) (λ _, tag_set tags) (tag_view d) ∧ other_view d' = other_view d) ∧
  (RemoveTagsCtx hashes tags d = (Ok tt, d') →
     tag_view d' = update_tags (ToUpper <$> hashes) (λ s, s ∖ tag_set tags) (tag_view d) ∧ other_view d' = other_view d) ∧
  (DeleteTagsCtx deleted d = (Ok tt, d') →
     tag_view d' = (λ s, s ∖ tag_set (Join deleted ",")) <$> tag_view d ∧ other_view d' = other_view d).
Proof.
  split_and!.
  - intros Hrun. refine (relabel_view _ _ _ _ _ (AddTags_ok _ _ _ _ Hrun) _). intros _ l. rewrite dedup_set. apply list_to_set_app_L.
  - intros Hne Hrun. unfold SetTags in Hrun.
    refine (relabel_view _ _ _ _ _ (λ h, setLabels_ok _ _ _ _ _ h Hne Hrun) _). intros _ l. apply dedup_set.
  - intros Hrun. refine (relabel_view _ _ _ _ _ (RemoveTags_ok _ _ _ _ Hrun) _). intros _ l. apply filter_set.
  - unfold DeleteTagsCtx. rewrite cl_bind_ok. intros (l & d1 & Hget & Hrun). pose proof (RemoveTags_ok _ _ _ _ Hrun) as Hd.
    pose proof (GetTorrents_all _ _ _ Hget) as Hall. apply GetTorrents_ok in Hget as (Hsame & _).
    destruct (relabel_view _ _ _ _ (λ s, s ∖ tag_set (Join deleted ",")) Hd (λ _ l, filter_set _ l)) as [Ht Ho].
    assert (tag_view d1 = tag_view d ∧ other_view d1 = other_view d) as [E1 E2] by (unfold tag_view, other_view; by rewrite Hsame).
    rewrite Ho, E2, Ht, E1. split; [|done]. unfold update_tags. apply map_eq. intros h.
    rewrite map_lookup_imap, lookup_fmap. unfold tag_view. rewrite lookup_fmap.
    destruct (attrs_of d !! h) as [a|] eqn:Ha; [|done]. cbn. by rewrite decide_True by by eapply Hall.
Qed.

(**  Removing categories, which are the groups of
    Transmission, leaves no torrent in them, and changes nothing for torrents
    of other categories. *)
Theorem categories_removed (categories : list string) (d d' : D) :
  RemoveCategoriesCtx categories d = (Ok tt, d') →
  ∀ h, attrs_of d' !! h = (λ a, if decide (at_group a ∈ categories) then with_group "" a else a) <$> attrs_of d !! h.
Proof.
  unfold RemoveCategoriesCtx. rewrite cl_bind_ok. intros (l & d1 & Hget & Hrun) h.
  apply GetTorrents_ok in Hget as (Hsame & Hof & Hall). set (hashes := t_Hash <$> _) in Hrun.
  assert (∀ a, attrs_of d !! h = Some a → h ∈ ToUpper <$> hashes ↔ at_group a ∈ categories) as Hin.
  { intros a Ha. unfold hashes. rewrite list_elem_of_fmap. split.
    - intros (x & Hx & (t & -> & [Hc Ht]%list_elem_of_filter)%list_elem_of_fmap).
      destruct (Hof t Ht) as (a' & Ha' & Hg). pose proof (proj1 (attrs_key _ _ _ Ha')) as E.
      rewrite E in Hx. rewrite <- Hx, Ha in Ha'. injection Ha' as <-. by rewrite <- Hg.
    - intros Hg. destruct (Hall h a Ha) as (t & Ht & Hh & Hc). exists h. split; [by rewrite (proj1 (attrs_key _ _ _ Ha))|].
      rewrite <- Hh. apply list_elem_of_fmap_2, list_elem_of_filter. by rewrite Hc. }
  destruct (bool_decide (hashes = [])) eqn:E.
  - injection Hrun as <-. rewrite Hsame. bool_hyps. destruct (attrs_of d !! h) as [a|] eqn:Ha; [|done].
    cbn. rewrite decide_False; [done|]. rewrite <- (Hin a eq_refl), E. apply not_elem_of_nil.
  - bool_hyps. unfold SetCategoryCtx in Hrun. apply rpc_do_ok in Hrun as (reply & Hrun).
    rewrite (torrent_set_ok _ _ _ _ hashes (lookup_insert_eq _ _ _) E Hrun), Hsame.
    destruct (attrs_of d !! h) as [a|] eqn:Ha; [|done]. cbn [fmap option_fmap option_map]. f_equal.
    rewrite (decide_ext _ _ _ _ (selected_ids _ _ h (lookup_insert_eq _ _ _))).
    rewrite (decide_ext _ _ _ _ (Hin a eq_refl)). case_decide; [|done]. by destruct a as [? ? [] []].
Qed.

(** C24.  A limit set on torrents is read back rounded down to whole
    kilobytes, and none when it was not positive: in particular a limit below
    one kilobyte is read back as none, although the daemon keeps it as a limit
    of zero that applies. *)
Theorem limits_rounded (hashes : list string) (limit : Z) (d d1 d2 : D) (m : gmap string Z) :
  hashes ≠ [] → in_i64 limit →
  (SetTorrentDownloadLimitCtx hashes limit d = (Ok tt, d1) ∧ GetTorrentDownloadLimitCtx hashes d1 = (Ok m, d2) ∨
   SetTorrentUploadLimitCtx hashes limit d = (Ok tt, d1) ∧ GetTorrentUploadLimitCtx hashes d1 = (Ok m, d2)) →
  ∀ h a, attrs_of d !! h = Some a → h ∈ ToUpper <$> hashes →
    m !! h = Some (if (limit <=? 0)%Z then 0 else limit - limit mod 1000)%Z.
Proof.
  intros Hne Hr Hrun h a Ha Hh. rewrite <- (limit_read_back limit) by done.
  destruct Hrun as [[Hset Hget]|[Hset Hget]];
    apply rpc_do_ok in Hset as (reply & Hset);
    pose proof (torrent_set_ok _ _ _ _ hashes (lookup_insert_eq _ _ _) Hne Hset h) as Ha1;
    rewrite Ha in Ha1; cbn [fmap option_fmap option_map] in Ha1;
    rewrite (decide_ext _ _ _ _ (selected_ids _ _ h (lookup_insert_eq _ _ _))), decide_True in Ha1 by done;
    unfold GetTorrentDownloadLimitCtx, GetTorrentUploadLimitCtx in Hget;
    apply cl_bind_ok in Hget as (l & d3 & Hget & [= <- <-]);
    (apply fetch_ok in Hget as (_ & Hnd & Hall); [|apply (bool_decide_eq_true_1 _); by vm_compute]);
    destruct (Hall h _ Ha1 ltac:(by right)) as (t & Ht & <- & _ & _ & Hd1 & Hd2 & Hu1 & Hu2);
    unfold limit_map; rewrite (foldl_insert_lookup tr_key) by done.
  - rewrite Hd1, Hd2 by (apply (bool_decide_eq_true_1 _); by vm_compute). done.
  - rewrite Hu1, Hu2 by (apply (bool_decide_eq_true_1 _); by vm_compute). done.
Qed.
End laws.

(** ** A small daemon *)

(** A daemon that keeps the attributes by hash and knows [torrent_get] and
    [torrent_set]; it answers anything else with an empty payload. *)
Definition tr_of (h : string) (a : attrs) : trTorrent :=
  MkTrTorrent 0 0 [] 0 [] "" 0 "" 0 0 0 "" 0 (at_down a).1 (at_down a).2 0 "" 0 0 [] [] (at_group a) h 0 0 false 0
    false false false (at_labels a) 0 "" 0 f64_zero h 0 [] 0 0 0 f64_zero f64_zero "" 0 0 [] 0 0 0 f64_zero 0 0 0 0 f64_zero
    0 false 0 0 0 "" 0 [] "" [] 0 (at_up a).1 (at_up a).2 f64_zero [] [] [] 0.

Lemma tr_of_agrees fields h a : agrees fields (tr_of h a) a.
Proof. by split_and!. Qed.

Section simple.
Context `{!UnicodeCase}.

Definition simple : Type := gmap string attrs.

Definition hash_ok (h : string) : Prop := ToUpper h = h ∧ TrimSpace h = h.

Definition simple_view (d : simple) : gmap string attrs := filter (λ kv, hash_ok kv.1) (d : gmap string attrs).

Definition simple_get (params : Params) (d : simple) : list trTorrent :=
  (λ kv, tr_of kv.1 kv.2) <$> filter (λ kv, selected params kv.1) (map_to_list (simple_view d)).

#[export] Instance simple_rpc : RpcService simple := λ _ method params d,
  if bool_decide (method = "torrent_get") then
    (Ok (MkReply (simple_get params d) zero_session (rp_stats empty_reply) None None 0), d)
  else if bool_decide (method = "torrent_set") then
    (Ok empty_reply, map_imap (λ h a, Some (if decide (selected params h) then set_attrs params a else a)) d)
  else (Ok empty_reply, d).

Lemma simple_get_elem params d t :
  t ∈ simple_get params d ↔ ∃ h a, t = tr_of h a ∧ simple_view d !! h = Some a ∧ selected params h.
Proof.
  unfold simple_get. rewrite list_elem_of_fmap. setoid_rewrite list_elem_of_filter. split.
  - intros ([h a] & -> & Hsel & Hin%elem_of_map_to_list). eauto.
  - intros (h & a & -> & Ha & Hsel). exists (h, a). split; [done|]. split; [done|]. by apply elem_of_map_to_list.
Qed.

Lemma simple_view_key d h a : simple_view d !! h = Some a → hash_ok h.
Proof. unfold simple_view. by intros [_ Hok]%map_lookup_filter_Some. Qed.

Lemma simple_keys params d : NoDup (tr_key <$> simple_get params d).
Proof.
  unfold simple_get. rewrite <- list_fmap_compose.
  assert (∀ l : list (string * attrs), (∀ kv, kv ∈ l → hash_ok kv.1) →
    tr_key ∘ (λ kv : string * attrs, tr_of kv.1 kv.2) <$> l = l.*1) as Hkeys.
  { intros l. induction l as [|[h a] l IH]; intros Hok; [done|]. cbn [fmap list_fmap compose fst].
    rewrite IH by (intros; apply Hok; by right). f_equal. apply (Hok (h, a)). left. }
  rewrite Hkeys.
  - apply NoDup_fmap_2_strong, NoDup_filter, NoDup_map_to_list. intros [h a] [h' a'] Hx Hy. cbn [fst]. intros ->.
    apply list_elem_of_filter in Hx as [_ Hx%elem_of_map_to_list], Hy as [_ Hy%elem_of_map_to_list]. congruence.
  - intros [h a] [_ Hin%elem_of_map_to_list]%list_elem_of_filter. by eapply simple_view_key.
Qed.

#[export] Instance simple_daemon : Daemon simple.
Proof.
  refine {| attrs_of := simple_view |}.
  - intros d h a Ha. by apply simple_view_key in Ha.
  - intros d d' params fields reply _ _ [= <- <-]. cbn [rp_torrents]. split_and!; [done|apply simple_keys| |].
    + intros t (h & a & -> & Ha & Hsel)%simple_get_elem. pose proof (simple_view_key _ _ _ Ha) as [Hu Ht].
      split; [done|]. exists a. unfold tr_key. cbn [tr_HashString tr_of]. rewrite Hu.
      split_and!; [done|done|apply tr_of_agrees].
    + intros h a Ha Hsel. pose proof (simple_view_key _ _ _ Ha) as [Hu Ht].
      apply list_elem_of_fmap. exists (tr_of h a). split; [by unfold tr_key|]. apply simple_get_elem. eauto.
  - intros d d' params reply ids _ _ [= _ <-] h. unfold simple_view. apply option_eq. intros a.
    rewrite map_lookup_filter_Some, map_lookup_imap. unfold simple in *. setoid_rewrite map_lookup_filter.
    destruct ((d : gmap string attrs) !! h) as [b|]; cbn; [|naive_solver].
    case_guard; cbn; naive_solver.
Defined.
End simple.

(** ** Runs of the small daemon *)

#[local] Existing Instance AsciiCase.

#[local] Existing Instance PlainErrors.

Definition two_torrents : simple :=
  {[ "AA"%string := MkAttrs ["hd"; "old"]%string "movies" (0%Z, false) (0%Z, false);
     "BB"%string := MkAttrs ["a|b"]%string "tv" (0%Z, false) (5%Z, true) ]}.

Lemma run_ok {D A} (m : Cl D A) d a : (m d).1 = Ok a → m d = (Ok a, (m d).2).
Proof. destruct (m d) as [r d']. by intros [= ->]. Qed.

Lemma tags_refine_witness :
  (let d' := (AddTagsCtx ["aa"]%string "new, hd" two_torrents).2 in
   tag_view d' = update_tags ["AA"]%string (λ s, s ∪ tag_set "new, hd") (tag_view two_torrents) ∧
   other_view d' = other_view two_torrents) ∧
  (let d' := (RemoveTagsCtx ["AA"]%string "old" two_torrents).2 in
   tag_view d' = update_tags ["AA"]%string (λ s, s ∖ tag_set "old") (tag_view two_torrents) ∧
   other_view d' = other_view two_torrents) ∧
  (let d' := (SetTags ["AA"]%string "old" two_torrents).2 in
   tag_view d' = update_tags ["AA"]%string (λ s, tag_set "old") (tag_view two_torrents) ∧
   other_view d' = other_view two_torrents) ∧
  (let d' := (DeleteTagsCtx ["hd"]%string two_torrents).2 in
   tag_view d' = (λ s, s ∖ tag_set (Join ["hd"]%string ",")) <$> tag_view two_torrents ∧
   other_view d' = other_view two_torrents).
Proof.
  split_and!.
  - destruct (tags_refine ["aa"]%string "new, hd" [] two_torrents (AddTagsCtx ["aa"]%string "new, hd" two_torrents).2)
      as (Hadd & _). apply Hadd, run_ok. by vm_compute.
  - destruct (tags_refine ["AA"]%string "old" [] two_torrents (RemoveTagsCtx ["AA"]%string "old" two_torrents).2)
      as (_ & _ & Hremove & _). apply Hremove, run_ok. by vm_compute.
  - destruct (tags_refine ["AA"]%string "old" [] two_torrents (SetTags ["AA"]%string "old" two_torrents).2)
      as (_ & Hset & _). apply Hset; [done|]. apply run_ok. by vm_compute.
  - destruct (tags_refine [] "" ["hd"]%string two_torrents (DeleteTagsCtx ["hd"]%string two_torrents).2)
      as (_ & _ & _ & Hdelete). apply Hdelete, run_ok. by vm_compute.
Defined.

Lemma categories_removed_witness :
  ∀ h, attrs_of (RemoveCategoriesCtx ["movies"]%string two_torrents).2 !! h =
    (λ a, if decide (at_group a ∈ ["movies"]%string) then with_group "" a else a) <$> attrs_of two_torrents !! h.
Proof. apply (categories_removed ["movies"]%string two_torrents). apply run_ok. by vm_compute. Defined.

Definition limited_torrents : simple := (SetTorrentDownloadLimitCtx ["aa"]%string 2500 two_torrents).2.

Lemma limits_rounded_witness :
  ∃ m, GetTorrentDownloadLimitCtx ["AA"]%string limited_torrents = (Ok m, limited_torrents) ∧ m !! "AA"%string = Some 2000%Z.
Proof.
  exists {[ "AA"%string := 2000%Z ]}. split; [by vm_compute|].
  refine (limits_rounded ["AA"]%string 2500 two_torrents limited_torrents limited_torrents _ _ _ _ "AA"
    (MkAttrs ["hd"; "old"]%string "movies" (0%Z, false) (0%Z, false)) _ _);
    [done|by vm_compute|left; split; by vm_compute|by vm_compute|apply (bool_decide_eq_true_1 _); by vm_compute].
Defined.

(** A limit of 500 bytes per second stops the torrent, and is shown as no limit. *)
Example small_limit :
  let d := (SetTorrentDownloadLimitCtx ["AA"]%string 500 two_torrents).2 in
  (at_down <$> attrs_of d !! "AA"%string) = Some (0%Z, true) ∧
  (GetTorrentDownloadLimitCtx ["AA"]%string d).1 = Ok {[ "AA"%string := 0%Z ]}.
Proof. by vm_compute. Qed.

(** A label that contains a separator is shown as two tags that cannot be
    removed. *)
Example split_label :
  (GetTagsCtx two_torrents).1 = Ok ["a"; "b"; "hd"; "old"]%string ∧
  attrs_of (DeleteTagsCtx ["a"; "b"]%string two_torrents).2 !! "BB"%string = attrs_of two_torrents !! "BB"%string.
Proof. by vm_compute. Qed.

(** Whether the torrent is added paused depends on the order in which the options
    are visited, when one asks for it and [skip_checking] is false; and
    [skip_checking] alone adds it paused. *)
Definition paused_options : gmap string string := {[ "paused"%string := "true"%string; "skip_checking"%string := "false"%string ]}.

Example paused_by_order :
  addParamsFromOptions key_order paused_options !! "paused"%string ≠ addParamsFromOptions reverse_order paused_options !! "paused"%string.
Proof. by vm_compute. Qed.

Example skip_checking_pauses :
  addParamsFromOptions key_order {[ "paused"%string := "false"%string; "skip_checking"%string := "true"%string ]}
    !! "paused"%string = Some (VBool true).
Proof. by vm_compute. Qed.
