(* ===== verification/TransmissionHttp.v ===== *)
(** * [internal/transmissionqbt/methods.go]: requests over HTTP

    [rpcCall] over HTTP with Transmission's session handshake, as an
    implementation of the interface [RpcService]. *)

From Stdlib Require Import ZArith Lia Ascii SpecFloat.
From stdpp Require Import base numbers list strings gmap pretty.
From S2P Require Import Prelude.
From S2P Require Import GoStrings.
From S2P Require Import GoFloat.
From S2P Require Import Domain.
From S2P Require Import TransmissionRpc.
From S2P Require Import TransmissionTorrent.
From S2P Require Import TransmissionClient.

Open Scope qui_scope.

(** ** [rpcCall] *)

Record rpcError := MkRpcError { er_Message : string; er_Data : string }.

(** What the body of an answer is decoded into: [rr_Result] is the raw result,
    [None] when it is absent. *)
Record rpcResponse := MkRpcResponse { rr_Result : option any; rr_Arguments : option any; rr_Error : option rpcError }.

Record Request := MkRequest { rq_Method : string; rq_Arguments : any }.

(** An answer: its status, the session header, and its body, [None] when it
    cannot be decoded. *)
Record Response := MkResponse { hr_Status : Z; hr_SessionId : string; hr_Body : option rpcResponse }.

Definition StatusOK : Z := 200.
Definition StatusNoContent : Z := 204.
Definition StatusUnauthorized : Z := 401.
Definition StatusForbidden : Z := 403.
Definition StatusConflict : Z := 409.

(** The server: a request with its session header, empty when it has none,
    answered or failing on the way. *)
Class HttpServer (S : Type) := http_do : string → Request → S → result Response * S.

Definition ErrBadCredentials : string := "bad credentials".
Definition ErrUnexpectedStatus : string := "unexpected status code".

Section http.
Context {Sv : Type} `{!UnicodeCase, !ErrorText, !HttpServer Sv}.

(** The client keeps the session id it was last given. *)
Record Conn := MkConn { co_server : Sv; co_session : string }.

Definition doRPCRequestOnce (body : Request) (c : Conn) : result Response * Conn :=
  let '(r, s) := http_do (co_session c) body (co_server c) in (r, MkConn s (co_session c)).

Definition doRPCRequest (body : Request) (c : Conn) : result Response * Conn :=
  match doRPCRequestOnce body c with
  | (Err e, c) => (Err e, c)
  | (Ok resp, c) =>
    if negb (bool_decide (hr_Status resp = StatusConflict)) then (Ok resp, c)
    else if bool_decide (hr_SessionId resp = "") then
      (Err (Wrap ErrUnexpectedStatus "transmission rpc returned 409 without session id"), c)
    else doRPCRequestOnce body (MkConn (co_server c) (hr_SessionId resp))
  end.

(** Unmarshalling [null] into a string leaves it empty, without an error. *)
Definition rpcResultString (raw : option any) : option string :=
  match raw with
  | Some (VStr msg) => Some msg
  | Some VNil => Some ""
  | _ => None
  end.

(** A part of an answer that is present. *)
Definition present (raw : option any) : option any :=
  match raw with Some VNil => None | raw => raw end.

(** The end of [rpcCall]: the payload to be decoded, if any.  The two messages
    are built with [errors.New] of a third-party package. *)
Definition response_payload (method : string) (resp : Response) : result (option any) :=
  let status := hr_Status resp in
  if bool_decide (status = StatusUnauthorized) || bool_decide (status = StatusForbidden) then Err ErrBadCredentials
  else if negb (bool_decide (status = StatusOK)) && negb (bool_decide (status = StatusNoContent)) then
    Err (Wrap ErrUnexpectedStatus ("transmission rpc " +++ method +++ " returned status code " +++ pretty status))
  else if bool_decide (status = StatusNoContent) then Ok None
  else
    match hr_Body resp with
    | None => Err "invalid JSON"
    | Some body =>
      match rr_Error body with
      | Some e =>
        Err ("transmission rpc " +++ method +++ " failed: " +++ er_Message e +++
             (if bool_decide (er_Data e = "") then "" else ": " +++ er_Data e))
      | None =>
        match rpcResultString (rr_Result body) with
        | Some msg =>
          if negb (EqualFold msg "success") then
            Err ("transmission rpc " +++ method +++ " failed: " +++ msg)
          else Ok (present (rr_Arguments body))
        | None => Ok (match present (rr_Arguments body) with Some v => Some v | None => present (rr_Result body) end)
        end
      end
    end.

(** The payload of a call, decoded by [encoding/json] after its normalisation;
    [out] is [false] when the caller passes [nil]. *)
Class Decoder := { decode : any → result Reply }.

Definition decode_payload `{!Decoder} (out : bool) (payload : option any) : result Reply :=
  match payload with
  | Some v => if out then decode (normalizeTransmissionKeys v) else Ok empty_reply
  | None => Ok empty_reply
  end.

(** [r] orders the entries of the arguments. *)
Definition http_call `{!Decoder} (r : MapRange) (out : bool) (method : string) (params : Params) (c : Conn) :
    result Reply * Conn :=
  let body := MkRequest (transmissionMethodName method) (normalizeTransmissionRequest method (VMap (range r 2 params))) in
  match doRPCRequest body c with
  | (Err e, c) => (Err e, c)
  | (Ok resp, c) =>
    match response_payload method resp with
    | Err e => (Err e, c)
    | Ok payload => (decode_payload out payload, c)
    end
  end.

(** The implementation of the interface the operations are written against. *)
Definition http_service `{!Decoder} (r : MapRange) : RpcService Conn := http_call r.

(** ** The handshake *)

(** A server that guards against forged requests: it has a session id, refuses a
    request with another one and tells the current one, and else executes the
    request. *)
Class GuardedServer := {
  session_of : Sv → string;
  execute : Request → Sv → result Response * Sv;
  session_nonempty s : session_of s ≠ "";
  http_guarded header body s :
    http_do header body s =
    if bool_decide (header = session_of s) then execute body s
    else (Ok (MkResponse StatusConflict (session_of s) None), s);
  execute_answers body s resp s' : execute body s = (Ok resp, s') → hr_Status resp ≠ StatusConflict;
}.

(**  Whatever session id the client holds, none or a stale one,
    a request to a guarded server is executed exactly once, with the answer
    that a client with the right id gets, and the client then holds the id it
    was accepted with. *)
Theorem handshake_once `{!GuardedServer} (body : Request) (c : Conn) :
  let '(r, c') := doRPCRequest body c in
  (r, co_server c') = execute body (co_server c) ∧
  co_session c' = session_of (co_server c).
Proof.
  unfold doRPCRequest, doRPCRequestOnce. rewrite http_guarded.
  destruct (bool_decide (co_session c = session_of (co_server c))) eqn:E.
  - bool_hyps. destruct (execute body (co_server c)) as [[resp|e] s'] eqn:Hx; [|done].
    rewrite bool_decide_false by (by eapply execute_answers). done.
  - cbn [hr_Status hr_SessionId]. rewrite bool_decide_true, bool_decide_false by (done || apply session_nonempty).
    cbn [co_server co_session negb]. rewrite http_guarded, bool_decide_true by done.
    by destruct (execute body (co_server c)) as [r s'].
Qed.
End http.

(** A [null] result is taken for the failure message of length zero, although the
    payload is then checked for [null]. *)
Example null_result_fails (ET : ErrorText) :
  @response_payload AsciiCase ET "torrent_get" (MkResponse StatusOK "" (Some (MkRpcResponse (Some VNil) None None)))
  = Err "transmission rpc torrent_get failed: ".
Proof. reflexivity. Qed.

(** A server that counts what it executes. *)
#[export] Instance counting_server : HttpServer (string * Z) := λ header body s,
  if bool_decide (header = s.1 +++ "!") then (Ok (MkResponse StatusOK "" None), (s.1, s.2 + 1)%Z)
  else (Ok (MkResponse StatusConflict (s.1 +++ "!") None), s).

#[export] Instance counting_guarded : GuardedServer (Sv := string * Z).
Proof.
  refine {| session_of s := s.1 +++ "!"; execute _ s := (Ok (MkResponse StatusOK "" None), (s.1, s.2 + 1)%Z) |}.
  - intros [[] ?]; done.
  - done.
  - by intros body s resp s' [= <- <-].
Defined.

#[local] Existing Instance PlainErrors.

Lemma handshake_once_witness :
  let '(r, c') := doRPCRequest (MkRequest "session-get" VNil) (MkConn ("id"%string, 0%Z) "old") in
  (r, co_server c') = execute (MkRequest "session-get" VNil) ("id"%string, 0%Z) ∧ co_session c' = "id!"%string.
Proof. exact (handshake_once (MkRequest "session-get" VNil) (MkConn ("id"%string, 0%Z) "old")). Defined.

Example executed_once :
  (doRPCRequest (MkRequest "session-get" VNil) (MkConn ("id"%string, 0%Z) "")).2 = MkConn ("id"%string, 1%Z) "id!".
Proof. reflexivity. Qed.
