(* ===== verification/TransmissionTrace.v ===== *)
(** * The requests of a reannouncement

    A service that logs its requests with their answers, and the exact trace of
    [ReannounceTorrentWithRetry] on it. *)

From Stdlib Require Import ZArith Lia Ascii.
From stdpp Require Import base numbers list strings gmap.
From S2P Require Import Prelude.
From S2P Require Import GoStrings.
From S2P Require Import Domain.
From S2P Require Import TransmissionRpc.
From S2P Require Import TransmissionTorrent.
From S2P Require Import TransmissionClient.
From S2P Require Import TransmissionSpec.

Open Scope qui_scope.

(** A request and its answer. *)
Definition entry : Type := string * Params * result Reply.

Section trace.
Context `{!UnicodeCase, !ErrorText} {D : Type} (base : RpcService D).

(** The service [base] with a log. *)
Definition logged : RpcService (D * list entry) := λ out method params s,
  let '(r, d) := @rpcCall D base out method params s.1 in (r, (d, s.2 ++ [(method, params, r)])).
#[local] Existing Instance logged.

Definition announce_args (hash : string) : string * Params := ("torrent_reannounce"%string, idsParam [hash]).
Definition look_args (hash : string) : string * Params :=
  ("torrent_get"%string, <["ids"%string := VStrs [hash]]>
    {[ "fields"%string := VStrs ["hash_string"; "trackers"; "tracker_stats"]%string ]}).
Definition removal_args (hash : string) : string * Params :=
  ("torrent_remove"%string, <["ids"%string := VStrs [hash]]> {[ "delete_local_data"%string := VBool false ]}).

(** The answer has the torrent with a tracker that works. *)
Definition works (r : result Reply) : bool :=
  match r with
  | Ok reply => match rp_torrents reply with tr :: _ => isTrackerStatusOK (toTrackers tr) | [] => false end
  | Err _ => false
  end.

Definition announced (hash : string) (e : entry) : Prop := e.1 = announce_args hash ∧ is_ok e.2 = true.
Definition looked (hash : string) (ok : bool) (e : entry) : Prop := e.1 = look_args hash ∧ works e.2 = ok.

(** [n] announces, each followed by a look at the trackers, none of which works. *)
Inductive idle_rounds (hash : string) : nat → list entry → Prop :=
| idle_none : idle_rounds hash 0 []
| idle_round n a l log :
  announced hash a → looked hash false l → idle_rounds hash n log → idle_rounds hash (S n) (a :: l :: log).

(** How the attempts can end. *)
Inductive attempts_end (hash : string) (n : nat) : result (option unit) → list entry → Prop :=
| end_works k idle a l :
  k < n → idle_rounds hash k idle → announced hash a → looked hash true l →
  attempts_end hash n (Ok (Some tt)) (idle ++ [a; l])
| end_fails k idle a e :
  k < n → idle_rounds hash k idle → a = (announce_args hash, Err e) → attempts_end hash n (Err e) (idle ++ [a])
| end_idle idle : idle_rounds hash n idle → attempts_end hash n (Ok None) idle.

Lemma announce_run hash d (log : list entry) :
  let '(r, d') := @rpcCall D base false "torrent_reannounce" (idsParam [hash]) d in
  ReAnnounceTorrentsCtx [hash] (d, log) =
  (match r with Ok _ => Ok tt | Err e => Err e end, (d', log ++ [(announce_args hash, r)])).
Proof.
  unfold ReAnnounceTorrentsCtx, rpc_do, cl_bind, cl_ret, logged, rpcCall. cbn [fst snd].
  destruct (base _ _ _ d) as [[]]; done.
Qed.

Lemma look_run hash d (log : list entry) :
  let '(r, d') := @rpcCall D base true "torrent_get" (look_args hash).2 d in
  ∃ q, GetTorrentTrackersCtx hash (d, log) = (q, (d', log ++ [(look_args hash, r)])) ∧
    match q with Ok trackers => isTrackerStatusOK trackers | Err _ => false end = works r.
Proof.
  unfold GetTorrentTrackersCtx, fetch_one, fetchTRTorrents, cl_bind, cl_ret, cl_err, logged, rpcCall. cbn [fst snd look_args].
  rewrite bool_decide_false by done. destruct (base _ _ _ d) as [[reply|e] d']; [|by eexists].
  destruct (rp_torrents reply) as [|tr l] eqn:E; eexists; (split; [done|]); unfold works; by rewrite E.
Qed.

Lemma attempts_trace n hash d (log0 : list entry) :
  ∃ log : list entry, (reannounce_attempts n hash (d, log0)).2.2 = log0 ++ log ∧
    attempts_end hash n (reannounce_attempts n hash (d, log0)).1 log.
Proof.
  revert d log0. induction n as [|n IH]; intros d log0.
  { exists []. split; [by rewrite app_nil_r|]. apply end_idle. constructor. }
  cbn [reannounce_attempts]. unfold cl_bind.
  pose proof (announce_run hash d log0) as Ha. destruct (@rpcCall D base false _ _ d) as [r d1]. rewrite Ha.
  destruct r as [reply|e]; cbn [fst snd].
  2:{ eexists. split; [done|]. apply (end_fails hash (S n) 0 []); [lia|constructor|done]. }
  set (a := (announce_args hash, Ok reply)). assert (announced hash a) as Haa by done.
  pose proof (look_run hash d1 (log0 ++ [a])) as Hl. destruct (@rpcCall D base true _ _ d1) as [r d2].
  destruct Hl as (q & Hrun & Hq). rewrite Hrun. set (l := (look_args hash, r)) in *.
  assert (looked hash (works r) l) as Hll by done.
  assert (works r = false →
    ∃ log, (reannounce_attempts n hash (d2, (log0 ++ [a]) ++ [l])).2.2 = log0 ++ log ∧
      attempts_end hash (S n) (reannounce_attempts n hash (d2, (log0 ++ [a]) ++ [l])).1 log) as Hidle.
  { intros Hw. rewrite Hw in Hll. destruct (IH d2 ((log0 ++ [a]) ++ [l])) as (log & Hlog & Hend).
    exists (a :: l :: log). split; [by rewrite Hlog, <- !app_assoc|].
    destruct Hend as [k idle a' l' Hk Hi Ha' Hl'|k idle a' e Hk Hi Ha'|idle Hi].
    - apply (end_works hash (S n) (S k) (a :: l :: idle)); [lia|by constructor|done..].
    - apply (end_fails hash (S n) (S k) (a :: l :: idle)); [lia|by constructor|done].
    - apply end_idle. by constructor. }
  destruct q as [trackers|e]; [|by apply Hidle]. destruct (isTrackerStatusOK trackers); [|by apply Hidle].
  exists [a; l]. cbn [fst snd]. split; [by rewrite <- app_assoc|].
  apply (end_works hash (S n) 0 []); [lia|constructor|done|]. by rewrite Hq.
Qed.

(** C23.  Reannouncing with retries ends after at most the given
    number of attempts (50 by default), in one of four ways: a tracker works
    after the last announce made and after none before, and it succeeds; an
    announce fails, and its error is returned at once; every attempt passes
    without a working tracker, and it succeeds when the torrent is to be kept;
    or else, and only then, it makes one request to remove the torrent, never
    its data, and reports that it took too long. *)
Theorem reannounce_exact (hash : string) (opts : option ReannounceOptions) (d : D) :
  let n := Z.to_nat (max_attempts opts) in
  let '(r, (d', log)) := ReannounceTorrentWithRetry hash opts (d, []) in
  0 < n ∧
  ((r = Ok tt ∧ attempts_end hash n (Ok (Some tt)) log) ∨
   (∃ e, r = Err e ∧ attempts_end hash n (Err e) log) ∨
   (r = Ok tt ∧ deletes_on_failure opts = false ∧ idle_rounds hash n log) ∨
   (r = Err ErrReannounceTookTooLong ∧ deletes_on_failure opts = true ∧
    ∃ idle removal, log = idle ++ [removal] ∧ idle_rounds hash n idle ∧ removal.1 = removal_args hash)).
Proof.
  cbv zeta. unfold ReannounceTorrentWithRetry, cl_bind.
  destruct (attempts_trace (Z.to_nat (max_attempts opts)) hash d []) as (log & Hlog & Hend).
  destruct (reannounce_attempts _ hash (d, [])) as [r [d' log']]. cbn [fst snd app] in *. subst log'.
  assert (0 < Z.to_nat (max_attempts opts)) as Hpos.
  { unfold max_attempts, ReannounceMaxAttempts. destruct opts as [[i m del]|]; [|lia]. cbn.
    destruct (Z.ltb_spec 0 m); lia. }
  destruct r as [[[]|]|e]; [by auto| |split; [done|]; right; left; eauto].
  inversion Hend; subst. destruct (deletes_on_failure opts).
  - unfold DeleteTorrentsCtx, rpc_do, cl_bind, cl_ret, logged, rpcCall. cbn [fst snd].
    destruct (base _ _ _ d') as [[reply|e] d2]; (split; [done|]; do 3 right; split_and!; [done..|];
      exists log; by eexists).
  - split; [done|]. right. right. left. done.
Qed.
End trace.

(** Two attempts on a daemon whose torrent has no tracker: five requests, the
    last of which removes it. *)
Example reannounce_removes :
  let '(r, (_, log)) :=
    @ReannounceTorrentWithRetry (simple * list entry) AsciiCase (logged (@simple_rpc AsciiCase)) "AA"
      (Some (MkReannounce 0 2 true)) (two_torrents, []) in
  r = Err ErrReannounceTookTooLong ∧
  (λ e : entry, e.1.1) <$> log = ["torrent_reannounce"; "torrent_get"; "torrent_reannounce"; "torrent_get"; "torrent_remove"]%string.
Proof. by vm_compute. Qed.
