(* ===== verification/TransmissionSync.v ===== *)
(** * [internal/transmissionqbt/sync.go], [maindata.go]: the sync manager

    The cached copy of a daemon's torrents: a sync that replaces it, the queries
    that read it, and when it is taken for stale. *)

From Stdlib Require Import ZArith Lia Ascii SpecFloat.
From stdpp Require Import base numbers list strings gmap sorting.
From S2P Require Import Prelude.
From S2P Require Import Order.
From S2P Require Import GoStrings.
From S2P Require Import GoFloat.
From S2P Require Import Domain.
From S2P Require Import TransmissionRpc.
From S2P Require Import TorrentFilter.
From S2P Require Import TransmissionTorrent.
From S2P Require Import TransmissionClient.
From S2P Require Import TransmissionSpec.

Open Scope qui_scope.

Record SyncOptions := MkSyncOptions {
  so_AutoSync : bool; so_SyncInterval : Z; so_DynamicSync : bool; so_MaxSyncInterval : Z; so_MinSyncInterval : Z;
  so_JitterPercent : Z }.

Definition DefaultSyncOptions : SyncOptions := MkSyncOptions false (2 * Second) true (30 * Second) Second 10.

Record SyncManager := MkSyncManager {
  sm_data : option MainData; sm_rid : Z; sm_lastSync : Z; sm_lastSyncDuration : Z; sm_lastError : option string;
  sm_allTorrents : list Torrent; sm_options : SyncOptions }.

Definition NewSyncManager (opts : SyncOptions) : SyncManager :=
  let opts := if bool_decide (so_SyncInterval opts = 0%Z)
              then MkSyncOptions (so_AutoSync opts) (2 * Second) (so_DynamicSync opts) (so_MaxSyncInterval opts)
                                 (so_MinSyncInterval opts) (so_JitterPercent opts)
              else opts in
  MkSyncManager None 0 0 0 None [] opts.

Definition empty_data : MainData := MkMainData 0 false ∅ ∅ [] ∅ None.

Section sync.
Context {D : Type} `{!UnicodeCase, !ErrorText, !RpcService D}.

(** [MainData.Update]: the client's answer is always a full update, which
    replaces everything. *)
Definition Update (now : Z) : Cl D MainData := SyncMainDataCtxWithRaw now.

(** The torrents of the map in the order a range loop visits them. *)
Definition updateAllTorrents (r : MapRange) (data : MainData) : list Torrent := (range r 3 (md_Torrents data)).*2.

(** [doSync], which starts, answers and ends at the given times: on an error the data is
    kept, or is empty when there was none. *)
Definition doSync (r : MapRange) (start now stop : Z) (sm : SyncManager) (d : D) : result unit * SyncManager * D :=
  let data := default empty_data (sm_data sm) in
  match Update now d with
  | (Err e, d) =>
    (Err e, MkSyncManager (Some data) (sm_rid sm) stop (stop - start) (Some e) (sm_allTorrents sm) (sm_options sm), d)
  | (Ok data, d) =>
    (Ok tt, MkSyncManager (Some data) (md_Rid data) stop (stop - start) None (updateAllTorrents r data) (sm_options sm), d)
  end.
End sync.

(** ** Freshness *)

Definition calculateStaleThreshold (sm : SyncManager) : Z :=
  let o := sm_options sm in
  if (0 <? so_SyncInterval o)%Z then so_SyncInterval o
  else if so_DynamicSync o && (0 <? sm_lastSyncDuration sm)%Z then
    let t := i64 (sm_lastSyncDuration sm * 2) in
    let t := if (t <? so_MinSyncInterval o)%Z then so_MinSyncInterval o else t in
    if (so_MaxSyncInterval o <? t)%Z then so_MaxSyncInterval o else t
  else if (0 <? so_MinSyncInterval o)%Z then so_MinSyncInterval o
  else (2 * Second)%Z.

(** Whether [ensureFreshData] syncs at time [t]. *)
Definition wants_sync (t : Z) (sm : SyncManager) : bool :=
  let o := sm_options sm in
  if (t <? sm_lastSync sm + 5 * Millisecond)%Z then false
  else match sm_data sm with
       | None => so_DynamicSync o
       | Some _ => so_DynamicSync o && (sm_lastSync sm + calculateStaleThreshold sm <? t)%Z
       end.

(** [calculateNextInterval]; [randVal] is what [rand.Float64] returns. *)
Definition calculateNextInterval (randVal : float64) (sm : SyncManager) : Z :=
  let o := sm_options sm in
  let base := i64 (sm_lastSyncDuration sm * 2) in
  let base := if (base <? so_MinSyncInterval o)%Z then so_MinSyncInterval o else base in
  let base := if (so_MaxSyncInterval o <? base)%Z then so_MaxSyncInterval o else base in
  if (0 <? so_JitterPercent o)%Z && (so_JitterPercent o <=? 100)%Z then
    let jitterRange := f64_div (f64_mul (f64_of_Z base) (f64_of_Z (so_JitterPercent o))) (f64_of_Z 100) in
    let jitter := f64_to_i64 (f64_mul randVal jitterRange) in
    let base := i64 (if f64_ltb randVal (f64_div (f64_of_Z 1) (f64_of_Z 2)) then base + jitter else base - jitter) in
    if (base <? so_MinSyncInterval o)%Z then so_MinSyncInterval o else base
  else base.

(** ** Queries of the cached data *)

Definition GetTorrentsUnchecked (options : TorrentFilterOptions) (sm : SyncManager) : option (option (list Torrent)) :=
  match sm_data sm with
  | None => Some None
  | Some _ =>
    Some <$> applyTorrentFilterOptions (filter (λ t, matchesTorrentFilter t options = true) (sm_allTorrents sm)) options
  end.

Definition GetTorrentMapUnchecked (options : TorrentFilterOptions) (sm : SyncManager) : option (option (gmap string Torrent)) :=
  option_map (option_map torrent_map) (GetTorrentsUnchecked options sm).

Definition GetTorrentUnchecked (hash : string) (sm : SyncManager) : option Torrent :=
  data ← sm_data sm; md_Torrents data !! hash.

Definition GetServerStateUnchecked (sm : SyncManager) : option ServerState :=
  data ← sm_data sm; md_ServerState data.
Definition GetCategoriesUnchecked (sm : SyncManager) : option (gmap string (string * string)) :=
  md_Categories <$> sm_data sm.
Definition GetTagsUnchecked (sm : SyncManager) : option (list string) :=
  data ← sm_data sm; if bool_decide (md_Tags data = []) then None else Some (md_Tags data).

(** A getter: a sync first when the data is stale, and then the query. *)
Definition getter {D A} `{!UnicodeCase, !ErrorText, !RpcService D} (r : MapRange) (t now stop : Z) (query : SyncManager → A)
    (sm : SyncManager) (d : D) : A * SyncManager * D :=
  if wants_sync t sm then let '(_, sm, d) := doSync r t now stop sm d in (query sm, sm, d)
  else (query sm, sm, d).

(** ** The cache and the daemon *)

(** The cached slice has the torrents of the cached map, which are under their
    hashes. *)
Definition consistent (sm : SyncManager) : Prop :=
  match sm_data sm with
  | None => sm_allTorrents sm = []
  | Some data =>
    sm_allTorrents sm ≡ₚ (map_to_list (md_Torrents data)).*2 ∧ map_Forall (λ h t, t_Hash t = h) (md_Torrents data)
  end.

Lemma torrent_map_spec l h t :
  torrent_map l !! h = Some t → t ∈ l ∧ t_Hash t = h.
Proof.
  unfold torrent_map. rewrite <- (app_nil_l l) at 2. generalize (@nil Torrent).
  assert (∀ m pre, (∀ h t, m !! h = Some t → t ∈ pre ∧ t_Hash t = h) →
    foldl (λ (m : gmap string Torrent) t, <[t_Hash t := t]> m) m l !! h = Some t → t ∈ pre ++ l ∧ t_Hash t = h) as Haux.
  { induction l as [|x l IH]; intros m pre Hm Hl; [rewrite app_nil_r; auto|]. cbn [foldl] in Hl.
    rewrite cons_middle, (assoc_L (++)). apply (IH (<[t_Hash x := x]> m)); [|done].
    intros h' t' [[<- <-]|[? Ht]]%lookup_insert_Some; [set_solver|]. apply Hm in Ht as [? ?]. set_solver. }
  intros pre Hl. apply (Haux ∅); [|done]. intros h' t'. by rewrite lookup_empty.
Qed.

Lemma torrent_map_values l : NoDup (t_Hash <$> l) → (map_to_list (torrent_map l)).*2 ≡ₚ l.
Proof.
  intros Hnd. assert (map_to_list (torrent_map l) ≡ₚ (λ t, (t_Hash t, t)) <$> l) as ->.
  2:{ rewrite <- list_fmap_compose. by rewrite list_fmap_id. }
  apply NoDup_Permutation; [apply NoDup_map_to_list| |].
  - apply (NoDup_fmap_1 fst). by rewrite <- list_fmap_compose.
  - intros [h t]. rewrite elem_of_map_to_list, list_elem_of_fmap. split.
    + intros [Ht Hh]%torrent_map_spec. exists t. by rewrite Hh.
    + intros (t' & [= -> ->] & Ht). by apply (foldl_insert_lookup t_Hash id).
Qed.

Section snapshot.
Context {D : Type} `{!UnicodeCase, !ErrorText, !RpcService D}.

Lemma Update_ok now d d' data :
  Update now d = (Ok data, d') → ∃ torrents d1, GetTorrentsCtx no_filter d = (Ok torrents, d1) ∧ md_Torrents data = torrent_map torrents.
Proof.
  unfold Update, SyncMainDataCtxWithRaw. rewrite cl_bind_ok. intros (l & d1 & Hget & Hrest).
  apply cl_bind_ok in Hrest as (st & d2 & _ & [= <- _]). eauto.
Qed.

Lemma doSync_consistent r start now stop sm d :
  consistent sm → consistent (doSync r start now stop sm d).1.2.
Proof.
  intros Hc. unfold doSync. destruct (Update now d) as [[data|e] d'] eqn:Hrun; cbn [fst snd].
  - apply Update_ok in Hrun as (l & d1 & _ & Hm). unfold consistent. cbn. unfold updateAllTorrents. split.
    + apply fmap_Permutation, range_perm.
    + rewrite Hm. intros h t Ht. by apply torrent_map_spec in Ht as [_ ?].
  - unfold consistent in *. cbn. destruct (sm_data sm) as [data|]; [done|]. cbn. rewrite Hc. split; [done|apply map_Forall_empty].
Qed.

(** Without sorting, offset and limit. *)
Definition plain_listing (o : TorrentFilterOptions) : Prop := fo_Sort o = "" ∧ (fo_Offset o ≤ 0)%Z ∧ (fo_Limit o ≤ 0)%Z.

Lemma plain_options o l : plain_listing o → applyTorrentFilterOptions l o = Some l.
Proof.
  intros (Hs & Ho & Hl). unfold applyTorrentFilterOptions, applyTorrentSorting, window. rewrite Hs.
  rewrite bool_decide_true by done. cbn [mbind option_bind].
  by rewrite (proj2 (Z.ltb_ge 0 _) Ho), (proj2 (Z.ltb_ge 0 _) Hl).
Qed.

(** C17.  Between syncs the queries answer from one consistent
    snapshot: after a sync that succeeds, a listing has exactly the torrents of
    the daemon that match, each once and whatever the order of the cache, and a
    torrent is found by its hash exactly when it is in the unfiltered listing;
    after a sync that fails, every query answers what it did before, if
    anything was cached. *)
Theorem sync_snapshot (r : MapRange) (start now stop : Z) (sm : SyncManager) (d : D) :
  consistent sm →
  let '(res, sm', _) := doSync r start now stop sm d in
  consistent sm' ∧
  match res with
  | Ok _ =>
    ∃ torrents d1, GetTorrentsCtx no_filter d = (Ok torrents, d1) ∧
      (NoDup (t_Hash <$> torrents) →
       (∀ options, plain_listing options → ∃ l, GetTorrentsUnchecked options sm' = Some (Some l) ∧
          l ≡ₚ filter (λ t, matchesTorrentFilter t options = true) torrents) ∧
       (∀ h t, GetTorrentUnchecked h sm' = Some t ↔ t ∈ torrents ∧ t_Hash t = h))
  | Err e =>
    sm_lastError sm' = Some e ∧
    (sm_data sm ≠ None → (∀ options, GetTorrentsUnchecked options sm' = GetTorrentsUnchecked options sm) ∧
       (∀ h, GetTorrentUnchecked h sm' = GetTorrentUnchecked h sm))
  end.
Proof.
  intros Hc. pose proof (doSync_consistent r start now stop sm d Hc) as Hc'. unfold doSync in *.
  destruct (Update now d) as [[data|e] d'] eqn:Hrun; cbn [fst snd] in Hc'; (split; [done|]).
  - apply Update_ok in Hrun as (l & d1 & Hget & Hm). exists l, d1. split; [done|]. intros Hnd. split.
    + intros o Ho. unfold GetTorrentsUnchecked. cbn [sm_data sm_allTorrents]. rewrite plain_options by done.
      eexists. split; [done|]. destruct Hc' as [Hp _]. cbn in Hp. by rewrite Hp, Hm, torrent_map_values.
    + intros h t. unfold GetTorrentUnchecked. cbn. rewrite Hm. split; [apply torrent_map_spec|].
      intros [Ht <-]. by apply (foldl_insert_lookup t_Hash id).
  - cbn. split; [done|]. intros Hne. destruct (sm_data sm) as [data|] eqn:E; [|done].
    unfold GetTorrentsUnchecked, GetTorrentUnchecked. cbn. by rewrite E.
Qed.
End snapshot.

(** [wants_sync] never holds right after a sync, whether it failed or not; the
    next interval is never below the minimum when jitter is on. *)
Lemma interval_at_least (randVal : float64) (sm : SyncManager) :
  (0 < so_JitterPercent (sm_options sm) ≤ 100)%Z ∨ (so_MinSyncInterval (sm_options sm) ≤ so_MaxSyncInterval (sm_options sm))%Z →
  (so_MinSyncInterval (sm_options sm) ≤ calculateNextInterval randVal sm)%Z.
Proof.
  unfold calculateNextInterval. cbv zeta. set (o := sm_options sm).
  destruct ((0 <? so_JitterPercent o)%Z && (so_JitterPercent o <=? 100)%Z) eqn:E.
  - intros _. match goal with |- context [if (?x <? ?y)%Z then ?y else ?x] => destruct (Z.ltb_spec x y); lia end.
  - intros [?|Hle]; [lia|].
    repeat match goal with |- context [if (?x <? ?y)%Z then _ else _] => destruct (Z.ltb_spec x y) end; lia.
Qed.

#[local] Existing Instance AsciiCase.
#[local] Existing Instance PlainErrors.

Lemma plain_no_filter : plain_listing no_filter.
Proof. split_and!; [done|by vm_compute..]. Qed.

Definition synced : SyncManager := (doSync key_order 0 1 2 (NewSyncManager DefaultSyncOptions) two_torrents).1.2.

Lemma sync_snapshot_witness :
  ∃ l, GetTorrentsUnchecked no_filter synced = Some (Some l) ∧ length l = 2 ∧
    l ≡ₚ filter (λ t, matchesTorrentFilter t no_filter = true) (toQBT <$> simple_get {[ "fields"%string := VStrs torrentFields ]} two_torrents).
Proof.
  pose proof (sync_snapshot key_order 0 1 2 (NewSyncManager DefaultSyncOptions) two_torrents eq_refl) as Hsync.
  assert (doSync key_order 0 1 2 (NewSyncManager DefaultSyncOptions) two_torrents = (Ok tt, synced, two_torrents)) as E by (by vm_compute).
  rewrite E in Hsync. destruct Hsync as (_ & l & d1 & Hget & Hq).
  assert (l = toQBT <$> simple_get {[ "fields"%string := VStrs torrentFields ]} two_torrents) as ->.
  { revert Hget. vm_compute. by intros [= <- _]. }
  destruct Hq as [Hq _]; [apply (bool_decide_eq_true_1 _); by vm_compute|].
  clear Hget E. destruct (Hq no_filter plain_no_filter) as (l & Hl & Hp). exists l.
  split; [exact Hl|]. split; [|exact Hp]. rewrite Hp. by vm_compute.
Defined.

(** With jitter the interval may exceed the maximum: 44.7 s instead of 30 s. *)
Example interval_exceeds_maximum :
  calculateNextInterval (f64_div (f64_of_Z 49) (f64_of_Z 100))
    (MkSyncManager None 0 0 (60 * Second) None [] (MkSyncOptions true Second true (30 * Second) Second 100)) = 44700000000%Z.
Proof. by vm_compute. Qed.

(** A failed sync is remembered as the last sync, so that the stale data is
    served for another interval without a retry. *)
Example failed_sync_is_fresh :
  let '(r, sm, _) :=
    @doSync unit AsciiCase PlainErrors (λ _ _ _ d, (Err "offline", d)) key_order 0 0 0 (NewSyncManager DefaultSyncOptions) tt in
  is_ok r = false ∧ wants_sync (2 * Second) sm = false ∧ GetTorrentsUnchecked no_filter sm = Some (Some []).
Proof. by vm_compute. Qed.
