(* ===== verification/Reannounce.v ===== *)
(** * [internal/services/reannounce], [models/instance_reannounce.go]

    The service that announces stalled torrents again: its settings, which
    torrents it watches, the jobs that are at most one per torrent and wait a
    while after each attempt, and the record of what it did. *)

From Stdlib Require Import ZArith Lia Ascii.
From stdpp Require Import base numbers list strings gmap sorting.
From S2P Require Import Prelude.
From S2P Require Import Order.
From S2P Require Import GoStrings.
From S2P Require Import GoFloat.
From S2P Require Import Domain.
From S2P Require Import Conditions.
From S2P Require Import Grouping.
From S2P Require Import TrackerHealth.
From S2P Require Import Normalizer.
From S2P Require Import Processor.

Open Scope qui_scope.

(** ** Settings *)

Record InstanceReannounceSettings := MkSettings {
  si_InstanceID : Z; si_Enabled : bool; si_InitialWaitSeconds : Z; si_ReannounceIntervalSeconds : Z;
  si_MaxAgeSeconds : Z; si_MaxRetries : Z; si_Aggressive : bool; si_MonitorAll : bool;
  si_ExcludeCategories : bool; si_Categories : list string; si_ExcludeTags : bool; si_Tags : list string;
  si_ExcludeTrackers : bool; si_Trackers : list string }.

Definition defaultInitialWaitSeconds : Z := 15.
Definition defaultReannounceIntervalSecs : Z := 7.
Definition defaultMaxAgeSeconds : Z := 600.
Definition defaultMaxRetries : Z := 50.
Definition minMaxRetries : Z := 1.
Definition maxMaxRetries : Z := 50.

Definition DefaultInstanceReannounceSettings (instanceID : Z) : InstanceReannounceSettings :=
  MkSettings instanceID false defaultInitialWaitSeconds defaultReannounceIntervalSecs defaultMaxAgeSeconds
    defaultMaxRetries false false false [] false [] false [].

(** The table of settings: [None] when the query fails, [Some None] when there
    is no row. *)
Abbreviation SettingsRows := (Z → option (option InstanceReannounceSettings)).

Section settings.
Context `{!UnicodeCase}.

(** One value of [SanitizeStringSlice]: the keys seen, and the result. *)
Definition sanitize_step (acc : gset string * list string) (value : string) : gset string * list string :=
  let '(seen, result) := acc in
  let trimmed := TrimSpace value in
  if bool_decide (trimmed = ""%string) then acc
  else
    let lower := normalizeLowerTrim trimmed in
    if bool_decide (lower ∈ seen) then acc else ({[lower]} ∪ seen, result ++ [trimmed]).

Definition SanitizeStringSlice (values : list string) : list string := (foldl sanitize_step (∅, []) values).2.

Definition clamp_retries (n : Z) : Z :=
  (if n <? minMaxRetries then minMaxRetries else if maxMaxRetries <? n then maxMaxRetries else n)%Z.

Definition positive_or (n d : Z) : Z := (if n <=? 0 then d else n)%Z.

Definition sanitizeInstanceReannounceSettings (s : InstanceReannounceSettings) : InstanceReannounceSettings :=
  MkSettings (si_InstanceID s) (si_Enabled s)
    (positive_or (si_InitialWaitSeconds s) defaultInitialWaitSeconds)
    (positive_or (si_ReannounceIntervalSeconds s) defaultReannounceIntervalSecs)
    (positive_or (si_MaxAgeSeconds s) defaultMaxAgeSeconds)
    (clamp_retries (si_MaxRetries s)) (si_Aggressive s) (si_MonitorAll s)
    (si_ExcludeCategories s) (SanitizeStringSlice (si_Categories s))
    (si_ExcludeTags s) (SanitizeStringSlice (si_Tags s))
    (si_ExcludeTrackers s) (SanitizeCommaSeparatedStringSlice (si_Trackers s)).

Definition store_Get (rows : SettingsRows) (instanceID : Z) : option InstanceReannounceSettings :=
  row ← rows instanceID;
  Some (match row with
        | Some settings => sanitizeInstanceReannounceSettings settings
        | None => DefaultInstanceReannounceSettings instanceID
        end).
End settings.

Abbreviation SettingsCache := (gmap Z InstanceReannounceSettings).

(** [LoadAll]: the cache becomes what the table has. *)
Definition LoadAll (stored : list InstanceReannounceSettings) : SettingsCache :=
  foldl (λ m s, <[si_InstanceID s := s]> m) ∅ stored.

Definition Replace (settings : InstanceReannounceSettings) (c : SettingsCache) : SettingsCache :=
  <[si_InstanceID settings := settings]> c.

(** ** Trackers and filters *)

Section filters.
Context `{!UnicodeCase, !Library}.

Definition extractTrackerDomain (trackerURL : string) : string :=
  if bool_decide (trackerURL = "") then "" else
  let domain := ExtractDomainFromURL trackerURL in
  if negb (bool_decide (domain = "")) then domain else
  match url_hostname trackerURL with
  | Some host => if negb (bool_decide (host = "")) then host else TrimSpace trackerURL
  | None => TrimSpace trackerURL
  end.

(** The status and message of a tracker that works. *)
Definition isHealthy (tracker : TorrentTracker) : bool :=
  bool_decide (tt_Status tracker = TrackerStatusOK) && negb (TrackerMessageMatchesUnregistered (tt_Message tracker)).

Fixpoint hasHealthyTracker (trackers : list TorrentTracker) : bool :=
  match trackers with
  | [] => false
  | tracker :: trackers =>
    if bool_decide (tt_Status tracker = TrackerStatusDisabled) then hasHealthyTracker trackers
    else if TrackerMessageMatchesUnregistered (tt_Message tracker) then hasHealthyTracker trackers
    else if bool_decide (tt_Status tracker = TrackerStatusOK) then true
    else hasHealthyTracker trackers
  end.

(** One tracker of the two lists of domains: [wanted] says which are listed. *)
Definition domain_step (wanted : TorrentTracker → bool) (acc : gset string * list string) (tracker : TorrentTracker)
    : gset string * list string :=
  let '(seenDomains, domains) := acc in
  if bool_decide (tt_Status tracker = TrackerStatusDisabled) then acc
  else if wanted tracker then
    let domain := extractTrackerDomain (tt_Url tracker) in
    if bool_decide (domain = "") then acc else
    let domainLower := ToLower domain in
    if bool_decide (domainLower ∈ seenDomains) then acc else ({[domainLower]} ∪ seenDomains, domains ++ [domain])
  else acc.

Definition getProblematicTrackers (trackers : list TorrentTracker) : string :=
  Join (foldl (domain_step (λ tracker, negb (isHealthy tracker))) (∅, []) trackers).2 ", ".

Definition getHealthyTrackers (trackers : list TorrentTracker) : string :=
  Join (foldl (domain_step isHealthy) (∅, []) trackers).2 ", ".

(** The loop of [trackersUpdating]: [None] when it returns early. *)
Fixpoint count_updating (trackers : list TorrentTracker) (activeCount : Z) : option Z :=
  match trackers with
  | [] => Some activeCount
  | tracker :: trackers =>
    if bool_decide (tt_Status tracker = TrackerStatusDisabled) then count_updating trackers activeCount
    else if bool_decide (tt_Status tracker ∈ [TrackerStatusUpdating; TrackerStatusNotContacted])
    then count_updating trackers (activeCount + 1)
    else None
  end.

Definition trackersUpdating (trackers : list TorrentTracker) : bool :=
  match count_updating trackers 0 with
  | Some activeCount => (0 <? activeCount)%Z
  | None => false
  end.

Definition splitTags (raw : string) : list string :=
  if bool_decide (raw = "") then [] else filter (λ t, t ≠ ""%string) (TrimSpace <$> Split raw ","%char).

Definition normalizeHashes_step (acc : gset string * list string) (hash : string) : gset string * list string :=
  let '(seen, result) := acc in
  let norm := ToUpper (TrimSpace hash) in
  if bool_decide (norm = "") then acc
  else if bool_decide (norm ∈ seen) then acc else ({[norm]} ∪ seen, result ++ [norm]).

Definition normalizeHashes (hashes : list string) : list string := (foldl normalizeHashes_step (∅, []) hashes).2.

(** Whether a list of the settings names the category, a tag or a tracker. *)
Definition names_category (settings : InstanceReannounceSettings) (t : Torrent) : bool :=
  existsb (λ category, EqualFold category (t_Category t)) (si_Categories settings).

Definition names_tag (settings : InstanceReannounceSettings) (t : Torrent) : bool :=
  existsb (λ tag, existsb (λ configured, EqualFold configured tag) (si_Tags settings)) (splitTags (t_Tags t)).

Definition names_tracker (settings : InstanceReannounceSettings) (t : Torrent) : bool :=
  existsb (λ tracker, let domain := extractTrackerDomain (tt_Url tracker) in
                      existsb (λ expected, EqualFold domain expected) (si_Trackers settings)) (t_Trackers t).

Definition nonempty {A} (l : list A) : bool := match l with [] => false | _ => true end.

Definition torrentMatchesFilters (t : Torrent) (settings : InstanceReannounceSettings) : bool :=
  if negb (si_Enabled settings) then false
  else if negb (bool_decide (t_State t = TorrentStateStalledDl)) && negb (bool_decide (t_State t = TorrentStateStalledUp)) then false
  else if ((0 <? si_MaxAgeSeconds settings) && (si_MaxAgeSeconds settings <? t_TimeActive t))%Z then false
  else if si_ExcludeCategories settings && nonempty (si_Categories settings) && names_category settings t then false
  else if si_ExcludeTags settings && nonempty (si_Tags settings) && names_tag settings t then false
  else if si_ExcludeTrackers settings && nonempty (si_Trackers settings) && names_tracker settings t then false
  else if si_MonitorAll settings then true
  else
    let hasInclusionCriteria :=
      nonempty (si_Categories settings) && negb (si_ExcludeCategories settings) ||
      nonempty (si_Tags settings) && negb (si_ExcludeTags settings) ||
      nonempty (si_Trackers settings) && negb (si_ExcludeTrackers settings) in
    if negb hasInclusionCriteria then false
    else if negb (si_ExcludeCategories settings) && nonempty (si_Categories settings) && names_category settings t then true
    else if negb (si_ExcludeTags settings) && nonempty (si_Tags settings) && names_tag settings t then true
    else if negb (si_ExcludeTrackers settings) && nonempty (si_Trackers settings) && names_tracker settings t then true
    else false.

Definition inInitialWait (t : Torrent) (settings : InstanceReannounceSettings) : bool :=
  ((0 <? si_InitialWaitSeconds settings) && (t_TimeActive t <? si_InitialWaitSeconds settings))%Z.

Definition torrentMeetsCriteria (t : Torrent) (settings : InstanceReannounceSettings) : bool :=
  if negb (torrentMatchesFilters t settings) then false
  else if inInitialWait t settings then false else true.
End filters.

(** ** The service *)

(** Times are in nanoseconds; [None] is the zero time. *)
Record reannounceJob := MkJob { lastRequested : option Z; isRunning : bool; lastCompleted : option Z }.
Definition new_job : reannounceJob := MkJob None false None.

Inductive ActivityOutcome : Type := ActivityOutcomeSkipped | ActivityOutcomeFailed | ActivityOutcomeSucceeded.

#[export] Instance ActivityOutcome_eq_dec : EqDecision ActivityOutcome.
Proof. solve_decision. Defined.

Record ActivityEvent := MkActivity {
  ae_InstanceID : Z; ae_Hash : string; ae_TorrentName : string; ae_Trackers : string;
  ae_Outcome : ActivityOutcome; ae_Reason : string; ae_Timestamp : Z }.

Record Config := MkConfig { ScanInterval : Z; DebounceWindow : Z; HistorySize : Z }.

Definition defaultHistorySize : Z := 50.
Definition DefaultConfig : Config := MkConfig (7 * Second) (120 * Second) defaultHistorySize.

(** What a job does next: announce and record the outcome, or finish. *)
Inductive phase : Type := Announcing | Recorded.

Record attempt := MkAttempt {
  at_instanceID : Z; at_hash : string; at_torrentName : string; at_trackers : string; at_phase : phase }.

(** The state of the service, with the goroutines of its jobs. *)
Record Service := MkService {
  cfg : Config; settingsCache : SettingsCache; j : gmap Z (gmap string reannounceJob); baseCtx : bool;
  historySucceeded : gmap Z (list ActivityEvent); historyFailed : gmap Z (list ActivityEvent);
  historySkipped : gmap Z (list ActivityEvent); spawned : list attempt }.

Definition NewService (c : Config) : Service :=
  MkService (MkConfig (positive_or (ScanInterval c) (ScanInterval DefaultConfig))
                      (positive_or (DebounceWindow c) (DebounceWindow DefaultConfig))
                      (positive_or (HistorySize c) (HistorySize DefaultConfig)))
    ∅ ∅ false ∅ ∅ ∅ [].

Definition set_cache (c : SettingsCache) (s : Service) : Service :=
  MkService (cfg s) c (j s) (baseCtx s) (historySucceeded s) (historyFailed s) (historySkipped s) (spawned s).
Definition set_jobs (jobs : gmap Z (gmap string reannounceJob)) (s : Service) : Service :=
  MkService (cfg s) (settingsCache s) jobs (baseCtx s) (historySucceeded s) (historyFailed s) (historySkipped s) (spawned s).
Definition set_spawned (l : list attempt) (s : Service) : Service :=
  MkService (cfg s) (settingsCache s) (j s) (baseCtx s) (historySucceeded s) (historyFailed s) (historySkipped s) l.
Definition setBaseContext (s : Service) : Service :=
  MkService (cfg s) (settingsCache s) (j s) true (historySucceeded s) (historyFailed s) (historySkipped s) (spawned s).

(** The last [n] elements of a slice that is longer. *)
Definition keep_last {A} (n : nat) (l : list A) : list A := if (n <? length l)%nat then drop (length l - n) l else l.

Definition push (limit : nat) (instanceID : Z) (event : ActivityEvent) (history : gmap Z (list ActivityEvent))
    : gmap Z (list ActivityEvent) :=
  <[instanceID := keep_last limit (default [] (history !! instanceID) ++ [event])]> history.

Definition history_limit (s : Service) : nat :=
  Z.to_nat (if HistorySize (cfg s) <=? 0 then defaultHistorySize else HistorySize (cfg s))%Z.

Section service.
Context `{!UnicodeCase, !Library}.

Definition recordActivity (stamp instanceID : Z) (hash torrentName trackers : string) (outcome : ActivityOutcome)
    (reason : string) (s : Service) : Service :=
  if bool_decide (instanceID = 0%Z) then s else
  let limit := history_limit s in
  let event := MkActivity instanceID (ToUpper (TrimSpace hash)) torrentName (TrimSpace trackers) outcome (TrimSpace reason) stamp in
  match outcome with
  | ActivityOutcomeSucceeded =>
    MkService (cfg s) (settingsCache s) (j s) (baseCtx s)
      (push (limit * 2) instanceID event (historySucceeded s)) (historyFailed s) (historySkipped s) (spawned s)
  | ActivityOutcomeFailed =>
    MkService (cfg s) (settingsCache s) (j s) (baseCtx s)
      (historySucceeded s) (push (limit * 2) instanceID event (historyFailed s)) (historySkipped s) (spawned s)
  | ActivityOutcomeSkipped =>
    MkService (cfg s) (settingsCache s) (j s) (baseCtx s)
      (historySucceeded s) (historyFailed s) (push limit instanceID event (historySkipped s)) (spawned s)
  end.

Definition getSettings (rows : SettingsRows) (instanceID : Z) (s : Service) : InstanceReannounceSettings * Service :=
  match settingsCache s !! instanceID with
  | Some cached => (cached, s)
  | None =>
    match store_Get rows instanceID with
    | Some settings => (settings, set_cache (Replace settings (settingsCache s)) s)
    | None => (DefaultInstanceReannounceSettings instanceID, s)
    end
  end.

Definition effectiveDebounceWindow (c : Config) (settings : InstanceReannounceSettings) : Z :=
  let interval := i64 (si_ReannounceIntervalSeconds settings * Second) in
  if si_Aggressive settings && (0 <? interval)%Z then interval else DebounceWindow c.

(** What becomes of a request; an attempt starts with the window it kept. *)
Inductive request : Type :=
| Rejected
| AlreadyRunning
| Debounced
| Started (window : Z).

#[export] Instance request_eq_dec : EqDecision request.
Proof. solve_decision. Defined.

(** The result of [enqueue]. *)
Definition handled (r : request) : bool := match r with Rejected => false | _ => true end.

Definition jobs_of (s : Service) (instanceID : Z) : gmap string reannounceJob := default ∅ (j s !! instanceID).
Definition set_job (instanceID : Z) (hash : string) (job : reannounceJob) (s : Service) : Service :=
  set_jobs (<[instanceID := <[hash := job]> (jobs_of s instanceID)]> (j s)) s.

(** Whether the last attempt is so recent that a request waits. *)
Definition cooling (now window : Z) (job : reannounceJob) : bool :=
  match lastCompleted job with
  | Some completed => ((0 <? window) && (now - completed <? window))%Z
  | None => false
  end.

Definition enqueue (rows : SettingsRows) (now stamp instanceID : Z) (hash torrentName trackers : string) (s : Service)
    : request * Service :=
  let skip reason s := recordActivity stamp instanceID hash torrentName trackers ActivityOutcomeSkipped reason s in
  if bool_decide (hash = "") then (Rejected, s)
  else if negb (baseCtx s) then (Rejected, skip "service not started" s)
  else
    let job := default new_job (jobs_of s instanceID !! hash) in
    let job := MkJob (Some now) (isRunning job) (lastCompleted job) in
    let s := set_job instanceID hash job s in
    if isRunning job then (AlreadyRunning, skip "already running" s)
    else
      let '(settings, s) := getSettings rows instanceID s in
      let debounceWindow := effectiveDebounceWindow (cfg s) settings in
      if cooling now debounceWindow job then
        (Debounced, skip (if si_Aggressive settings then "debounced during retry interval window"
                          else "debounced during cooldown window") s)
      else
        let s := set_job instanceID hash (MkJob (Some now) true (lastCompleted job)) s in
        (Started debounceWindow,
         set_spawned (spawned s ++ [MkAttempt instanceID hash torrentName trackers Announcing]) s).

(** What the client answers during an attempt, errors as their texts. *)
Record client_calls := MkCalls {
  cc_GetClient : option string;
  cc_GetTorrentTrackers : string + list TorrentTracker;
  cc_ReannounceTorrentWithRetry : Z → Z → option string }.

(** The activity an attempt records: the trackers, the outcome and the reason. *)
Definition attempt_outcome (settings : InstanceReannounceSettings) (calls : client_calls) (initialTrackers : string)
    : string * ActivityOutcome * string :=
  match cc_GetClient calls with
  | Some err => (initialTrackers, ActivityOutcomeFailed, "client unavailable: " +++ err)
  | None =>
    match cc_GetTorrentTrackers calls with
    | inl err => (initialTrackers, ActivityOutcomeFailed, "failed to load trackers: " +++ err)
    | inr trackerList =>
      if hasHealthyTracker trackerList then (getHealthyTrackers trackerList, ActivityOutcomeSkipped, "tracker healthy")
      else
        let freshTrackers := getProblematicTrackers trackerList in
        let freshTrackers := if bool_decide (freshTrackers = "") then initialTrackers else freshTrackers in
        match cc_ReannounceTorrentWithRetry calls (si_ReannounceIntervalSeconds settings) (si_MaxRetries settings) with
        | Some err => (freshTrackers, ActivityOutcomeFailed, "reannounce failed: " +++ err)
        | None => (freshTrackers, ActivityOutcomeSucceeded, "reannounce requested")
        end
    end
  end.

(** [executeJob] up to its deferred [finishJob]. *)
Definition executeJob (rows : SettingsRows) (calls : client_calls) (stamp : Z) (a : attempt) (s : Service) : Service :=
  let '(settings, s) := getSettings rows (at_instanceID a) s in
  let '(trackers, outcome, reason) := attempt_outcome settings calls (at_trackers a) in
  recordActivity stamp (at_instanceID a) (at_hash a) (at_torrentName a) trackers outcome reason s.

Definition finishJob (now instanceID : Z) (hash : string) (s : Service) : Service :=
  match j s !! instanceID with
  | None => s
  | Some instJobs =>
    let instJobs :=
      match instJobs !! hash with
      | Some job =>
        let requested := default now (lastRequested job) in
        if (DebounceWindow (cfg s) <? now - requested)%Z then delete hash instJobs
        else <[hash := MkJob (Some requested) false (Some now)]> instJobs
      | None => instJobs
      end in
    set_jobs (if bool_decide (instJobs = ∅) then delete instanceID (j s) else <[instanceID := instJobs]> (j s)) s
  end.

(** The torrents a scan asks for, with their names and problematic trackers. *)
Definition scan_targets (settings : InstanceReannounceSettings) (torrents : list Torrent) : list (string * string * string) :=
  omap (λ t,
    if negb (torrentMeetsCriteria t settings) then None
    else if nonempty (t_Trackers t) && hasHealthyTracker (t_Trackers t) then None
    else Some (ToUpper (t_Hash t), t_Name t, getProblematicTrackers (t_Trackers t))) torrents.

(** The torrents [RequestReannounce] asks for; [lookupTorrents] puts them under
    their hashes in upper case. *)
Definition lookupTorrents (r : MapRange) (found : gmap string Torrent) : gmap string Torrent :=
  foldl (λ m e, <[ToUpper e.1 := e.2]> m) ∅ (range r 0 found).

Definition request_targets (r : MapRange) (settings : InstanceReannounceSettings) (torrents : gmap string Torrent)
    : list (string * string * string) :=
  omap (λ '(hash, t),
    if negb (torrentMeetsCriteria t settings) then None
    else if hasHealthyTracker (t_Trackers t) then None
    else Some (hash, t_Name t, getProblematicTrackers (t_Trackers t))) (range r 1 torrents).

(** The requests of a scan one after the other, with the times of each; the
    hashes that were handled. *)
Definition enqueue_all (rows : SettingsRows) (instanceID : Z) (targets : list (string * string * string * (Z * Z))) (s : Service)
    : list string * Service :=
  foldl (λ '(hashes, s) '(hash, name, trackers, (now, stamp)),
    let '(r, s) := enqueue rows now stamp instanceID hash name trackers s in
    (if handled r then hashes ++ [hash] else hashes, s)) ([], s) targets.

(** ** What the service shows *)

Inductive MonitoredTorrentState : Type :=
| MonitoredTorrentStateWatching | MonitoredTorrentStateReannouncing | MonitoredTorrentStateCooldown.

Record MonitoredTorrent := MkMonitored {
  mt_InstanceID : Z; mt_Hash : string; mt_TorrentName : string; mt_Trackers : string; mt_TimeActiveSeconds : Z;
  mt_Category : string; mt_Tags : string; mt_State : MonitoredTorrentState; mt_HasTrackerProblem : bool;
  mt_WaitingForInitial : bool }.

Definition monitored_state (now debounceWindow : Z) (job : option reannounceJob) : MonitoredTorrentState :=
  match job with
  | Some job =>
    if isRunning job then MonitoredTorrentStateReannouncing
    else match lastCompleted job with
         | Some completed => if (now - completed <? debounceWindow)%Z then MonitoredTorrentStateCooldown
                             else MonitoredTorrentStateWatching
         | None => MonitoredTorrentStateWatching
         end
  | None => MonitoredTorrentStateWatching
  end.

Definition monitored (now debounceWindow instanceID : Z) (settings : InstanceReannounceSettings) (s : Service) (t : Torrent)
    : option MonitoredTorrent :=
  if negb (torrentMatchesFilters t settings) then None else
  let waiting := inInitialWait t settings in
  let healthy := hasHealthyTracker (t_Trackers t) in
  let updating := trackersUpdating (t_Trackers t) in
  let hasProblem := negb healthy && negb updating in
  let waitingForTrackers := updating && negb healthy in
  if negb hasProblem && negb waitingForTrackers && negb waiting then None else
  let hashUpper := ToUpper (TrimSpace (t_Hash t)) in
  if bool_decide (hashUpper = "") then None else
  Some (MkMonitored instanceID hashUpper (t_Name t) (getProblematicTrackers (t_Trackers t)) (t_TimeActive t)
          (t_Category t) (t_Tags t) (monitored_state now debounceWindow (jobs_of s instanceID !! hashUpper))
          hasProblem (waiting || waitingForTrackers)).

(** [torrents] is the answer of the client, [None] an error. *)
Definition GetMonitoredTorrents (rows : SettingsRows) (now instanceID : Z) (torrents : option (list Torrent)) (s : Service)
    : list MonitoredTorrent * Service :=
  if bool_decide (instanceID = 0%Z) then ([], s) else
  let '(settings, s) := getSettings rows instanceID s in
  if negb (si_Enabled settings) then ([], s) else
  match torrents with
  | None => ([], s)
  | Some torrents =>
    (omap (monitored now (effectiveDebounceWindow (cfg s) settings) instanceID settings s) torrents, s)
  end.

Definition GetActivity (instanceID limit : Z) (s : Service) : list ActivityEvent :=
  if bool_decide (instanceID = 0%Z) then [] else
  let all := default [] (historySucceeded s !! instanceID) ++ default [] (historyFailed s !! instanceID) ++
             default [] (historySkipped s !! instanceID) in
  let all := sort_slice (λ a b, ae_Timestamp a <? ae_Timestamp b)%Z all in
  if (0 <? limit)%Z then keep_last (Z.to_nat limit) all else all.
End service.

(** ** Steps

    The goroutines of the jobs run between requests: each announces, records
    the outcome and then finishes. *)

Inductive label : Type :=
| LRequest (instanceID : Z) (hash : string) (now : Z) (r : request)
| LFinish (instanceID : Z) (hash : string) (now : Z)
| LOther.

Definition recorded (a : attempt) : attempt :=
  MkAttempt (at_instanceID a) (at_hash a) (at_torrentName a) (at_trackers a) Recorded.

Section steps.
Context `{!UnicodeCase, !Library}.

Inductive step : Service → label → Service → Prop :=
| step_request rows now stamp i h name trackers s r s' :
    enqueue rows now stamp i h name trackers s = (r, s') → step s (LRequest i h now r) s'
| step_announce rows calls stamp a before after s :
    spawned s = before ++ a :: after → at_phase a = Announcing →
    step s LOther (executeJob rows calls stamp a (set_spawned (before ++ recorded a :: after) s))
| step_finish now a before after s :
    spawned s = before ++ a :: after → at_phase a = Recorded →
    step s (LFinish (at_instanceID a) (at_hash a) now)
      (finishJob now (at_instanceID a) (at_hash a) (set_spawned (before ++ after) s))
| step_context s : step s LOther (setBaseContext s)
| step_settings c s : step s LOther (set_cache c s).

(** What a service does, the labels in order. *)
Inductive runs (s : Service) : list label → Service → Prop :=
| runs_nil : runs s [] s
| runs_snoc tr s1 l s2 : runs s tr s1 → step s1 l s2 → runs s (tr ++ [l]) s2.

(** ** What requests and attempts leave alone *)

Lemma recordActivity_frame stamp i h name trackers outcome reason s :
  let s' := recordActivity stamp i h name trackers outcome reason s in
  j s' = j s ∧ spawned s' = spawned s ∧ cfg s' = cfg s ∧ baseCtx s' = baseCtx s.
Proof. unfold recordActivity. case_bool_decide; [done|]. by destruct outcome. Qed.

Lemma getSettings_frame rows i s :
  let s' := (getSettings rows i s).2 in
  j s' = j s ∧ spawned s' = spawned s ∧ cfg s' = cfg s ∧ baseCtx s' = baseCtx s ∧
  historySucceeded s' = historySucceeded s ∧ historyFailed s' = historyFailed s ∧ historySkipped s' = historySkipped s.
Proof. unfold getSettings. destruct (_ !! _); [done|]. by destruct (store_Get _ _). Qed.

Lemma jobs_of_set_job s i h job i' h' :
  jobs_of (set_job i h job s) i' !! h' = if decide (i = i' ∧ h = h') then Some job else jobs_of s i' !! h'.
Proof.
  unfold jobs_of, set_job. cbn [j set_jobs]. destruct (decide (i = i')) as [<-|Hi].
  - rewrite lookup_insert_eq. cbn [default]. simpl. destruct (decide (h = h')) as [<-|Hh].
    + by rewrite lookup_insert_eq, decide_True.
    + rewrite lookup_insert_ne by done. rewrite decide_False by naive_solver. done.
  - rewrite lookup_insert_ne by done. by rewrite decide_False by naive_solver.
Qed.

(** A finished job waits, or is forgotten when it was last requested too long ago. *)
Definition finished (window now : Z) (job : reannounceJob) : option reannounceJob :=
  let requested := default now (lastRequested job) in
  if (window <? now - requested)%Z then None else Some (MkJob (Some requested) false (Some now)).

Lemma jobs_of_finishJob now s i h i' h' :
  jobs_of (finishJob now i h s) i' !! h' =
  if decide (i = i' ∧ h = h') then jobs_of s i !! h ≫= finished (DebounceWindow (cfg s)) now else jobs_of s i' !! h'.
Proof.
  unfold finishJob, jobs_of. destruct (j s !! i) as [m|] eqn:Ei.
  2:{ case_decide as E; [|done]. destruct E as [<- <-]. by rewrite Ei. }
  set (m' := match m !! h with Some _ => _ | None => m end).
  assert (∀ x, m' !! x = if decide (h = x) then m !! h ≫= finished (DebounceWindow (cfg s)) now else m !! x) as Hm.
  { intros x. subst m'. unfold finished. destruct (m !! h) as [job|] eqn:Eh; simpl.
    - case_match; case_decide; subst; by rewrite ?lookup_delete_eq, ?lookup_insert_eq, ?lookup_delete_ne, ?lookup_insert_ne.
    - case_decide; by subst. }
  cbn [j set_jobs]. simpl. destruct (decide (i = i')) as [<-|Hi].
  - transitivity (m' !! h').
    { case_bool_decide as Em; [rewrite lookup_delete_eq; simpl; by rewrite Em|by rewrite lookup_insert_eq]. }
    rewrite Hm. repeat case_decide; try naive_solver. by rewrite Ei.
  - rewrite decide_False by naive_solver. f_equal. f_equal.
    case_bool_decide; [by rewrite lookup_delete_ne|by rewrite lookup_insert_ne].
Qed.

(** ** What a trace says of a torrent *)

(** Whether an attempt is open, when it was last requested, and the completion
    that is still remembered. *)
Record view := MkView { v_open : bool; v_requested : option Z; v_completed : option Z }.

Definition view_step (window : Z) (i : Z) (h : string) (v : view) (l : label) : view :=
  match l with
  | LRequest i' h' t r =>
    if decide (i' = i ∧ h' = h) then
      match r with
      | Rejected => v
      | Started _ => MkView true (Some t) (v_completed v)
      | _ => MkView (v_open v) (Some t) (v_completed v)
      end
    else v
  | LFinish i' h' now =>
    if decide (i' = i ∧ h' = h) then
      MkView false (Some (default now (v_requested v))) (if (window <? now - default now (v_requested v))%Z then None else Some now)
    else v
  | LOther => v
  end.

Definition view_of (window : Z) (i : Z) (h : string) (tr : list label) : view :=
  foldl (view_step window i h) (MkView false None None) tr.

Definition attempts_of (i : Z) (h : string) (l : list attempt) : list attempt :=
  filter (λ a, at_instanceID a = i ∧ at_hash a = h) l.

(** The jobs and goroutines of a service agree with what happened. *)
Definition agrees (tr : list label) (s : Service) : Prop :=
  ∀ i h,
    let v := view_of (DebounceWindow (cfg s)) i h tr in
    let job := jobs_of s i !! h in
    v_open v = from_option isRunning false job ∧
    v_completed v = (job ≫= lastCompleted) ∧
    (∀ jb, job = Some jb → lastRequested jb = v_requested v) ∧
    length (attempts_of i h (spawned s)) = if v_open v then 1%nat else 0%nat.

Lemma view_of_snoc window i h tr l : view_of window i h (tr ++ [l]) = view_step window i h (view_of window i h tr) l.
Proof. unfold view_of. by rewrite foldl_snoc. Qed.

(** What does not touch the jobs. *)
Lemma agrees_frame tr s s' :
  agrees tr s → j s' = j s → cfg s' = cfg s → (∀ i h, length (attempts_of i h (spawned s')) = length (attempts_of i h (spawned s))) →
  agrees tr s'.
Proof. intros Ha Hj Hc Hs i h. unfold jobs_of. rewrite Hj, Hc, Hs. apply Ha. Qed.

Definition is_started (r : request) : bool := match r with Started _ => true | _ => false end.

Lemma enqueue_spec rows now stamp i h name trackers s r s' :
  enqueue rows now stamp i h name trackers s = (r, s') →
  let job := default new_job (jobs_of s i !! h) in
  cfg s' = cfg s ∧
  (r = Rejected → j s' = j s ∧ spawned s' = spawned s) ∧
  (r ≠ Rejected →
     (∀ i' h', jobs_of s' i' !! h' =
        if decide (i = i' ∧ h = h') then Some (MkJob (Some now) (is_started r || isRunning job) (lastCompleted job))
        else jobs_of s i' !! h') ∧
     spawned s' = spawned s ++ (if is_started r then [MkAttempt i h name trackers Announcing] else [])) ∧
  (∀ w, r = Started w → isRunning job = false ∧ cooling now w job = false).
Proof.
  intros He. cbv zeta. unfold enqueue in He. set (job := default new_job (jobs_of s i !! h)) in *. cbv zeta in He.
  case_bool_decide; [by injection He as <- <-|].
  destruct (baseCtx s) eqn:Eb; cbn [negb] in He.
  2:{ injection He as <- <-. edestruct recordActivity_frame as (-> & -> & -> & _). naive_solver. }
  cbn [isRunning] in He. destruct (isRunning job) eqn:Er.
  { injection He as <- <-. edestruct recordActivity_frame as (Hj & -> & -> & _). split; [done|]. split; [done|].
    split; [|done]. intros _. split; [|by rewrite app_nil_r]. intros i' h'. unfold jobs_of at 1. rewrite Hj.
    apply jobs_of_set_job. }
  destruct (getSettings rows i _) as [settings s2] eqn:Eg.
  pose proof (getSettings_frame rows i (set_job i h (MkJob (Some now) (isRunning job) (lastCompleted job)) s)) as Hf.
  rewrite Er in Hf. rewrite Eg in Hf. destruct Hf as (Hj & Hs & Hc & _). cbn [snd] in Hj, Hs, Hc.
  assert (∀ i' h', jobs_of s2 i' !! h' = if decide (i = i' ∧ h = h') then Some (MkJob (Some now) false (lastCompleted job))
    else jobs_of s i' !! h') as H2.
  { intros i' h'. unfold jobs_of at 1. rewrite Hj. apply jobs_of_set_job. }
  destruct (cooling _ _ _) eqn:Ec; injection He as <- <-.
  - edestruct recordActivity_frame as (Hj' & -> & -> & _). split; [done|]. split; [done|]. split; [|done]. intros _.
    split; [|by rewrite app_nil_r, Hs]. intros i' h'. unfold jobs_of at 1. rewrite Hj'. apply H2.
  - split; [done|]. split; [done|]. split.
    + intros _. split; [|cbn; by rewrite Hs]. intros i' h'. change (jobs_of (set_spawned _ ?u)) with (jobs_of u).
      rewrite jobs_of_set_job, H2. by case_decide.
    + intros w [= <-]. split; [done|]. unfold cooling in *. done.
Qed.

Lemma attempts_of_app i h l1 l2 : attempts_of i h (l1 ++ l2) = attempts_of i h l1 ++ attempts_of i h l2.
Proof. apply filter_app. Qed.

Lemma attempts_of_cons i h a l :
  attempts_of i h (a :: l) = if decide (at_instanceID a = i ∧ at_hash a = h) then a :: attempts_of i h l else attempts_of i h l.
Proof. unfold attempts_of. rewrite filter_cons. done. Qed.

Lemma step_agrees tr s l s' : agrees tr s → step s l s' → agrees (tr ++ [l]) s' ∧ cfg s' = cfg s.
Proof.
  intros Ha Hst. destruct Hst as [rows now stamp i h name trackers s r s' He|rows calls stamp a before after s Hs Hp
    |now a before after s Hs Hp|s|c s].
  - apply enqueue_spec in He as (Hc & Hrej & Hok & Hstart). split; [|done]. intros i' h'. cbv zeta. rewrite view_of_snoc, Hc.
    specialize (Ha i' h'). cbv zeta in Ha. destruct Ha as (Ho & Hd & Hq & Hn). cbn [view_step].
    destruct (decide (r = Rejected)) as [->|Hr].
    { destruct (Hrej eq_refl) as [Hj Hsp]. unfold jobs_of. rewrite Hj, Hsp. by case_decide. }
    destruct (Hok Hr) as [Hj Hsp]. rewrite Hj, Hsp, attempts_of_app, length_app. destruct (decide (i = i' ∧ h = h')) as [[<- <-]|Hne].
    2:{ split_and!; [done..|]. rewrite Hn. destruct (is_started r); [|cbn; lia]. rewrite attempts_of_cons. cbn [at_instanceID at_hash].
        rewrite decide_False by done. cbn. lia. }
    assert (isRunning (default new_job (jobs_of s i !! h)) = v_open (view_of (DebounceWindow (cfg s)) i h tr)) as Ho'.
    { rewrite Ho. by destruct (jobs_of s i !! h). }
    assert (lastCompleted (default new_job (jobs_of s i !! h)) = v_completed (view_of (DebounceWindow (cfg s)) i h tr)) as Hd'.
    { rewrite Hd. by destruct (jobs_of s i !! h). }
    rewrite Hn. destruct r as [| | |w]; [done|..]; cbn [v_open v_completed v_requested is_started orb from_option isRunning];
      (split_and!; [done|done|by intros ? [= <-]|]).
    + cbn. lia.
    + cbn. lia.
    + rewrite attempts_of_cons, decide_True by done. destruct (Hstart w eq_refl) as [Hr' _]. rewrite <- Ho', Hr'. done.
  - split; [|].
    + intros i h. cbv zeta. rewrite view_of_snoc. cbn [view_step]. revert i h. change (agrees tr (executeJob rows calls stamp a (set_spawned (before ++ recorded a :: after) s))).
      unfold executeJob. destruct (getSettings _ _ _) as [settings s2] eqn:Eg. destruct (attempt_outcome _ _ _) as [[? ?] ?].
      pose proof (getSettings_frame rows (at_instanceID a) (set_spawned (before ++ recorded a :: after) s)) as Hf. rewrite Eg in Hf. cbn [snd] in Hf.
      destruct Hf as (Hj & Hsp & Hc & _). edestruct recordActivity_frame as (Hj' & Hsp' & Hc' & _).
      eapply agrees_frame; [exact Ha|rewrite Hj', Hj; done|rewrite Hc', Hc; done|].
      intros i h. rewrite Hsp', Hsp, Hs. cbn [spawned set_spawned]. rewrite !attempts_of_app, !attempts_of_cons, !length_app.
      cbn [recorded at_instanceID at_hash]. by case_decide.
    + unfold executeJob. destruct (getSettings _ _ _) as [settings s2] eqn:Eg. destruct (attempt_outcome _ _ _) as [[? ?] ?].
      pose proof (getSettings_frame rows (at_instanceID a) (set_spawned (before ++ recorded a :: after) s)) as Hf. rewrite Eg in Hf. cbn [snd] in Hf.
      destruct Hf as (_ & _ & Hc & _). edestruct recordActivity_frame as (_ & _ & Hc' & _). by rewrite Hc', Hc.
  - assert (cfg (finishJob now (at_instanceID a) (at_hash a) (set_spawned (before ++ after) s)) = cfg s ∧
            spawned (finishJob now (at_instanceID a) (at_hash a) (set_spawned (before ++ after) s)) = before ++ after) as [Hc Hsp].
    { unfold finishJob. by case_match. }
    split; [|done]. intros i h. cbv zeta. rewrite view_of_snoc, jobs_of_finishJob, Hc, Hsp. cbn [view_step].
    specialize (Ha i h). cbv zeta in Ha. destruct Ha as (Ho & Hd & Hq & Hn).
    change (jobs_of (set_spawned _ s)) with (jobs_of s). change (cfg (set_spawned _ s)) with (cfg s).
    rewrite Hs, attempts_of_app, attempts_of_cons, length_app in Hn. rewrite attempts_of_app, length_app.
    destruct (decide (at_instanceID a = i ∧ at_hash a = h)) as [[<- <-]|Hne]; [|split_and!; done].
    cbn [length] in Hn. destruct (v_open _) eqn:Eo; [|lia]. symmetry in Ho.
    destruct (jobs_of s (at_instanceID a) !! at_hash a) as [job|] eqn:Ej; [|done]. specialize (Hq job eq_refl).
    cbn [v_open v_completed v_requested]. simpl. unfold finished. rewrite <- Hq. case_match; simpl.
    + split_and!; [done..|lia].
    + split_and!; [done|done| |lia]. by intros jb [= <-].
  - split; [|done]. intros i h. cbv zeta. rewrite view_of_snoc. apply Ha.
  - split; [|done]. intros i h. cbv zeta. rewrite view_of_snoc. apply Ha.
Qed.

Lemma runs_agrees c tr s : runs (NewService c) tr s → agrees tr s ∧ cfg s = cfg (NewService c).
Proof.
  induction 1 as [|tr s1 l s2 _ [IH Hc] Hst]; [split; [|done]; by intros i h|].
  destruct (step_agrees _ _ _ _ IH Hst) as [? ->]. done.
Qed.

Lemma runs_cut s0 tr1 l tr2 s : runs s0 (tr1 ++ l :: tr2) s → ∃ s1 s2, runs s0 tr1 s1 ∧ step s1 l s2.
Proof.
  remember (tr1 ++ l :: tr2) as tr eqn:E. intros Hr. revert tr2 E. induction Hr as [|tr s1 l' s2 Hr IH Hst]; intros tr2 E.
  { by destruct tr1. }
  destruct tr2 as [|l2 tr2 _] using rev_ind.
  - apply app_inj_tail in E as [<- <-]. eauto.
  - rewrite app_comm_cons, app_assoc in E. apply app_inj_tail in E as [-> <-]. eauto.
Qed.

Lemma started_view c tr1 i h t w tr2 s :
  runs (NewService c) (tr1 ++ LRequest i h t (Started w) :: tr2) s →
  let v := view_of (DebounceWindow (cfg s)) i h tr1 in
  v_open v = false ∧ ∀ completed, v_completed v = Some completed → (0 < w)%Z → (w ≤ t - completed)%Z.
Proof.
  intros Hr. cbv zeta. rewrite (proj2 (runs_agrees _ _ _ Hr)). destruct (runs_cut _ _ _ _ _ Hr) as (s1 & s2 & Hr1 & Hst).
  destruct (runs_agrees _ _ _ Hr1) as [Ha <-]. destruct (Ha i h) as (-> & -> & _ & _).
  inversion Hst as [rows now stamp ? ? name trackers ? ? ? He| | | |]; subst.
  apply enqueue_spec in He as (_ & _ & _ & Hs). destruct (Hs w eq_refl) as [Hrun Hcool].
  destruct (jobs_of s1 i !! h) as [job|]; [|split; [done|]; by intros ? ?]. simpl in *. split; [done|].
  intros completed Hcomp Hw. unfold cooling in Hcool. rewrite Hcomp in Hcool. bool_hyps. lia.
Qed.

(** What keeps the view of a torrent. *)
Definition no_finish (i : Z) (h : string) (tr : list label) : Prop := ∀ now, LFinish i h now ∉ tr.
Definition no_request (i : Z) (h : string) (tr : list label) : Prop := ∀ now r, LRequest i h now r ∈ tr → r = Rejected.

Lemma view_open_stays window i h tr v :
  no_finish i h tr → v_open v = true → v_open (foldl (view_step window i h) v tr) = true.
Proof.
  revert v. induction tr as [|l tr IH]; intros v Hno Hv; [done|]. cbn [foldl]. apply IH.
  { intros now Hin. eapply Hno. by right. }
  destruct l as [i' h' t r|i' h' now|]; cbn [view_step]; [| |done]; case_decide as E; try done.
  - by destruct r.
  - destruct E as [-> ->]. exfalso. eapply Hno. by left.
Qed.

Lemma view_completed_stays window i h tr v :
  no_finish i h tr → v_completed (foldl (view_step window i h) v tr) = v_completed v.
Proof.
  revert v. induction tr as [|l tr IH]; intros v Hno; [done|]. cbn [foldl]. rewrite IH.
  2:{ intros now Hin. eapply Hno. by right. }
  destruct l as [i' h' t r|i' h' now|]; cbn [view_step]; [| |done]; case_decide as E; try done.
  - by destruct r.
  - destruct E as [-> ->]. exfalso. eapply Hno. by left.
Qed.

Lemma view_requested_stays window i h tr v r :
  no_request i h tr → v_requested v = Some r → v_requested (foldl (view_step window i h) v tr) = Some r.
Proof.
  revert v. induction tr as [|l tr IH]; intros v Hno Hv; [done|]. cbn [foldl]. apply IH.
  { intros now q Hin. eapply Hno. by right. }
  destruct l as [i' h' t q|i' h' now|]; cbn [view_step]; [| |done]; case_decide as E; try done.
  - destruct E as [-> ->]. by rewrite (Hno t q (list_elem_of_here _ _)).
  - cbn. by rewrite Hv.
Qed.

(** C1.  A torrent never has two attempts at once: between two that start, one
    finished.  When an attempt finished within the debounce window of the last
    request, the next one starts no sooner than the window in force after that.
    This holds in every order of requests and attempts. *)
Theorem attempts_exclusive_and_spaced (c : Config) (tr : list label) (s : Service) (i : Z) (h : string) :
  runs (NewService c) tr s →
  (length (attempts_of i h (spawned s)) ≤ 1)%nat ∧
  (∀ tr1 t w tr2 t' w' tr3,
     tr = tr1 ++ LRequest i h t (Started w) :: tr2 ++ LRequest i h t' (Started w') :: tr3 →
     ¬ no_finish i h tr2) ∧
  (∀ tr1 t q tr2 f tr3 t' w tr4,
     tr = tr1 ++ LRequest i h t q :: tr2 ++ LFinish i h f :: tr3 ++ LRequest i h t' (Started w) :: tr4 →
     q ≠ Rejected → no_request i h tr2 → no_finish i h tr3 → (f - t ≤ DebounceWindow (cfg s))%Z → (0 < w)%Z →
     (w ≤ t' - f)%Z).
Proof.
  intros Hr. split; [|split].
  - destruct (runs_agrees _ _ _ Hr) as [Ha _]. destruct (Ha i h) as (_ & _ & _ & ->). case_match; lia.
  - intros tr1 t w tr2 t' w' tr3 -> Hno. rewrite app_comm_cons, app_assoc in Hr.
    apply started_view in Hr as [Ho _]. unfold view_of in Ho. rewrite foldl_app in Ho. cbn [foldl view_step] in Ho.
    rewrite decide_True in Ho by done. rewrite view_open_stays in Ho; done.
  - intros tr1 t q tr2 f tr3 t' w tr4 -> Hq Hreq Hfin Hwin Hw.
    assert (tr1 ++ LRequest i h t q :: tr2 ++ LFinish i h f :: tr3 ++ LRequest i h t' (Started w) :: tr4 =
      (tr1 ++ LRequest i h t q :: tr2 ++ LFinish i h f :: tr3) ++ LRequest i h t' (Started w) :: tr4) as Htr.
    { by rewrite <- !app_assoc, <- !app_comm_cons, <- !app_assoc. }
    rewrite Htr in Hr. apply started_view in Hr as [_ Hc]. apply Hc; [|done]. unfold view_of.
    rewrite foldl_app. cbn [foldl]. rewrite foldl_app. cbn [foldl]. rewrite view_completed_stays by done.
    cbn [view_step]. rewrite !decide_True by done. cbn [v_completed].
    erewrite view_requested_stays; [|done|by destruct q]. simpl.
    by destruct (Z.ltb_spec (DebounceWindow (cfg s)) (f - t)); [lia|].
Qed.
End steps.

(** ** Filters *)

Section scope.
Context `{!UnicodeCase, !Library}.

Definition category_named (settings : InstanceReannounceSettings) (t : Torrent) : Prop :=
  ∃ c, c ∈ si_Categories settings ∧ EqualFold c (t_Category t) = true.
Definition tag_named (settings : InstanceReannounceSettings) (t : Torrent) : Prop :=
  ∃ tag c, tag ∈ splitTags (t_Tags t) ∧ c ∈ si_Tags settings ∧ EqualFold c tag = true.
Definition tracker_named (settings : InstanceReannounceSettings) (t : Torrent) : Prop :=
  ∃ tr d, tr ∈ t_Trackers t ∧ d ∈ si_Trackers settings ∧ EqualFold (extractTrackerDomain (tt_Url tr)) d = true.

Lemma if_false_l (a b : bool) : (if a then false else b) = negb a && b.
Proof. by destruct a. Qed.

Lemma if_true_l (a b : bool) : (if a then true else b) = a || b.
Proof. by destruct a. Qed.

Lemma names_category_spec settings t : names_category settings t = true ↔ category_named settings t.
Proof. apply existsb_elem. Qed.

Lemma names_tag_spec settings t : names_tag settings t = true ↔ tag_named settings t.
Proof. unfold names_tag, tag_named. rewrite existsb_elem. setoid_rewrite existsb_elem. naive_solver. Qed.

Lemma names_tracker_spec settings t : names_tracker settings t = true ↔ tracker_named settings t.
Proof. unfold names_tracker, tracker_named. rewrite existsb_elem. setoid_rewrite existsb_elem. naive_solver. Qed.

(** A list that names something is not empty. *)
Lemma nonempty_names settings t :
  nonempty (si_Categories settings) && names_category settings t = names_category settings t ∧
  nonempty (si_Tags settings) && names_tag settings t = names_tag settings t ∧
  nonempty (si_Trackers settings) && names_tracker settings t = names_tracker settings t.
Proof.
  unfold names_category, names_tag, names_tracker. split_and!.
  - by destruct (si_Categories settings).
  - destruct (si_Tags settings); [|done]. cbn. by induction (splitTags _).
  - destruct (si_Trackers settings); [|done]. cbn. by induction (t_Trackers t).
Qed.

(** The guards of the code as one condition. *)
Lemma matches_bool t settings :
  torrentMatchesFilters t settings =
  si_Enabled settings &&
  ((bool_decide (t_State t = TorrentStateStalledDl) || bool_decide (t_State t = TorrentStateStalledUp)) &&
  (negb ((0 <? si_MaxAgeSeconds settings) && (si_MaxAgeSeconds settings <? t_TimeActive t))%Z &&
  (negb (si_ExcludeCategories settings && names_category settings t) &&
  (negb (si_ExcludeTags settings && names_tag settings t) &&
  (negb (si_ExcludeTrackers settings && names_tracker settings t) &&
  (si_MonitorAll settings ||
   (negb (si_ExcludeCategories settings) && names_category settings t ||
    (negb (si_ExcludeTags settings) && names_tag settings t ||
     negb (si_ExcludeTrackers settings) && names_tracker settings t)))))))).
Proof.
  unfold torrentMatchesFilters. rewrite !if_false_l, !if_true_l, orb_false_r. destruct (nonempty_names settings t) as (Hc & Hg & Ht).
  rewrite <- !andb_assoc, Hc, Hg, Ht, !negb_involutive, negb_andb, !negb_involutive. do 6 f_equal. f_equal. cbv zeta.
  match goal with |- ?has && ?found = _ => assert (found = true → has = true) as Himp end.
  { rewrite <- Hc, <- Hg, <- Ht. rewrite !orb_true_iff, !andb_true_iff. tauto. }
  revert Himp. match goal with |- (?f = true → ?h = true) → _ => destruct f, h end; intros Himp; naive_solver.
Qed.

(**  A torrent is watched exactly when the service is on for the instance, the
    torrent is stalled and not too old, no list that excludes names it, and
    either everything is monitored or a list that includes names its category,
    one of its tags or the domain of one of its trackers. *)
Theorem filters_watch_exactly (t : Torrent) (settings : InstanceReannounceSettings) :
  torrentMatchesFilters t settings = true ↔
  si_Enabled settings = true ∧
  (t_State t = TorrentStateStalledDl ∨ t_State t = TorrentStateStalledUp) ∧
  (si_MaxAgeSeconds settings ≤ 0 ∨ t_TimeActive t ≤ si_MaxAgeSeconds settings)%Z ∧
  ¬ (si_ExcludeCategories settings = true ∧ category_named settings t) ∧
  ¬ (si_ExcludeTags settings = true ∧ tag_named settings t) ∧
  ¬ (si_ExcludeTrackers settings = true ∧ tracker_named settings t) ∧
  (si_MonitorAll settings = true ∨
   si_ExcludeCategories settings = false ∧ category_named settings t ∨
   si_ExcludeTags settings = false ∧ tag_named settings t ∨
   si_ExcludeTrackers settings = false ∧ tracker_named settings t).
Proof.
  rewrite matches_bool, <- names_category_spec, <- names_tag_spec, <- names_tracker_spec.
  rewrite !andb_true_iff, !orb_true_iff, !andb_true_iff, !negb_true_iff, !andb_false_iff, !bool_decide_eq_true, Z.ltb_ge, Z.ltb_ge,
    <- !not_true_iff_false.
  assert (∀ a b : bool, a ≠ true ∨ b ≠ true ↔ ¬ (a = true ∧ b = true)) as Hor by (intros [] []; naive_solver).
  by rewrite !Hor.
Qed.
End scope.

(** ** The snapshot and the scans *)

Section snapshot.
Context `{!UnicodeCase, !Library}.

(** What a request for a torrent becomes, by the state it is shown in. *)
Definition predicted (window : Z) (state : MonitoredTorrentState) : request :=
  match state with
  | MonitoredTorrentStateWatching => Started window
  | MonitoredTorrentStateReannouncing => AlreadyRunning
  | MonitoredTorrentStateCooldown => Debounced
  end.

Lemma effective_window_positive c settings : (0 < DebounceWindow c)%Z → (0 < effectiveDebounceWindow c settings)%Z.
Proof. intros Hc. unfold effectiveDebounceWindow. destruct (_ && _) eqn:E; [|done]. bool_hyps. lia. Qed.

Lemma getSettings_ext rows i s s' :
  settingsCache s = settingsCache s' → (getSettings rows i s).1 = (getSettings rows i s').1.
Proof. intros E. unfold getSettings. rewrite E. destruct (_ !! _); [done|]. by destruct (store_Get _ _). Qed.

Lemma request_predicted rows now stamp i hash name trackers s :
  hash ≠ ""%string → baseCtx s = true → (0 < DebounceWindow (cfg s))%Z →
  let window := effectiveDebounceWindow (cfg s) (getSettings rows i s).1 in
  (enqueue rows now stamp i hash name trackers s).1 = predicted window (monitored_state now window (jobs_of s i !! hash)).
Proof.
  intros Hh Hb Hw. cbv zeta. unfold enqueue. rewrite bool_decide_false by done. rewrite Hb. cbn [negb isRunning lastCompleted].
  cbv zeta. pose proof (effective_window_positive (cfg s) (getSettings rows i s).1 Hw) as Hpos.
  set (job := default new_job _).
  assert (monitored_state now (effectiveDebounceWindow (cfg s) (getSettings rows i s).1) (jobs_of s i !! hash) =
    if isRunning job then MonitoredTorrentStateReannouncing
    else if cooling now (effectiveDebounceWindow (cfg s) (getSettings rows i s).1) job then MonitoredTorrentStateCooldown
    else MonitoredTorrentStateWatching) as ->.
  { subst job. unfold monitored_state, cooling. destruct (jobs_of s i !! hash) as [job|]; simpl; [|done].
    destruct (isRunning job); [done|]. destruct (lastCompleted job) as [z|]; [|done].
    by rewrite (proj2 (Z.ltb_lt _ _) Hpos). }
  destruct (isRunning job) eqn:Er; [done|].
  pose proof (getSettings_ext rows i s (set_job i hash (MkJob (Some now) false (lastCompleted job)) s) eq_refl) as Hs.
  pose proof (getSettings_frame rows i (set_job i hash (MkJob (Some now) false (lastCompleted job)) s)) as Hf.
  destruct (getSettings rows i (set_job _ _ _ _)) as [settings s2]. cbn [fst snd] in Hs, Hf. destruct Hf as (_ & _ & Hc & _).
  rewrite Hc, <- Hs. change (cfg (set_job _ _ _ s)) with (cfg s).
  change (cooling now ?w (MkJob (Some now) false (lastCompleted job))) with (cooling now w job).
  by destruct (cooling _ _ job).
Qed.

(** A torrent is due when it is shown, waits no more, and none of its trackers
    works. *)
Lemma monitored_ready now window i settings s t :
  inInitialWait t settings = false → TrimSpace (t_Hash t) = t_Hash t → ToUpper (t_Hash t) ≠ ""%string →
  (if negb (torrentMeetsCriteria t settings) then None
   else if nonempty (t_Trackers t) && hasHealthyTracker (t_Trackers t) then None
   else Some (ToUpper (t_Hash t), t_Name t, getProblematicTrackers (t_Trackers t))) =
  (λ m, (mt_Hash m, mt_TorrentName m, mt_Trackers m)) <$> monitored now window i settings s t.
Proof.
  intros Hw Ht Hh. unfold monitored, torrentMeetsCriteria. rewrite Hw, Ht. destruct (torrentMatchesFilters t settings); [|done].
  cbn [negb]. assert (nonempty (t_Trackers t) && hasHealthyTracker (t_Trackers t) = hasHealthyTracker (t_Trackers t)) as ->.
  { by destruct (t_Trackers t). }
  rewrite (bool_decide_false (ToUpper (t_Hash t) = "")) by done.
  by destruct (hasHealthyTracker (t_Trackers t)), (trackersUpdating (t_Trackers t)).
Qed.

Lemma monitored_state_of now window i settings s t m :
  monitored now window i settings s t = Some m →
  mt_Hash m ≠ ""%string ∧ mt_State m = monitored_state now window (jobs_of s i !! mt_Hash m).
Proof.
  unfold monitored. destruct (negb (torrentMatchesFilters _ _)); [done|]. cbv zeta. destruct (_ && _ && _); [done|].
  case_bool_decide; [done|]. by intros [= <-].
Qed.

Lemma omap_fmap_omap {A B C} (f : A → option B) (g : B → C) (l : list A) : omap (λ x, g <$> f x) l = g <$> omap f l.
Proof. induction l as [|x l IH]; [done|]. cbn. destruct (f x); cbn; by rewrite IH. Qed.

Lemma omap_ext_in {A B} (f g : A → option B) (l : list A) : (∀ x, x ∈ l → f x = g x) → omap f l = omap g l.
Proof.
  induction l as [|x l IH]; intros Hfg; [done|]. cbn. rewrite (Hfg x) by by left.
  rewrite IH by (intros; apply Hfg; by right). done.
Qed.

Lemma omap_filter {A B} (f : A → option B) (P : A → Prop) `{!∀ x, Decision (P x)} (l : list A) :
  (∀ x, ¬ P x → f x = None) → omap f (filter P l) = omap f l.
Proof.
  intros HP. induction l as [|x l IH]; [done|]. rewrite filter_cons. cbn. case_decide as Hx; cbn; rewrite IH; [done|].
  by rewrite HP.
Qed.

(**  The snapshot of monitored torrents and the scans agree: of the torrents
    past their initial wait, those shown are the ones a scan asks for, with the
    same names and trackers, and the state a torrent is shown in tells what a
    request at that time becomes: watched torrents are announced, the others
    are announced already or debounced. *)
Theorem snapshot_predicts_scan (rows : SettingsRows) (now stamp i : Z) (torrents : list Torrent) (s : Service) :
  i ≠ 0%Z → baseCtx s = true → (0 < DebounceWindow (cfg s))%Z →
  Forall (λ t, TrimSpace (t_Hash t) = t_Hash t ∧ ToUpper (t_Hash t) ≠ ""%string) torrents →
  let settings := (getSettings rows i s).1 in
  let ready := filter (λ t, inInitialWait t settings = false) torrents in
  let shown := (GetMonitoredTorrents rows now i (Some ready) s).1 in
  scan_targets settings torrents = (λ m, (mt_Hash m, mt_TorrentName m, mt_Trackers m)) <$> shown ∧
  ∀ m, m ∈ shown →
    (enqueue rows now stamp i (mt_Hash m) (mt_TorrentName m) (mt_Trackers m) s).1 =
    predicted (effectiveDebounceWindow (cfg s) settings) (mt_State m).
Proof.
  intros Hi Hb Hw Hclean. cbv zeta. unfold GetMonitoredTorrents. rewrite bool_decide_false by done.
  pose proof (getSettings_frame rows i s) as Hf. pose proof (λ h n t, request_predicted rows now stamp i h n t s) as Hreq.
  destruct (getSettings rows i s) as [settings s2]. cbn [fst snd] in *. destruct Hf as (Hj & _ & Hc & _).
  rewrite Hc. set (ready := filter _ torrents). set (window := effectiveDebounceWindow (cfg s) settings) in *.
  assert (scan_targets settings torrents = (λ m, (mt_Hash m, mt_TorrentName m, mt_Trackers m)) <$>
    omap (monitored now window i settings s2) ready) as Htargets.
  { rewrite <- omap_fmap_omap. unfold scan_targets. rewrite <- (omap_filter _ (λ t, inInitialWait t settings = false)).
    2:{ intros t Hn. unfold torrentMeetsCriteria. destruct (torrentMatchesFilters _ _); [|done]. by destruct (inInitialWait _ _). }
    apply omap_ext_in. intros t [Ht Hin]%list_elem_of_filter. rewrite Forall_forall in Hclean.
    apply Hclean in Hin as [? ?]. by apply monitored_ready. }
  destruct (si_Enabled settings) eqn:Een; cbn [negb fst].
  - split; [exact Htargets|]. intros m (t & _ & Hm)%list_elem_of_omap. apply monitored_state_of in Hm as [Hne ->].
    rewrite Hreq by done. unfold jobs_of. by rewrite Hj.
  - split; [|by intros m ?%elem_of_nil]. rewrite Htargets. clear Htargets. cbn. induction ready as [|t l IH]; [done|]. cbn.
    unfold monitored at 1. unfold torrentMatchesFilters. rewrite Een. cbn [negb]. exact IH.
Qed.
End snapshot.

(** ** The record of activity *)

Section history.
Context `{!UnicodeCase, !Library}.

Definition kept (i : Z) (history : gmap Z (list ActivityEvent)) : list ActivityEvent := default [] (history !! i).

(** No buffer is longer than its limit. *)
Definition bounded (s : Service) : Prop :=
  ∀ i, (length (kept i (historySucceeded s)) ≤ history_limit s * 2)%nat ∧
       (length (kept i (historyFailed s)) ≤ history_limit s * 2)%nat ∧
       (length (kept i (historySkipped s)) ≤ history_limit s)%nat.

Lemma keep_last_length {A} n (l : list A) : (length (keep_last n l) ≤ n)%nat.
Proof. unfold keep_last. destruct (n <? length l)%nat eqn:E; [rewrite length_drop|apply Nat.ltb_ge in E]; lia. Qed.

Lemma keep_last_drop {A} n (l : list A) : keep_last n l = drop (length l - n) l.
Proof.
  unfold keep_last. destruct (n <? length l)%nat eqn:E; [done|]. apply Nat.ltb_ge in E.
  by replace (length l - n)%nat with 0%nat by lia.
Qed.

Lemma push_kept limit i e history i' :
  (length (kept i' history) ≤ limit)%nat → (length (kept i' (push limit i e history)) ≤ limit)%nat.
Proof.
  intros Hl. unfold kept, push. destruct (decide (i = i')) as [<-|?].
  - rewrite lookup_insert_eq. apply keep_last_length.
  - by rewrite lookup_insert_ne.
Qed.

Lemma recordActivity_bounded stamp i h name trackers outcome reason s :
  bounded s → bounded (recordActivity stamp i h name trackers outcome reason s).
Proof.
  intros Hb. unfold recordActivity. case_bool_decide; [done|]. intros i'. specialize (Hb i') as (? & ? & ?).
  destruct outcome; (split_and!; [done || by apply push_kept..]).
Qed.

Lemma bounded_frame s s' :
  bounded s → cfg s' = cfg s → historySucceeded s' = historySucceeded s → historyFailed s' = historyFailed s →
  historySkipped s' = historySkipped s → bounded s'.
Proof. intros Hb Hc H1 H2 H3 i. unfold history_limit. rewrite Hc, H1, H2, H3. apply Hb. Qed.

Lemma getSettings_bounded rows i s : bounded s → bounded (getSettings rows i s).2.
Proof. intros Hb. edestruct getSettings_frame as (_ & _ & Hc & _ & H1 & H2 & H3). by eapply bounded_frame. Qed.

Lemma step_bounded s l s' : bounded s → step s l s' → bounded s'.
Proof.
  intros Hb Hst. destruct Hst as [rows now stamp i h name trackers s r s' He|rows calls stamp a before after s Hs Hp
    |now a before after s Hs Hp|s|c s]; [| | |done|done].
  - unfold enqueue in He. case_bool_decide; [by injection He as <- <-|].
    destruct (negb _). { injection He as <- <-. by apply recordActivity_bounded. }
    destruct (isRunning _) eqn:Er. { injection He as <- <-. by apply recordActivity_bounded. }
    match type of He with context [getSettings rows i ?u] => pose proof (getSettings_bounded rows i u Hb) as Hb2 end.
    destruct (getSettings rows i _) as [settings s2]. destruct (cooling _ _ _); injection He as <- <-; [|done].
    by apply recordActivity_bounded.
  - unfold executeJob. pose proof (getSettings_bounded rows (at_instanceID a) (set_spawned (before ++ recorded a :: after) s) Hb) as Hb2.
    destruct (getSettings _ _ _) as [settings s2]. destruct (attempt_outcome _ _ _) as [[? ?] ?]. by apply recordActivity_bounded.
  - unfold finishJob. by case_match.
Qed.

(**  The record never grows beyond its limits, and what is shown of it are the
    newest events in the order of their times: at most as many as asked for,
    and nothing that is left out is newer than anything shown. *)
Theorem activity_newest (c : Config) (tr : list label) (s : Service) (i limit : Z) :
  runs (NewService c) tr s → i ≠ 0%Z →
  let all := kept i (historySucceeded s) ++ kept i (historyFailed s) ++ kept i (historySkipped s) in
  let out := GetActivity i limit s in
  (length (kept i (historySucceeded s)) ≤ history_limit s * 2)%nat ∧
  (length (kept i (historyFailed s)) ≤ history_limit s * 2)%nat ∧
  (length (kept i (historySkipped s)) ≤ history_limit s)%nat ∧
  StronglySorted (λ a b, ae_Timestamp a ≤ ae_Timestamp b)%Z out ∧
  ∃ older, older ++ out ≡ₚ all ∧
    (older ≠ [] → Z.of_nat (length out) = limit) ∧ (0 < limit → Z.of_nat (length out) ≤ limit)%Z ∧
    ∀ a b, a ∈ older → b ∈ out → (ae_Timestamp a ≤ ae_Timestamp b)%Z.
Proof.
  intros Hr Hi. cbv zeta.
  assert (bounded s) as Hb.
  { induction Hr; [by intros ?; split_and!; apply Nat.le_0_l|by eapply step_bounded]. }
  destruct (Hb i) as (? & ? & ?). split_and!; [done..| |].
  all: unfold GetActivity; rewrite bool_decide_false by done; cbv zeta; fold (kept i (historySucceeded s)) (kept i (historyFailed s))
    (kept i (historySkipped s)); set (all := kept i (historySucceeded s) ++ _).
  all: set (sorted := sort_slice _ all).
  all: assert (StronglySorted (λ a b, ae_Timestamp a ≤ ae_Timestamp b)%Z sorted) as Hs.
  1,3: apply (StronglySorted_weaken (cmp_le (pull_cmp ae_Timestamp Z.compare))); [|apply sort_slice_sorted; apply _];
    intros x y Hxy; unfold cmp_le, pull_cmp in Hxy; rewrite Z.compare_lt_iff in Hxy; lia.
  all: assert (keep_last (Z.to_nat limit) sorted = drop (length sorted - Z.to_nat limit) sorted) as Hk by apply keep_last_drop.
  - destruct (0 <? limit)%Z; [|done]. rewrite Hk. rewrite <- (take_drop (length sorted - Z.to_nat limit) sorted) in Hs.
    by apply StronglySorted_app in Hs as (_ & _ & ?).
  - assert (sorted ≡ₚ all) as Hp by apply sort_slice_perm. destruct (0 <? limit)%Z eqn:El.
    2:{ exists []. apply Z.ltb_ge in El. split_and!; [done|done|lia|by intros ? ? ?%elem_of_nil]. }
    apply Z.ltb_lt in El. rewrite Hk. exists (take (length sorted - Z.to_nat limit) sorted). rewrite take_drop. split; [done|].
    rewrite length_drop. split; [|split; [lia|]].
    { intros Hne. destruct (decide (length sorted ≤ Z.to_nat limit)%nat) as [Hle|]; [|lia].
      by replace (length sorted - Z.to_nat limit)%nat with 0%nat in Hne by lia. }
    rewrite <- (take_drop (length sorted - Z.to_nat limit) sorted) in Hs. apply StronglySorted_app in Hs as (Hab & _ & _). exact Hab.
Qed.
End history.

(** ** Runs *)

Section runs_of_a_day.
#[local] Existing Instance AsciiCase.
#[local] Existing Instance SimpleLibrary.

Definition no_rows : SettingsRows := λ _, Some None.
Definition working_client : client_calls := MkCalls None (inr []) (λ _ _, None).

(** One attempt of ten seconds; twenty seconds later a request is debounced, and
    two minutes after the attempt the next one starts. *)
Definition first_attempt (p : phase) : attempt := MkAttempt 1 "AA" "Film" "one.org" p.
Definition s1 : Service := setBaseContext (NewService DefaultConfig).
Definition s2 : Service := (enqueue no_rows 0 0 1 "AA" "Film" "one.org" s1).2.
Definition s3 : Service :=
  executeJob no_rows working_client Second (first_attempt Announcing) (set_spawned ([] ++ [recorded (first_attempt Announcing)]) s2).
Definition s4 : Service := finishJob (10 * Second) 1 "AA" (set_spawned ([] ++ []) s3).
Definition s5 : Service := (enqueue no_rows (20 * Second) (20 * Second) 1 "AA" "Film" "one.org" s4).2.
Definition s6 : Service := (enqueue no_rows (130 * Second) (130 * Second) 1 "AA" "Film" "one.org" s5).2.
Definition day : list label :=
  [LOther; LRequest 1 "AA" 0 (Started (120 * Second)); LOther; LFinish 1 "AA" (10 * Second);
   LRequest 1 "AA" (20 * Second) Debounced; LRequest 1 "AA" (130 * Second) (Started (120 * Second))].

Lemma step_request_by rows now stamp i h name trackers s r :
  (enqueue rows now stamp i h name trackers s).1 = r →
  step s (LRequest i h now r) (enqueue rows now stamp i h name trackers s).2.
Proof. intros <-. econstructor. apply surjective_pairing. Qed.

Lemma day_runs : runs (NewService DefaultConfig) day s6.
Proof.
  apply (runs_snoc _ [_; _; _; _; _] s5); [|apply step_request_by; by vm_compute].
  apply (runs_snoc _ [_; _; _; _] s4); [|apply step_request_by; by vm_compute].
  apply (runs_snoc _ [_; _; _] s3); [|by apply (step_finish (10 * Second) (first_attempt Recorded) [] [])].
  apply (runs_snoc _ [_; _] s2); [|by apply (step_announce no_rows working_client Second (first_attempt Announcing) [] [])].
  apply (runs_snoc _ [_] s1); [|apply step_request_by; by vm_compute].
  apply (runs_snoc _ [] (NewService DefaultConfig)); [constructor|constructor].
Qed.

Lemma attempts_exclusive_and_spaced_witness :
  runs (NewService DefaultConfig) day s6 ∧ length (attempts_of 1 "AA" (spawned s6)) = 1%nat ∧
  (120 * Second ≤ 130 * Second - 10 * Second)%Z.
Proof.
  split; [exact day_runs|]. split; [by vm_compute|].
  destruct (attempts_exclusive_and_spaced DefaultConfig day s6 1 "AA" day_runs) as (_ & _ & Hspaced).
  apply (Hspaced [LOther] 0%Z (Started (120 * Second)) [LOther] (10 * Second)%Z
    [LRequest 1 "AA" (20 * Second) Debounced] (130 * Second)%Z (120 * Second)%Z []); [done|done|..].
  - intros now q Hin. by apply list_elem_of_singleton in Hin.
  - intros now Hin. by apply list_elem_of_singleton in Hin.
  - by vm_compute.
  - by vm_compute.
Defined.

Lemma activity_newest_witness :
  ae_Outcome <$> GetActivity 1 1 s6 = [ActivityOutcomeSkipped] ∧ ae_Outcome <$> GetActivity 1 0 s6 = [ActivityOutcomeSucceeded; ActivityOutcomeSkipped] ∧
  (length (kept 1 (historySucceeded s6)) ≤ 100)%nat.
Proof.
  split; [by vm_compute|]. split; [by vm_compute|].
  pose proof (activity_newest DefaultConfig day s6 1 1 day_runs ltac:(done)) as (Hs & _). exact Hs.
Defined.

(** A job that is asked for again only after the window has passed is forgotten
    when it finishes, with the time it finished at: the next request starts at
    once. *)
Example long_attempt_not_spaced :
  let s := finishJob (121 * Second) 1 "AA" (set_spawned [] s3) in
  (enqueue no_rows (122 * Second) (122 * Second) 1 "AA" "Film" "one.org" s).1 = Started (120 * Second).
Proof. by vm_compute. Qed.

(** Settings that watch films and leave out a tracker. *)
Definition film_settings : InstanceReannounceSettings :=
  MkSettings 1 true 15 7 600 50 false false false ["film"] false [] true ["two.org"].

(** A stalled torrent by hash, category, age and tracker. *)
Definition stalled (hash category : string) (active : Z) (url : string) : Torrent :=
  MkTorrent 0 0 false f64_zero category "" 0 0 "" "" 0 0 "" 0 0 0 false false hash
    "" "" f64_zero false 0 "" f64_zero 0 0 hash 0 0 0 0 0 f64_zero f64_zero f64_zero 0 "/data" 0 0 0
    "" "" 0 false 1 TorrentStateStalledDl false "" active 1 "" 0 0 0 0 0 [MkTracker url TrackerStatusNotWorking 0 0 0 0 "timeout"].

Definition stalled_torrents : list Torrent :=
  [stalled "aa" "Film" 100 "one.org/announce"; stalled "bb" "Film" 5 "one.org/announce";
   stalled "cc" "Film" 100 "two.org/announce"; stalled "dd" "Music" 100 "one.org/announce"].

Lemma snapshot_predicts_scan_witness :
  let rows : SettingsRows := λ _, Some (Some film_settings) in
  let ready := filter (λ t, inInitialWait t (sanitizeInstanceReannounceSettings film_settings) = false) stalled_torrents in
  scan_targets (sanitizeInstanceReannounceSettings film_settings) stalled_torrents = [("AA", "aa", "one.org")] ∧
  mt_State <$> (GetMonitoredTorrents rows (20 * Second) 1 (Some ready) (set_cache ∅ s4)).1 = [MonitoredTorrentStateCooldown] ∧
  [("AA", "aa", "one.org")] = (λ m, (mt_Hash m, mt_TorrentName m, mt_Trackers m)) <$>
    (GetMonitoredTorrents rows (20 * Second) 1 (Some ready) (set_cache ∅ s4)).1.
Proof.
  cbv zeta. split; [by vm_compute|]. split; [by vm_compute|].
  destruct (snapshot_predicts_scan (λ _, Some (Some film_settings)) (20 * Second) (20 * Second) 1 stalled_torrents (set_cache ∅ s4))
    as [Hs _]; [done|done|by vm_compute|repeat constructor; by vm_compute|]. transitivity (scan_targets (getSettings (λ _, Some (Some film_settings)) 1 (set_cache ∅ s4)).1 stalled_torrents); [by vm_compute|exact Hs].
Defined.
End runs_of_a_day.
