(* ===== verification/ListingFilter.v ===== *)
(** * [internal/qbittorrent/sync_manager.go]: searching and filtering torrents

    The status filters, the filters on categories, tags and trackers with their
    exclusions, which [applyManualFilters] combines, and the search. *)

From Stdlib Require Import ZArith Lia Ascii SpecFloat.
From stdpp Require Import base numbers list strings gmap.
From S2P Require Import Prelude.
From S2P Require Import GoStrings.
From S2P Require Import GoFloat.
From S2P Require Import Domain.
From S2P Require Import TransmissionRpc.
From S2P Require Import TorrentFilter.
From S2P Require Import TransmissionClient.
From S2P Require Import Conditions.
From S2P Require Import Grouping.
From S2P Require Import TrackerHealth.
From S2P Require Import TrackerMapping.

Open Scope qui_scope.

Record FilterOptions := MkFilterOptions {
  f_Hashes : list string; f_Status : list string; f_ExcludeStatus : list string;
  f_Categories : list string; f_ExcludeCategories : list string;
  f_Tags : list string; f_ExcludeTags : list string;
  f_Trackers : list string; f_ExcludeTrackers : list string; f_Expr : string }.

Definition no_filters : FilterOptions := MkFilterOptions [] [] [] [] [] [] [] [] [] "".

(** The expression language and the fuzzy search are third-party packages:
    compiling may fail, and so may running; a rank of -1 is no match. *)
Class ListingLibrary := {
  expr_compile : string → option (Torrent → option bool);
  fuzzy_match : string → string → bool;
  fuzzy_rank : string → string → Z;
}.

(** ** Statuses *)

Definition torrentStateCategories : list (TorrentFilter * list TorrentState) :=
  [(TorrentFilterDownloading, [TorrentStateDownloading; TorrentStateStalledDl; TorrentStateMetaDl; TorrentStateQueuedDl;
                               TorrentStateAllocating; TorrentStateCheckingDl; TorrentStateForcedDl]);
   (TorrentFilterUploading, [TorrentStateUploading; TorrentStateStalledUp; TorrentStateQueuedUp; TorrentStateCheckingUp; TorrentStateForcedUp]);
   ("seeding", [TorrentStateUploading; TorrentStateStalledUp; TorrentStateQueuedUp; TorrentStateCheckingUp; TorrentStateForcedUp]);
   (TorrentFilterPaused, [TorrentStatePausedDl; TorrentStatePausedUp; TorrentStateStoppedDl; TorrentStateStoppedUp]);
   (TorrentFilterActive, [TorrentStateDownloading; TorrentStateUploading; TorrentStateForcedDl; TorrentStateForcedUp]);
   (TorrentFilterStalled, [TorrentStateStalledDl; TorrentStateStalledUp]);
   (TorrentFilterChecking, [TorrentStateCheckingDl; TorrentStateCheckingUp; TorrentStateCheckingResumeData]);
   (TorrentFilterError, [TorrentStateError; TorrentStateMissingFiles]);
   (TorrentFilterMoving, [TorrentStateMoving]);
   (TorrentFilterStalledUploading, [TorrentStateStalledUp]);
   (TorrentFilterStalledDownloading, [TorrentStateStalledDl]);
   (TorrentFilterStopped, [TorrentStateStoppedDl; TorrentStateStoppedUp])]%string.

Definition states_of (f : TorrentFilter) : list TorrentState := default [] (assoc f torrentStateCategories).
Definition in_states (f : TorrentFilter) (t : Torrent) : bool := bool_decide (t_State t ∈ states_of f).

Abbreviation Categories := (gmap string (string * string)).

Section filters.
Context `{!UnicodeCase, !Library, !ListingLibrary}.

Definition is_paused_or_stopped (t : Torrent) : bool :=
  in_states TorrentFilterPaused t || in_states TorrentFilterStopped t.

(** [t.Progress == 1] *)
Definition is_complete (t : Torrent) : bool := f64_eqb (t_Progress t) f64_one.

Definition matchTorrentStatus (t : Torrent) (status : string) : bool :=
  let lower := ToLower status in
  if bool_decide (lower = "unregistered") then bool_decide (determineTrackerHealth t = Some TrackerHealthUnregistered)
  else if bool_decide (lower = "tracker_down") then bool_decide (determineTrackerHealth t = Some TrackerHealthDown)
  else if bool_decide (lower = "tracker_error") then bool_decide (determineTrackerHealth t = Some TrackerHealthError)
  else if bool_decide (status = TorrentFilterAll) then true
  else if bool_decide (status = TorrentFilterCompleted) then is_complete t
  else if bool_decide (status = TorrentFilterInactive) then negb (in_states TorrentFilterActive t)
  else if bool_decide (status = TorrentFilterRunning) || bool_decide (status = TorrentFilterResumed)
  then negb (in_states TorrentFilterPaused t) && negb (in_states TorrentFilterStopped t)
  else if bool_decide (status = TorrentFilterStopped) || bool_decide (status = TorrentFilterPaused)
  then is_paused_or_stopped t
  else match assoc status torrentStateCategories with
       | Some category => bool_decide (t_State t ∈ category)
       | None => bool_decide (t_State t = status)
       end.

Definition statusFiltersRequireTrackerData (statuses : list string) : bool :=
  existsb (λ s, bool_decide (s ∈ ["unregistered"; "tracker_down"; "tracker_error"]%string)) statuses.

Definition filtersRequireTrackerData (filters : FilterOptions) : bool :=
  statusFiltersRequireTrackerData (f_Status filters) || statusFiltersRequireTrackerData (f_ExcludeStatus filters).

(** ** Categories *)

Definition hasNestedCategories (categories : Categories) : bool :=
  existsb (λ '(name, _), Contains name "/") (map_to_list categories).

(** The server state is given when it is not the zero one. *)
Definition resolveUseSubcategories (supports alwaysEnabled : bool) (serverState : option bool)
    (mainCategories : option Categories) (categories : Categories) : bool :=
  if negb supports then false
  else if alwaysEnabled then true
  else match serverState with
       | Some useSubcategories => useSubcategories
       | None => hasNestedCategories categories || from_option hasNestedCategories false mainCategories
       end.

(** The names of both maps; the order does not matter to what uses them. *)
Definition collectCategoryNames (mainCategories : option Categories) (categories : Categories) : list string :=
  let names := (map_to_list categories).*1 in
  names ++ filter (λ n, n ∉ names) (map_to_list (default ∅ mainCategories)).*1.

Definition expandCategorySet (target : gset string) (parent : string) (categoryNames : list string) : gset string :=
  foldl (λ s name, if HasPrefix name (parent +++ "/") then {[name]} ∪ s else s) target categoryNames.

Definition category_set (useSubcategories : bool) (categoryNames cs : list string) : gset string :=
  foldl (λ s c, let s := {[c]} ∪ s in
                if useSubcategories && negb (bool_decide (c = "")) then expandCategorySet s c categoryNames else s) ∅ cs.

(** ** Tags *)

Definition tag_parts (tags : string) : list string := TrimSpace <$> Split tags ","%char.

Definition passes_tags (filters : FilterOptions) (t : Torrent) : bool :=
  if bool_decide (f_Tags filters = []) then true
  else if bool_decide (t_Tags t = "") then existsb (λ ft, bool_decide (ft = "")) (f_Tags filters)
  else existsb (λ ft, existsb (λ tag, bool_decide (tag = ft)) (tag_parts (t_Tags t))) (f_Tags filters).

Definition excluded_by_tags (filters : FilterOptions) (t : Torrent) : bool :=
  let excludeUntagged := existsb (λ et, bool_decide (et = "")) (f_ExcludeTags filters) in
  let excludeTags := filter (λ et, et ≠ "") (f_ExcludeTags filters) in
  if bool_decide (t_Tags t = "") then excludeUntagged
  else existsb (λ et, existsb (λ tag, bool_decide (tag = et)) (tag_parts (t_Tags t))) excludeTags.

(** ** Trackers *)

(** What the filters on trackers look at: the validated mapping if there is one,
    else the trackers of the main data; and what is hidden after an edit. *)
Record TrackerSources := MkSources {
  src_mapping : option ValidatedTrackerMapping;
  src_main : option (gmap string (list string));
  src_exclusions : Index }.

Definition filter_domain (filters : FilterOptions) (domain : string) : bool :=
  bool_decide (domain ∈ f_Trackers filters) || bool_decide (domain ∈ f_ExcludeTrackers filters).

Definition hidden (src : TrackerSources) (domain hash : string) : bool :=
  bool_decide (hash ∈ default ∅ (src_exclusions src !! domain)).

Definition domain_or_unknown (url : string) : string :=
  let domain := ExtractDomainFromURL url in if bool_decide (domain = "") then "Unknown" else domain.

Definition mapped_domains (filters : FilterOptions) (src : TrackerSources) (m : ValidatedTrackerMapping)
    (acc : Index) (t : Torrent) : Index :=
  foldl (λ acc domain,
      if filter_domain filters domain && negb (hidden src domain (t_Hash t))
      then index_add (t_Hash t) domain acc else acc)
    acc (elements (default ∅ (HashToDomains m !! t_Hash t))).

Definition main_domains (filters : FilterOptions) (src : TrackerSources) (torrentMap : gmap string Torrent)
    (acc : Index) (entry : string * list string) : Index :=
  let domain := domain_or_unknown entry.1 in
  if negb (filter_domain filters domain) then acc else
  foldl (λ acc h,
      if match torrentMap !! h with
         | Some t => negb (torrentBelongsToTrackerDomain t domain)
         | None => false
         end then acc
      else if hidden src domain h then acc
      else index_add h domain acc) acc entry.2.

(** [torrentHashToDomains] *)
Definition hash_domains (filters : FilterOptions) (src : TrackerSources) (torrents : list Torrent) : Index :=
  if bool_decide (f_Trackers filters = []) && bool_decide (f_ExcludeTrackers filters = []) then ∅
  else match src_mapping src with
       | Some m => foldl (mapped_domains filters src m) ∅ torrents
       | None =>
         match src_main src with
         | Some trackers => foldl (main_domains filters src (torrent_map torrents)) ∅ (map_to_list trackers)
         | None => ∅
         end
       end.

(** Whether a set of domains selects the torrent; without known domains the empty
    name stands for it, and without any the tracker field is looked at. *)
Definition selected_by_trackers (domainMap : Index) (chosen : list string) (t : Torrent) : bool :=
  if bool_decide (domainMap = ∅) then
    if bool_decide (t_Tracker t = "") then bool_decide ("" ∈ chosen)
    else bool_decide (domain_or_unknown (t_Tracker t) ∈ chosen)
  else
    match domainMap !! t_Hash t with
    | Some domains =>
      if bool_decide (domains = ∅) then bool_decide ("" ∈ chosen)
      else existsb (λ d, bool_decide (d ∈ chosen)) (elements domains)
    | None => bool_decide ("" ∈ chosen)
    end.

(** ** All the filters *)

Definition passes_hashes (filters : FilterOptions) (t : Torrent) : bool :=
  let hashFilterSet := ToUpper <$> filter (λ h, h ≠ "") (f_Hashes filters) in
  bool_decide (hashFilterSet = []) ||
  existsb (λ c, negb (bool_decide (c = "")) && bool_decide (ToUpper c ∈ hashFilterSet))
    [t_Hash t; t_InfohashV1 t; t_InfohashV2 t].

Definition passes_expr (expr : string) (t : Torrent) : bool :=
  if bool_decide (expr = "") then true
  else match expr_compile expr with
       | None => true
       | Some program => default false (program t)
       end.

Definition passes (filters : FilterOptions) (domainMap : Index) (useSubcategories : bool) (categoryNames : list string)
    (t : Torrent) : bool :=
  passes_hashes filters t
  && (bool_decide (f_Status filters = []) || existsb (matchTorrentStatus t) (f_Status filters))
  && negb (existsb (matchTorrentStatus t) (f_ExcludeStatus filters))
  && (bool_decide (f_Categories filters = [])
      || bool_decide (t_Category t ∈ category_set useSubcategories categoryNames (f_Categories filters)))
  && negb (bool_decide (t_Category t ∈ category_set useSubcategories categoryNames (f_ExcludeCategories filters)))
  && passes_tags filters t
  && negb (excluded_by_tags filters t)
  && (bool_decide (f_Trackers filters = []) || selected_by_trackers domainMap (f_Trackers filters) t)
  && negb (negb (bool_decide (f_ExcludeTrackers filters = [])) && selected_by_trackers domainMap (f_ExcludeTrackers filters) t)
  && passes_expr (f_Expr filters) t.

Definition applyManualFilters (src : TrackerSources) (torrents : list Torrent) (filters : FilterOptions)
    (mainCategories : option Categories) (categories : Categories) (useSubcategories : bool) : list Torrent :=
  let categoryNames := if useSubcategories then collectCategoryNames mainCategories categories else [] in
  let domainMap := hash_domains filters src torrents in
  filter (λ t, passes filters domainMap useSubcategories categoryNames t = true) torrents.

(** ** Searching *)

Definition search_separators : list ascii := ["."; "_"; "-"; "["; "]"; "("; ")"; "{"; "}"]%char.

Definition normalizeForSearch (text : string) : string :=
  Join (Fields (foldl (λ s r, ReplaceByte r " "%char s) (ToLower text) search_separators)) " ".

(** The score of a match: the method that found it, and its rank. *)
Definition search_score (search : string) (t : Torrent) : option Z :=
  let searchLower := ToLower search in
  let searchNormalized := normalizeForSearch search in
  let searchWords := Fields searchNormalized in
  if existsb (λ s, Contains (ToLower s) searchLower)
       [t_Name t; t_Category t; t_Tags t; t_Hash t; t_InfohashV1 t; t_InfohashV2 t] then Some 0%Z
  else
    let nameNormalized := normalizeForSearch (t_Name t) in
    let categoryNormalized := normalizeForSearch (t_Category t) in
    let tagsNormalized := normalizeForSearch (t_Tags t) in
    if existsb (λ s, Contains s searchNormalized) [nameNormalized; categoryNormalized; tagsNormalized] then Some 1%Z
    else if bool_decide (1 < length searchWords)%nat &&
            forallb (Contains (Join [nameNormalized; categoryNormalized; tagsNormalized] " ")) searchWords then Some 2%Z
    else if fuzzy_match searchNormalized nameNormalized then
      let score := fuzzy_rank searchNormalized nameNormalized in
      if (score <? 10)%Z then Some (3 + score)%Z else None
    else None.

(** [strings.Split] with the separator [, ]. *)
Fixpoint split_comma_space (l : bytes) : list bytes :=
  match l with
  | [] => [[]]
  | a :: l1 =>
    let go_on := match split_comma_space l1 with p :: ps => (a :: p) :: ps | [] => [[a]] end in
    match l1 with
    | b :: l2 =>
      if bool_decide (a = ","%char) && bool_decide (b = " "%char) then [] :: split_comma_space l2 else go_on
    | [] => go_on
    end
  end.

Definition comma_space_parts (s : string) : list string := of_bytes <$> split_comma_space (to_bytes s).

(** What one torrent contributes; a pattern that is not well formed matches nothing. *)
Definition glob_matches (patternLower : string) (t : Torrent) : bool :=
  match path_Match patternLower (ToLower (t_Name t)) with
  | None => false
  | Some true => true
  | Some false =>
    (negb (bool_decide (t_Category t = "")) && default false (path_Match patternLower (ToLower (t_Category t))))
    || (negb (bool_decide (t_Tags t = "")) &&
        existsb (λ tag, default false (path_Match patternLower (TrimSpace tag)))
          (comma_space_parts (ToLower (t_Tags t))))
  end.

Definition filterTorrentsByGlob (torrents : list Torrent) (pattern : string) : list Torrent :=
  filter (λ t, glob_matches (ToLower pattern) t = true) torrents.

Definition has_glob (search : string) : bool :=
  existsb (λ a, bool_decide (a ∈ ["*"; "?"; "["]%char)) (to_bytes search).

Definition filterTorrentsBySearch (torrents : list Torrent) (search : string) : list Torrent :=
  if bool_decide (search = "") then torrents
  else if has_glob search then filterTorrentsByGlob torrents search
  else filter (λ t, is_Some (search_score search t)) torrents.
End filters.

(** ** Torrents by hash *)

Lemma torrent_map_some torrents h : is_Some (torrent_map torrents !! h) ↔ h ∈ t_Hash <$> torrents.
Proof.
  unfold torrent_map.
  assert (∀ m : gmap string Torrent, is_Some (foldl (λ m t, <[t_Hash t := t]> m) m torrents !! h) ↔
    is_Some (m !! h) ∨ h ∈ t_Hash <$> torrents) as Hgen.
  { induction torrents as [|t l IH]; intros m; cbn [foldl fmap list_fmap]; [set_solver|]. rewrite IH, elem_of_cons.
    destruct (decide (t_Hash t = h)) as [->|]; [rewrite lookup_insert_eq|rewrite lookup_insert_ne by done]; naive_solver. }
  rewrite Hgen, lookup_empty. split; [by intros [[]|]|auto].
Qed.

(** ** What a listing selects *)

Section selection.
Context `{!UnicodeCase, !Library, !ListingLibrary}.

(** An untagged torrent has the empty tag. *)
Definition has_tag (t : Torrent) (tag : string) : Prop :=
  if bool_decide (t_Tags t = "") then tag = "" else tag ∈ tag_parts (t_Tags t).

(** A category, or with subcategories one of those the server knows below it. *)
Definition in_category (useSubcategories : bool) (categoryNames : list string) (category c : string) : Prop :=
  category = c ∨
  useSubcategories = true ∧ c ≠ "" ∧ category ∈ categoryNames ∧ HasPrefix category (c +++ "/") = true.

(** A hash at a domain, by the mapping if there is one, else by the main data as
    far as the torrents' own trackers agree; and not hidden. *)
Definition visible (src : TrackerSources) (torrents : list Torrent) (h d : string) : Prop :=
  hidden src d h = false ∧
  match src_mapping src, src_main src with
  | Some m, _ => holds (HashToDomains m) h d ∧ h ∈ t_Hash <$> torrents
  | None, Some trackers =>
    ∃ url hashes, trackers !! url = Some hashes ∧ h ∈ hashes ∧ domain_or_unknown url = d ∧
      ∀ t, torrent_map torrents !! h = Some t → torrentBelongsToTrackerDomain t d = true
  | None, None => False
  end.

Definition seen_at (filters : FilterOptions) (src : TrackerSources) (torrents : list Torrent) (h d : string) : Prop :=
  filter_domain filters d = true ∧ visible src torrents h d.

(** The domains by which the filters select a torrent: the visible ones they
    name, the empty one if there are none of these, and the domain of the
    torrent's own tracker when no torrent at all is visible at a named domain. *)
Definition selected_at (filters : FilterOptions) (src : TrackerSources) (torrents : list Torrent) (t : Torrent)
    (d : string) : Prop :=
  ((∃ h d', seen_at filters src torrents h d') ∧
   (seen_at filters src torrents (t_Hash t) d ∨ (d = "" ∧ ∀ d', ¬ seen_at filters src torrents (t_Hash t) d'))) ∨
  ((∀ h d', ¬ seen_at filters src torrents h d') ∧
   d = if bool_decide (t_Tracker t = "") then "" else domain_or_unknown (t_Tracker t)).

Record selected (filters : FilterOptions) (src : TrackerSources) (torrents : list Torrent)
    (useSubcategories : bool) (categoryNames : list string) (t : Torrent) : Prop := {
  sel_hash : (∀ h, h ∈ f_Hashes filters → h = "") ∨
    ∃ h c, h ∈ f_Hashes filters ∧ h ≠ "" ∧ c ∈ [t_Hash t; t_InfohashV1 t; t_InfohashV2 t] ∧ c ≠ "" ∧ ToUpper c = ToUpper h;
  sel_status : f_Status filters = [] ∨ ∃ s, s ∈ f_Status filters ∧ matchTorrentStatus t s = true;
  sel_not_status s : s ∈ f_ExcludeStatus filters → matchTorrentStatus t s = false;
  sel_category : f_Categories filters = [] ∨
    ∃ c, c ∈ f_Categories filters ∧ in_category useSubcategories categoryNames (t_Category t) c;
  sel_not_category c : c ∈ f_ExcludeCategories filters → ¬ in_category useSubcategories categoryNames (t_Category t) c;
  sel_tag : f_Tags filters = [] ∨ ∃ tag, tag ∈ f_Tags filters ∧ has_tag t tag;
  sel_not_tag tag : tag ∈ f_ExcludeTags filters → has_tag t tag → tag = "" ∧ t_Tags t ≠ "";
  sel_tracker : f_Trackers filters = [] ∨ ∃ d, d ∈ f_Trackers filters ∧ selected_at filters src torrents t d;
  sel_not_tracker d : d ∈ f_ExcludeTrackers filters → ¬ selected_at filters src torrents t d;
  sel_expr : f_Expr filters = "" ∨ expr_compile (f_Expr filters) = None ∨
    ∃ program, expr_compile (f_Expr filters) = Some program ∧ program t = Some true }.

Lemma existsb_bool {A} (f : A → bool) l : existsb f l = true ↔ ∃ x, x ∈ l ∧ f x = true.
Proof. rewrite existsb_exists. by setoid_rewrite <- list_elem_of_In. Qed.

Lemma elem_of_expand names s parent x :
  x ∈ expandCategorySet s parent names ↔ x ∈ s ∨ x ∈ names ∧ HasPrefix x (parent +++ "/") = true.
Proof.
  unfold expandCategorySet. revert s. induction names as [|n names IH]; intros s; cbn [foldl].
  { rewrite elem_of_nil. intuition. }
  rewrite IH, elem_of_cons. destruct (HasPrefix n (parent +++ "/")) eqn:E; rewrite ?elem_of_union, ?elem_of_singleton;
    intuition (subst; auto; congruence).
Qed.

Lemma elem_of_category_set use names cs x :
  x ∈ category_set use names cs ↔ ∃ c, c ∈ cs ∧ in_category use names x c.
Proof.
  unfold category_set.
  assert (∀ s, x ∈ foldl (λ s c, let s := {[c]} ∪ s in
      if use && negb (bool_decide (c = "")) then expandCategorySet s c names else s) s cs ↔
    x ∈ s ∨ ∃ c, c ∈ cs ∧ in_category use names x c) as Hgen.
  { induction cs as [|c cs IH]; intros s; cbn [foldl].
    - split; [auto|]. intros [?|(? & ?%elem_of_nil & _)]; done.
    - rewrite IH. cbv zeta. setoid_rewrite elem_of_cons. unfold in_category.
      destruct use; cbn [andb]; [case_bool_decide; cbn [negb]|];
        rewrite ?elem_of_expand, elem_of_union, elem_of_singleton; naive_solver. }
  rewrite Hgen. split; [intros [?%elem_of_empty|?]; done|auto].
Qed.

Lemma passes_tags_spec filters t :
  passes_tags filters t = true ↔ f_Tags filters = [] ∨ ∃ tag, tag ∈ f_Tags filters ∧ has_tag t tag.
Proof.
  unfold passes_tags, has_tag. case_bool_decide as E0; [rewrite E0; naive_solver|].
  case_bool_decide as E; rewrite existsb_bool.
  - setoid_rewrite bool_decide_eq_true. naive_solver.
  - setoid_rewrite existsb_bool. setoid_rewrite bool_decide_eq_true. naive_solver.
Qed.

Lemma excluded_by_tags_spec filters t :
  excluded_by_tags filters t = true ↔ ∃ tag, tag ∈ f_ExcludeTags filters ∧ has_tag t tag ∧ (tag = "" → t_Tags t = "").
Proof.
  unfold excluded_by_tags, has_tag. cbv zeta. case_bool_decide as E; rewrite existsb_bool.
  - setoid_rewrite bool_decide_eq_true. naive_solver.
  - setoid_rewrite existsb_bool. setoid_rewrite bool_decide_eq_true. setoid_rewrite list_elem_of_filter.
    split.
    + intros (x & [? ?] & tag & ? & ->). exists x. by split_and!.
    + intros (x & ? & ? & Hx). exists x. split; [split; [|done]|eauto]. intros Hxe. by apply E, Hx.
Qed.

(** *** Trackers *)

Definition used (m : Index) : Prop := ∀ k s, m !! k = Some s → s ≠ ∅.

Lemma fold_holds {B} (P : B → string → string → Prop) (step : Index → B → Index) l acc h d :
  (∀ acc b h d, b ∈ l → holds (step acc b) h d ↔ holds acc h d ∨ P b h d) →
  holds (foldl step acc l) h d ↔ holds acc h d ∨ ∃ b, b ∈ l ∧ P b h d.
Proof.
  revert acc. induction l as [|b l IH]; intros acc Hstep; cbn [foldl].
  { setoid_rewrite elem_of_nil. naive_solver. }
  rewrite IH by (intros; apply Hstep; by right). rewrite Hstep by (by left). setoid_rewrite elem_of_cons. naive_solver.
Qed.

Lemma fold_used {B} (step : Index → B → Index) l acc :
  used acc → (∀ acc b, used acc → used (step acc b)) → used (foldl step acc l).
Proof. revert acc. induction l as [|b l IH]; intros acc Ha Hs; cbn [foldl]; auto. Qed.

Lemma holds_empty h d : ¬ holds ∅ h d.
Proof. unfold holds. rewrite lookup_empty. by intros ?%elem_of_empty. Qed.

Lemma used_empty : used ∅.
Proof. intros k s. by rewrite lookup_empty. Qed.

Lemma mapped_domains_holds filters src m acc t h d :
  holds (mapped_domains filters src m acc t) h d ↔
  holds acc h d ∨ h = t_Hash t ∧ filter_domain filters d = true ∧ hidden src d h = false ∧ holds (HashToDomains m) h d.
Proof.
  unfold mapped_domains.
  rewrite (fold_holds (λ d' h d, h = t_Hash t ∧ d = d' ∧ filter_domain filters d = true ∧ hidden src d h = false)).
  - apply or_iff_compat_l. split.
    + intros (d' & Hin%elem_of_elements & -> & -> & ? & ?). done.
    + intros (-> & ? & ? & Hin). exists d. split; [by apply elem_of_elements|done].
  - intros acc' d' h' d'' _. destruct (filter_domain filters d' && negb (hidden src d' (t_Hash t))) eqn:E.
    + apply andb_prop in E as [? ?%negb_true_iff]. rewrite holds_add. naive_solver.
    + apply andb_false_iff in E as [?|?%negb_false_iff]; naive_solver congruence.
Qed.

Lemma main_domains_holds filters src torrentMap acc entry h d :
  holds (main_domains filters src torrentMap acc entry) h d ↔
  holds acc h d ∨ h ∈ entry.2 ∧ d = domain_or_unknown entry.1 ∧ filter_domain filters d = true ∧ hidden src d h = false ∧
    ∀ t, torrentMap !! h = Some t → torrentBelongsToTrackerDomain t d = true.
Proof.
  unfold main_domains. destruct (filter_domain filters (domain_or_unknown entry.1)) eqn:Ef; cbn [negb].
  2:{ naive_solver congruence. }
  rewrite (fold_holds (λ h' h d, h = h' ∧ d = domain_or_unknown entry.1 ∧ hidden src d h = false ∧
    ∀ t, torrentMap !! h = Some t → torrentBelongsToTrackerDomain t d = true)).
  { naive_solver. }
  intros acc' h' h'' d' _. destruct (torrentMap !! h') as [t|] eqn:Et.
  - destruct (torrentBelongsToTrackerDomain t (domain_or_unknown entry.1)) eqn:Eb; cbn [negb].
    + destruct (hidden src (domain_or_unknown entry.1) h') eqn:Eh; [naive_solver congruence|].
      rewrite holds_add. naive_solver.
    + naive_solver congruence.
  - destruct (hidden src (domain_or_unknown entry.1) h') eqn:Eh; [naive_solver congruence|].
    rewrite holds_add. naive_solver.
Qed.

Lemma filter_domain_some filters d :
  filter_domain filters d = true → bool_decide (f_Trackers filters = []) && bool_decide (f_ExcludeTrackers filters = []) = false.
Proof.
  unfold filter_domain. intros [Hd%bool_decide_eq_true|Hd%bool_decide_eq_true]%orb_prop; apply andb_false_iff;
    [left|right]; apply bool_decide_eq_false; intros E; rewrite E in Hd; by apply elem_of_nil in Hd.
Qed.

Lemma hash_domains_holds filters src torrents h d :
  holds (hash_domains filters src torrents) h d ↔ seen_at filters src torrents h d.
Proof.
  unfold hash_domains, seen_at, visible.
  destruct (bool_decide (f_Trackers filters = []) && bool_decide (f_ExcludeTrackers filters = [])) eqn:E.
  { split; [by intros ?%holds_empty|]. intros [Hf%filter_domain_some _]. congruence. }
  destruct (src_mapping src) as [m|]; [|destruct (src_main src) as [trackers|]].
  - rewrite (fold_holds (λ t h d, h = t_Hash t ∧ filter_domain filters d = true ∧ hidden src d h = false ∧ holds (HashToDomains m) h d))
      by (intros; apply mapped_domains_holds).
    split.
    + intros [?%holds_empty|(t & Ht & -> & ? & ? & ?)]; [done|]. split_and!; [done..|]. by apply list_elem_of_fmap_2.
    + intros (? & ? & ? & (t & -> & Ht)%list_elem_of_fmap). right. eauto 6.
  - rewrite (fold_holds (λ entry h d, h ∈ entry.2 ∧ d = domain_or_unknown entry.1 ∧ filter_domain filters d = true ∧
      hidden src d h = false ∧ ∀ t, torrent_map torrents !! h = Some t → torrentBelongsToTrackerDomain t d = true))
      by (intros; apply main_domains_holds).
    split.
    + intros [?%holds_empty|([url hashes] & Hin%elem_of_map_to_list & ? & -> & ? & ? & ?)]; [done|]. eauto 10.
    + intros (? & ? & url & hashes & ? & ? & <- & ?). right. exists (url, hashes).
      split; [by apply elem_of_map_to_list|done].
  - split; [by intros ?%holds_empty|naive_solver].
Qed.

Lemma hash_domains_used filters src torrents : used (hash_domains filters src torrents).
Proof.
  unfold hash_domains. destruct (_ && _); [apply used_empty|].
  destruct (src_mapping src) as [m|]; [|destruct (src_main src) as [trackers|]; [|apply used_empty]].
  all: apply fold_used; [apply used_empty|intros acc b Ha].
  - unfold mapped_domains. apply fold_used; [done|]. intros acc' d Ha'. destruct (_ && _); [|done]. intros k s. by eapply used_add.
  - unfold main_domains. destruct (negb _); [done|]. apply fold_used; [done|]. intros acc' h Ha'.
    destruct (torrent_map torrents !! h); repeat case_match; try done; intros k s; by eapply used_add.
Qed.

Lemma used_holds m h s : used m → m !! h = Some s → ∃ d, holds m h d.
Proof.
  intros Hu Hm. destruct (set_choose_L s) as [d Hd]; [by eapply Hu|]. exists d. unfold holds. by rewrite Hm.
Qed.

Lemma selected_by_trackers_spec filters src torrents chosen t :
  selected_by_trackers (hash_domains filters src torrents) chosen t = true ↔
  ∃ d, d ∈ chosen ∧ selected_at filters src torrents t d.
Proof.
  unfold selected_by_trackers, selected_at. setoid_rewrite <- hash_domains_holds.
  pose proof (hash_domains_used filters src torrents) as Hu.
  set (m := hash_domains filters src torrents) in *. clearbody m. case_bool_decide as E.
  - subst m. assert (∀ h d, ¬ holds ∅ h d) as Hno by apply holds_empty.
    case_bool_decide; rewrite bool_decide_eq_true; naive_solver.
  - assert (∃ h d, holds m h d) as Hsome.
    { apply map_choose in E as (h & s & Hs). exists h. by eapply used_holds. }
    destruct (m !! t_Hash t) as [s|] eqn:Es.
    + pose proof (Hu _ _ Es) as Hs. rewrite bool_decide_false, existsb_bool by done.
      setoid_rewrite elem_of_elements. setoid_rewrite bool_decide_eq_true.
      destruct (used_holds _ _ _ Hu Es) as [d0 Hd0].
      assert (∀ d, d ∈ s ↔ holds m (t_Hash t) d) as Hsd by (intros d; unfold holds; by rewrite Es).
      setoid_rewrite Hsd. naive_solver.
    + assert (∀ d, ¬ holds m (t_Hash t) d) as Hno by (intros d; unfold holds; rewrite Es; by intros ?%elem_of_empty).
      rewrite bool_decide_eq_true. naive_solver.
Qed.

(** *** All of them *)

Lemma passes_hashes_spec filters t :
  passes_hashes filters t = true ↔
  (∀ h, h ∈ f_Hashes filters → h = "") ∨
  ∃ h c, h ∈ f_Hashes filters ∧ h ≠ "" ∧ c ∈ [t_Hash t; t_InfohashV1 t; t_InfohashV2 t] ∧ c ≠ "" ∧ ToUpper c = ToUpper h.
Proof.
  unfold passes_hashes. cbv zeta. rewrite orb_true_iff, bool_decide_eq_true, existsb_bool.
  apply Morphisms_Prop.or_iff_morphism.
  - split.
    + intros E%fmap_nil_inv h Hh. destruct (decide (h = "")) as [|Hne]; [done|].
      assert (h ∈ filter (λ h, h ≠ "") (f_Hashes filters)) as Hin by (by apply list_elem_of_filter).
      rewrite E in Hin. by apply elem_of_nil in Hin.
    + intros Hall. destruct (filter _ _) as [|h l] eqn:E; [done|].
      assert (h ∈ filter (λ h, h ≠ "") (f_Hashes filters)) as [Hne Hin]%list_elem_of_filter by (rewrite E; by left).
      by apply Hall in Hin.
  - setoid_rewrite andb_true_iff. setoid_rewrite negb_true_iff. setoid_rewrite bool_decide_eq_false.
    setoid_rewrite bool_decide_eq_true. split.
    + intros (c & Hc & Hne & (h & Hu & [? ?]%list_elem_of_filter)%list_elem_of_fmap). eauto 8.
    + intros (h & c & Hh & Hne & Hc & Hcne & Hu). exists c. split; [done|]. split; [done|].
      rewrite Hu. apply list_elem_of_fmap_2. by apply list_elem_of_filter.
Qed.

Lemma any_or_empty (f : string → bool) l :
  bool_decide (l = []) || existsb f l = true ↔ l = [] ∨ ∃ x, x ∈ l ∧ f x = true.
Proof. by rewrite orb_true_iff, bool_decide_eq_true, existsb_bool. Qed.

Lemma none_of (f : string → bool) l : negb (existsb f l) = true ↔ ∀ x, x ∈ l → f x = false.
Proof.
  rewrite negb_true_iff, <- not_true_iff_false, existsb_bool. split.
  - intros Hno x Hx. apply not_true_iff_false. intros Hf. apply Hno. eauto.
  - intros Hall (x & Hx & Hf). rewrite (Hall x Hx) in Hf. done.
Qed.

Lemma passes_spec filters src torrents use names t :
  passes filters (hash_domains filters src torrents) use names t = true ↔ selected filters src torrents use names t.
Proof.
  unfold passes. rewrite !andb_true_iff, any_or_empty, none_of, passes_hashes_spec, passes_tags_spec.
  rewrite !orb_true_iff, !negb_true_iff, !bool_decide_eq_true, bool_decide_eq_false, andb_false_iff, negb_false_iff,
    bool_decide_eq_true.
  rewrite <- (not_true_iff_false (selected_by_trackers _ _ _)), !selected_by_trackers_spec, !elem_of_category_set.
  rewrite <- (not_true_iff_false (excluded_by_tags _ _)), excluded_by_tags_spec.
  assert (passes_expr (f_Expr filters) t = true ↔
    (f_Expr filters = "" ∨ expr_compile (f_Expr filters) = None ∨
    ∃ program, expr_compile (f_Expr filters) = Some program ∧ program t = Some true)) as ->.
  { unfold passes_expr. case_bool_decide; [naive_solver|].
    destruct (expr_compile (f_Expr filters)) as [program|]; [|naive_solver].
    destruct (program t) as [[]|] eqn:E; naive_solver. }
  split.
  - intros (((((((((? & ?) & ?) & ?) & Hnc) & ?) & Hnt) & ?) & Hntr) & ?). split; try done.
    + intros c Hc Hin. apply Hnc. eauto.
    + intros tag Htag Hhas. destruct (decide (tag = "" ∧ t_Tags t ≠ "")) as [|Hn]; [done|].
      exfalso. apply Hnt. exists tag. split_and!; [done..|]. intros He.
      destruct (decide (t_Tags t = "")); [done|]. exfalso. by apply Hn.
    + intros d Hd Hat. destruct Hntr as [E|Hno]; [rewrite E in Hd; by apply elem_of_nil in Hd|]. apply Hno. eauto.
  - intros []. split_and!; try done.
    + intros (c & ? & ?). by eapply sel_not_category0.
    + intros (tag & Hin & Hhas & Hne). destruct (sel_not_tag0 tag Hin Hhas) as [? Ht]. auto.
    + right. intros (d & ? & ?). by eapply sel_not_tracker0.
Qed.

(** C7.  Filtering keeps the order of the torrents and keeps exactly those which
    every filter accepts: a hash among those asked for, case aside; some of the
    statuses and none of the excluded ones; a category, with its subcategories
    where the server has them, and none of the excluded; a tag and none of the
    excluded; a tracker domain and none of the excluded; and the expression.  No
    filter of a kind accepts everything, and so does an expression that does not
    compile. *)
Theorem filters_exact (src : TrackerSources) (torrents : list Torrent) (filters : FilterOptions)
    (mainCategories : option Categories) (categories : Categories) (useSubcategories : bool) :
  let filtered := applyManualFilters src torrents filters mainCategories categories useSubcategories in
  let categoryNames := if useSubcategories then collectCategoryNames mainCategories categories else [] in
  filtered `sublist_of` torrents ∧
  ∀ t, t ∈ filtered ↔ t ∈ torrents ∧ selected filters src torrents useSubcategories categoryNames t.
Proof.
  cbv zeta. unfold applyManualFilters. cbv zeta. split; [apply sublist_filter|]. intros t.
  rewrite list_elem_of_filter, passes_spec. naive_solver.
Qed.
End selection.

(** ** Runs *)

#[local] Existing Instance AsciiCase.
#[local] Existing Instance SimpleLibrary.

(** No expression compiles, and nothing matches by resemblance alone. *)
Definition PlainListing : ListingLibrary :=
  {| expr_compile _ := None; fuzzy_match _ _ := false; fuzzy_rank _ _ := (-1)%Z |}.
#[local] Existing Instance PlainListing.

Definition fleet_sources : TrackerSources := MkSources (Some (build_mapping fleet)) None ∅.

Definition by_trackers (included excluded : list string) : FilterOptions :=
  MkFilterOptions [] [] [] [] [] [] [] included excluded "".

Definition fleet_by (included excluded : list string) : list string :=
  t_Hash <$> applyManualFilters fleet_sources fleet (by_trackers included excluded) None ∅ false.

Example fleet_by_domain :
  fleet_by ["one.org"%string] [] = ["a"%string] ∧ fleet_by [] ["one.org"%string] = ["b"; "c"]%string.
Proof. by vm_compute. Qed.

(** Asking also for the torrents without a tracker brings in those of every
    tracker that was not asked for, as their domains were left out of the map. *)
Example trackerless_brings_in_others :
  fleet_by [""%string] [] = [] ∧ fleet_by ["one.org"; ""]%string [] = ["a"; "b"; "c"]%string.
Proof. by vm_compute. Qed.

Example search_words :
  t_Hash <$> filterTorrentsBySearch (fleet ++ [listed "d" "Some.Show_S01E02" 1]) "show s01e02" = ["d"%string].
Proof. by vm_compute. Qed.
