(* ===== verification/ListingSort.v ===== *)
(** * [internal/qbittorrent/sync_manager.go]: the orders of the listings

    The comparators of the columns whose order the server's own sorting does not
    give, for the torrents of one instance and for those of all of them, and the
    loops that apply a permutation in place. *)

From Stdlib Require Import ZArith Lia Ascii SpecFloat.
From stdpp Require Import base numbers list strings gmap sorting.
From S2P Require Import Prelude.
From S2P Require Import Order.
From S2P Require Import GoStrings.
From S2P Require Import GoFloat.
From S2P Require Import Domain.
From S2P Require Import TransmissionRpc.
From S2P Require Import TorrentFilter.
From S2P Require Import Conditions.
From S2P Require Import Grouping.
From S2P Require Import TrackerHealth.
From S2P Require Import TrackerMapping.

Open Scope qui_scope.

(** ** Comparisons *)

(** [if desc { return -cmp }] *)
Definition applyDirection (desc : bool) (c : comparison) : comparison := if desc then CompOpp c else c.

(** [cmp.Or] *)
Fixpoint cmp_Or (cs : list comparison) : comparison :=
  match cs with
  | [] => Eq
  | Eq :: cs => cmp_Or cs
  | c :: _ => c
  end.

(** [cmp.Compare] of floats: a NaN is less than any number and equal to a NaN. *)
Definition float_Compare (x y : float64) : comparison :=
  if is_nan x then (if is_nan y then Eq else Lt)
  else if is_nan y then Gt
  else if f64_ltb x y then Lt else if f64_ltb y x then Gt else Eq.

Definition torrentStateSortOrder : list (TorrentState * Z) :=
  [(TorrentStateDownloading, 20); (TorrentStateMetaDl, 21); (TorrentStateForcedDl, 22); (TorrentStateAllocating, 23);
   (TorrentStateCheckingDl, 24); (TorrentStateQueuedDl, 25); (TorrentStateStalledDl, 30); (TorrentStateUploading, 40);
   (TorrentStateForcedUp, 41); (TorrentStateStoppedDl, 42); (TorrentStateStoppedUp, 43); (TorrentStateQueuedUp, 44);
   (TorrentStateStalledUp, 45); (TorrentStatePausedDl, 50); (TorrentStatePausedUp, 51); (TorrentStateCheckingUp, 60);
   (TorrentStateCheckingResumeData, 61); (TorrentStateMoving, 70); (TorrentStateError, 80); (TorrentStateMissingFiles, 81)]%Z.

Definition stateSortPriority (state : TorrentState) : Z := default 1000%Z (assoc state torrentStateSortOrder).

Definition infinityETA : Z := 8640000.

(** [slices.SortStableFunc] *)
Definition SortStableFunc {A} (c : A → A → comparison) : list A → list A := sort_slice (cmp_less c).

Section orders.
Context `{!UnicodeCase, !Library}.

(** ** The torrents of an instance *)

(** [statusSortMeta]; the cache in front of it holds what it computes. *)
Definition status_label (trackerHealthSupported : bool) (t : Torrent) : string :=
  let label := ToLower (t_State t) in
  if trackerHealthSupported then
    match determineTrackerHealth t with
    | Some TrackerHealthUnregistered => "unregistered"
    | Some TrackerHealthDown => "tracker_down"
    | Some TrackerHealthError => "tracker_error"
    | None => label
    end
  else label.

Definition compareByStatus (desc trackerHealthSupported : bool) (a b : Torrent) : comparison :=
  let trackerA := trackerHealthPriority a trackerHealthSupported in
  let trackerB := trackerHealthPriority b trackerHealthSupported in
  let stateA := stateSortPriority (t_State a) in
  let stateB := stateSortPriority (t_State b) in
  let labelA := status_label trackerHealthSupported a in
  let labelB := status_label trackerHealthSupported b in
  if negb (trackerA =? trackerB)%Z then applyDirection desc (trackerA ?= trackerB)%Z
  else if negb (stateA =? stateB)%Z then applyDirection desc (stateA ?= stateB)%Z
  else if negb (bool_decide (labelA = labelB)) then applyDirection desc (String.compare labelA labelB)
  else if negb (t_AddedOn a =? t_AddedOn b)%Z then
    let c := if (t_AddedOn b <? t_AddedOn a)%Z then Gt else Lt in
    if desc then c else CompOpp c
  else applyDirection desc (String.compare (ToLower (t_Name a)) (ToLower (t_Name b))).

Definition sortTorrentsByStatus (torrents : list Torrent) (desc trackerHealthSupported : bool) : list Torrent :=
  SortStableFunc (compareByStatus desc trackerHealthSupported) torrents.

Definition compareByName (desc : bool) (a b : Torrent) : comparison :=
  applyDirection desc
    match String.compare (ToLower (t_Name a)) (ToLower (t_Name b)) with
    | Eq => match String.compare (t_Name a) (t_Name b) with
            | Eq => String.compare (t_Hash a) (t_Hash b)
            | c => c
            end
    | c => c
    end.

Definition sortTorrentsByNameCaseInsensitive (torrents : list Torrent) (desc : bool) : list Torrent :=
  SortStableFunc (compareByName desc) torrents.

(** Torrents outside of the queue come last in both directions. *)
Definition compareByPriority (desc : bool) (a b : Torrent) : comparison :=
  if (t_Priority a =? 0)%Z && (t_Priority b =? 0)%Z then Eq
  else if (t_Priority a =? 0)%Z then Gt
  else if (t_Priority b =? 0)%Z then Lt
  else if desc then (t_Priority a ?= t_Priority b)%Z
  else (t_Priority b ?= t_Priority a)%Z.

Definition sortTorrentsByPriority (torrents : list Torrent) (desc : bool) : list Torrent :=
  SortStableFunc (compareByPriority desc) torrents.

Definition compareByETA (desc : bool) (a b : Torrent) : comparison :=
  let aIsInfinity := (t_ETA a =? infinityETA)%Z in
  let bIsInfinity := (t_ETA b =? infinityETA)%Z in
  if aIsInfinity && bIsInfinity then Eq
  else if aIsInfinity then Gt
  else if bIsInfinity then Lt
  else if desc then
    if (t_ETA b <? t_ETA a)%Z then Lt else if (t_ETA a <? t_ETA b)%Z then Gt else Eq
  else if (t_ETA a <? t_ETA b)%Z then Lt else if (t_ETA b <? t_ETA a)%Z then Gt else Eq.

Definition sortTorrentsByETA (torrents : list Torrent) (desc : bool) : list Torrent :=
  SortStableFunc (compareByETA desc) torrents.

Definition compareByStateThenName (a b : Torrent) : comparison :=
  let priorityA := stateSortPriority (t_State a) in
  let priorityB := stateSortPriority (t_State b) in
  if negb (priorityA =? priorityB)%Z then (priorityA ?= priorityB)%Z
  else match String.compare (ToLower (t_Name a)) (ToLower (t_Name b)) with
       | Eq => String.compare (t_Hash a) (t_Hash b)
       | c => c
       end.

Definition compareByTimestamp (getTimestamp : Torrent → Z) (desc : bool) (a b : Torrent) : comparison :=
  let tsA := getTimestamp a in
  let tsB := getTimestamp b in
  if negb (tsA =? tsB)%Z then (if desc then (tsB ?= tsA)%Z else (tsA ?= tsB)%Z)
  else compareByStateThenName a b.

Definition sortTorrentsByTimestamp (torrents : list Torrent) (desc : bool) (getTimestamp : Torrent → Z) : list Torrent :=
  SortStableFunc (compareByTimestamp getTimestamp desc) torrents.

(** *** By tracker *)

Record trackerSortKey := MkTrackerKey {
  tk_hasDomain : bool; tk_displayName : string; tk_domain : string; tk_normalized : string; tk_hash : string }.

Definition addCandidate (displayNameMap : gmap string string) (key : trackerSortKey) (candidate : string) : trackerSortKey :=
  let candidate := TrimSpace candidate in
  if bool_decide (candidate = "") then key else
  let lowerCandidate := ToLower candidate in
  let normalized := if bool_decide (tk_normalized key = "") then lowerCandidate else tk_normalized key in
  let domain := ToLower (ExtractDomainFromURL candidate) in
  if bool_decide (domain = "") || bool_decide (domain = "unknown")
  then MkTrackerKey (tk_hasDomain key) (tk_displayName key) (tk_domain key) normalized (tk_hash key)
  else MkTrackerKey true (match displayNameMap !! domain with Some customName => ToLower customName | None => domain end)
         domain normalized (tk_hash key).

(** The trackers until one has a domain. *)
Fixpoint add_trackers (displayNameMap : gmap string string) (key : trackerSortKey) (trackers : list TorrentTracker)
    : trackerSortKey :=
  match trackers with
  | [] => key
  | tracker :: trackers =>
    let key := addCandidate displayNameMap key (tt_Url tracker) in
    if tk_hasDomain key then key else add_trackers displayNameMap key trackers
  end.

Definition tracker_sort_key (displayNameMap : gmap string string) (t : Torrent) : trackerSortKey :=
  let key := addCandidate displayNameMap (MkTrackerKey false "" "" "" (ToLower (TrimSpace (t_Hash t)))) (t_Tracker t) in
  let key := if tk_hasDomain key then key else add_trackers displayNameMap key (t_Trackers t) in
  if bool_decide (tk_normalized key = "")
  then MkTrackerKey (tk_hasDomain key) (tk_displayName key) (tk_domain key) (tk_hash key) (tk_hash key)
  else key.

Definition compare_tracker_keys (desc : bool) (a b : trackerSortKey) : comparison :=
  if negb (bool_decide (tk_hasDomain a = tk_hasDomain b)) then (if tk_hasDomain a then Lt else Gt)
  else
    match String.compare (tk_displayName a) (tk_displayName b) with
    | Eq =>
      match String.compare (tk_domain a) (tk_domain b) with
      | Eq =>
        match String.compare (tk_normalized a) (tk_normalized b) with
        | Eq => applyDirection desc (String.compare (tk_hash a) (tk_hash b))
        | c => applyDirection desc c
        end
      | c => applyDirection desc c
      end
    | c => applyDirection desc c
    end.
End orders.

(** [l[i], l[j] = l[j], l[i]]; [None] is a panic. *)
Definition swap {A} (l : list A) (i j : nat) : option (list A) :=
  x ← l !! i; y ← l !! j; Some (<[j := x]> (<[i := y]> l)).

(** [targets[oldPos] = newPos] for the positions from [newPos] on. *)
Fixpoint invert (newPos : nat) (indices targets : list nat) : option (list nat) :=
  match indices with
  | [] => Some targets
  | oldPos :: indices => _ ← targets !! oldPos; invert (S newPos) indices (<[oldPos := newPos]> targets)
  end.

(** [for targets[i] != i], with fuel. *)
Fixpoint settle {A} (fuel : nat) (i : nat) (xs : list A) (targets : list nat) : option (list A * list nat) :=
  match fuel with
  | O => None
  | S fuel =>
    j ← targets !! i;
    if bool_decide (j = i) then Some (xs, targets)
    else xs ← swap xs i j; targets ← swap targets i j; settle fuel i xs targets
  end.

Fixpoint settle_all {A} (todo : list nat) (xs : list A) (targets : list nat) : option (list A * list nat) :=
  match todo with
  | [] => Some (xs, targets)
  | i :: todo => '(xs, targets) ← settle (S (length targets)) i xs targets; settle_all todo xs targets
  end.

(** The permutation that [sortTorrentsByTracker] applies in place. *)
Definition place {A} (xs : list A) (indices : list nat) : option (list A) :=
  targets ← invert 0 indices (replicate (length indices) 0);
  fst <$> settle_all (seq 0 (length targets)) xs targets.

Definition sortTorrentsByTracker `{!UnicodeCase, !Library} (displayNameMap : gmap string string)
    (torrents : list Torrent) (desc : bool) : option (list Torrent) :=
  if bool_decide (length torrents ≤ 1) then Some torrents else
  let keys := tracker_sort_key displayNameMap <$> torrents in
  let less i j := match keys !! i, keys !! j with
                  | Some a, Some b => cmp_less (compare_tracker_keys desc) a b
                  | _, _ => false
                  end in
  place torrents (sort_slice less (seq 0 (length torrents))).

(** ** The torrents of all instances *)

Record TorrentView := MkView { v_Torrent : Torrent; v_TrackerHealth : option TrackerHealth }.
Record CrossInstanceTorrentView := MkCrossView { cv_View : TorrentView; cv_InstanceID : Z; cv_InstanceName : string }.

Definition cv_Torrent (v : CrossInstanceTorrentView) : Torrent := v_Torrent (cv_View v).

(** A column: a time, any other value, or one of the two with a value that comes
    last in both directions. *)
Inductive cross_column :=
  | ColumnTime (getTimestamp : Torrent → Z)
  | ColumnValue (c : CrossInstanceTorrentView → CrossInstanceTorrentView → comparison)
  | ColumnPriority
  | ColumnETA.

Section cross.
Context `{!UnicodeCase, !Library}.

Definition compareIdentity (a b : CrossInstanceTorrentView) : comparison :=
  cmp_Or [String.compare (ToLower (t_Name (cv_Torrent a))) (ToLower (t_Name (cv_Torrent b)));
          String.compare (ToLower (t_Hash (cv_Torrent a))) (ToLower (t_Hash (cv_Torrent b)));
          String.compare (ToLower (cv_InstanceName a)) (ToLower (cv_InstanceName b));
          (cv_InstanceID a ?= cv_InstanceID b)%Z].

Definition by_int (f : Torrent → Z) : cross_column := ColumnValue (λ a b, f (cv_Torrent a) ?= f (cv_Torrent b))%Z.
Definition by_float (f : Torrent → float64) : cross_column :=
  ColumnValue (λ a b, float_Compare (f (cv_Torrent a)) (f (cv_Torrent b))).
Definition by_text (f : Torrent → string) : cross_column :=
  ColumnValue (λ a b, String.compare (ToLower (f (cv_Torrent a))) (ToLower (f (cv_Torrent b)))).

Definition by_name : cross_column :=
  ColumnValue (λ a b, cmp_Or [String.compare (ToLower (t_Name (cv_Torrent a))) (ToLower (t_Name (cv_Torrent b)));
                              String.compare (t_Name (cv_Torrent a)) (t_Name (cv_Torrent b))]).
Definition by_instance : cross_column :=
  ColumnValue (λ a b, cmp_Or [String.compare (ToLower (cv_InstanceName a)) (ToLower (cv_InstanceName b));
                              (cv_InstanceID a ?= cv_InstanceID b)%Z]).
Definition by_state : cross_column :=
  ColumnValue (λ a b, cmp_Or [(stateSortPriority (t_State (cv_Torrent a)) ?= stateSortPriority (t_State (cv_Torrent b)))%Z;
                              String.compare (ToLower (t_State (cv_Torrent a))) (ToLower (t_State (cv_Torrent b)))]).

Definition cross_columns : list (string * cross_column) :=
  [("name", by_name); ("size", by_int t_Size); ("progress", by_float t_Progress);
   ("added_on", ColumnTime t_AddedOn); ("completion_on", ColumnTime t_CompletionOn);
   ("seen_complete", ColumnTime t_SeenComplete); ("last_activity", ColumnTime (λ t, t_LastActivity t ÷ 60)%Z);
   ("instance", by_instance); ("state", by_state); ("priority", ColumnPriority); ("eta", ColumnETA);
   ("num_complete", by_int t_NumComplete); ("num_incomplete", by_int t_NumIncomplete);
   ("num_seeds", by_int t_NumSeeds); ("num_leechs", by_int t_NumLeechs); ("dlspeed", by_int t_DlSpeed);
   ("upspeed", by_int t_UpSpeed); ("ratio", by_float t_Ratio); ("popularity", by_float t_Popularity);
   ("category", by_text t_Category); ("tags", by_text t_Tags); ("dl_limit", by_int t_DlLimit);
   ("up_limit", by_int t_UpLimit); ("downloaded", by_int t_Downloaded); ("uploaded", by_int t_Uploaded);
   ("downloaded_session", by_int t_DownloadedSession); ("uploaded_session", by_int t_UploadedSession);
   ("amount_left", by_int t_AmountLeft); ("time_active", by_int t_TimeActive); ("seeding_time", by_int t_SeedingTime);
   ("save_path", by_text t_SavePath); ("completed", by_int t_Completed); ("ratio_limit", by_float t_RatioLimit);
   ("availability", by_float t_Availability); ("infohash_v1", by_text t_InfohashV1);
   ("infohash_v2", by_text t_InfohashV2); ("reannounce", by_int t_Reannounce);
   ("private", by_int (λ t, if t_Private t then 1 else 0)%Z)]%string.

Definition compare_column (column : cross_column) (desc : bool) (a b : CrossInstanceTorrentView) : comparison :=
  match column with
  | ColumnTime getTimestamp =>
    let tsA := getTimestamp (cv_Torrent a) in
    let tsB := getTimestamp (cv_Torrent b) in
    if negb (tsA =? tsB)%Z then applyDirection desc (tsA ?= tsB)%Z else compareIdentity a b
  | ColumnValue c =>
    match c a b with
    | Eq => compareIdentity a b
    | result => applyDirection desc result
    end
  | ColumnPriority =>
    let priorityA := t_Priority (cv_Torrent a) in
    let priorityB := t_Priority (cv_Torrent b) in
    if (priorityA =? 0)%Z && (priorityB =? 0)%Z then compareIdentity a b
    else if (priorityA =? 0)%Z then Gt
    else if (priorityB =? 0)%Z then Lt
    else match (if desc then priorityA ?= priorityB else priorityB ?= priorityA)%Z with
         | Eq => compareIdentity a b
         | result => result
         end
  | ColumnETA =>
    let aInfinity := (t_ETA (cv_Torrent a) =? infinityETA)%Z in
    let bInfinity := (t_ETA (cv_Torrent b) =? infinityETA)%Z in
    if negb (bool_decide (aInfinity = bInfinity)) then (if aInfinity then Gt else Lt)
    else if negb aInfinity then
      match (t_ETA (cv_Torrent a) ?= t_ETA (cv_Torrent b))%Z with
      | Eq => compareIdentity a b
      | result => applyDirection desc result
      end
    else compareIdentity a b
  end.

Definition resolveDisplayName (displayNameMap : gmap string string) (domain : string) : string :=
  match displayNameMap !! domain with Some customName => ToLower customName | None => domain end.

Definition compareCrossInstanceByTracker (displayNameMap : gmap string string) (desc : bool)
    (a b : CrossInstanceTorrentView) : comparison :=
  let domainA := ToLower (ExtractDomainFromURL (t_Tracker (cv_Torrent a))) in
  let domainB := ToLower (ExtractDomainFromURL (t_Tracker (cv_Torrent b))) in
  let has_domain d := negb (bool_decide (d = "")) && negb (bool_decide (d = "unknown"%string)) in
  if negb (bool_decide (has_domain domainA = has_domain domainB)) then (if has_domain domainA then Lt else Gt)
  else applyDirection desc (cmp_Or
    [String.compare (resolveDisplayName displayNameMap domainA) (resolveDisplayName displayNameMap domainB);
     String.compare domainA domainB;
     String.compare (cv_InstanceName a) (cv_InstanceName b);
     String.compare (t_Name (cv_Torrent a)) (t_Name (cv_Torrent b));
     String.compare (t_Hash (cv_Torrent a)) (t_Hash (cv_Torrent b))]).

(** What an unknown column sorts by is the identity alone. *)
Definition compare_cross (displayNameMap : gmap string string) (sort : string) (desc : bool)
    (a b : CrossInstanceTorrentView) : comparison :=
  if bool_decide (sort = "tracker"%string) then compareCrossInstanceByTracker displayNameMap desc a b
  else match assoc sort cross_columns with
       | Some column => compare_column column desc a b
       | None => compareIdentity a b
       end.

Definition sortCrossInstanceTorrents (displayNameMap : gmap string string) (torrents : list CrossInstanceTorrentView)
    (sort : string) (desc : bool) : list CrossInstanceTorrentView :=
  sort_slice (cmp_less (compare_cross displayNameMap sort desc)) torrents.
End cross.

(** ** The comparators are total orders *)

Lemma total_ext {A} (c c' : A → A → comparison) : (∀ x y, c x y = c' x y) → TotalCmp c' → TotalCmp c.
Proof.
  intros E Hc. split; intros x y.
  - rewrite !E. apply cmp_opp.
  - intros z. rewrite !E. apply cmp_trans.
  - intros z. rewrite !E. apply cmp_eq_l.
Qed.

Definition dir_cmp {A} (desc : bool) (c : A → A → comparison) : A → A → comparison := if desc then flip_cmp c else c.

#[export] Instance dir_total {A} desc (c : A → A → comparison) : TotalCmp c → TotalCmp (dir_cmp desc c).
Proof. destruct desc; simpl; apply _. Qed.

Lemma applyDirection_spec {A} desc (c : A → A → comparison) `{!TotalCmp c} x y :
  applyDirection desc (c x y) = dir_cmp desc c x y.
Proof. destruct desc; [|done]. symmetry. apply (cmp_opp (c := c) x y). Qed.

Lemma lex_step {A} (c1 c2 : A → A → comparison) `{!TotalCmp c1} desc x y (d r : comparison) :
  d = c1 x y → r = c2 x y →
  match d with Eq => r | Lt => applyDirection desc Lt | Gt => applyDirection desc Gt end = lex_cmp (dir_cmp desc c1) c2 x y.
Proof.
  intros -> ->. unfold lex_cmp. rewrite <- applyDirection_spec by done. by destruct (c1 x y), desc.
Qed.

Lemma int_step {A} (f : A → Z) (c2 : A → A → comparison) desc x y r :
  r = c2 x y →
  (if negb (f x =? f y)%Z then applyDirection desc (f x ?= f y)%Z else r) =
  lex_cmp (dir_cmp desc (pull_cmp f Z.compare)) c2 x y.
Proof.
  intros Hr. rewrite <- (lex_step _ _ desc x y _ _ eq_refl Hr). unfold pull_cmp.
  rewrite Z.eqb_compare. by destruct (f x ?= f y)%Z.
Qed.

Lemma text_step {A} (f : A → string) (c2 : A → A → comparison) desc x y r :
  r = c2 x y →
  (if negb (bool_decide (f x = f y)) then applyDirection desc (String.compare (f x) (f y)) else r) =
  lex_cmp (dir_cmp desc (pull_cmp f String.compare)) c2 x y.
Proof.
  intros Hr. rewrite <- (lex_step _ _ desc x y _ _ eq_refl Hr). unfold pull_cmp. case_bool_decide as E.
  - rewrite E, (cmp_refl String.compare). done.
  - destruct (String.compare (f x) (f y)) eqn:Ec; try done. by apply String.compare_eq_iff in Ec.
Qed.

Lemma flag_step {A} (f : A → bool) (c2 : A → A → comparison) x y r :
  r = c2 x y →
  (if negb (bool_decide (f x = f y)) then (if f x then Lt else Gt) else r) =
  lex_cmp (pull_cmp (λ t, if f t then 0 else 1)%Z Z.compare) c2 x y.
Proof. intros ->. unfold lex_cmp, pull_cmp. by destruct (f x), (f y). Qed.

Lemma cmp_Or_cons {A} (c1 c2 : A → A → comparison) x y cs :
  cmp_Or cs = c2 x y → cmp_Or (c1 x y :: cs) = lex_cmp c1 c2 x y.
Proof. intros E. cbn [cmp_Or]. unfold lex_cmp. by destruct (c1 x y). Qed.

(** The order in which a value is last. *)
Definition last_cmp {A} (f : A → Z) (z : Z) : A → A → comparison :=
  pull_cmp (λ t, if (f t =? z)%Z then 1 else 0)%Z Z.compare.

#[export] Instance last_total {A} (f : A → Z) z : TotalCmp (last_cmp f z).
Proof. unfold last_cmp. apply _. Qed.

(** Floats with NaN before all of them. *)
Definition nan_first (f : float64) : Z * Z * Z := if is_nan f then (-3, 0, 0)%Z else float_key f.

Lemma float_Compare_spec x y : float_Compare x y = pull_cmp nan_first key3_cmp x y.
Proof.
  unfold float_Compare, nan_first, pull_cmp. destruct (is_nan x) eqn:Ex, (is_nan y) eqn:Ey; try done.
  1,2: unfold key3_cmp, lex_cmp, pull_cmp; destruct x as [[]|[]| |[]], y as [[]|[]| |[]]; done.
  fold (pull_cmp float_key key3_cmp x y). fold (float_cmp x y). unfold f64_ltb, SFltb.
  rewrite !float_cmp_spec by done. rewrite (cmp_opp (c := float_cmp) x y). by destruct (float_cmp x y).
Qed.

#[export] Instance float_Compare_total : TotalCmp float_Compare.
Proof. eapply total_ext; [apply float_Compare_spec|]. unfold key3_cmp. apply _. Qed.

Section total.
Context `{!UnicodeCase, !Library}.

#[export] Instance status_total desc supported : TotalCmp (compareByStatus desc supported).
Proof.
  eapply (total_ext _ (lex_cmp (dir_cmp desc (pull_cmp (λ t, trackerHealthPriority t supported) Z.compare))
    (lex_cmp (dir_cmp desc (pull_cmp (stateSortPriority ∘ t_State) Z.compare))
    (lex_cmp (dir_cmp desc (pull_cmp (status_label supported) String.compare))
    (lex_cmp (dir_cmp (negb desc) (pull_cmp t_AddedOn Z.compare))
      (dir_cmp desc (pull_cmp (ToLower ∘ t_Name) String.compare))))))); [|apply _].
  intros a b. unfold compareByStatus. cbv zeta.
  apply (int_step (λ t, trackerHealthPriority t supported)). apply (int_step (stateSortPriority ∘ t_State)).
  apply (text_step (status_label supported)). rewrite <- (int_step t_AddedOn _ (negb desc) a b _ eq_refl).
  rewrite <- applyDirection_spec by apply _. destruct (t_AddedOn a =? t_AddedOn b)%Z eqn:E; [done|]. cbn [negb].
  unfold Z.ltb. rewrite (Z.compare_antisym (t_AddedOn a) (t_AddedOn b)). apply Z.eqb_neq in E.
  destruct (t_AddedOn a ?= t_AddedOn b)%Z eqn:Ec; [by apply Z.compare_eq in Ec|by destruct desc..].
Qed.

#[export] Instance name_total desc : TotalCmp (compareByName desc).
Proof.
  eapply (total_ext _ (dir_cmp desc (lex_cmp (pull_cmp (ToLower ∘ t_Name) String.compare)
    (lex_cmp (pull_cmp t_Name String.compare) (pull_cmp t_Hash String.compare))))); [|apply _].
  intros a b. by rewrite <- applyDirection_spec by apply _.
Qed.

#[export] Instance priority_total desc : TotalCmp (compareByPriority desc).
Proof.
  eapply (total_ext _ (lex_cmp (last_cmp t_Priority 0) (dir_cmp (negb desc) (pull_cmp t_Priority Z.compare)))); [|apply _].
  intros a b. unfold compareByPriority, lex_cmp, last_cmp, dir_cmp, flip_cmp, pull_cmp.
  destruct (t_Priority a =? 0)%Z eqn:Ea, (t_Priority b =? 0)%Z eqn:Eb; try done; [|by destruct desc].
  apply Z.eqb_eq in Ea, Eb. destruct desc; simpl; by rewrite Ea, Eb.
Qed.

#[export] Instance eta_total desc : TotalCmp (compareByETA desc).
Proof.
  eapply (total_ext _ (lex_cmp (last_cmp t_ETA infinityETA) (dir_cmp desc (pull_cmp t_ETA Z.compare)))); [|apply _].
  intros a b. unfold compareByETA, lex_cmp, last_cmp, dir_cmp, flip_cmp, pull_cmp. cbv zeta.
  destruct (t_ETA a =? infinityETA)%Z eqn:Ea, (t_ETA b =? infinityETA)%Z eqn:Eb; cbn [andb]; try done.
  - apply Z.eqb_eq in Ea, Eb. destruct desc; simpl; by rewrite Ea, Eb.
  - destruct desc; cbn beta iota; unfold Z.ltb; rewrite (Z.compare_antisym (t_ETA a) (t_ETA b));
      by destruct (t_ETA a ?= t_ETA b)%Z.
Qed.

#[export] Instance timestamp_total f desc : TotalCmp (compareByTimestamp f desc).
Proof.
  eapply (total_ext _ (lex_cmp (dir_cmp desc (pull_cmp f Z.compare))
    (lex_cmp (dir_cmp false (pull_cmp (stateSortPriority ∘ t_State) Z.compare))
    (lex_cmp (pull_cmp (ToLower ∘ t_Name) String.compare) (pull_cmp t_Hash String.compare))))); [|apply _].
  intros a b. unfold compareByTimestamp. cbv zeta. rewrite <- (int_step f _ desc a b _ eq_refl).
  rewrite <- (int_step (stateSortPriority ∘ t_State) _ false a b _ eq_refl).
  rewrite (Z.compare_antisym (f a) (f b)). by destruct desc.
Qed.

#[export] Instance tracker_keys_total desc : TotalCmp (compare_tracker_keys desc).
Proof.
  eapply (total_ext _ (lex_cmp (pull_cmp (λ k, if tk_hasDomain k then 0 else 1)%Z Z.compare)
    (lex_cmp (dir_cmp desc (pull_cmp tk_displayName String.compare))
    (lex_cmp (dir_cmp desc (pull_cmp tk_domain String.compare))
    (lex_cmp (dir_cmp desc (pull_cmp tk_normalized String.compare))
      (dir_cmp desc (pull_cmp tk_hash String.compare))))))); [|apply _].
  intros a b. unfold compare_tracker_keys. apply (flag_step tk_hasDomain).
  apply (lex_step (pull_cmp tk_displayName String.compare) _ desc a b _ _ eq_refl).
  apply (lex_step (pull_cmp tk_domain String.compare) _ desc a b _ _ eq_refl).
  apply (lex_step (pull_cmp tk_normalized String.compare) _ desc a b _ _ eq_refl).
  by rewrite <- applyDirection_spec by apply _.
Qed.
End total.

(** *** Across instances *)

Section cross_total.
Context `{!UnicodeCase, !Library}.

Definition identity_cmp : CrossInstanceTorrentView → CrossInstanceTorrentView → comparison :=
  lex_cmp (pull_cmp (λ v, ToLower (t_Name (cv_Torrent v))) String.compare)
  (lex_cmp (pull_cmp (λ v, ToLower (t_Hash (cv_Torrent v))) String.compare)
  (lex_cmp (pull_cmp (λ v, ToLower (cv_InstanceName v)) String.compare) (pull_cmp cv_InstanceID Z.compare))).

Lemma cmp_Or_one {A} (c : A → A → comparison) x y : cmp_Or [c x y] = c x y.
Proof. simpl. by destruct (c x y). Qed.

Lemma compareIdentity_spec a b : compareIdentity a b = identity_cmp a b.
Proof.
  unfold compareIdentity, identity_cmp.
  apply (cmp_Or_cons (pull_cmp (λ v, ToLower (t_Name (cv_Torrent v))) String.compare)).
  apply (cmp_Or_cons (pull_cmp (λ v, ToLower (t_Hash (cv_Torrent v))) String.compare)).
  apply (cmp_Or_cons (pull_cmp (λ v, ToLower (cv_InstanceName v)) String.compare)).
  apply (cmp_Or_one (pull_cmp cv_InstanceID Z.compare)).
Qed.

#[export] Instance identity_total : TotalCmp compareIdentity.
Proof. eapply total_ext; [apply compareIdentity_spec|]. unfold identity_cmp. apply _. Qed.

Definition column_total (column : cross_column) : Prop :=
  match column with ColumnValue c => TotalCmp c | _ => True end.

Lemma by_int_total f : column_total (by_int f).
Proof. apply (total_ext _ (pull_cmp (f ∘ cv_Torrent) Z.compare)); [done|apply _]. Qed.
Lemma by_float_total f : column_total (by_float f).
Proof. apply (total_ext _ (pull_cmp (f ∘ cv_Torrent) float_Compare)); [done|apply _]. Qed.
Lemma by_text_total f : column_total (by_text f).
Proof. apply (total_ext _ (pull_cmp (λ v, ToLower (f (cv_Torrent v))) String.compare)); [done|apply _]. Qed.

Lemma by_two_total {A B} (f : CrossInstanceTorrentView → A) (g : CrossInstanceTorrentView → B) c1 c2 :
  TotalCmp c1 → TotalCmp c2 → column_total (ColumnValue (λ a b, cmp_Or [c1 (f a) (f b); c2 (g a) (g b)])).
Proof.
  intros H1 H2. apply (total_ext _ (lex_cmp (pull_cmp f c1) (pull_cmp g c2))); [|apply _].
  intros a b. apply (cmp_Or_cons (pull_cmp f c1)). apply (cmp_Or_one (pull_cmp g c2)).
Qed.

Create HintDb columns.
#[local] Hint Resolve by_int_total by_float_total by_text_total string_total Z_total : columns.
#[local] Hint Extern 1 (column_total (ColumnTime _)) => exact I : columns.
#[local] Hint Extern 1 (column_total ColumnPriority) => exact I : columns.
#[local] Hint Extern 1 (column_total ColumnETA) => exact I : columns.

Lemma columns_total : Forall (λ entry, column_total entry.2) cross_columns.
Proof.
  unfold cross_columns.
  assert (column_total by_name) as Hn by (apply (by_two_total (λ v, ToLower (t_Name (cv_Torrent v))) (λ v, t_Name (cv_Torrent v))); apply _).
  assert (column_total by_instance) as Hi by (apply (by_two_total (λ v, ToLower (cv_InstanceName v)) cv_InstanceID); apply _).
  assert (column_total by_state) as Hs
    by (apply (by_two_total (λ v, stateSortPriority (t_State (cv_Torrent v))) (λ v, ToLower (t_State (cv_Torrent v)))); apply _).
  repeat (apply Forall_cons_2; [cbn [snd]; eauto with columns|]). by apply Forall_nil_2.
Qed.

Lemma assoc_Forall {A} (P : A → Prop) k (m : list (string * A)) v :
  Forall (λ entry, P entry.2) m → assoc k m = Some v → P v.
Proof.
  induction 1 as [|[k' v'] m HP _ IH]; simpl; [done|]. case_bool_decide; [by intros [= <-]|done].
Qed.

Lemma dir_lex_spec desc (c : CrossInstanceTorrentView → CrossInstanceTorrentView → comparison) `{!TotalCmp c} a b :
  match c a b with Eq => compareIdentity a b | Lt => applyDirection desc Lt | Gt => applyDirection desc Gt end =
  lex_cmp (dir_cmp desc c) compareIdentity a b.
Proof. by apply lex_step. Qed.

Lemma compare_column_total column desc : column_total column → TotalCmp (compare_column column desc).
Proof.
  destruct column as [f|c| |]; intros Hc.
  - eapply (total_ext _ (lex_cmp (dir_cmp desc (pull_cmp (f ∘ cv_Torrent) Z.compare)) compareIdentity)); [|apply _].
    intros a b. unfold compare_column. cbv zeta. by apply (int_step (f ∘ cv_Torrent)).
  - cbn in Hc. eapply (total_ext _ (lex_cmp (dir_cmp desc c) compareIdentity)); [|apply _].
    intros a b. apply dir_lex_spec. done.
  - eapply (total_ext _ (lex_cmp (last_cmp (t_Priority ∘ cv_Torrent) 0)
      (lex_cmp (dir_cmp (negb desc) (pull_cmp (t_Priority ∘ cv_Torrent) Z.compare)) compareIdentity))); [|apply _].
    intros a b. unfold compare_column, lex_cmp, last_cmp, dir_cmp, flip_cmp, pull_cmp, compose.
    destruct (t_Priority (cv_Torrent a) =? 0)%Z eqn:Ea, (t_Priority (cv_Torrent b) =? 0)%Z eqn:Eb; try done.
    + apply Z.eqb_eq in Ea, Eb. destruct desc; simpl; by rewrite Ea, Eb.
    + by destruct desc.
  - eapply (total_ext _ (lex_cmp (last_cmp (t_ETA ∘ cv_Torrent) infinityETA)
      (lex_cmp (dir_cmp desc (pull_cmp (t_ETA ∘ cv_Torrent) Z.compare)) compareIdentity))); [|apply _].
    intros a b. unfold compare_column, last_cmp. cbv zeta.
    destruct (t_ETA (cv_Torrent a) =? infinityETA)%Z eqn:Ea, (t_ETA (cv_Torrent b) =? infinityETA)%Z eqn:Eb;
      unfold lex_cmp at 1; unfold pull_cmp at 1; cbn [compose]; unfold compose; rewrite Ea, Eb; try done.
    + apply Z.eqb_eq in Ea, Eb. unfold lex_cmp, dir_cmp, flip_cmp, pull_cmp. destruct desc; simpl; by rewrite Ea, Eb.
    + cbn [Z.compare bool_decide negb]. by apply (dir_lex_spec desc (pull_cmp (λ v, t_ETA (cv_Torrent v)) Z.compare)).
Qed.

#[export] Instance cross_tracker_total dn desc : TotalCmp (compareCrossInstanceByTracker dn desc).
Proof.
  set (dom v := ToLower (ExtractDomainFromURL (t_Tracker (cv_Torrent v)))).
  set (has v := negb (bool_decide (dom v = "")) && negb (bool_decide (dom v = "unknown"%string))).
  eapply (total_ext _ (lex_cmp (pull_cmp (λ v, if has v then 0 else 1)%Z Z.compare) (dir_cmp desc
    (lex_cmp (pull_cmp (resolveDisplayName dn ∘ dom) String.compare)
    (lex_cmp (pull_cmp dom String.compare)
    (lex_cmp (pull_cmp cv_InstanceName String.compare)
    (lex_cmp (pull_cmp (t_Name ∘ cv_Torrent) String.compare) (pull_cmp (t_Hash ∘ cv_Torrent) String.compare)))))))); [|apply _].
  intros a b. unfold compareCrossInstanceByTracker. cbv zeta. apply (flag_step has).
  rewrite <- applyDirection_spec by apply _. f_equal.
  apply (cmp_Or_cons (pull_cmp (resolveDisplayName dn ∘ dom) String.compare)).
  apply (cmp_Or_cons (pull_cmp dom String.compare)). apply (cmp_Or_cons (pull_cmp cv_InstanceName String.compare)).
  apply (cmp_Or_cons (pull_cmp (t_Name ∘ cv_Torrent) String.compare)).
  apply (cmp_Or_one (pull_cmp (t_Hash ∘ cv_Torrent) String.compare)).
Qed.

#[export] Instance cross_total dn sort desc : TotalCmp (compare_cross dn sort desc).
Proof.
  unfold compare_cross. case_bool_decide; [apply _|]. destruct (assoc sort cross_columns) as [column|] eqn:E; [|apply _].
  apply compare_column_total. eapply assoc_Forall; [apply columns_total|done].
Qed.
End cross_total.

(** ** Applying a permutation in place *)

Section placing.
Context {A : Type}.

Lemma swap_lookup {B} (l : list B) i j x y :
  l !! i = Some x → l !! j = Some y → swap l i j = Some (<[j := x]> (<[i := y]> l)).
Proof. intros Hi Hj. unfold swap. by rewrite Hi, Hj. Qed.

(** Every element still goes to its target, and targets are distinct. *)
Record on_the_way (n : nat) (zs : list (nat * A)) (xs : list A) (targets : list nat) : Prop := {
  ow_xs : length xs = n;
  ow_targets : targets ≡ₚ seq 0 n;
  ow_zip : zip targets xs ≡ₚ zs }.

Definition settled (targets : list nat) (p : nat) : Prop := targets !! p = Some p.
#[export] Instance settled_dec targets p : Decision (settled targets p).
Proof. unfold settled. apply _. Defined.

Definition unsettled (n : nat) (targets : list nat) : nat := length (filter (λ p, ¬ settled targets p) (seq 0 n)).

Lemma on_the_way_target n zs xs targets p j :
  on_the_way n zs xs targets → targets !! p = Some j → j < n.
Proof.
  intros [_ Ht _] Hp. apply list_elem_of_lookup_2 in Hp. rewrite Ht, elem_of_seq in Hp. lia.
Qed.

Lemma on_the_way_inj n zs xs targets p q j :
  on_the_way n zs xs targets → targets !! p = Some j → targets !! q = Some j → p = q.
Proof.
  intros [_ Ht _] Hp Hq. assert (NoDup targets) as Hnd by (rewrite Ht; apply NoDup_seq).
  by eapply (NoDup_lookup targets).
Qed.

Lemma filter_seq_lt (P Q : nat → Prop) `{!∀ p, Decision (P p), !∀ p, Decision (Q p)} l j :
  (∀ p, Q p → P p) → j ∈ l → P j → ¬ Q j → length (filter Q l) < length (filter P l).
Proof.
  intros HQP. induction l as [|p l IH]; [by intros ?%elem_of_nil|]. intros Hin HP HQ.
  assert (length (filter Q l) ≤ length (filter P l)) as Hle.
  { clear -HQP. induction l as [|p l IH]; [done|]. rewrite !filter_cons. repeat case_decide; simpl; try lia. naive_solver. }
  rewrite !filter_cons. apply elem_of_cons in Hin as [->|Hin].
  - rewrite decide_False by done. rewrite decide_True by done. simpl. lia.
  - specialize (IH Hin HP HQ). repeat case_decide; simpl; try lia. naive_solver.
Qed.

(** One exchange settles a position and unsettles none. *)
Lemma swap_step n zs xs targets i j :
  on_the_way n zs xs targets → targets !! i = Some j → j ≠ i →
  ∃ xs' targets', swap xs i j = Some xs' ∧ swap targets i j = Some targets' ∧ on_the_way n zs xs' targets' ∧
    (∀ p, settled targets p → settled targets' p) ∧ unsettled n targets' < unsettled n targets.
Proof.
  intros Hw Hi Hne. pose proof Hw as [Hx Ht Hz].
  assert (length targets = n) as Hlt by (by rewrite Ht, length_seq).
  pose proof (on_the_way_target _ _ _ _ _ _ Hw Hi) as Hj.
  assert (i < n) as Hin by (rewrite <- Hlt; by eapply lookup_lt_Some).
  destruct (lookup_lt_is_Some_2 targets j) as [k Hk]; [lia|].
  destruct (lookup_lt_is_Some_2 xs i) as [x Hxi]; [lia|]. destruct (lookup_lt_is_Some_2 xs j) as [y Hyj]; [lia|].
  exists (<[j := x]> (<[i := y]> xs)), (<[j := j]> (<[i := k]> targets)).
  assert (k ≠ j) as Hkj.
  { intros ->. apply Hne. symmetry. by eapply on_the_way_inj. }
  assert (∀ p, settled targets p → settled (<[j := j]> (<[i := k]> targets)) p) as Hkeep.
  { unfold settled. intros p Hp. assert (p ≠ i) by congruence. destruct (decide (p = j)) as [->|Hpj]; [congruence|].
    rewrite !list_lookup_insert_ne by done. done. }
  split_and!; [by apply swap_lookup|by apply swap_lookup| |done|].
  - split.
    + by rewrite !length_insert.
    + rewrite <- Ht. by apply Permutation_insert_swap.
    + rewrite <- Hz.
      rewrite <- (insert_zip_with pair (<[i := k]> targets) (<[i := y]> xs) j j x), <- (insert_zip_with pair targets xs i k y).
      apply Permutation_insert_swap.
      * rewrite lookup_zip_with, Hi, Hxi. done.
      * rewrite lookup_zip_with, Hk, Hyj. done.
  - unfold unsettled. apply (filter_seq_lt _ _ _ j); [naive_solver|apply elem_of_seq; lia| |].
    + unfold settled. congruence.
    + intros Hn. apply Hn. unfold settled. apply list_lookup_insert_eq. rewrite length_insert. lia.
Qed.

Lemma settle_spec n zs fuel i xs targets :
  on_the_way n zs xs targets → i < n → unsettled n targets < fuel →
  ∃ xs' targets', settle fuel i xs targets = Some (xs', targets') ∧ on_the_way n zs xs' targets' ∧
    (∀ p, settled targets p → settled targets' p) ∧ settled targets' i.
Proof.
  revert xs targets. induction fuel as [|fuel IH]; intros xs targets Hw Hi Hf; [lia|]. cbn [settle].
  destruct (lookup_lt_is_Some_2 targets i) as [j Hj].
  { pose proof Hw as [_ Ht _]. by rewrite Ht, length_seq. }
  rewrite Hj. cbn [mbind option_bind]. case_bool_decide as E.
  - subst j. eauto 8.
  - destruct (swap_step _ _ _ _ _ _ Hw Hj E) as (xs' & targets' & -> & -> & Hw' & Hkeep & Hlt).
    cbn [mbind option_bind]. destruct (IH xs' targets' Hw' Hi) as (xs2 & targets2 & -> & Hw2 & Hkeep2 & Hi2); [lia|].
    exists xs2, targets2. split_and!; auto.
Qed.

Lemma settle_all_spec n zs todo xs targets :
  on_the_way n zs xs targets → Forall (λ i, i < n) todo →
  ∃ xs' targets', settle_all todo xs targets = Some (xs', targets') ∧ on_the_way n zs xs' targets' ∧
    (∀ p, settled targets p ∨ p ∈ todo → settled targets' p).
Proof.
  revert xs targets. induction todo as [|i todo IH]; intros xs targets Hw Hall; cbn [settle_all].
  { exists xs, targets. split_and!; [done..|]. intros p [?|?%elem_of_nil]; done. }
  apply Forall_cons in Hall as [Hi Hall].
  destruct (settle_spec n zs (S (length targets)) i xs targets) as (xs1 & targets1 & -> & Hw1 & Hk1 & Hi1); [done..| |].
  { assert (length targets = n) as -> by (pose proof Hw as [_ Ht _]; by rewrite Ht, length_seq).
    apply Nat.lt_succ_r. unfold unsettled. etrans; [apply length_filter|]. by rewrite length_seq. }
  cbn [mbind option_bind]. destruct (IH xs1 targets1 Hw1 Hall) as (xs2 & targets2 & -> & Hw2 & Hk2).
  exists xs2, targets2. split_and!; [done..|]. intros p [Hp|[->|Hp]%elem_of_cons]; apply Hk2; auto.
Qed.

Lemma invert_spec (indices : list nat) : ∀ (k0 : nat) (targets : list nat),
  NoDup indices → Forall (λ p, p < length targets) indices →
  ∃ targets', invert k0 indices targets = Some targets' ∧ length targets' = length targets ∧
    (∀ k p, indices !! k = Some p → targets' !! p = Some (k0 + k)) ∧
    (∀ p, p ∉ indices → targets' !! p = targets !! p).
Proof.
  induction indices as [|q indices IH]; intros k0 targets Hnd Hall; cbn [invert].
  { exists targets. split_and!; [done..| |done]. intros k p. by rewrite lookup_nil. }
  apply NoDup_cons in Hnd as [Hq Hnd]. apply Forall_cons in Hall as [Hql Hall].
  destruct (lookup_lt_is_Some_2 targets q Hql) as [x ->]. cbn [mbind option_bind].
  destruct (IH (S k0) (<[q := k0]> targets)) as (targets' & -> & Hlen & Hat & Hout); [done|by rewrite length_insert|].
  rewrite length_insert in Hlen. exists targets'. split_and!; [done..| |].
  - intros [|k] p Hp; cbn in Hp.
    + injection Hp as <-. rewrite Hout, Nat.add_0_r by done. by apply list_lookup_insert_eq.
    + rewrite (Hat k p Hp). f_equal. lia.
  - intros p [Hp Hpi]%not_elem_of_cons. rewrite Hout by done. by apply list_lookup_insert_ne.
Qed.

(** The loops put at each position the element of the index that is there, for
    any permutation. *)
Lemma place_spec (xs : list A) (indices : list nat) :
  indices ≡ₚ seq 0 (length xs) →
  ∃ l, place xs indices = Some l ∧ length l = length xs ∧
    ∀ k p, indices !! k = Some p → l !! k = xs !! p.
Proof.
  intros Hp. set (n := length xs) in *.
  assert (length indices = n) as Hlen by (by rewrite Hp, length_seq).
  assert (NoDup indices) as Hnd by (rewrite Hp; apply NoDup_seq).
  assert (∀ p, p < n → ∃ k, indices !! k = Some p) as Hsurj.
  { intros p Hlt. apply list_elem_of_lookup. rewrite Hp, elem_of_seq. lia. }
  assert (∀ k p, indices !! k = Some p → p < n) as Hbound.
  { intros k p Hk%list_elem_of_lookup_2. rewrite Hp, elem_of_seq in Hk. lia. }
  unfold place. destruct (invert_spec indices 0 (replicate (length indices) 0)) as (targets & -> & Htl & Hat & _); [done| |].
  { rewrite length_replicate, Hlen. apply Forall_lookup. eauto. }
  rewrite length_replicate, Hlen in Htl. cbn [mbind option_bind].
  assert (∀ p j, targets !! p = Some j → indices !! j = Some p) as Hinv.
  { intros p j Hj. destruct (Hsurj p) as [k Hk]; [rewrite <- Htl; by eapply lookup_lt_Some|].
    rewrite (Hat k p Hk) in Hj. cbn in Hj. congruence. }
  assert (targets ≡ₚ seq 0 n) as Hperm.
  { apply submseteq_length_Permutation; [|by rewrite Htl, length_seq].
    apply NoDup_submseteq.
    - apply NoDup_alt. intros p q j Hpj Hqj. apply Hinv in Hpj, Hqj. congruence.
    - intros j [p Hj]%list_elem_of_lookup. apply elem_of_seq. apply Hinv, lookup_lt_Some in Hj. lia. }
  destruct (settle_all_spec n (zip targets xs) (seq 0 (length targets)) xs targets) as (l & targets' & -> & Hw & Hset).
  { done. }
  { apply Forall_forall. intros p. rewrite elem_of_seq. lia. }
  cbn [fmap option_fmap option_map fst]. destruct Hw as [Hl Ht' Hz].
  exists l. split_and!; [done..|]. intros k p Hk.
  assert (k < n) as Hkn by (rewrite <- Hlen; by eapply lookup_lt_Some).
  destruct (lookup_lt_is_Some_2 l k) as [x Hx]; [lia|]. rewrite Hx. symmetry.
  assert ((k, x) ∈ zip targets' l) as Hin.
  { apply list_elem_of_lookup. exists k. rewrite lookup_zip_with, Hx.
    assert (targets' !! k = Some k) as -> by (apply Hset; right; apply elem_of_seq; lia). done. }
  rewrite Hz in Hin. apply list_elem_of_lookup in Hin as [q (a & b & [= -> ->] & Hq & Hxq)%lookup_zip_with_Some].
  apply Hinv in Hq. congruence.
Qed.
End placing.

(** ** The listings are sorted *)

Section sorted.
Context `{!UnicodeCase, !Library}.

Definition by_tracker (displayNameMap : gmap string string) (desc : bool) : Torrent → Torrent → comparison :=
  pull_cmp (tracker_sort_key displayNameMap) (compare_tracker_keys desc).

(**  Sorting by tracker, which sorts indices by precomputed keys and exchanges
    the torrents in place along the inverse permutation, never indexes out of
    range, terminates, and leaves exactly the same torrents, in the order of
    their display names, domains, URLs and hashes, those without a domain last in
    both directions. *)
Theorem tracker_sort_in_place (displayNameMap : gmap string string) (torrents : list Torrent) (desc : bool) :
  ∃ l, sortTorrentsByTracker displayNameMap torrents desc = Some l ∧ l ≡ₚ torrents ∧
    StronglySorted (cmp_le (by_tracker displayNameMap desc)) l.
Proof.
  unfold sortTorrentsByTracker. case_bool_decide as Hlen.
  { exists torrents. split_and!; [done..|]. destruct torrents as [|t [|]]; simpl in Hlen; [constructor|by repeat constructor|lia]. }
  cbv zeta. set (n := length torrents). set (less := λ i j, _).
  set (at_ i := default zero_torrent (torrents !! i)). set (c := pull_cmp at_ (by_tracker displayNameMap desc)).
  assert (TotalCmp c) by (unfold c, by_tracker; apply _).
  assert (sort_slice less (seq 0 n) = sort_slice (cmp_less c) (seq 0 n)) as ->.
  { apply sort_slice_ext. intros i j Hi Hj. rewrite elem_of_seq in Hi, Hj. unfold less. rewrite !list_lookup_fmap.
    unfold cmp_less, c, by_tracker, pull_cmp, at_.
    destruct (lookup_lt_is_Some_2 torrents i) as [a Ha]; [lia|].
    destruct (lookup_lt_is_Some_2 torrents j) as [b Hb]; [lia|]. by rewrite Ha, Hb. }
  assert (sort_slice (cmp_less c) (seq 0 n) ≡ₚ seq 0 n) as Hp by apply sort_slice_perm.
  pose proof (sort_slice_sorted c (seq 0 n)) as Hs. revert Hp Hs.
  generalize (sort_slice (cmp_less c) (seq 0 n)). intros indices Hp Hs.
  destruct (place_spec torrents indices Hp) as (l & -> & Hl & Hat). exists l. split; [done|].
  assert (l = at_ <$> indices) as ->.
  { apply list_eq. intros k. rewrite list_lookup_fmap.
    destruct (indices !! k) as [p|] eqn:Ek; simpl.
    - rewrite (Hat _ _ Ek). unfold at_. destruct (lookup_lt_is_Some_2 torrents p) as [x ->]; [|done].
      apply list_elem_of_lookup_2 in Ek. rewrite Hp, elem_of_seq in Ek. unfold n in Ek. lia.
    - apply lookup_ge_None in Ek. apply lookup_ge_None. rewrite Hl. rewrite Hp, length_seq in Ek. done. }
  split.
  - rewrite Hp. unfold at_, n. by rewrite seq_lookup_id.
  - by apply StronglySorted_map.
Qed.

(** What tells the torrents of different instances apart. *)
Definition view_identity (v : CrossInstanceTorrentView) : string * string :=
  (ToLower (t_Hash (cv_Torrent v)), ToLower (cv_InstanceName v)).

Lemma compare_cross_eq dn sort desc a b :
  compare_cross dn sort desc a b = Eq → view_identity a = view_identity b.
Proof.
  assert (∀ c, compareIdentity a b = c → c = Eq → view_identity a = view_identity b) as Hid.
  { intros c <-. rewrite compareIdentity_spec. unfold identity_cmp, lex_cmp, pull_cmp, view_identity.
    repeat (match goal with |- context [String.compare ?x ?y] => destruct (String.compare x y) eqn:? end; try done).
    intros _. f_equal; by apply String.compare_eq_iff. }
  unfold compare_cross. case_bool_decide as Es.
  { unfold compareCrossInstanceByTracker. cbv zeta. destruct (negb _); [by destruct (_ && _)|].
    assert (∀ c, applyDirection desc c = Eq → c = Eq) as Hd by (intros []; by destruct desc). intros E%Hd.
    unfold cmp_Or in E. unfold view_identity.
    repeat (match type of E with context [String.compare ?x ?y] => destruct (String.compare x y) eqn:? end; try done).
    f_equal; f_equal; by apply String.compare_eq_iff. }
  destruct (assoc sort cross_columns) as [[f|c| |]|]; [| | | |by apply Hid]; unfold compare_column; cbv zeta.
  - destruct (_ =? _)%Z eqn:E; cbn [negb]; [by apply Hid|]. intros Ec. exfalso. apply Z.eqb_neq in E. apply E.
    apply Z.compare_eq. by destruct desc, (_ ?= _)%Z.
  - destruct (c a b); [by apply Hid|by destruct desc..].
  - destruct (_ && _); [by apply Hid|]. destruct (_ =? _)%Z; [done|]. destruct (_ =? _)%Z; [done|].
    destruct (if desc then _ else _); [by apply Hid|done..].
  - destruct (negb (bool_decide _)); [by destruct (_ =? _)%Z|]. destruct (negb _); [|by apply Hid].
    destruct (_ ?= _)%Z; [by apply Hid|by destruct desc..].
Qed.

(**  The torrents of all instances are sorted by any column, in either
    direction, into the only order of them that the column's comparator allows:
    it is a total order whose ties are broken down to the torrent's hash and its
    instance, so that the pages of a listing do not depend on the sorting
    algorithm or on the order in which the instances were read. *)
Theorem cross_instance_order_unique (displayNameMap : gmap string string) (torrents : list CrossInstanceTorrentView)
    (sort : string) (desc : bool) :
  NoDup (view_identity <$> torrents) →
  ∀ l, l = sortCrossInstanceTorrents displayNameMap torrents sort desc ↔
    l ≡ₚ torrents ∧ StronglySorted (cmp_le (compare_cross displayNameMap sort desc)) l.
Proof.
  intros Hnd l. unfold sortCrossInstanceTorrents.
  pose proof (sort_slice_perm (cmp_less (compare_cross displayNameMap sort desc)) torrents) as Hp.
  pose proof (sort_slice_sorted (compare_cross displayNameMap sort desc) torrents) as Hs.
  split; [by intros ->|]. intros [Hl Hls].
  apply (sorted_unique (compare_cross displayNameMap sort desc)); [|by rewrite Hl, Hp|done|done].
  intros x y Hx Hy E%compare_cross_eq. rewrite Hl in Hx, Hy.
  apply list_elem_of_lookup in Hx as [i Hi], Hy as [j Hj].
  assert (i = j) as ->; [|congruence].
  eapply (NoDup_lookup (view_identity <$> torrents)); [done|..]; rewrite list_lookup_fmap; [by rewrite Hi|by rewrite Hj; simpl; rewrite E].
Qed.
End sorted.

(** ** Runs *)

#[local] Existing Instance AsciiCase.
#[local] Existing Instance SimpleLibrary.

Definition view_of (instanceID : Z) (instanceName : string) (t : Torrent) : CrossInstanceTorrentView :=
  MkCrossView (MkView t (determineTrackerHealth t)) instanceID instanceName.

Definition two_instances : list CrossInstanceTorrentView :=
  (view_of 2 "seedbox" <$> fleet) ++ (view_of 1 "home" <$> fleet).

Lemma cross_instance_order_unique_witness :
  [view_of 1 "home" (tracked "a" "one.org/announce" "Torrent not registered" TrackerStatusTrackerError 1);
   view_of 2 "seedbox" (tracked "a" "one.org/announce" "Torrent not registered" TrackerStatusTrackerError 1);
   view_of 1 "home" (tracked "b" "two.org/announce" "" TrackerStatusOK 1);
   view_of 1 "home" (tracked "c" "two.org/announce" "timed out" TrackerStatusNotWorking 1);
   view_of 2 "seedbox" (tracked "b" "two.org/announce" "" TrackerStatusOK 1);
   view_of 2 "seedbox" (tracked "c" "two.org/announce" "timed out" TrackerStatusNotWorking 1)] ≡ₚ two_instances ∧
  t_Hash ∘ cv_Torrent <$> sortCrossInstanceTorrents ∅ two_instances "tracker" false = ["a"; "a"; "b"; "c"; "b"; "c"]%string.
Proof.
  split; [|by vm_compute].
  apply (cross_instance_order_unique ∅ two_instances "tracker" false); [|by vm_compute].
  by apply (bool_decide_eq_true_1 _).
Defined.

(** Torrents that are not queued, and those with no estimate, are last in both
    directions. *)
Example sorted_by_tracker :
  option_map (map t_Hash) (sortTorrentsByTracker {["one.org" := "zeta"]}%string fleet false) = Some ["b"; "c"; "a"]%string ∧
  option_map (map t_Hash) (sortTorrentsByTracker ∅ fleet true) = Some ["c"; "b"; "a"]%string.
Proof. by vm_compute. Qed.
