(* ===== verification/ListingCounts.v ===== *)
(** * [internal/qbittorrent/sync_manager.go]: the counts beside a listing

    How many torrents there are in each status, category, tag and tracker domain,
    the sizes of their data, and the totals of a listing, for one instance and
    merged over several. *)

From Stdlib Require Import ZArith Lia Ascii SpecFloat.
From stdpp Require Import base numbers list strings gmap sorting.
From S2P Require Import Prelude.
From S2P Require Import Order.
From S2P Require Import GoStrings.
From S2P Require Import GoPath.
From S2P Require Import GoFloat.
From S2P Require Import Domain.
From S2P Require Import TransmissionRpc.
From S2P Require Import TorrentFilter.
From S2P Require Import TransmissionClient.
From S2P Require Import Conditions.
From S2P Require Import Grouping.
From S2P Require Import TrackerHealth.
From S2P Require Import TrackerMapping.
From S2P Require Import ListingFilter.

Open Scope qui_scope.


Abbreviation IntMap := (gmap string Z).

(** [m[k] += n] *)
Definition bump (k : string) (n : Z) (m : IntMap) : IntMap := <[k := i64 (default 0%Z (m !! k) + n)]> m.

(** Sizes counted once per content path: the paths seen for each key. *)
Record SizeMap := MkSizes { sz_seen : Index; sz_sizes : IntMap }.

Definition no_sizes : SizeMap := MkSizes ∅ ∅.

Definition add_size (k : string) (t : Torrent) (m : SizeMap) : SizeMap :=
  if bool_decide (t_ContentPath t ∈ default ∅ (sz_seen m !! k)) then m
  else MkSizes (index_add k (t_ContentPath t) (sz_seen m)) (bump k (t_Size t) (sz_sizes m)).

Record TrackerTransferStats := MkTransfers {
  tf_Uploaded : Z; tf_Downloaded : Z; tf_TotalSize : Z; tf_Count : Z }.

Record TorrentCounts := MkCounts {
  ct_Status : IntMap; ct_Categories : IntMap; ct_CategorySizes : IntMap; ct_Tags : IntMap; ct_TagSizes : IntMap;
  ct_Trackers : IntMap; ct_TrackerTransfers : gmap string TrackerTransferStats; ct_Total : Z }.

Record TorrentStats := MkStats {
  ts_Total : Z; ts_Downloading : Z; ts_Seeding : Z; ts_Paused : Z; ts_Error : Z; ts_Checking : Z;
  ts_TotalDownloadSpeed : Z; ts_TotalUploadSpeed : Z; ts_TotalSize : Z; ts_TotalRemainingSize : Z; ts_TotalSeedingSize : Z }.

Definition status_names : list string :=
  ["all"; "downloading"; "seeding"; "completed"; "paused"; "active"; "inactive"; "resumed"; "running"; "stopped";
   "stalled"; "stalled_uploading"; "stalled_downloading"; "errored"; "checking"; "moving"; "unregistered";
   "tracker_down"; "tracker_error"]%string.

Definition zero_status : IntMap := list_to_map ((λ s, (s, 0%Z)) <$> status_names).

Section counts.
Context `{!UnicodeCase, !Library}.

(** ** Statuses *)

Definition health_name (h : TrackerHealth) : string :=
  match h with
  | TrackerHealthUnregistered => "unregistered"
  | TrackerHealthDown => "tracker_down"
  | TrackerHealthError => "tracker_error"
  end.

(** The statuses under which a torrent is counted, each once. *)
Definition counted_statuses (t : Torrent) : list string :=
  ["all"%string]
  ++ (match determineTrackerHealth t with Some h => [health_name h] | None => [] end)
  ++ (if is_complete t then ["completed"%string] else [])
  ++ (if in_states TorrentFilterActive t then ["active"%string] else ["inactive"%string])
  ++ (if is_paused_or_stopped t then ["stopped"; "paused"]%string else ["running"; "resumed"]%string)
  ++ (filter (λ entry, t_State t ∈ entry.2 ∧ entry.1 ∉ [TorrentFilterActive; TorrentFilterPaused; TorrentFilterStopped])
        torrentStateCategories).*1.

Definition countTorrentStatuses (counts : IntMap) (t : Torrent) : IntMap :=
  foldl (λ counts s, bump s 1 counts) counts (counted_statuses t).

(** ** Categories and tags *)

Definition count_category (c : IntMap * SizeMap) (t : Torrent) : IntMap * SizeMap :=
  (bump (t_Category t) 1 c.1, add_size (t_Category t) t c.2).

Definition count_tags (c : IntMap * SizeMap) (t : Torrent) : IntMap * SizeMap :=
  if bool_decide (t_Tags t = "") then (bump "" 1 c.1, add_size "" t c.2)
  else foldl (λ c tag, if bool_decide (tag = "") then c else (bump tag 1 c.1, add_size tag t c.2)) c (tag_parts (t_Tags t)).

(** The proper prefixes of a path of segments, none of them empty. *)
Definition parent_paths (cat : string) : list string :=
  let segments := Split cat "/"%char in
  (λ i, Join (take i segments) "/") <$> seq 1 (length segments - 1).

Definition aggregate_entry (sizes : IntMap) (agg : IntMap * IntMap) (entry : string * Z) : IntMap * IntMap :=
  let '(cat, count) := entry in
  if negb (bool_decide (cat = "")) && Contains cat "/" then
    foldl (λ agg parentPath, (bump parentPath count agg.1, bump parentPath (default 0%Z (sizes !! cat)) agg.2))
      agg (parent_paths cat)
  else agg.

(** The counts and sizes of subcategories added to those of their parents. *)
Definition aggregate_subcategories (counts sizes : IntMap) : IntMap * IntMap :=
  foldl (aggregate_entry sizes) (counts, sizes) (map_to_list counts).

(** ** Trackers *)

(** The hashes of each domain that count, by the mapping or the main data. *)
Definition mapped_counts (src : TrackerSources) (torrentMap : gmap string Torrent) (m : ValidatedTrackerMapping) : Index :=
  map_imap (λ domain hashes, Some (filter (λ h, is_Some (torrentMap !! h) ∧ hidden src domain h = false) hashes))
    (DomainToHashes m).

Definition main_counts (src : TrackerSources) (torrentMap : gmap string Torrent) (trackers : gmap string (list string)) : Index :=
  foldl (λ acc entry,
      let domain := domain_or_unknown entry.1 in
      foldl (λ acc h,
          match torrentMap !! h with
          | Some t => if negb (torrentBelongsToTrackerDomain t domain) || hidden src domain h then acc
                      else index_add domain h acc
          | None => acc
          end)
        (<[domain := default ∅ (acc !! domain)]> acc) entry.2)
    ∅ (map_to_list trackers).

(** [trackerDomainCounts] *)
Definition tracker_domain_counts (src : TrackerSources) (torrentMap : gmap string Torrent) : Index :=
  match src_mapping src, src_main src with
  | Some m, _ => mapped_counts src torrentMap m
  | None, Some trackers => main_counts src torrentMap trackers
  | None, None => ∅
  end.

(** The totals of a domain, in the order in which its hashes are visited. *)
Definition add_transfers (acc : TrackerTransferStats * gset string) (t : Torrent) : TrackerTransferStats * gset string :=
  let '(s, sizeSeen) := acc in
  let uploaded := i64 (tf_Uploaded s + t_Uploaded t) in
  let downloaded := i64 (tf_Downloaded s + t_Downloaded t) in
  if bool_decide (t_ContentPath t ∈ sizeSeen)
  then (MkTransfers uploaded downloaded (tf_TotalSize s) (tf_Count s), sizeSeen)
  else (MkTransfers uploaded downloaded (i64 (tf_TotalSize s + t_Size t)) (tf_Count s), {[t_ContentPath t]} ∪ sizeSeen).

Definition domain_transfers (torrentMap : gmap string Torrent) (hashes : gset string) : TrackerTransferStats :=
  (foldl add_transfers (MkTransfers 0 0 0 (Z.of_nat (size hashes)), ∅)
     (omap (torrentMap !!.) (elements hashes))).1.

Definition shown_domains (counts : Index) : Index := filter (λ entry, entry.2 ≠ ∅) counts.

(** The overrides of domains that are gone are cleared. *)
Definition domains_to_clear (src : TrackerSources) (counts : Index) : gset string :=
  match src_mapping src, src_main src with
  | None, None => ∅
  | _, _ => dom (src_exclusions src) ∖ dom counts
  end.

(** ** All of them *)

Definition set_trackers (t : Torrent) (trackers : list TorrentTracker) : Torrent :=
  MkTorrent (t_AddedOn t) (t_AmountLeft t) (t_AutoManaged t) (t_Availability t) (t_Category t) (t_Comment t)
    (t_Completed t) (t_CompletionOn t) (t_CreatedBy t) (t_ContentPath t) (t_DlLimit t) (t_DlSpeed t)
    (t_DownloadPath t) (t_Downloaded t) (t_DownloadedSession t) (t_ETA t) (t_FirstLastPiecePrio t) (t_ForceStart t)
    (t_Hash t) (t_InfohashV1 t) (t_InfohashV2 t) (t_Popularity t) (t_Private t) (t_LastActivity t) (t_MagnetURI t)
    (t_MaxRatio t) (t_MaxSeedingTime t) (t_MaxInactiveSeedingTime t) (t_Name t) (t_NumComplete t)
    (t_NumIncomplete t) (t_NumLeechs t) (t_NumSeeds t) (t_Priority t) (t_Progress t) (t_Ratio t) (t_RatioLimit t)
    (t_Reannounce t) (t_SavePath t) (t_SeedingTime t) (t_SeedingTimeLimit t) (t_InactiveSeedingTimeLimit t)
    (t_ShareLimitAction t) (t_ShareLimitsMode t) (t_SeenComplete t) (t_SequentialDownload t) (t_Size t) (t_State t)
    (t_SuperSeeding t) (t_Tags t) (t_TimeActive t) (t_TotalSize t) (t_Tracker t) (t_TrackersCount t) (t_UpLimit t)
    (t_Uploaded t) (t_UploadedSession t) (t_UpSpeed t) trackers.

(** [allTorrents[i].Trackers = trackers]: the trackers of an earlier operation,
    for the torrents that have none. *)
Definition apply_trackers (trackerMap : gmap string (list TorrentTracker)) (t : Torrent) : Torrent :=
  match trackerMap !! t_Hash t with
  | Some trackers => if bool_decide (length (t_Trackers t) = 0) then set_trackers t trackers else t
  | None => t
  end.

Definition enrich_torrents (trackerMap : gmap string (list TorrentTracker)) (allTorrents : list Torrent) : list Torrent :=
  if bool_decide (0 < size trackerMap) then apply_trackers trackerMap <$> allTorrents else allTorrents.

Definition calculateCounts (src : TrackerSources) (allTorrents : list Torrent)
    (trackerMap : gmap string (list TorrentTracker)) (cached : option TrackerHealthCounts)
    (useSubcategories : bool) : TorrentCounts :=
  let allTorrents := enrich_torrents trackerMap allTorrents in
  let domains := shown_domains (tracker_domain_counts src (torrent_map allTorrents)) in
  let status := foldl countTorrentStatuses zero_status allTorrents in
  let categories := foldl count_category (∅, no_sizes) allTorrents in
  let tags := foldl count_tags (∅, no_sizes) allTorrents in
  let counts := (categories.1, sz_sizes categories.2) in
  let counts := if useSubcategories then aggregate_subcategories counts.1 counts.2 else counts in
  let status := match cached with
                | Some c => <["tracker_error"%string := bc_count (hc_TrackerError c)]>
                            (<["tracker_down"%string := bc_count (hc_TrackerDown c)]>
                            (<["unregistered"%string := bc_count (hc_Unregistered c)]> status))
                | None => status
                end in
  MkCounts status counts.1 counts.2 tags.1 (sz_sizes tags.2)
    ((λ hashes, Z.of_nat (size hashes)) <$> domains) (domain_transfers (torrent_map allTorrents) <$> domains)
    (Z.of_nat (length allTorrents)).
End counts.

(** ** Totals *)

Record StatsSeen := MkSeen { seen_total : gset string; seen_seeding : gset string }.

Definition zero_stats (n : Z) : TorrentStats := MkStats n 0 0 0 0 0 0 0 0 0 0.

(** What the state of a torrent adds: downloading, seeding, paused, failed,
    checking, and what is left to download. *)
Definition add_state (s : TorrentStats) (state : TorrentState) (amountLeft : Z) : TorrentStats :=
  let '(MkStats total downloading seeding paused error checking dl ul size remaining seedingSize) := s in
  if bool_decide (state ∈ [TorrentStateDownloading; TorrentStateForcedDl])
  then MkStats total (i64 (downloading + 1)) seeding paused error checking dl ul size (i64 (remaining + amountLeft)) seedingSize
  else if bool_decide (state ∈ [TorrentStateUploading; TorrentStateForcedUp])
  then MkStats total downloading (i64 (seeding + 1)) paused error checking dl ul size remaining seedingSize
  else if bool_decide (state ∈ [TorrentStatePausedDl; TorrentStatePausedUp; TorrentStateStoppedDl; TorrentStateStoppedUp])
  then MkStats total downloading seeding (i64 (paused + 1)) error checking dl ul size remaining seedingSize
  else if bool_decide (state ∈ [TorrentStateError; TorrentStateMissingFiles])
  then MkStats total downloading seeding paused (i64 (error + 1)) checking dl ul size remaining seedingSize
  else if bool_decide (state ∈ [TorrentStateCheckingDl; TorrentStateCheckingUp; TorrentStateCheckingResumeData])
  then MkStats total downloading seeding paused error (i64 (checking + 1)) dl ul size remaining seedingSize
  else s.

Definition add_speeds (s : TorrentStats) (t : Torrent) : TorrentStats :=
  let '(MkStats total downloading seeding paused error checking dl ul size remaining seedingSize) := s in
  MkStats total downloading seeding paused error checking (i64 (dl + t_DlSpeed t)) (i64 (ul + t_UpSpeed t)) size
    remaining seedingSize.

Definition add_sizes (s : TorrentStats) (size seedingSize : Z) : TorrentStats :=
  let '(MkStats total downloading seeding paused error checking dl ul size0 remaining seedingSize0) := s in
  MkStats total downloading seeding paused error checking dl ul (i64 (size0 + size)) remaining (i64 (seedingSize0 + seedingSize)).

Definition stats_step (acc : TorrentStats * StatsSeen) (t : Torrent) : TorrentStats * StatsSeen :=
  let '(s, seen) := acc in
  let path := t_ContentPath t in
  let seeding := bool_decide (t_State t ∈ [TorrentStateUploading; TorrentStateForcedUp]) in
  let size := if bool_decide (path ∈ seen_total seen) then 0%Z else t_Size t in
  let seedingSize := if seeding && negb (bool_decide (path ∈ seen_seeding seen)) then t_Size t else 0%Z in
  (add_state (add_sizes (add_speeds s t) size seedingSize) (t_State t) (t_AmountLeft t),
   MkSeen ({[path]} ∪ seen_total seen) (if seeding then {[path]} ∪ seen_seeding seen else seen_seeding seen)).

Definition calculateStats (torrents : list Torrent) : TorrentStats :=
  (foldl stats_step (zero_stats (Z.of_nat (length torrents)), MkSeen ∅ ∅) torrents).1.

(** ** Merging instances *)

Definition mergeTorrentStats (base next : option TorrentStats) : option TorrentStats :=
  match next, base with
  | None, _ => base
  | Some n, None => Some n
  | Some n, Some b => Some (MkStats (i64 (ts_Total b + ts_Total n)) (i64 (ts_Downloading b + ts_Downloading n))
      (i64 (ts_Seeding b + ts_Seeding n)) (i64 (ts_Paused b + ts_Paused n)) (i64 (ts_Error b + ts_Error n))
      (i64 (ts_Checking b + ts_Checking n)) (i64 (ts_TotalDownloadSpeed b + ts_TotalDownloadSpeed n))
      (i64 (ts_TotalUploadSpeed b + ts_TotalUploadSpeed n)) (i64 (ts_TotalSize b + ts_TotalSize n))
      (i64 (ts_TotalRemainingSize b + ts_TotalRemainingSize n)) (i64 (ts_TotalSeedingSize b + ts_TotalSeedingSize n)))
  end.

(** [for key, value := range next { base[key] += value }] *)
Definition merge_ints (base next : IntMap) : IntMap :=
  foldl (λ m entry, bump entry.1 entry.2 m) base (map_to_list next).

Definition zero_transfers : TrackerTransferStats := MkTransfers 0 0 0 0.

Definition add_transfer (a b : TrackerTransferStats) : TrackerTransferStats :=
  MkTransfers (i64 (tf_Uploaded a + tf_Uploaded b)) (i64 (tf_Downloaded a + tf_Downloaded b))
    (i64 (tf_TotalSize a + tf_TotalSize b)) (i64 (tf_Count a + tf_Count b)).

Definition merge_transfers (base next : gmap string TrackerTransferStats) : gmap string TrackerTransferStats :=
  foldl (λ m entry, <[entry.1 := add_transfer (default zero_transfers (m !! entry.1)) entry.2]> m) base (map_to_list next).

Definition no_torrent_counts : TorrentCounts := MkCounts ∅ ∅ ∅ ∅ ∅ ∅ ∅ 0.

Definition mergeTorrentCounts (base next : option TorrentCounts) : option TorrentCounts :=
  match next with
  | None => base
  | Some n =>
    let b := default no_torrent_counts base in
    Some (MkCounts (merge_ints (ct_Status b) (ct_Status n)) (merge_ints (ct_Categories b) (ct_Categories n))
      (merge_ints (ct_CategorySizes b) (ct_CategorySizes n)) (merge_ints (ct_Tags b) (ct_Tags n))
      (merge_ints (ct_TagSizes b) (ct_TagSizes n)) (merge_ints (ct_Trackers b) (ct_Trackers n))
      (merge_transfers (ct_TrackerTransfers b) (ct_TrackerTransfers n)) (i64 (ct_Total b + ct_Total n)))
  end.

(** A category that is missing, or has no path there and one here. *)
Definition merge_category (base : Categories) (entry : string * (string * string)) : Categories :=
  match base !! entry.1 with
  | None => <[entry.1 := entry.2]> base
  | Some existing =>
    if bool_decide (existing.2 = "") && negb (bool_decide (entry.2.2 = "")) then <[entry.1 := entry.2]> base else base
  end.

Definition mergeTorrentCategories (base next : Categories) : Categories := foldl merge_category base (map_to_list next).

Definition mergeTorrentTags (base : gset string) (next : list string) : gset string :=
  foldl (λ s tag, {[tag]} ∪ s) base next.

(** ** Counting by adding up *)

Definition value (m : IntMap) (k : string) : Z := default 0%Z (m !! k).

Definition times (k : string) (l : list string) : nat := length (filter (λ s, s = k) l).


Lemma times_app k l1 l2 : times k (l1 ++ l2) = times k l1 + times k l2.
Proof. unfold times. by rewrite filter_app, length_app. Qed.








Lemma times_bind_sum {A} (g : A → list string) k l :
  times k (l ≫= g) = sum_list ((λ a, times k (g a)) <$> l).
Proof. induction l as [|a l IH]; [done|]. cbn [mbind list_bind fmap list_fmap sum_list]. by rewrite times_app, IH. Qed.


Section statuses.
Context `{!UnicodeCase, !Library}.


End statuses.

(** ** Subcategories *)




















Section categories.
Context `{!UnicodeCase, !Library}.



End categories.

(** ** Tracker domains *)

Section domains.
Context `{!UnicodeCase, !Library}.




End domains.

(** ** The counts and the listing *)


Section agreement.
Context `{!UnicodeCase, !Library, !ListingLibrary}.
Context (src : TrackerSources) (torrents : list Torrent) (mainCategories : option Categories) (categories : Categories)
  (use : bool).










End agreement.






(** ** Runs *)

#[local] Existing Instance AsciiCase.
#[local] Existing Instance SimpleLibrary.
#[local] Existing Instance PlainListing.

Definition placed_in (hash category contentPath : string) (size : Z) : Torrent :=
  MkTorrent 1 0 false f64_zero category "" 0 0 "" contentPath 0 0 "" 0 0 0 false false hash "" "" f64_zero false
    0 "" f64_zero 0 0 "" 0 0 0 0 0 f64_zero f64_zero f64_zero 0 "" 0 0 0 "" "" 0 false size ""
    false "" 0 0 "" 0 0 0 0 0 [].





(** The same data in two subcategories is counted twice in the size of their
    parent, though sizes are meant to count it once. *)
Example parent_size_counts_twice :
  let counts := calculateCounts (MkSources None None ∅)
    [placed_in "a" "tv/hd" "/data/show" 10; placed_in "b" "tv/uhd" "/data/show" 10; placed_in "c" "tv/hd" "/data/show" 10]
    ∅ None true in
  value (ct_Categories counts) "tv" = 3%Z ∧ value (ct_CategorySizes counts) "tv/hd" = 10%Z ∧
  value (ct_CategorySizes counts) "tv" = 20%Z.
Proof. by vm_compute. Qed.
