(* ===== verification/ClientState.v ===== *)
(** * [internal/qbittorrent/client.go]: what a client remembers

    Which torrents it has seen complete, which it has seen at all, the states it
    shows ahead of the server, and the hashes it hides from a tracker domain. *)

From Stdlib Require Import ZArith Lia Ascii SpecFloat.
From stdpp Require Import base numbers list strings gmap.
From S2P Require Import Prelude.
From S2P Require Import GoStrings.
From S2P Require Import GoFloat.
From S2P Require Import Domain.
From S2P Require Import TransmissionRpc.
From S2P Require Import TorrentFilter.
From S2P Require Import TransmissionClient.
From S2P Require Import Conditions.
From S2P Require Import Grouping.
From S2P Require Import TrackerHealth.
From S2P Require Import TrackerMapping.
From S2P Require Import ListingFilter.

Open Scope qui_scope.

(** What an update of the sync manager tells: the torrents, and those that were
    removed since the last one. *)
Record SyncUpdate := MkUpdate { su_Torrents : gmap string Torrent; su_TorrentsRemoved : list string }.

(** ** Completed torrents *)

Record CompletionState := MkCompletion { completionState : gmap string bool; completionInit : bool }.

Definition isTorrentComplete (t : Torrent) : bool := (0 <? t_CompletionOn t)%Z.

Section detection.
Context `{!UnicodeCase}.

Definition normalizeHashForCompletion (hash : string) : string := ToUpper (TrimSpace hash).

Definition forget_completed (s : gmap string bool) (removed : list string) : gmap string bool :=
  foldl (λ s h, delete (normalizeHashForCompletion h) s) s removed.

(** One torrent of a later update: the state and the torrents that are ready. *)
Definition completion_step (acc : gmap string bool * list Torrent) (entry : string * Torrent) : gmap string bool * list Torrent :=
  let '(s, ready) := acc in
  let normalized := normalizeHashForCompletion entry.1 in
  let alreadyHandled := default false (s !! normalized) in
  let isComplete := isTorrentComplete entry.2 in
  if negb alreadyHandled && isComplete then (<[normalized := true]> s, ready ++ [entry.2])
  else if negb isComplete && negb alreadyHandled then (<[normalized := false]> s, ready)
  else (s, ready).

(** The new state, and the torrents whose completion is handled. *)
Definition handleCompletionUpdates (r : MapRange) (c : CompletionState) (data : SyncUpdate) : CompletionState * list Torrent :=
  let s := forget_completed (completionState c) (su_TorrentsRemoved data) in
  if negb (completionInit c) then
    if bool_decide (su_Torrents data = ∅) then (MkCompletion s false, [])
    else (MkCompletion
            (foldl (λ s entry, <[normalizeHashForCompletion entry.1 := isTorrentComplete entry.2]> s) s
               (range r 4 (su_Torrents data))) true, [])
  else
    let '(s, ready) := foldl completion_step (s, []) (range r 4 (su_Torrents data)) in
    (MkCompletion s true, ready).

(** ** Added torrents *)

Record AddedState := MkAdded { addedState : gset string; addedInit : bool }.

Definition torrentAddedGraceWindow : Z := 60 * Second.

Definition forget_added (s : gset string) (removed : list string) : gset string :=
  foldl (λ s h, s ∖ {[normalizeHashForCompletion h]}) s removed.

Definition added_step (acc : gset string * list Torrent) (entry : string * Torrent) : gset string * list Torrent :=
  let '(s, ready) := acc in
  let normalized := normalizeHashForCompletion entry.1 in
  if bool_decide (normalized ∈ s) then (s, ready) else ({[normalized]} ∪ s, ready ++ [entry.2]).

(** Torrents that were added longer ago only turn up late. *)
Definition recently_seen (now : Z) (t : Torrent) : bool :=
  negb ((0 <? t_AddedOn t) && (torrentAddedGraceWindow <? now - t_AddedOn t * Second))%Z.

Definition handleAddedUpdates (r : MapRange) (now : Z) (c : AddedState) (data : SyncUpdate) : AddedState * list Torrent :=
  let s := forget_added (addedState c) (su_TorrentsRemoved data) in
  if negb (addedInit c) then
    if bool_decide (su_Torrents data = ∅) then (MkAdded s false, [])
    else (MkAdded (foldl (λ s entry, {[normalizeHashForCompletion entry.1]} ∪ s) s (range r 5 (su_Torrents data))) true, [])
  else
    let '(s, ready) := foldl added_step (s, []) (range r 5 (su_Torrents data)) in
    (MkAdded s true, filter (λ t, recently_seen now t = true) ready).
End detection.

(** ** States shown ahead of the server *)

Record OptimisticTorrentUpdate := MkOptimistic {
  ou_State : TorrentState; ou_OriginalState : TorrentState; ou_UpdatedAt : Z; ou_Action : string }.

Definition getTargetState (action : string) (progress : float64) : TorrentState :=
  let done := f64_eqb progress f64_one in
  if bool_decide (action = "resume"%string) then (if done then TorrentStateQueuedUp else TorrentStateQueuedDl)
  else if bool_decide (action = "force_resume"%string) then (if done then TorrentStateForcedUp else TorrentStateForcedDl)
  else if bool_decide (action = "pause"%string) then (if done then TorrentStatePausedUp else TorrentStatePausedDl)
  else if bool_decide (action = "recheck"%string) then (if done then TorrentStateCheckingUp else TorrentStateCheckingDl)
  else ""%string.

(** The updates under their hashes; the cache that holds them may drop any of
    them when its time is up. *)
Abbreviation OptimisticUpdates := (gmap string OptimisticTorrentUpdate).

Definition optimistic_step (torrents : gmap string Torrent) (action : string) (now : Z)
    (updates : OptimisticUpdates) (hash : string) : OptimisticUpdates :=
  let originalState := from_option t_State ""%string (torrents !! hash) in
  let progress := from_option t_Progress f64_zero (torrents !! hash) in
  let state := getTargetState action progress in
  if negb (bool_decide (state = ""%string)) && negb (bool_decide (state = originalState))
  then <[hash := MkOptimistic state originalState now action]> updates
  else updates.

Definition applyOptimisticCacheUpdate (torrents : gmap string Torrent) (hashes : list string) (action : string) (now : Z)
    (updates : OptimisticUpdates) : OptimisticUpdates :=
  foldl (optimistic_step torrents action now) updates hashes.

Definition actionSuccessCategories : list (string * TorrentFilter) :=
  [("resume", "active"); ("force_resume", "active"); ("pause", "paused"); ("recheck", "checking")]%string.

Definition shouldClearOptimisticUpdate (currentState originalState optimisticState : TorrentState) (action : string) : bool :=
  if negb (bool_decide (originalState = ""%string)) then
    negb (bool_decide (currentState = originalState)) || bool_decide (currentState = optimisticState)
  else
    match TransmissionRpc.assoc action actionSuccessCategories with
    | Some successCategory => bool_decide (currentState ∈ states_of successCategory)
    | None => false
    end || bool_decide (currentState = optimisticState).

Definition set_state (t : Torrent) (state : TorrentState) : Torrent :=
  MkTorrent (t_AddedOn t) (t_AmountLeft t) (t_AutoManaged t) (t_Availability t) (t_Category t) (t_Comment t)
    (t_Completed t) (t_CompletionOn t) (t_CreatedBy t) (t_ContentPath t) (t_DlLimit t) (t_DlSpeed t)
    (t_DownloadPath t) (t_Downloaded t) (t_DownloadedSession t) (t_ETA t) (t_FirstLastPiecePrio t) (t_ForceStart t)
    (t_Hash t) (t_InfohashV1 t) (t_InfohashV2 t) (t_Popularity t) (t_Private t) (t_LastActivity t) (t_MagnetURI t)
    (t_MaxRatio t) (t_MaxSeedingTime t) (t_MaxInactiveSeedingTime t) (t_Name t) (t_NumComplete t)
    (t_NumIncomplete t) (t_NumLeechs t) (t_NumSeeds t) (t_Priority t) (t_Progress t) (t_Ratio t) (t_RatioLimit t)
    (t_Reannounce t) (t_SavePath t) (t_SeedingTime t) (t_SeedingTimeLimit t) (t_InactiveSeedingTimeLimit t)
    (t_ShareLimitAction t) (t_ShareLimitsMode t) (t_SeenComplete t) (t_SequentialDownload t) (t_Size t) state
    (t_SuperSeeding t) (t_Tags t) (t_TimeActive t) (t_TotalSize t) (t_Tracker t) (t_TrackersCount t) (t_UpLimit t)
    (t_Uploaded t) (t_UploadedSession t) (t_UpSpeed t) (t_Trackers t).

(** Whether an update stays for a torrent the server knows. *)
Definition keeps_optimistic (now : Z) (t : Torrent) (u : OptimisticTorrentUpdate) : bool :=
  negb (shouldClearOptimisticUpdate (t_State t) (ou_OriginalState u) (ou_State u) (ou_Action u)) &&
  negb (60 * Second <? now - ou_UpdatedAt u)%Z.

(** [torrentMap[hash].State = state]: the torrent the map points to, the last one
    with the hash. *)
Fixpoint set_last (hash : string) (state : TorrentState) (torrents : list Torrent) : list Torrent :=
  match torrents with
  | [] => []
  | t :: rest =>
    if bool_decide (t_Hash t = hash) && negb (bool_decide (hash ∈ t_Hash <$> rest))
    then set_state t state :: rest else t :: set_last hash state rest
  end.

Definition overlay_step (now : Z) (acc : list Torrent * OptimisticUpdates) (entry : string * OptimisticTorrentUpdate)
    : list Torrent * OptimisticUpdates :=
  let '(torrents, updates) := acc in
  let '(hash, u) := entry in
  match torrent_map torrents !! hash with
  | Some t => if keeps_optimistic now t u then (set_last hash (ou_State u) torrents, updates)
              else (torrents, delete hash updates)
  | None => (torrents, delete hash updates)
  end.

(** The torrents that statistics and counts are made from, and what is left of
    the updates. *)
Definition getAllTorrentsForStats (r : MapRange) (now : Z) (torrents : list Torrent) (updates : OptimisticUpdates)
    : list Torrent * OptimisticUpdates :=
  foldl (overlay_step now) (torrents, updates) (range r 6 updates).

(** ** Hidden hashes *)

Definition addTrackerExclusions (domain : string) (hashes : list string) (m : Index) : Index :=
  if bool_decide (domain = ""%string) || bool_decide (hashes = []) then m
  else <[domain := list_to_set (filter (λ h, h ≠ ""%string) hashes) ∪ default ∅ (m !! domain)]> m.

Definition removeTrackerExclusions (domain : string) (hashes : list string) (m : Index) : Index :=
  if bool_decide (domain = ""%string) then m
  else if bool_decide (hashes = []) then delete domain m
  else match m !! domain with
       | None => m
       | Some s => let s := s ∖ list_to_set hashes in
                   if bool_decide (s = ∅) then delete domain m else <[domain := s]> m
       end.

Definition clearTrackerExclusions (domains : list string) (m : Index) : Index := foldl (λ m d, delete d m) m domains.

Section exclusions.
Context `{!UnicodeCase, !Library}.

Definition recordTrackerTransition (oldURL newURL : string) (hashes : list string) (m : Index) : Index :=
  if bool_decide (hashes = []) then m else
  let newDomain := ExtractDomainFromURL newURL in
  let m := if bool_decide (newDomain = ""%string) then m else removeTrackerExclusions newDomain hashes m in
  let oldDomain := ExtractDomainFromURL oldURL in
  if bool_decide (oldDomain = ""%string) then m
  else if bool_decide (oldDomain = newDomain) then m
  else addTrackerExclusions oldDomain hashes m.
End exclusions.

(** ** Each completion is reported once *)

Section reports.
Context `{!UnicodeCase} (r : MapRange).

(** The torrents of an update have different hashes, case and spaces aside. *)
Definition distinct_hashes (u : SyncUpdate) : Prop :=
  ∀ k k' t t', su_Torrents u !! k = Some t → su_Torrents u !! k' = Some t' →
    normalizeHashForCompletion k = normalizeHashForCompletion k' → k = k'.

Definition removed_in (u : SyncUpdate) (h : string) : Prop := h ∈ normalizeHashForCompletion <$> su_TorrentsRemoved u.

Definition complete_in (u : SyncUpdate) (h : string) : Prop :=
  ∃ k t, su_Torrents u !! k = Some t ∧ normalizeHashForCompletion k = h ∧ isTorrentComplete t = true.

(** A hash was complete in some update and was not removed since. *)
Definition was_complete (us : list SyncUpdate) (h : string) : Prop :=
  foldl (λ P u, complete_in u h ∨ P ∧ ¬ removed_in u h) False us.

Definition any_torrent (us : list SyncUpdate) : Prop := ∃ u, u ∈ us ∧ su_Torrents u ≠ ∅.

Definition completion_run (us : list SyncUpdate) : CompletionState :=
  foldl (λ c u, (handleCompletionUpdates r c u).1) (MkCompletion ∅ false) us.

Lemma forget_completed_lookup s removed h :
  forget_completed s removed !! h = if bool_decide (h ∈ normalizeHashForCompletion <$> removed) then None else s !! h.
Proof.
  unfold forget_completed. revert s. induction removed as [|x removed IH]; intros s; [done|].
  cbn [foldl fmap list_fmap]. rewrite IH. destruct (decide (normalizeHashForCompletion x = h)) as [->|Hne].
  - rewrite (bool_decide_true (h ∈ h :: _)) by (by left). rewrite lookup_delete_eq. by case_bool_decide.
  - rewrite lookup_delete_ne by done. erewrite bool_decide_ext; [done|]. rewrite elem_of_cons. naive_solver.
Qed.

Definition norms (l : list (string * Torrent)) : list string := normalizeHashForCompletion <$> l.*1.

Lemma norms_range u : distinct_hashes u → NoDup (norms (range r 4 (su_Torrents u))).
Proof.
  intros Hd. unfold norms. apply NoDup_fmap_2_strong; [|apply NoDup_range].
  intros k k' ([? t] & -> & Ht)%list_elem_of_fmap ([? t'] & -> & Ht')%list_elem_of_fmap E.
  apply elem_of_range in Ht, Ht'. by eapply Hd.
Qed.

Lemma completion_steps l s ready :
  NoDup (norms l) →
  ∃ s', foldl completion_step (s, ready) l =
    (s', ready ++ (filter (λ e, isTorrentComplete e.2 = true ∧ s !! normalizeHashForCompletion e.1 ≠ Some true) l).*2) ∧
    ∀ h, s' !! h = Some true ↔ s !! h = Some true ∨ ∃ e, e ∈ l ∧ normalizeHashForCompletion e.1 = h ∧ isTorrentComplete e.2 = true.
Proof.
  revert s ready. induction l as [|[k t] l IH]; intros s ready Hnd.
  { exists s. cbn. rewrite app_nil_r. split; [done|]. intros h. split; [auto|]. by intros [?|(? & ?%elem_of_nil & _)]. }
  cbn [norms fmap list_fmap fst] in Hnd. apply NoDup_cons in Hnd as [Hk Hnd].
  set (n := normalizeHashForCompletion k) in *.
  assert (∀ b, filter (λ e, isTorrentComplete e.2 = true ∧ <[n := b]> s !! normalizeHashForCompletion e.1 ≠ Some true) l =
    filter (λ e, isTorrentComplete e.2 = true ∧ s !! normalizeHashForCompletion e.1 ≠ Some true) l) as Hother.
  { intros b. apply filter_ext_in. intros [k' t'] Hin. cbn [fst snd]. rewrite lookup_insert_ne; [done|].
    intros E. apply Hk. rewrite E. unfold norms. apply (list_elem_of_fmap_2 _ _ k'). by apply (list_elem_of_fmap_2 fst _ (k', t')). }
  assert (default false (s !! n) = true ↔ s !! n = Some true) as Hdef by (destruct (s !! n) as [[]|]; naive_solver).
  cbn [foldl completion_step fst snd]. fold n. rewrite filter_cons. cbn [fst snd]. fold n.
  destruct (default false (s !! n)) eqn:Eh, (isTorrentComplete t) eqn:Ec; cbn [negb andb].
  - destruct (IH s ready Hnd) as (s' & -> & Hs'). exists s'. split.
    + rewrite decide_False by tauto. done.
    + intros h. rewrite Hs'. setoid_rewrite elem_of_cons. split; [naive_solver|].
      intros [?|([] & [[= -> ->]|?] & <- & ?)]; cbn [fst snd] in *; [tauto|tauto|]. right. eauto.
  - destruct (IH s ready Hnd) as (s' & -> & Hs'). exists s'. split.
    + rewrite decide_False by (intros [? _]; congruence). done.
    + intros h. rewrite Hs'. setoid_rewrite elem_of_cons. split; [naive_solver|].
      intros [?|([] & [[= -> ->]|?] & <- & ?)]; cbn [fst snd] in *; [tauto|congruence|]. right. eauto.
  - destruct (IH (<[n := true]> s) (ready ++ [t]) Hnd) as (s' & -> & Hs'). exists s'. rewrite Hother. split.
    + rewrite decide_True by (split; [done|]; intros E; apply Hdef in E; congruence).
      cbn [fmap list_fmap snd]. by rewrite <- app_assoc.
    + intros h. rewrite Hs'. setoid_rewrite elem_of_cons. destruct (decide (n = h)) as [<-|Hne].
      * rewrite lookup_insert_eq. split; [|auto]. intros _. right. exists (k, t). auto.
      * rewrite lookup_insert_ne by done. split; [naive_solver|].
        intros [?|([] & [[= -> ->]|?] & <- & ?)]; cbn [fst snd] in *; [tauto|done|]. right. eauto.
  - destruct (IH (<[n := false]> s) ready Hnd) as (s' & -> & Hs'). exists s'. rewrite Hother. split.
    + rewrite decide_False by (intros [? _]; congruence). done.
    + intros h. rewrite Hs'. setoid_rewrite elem_of_cons. destruct (decide (n = h)) as [<-|Hne].
      * rewrite lookup_insert_eq. split; [naive_solver|].
        intros [Hs|([] & [[= -> ->]|?] & E & ?)]; cbn [fst snd] in *; [|congruence|].
        -- apply Hdef in Hs. congruence.
        -- right. eauto.
      * rewrite lookup_insert_ne by done. split; [naive_solver|].
        intros [?|([] & [[= -> ->]|?] & <- & ?)]; cbn [fst snd] in *; [tauto|done|]. right. eauto.
Qed.

Lemma was_complete_snoc us u h :
  was_complete (us ++ [u]) h ↔ complete_in u h ∨ was_complete us h ∧ ¬ removed_in u h.
Proof. unfold was_complete. by rewrite foldl_snoc. Qed.

Lemma initial_states l (s : gmap string bool) h :
  NoDup (norms l) →
  foldl (λ s entry, <[normalizeHashForCompletion entry.1 := isTorrentComplete entry.2]> s) s l !! h = Some true ↔
  (∃ e, e ∈ l ∧ normalizeHashForCompletion e.1 = h ∧ isTorrentComplete e.2 = true) ∨ s !! h = Some true ∧ h ∉ norms l.
Proof.
  revert s. induction l as [|[k t] l IH]; intros s Hnd; [set_solver|]. cbn [norms fmap list_fmap fst] in Hnd |- *.
  apply NoDup_cons in Hnd as [Hk Hnd]. cbn [foldl]. rewrite IH by done. setoid_rewrite elem_of_cons. cbn [fst snd].
  destruct (decide (normalizeHashForCompletion k = h)) as [<-|Hne].
  - rewrite lookup_insert_eq. split.
    + intros [(e & ? & ? & ?)|[[= E] _]]; [naive_solver|]. left. exists (k, t). auto.
    + intros [(e & [->|Hin] & Hn & ?)|[_ Hnot]].
      * right. cbn [snd] in *. split; [congruence|]. done.
      * left. eauto.
      * exfalso. apply Hnot. by left.
  - rewrite lookup_insert_ne by done. fold (norms l). split.
    + intros [(e & ? & ? & ?)|[? ?]]; [left; eauto|right]. split; [done|]. by intros [?|?].
    + intros [([] & [[= -> ->]|?] & ? & ?)|[? Hnot]]; cbn [fst snd] in *; [done|left; eauto|right].
      split; [done|]. intros ?. apply Hnot. by right.
Qed.

(** Nothing is marked before the first torrents. *)
Lemma none_before_init us h :
  completionInit (completion_run us) = false → completionState (completion_run us) !! h ≠ Some true.
Proof.
  induction us as [|u us IH] using rev_ind; [done|].
  unfold completion_run. rewrite foldl_snoc. fold (completion_run us). unfold handleCompletionUpdates. cbv zeta.
  destruct (completionInit (completion_run us)) eqn:Ei; cbn [negb].
  - by destruct (foldl _ _ _).
  - case_bool_decide; [|done]. cbn. rewrite forget_completed_lookup. case_bool_decide; [done|auto].
Qed.

(** The state after any updates. *)
Lemma completion_run_spec us :
  Forall distinct_hashes us →
  (completionInit (completion_run us) = true ↔ any_torrent us) ∧
  ∀ h, completionState (completion_run us) !! h = Some true ↔ was_complete us h.
Proof.
  unfold any_torrent. induction us as [|u us IH] using rev_ind; intros Hd.
  { split; [|done]. split; [done|]. by intros (? & ?%elem_of_nil & _). }
  apply Forall_app in Hd as [Hd Hdu]. rewrite Forall_singleton in Hdu. destruct (IH Hd) as [Hinit Hst].
  setoid_rewrite was_complete_snoc. unfold completion_run. rewrite foldl_snoc. fold (completion_run us).
  set (c := completion_run us) in *.
  assert (∀ h, forget_completed (completionState c) (su_TorrentsRemoved u) !! h = Some true ↔ was_complete us h ∧ ¬ removed_in u h) as Hf.
  { intros h. rewrite forget_completed_lookup. unfold removed_in. case_bool_decide; [naive_solver|]. rewrite Hst. tauto. }
  setoid_rewrite elem_of_app. setoid_rewrite list_elem_of_singleton.
  unfold handleCompletionUpdates. cbv zeta. destruct (completionInit c) eqn:Ei; cbn [negb].
  - destruct (completion_steps (range r 4 (su_Torrents u)) (forget_completed (completionState c) (su_TorrentsRemoved u)) [])
      as (s' & -> & Hs'); [by apply norms_range|]. cbn [fst completionInit completionState]. split.
    { split; [intros _|done]. destruct (proj1 Hinit eq_refl) as (x & ? & ?). eauto. }
    intros h. rewrite Hs', Hf. unfold complete_in. split.
    + intros [?|([k t] & Hin%elem_of_range & ? & ?)]; [auto|]. left. eauto.
    + intros [(k & t & Hk & ? & ?)|?]; [|auto]. right. exists (k, t). split; [by apply elem_of_range|done].
  - case_bool_decide as Ee; cbn [fst completionInit completionState].
    + split; [naive_solver|]. intros h. rewrite Hf. split; [auto|]. intros [(k & t & Hk & _)|?]; [|done].
      rewrite Ee, lookup_empty in Hk. done.
    + split; [naive_solver|]. intros h.
      rewrite initial_states by by apply norms_range. rewrite Hf.
      pose proof (fun Hw => none_before_init us h Ei (proj2 (Hst h) Hw)) as Hno.
      unfold complete_in. split.
      * intros [([k t] & Hin%elem_of_range & ? & ?)|[[? _] _]]; [|done]. left. eauto.
      * intros [(k & t & Hk & ? & ?)|[? _]]; [|done]. left. exists (k, t). split; [by apply elem_of_range|done].
Qed.

(** C18.  A completion handler is called for a torrent exactly when an update shows
    it complete, after a first update that had any torrents, and no earlier update
    showed it complete since the torrent was last removed: once for each time it
    completes, never for torrents that were complete before the client
    connected, and in the order of the update. *)
Theorem completions_reported_once (us : list SyncUpdate) (u : SyncUpdate) :
  Forall distinct_hashes (us ++ [u]) →
  let ready := (handleCompletionUpdates r (completion_run us) u).2 in
  ready `sublist_of` (range r 4 (su_Torrents u)).*2 ∧
  ∀ t, t ∈ ready ↔ any_torrent us ∧ ∃ k, su_Torrents u !! k = Some t ∧ isTorrentComplete t = true ∧
    ¬ (was_complete us (normalizeHashForCompletion k) ∧ ¬ removed_in u (normalizeHashForCompletion k)).
Proof.
  intros [Hd Hdu]%Forall_app. rewrite Forall_singleton in Hdu. destruct (completion_run_spec us Hd) as [Hinit Hst].
  unfold handleCompletionUpdates. cbv zeta. setoid_rewrite <- Hinit. destruct (completionInit (completion_run us)); cbn [negb].
  2:{ case_bool_decide; cbn [snd]; (split; [apply sublist_nil_l|]); intros t; (split; [by intros ?%elem_of_nil|by intros [? _]]). }
  destruct (completion_steps (range r 4 (su_Torrents u)) (forget_completed (completionState (completion_run us)) (su_TorrentsRemoved u)) [])
    as (s' & -> & _); [by apply norms_range|]. cbn [snd app]. split.
  { apply fmap_sublist, sublist_filter. }
  intros t. rewrite list_elem_of_fmap. setoid_rewrite list_elem_of_filter. setoid_rewrite forget_completed_lookup.
  split.
  - intros ([k t'] & -> & [Hc Hn] & Hin%elem_of_range). cbn [fst snd] in *. split; [done|]. exists k. split_and!; [done..|].
    intros [Hw Hr]. apply Hn. rewrite bool_decide_false by done. by apply Hst.
  - intros [_ (k & Hk & Hc & Hn)]. exists (k, t). split; [done|]. split; [|by apply elem_of_range]. cbn [fst snd].
    split; [done|]. intros E. apply Hn. case_bool_decide as Hr; [done|]. split; [by apply Hst|done].
Qed.
End reports.

(** ** Optimistic states *)

Lemma set_last_length hash state l : length (set_last hash state l) = length l.
Proof. induction l as [|t l IH]; [done|]. cbn [set_last]. case_match; cbn [length]; congruence. Qed.

Lemma set_last_hashes hash state l : t_Hash <$> set_last hash state l = t_Hash <$> l.
Proof. induction l as [|t l IH]; [done|]. cbn [set_last]. case_match; cbn [fmap list_fmap]; [done|by rewrite IH]. Qed.

Lemma set_last_lookup hash state l i :
  NoDup (t_Hash <$> l) →
  set_last hash state l !! i = (λ t, if bool_decide (t_Hash t = hash) then set_state t state else t) <$> l !! i.
Proof.
  revert i. induction l as [|t l IH]; intros i Hnd; [done|]. cbn [fmap list_fmap] in Hnd.
  apply NoDup_cons in Hnd as [Ht Hnd]. cbn [set_last]. destruct (decide (t_Hash t = hash)) as [<-|Hne].
  - rewrite bool_decide_true by done. rewrite bool_decide_false by done. cbn [negb andb]. destruct i as [|i]; cbn.
    + by rewrite bool_decide_true.
    + destruct (l !! i) as [t'|] eqn:E; [|done]. simpl. rewrite bool_decide_false; [done|]. intros E'.
      apply Ht. rewrite <- E'. apply list_elem_of_fmap_2. by eapply list_elem_of_lookup_2.
  - rewrite bool_decide_false by done. cbn [andb]. destruct i as [|i]; cbn; [by rewrite bool_decide_false|by apply IH].
Qed.

Lemma torrent_map_lookup l i t :
  NoDup (t_Hash <$> l) → l !! i = Some t → torrent_map l !! t_Hash t = Some t.
Proof.
  intros Hnd Hi. unfold torrent_map.
  assert (∀ l (m : gmap string Torrent) h, h ∉ t_Hash <$> l → foldl (λ m t, <[t_Hash t := t]> m) m l !! h = m !! h) as Hout.
  { clear. induction l as [|x l IH]; intros m h Hh; [done|]. cbn [foldl fmap list_fmap] in *.
    apply not_elem_of_cons in Hh as [? ?]. rewrite IH by done. by apply lookup_insert_ne. }
  generalize (∅ : gmap string Torrent). revert i Hi. induction l as [|x l IH]; intros i Hi m; [done|].
  cbn [fmap list_fmap] in Hnd. apply NoDup_cons in Hnd as [Hx Hnd]. cbn [foldl]. destruct i as [|i]; cbn in Hi.
  - injection Hi as ->. rewrite Hout by done. apply lookup_insert_eq.
  - by eapply IH.
Qed.

(** What an update shows of a torrent. *)
Definition overlaid (now : Z) (updates : OptimisticUpdates) (t : Torrent) : Torrent :=
  match updates !! t_Hash t with
  | Some u => if keeps_optimistic now t u then set_state t (ou_State u) else t
  | None => t
  end.

Lemma overlay_steps now torrents updates entries :
  NoDup (t_Hash <$> torrents) → NoDup (entries.*1) → (∀ h u, (h, u) ∈ entries → updates !! h = Some u) →
  ∃ torrents' updates', foldl (overlay_step now) (torrents, updates) entries = (torrents', updates') ∧
    t_Hash <$> torrents' = t_Hash <$> torrents ∧
    (∀ i, torrents' !! i = (λ t, if bool_decide (t_Hash t ∈ entries.*1) then overlaid now updates t else t) <$> torrents !! i) ∧
    (∀ h, updates' !! h = if bool_decide (h ∈ entries.*1) then
        u ← updates !! h; t ← torrent_map torrents !! h; (if keeps_optimistic now t u then Some u else None)
      else updates !! h).
Proof.
  intros Hnd. induction entries as [|[h u] entries IH] using rev_ind; intros Hk Hu.
  { exists torrents, updates. split_and!; [done|done|intros i; by destruct (torrents !! i)|done]. }
  rewrite fmap_app in Hk. apply NoDup_app in Hk as (Hk & Hh & _).
  assert (h ∉ entries.*1) as Hne by (intros Hin; apply (Hh h Hin); by left).
  destruct IH as (ts & us & Heq & Hhs & Hts & Hus); [done|intros; apply Hu, elem_of_app; by left|].
  rewrite foldl_snoc, Heq. cbn [overlay_step].
  assert (updates !! h = Some u) as Hhu by (apply Hu, elem_of_app; right; by apply list_elem_of_singleton).
  assert (∀ h', bool_decide (h' ∈ (entries ++ [(h, u)]).*1) = bool_decide (h' ∈ entries.*1) || bool_decide (h' = h)) as Hin.
  { intros h'. rewrite fmap_app, <- bool_decide_or. apply bool_decide_ext. rewrite elem_of_app. cbn [fmap list_fmap fst]. by rewrite list_elem_of_singleton. }
  assert (torrent_map ts !! h = torrent_map torrents !! h) as Hmap.
  { destruct (torrent_map ts !! h) as [t|] eqn:Et.
    - assert (h ∈ t_Hash <$> torrents) as (t0 & -> & [i Hi]%list_elem_of_lookup)%list_elem_of_fmap.
      { rewrite <- Hhs. apply torrent_map_some. eauto. }
      rewrite (torrent_map_lookup torrents i t0 Hnd Hi).
      assert (ts !! i = Some t0) as Hi' by (rewrite Hts, Hi; simpl; by rewrite bool_decide_false).
      rewrite (torrent_map_lookup ts i t0) in Et; [done|by rewrite Hhs|done].
    - destruct (torrent_map torrents !! h) as [t|] eqn:Et'; [|done].
      assert (is_Some (torrent_map ts !! h)) as [x Hx]; [|congruence].
      apply torrent_map_some. rewrite Hhs. apply torrent_map_some. eauto. }
  rewrite Hmap.
  assert (∀ t i, torrents !! i = Some t → t_Hash t = h → torrent_map torrents !! h = Some t) as Hthe.
  { intros t i Hi <-. by eapply torrent_map_lookup. }
  destruct (torrent_map torrents !! h) as [t|] eqn:Et; [destruct (keeps_optimistic now t u) eqn:Ek|].
  - exists (set_last h (ou_State u) ts), us. split_and!; [done|by rewrite set_last_hashes| |].
    + intros i. rewrite set_last_lookup by by rewrite Hhs. rewrite Hts. destruct (torrents !! i) as [t'|] eqn:Ei; [|done]. simpl.
      rewrite Hin. f_equal. destruct (decide (t_Hash t' = h)) as [E|E].
      * assert (t' = t) as -> by (specialize (Hthe t' i Ei E); congruence).
        rewrite (bool_decide_true (t_Hash t = h)), orb_true_r by done. rewrite E, (bool_decide_false (h ∈ entries.*1)) by done.
        rewrite bool_decide_true by done. unfold overlaid. by rewrite E, Hhu, Ek.
      * rewrite (bool_decide_false (t_Hash t' = h)), orb_false_r by done. case_bool_decide as Eo; [|done].
        exfalso. revert Eo. case_bool_decide; [|done]. unfold overlaid. repeat case_match; try done.
    + intros h'. rewrite Hin, Hus. destruct (decide (h' = h)) as [->|E].
      * rewrite (bool_decide_false (h ∈ entries.*1)), (bool_decide_true (h = h)) by done. cbn [orb].
        rewrite Hhu. simpl. rewrite Et. simpl. by rewrite Ek.
      * by rewrite (bool_decide_false (h' = h)), orb_false_r by done.
  - exists ts, (delete h us). split_and!; [done..| |].
    + intros i. rewrite Hts. destruct (torrents !! i) as [t'|] eqn:Ei; [|done]. simpl. rewrite Hin. f_equal.
      destruct (decide (t_Hash t' = h)) as [E|E].
      * assert (t' = t) as -> by (specialize (Hthe t' i Ei E); congruence).
        rewrite (bool_decide_true (t_Hash t = h)), orb_true_r by done. rewrite E, (bool_decide_false (h ∈ entries.*1)) by done.
        unfold overlaid. by rewrite E, Hhu, Ek.
      * by rewrite (bool_decide_false (t_Hash t' = h)), orb_false_r by done.
    + intros h'. rewrite Hin. destruct (decide (h' = h)) as [->|E].
      * rewrite lookup_delete_eq, (bool_decide_true (h = h)), orb_true_r by done. rewrite Hhu. simpl. rewrite Et. simpl. by rewrite Ek.
      * rewrite lookup_delete_ne, Hus by done. by rewrite (bool_decide_false (h' = h)), orb_false_r by done.
  - exists ts, (delete h us). split_and!; [done..| |].
    + intros i. rewrite Hts. destruct (torrents !! i) as [t'|] eqn:Ei; [|done]. simpl. rewrite Hin. f_equal.
      destruct (decide (t_Hash t' = h)) as [E|E]; [specialize (Hthe t' i Ei E); congruence|].
      by rewrite (bool_decide_false (t_Hash t' = h)), orb_false_r by done.
    + intros h'. rewrite Hin. destruct (decide (h' = h)) as [->|E].
      * rewrite lookup_delete_eq, (bool_decide_true (h = h)), orb_true_r by done. rewrite Hhu. simpl. by rewrite Et.
      * rewrite lookup_delete_ne, Hus by done. by rewrite (bool_decide_false (h' = h)), orb_false_r by done.
Qed.

(**  Every torrent is shown in the state of the last action on it as long as
    the server still reports the state from before the action and a minute has
    not passed, and as the server reports it otherwise; nothing else of it
    changes, and exactly the updates that are shown are kept. *)
Theorem optimistic_overlay_exact (r : MapRange) (now : Z) (torrents : list Torrent) (updates : OptimisticUpdates) :
  NoDup (t_Hash <$> torrents) →
  let '(shown, kept) := getAllTorrentsForStats r now torrents updates in
  shown = overlaid now updates <$> torrents ∧
  ∀ h u, kept !! h = Some u ↔
    updates !! h = Some u ∧ ∃ t, t ∈ torrents ∧ t_Hash t = h ∧ keeps_optimistic now t u = true.
Proof.
  intros Hnd. unfold getAllTorrentsForStats.
  destruct (overlay_steps now torrents updates (range r 6 updates)) as (ts & us & -> & _ & Hts & Hus).
  { done. } { apply NoDup_range. } { intros h u. apply elem_of_range. }
  assert (∀ h u, updates !! h = Some u → h ∈ (range r 6 updates).*1) as Hall.
  { intros h u Hu. apply (list_elem_of_fmap_2 fst _ (h, u)). by apply elem_of_range. }
  split.
  - apply list_eq. intros i. rewrite Hts, list_lookup_fmap. destruct (torrents !! i) as [t|]; [|done]. simpl. f_equal.
    case_bool_decide as Hin; [done|]. unfold overlaid. destruct (updates !! t_Hash t) as [u|] eqn:Eu; [|done].
    exfalso. by eapply Hin, Hall.
  - intros h u. rewrite Hus. destruct (updates !! h) as [u'|] eqn:Eu.
    + rewrite bool_decide_true by (by eapply Hall). simpl. split.
      * destruct (torrent_map torrents !! h) as [t|] eqn:Et; [|done]. simpl. destruct (keeps_optimistic now t u') eqn:Ek; [|done].
        intros [= ->]. split; [done|]. exists t.
        assert (h ∈ t_Hash <$> torrents) as (t0 & -> & [i Hi]%list_elem_of_lookup)%list_elem_of_fmap
          by (apply torrent_map_some; eauto).
        rewrite (torrent_map_lookup torrents i t0 Hnd Hi) in Et. injection Et as ->.
        split_and!; [by eapply list_elem_of_lookup_2|done..].
      * intros ([= ->] & t & [i Hi]%list_elem_of_lookup & <- & Ek).
        rewrite (torrent_map_lookup torrents i t Hnd Hi). simpl. by rewrite Ek.
    + simpl. case_bool_decide; naive_solver.
Qed.

(** ** Runs *)

Section runs.
#[local] Existing Instance AsciiCase.

(** A torrent that completed at some time, or has not yet at zero. *)
Definition finishing (hash : string) (completed : Z) : Torrent :=
  MkTorrent 0 0 false f64_zero "" "" 0 completed "" "" 0 0 "" 0 0 0 false false hash
    "" "" f64_zero false 0 "" f64_zero 0 0 "" 0 0 0 0 0 f64_zero f64_zero f64_zero 0 "/data" 0 0 0
    "" "" 0 false 1 TorrentStateDownloading false "" 0 1 "" 0 0 0 0 0 [].

Definition update_of (torrents : list (string * Z)) (removed : list string) : SyncUpdate :=
  MkUpdate (list_to_map ((λ e, (e.1, finishing e.1 e.2)) <$> torrents)) removed.

(** [bb] was complete when the client connected, [aa] completes later. *)
Definition first_updates : list SyncUpdate := [update_of [] []; update_of [("aa", 0%Z); ("bb", 5%Z)] []].
Definition finished_update : SyncUpdate := update_of [("aa", 7%Z); ("bb", 5%Z)] [].

(** Whether the normalised hashes of an update are all different. *)
Lemma distinct_hashes_check u :
  NoDup (normalizeHashForCompletion <$> (map_to_list (su_Torrents u)).*1) → distinct_hashes u.
Proof.
  intros Hnd k k' t t' Ht Ht' E. apply elem_of_map_to_list in Ht, Ht'.
  apply (list_elem_of_fmap_2 fst) in Ht, Ht'. cbn [fst] in Ht, Ht'.
  apply list_elem_of_lookup in Ht as [i Hi], Ht' as [j Hj].
  assert (i = j) as ->; [|congruence].
  eapply (NoDup_lookup _ i j); [exact Hnd|by rewrite list_lookup_fmap, Hi|by rewrite list_lookup_fmap, Hj, E].
Qed.

Lemma completions_reported_once_witness :
  Forall distinct_hashes (first_updates ++ [finished_update]) ∧
  t_Hash <$> (handleCompletionUpdates key_order (completion_run key_order first_updates) finished_update).2 = ["aa"] ∧
  (handleCompletionUpdates key_order (completion_run key_order (first_updates ++ [finished_update])) finished_update).2 = [] ∧
  (finishing "bb" 5 ∈ (handleCompletionUpdates key_order (completion_run key_order first_updates) finished_update).2 → False).
Proof.
  assert (Forall distinct_hashes (first_updates ++ [finished_update])) as Hd.
  { repeat constructor; apply distinct_hashes_check, (bool_decide_unpack _); by vm_compute. }
  split; [done|]. split; [by vm_compute|]. split; [by vm_compute|]. intros Hin.
  apply (proj2 (completions_reported_once key_order first_updates finished_update Hd)) in Hin
    as (_ & k & Hk & _ & Hn).
  apply Hn. assert (k = "bb"%string) as ->.
  { apply elem_of_list_to_map_2, list_elem_of_In in Hk. cbn in Hk. destruct Hk as [[= <-]|[[= <-]|[]]]; done. }
  split; [|by intros ?%elem_of_nil]. unfold was_complete. cbn [foldl first_updates]. left.
  exists "bb"%string, (finishing "bb" 5). split_and!; by vm_compute.
Defined.

(** The updates this client makes never name a removed torrent, so a torrent that
    is removed and added again completes a second time without a report; with
    the hash among the removed ones it is reported again. *)
Example completion_needs_the_removal :
  (handleCompletionUpdates key_order
     (completion_run key_order (first_updates ++ [finished_update; update_of [("bb", 5%Z)] []])) finished_update).2 = [] ∧
  t_Hash <$> (handleCompletionUpdates key_order
     (completion_run key_order (first_updates ++ [finished_update; update_of [("bb", 5%Z)] ["AA"]])) finished_update).2 = ["aa"].
Proof. split; by vm_compute. Qed.

(** A pause and a resume, a second after which the server still reports the old
    state of one. *)
Definition shown_torrents : list Torrent :=
  [set_state (finishing "aa" 0) TorrentStateUploading; set_state (finishing "bb" 0) TorrentStateQueuedUp].
Definition optimistic_updates : OptimisticUpdates :=
  {["aa" := MkOptimistic TorrentStatePausedUp TorrentStateUploading 0 "pause";
    "bb" := MkOptimistic TorrentStateQueuedUp TorrentStatePausedUp 0 "resume"]}.

Lemma optimistic_overlay_exact_witness :
  NoDup (t_Hash <$> shown_torrents) ∧
  let '(shown, kept) := getAllTorrentsForStats key_order Second shown_torrents optimistic_updates in
  t_State <$> shown = [TorrentStatePausedUp; TorrentStateQueuedUp] ∧ dom kept = {["aa"]} ∧
  shown = overlaid Second optimistic_updates <$> shown_torrents.
Proof.
  assert (NoDup (t_Hash <$> shown_torrents)) as Hnd by (apply (bool_decide_unpack _); by vm_compute).
  split; [done|].
  pose proof (optimistic_overlay_exact key_order Second shown_torrents optimistic_updates Hnd) as H0.
  destruct (getAllTorrentsForStats key_order Second shown_torrents optimistic_updates) as [shown kept] eqn:E.
  split_and!; [| |exact (proj1 H0)].
  - transitivity (t_State <$> (getAllTorrentsForStats key_order Second shown_torrents optimistic_updates).1); [by rewrite E|by vm_compute].
  - transitivity (dom (getAllTorrentsForStats key_order Second shown_torrents optimistic_updates).2); [by rewrite E|].
    apply (bool_decide_eq_true_1 _). by vm_compute.
Defined.
End runs.
