(* ===== verification/CrossRelease.v ===== *)
(** * Releases of the cross-seed service: variants, tags, titles and layouts

    What is compared of two parsed releases: [services/crossseed/matching.go]
    with the aliases of codecs and sources, [variant_overrides.go],
    [layout.go], and the HDR tags of [pkg/releases/parser.go].  The releases
    themselves are made by a library. *)

From Stdlib Require Import ZArith Lia Ascii.
From stdpp Require Import base numbers list strings gmap sorting.
From S2P Require Import Prelude.
From S2P Require Import GoStrings.
From S2P Require Import GoPath.
From S2P Require Import Normalizer.
From S2P Require Import UnicodeText.
From S2P Require Import FileAlign.

Open Scope qui_scope.

(** ** Parsed releases *)

(** [rls.Type]; the others are never named. *)
Inductive ReleaseType : Type :=
| UnknownType | Movie | Series | Episode | Music | App | Audiobook | Book | Comic | Game | OtherType (n : Z).

#[export] Instance ReleaseType_eq_dec : EqDecision ReleaseType.
Proof. solve_decision. Defined.

(** The fields of [rls.Release] that are read. *)
Record Release := MkParsed {
  r_Type : ReleaseType; r_Artist : string; r_Title : string; r_Subtitle : string; r_Alt : string;
  r_Year : Z; r_Month : Z; r_Day : Z; r_Series : Z; r_Episode : Z;
  r_Source : string; r_Resolution : string; r_Collection : string; r_Codec : list string; r_HDR : list string;
  r_BitDepth : string; r_Audio : list string; r_Cut : list string; r_Edition : list string; r_Other : list string;
  r_Language : list string; r_Version : string; r_Disc : string; r_Platform : string; r_Arch : string;
  r_Group : string; r_Site : string; r_Sum : string }.

Definition empty_release : Release :=
  MkParsed UnknownType "" "" "" "" 0 0 0 0 0 "" "" "" [] [] "" [] [] [] [] [] "" "" "" "" "" "" "".

(** The library's parser, and the parser of [pkg/releases], which caches it and
    adds the HDR tags of the raw name. *)
Class ReleaseParser := {
  ParseString : string → Release;
  Parse : string → Release;
}.

Definition isTVRelease (r : Release) : bool :=
  bool_decide (r_Type r = Series) || bool_decide (r_Type r = Episode) || (0 <? r_Series r)%Z || (0 <? r_Episode r)%Z.

Definition isTVEpisode (r : Release) : bool := isTVRelease r && (0 <? r_Episode r)%Z.

Definition isTVSeasonPack (r : Release) : bool :=
  isTVRelease r && ((0 <? r_Series r)%Z || bool_decide (r_Type r = Series)) && (r_Episode r =? 0)%Z.

(** [isSeasonPack] of variant_overrides.go. *)
Definition isSeasonPack (r : Release) : bool := ((0 <? r_Series r) && (r_Episode r =? 0))%Z.

Definition rejectReasonSeasonPackFromEpisode : string :=
  "Season packs cannot be cross-seeded against single-episode torrents".

(** The reason, when the pair is forbidden. *)
Definition rejectSeasonPackFromEpisode (newR existingR : Release) (episodeMatching : bool) : option string :=
  if episodeMatching && isTVSeasonPack newR && isTVEpisode existingR then Some rejectReasonSeasonPackFromEpisode else None.

(** ** Keys *)

Record releaseKey := MkReleaseKey { key_series : Z; key_episode : Z; key_year : Z; key_month : Z; key_day : Z }.

#[export] Instance releaseKey_eq_dec : EqDecision releaseKey.
Proof. solve_decision. Defined.
#[export] Instance releaseKey_countable : Countable releaseKey.
Proof.
  refine (inj_countable' (λ k, (key_series k, key_episode k, key_year k, key_month k, key_day k))
    (λ t, let '(s, e, y, m, d) := t in MkReleaseKey s e y m d) _). by intros [].
Defined.

Definition no_key : releaseKey := MkReleaseKey 0 0 0 0 0.

Definition makeReleaseKey (r : Release) : releaseKey :=
  if (0 <? r_Series r)%Z && (0 <? r_Episode r)%Z then MkReleaseKey (r_Series r) (r_Episode r) 0 0 0
  else if (0 <? r_Series r)%Z then MkReleaseKey (r_Series r) 0 0 0 0
  else if (0 <? r_Year r)%Z && (0 <? r_Month r)%Z && (0 <? r_Day r)%Z then MkReleaseKey 0 0 (r_Year r) (r_Month r) (r_Day r)
  else if (0 <? r_Year r)%Z then MkReleaseKey 0 0 (r_Year r) 0 0
  else no_key.

(** What a file's name leaves out comes from the name of its torrent. *)
Definition or_text (s t : string) : string := if bool_decide (s = "") then t else s.
Definition or_list (s t : list string) : list string := match s with [] => t | _ => s end.
Definition or_positive (a b : Z) : Z := (if (a =? 0) && (0 <? b) then b else a)%Z.

Definition enrichReleaseFromTorrent (file torrent : Release) : Release :=
  MkParsed (r_Type file) (r_Artist file) (r_Title file) (r_Subtitle file) (r_Alt file)
    (or_positive (r_Year file) (r_Year torrent)) (r_Month file) (r_Day file)
    (or_positive (r_Series file) (r_Series torrent)) (r_Episode file)
    (or_text (r_Source file) (r_Source torrent)) (or_text (r_Resolution file) (r_Resolution torrent)) (r_Collection file)
    (or_list (r_Codec file) (r_Codec torrent)) (or_list (r_HDR file) (r_HDR torrent))
    (or_text (r_BitDepth file) (r_BitDepth torrent)) (or_list (r_Audio file) (r_Audio torrent))
    (r_Cut file) (r_Edition file) (r_Other file) (r_Language file) (r_Version file) (r_Disc file) (r_Platform file)
    (r_Arch file) (or_text (r_Group file) (r_Group torrent)) (r_Site file) (r_Sum file).

Section tags.
Context `{!UnicodeCase}.

(** ** Normalised tags *)

Definition normalizeVariant (value : string) : string := ToUpper (TrimSpace value).

Definition joinNormalizedSlice (slice : list string) : string := Join (sort_strings (normalizeVariant <$> slice)) " ".

Definition normalizeVideoCodec (codec : string) : string :=
  let upper := normalizeVariant codec in default upper (videoCodecAliases !! upper).

Definition joinNormalizedCodecSlice (slice : list string) : string :=
  Join (sort_strings (keep_first (normalizeVideoCodec <$> slice))) " ".

Definition sourceAliases : gmap string string :=
  list_to_map [("WEB-DL", "WEBDL"); ("WEBDL", "WEBDL"); ("WEBRIP", "WEBRIP"); ("WEB", "WEB")].

Definition normalizeSource (source : string) : string :=
  let upper := normalizeVariant source in default upper (sourceAliases !! upper).

Definition isWebSource (source : string) : bool := bool_decide (source ∈ ["WEB"; "WEBDL"; "WEBRIP"]).

Definition sourcesCompatible (source candidate : string) : bool :=
  if bool_decide (source = "") || bool_decide (candidate = "") then true
  else if bool_decide (source = candidate) then true
  else if negb (isWebSource source) || negb (isWebSource candidate) then false
  else bool_decide (source = "WEB") || bool_decide (candidate = "WEB").

(** [CanonicalHDRTag]; the replacer drops the four separators. *)
Definition hdr_separators : list ascii := [" "; "."; "_"; "-"]%char.

Definition CanonicalHDRTag (tag : string) : string :=
  let upper := ToUpper (TrimSpace tag) in
  if bool_decide (upper = "") then "" else
  let key := of_bytes (filter (λ a, a ∉ hdr_separators) (to_bytes upper)) in
  if bool_decide (key ∈ ["DOVI"; "DOLBYVISION"; "DV"]) then "DV"
  else if bool_decide (key ∈ ["HDR10PLUS"; "HDR10P"; "HDR10+"]) then "HDR10+"
  else if bool_decide (key = "HDR10") then "HDR10"
  else if bool_decide (key = "HDR") then "HDR"
  else if bool_decide (key = "HLG") then "HLG"
  else upper.

(** The set of canonical tags. *)
Definition hdr_set (tags : list string) : gset string :=
  let seen : gset string := list_to_set (filter (λ t, t ≠ "") (CanonicalHDRTag <$> tags)) in
  if bool_decide ("HDR10+" ∈ seen) then seen ∖ {["HDR10"]} else seen.

Definition NormalizeHDRTags (tags : list string) : list string := sort_strings (elements (hdr_set tags)).

Definition joinNormalizedHDRSlice (slice : list string) : string := Join (NormalizeHDRTags slice) " ".

(** ** Variants *)

Record variantOverrides := MkOverrides {
  vo_collection : list string; vo_other : list string; vo_edition : list string; vo_cut : list string }.

Definition normalizeVariantSlice (values : list string) : list string :=
  filter (λ v, v ≠ "") (normalizeVariant <$> values).

Definition newVariantOverrides (collection other edition cut : list string) : variantOverrides :=
  MkOverrides (normalizeVariantSlice collection) (normalizeVariantSlice other) (normalizeVariantSlice edition)
    (normalizeVariantSlice cut).

Definition strictVariantOverrides : variantOverrides := newVariantOverrides ["IMAX"] ["HYBRID"] [] [].

Definition nonPackVariantOverrides : variantOverrides :=
  newVariantOverrides []
    ["REPACK"; "REPACK2"; "REPACK3"; "REPACK4"; "REPACK5"; "REPACK6"; "REPACK7"; "REPACK8"; "REPACK9"; "REPACK10"; "PROPER"]
    [] [].

Definition is_variant_separator (a : ascii) : bool :=
  bool_decide (a ∈ ["."; "-"; "_"; " "; "/"; "+"; "["; "]"; "("; ")"]%char).

Definition variantTokens (value : string) : list string :=
  let tokens := FieldsFunc value is_variant_separator in
  if bool_decide (tokens = []) && negb (bool_decide (value = "")) then [value] else tokens.

Definition variantValueMatches (value target : string) : bool :=
  if bool_decide (value = "") || bool_decide (target = "") then false
  else if bool_decide (value = target) then true
  else bool_decide (target ∈ variantTokens value).

(** The strict values that some entry of a list carries. *)
Definition list_variants (values strictValues : list string) : list string :=
  filter (λ c, c ≠ "" ∧ existsb (λ entry, let nv := normalizeVariant entry in
                                          negb (bool_decide (nv = "")) && variantValueMatches nv c) values = true) strictValues.

Definition releaseVariants (o : variantOverrides) (r : Release) : gset string :=
  list_to_set (filter (λ c, c ≠ "" ∧ normalizeVariant (r_Collection r) = c) (vo_collection o) ++
               list_variants (r_Other r) (vo_other o) ++ list_variants (r_Edition r) (vo_edition o) ++
               list_variants (r_Cut r) (vo_cut o)).

(** The order in which a map with the keys of a set is visited. *)
Definition visit (r : MapRange) (site : nat) (s : gset string) : list string :=
  (range r site (gset_to_gmap () s)).*1.

(** The first variant of the source that the candidate lacks. *)
Definition findMismatch (r : MapRange) (o : variantOverrides) (source candidate : Release) : option string :=
  let candidateVariants := releaseVariants o candidate in
  List.find (λ key, negb (bool_decide (key ∈ candidateVariants))) (visit r 0 (releaseVariants o source)).

(** [None] when compatible, the variant otherwise. *)
Definition checkVariantsCompatible (r : MapRange) (source candidate : Release) : option string :=
  match findMismatch r strictVariantOverrides source candidate with
  | Some mismatch => Some mismatch
  | None =>
    match findMismatch r strictVariantOverrides candidate source with
    | Some mismatch => Some mismatch
    | None =>
      if isSeasonPack source || isSeasonPack candidate then None else
      match findMismatch r nonPackVariantOverrides source candidate with
      | Some mismatch => Some mismatch
      | None => findMismatch r nonPackVariantOverrides candidate source
      end
    end
  end.

(** ** Titles *)

(** [strings.Split] for a separator of at least one byte; [skip] counts the
    bytes of a separator that are still to be dropped. *)
Fixpoint split_text (skip : nat) (sep cur l : bytes) : list bytes :=
  match l with
  | [] => [reverse cur]
  | a :: l' =>
    match skip with
    | S k => split_text k sep cur l'
    | O => if HasPrefix (of_bytes l) (of_bytes sep)
           then reverse cur :: split_text (length sep - 1) sep [] l'
           else split_text O sep (a :: cur) l'
    end
  end.

Definition SplitText (s sep : string) : list string := of_bytes <$> split_text O (to_bytes sep) [] (to_bytes s).

Definition minAKATitleLength : nat := 4.

Definition rawAKATitleParts (rawName : string) : list string :=
  if bool_decide (rawName = "") || negb (Contains rawName " AKA ") then [] else
  let titles := filter (λ p, minAKATitleLength ≤ String.length p) (TrimSpace <$> SplitText rawName " AKA ") in
  if (length titles <? 2)%nat then [] else titles.

Context `{!UnicodeTables, !ReleaseParser}.

Definition addNormalizedTitle (titles : gset string) (title : string) : gset string :=
  let normalized := NormalizeForMatching title in
  if bool_decide (normalized = "") then titles else {[normalized]} ∪ titles.

Definition addNormalizedTitles (titles : gset string) (extraTitles : list string) : gset string :=
  foldl addNormalizedTitle titles extraTitles.

Definition normalizedReleaseTitles (release : Release) (rawName : string) : gset string :=
  let titles := addNormalizedTitle ∅ (r_Title release) in
  let titles := addNormalizedTitle titles (r_Alt release) in
  foldl (λ titles rawTitle, let parsed := ParseString rawTitle in
           addNormalizedTitle (addNormalizedTitle titles (r_Title parsed)) (r_Alt parsed))
    titles (rawAKATitleParts rawName).

Definition normalizedTitleSetsOverlap (sourceTitles candidateTitles : gset string) : bool :=
  existsb (λ title, bool_decide (title ∈ candidateTitles)) (elements sourceTitles).

(** ** Layouts *)

Inductive TorrentLayout : Type := LayoutUnknown | LayoutFiles | LayoutArchives.

(** [.rar], [.zip], [.7z] and [.r00] to [.r99]. *)
Definition archiveExtensions : list string :=
  [".rar"; ".zip"; ".7z"] ++
  (d ← ["0"; "1"; "2"; "3"; "4"; "5"; "6"; "7"; "8"; "9"];
   e ← ["0"; "1"; "2"; "3"; "4"; "5"; "6"; "7"; "8"; "9"]; [".r" +++ (d +++ e)]).

Definition isArchiveFilename (nameLower : string) : bool :=
  existsb (HasSuffix nameLower) [".tar.gz"; ".tar.xz"; ".tar.bz2"; ".tar"] ||
  bool_decide (Ext nameLower ∈ archiveExtensions).

(** The first file of the largest size above zero, among those not ignored. *)
Definition largest_step (acc : string * Z) (f : TorrentFile) : string * Z :=
  if shouldIgnoreFile (tf_Name f) then acc
  else if (acc.2 <? tf_Size f)%Z then (tf_Name f, tf_Size f) else acc.

Definition classifyTorrentLayout (files : list TorrentFile) : TorrentLayout :=
  let '(largestName, largestSize) := foldl largest_step ("", 0%Z) files in
  if (largestSize =? 0)%Z || bool_decide (TrimSpace largestName = "") then LayoutUnknown
  else if isArchiveFilename (ToLower largestName) then LayoutArchives else LayoutFiles.

Definition layoutDescription (layout : TorrentLayout) : string :=
  match layout with
  | LayoutFiles => "extracted files"
  | LayoutArchives => "RAR/archive"
  | LayoutUnknown => "unknown"
  end.
End tags.

#[export] Instance TorrentLayout_eq_dec : EqDecision TorrentLayout.
Proof. solve_decision. Defined.
