(* ===== verification/CrossMatch.v ===== *)
(** * [internal/services/crossseed/matching.go]: do two releases match?

    The validators of a pair of releases in their order, the fallbacks for
    relabelled web sources and for announces without a collection, and what a
    match means for the releases. *)

From Stdlib Require Import ZArith Lia Ascii.
From stdpp Require Import base numbers list strings gmap sorting.
From S2P Require Import Prelude.
From S2P Require Import GoStrings.
From S2P Require Import GoFloat.
From S2P Require Import Normalizer.
From S2P Require Import UnicodeText.
From S2P Require Import FileAlign.
From S2P Require Import CrossRelease.

Open Scope qui_scope.

(** ** Validators

    Each gives the reason of a rejection, and nothing when the pair passes. *)

Section validators.
Context `{!UnicodeCase, !UnicodeTables, !ReleaseParser}.

(** The first rejection of a sequence of checks. *)
Fixpoint first_reason (checks : list (bool * string)) : option string :=
  match checks with
  | [] => None
  | (rejected, reason) :: checks => if rejected then Some reason else first_reason checks
  end.

Definition differ (a b : string) : bool := negb (bool_decide (a = b)).
Definition given (a : string) : bool := negb (bool_decide (a = "")).

(** Both are given, and they differ. *)
Definition conflict (a b : string) : bool := given a && given b && differ a b.

Definition has_date (r : Release) : bool := ((0 <? r_Year r) && (0 <? r_Month r) && (0 <? r_Day r))%Z.

Definition all_titles (r : Release) (name : string) (extra : list string) : gset string :=
  addNormalizedTitles (normalizedReleaseTitles r name) extra.

Definition validateTitleArtistAndDates (source candidate : Release) (sourceName candidateName : string)
    (sourceExtraTitles candidateExtraTitles : list string) (isTV : bool) : option string :=
  let sourceTitles := all_titles source sourceName sourceExtraTitles in
  let candidateTitles := all_titles candidate candidateName candidateExtraTitles in
  first_reason
    [(bool_decide (sourceTitles = ∅) || bool_decide (candidateTitles = ∅), "empty normalized title");
     (negb (normalizedTitleSetsOverlap sourceTitles candidateTitles), "title mismatch");
     (given (r_Artist source) && given (r_Artist candidate) &&
        differ (normalizeLowerTrim (r_Artist source)) (normalizeLowerTrim (r_Artist candidate)), "artist mismatch");
     (((0 <? r_Year source) && (0 <? r_Year candidate))%Z && negb (r_Year source =? r_Year candidate)%Z, "year mismatch");
     (has_date source && has_date candidate &&
        (negb (r_Month source =? r_Month candidate)%Z || negb (r_Day source =? r_Day candidate)%Z), "date mismatch");
     (negb isTV && negb (bool_decide (r_Type source = UnknownType)) && negb (bool_decide (r_Type candidate = UnknownType)) &&
        negb (bool_decide (r_Type source = r_Type candidate)), "content type mismatch")].

Definition validateTVStructure (source candidate : Release) (findIndividualEpisodes isTV : bool) : option string :=
  if negb isTV then None else
  let sourceIsTV := isTVRelease source in
  let candidateIsTV := isTVRelease candidate in
  let sourceIsPack := isTVSeasonPack source in
  let candidateIsPack := isTVSeasonPack candidate in
  let episodes_differ := negb sourceIsPack && negb candidateIsPack && negb (r_Episode source =? r_Episode candidate)%Z in
  if sourceIsTV && negb candidateIsTV then Some "candidate not recognized as TV"
  else if candidateIsTV && negb sourceIsTV then Some "source not recognized as TV"
  else if ((0 <? r_Series source) && (0 <? r_Series candidate))%Z && negb (r_Series source =? r_Series candidate)%Z
  then Some "season mismatch"
  else if negb findIndividualEpisodes then
    if negb (Bool.eqb sourceIsPack candidateIsPack) then Some "season pack versus episode mismatch"
    else if episodes_differ then Some "episode mismatch" else None
  else if episodes_differ then Some "episode mismatch" else None.

Definition validateGroupSiteAndChecksum (source candidate : Release) : option string :=
  let sourceGroup := normalizeLowerTrim (r_Group source) in
  let candidateGroup := normalizeLowerTrim (r_Group candidate) in
  let sourceSite := normalizeLowerTrim (r_Site source) in
  let candidateSite := normalizeLowerTrim (r_Site candidate) in
  let candidateGroupIdentity := if bool_decide (candidateGroup = "") then candidateSite else candidateGroup in
  let candidateSiteIdentity := if bool_decide (candidateSite = "") then candidateGroup else candidateSite in
  let sourceSum := normalizeLowerTrim (r_Sum source) in
  let candidateSum := normalizeLowerTrim (r_Sum candidate) in
  first_reason
    [(given sourceGroup && (negb (given candidateGroupIdentity) || differ sourceGroup candidateGroupIdentity), "group mismatch");
     (given sourceSite && (given candidateSiteIdentity && differ sourceSite candidateSiteIdentity), "site mismatch");
     (given sourceSum && (negb (given candidateSum) || differ sourceSum candidateSum), "checksum mismatch")].

Definition sourceMismatchReason : string := "source mismatch".

Definition isKnownSD (res : string) : bool := bool_decide (normalizeVariant res ∈ ["480P"; "576P"; "SD"]).

Definition resolutions_differ (source candidate : string) : bool :=
  let sourceRes := normalizeLowerTrim source in
  let candidateRes := normalizeLowerTrim candidate in
  if bool_decide (sourceRes = candidateRes) then false
  else negb ((negb (given sourceRes) && isKnownSD candidateRes) || (negb (given candidateRes) && isKnownSD sourceRes)).

Definition collections_differ (source candidate : Release) (isTV : bool) : bool :=
  let sourceCollection := normalizeLowerTrim (r_Collection source) in
  let candidateCollection := normalizeLowerTrim (r_Collection candidate) in
  if bool_decide (sourceCollection = candidateCollection) then false
  else
    let unknownSeasonTV := isTV && ((r_Series source =? 0) || (r_Series candidate =? 0))%Z in
    negb (unknownSeasonTV && (negb (given sourceCollection) || negb (given candidateCollection))).

Definition nonempty {A} (l : list A) : bool := match l with [] => false | _ => true end.

Definition validateFormatAndCodec (source candidate : Release) (isTV : bool) : option string :=
  first_reason
    [(negb (sourcesCompatible (normalizeSource (r_Source source)) (normalizeSource (r_Source candidate))), sourceMismatchReason);
     (resolutions_differ (r_Resolution source) (r_Resolution candidate), "resolution mismatch");
     (collections_differ source candidate isTV, "collection mismatch");
     (nonempty (r_Codec source) && nonempty (r_Codec candidate) &&
        differ (joinNormalizedCodecSlice (r_Codec source)) (joinNormalizedCodecSlice (r_Codec candidate)), "codec mismatch");
     (differ (joinNormalizedHDRSlice (r_HDR source)) (joinNormalizedHDRSlice (r_HDR candidate)), "hdr mismatch");
     (conflict (normalizeLowerTrim (r_BitDepth source)) (normalizeLowerTrim (r_BitDepth candidate)), "bit depth mismatch")].

Definition isEnglishOrEmpty (lang : string) : bool := bool_decide (lang = "") || bool_decide (lang = "ENGLISH").

Definition languages_differ (source candidate : list string) : bool :=
  let sourceLanguage := joinNormalizedSlice source in
  let candidateLanguage := joinNormalizedSlice candidate in
  if bool_decide (sourceLanguage = candidateLanguage) then false
  else negb (isEnglishOrEmpty sourceLanguage && isEnglishOrEmpty candidateLanguage).

Definition lists_differ (source candidate : list string) : bool :=
  nonempty source && nonempty candidate && differ (joinNormalizedSlice source) (joinNormalizedSlice candidate).

Definition fields_differ (source candidate : string) : bool :=
  conflict (normalizeLowerTrim source) (normalizeLowerTrim candidate).

Definition validateMetadataFlags (source candidate : Release) : option string :=
  first_reason
    [(lists_differ (r_Cut source) (r_Cut candidate), "cut mismatch");
     (lists_differ (r_Edition source) (r_Edition candidate), "edition mismatch");
     (languages_differ (r_Language source) (r_Language candidate), "language mismatch");
     (fields_differ (r_Version source) (r_Version candidate), "version mismatch");
     (fields_differ (r_Disc source) (r_Disc candidate), "disc mismatch");
     (fields_differ (r_Platform source) (r_Platform candidate), "platform mismatch");
     (fields_differ (r_Arch source) (r_Arch candidate), "architecture mismatch")].

Definition validateReleaseVariants (r : MapRange) (source candidate : Release) : option string :=
  match checkVariantsCompatible r source candidate with
  | Some reason => Some (if bool_decide (reason = "") then "variant mismatch" else reason)
  | None => None
  end.

(** The validators in their order: the first reason. *)
Definition or_else (a b : option string) : option string := match a with Some reason => Some reason | None => b end.

(** [same] says whether both pointers are the same. *)
Definition releasesMatchWithReasonAndNamesAndTitles (r : MapRange) (same : bool) (source candidate : Release)
    (sourceName candidateName : string) (sourceTitles candidateTitles : list string) (findIndividualEpisodes : bool)
    : option string :=
  if same then None else
  let isTV := isTVRelease source || isTVRelease candidate in
  or_else (validateTitleArtistAndDates source candidate sourceName candidateName sourceTitles candidateTitles isTV)
  (or_else (validateTVStructure source candidate findIndividualEpisodes isTV)
  (or_else (validateGroupSiteAndChecksum source candidate)
  (or_else (validateFormatAndCodec source candidate isTV)
  (or_else (validateMetadataFlags source candidate)
           (validateReleaseVariants r source candidate))))).

Definition releasesMatchWithReasonAndNames (r : MapRange) same source candidate sourceName candidateName findIndividualEpisodes :=
  releasesMatchWithReasonAndNamesAndTitles r same source candidate sourceName candidateName [] [] findIndividualEpisodes.
Definition releasesMatchWithReason (r : MapRange) same source candidate findIndividualEpisodes :=
  releasesMatchWithReasonAndNames r same source candidate "" "" findIndividualEpisodes.
Definition releasesMatch (r : MapRange) same source candidate findIndividualEpisodes : bool :=
  bool_decide (releasesMatchWithReason r same source candidate findIndividualEpisodes = None).

(** ** Fallbacks *)

Definition hdbitsAutobrrIndexer : string := "hdb".
Definition supportsWebhookCollectionFallback (indexer : string) : bool := bool_decide (indexer = hdbitsAutobrrIndexer).

Definition supportsWebhookCollectionFallbackContent (source candidate : Release) : bool :=
  ((0 <? r_Series source) && (0 <? r_Series candidate))%Z ||
  isWebSource (normalizeSource (r_Source source)) && isWebSource (normalizeSource (r_Source candidate)).

Definition hasNonEmptyNormalizedMatch (left_ right_ : string) : bool :=
  let l := normalizeLowerTrim left_ in given l && bool_decide (l = normalizeLowerTrim right_).

Definition canUseWebhookCollectionFallback (source candidate : Release) (indexer : string) : bool :=
  supportsWebhookCollectionFallback indexer &&
  negb (given (r_Collection source) || negb (given (r_Collection candidate))) &&
  supportsWebhookCollectionFallbackContent source candidate &&
  (hasNonEmptyNormalizedMatch (r_Group source) (r_Group candidate) ||
   hasNonEmptyNormalizedMatch (r_Site source) (r_Site candidate)).

Definition set_collection (c : string) (r : Release) : Release :=
  MkParsed (r_Type r) (r_Artist r) (r_Title r) (r_Subtitle r) (r_Alt r) (r_Year r) (r_Month r) (r_Day r) (r_Series r)
    (r_Episode r) (r_Source r) (r_Resolution r) c (r_Codec r) (r_HDR r) (r_BitDepth r) (r_Audio r) (r_Cut r)
    (r_Edition r) (r_Other r) (r_Language r) (r_Version r) (r_Disc r) (r_Platform r) (r_Arch r) (r_Group r) (r_Site r)
    (r_Sum r).
Definition set_source (s : string) (r : Release) : Release :=
  MkParsed (r_Type r) (r_Artist r) (r_Title r) (r_Subtitle r) (r_Alt r) (r_Year r) (r_Month r) (r_Day r) (r_Series r)
    (r_Episode r) s (r_Resolution r) (r_Collection r) (r_Codec r) (r_HDR r) (r_BitDepth r) (r_Audio r) (r_Cut r)
    (r_Edition r) (r_Other r) (r_Language r) (r_Version r) (r_Disc r) (r_Platform r) (r_Arch r) (r_Group r) (r_Site r)
    (r_Sum r).

Definition releasesMatchWebhook (r : MapRange) (same : bool) (source candidate : Release) (findIndividualEpisodes : bool)
    (indexer : string) : bool :=
  if releasesMatch r same source candidate findIndividualEpisodes then true
  else if negb (canUseWebhookCollectionFallback source candidate indexer) then false
  else releasesMatch r false (set_collection (r_Collection candidate) source) candidate findIndividualEpisodes.

(** Sizes are [int64]s. *)
Definition hundred : float64 := f64_of_Z 100.

Definition isSizeWithinTolerance (sourceSize candidateSize : Z) (tolerancePercent : float64) : bool :=
  if (sourceSize =? 0)%Z || (candidateSize =? 0)%Z then (sourceSize =? candidateSize)%Z else
  let tolerancePercent := if f64_ltb tolerancePercent f64_zero then f64_zero else tolerancePercent in
  if f64_eqb tolerancePercent f64_zero then (sourceSize =? candidateSize)%Z else
  let tolerance := f64_mul (f64_of_Z sourceSize) (f64_div tolerancePercent hundred) in
  let minAcceptableSize := f64_sub (f64_of_Z sourceSize) tolerance in
  let maxAcceptableSize := f64_add (f64_of_Z sourceSize) tolerance in
  let candidateSizeFloat := f64_of_Z candidateSize in
  f64_leb minAcceptableSize candidateSizeFloat && f64_leb candidateSizeFloat maxAcceptableSize.

Definition isWebSourceRelabel (r : MapRange) (source candidate : Release) (sourceName candidateName : string)
    (sourceTitles candidateTitles : list string) (findIndividualEpisodes : bool) : bool :=
  if negb (isWebSource (normalizeSource (r_Source source))) || negb (isWebSource (normalizeSource (r_Source candidate)))
  then false
  else
    let probe := set_source (r_Source source) candidate in
    bool_decide (releasesMatchWithReasonAndNamesAndTitles r false source probe sourceName candidateName sourceTitles
                   candidateTitles findIndividualEpisodes = None).

Definition shouldAcceptWebSourceRelabel (r : MapRange) (source candidate : Release) (sourceName candidateName : string)
    (sourceTitles candidateTitles : list string) (findIndividualEpisodes ignoreSizeCheck : bool)
    (sourceSize candidateSize : Z) (tolerancePercent : float64) (mismatchReason : string) : bool :=
  if negb (bool_decide (mismatchReason = sourceMismatchReason)) then false
  else if negb ignoreSizeCheck && negb (isSizeWithinTolerance sourceSize candidateSize tolerancePercent) then false
  else isWebSourceRelabel r source candidate sourceName candidateName sourceTitles candidateTitles findIndividualEpisodes.
End validators.

(** ** What a match means *)

Section meaning.
Context `{!UnicodeCase, !UnicodeTables, !ReleaseParser}.

Lemma first_reason_none checks : first_reason checks = None ↔ Forall (λ c, c.1 = false) checks.
Proof.
  induction checks as [|[b reason] checks IH]; [done|]. cbn [first_reason]. rewrite Forall_cons. cbn [fst].
  destruct b; [naive_solver|]. rewrite IH. naive_solver.
Qed.

Lemma or_else_none a b : or_else a b = None ↔ a = None ∧ b = None.
Proof. destruct a; naive_solver. Qed.

Lemma given_false s : given s = false ↔ s = ""%string.
Proof. unfold given. by rewrite negb_false_iff, bool_decide_eq_true. Qed.

Lemma differ_false a b : differ a b = false ↔ a = b.
Proof. unfold differ. by rewrite negb_false_iff, bool_decide_eq_true. Qed.

(** Two texts agree when one of them is missing or they are the same. *)
Definition agree (a b : string) : Prop := a = ""%string ∨ b = ""%string ∨ a = b.

Lemma conflict_false a b : conflict a b = false ↔ agree a b.
Proof. unfold conflict, agree. rewrite !andb_false_iff, !given_false, differ_false. tauto. Qed.

Lemma agree_sym a b : agree a b ↔ agree b a.
Proof. unfold agree. naive_solver. Qed.

(** The releases have a title in common, the same artist, year, date and kind as
    far as both say. *)
Definition same_work (source candidate : Release) (sourceName candidateName : string) (sourceTitles candidateTitles : list string) : Prop :=
  (∃ title, title ∈ all_titles source sourceName sourceTitles ∧ title ∈ all_titles candidate candidateName candidateTitles) ∧
  (r_Artist source = "" ∨ r_Artist candidate = "" ∨
     normalizeLowerTrim (r_Artist source) = normalizeLowerTrim (r_Artist candidate)) ∧
  (r_Year source ≤ 0 ∨ r_Year candidate ≤ 0 ∨ r_Year source = r_Year candidate)%Z ∧
  (has_date source = false ∨ has_date candidate = false ∨
     r_Month source = r_Month candidate ∧ r_Day source = r_Day candidate) ∧
  (isTVRelease source || isTVRelease candidate = true ∨ r_Type source = UnknownType ∨ r_Type candidate = UnknownType ∨
     r_Type source = r_Type candidate).

(** Television is matched with television: the same season as far as both say,
    packs with packs unless episodes are looked for in packs, and the same
    episode. *)
Definition same_episodes (source candidate : Release) (findIndividualEpisodes : bool) : Prop :=
  isTVRelease source = isTVRelease candidate ∧
  (isTVRelease source = true →
    (r_Series source ≤ 0 ∨ r_Series candidate ≤ 0 ∨ r_Series source = r_Series candidate)%Z ∧
    (findIndividualEpisodes = false → isTVSeasonPack source = isTVSeasonPack candidate) ∧
    (isTVSeasonPack source = false → isTVSeasonPack candidate = false → r_Episode source = r_Episode candidate)).

(** The group, or the site it is parsed as, and the checksum of the source. *)
Definition same_group (source candidate : Release) : Prop :=
  let group r := normalizeLowerTrim (r_Group r) in
  let site r := normalizeLowerTrim (r_Site r) in
  let sum r := normalizeLowerTrim (r_Sum r) in
  (group source ≠ "" → group source = (if bool_decide (group candidate = "") then site candidate else group candidate)) ∧
  agree (site source) (if bool_decide (site candidate = "") then group candidate else site candidate) ∧
  (sum source ≠ "" → sum source = sum candidate).

(** The encodings agree but for the source. *)
Definition same_encoding (source candidate : Release) : Prop :=
  resolutions_differ (r_Resolution source) (r_Resolution candidate) = false ∧
  collections_differ source candidate (isTVRelease source || isTVRelease candidate) = false ∧
  (r_Codec source = [] ∨ r_Codec candidate = [] ∨
     joinNormalizedCodecSlice (r_Codec source) = joinNormalizedCodecSlice (r_Codec candidate)) ∧
  joinNormalizedHDRSlice (r_HDR source) = joinNormalizedHDRSlice (r_HDR candidate) ∧
  agree (normalizeLowerTrim (r_BitDepth source)) (normalizeLowerTrim (r_BitDepth candidate)).

Definition same_flags (source candidate : Release) : Prop :=
  let same_list l l' := l = [] ∨ l' = [] ∨ joinNormalizedSlice l = joinNormalizedSlice l' in
  let same_field a b := agree (normalizeLowerTrim a) (normalizeLowerTrim b) in
  same_list (r_Cut source) (r_Cut candidate) ∧ same_list (r_Edition source) (r_Edition candidate) ∧
  languages_differ (r_Language source) (r_Language candidate) = false ∧
  same_field (r_Version source) (r_Version candidate) ∧ same_field (r_Disc source) (r_Disc candidate) ∧
  same_field (r_Platform source) (r_Platform candidate) ∧ same_field (r_Arch source) (r_Arch candidate).

(** The same variants, those of single releases only between such. *)
Definition same_variants (source candidate : Release) : Prop :=
  releaseVariants strictVariantOverrides source = releaseVariants strictVariantOverrides candidate ∧
  (isSeasonPack source = true ∨ isSeasonPack candidate = true ∨
   releaseVariants nonPackVariantOverrides source = releaseVariants nonPackVariantOverrides candidate).

(** Everything but the source agrees. *)
Definition compatible_but_source (source candidate : Release) sourceName candidateName sourceTitles candidateTitles
    (findIndividualEpisodes : bool) : Prop :=
  same_work source candidate sourceName candidateName sourceTitles candidateTitles ∧
  same_episodes source candidate findIndividualEpisodes ∧ same_group source candidate ∧ same_encoding source candidate ∧
  same_flags source candidate ∧ same_variants source candidate.

Definition source_agrees (source candidate : Release) : Prop :=
  sourcesCompatible (normalizeSource (r_Source source)) (normalizeSource (r_Source candidate)) = true.

(** *** Each validator *)

Lemma overlap_spec (a b : gset string) : normalizedTitleSetsOverlap a b = true ↔ ∃ t, t ∈ a ∧ t ∈ b.
Proof.
  unfold normalizedTitleSetsOverlap. rewrite existsb_exists. setoid_rewrite <- list_elem_of_In. setoid_rewrite elem_of_elements.
  by setoid_rewrite bool_decide_eq_true.
Qed.

Lemma andb3_false a b c : a && b && c = false ↔ a = false ∨ b = false ∨ c = false.
Proof. rewrite !andb_false_iff. tauto. Qed.

Lemma validateTitle_none source candidate sn cn st ct isTV :
  isTV = isTVRelease source || isTVRelease candidate →
  validateTitleArtistAndDates source candidate sn cn st ct isTV = None ↔ same_work source candidate sn cn st ct.
Proof.
  intros ->. unfold validateTitleArtistAndDates, same_work. rewrite first_reason_none. repeat rewrite Forall_cons. cbn [fst].
  rewrite !andb3_false, orb_false_iff, !bool_decide_eq_false, !given_false, differ_false, negb_false_iff, overlap_spec.
  rewrite !andb_false_iff, !Z.ltb_ge, !negb_false_iff, !bool_decide_eq_true, orb_false_iff, !negb_false_iff, !Z.eqb_eq.
  split.
  - intros (_ & Ht & Ha & Hy & Hd & Hk & _). split_and!; [exact Ht|exact Ha|tauto|tauto|tauto].
  - intros (Ht & Ha & Hy & Hd & Hk). split_and!; [| |exact Ht|exact Ha|tauto|tauto|tauto|done]; destruct Ht as (t & ? & ?); set_solver.
Qed.

Lemma validateTV_none source candidate find isTV :
  isTV = isTVRelease source || isTVRelease candidate →
  validateTVStructure source candidate find isTV = None ↔ same_episodes source candidate find.
Proof.
  intros ->. unfold validateTVStructure, same_episodes.
  destruct (isTVRelease source) eqn:Es, (isTVRelease candidate) eqn:Ec; cbn [orb negb andb]; [|naive_solver..].
  destruct (_ && _ && _) eqn:Ese.
  { split; [done|]. intros [_ Hc]. destruct (Hc eq_refl) as (Hs & _). apply andb_true_iff in Ese as [[? ?]%andb_true_iff Hne].
    bool_hyps. lia. }
  assert (r_Series source ≤ 0 ∨ r_Series candidate ≤ 0 ∨ r_Series source = r_Series candidate)%Z as Hs.
  { rewrite !andb_false_iff, !Z.ltb_ge, negb_false_iff, Z.eqb_eq in Ese. tauto. }
  assert (negb (isTVSeasonPack source) && negb (isTVSeasonPack candidate) && negb (r_Episode source =? r_Episode candidate)%Z = false ↔
    (isTVSeasonPack source = false → isTVSeasonPack candidate = false → r_Episode source = r_Episode candidate)) as He.
  { rewrite !andb_false_iff, !negb_false_iff, Z.eqb_eq. destruct (isTVSeasonPack source), (isTVSeasonPack candidate); naive_solver. }
  destruct (negb (isTVSeasonPack source) && _ && _); destruct find; cbn [negb];
    destruct (Bool.eqb_spec (isTVSeasonPack source) (isTVSeasonPack candidate)); cbn [negb]; naive_solver.
Qed.

Lemma validateGroup_none source candidate :
  validateGroupSiteAndChecksum source candidate = None ↔ same_group source candidate.
Proof.
  unfold validateGroupSiteAndChecksum, same_group. rewrite first_reason_none. repeat rewrite Forall_cons. cbn [fst].
  unfold agree. set (g := normalizeLowerTrim (r_Group source)). set (st := normalizeLowerTrim (r_Site source)).
  set (u := normalizeLowerTrim (r_Sum source)). set (u' := normalizeLowerTrim (r_Sum candidate)).
  set (gi := if bool_decide (normalizeLowerTrim (r_Group candidate) = "") then _ else _).
  set (si := if bool_decide (normalizeLowerTrim (r_Site candidate) = "") then _ else _).
  rewrite !andb_false_iff, !orb_false_iff, !given_false, !negb_false_iff, !differ_false. unfold given.
  rewrite !negb_true_iff, !bool_decide_eq_false.
  assert (∀ x y : string, x = "" ∨ y ≠ "" ∧ x = y ↔ (x ≠ "" → x = y)) as Himp.
  { intros x y. destruct (decide (x = "")) as [->|]; naive_solver congruence. }
  rewrite !Himp. split; [intros (? & ? & ? & _); auto|intros (? & ? & ?); auto].
Qed.

Lemma nonempty_false {A} (l : list A) : nonempty l = false ↔ l = [].
Proof. by destruct l. Qed.

Lemma validateFormat_none source candidate isTV :
  isTV = isTVRelease source || isTVRelease candidate →
  validateFormatAndCodec source candidate isTV = None ↔ source_agrees source candidate ∧ same_encoding source candidate.
Proof.
  intros ->. unfold validateFormatAndCodec, source_agrees, same_encoding. rewrite first_reason_none. repeat rewrite Forall_cons.
  cbn [fst]. rewrite negb_false_iff, andb3_false, !nonempty_false, !differ_false, conflict_false. naive_solver.
Qed.

Lemma validateFlags_none source candidate : validateMetadataFlags source candidate = None ↔ same_flags source candidate.
Proof.
  unfold validateMetadataFlags, same_flags, fields_differ, lists_differ. rewrite first_reason_none. repeat rewrite Forall_cons.
  cbn [fst]. rewrite !andb3_false, !nonempty_false, !differ_false, !conflict_false. naive_solver.
Qed.

Lemma elem_of_visit (r : MapRange) site s x : x ∈ visit r site s ↔ x ∈ s.
Proof.
  unfold visit. rewrite list_elem_of_fmap. split.
  - intros ([y []] & -> & Hy). apply elem_of_range, lookup_gset_to_gmap_Some in Hy as [? _]. done.
  - intros Hx. exists (x, ()). split; [done|]. apply elem_of_range. by apply lookup_gset_to_gmap_Some.
Qed.

Lemma find_none {A} (f : A → bool) l : List.find f l = None ↔ ∀ x, x ∈ l → f x = false.
Proof.
  split.
  - intros Hf x Hx%list_elem_of_In. by eapply find_none.
  - intros Hf. destruct (List.find f l) as [x|] eqn:E; [|done]. apply find_some in E as [Hin%list_elem_of_In Hx].
    by rewrite Hf in Hx.
Qed.

Lemma findMismatch_none (r : MapRange) o source candidate :
  findMismatch r o source candidate = None ↔ releaseVariants o source ⊆ releaseVariants o candidate.
Proof.
  unfold findMismatch. rewrite find_none. setoid_rewrite elem_of_visit. setoid_rewrite negb_false_iff.
  by setoid_rewrite bool_decide_eq_true.
Qed.

Lemma validateVariants_none (r : MapRange) source candidate :
  validateReleaseVariants r source candidate = None ↔ same_variants source candidate.
Proof.
  unfold validateReleaseVariants, same_variants, checkVariantsCompatible.
  pose proof (findMismatch_none r strictVariantOverrides source candidate) as Hm1.
  pose proof (findMismatch_none r strictVariantOverrides candidate source) as Hm2.
  pose proof (findMismatch_none r nonPackVariantOverrides source candidate) as Hm3.
  pose proof (findMismatch_none r nonPackVariantOverrides candidate source) as Hm4.
  assert (∀ a b : gset string, a = b ↔ a ⊆ b ∧ b ⊆ a) as Heq.
  { intros a b. split; [by intros ->|]. intros [? ?]. by apply (anti_symm (⊆)). }
  rewrite !Heq, <- Hm1, <- Hm2, <- Hm3, <- Hm4.
  destruct (findMismatch r strictVariantOverrides source candidate), (findMismatch r strictVariantOverrides candidate source);
    [naive_solver..|].
  destruct (isSeasonPack source), (isSeasonPack candidate); cbn [orb]; [naive_solver..|].
  destruct (findMismatch r nonPackVariantOverrides source candidate), (findMismatch r nonPackVariantOverrides candidate source);
    naive_solver.
Qed.

Lemma match_none (r : MapRange) source candidate sn cn st ct find :
  releasesMatchWithReasonAndNamesAndTitles r false source candidate sn cn st ct find = None ↔
  source_agrees source candidate ∧ compatible_but_source source candidate sn cn st ct find.
Proof.
  unfold releasesMatchWithReasonAndNamesAndTitles, compatible_but_source. cbv zeta. rewrite !or_else_none.
  rewrite validateTitle_none, validateTV_none, validateGroup_none, validateFormat_none, validateFlags_none,
    validateVariants_none by done. naive_solver.
Qed.

(** C10. Two different releases match exactly when they have a title in common and
    agree, as far as both say, on artist, date and kind, on season and episode,
    on group, site and checksum, on source, resolution, collection, codecs, HDR
    and bit depth, on cut, edition, language, version, disc, platform and
    architecture, and have the same variants; no order of a map matters. *)
Theorem releases_match_exact (r : MapRange) (source candidate : Release) (sourceName candidateName : string)
    (sourceTitles candidateTitles : list string) (findIndividualEpisodes : bool) :
  releasesMatchWithReasonAndNamesAndTitles r false source candidate sourceName candidateName sourceTitles candidateTitles
    findIndividualEpisodes = None ↔
  source_agrees source candidate ∧
  same_work source candidate sourceName candidateName sourceTitles candidateTitles ∧
  same_episodes source candidate findIndividualEpisodes ∧ same_group source candidate ∧ same_encoding source candidate ∧
  same_flags source candidate ∧ same_variants source candidate.
Proof. apply match_none. Qed.

(** *** Both directions *)

Lemma sourcesCompatible_refl a : sourcesCompatible a a = true.
Proof. unfold sourcesCompatible. rewrite (bool_decide_true (a = a)) by done. by case_match. Qed.

Lemma sourcesCompatible_sym a b : sourcesCompatible a b = sourcesCompatible b a.
Proof.
  unfold sourcesCompatible. rewrite (orb_comm (bool_decide (a = ""))), (orb_comm (negb (isWebSource a))),
    (orb_comm (bool_decide (a = "WEB"))), (bool_decide_ext (a = b) (b = a)) by done. done.
Qed.

Lemma resolutions_differ_sym a b : resolutions_differ a b = resolutions_differ b a.
Proof. unfold resolutions_differ. rewrite (bool_decide_ext (_ = normalizeLowerTrim b) (normalizeLowerTrim b = normalizeLowerTrim a)) by done.
  by rewrite orb_comm. Qed.

Lemma collections_differ_sym a b tv : collections_differ a b tv = collections_differ b a tv.
Proof.
  unfold collections_differ. rewrite (bool_decide_ext (_ = normalizeLowerTrim (r_Collection b))
    (normalizeLowerTrim (r_Collection b) = normalizeLowerTrim (r_Collection a))) by done.
  by rewrite (orb_comm (r_Series a =? 0)%Z), (orb_comm (negb (given (normalizeLowerTrim (r_Collection a))))).
Qed.

Lemma languages_differ_sym a b : languages_differ a b = languages_differ b a.
Proof.
  unfold languages_differ. rewrite (bool_decide_ext (_ = joinNormalizedSlice b) (joinNormalizedSlice b = joinNormalizedSlice a)) by done.
  by rewrite andb_comm.
Qed.

(** Both releases name a group, a site and a checksum, or neither does. *)
Definition equally_tagged (a b : Release) : Prop :=
  (normalizeLowerTrim (r_Group a) = "" ↔ normalizeLowerTrim (r_Group b) = "") ∧
  (normalizeLowerTrim (r_Site a) = "" ↔ normalizeLowerTrim (r_Site b) = "") ∧
  (normalizeLowerTrim (r_Sum a) = "" ↔ normalizeLowerTrim (r_Sum b) = "").

Lemma same_group_sym a b : equally_tagged a b → same_group a b → same_group b a.
Proof.
  intros (Hg & Hs & Hu). unfold same_group, agree. cbv zeta.
  destruct (decide (normalizeLowerTrim (r_Group a) = "")) as [Ega|Nga], (decide (normalizeLowerTrim (r_Site a) = "")) as [Esa|Nsa];
    rewrite ?(bool_decide_true _ Ega), ?(bool_decide_true _ (proj1 Hg Ega)), ?(bool_decide_true _ Esa), ?(bool_decide_true _ (proj1 Hs Esa));
    try rewrite (bool_decide_false _ Nga); try rewrite (bool_decide_false _ Nsa);
    try rewrite (bool_decide_false (normalizeLowerTrim (r_Group b) = "")) by tauto;
    try rewrite (bool_decide_false (normalizeLowerTrim (r_Site b) = "")) by tauto;
    intros (Pg & Ps & Pu); naive_solver congruence.
Qed.

Lemma same_episodes_sym a b find : same_episodes a b find → same_episodes b a find.
Proof.
  unfold same_episodes. intros [Htv Heq]. split; [done|]. rewrite <- Htv. intros Ha. destruct (Heq Ha) as (Hs & Hp & He).
  split_and!; [naive_solver lia|intros; symmetry; auto|intros; symmetry; auto].
Qed.

Lemma compatible_sym a b an bn at' bt find :
  equally_tagged a b → source_agrees a b ∧ compatible_but_source a b an bn at' bt find →
  source_agrees b a ∧ compatible_but_source b a bn an bt at' find.
Proof.
  intros Htag (Hsrc & Hw & He & Hg & Hen & Hf & Hv). split; [by unfold source_agrees; rewrite sourcesCompatible_sym|].
  split_and!.
  - destruct Hw as (Ht & Ha & Hy & Hd & Hk). rewrite orb_comm in Hk. split_and!; [naive_solver|naive_solver|lia|naive_solver|naive_solver].
  - by apply same_episodes_sym.
  - by apply same_group_sym.
  - destruct Hen as (Hr & Hc & Hco & Hh & Hb). unfold same_encoding. rewrite resolutions_differ_sym, collections_differ_sym, orb_comm.
    rewrite agree_sym. split_and!; [done|done|naive_solver|done|done].
  - destruct Hf as (Hc & Hed & Hl & Hver & Hdi & Hpl & Har).
    split_and!; [naive_solver|naive_solver|by rewrite languages_differ_sym|by apply agree_sym..].
  - destruct Hv as [Hs Hn]. split; [done|naive_solver].
Qed.

(** C19. A match does not depend on which of the releases is searched for, when
    both name a group, a site and a checksum or neither does; and looking for
    episodes in packs only adds pairs of which exactly one is a pack. *)
Theorem match_symmetric (r r' : MapRange) (source candidate : Release) (sourceName candidateName : string)
    (sourceTitles candidateTitles : list string) (find : bool) :
  equally_tagged source candidate →
  (releasesMatchWithReasonAndNamesAndTitles r false source candidate sourceName candidateName sourceTitles candidateTitles find = None ↔
   releasesMatchWithReasonAndNamesAndTitles r' false candidate source candidateName sourceName candidateTitles sourceTitles find = None) ∧
  (releasesMatchWithReasonAndNamesAndTitles r false source candidate sourceName candidateName sourceTitles candidateTitles false = None ↔
   releasesMatchWithReasonAndNamesAndTitles r' false source candidate sourceName candidateName sourceTitles candidateTitles true = None ∧
   (isTVRelease source = true → isTVSeasonPack source = isTVSeasonPack candidate)).
Proof.
  intros Htag. rewrite !match_none. split.
  - split; apply compatible_sym; [done|]. unfold equally_tagged in *. tauto.
  - unfold compatible_but_source, same_episodes. naive_solver.
Qed.

(** *** Relabelled sources *)

Lemma web_sources a : isWebSource a = true ↔ a = "WEB" ∨ a = "WEBDL" ∨ a = "WEBRIP".
Proof. unfold isWebSource. rewrite bool_decide_eq_true, !elem_of_cons, elem_of_nil. naive_solver. Qed.

Lemma web_incompatible a b :
  isWebSource a = true → isWebSource b = true →
  sourcesCompatible a b = false ↔ (a = "WEBDL" ∧ b = "WEBRIP" ∨ a = "WEBRIP" ∧ b = "WEBDL").
Proof. intros [->|[->| ->]]%web_sources [->|[->| ->]]%web_sources; vm_compute; naive_solver. Qed.

(** C20. A candidate that was rejected is accepted as a relabelled web source
    exactly when the source is the reason, one release is a WEB-DL and the other a
    WEBRip, they agree on everything else, and the sizes are close enough or do
    not count. *)
Theorem relabel_only_web_sources (r : MapRange) (source candidate : Release) (sourceName candidateName : string)
    (sourceTitles candidateTitles : list string) (find ignoreSizeCheck : bool) (sourceSize candidateSize : Z)
    (tolerance : float64) (reason : string) :
  releasesMatchWithReasonAndNamesAndTitles r false source candidate sourceName candidateName sourceTitles candidateTitles find = Some reason →
  shouldAcceptWebSourceRelabel r source candidate sourceName candidateName sourceTitles candidateTitles find ignoreSizeCheck
    sourceSize candidateSize tolerance reason = true ↔
  reason = sourceMismatchReason ∧ (ignoreSizeCheck = true ∨ isSizeWithinTolerance sourceSize candidateSize tolerance = true) ∧
  compatible_but_source source candidate sourceName candidateName sourceTitles candidateTitles find ∧
  (normalizeSource (r_Source source) = "WEBDL" ∧ normalizeSource (r_Source candidate) = "WEBRIP" ∨
   normalizeSource (r_Source source) = "WEBRIP" ∧ normalizeSource (r_Source candidate) = "WEBDL").
Proof.
  intros Hm. unfold shouldAcceptWebSourceRelabel. case_bool_decide as Hr; cbn [negb]; [|split; [done|]; by intros (? & _)].
  destruct ignoreSizeCheck, (isSizeWithinTolerance sourceSize candidateSize tolerance); cbn [negb andb];
    [..|split; [done|]; by intros (_ & [?|?] & _)].
  all: unfold isWebSourceRelabel.
  all: destruct (isWebSource (normalizeSource (r_Source source))) eqn:Ws; cbn [negb orb];
    [|split; [done|]; intros (_ & _ & _ & [[E _]|[E _]]); by rewrite E in Ws].
  all: destruct (isWebSource (normalizeSource (r_Source candidate))) eqn:Wc; cbn [negb];
    [|split; [done|]; intros (_ & _ & _ & [[_ E]|[_ E]]); by rewrite E in Wc].
  all: rewrite bool_decide_eq_true, match_none.
  all: change (compatible_but_source source (set_source (r_Source source) candidate)) with (compatible_but_source source candidate).
  all: assert (source_agrees source (set_source (r_Source source) candidate)) as Hp by apply sourcesCompatible_refl.
  all: assert (¬ (source_agrees source candidate ∧ compatible_but_source source candidate sourceName candidateName sourceTitles candidateTitles find))
    as Hno by (rewrite <- (match_none r); congruence).
  all: pose proof (web_incompatible _ _ Ws Wc) as Hweb; unfold source_agrees in Hno at 1.
  all: split; [intros [_ Hc]; split_and!; [done|auto|exact Hc|apply Hweb, not_true_iff_false; intros E; by apply Hno]|
    intros (_ & _ & Hc & _); by split].
Qed.
End meaning.

(** ** Runs *)

Section runs.
#[local] Existing Instance AsciiCase.
#[local] Existing Instance AsciiTables.

(** A parser that takes a name for the title. *)
Definition titled (title : string) : Release :=
  MkParsed UnknownType "" title "" "" 0 0 0 0 0 "" "" "" [] [] "" [] [] [] [] [] "" "" "" "" "" "" "".
#[local] Instance PlainParser : ReleaseParser := {| ParseString := titled; Parse := titled |}.

(** An episode by title, season, episode, source and group. *)
Definition episode (title : string) (series number : Z) (source group : string) : Release :=
  MkParsed Episode "" title "" "" 0 0 0 series number source "1080p" "NF" ["x264"] [] "" [] [] [] [] [] "" "" "" "" group "" "".

Definition web_rip : Release := episode "Bob's Show" 1 2 "WEBRip" "GRP".
Definition web_dl : Release := episode "bobs show" 1 2 "WEB-DL" "grp".
Definition season_web : Release := episode "Bobs Show" 1 0 "WEB" "GRP".

Lemma match_symmetric_witness :
  releasesMatchWithReasonAndNamesAndTitles key_order false season_web web_dl "" "" [] [] true = None ∧
  releasesMatchWithReasonAndNamesAndTitles reverse_order false web_dl season_web "" "" [] [] true = None ∧
  releasesMatchWithReasonAndNamesAndTitles key_order false season_web web_dl "" "" [] [] false ≠ None.
Proof.
  assert (equally_tagged season_web web_dl) as Htag by (split_and!; vm_compute; naive_solver).
  destruct (match_symmetric key_order reverse_order season_web web_dl "" "" [] [] true Htag) as [Hsym _].
  assert (releasesMatchWithReasonAndNamesAndTitles key_order false season_web web_dl "" "" [] [] true = None) as Hm by by vm_compute.
  split; [done|]. split; [by apply Hsym|]. by vm_compute.
Defined.

Definition five_percent : float64 := f64_of_Z 5.

Lemma relabel_only_web_sources_witness :
  releasesMatchWithReasonAndNamesAndTitles key_order false web_rip web_dl "" "" [] [] false = Some sourceMismatchReason ∧
  shouldAcceptWebSourceRelabel key_order web_rip web_dl "" "" [] [] false false 1000 1040 five_percent sourceMismatchReason = true ∧
  compatible_but_source web_rip web_dl "" "" [] [] false.
Proof.
  assert (releasesMatchWithReasonAndNamesAndTitles key_order false web_rip web_dl "" "" [] [] false = Some sourceMismatchReason)
    as Hm by by vm_compute.
  split; [done|].
  assert (shouldAcceptWebSourceRelabel key_order web_rip web_dl "" "" [] [] false false 1000 1040 five_percent sourceMismatchReason = true)
    as Ha by by vm_compute.
  split; [done|].
  by apply (relabel_only_web_sources key_order web_rip web_dl "" "" [] [] false false 1000 1040 five_percent sourceMismatchReason Hm) in Ha
    as (_ & _ & ? & _).
Defined.

(** A release without a group matches one with a group, but not the other way
    round. *)
Example group_matches_one_way :
  releasesMatch key_order false (episode "Show" 1 2 "WEB-DL" "") (episode "Show" 1 2 "WEB-DL" "GRP") false = true ∧
  releasesMatch key_order false (episode "Show" 1 2 "WEB-DL" "GRP") (episode "Show" 1 2 "WEB-DL" "") false = false.
Proof. split; by vm_compute. Qed.

(** Plain web sources match both kinds, which do not match each other. *)
Example web_not_transitive :
  releasesMatch key_order false web_rip (episode "Bobs Show" 1 2 "WEB" "GRP") false = true ∧
  releasesMatch key_order false (episode "Bobs Show" 1 2 "WEB" "GRP") web_dl false = true ∧
  releasesMatch key_order false web_rip web_dl false = false.
Proof. split_and!; by vm_compute. Qed.

(** The alias [WEB-RIP] of [pkg/releases] is not known here. *)
Example web_rip_hyphen :
  sourcesCompatible (normalizeSource "WEB-Rip") (normalizeSource "WEBRip") = false ∧ NormalizeSource "WEB-Rip" = NormalizeSource "WEBRip".
Proof. split; by vm_compute. Qed.

(** The announce without a collection matches the torrent with one. *)
Example webhook_fallback :
  let announced := set_collection "" web_dl in
  releasesMatch key_order false announced web_dl false = false ∧
  releasesMatchWebhook key_order false announced web_dl false "hdb" = true ∧
  releasesMatchWebhook key_order false announced web_dl false "btn" = false.
Proof. split_and!; by vm_compute. Qed.
End runs.
