(* ===== verification/CrossFiles.v ===== *)
(** * [internal/services/crossseed/matching.go]: do the files of two torrents match?

    The comparison of the files of a torrent with those of a candidate: the
    same files, the episodes of a pack, or the same size. *)

From Stdlib Require Import ZArith Lia Ascii SpecFloat.
From stdpp Require Import base numbers list strings gmap sorting.
From S2P Require Import Prelude.
From S2P Require Import GoStrings.
From S2P Require Import GoFloat.
From S2P Require Import GoPath.
From S2P Require Import Normalizer.
From S2P Require Import UnicodeText.
From S2P Require Import FileAlign.
From S2P Require Import CrossRelease.
From S2P Require Import CrossMatch.

Open Scope qui_scope.

(** The sizes under the keys of files. *)
Abbreviation KeySizes := (gmap releaseKey Z).

(** What is left of the files of a torrent: those that count, their size, and
    the size of the largest file for each key. *)
Record FileScan := MkScan { fs_files : list TorrentFile; fs_total : Z; fs_keys : KeySizes }.

Inductive NoMatchReason : Type :=
| LayoutMismatch (source candidate : string)
| NoUsableSourceFiles
| NoUsableExistingFiles
| SizeMismatch (sourceSize candidateSize : Z) (diffPercent tolerancePercent : float64)
| FileCountMismatch (source existing : nat)
| NoMetadata
| MetadataMismatch
| StructureDiffers.

(** [Reason] is the data of the text; there is none for a match. *)
Record MatchResult := MkMatchResult { MatchType : string; Reason : option NoMatchReason }.

(** The constant 0.8. *)
Definition four_fifths : float64 := f64_const 7205759403792794 (-53).

(** [superset] has the key with the same size. *)
Definition matching_keys (subset superset : KeySizes) : nat :=
  size (filter (λ kv, superset !! kv.1 = Some kv.2) subset).

Definition checkPartialMatch (subset superset : KeySizes) : bool :=
  if (size subset =? 0)%nat || (size superset =? 0)%nat then false
  else f64_leb (f64_mul (f64_of_Z (Z.of_nat (size subset))) four_fifths) (f64_of_Z (Z.of_nat (matching_keys subset superset))).

(** The files of the source by name; a later one of the same name counts. *)
Definition source_map (sourceFiles : list TorrentFile) : gmap string Z :=
  foldl (λ m f, <[tf_Name f := tf_Size f]> m) ∅ sourceFiles.

Definition streamingExactMatch (sourceFiles candidateFiles : list TorrentFile) : bool :=
  if negb (length sourceFiles =? length candidateFiles)%nat then false
  else forallb (λ cf, bool_decide (source_map sourceFiles !! tf_Name cf = Some (tf_Size cf))) candidateFiles.

(** The first of the largest files, with a size above zero. *)
Definition largest (files : list TorrentFile) : string * Z :=
  foldl (λ acc f, if (acc.2 <? tf_Size f)%Z then (tf_Name f, tf_Size f) else acc) ("", 0%Z) files.

Section files.
Context `{!UnicodeCase, !UnicodeTables, !ReleaseParser}.

Definition base_of (path : string) : string := ToLower (TrimSuffix (Base path) (Ext path)).

Definition streamingLargestFileMatch (sourceFiles candidateFiles : list TorrentFile) : bool :=
  let '(srcPath, srcSize) := largest sourceFiles in
  let '(candPath, candSize) := largest candidateFiles in
  if ((0 <? srcSize) && (srcSize =? candSize))%Z then
    let srcBase := base_of srcPath in
    let candBase := base_of candPath in
    negb (bool_decide (srcBase = "")) && bool_decide (srcBase = candBase)
  else false.

Definition file_key (torrentRelease : Release) (f : TorrentFile) : releaseKey :=
  makeReleaseKey (enrichReleaseFromTorrent (Parse (tf_Name f)) torrentRelease).

Definition keep_larger (key : releaseKey) (n : Z) (keys : KeySizes) : KeySizes :=
  match keys !! key with
  | Some existingSize => if (existingSize <? n)%Z then <[key := n]> keys else keys
  | None => <[key := n]> keys
  end.

Definition scan_file (torrentRelease : Release) (acc : FileScan) (f : TorrentFile) : FileScan :=
  if shouldIgnoreFile (tf_Name f) then acc else
  let key := file_key torrentRelease f in
  MkScan (fs_files acc ++ [f]) (i64 (fs_total acc + tf_Size f))
    (if bool_decide (key = no_key) then fs_keys acc else keep_larger key (tf_Size f) (fs_keys acc)).

Definition scan_files (torrentRelease : Release) (files : list TorrentFile) : FileScan :=
  foldl (scan_file torrentRelease) (MkScan [] 0 ∅) files.

Definition layouts_conflict (sourceFiles candidateFiles : list TorrentFile) : bool :=
  let sourceLayout := classifyTorrentLayout sourceFiles in
  let candidateLayout := classifyTorrentLayout candidateFiles in
  negb (bool_decide (sourceLayout = LayoutUnknown)) && negb (bool_decide (candidateLayout = LayoutUnknown)) &&
  negb (bool_decide (sourceLayout = candidateLayout)).

(** The partial matches; the empty text when there is none. *)
Definition partial_match (source candidate : KeySizes) : string :=
  if negb (size source =? 0)%nat && negb (size candidate =? 0)%nat then
    if checkPartialMatch source candidate then "partial-in-pack"
    else if checkPartialMatch candidate source then "partial-contains" else ""
  else "".

Definition getMatchType (sourceRelease candidateRelease : Release) (sourceFiles candidateFiles : list TorrentFile) : string :=
  if layouts_conflict sourceFiles candidateFiles then "" else
  let source := scan_files sourceRelease sourceFiles in
  let candidate := scan_files candidateRelease candidateFiles in
  if streamingExactMatch (fs_files source) (fs_files candidate) then "exact" else
  let partial := partial_match (fs_keys source) (fs_keys candidate) in
  if negb (bool_decide (partial = "")) then partial
  else if ((0 <? fs_total source) && (fs_total source =? fs_total candidate))%Z && nonempty (fs_files source) then "size"
  else if ((size (fs_keys source) =? 0)%nat && (size (fs_keys candidate) =? 0)%nat && nonempty (fs_files source) &&
           nonempty (fs_files candidate)) && streamingLargestFileMatch (fs_files source) (fs_files candidate)
  then "size" else "".

Definition buildNoMatchReason (source candidate : FileScan) (tolerancePercent : float64) : NoMatchReason :=
  if negb (nonempty (fs_files source)) then NoUsableSourceFiles
  else if negb (nonempty (fs_files candidate)) then NoUsableExistingFiles
  else if negb (fs_total source =? fs_total candidate)%Z then
    let diffPercent :=
      if (0 <? fs_total source)%Z then
        let diff := i64 (fs_total source - fs_total candidate) in
        let diff := if (diff <? 0)%Z then i64 (- diff) else diff in
        f64_mul (f64_div (f64_of_Z diff) (f64_of_Z (fs_total source))) hundred
      else f64_zero in
    SizeMismatch (fs_total source) (fs_total candidate) diffPercent tolerancePercent
  else if negb (length (fs_files source) =? length (fs_files candidate))%nat
  then FileCountMismatch (length (fs_files source)) (length (fs_files candidate))
  else if (size (fs_keys source) =? 0)%nat && (size (fs_keys candidate) =? 0)%nat then NoMetadata
  else if negb (size (fs_keys source) =? 0)%nat && negb (size (fs_keys candidate) =? 0)%nat then MetadataMismatch
  else StructureDiffers.

Definition getMatchTypeWithReason (sourceRelease candidateRelease : Release) (sourceFiles candidateFiles : list TorrentFile)
    (tolerancePercent : float64) : MatchResult :=
  if layouts_conflict sourceFiles candidateFiles then
    MkMatchResult "" (Some (LayoutMismatch (layoutDescription (classifyTorrentLayout sourceFiles))
                                           (layoutDescription (classifyTorrentLayout candidateFiles)))) else
  let source := scan_files sourceRelease sourceFiles in
  let candidate := scan_files candidateRelease candidateFiles in
  if streamingExactMatch (fs_files source) (fs_files candidate) then MkMatchResult "exact" None else
  let partial := partial_match (fs_keys source) (fs_keys candidate) in
  if negb (bool_decide (partial = "")) then MkMatchResult partial None
  else if (0 <? fs_total source)%Z && nonempty (fs_files source) &&
          isSizeWithinTolerance (fs_total source) (fs_total candidate) tolerancePercent then MkMatchResult "size" None
  else if ((size (fs_keys source) =? 0)%nat && (size (fs_keys candidate) =? 0)%nat && nonempty (fs_files source) &&
           nonempty (fs_files candidate)) && streamingLargestFileMatch (fs_files source) (fs_files candidate)
  then MkMatchResult "size" None
  else MkMatchResult "" (Some (buildNoMatchReason source candidate tolerancePercent)).

(** ** By title *)

Fixpoint leading_digits (l : bytes) : bytes :=
  match l with
  | a :: l => match digit_value a with Some _ => a :: leading_digits l | None => [] end
  | [] => []
  end.

(** The digits after the first dash between spaces, when a space follows them. *)
Fixpoint extract_episode (l : bytes) : bytes :=
  match l with
  | [] => []
  | a :: l' =>
    if (length l <=? 4)%nat then []
    else if HasPrefix (of_bytes l) " - " then
      let rest := drop 2 l' in
      let digits := leading_digits rest in
      match digits, drop (length digits) rest with
      | _ :: _, b :: _ => if bool_decide (b = " "%char) then digits else []
      | _, _ => []
      end
    else extract_episode l'
  end.

Definition extractEpisode (name : string) : string := of_bytes (extract_episode (to_bytes (ToLower name))).

(** Of several files with a key, the size of the last. *)
Definition title_keys (candidateRelease : Release) (candidateFiles : list TorrentFile) : KeySizes :=
  foldl (λ keys cf,
    if shouldIgnoreFile (tf_Name cf) then keys else
    let key := file_key candidateRelease cf in
    if bool_decide (key = no_key) then keys else <[key := tf_Size cf]> keys) ∅ candidateFiles.

Definition has_key (keys : KeySizes) (key : releaseKey) : bool := bool_decide (is_Some (keys !! key)).

(** The match by keys: the empty text when there is none. *)
Definition match_by_keys (target : Release) (keys : KeySizes) : string :=
  if ((0 <? r_Series target) && (0 <? r_Episode target))%Z then
    if has_key keys (MkReleaseKey (r_Series target) (r_Episode target) 0 0 0) then "partial-in-pack" else ""
  else if (0 <? r_Series target)%Z then
    if existsb (λ kv, (key_series kv.1 =? r_Series target) && (0 <? key_episode kv.1))%Z (map_to_list keys)
    then "partial-contains" else ""
  else if has_date target then
    if has_key keys (MkReleaseKey 0 0 (r_Year target) (r_Month target) (r_Day target)) then "partial-in-pack" else ""
  else
    if negb (size keys =? 0)%nat && has_key keys (makeReleaseKey target) then "partial-in-pack" else "".

Definition getMatchTypeFromTitle (targetName candidateName : string) (targetRelease candidateRelease : Release)
    (candidateFiles : list TorrentFile) : string :=
  let candidateReleases := title_keys candidateRelease candidateFiles in
  let found := match_by_keys targetRelease candidateReleases in
  if negb (bool_decide (found = "")) then found
  else if (size candidateReleases =? 0)%nat then
    let targetTitle := NormalizeForMatching (r_Title targetRelease) in
    let candidateTitle := NormalizeForMatching (r_Title candidateRelease) in
    if negb (bool_decide (targetTitle = "")) && bool_decide (targetTitle = candidateTitle) then
      let targetEp := extractEpisode targetName in
      let candidateEp := extractEpisode candidateName in
      if given targetEp && given candidateEp && bool_decide (targetEp = candidateEp) then "partial-in-pack"
      else if bool_decide (makeReleaseKey targetRelease = no_key) && negb (given targetEp) && negb (given candidateEp)
      then "release-match" else ""
    else ""
  else "".
End files.

(** ** Exact matches *)

Lemma source_map_lookup files n z : source_map files !! n = Some z → MkFile n z ∈ files.
Proof.
  unfold source_map. induction files as [|f files IH] using rev_ind; [done|].
  rewrite foldl_snoc. intros [[<- <-]|[_ Hl]]%lookup_insert_Some; apply elem_of_app; [right|left; auto].
  apply list_elem_of_singleton. by destruct f.
Qed.

Lemma source_map_elem files f : NoDup (tf_Name <$> files) → f ∈ files → source_map files !! tf_Name f = Some (tf_Size f).
Proof.
  unfold source_map. induction files as [|x files IH] using rev_ind; intros Hnd Hin; [by apply elem_of_nil in Hin|].
  rewrite foldl_snoc. rewrite fmap_app in Hnd. apply NoDup_app in Hnd as (Hnd & Hx & _).
  apply elem_of_app in Hin as [Hin|Hin].
  - rewrite lookup_insert_ne; [by apply IH|]. intros E. apply (Hx (tf_Name f)); [by apply list_elem_of_fmap_2|]. rewrite <- E. by left.
  - apply list_elem_of_singleton in Hin as ->. apply lookup_insert_eq.
Qed.

Lemma streamingExactMatch_spec source candidate :
  NoDup (tf_Name <$> source) → NoDup (tf_Name <$> candidate) →
  streamingExactMatch source candidate = true ↔ source ≡ₚ candidate.
Proof.
  intros Hs Hc. unfold streamingExactMatch. destruct (Nat.eqb_spec (length source) (length candidate)) as [Hl|Hl]; cbn [negb].
  2:{ split; [done|]. by intros E%Permutation_length. }
  rewrite forallb_forall. setoid_rewrite <- list_elem_of_In. setoid_rewrite bool_decide_eq_true. split.
  - intros Hall. symmetry. assert (candidate ⊆+ source) as Hsub.
    { apply NoDup_submseteq; [by eapply NoDup_fmap_1|]. intros f Hf. apply Hall, source_map_lookup in Hf. by destruct f. }
    apply submseteq_length_Permutation; [done|lia].
  - intros Hp f Hf. apply source_map_elem; [done|]. by rewrite Hp.
Qed.

(** ** The threshold *)

(** In floating point, [n * 0.8 <= m] is [4 n <= 5 m] for packs of up to 500
    episodes. *)
Definition max_keys : nat := 500.

Definition threshold_exact (n : nat) : bool :=
  let bound := f64_mul (f64_of_Z (Z.of_nat n)) four_fifths in
  forallb (λ m, Bool.eqb (f64_leb bound (f64_of_Z (Z.of_nat m))) (4 * n <=? 5 * m)%nat) (seq 0 (S n)).

Lemma threshold_all : forallb threshold_exact (seq 0 (S max_keys)) = true.
Proof. by vm_compute. Qed.

Lemma threshold_spec n m :
  n ≤ max_keys → m ≤ n →
  f64_leb (f64_mul (f64_of_Z (Z.of_nat n)) four_fifths) (f64_of_Z (Z.of_nat m)) = (4 * n <=? 5 * m)%nat.
Proof.
  intros Hn Hm. pose proof threshold_all as Hall. rewrite forallb_forall in Hall.
  specialize (Hall n). unfold threshold_exact in Hall. rewrite forallb_forall in Hall.
  apply Bool.eqb_prop, Hall; apply in_seq; lia.
Qed.

(** Four fifths of the keys are in [superset] with the same size. *)
Definition contained (subset superset : KeySizes) : Prop :=
  subset ≠ ∅ ∧ superset ≠ ∅ ∧ 4 * size subset ≤ 5 * matching_keys subset superset.

Lemma checkPartialMatch_spec subset superset :
  size subset ≤ max_keys → checkPartialMatch subset superset = true ↔ contained subset superset.
Proof.
  intros Hn. unfold checkPartialMatch, contained.
  destruct (Nat.eqb_spec (size subset) 0) as [E|E]; cbn [orb].
  { apply map_size_empty_inv in E. naive_solver. }
  destruct (Nat.eqb_spec (size superset) 0) as [E'|E'].
  { apply map_size_empty_inv in E'. naive_solver. }
  rewrite threshold_spec, Nat.leb_le; [|done|by apply map_size_filter].
  split; [|naive_solver]. intros ?. split_and!; [intros ->; by rewrite map_size_empty in E|intros ->; by rewrite map_size_empty in E'|done].
Qed.

(** ** What is compared *)

Section classified.
Context `{!UnicodeCase, !UnicodeTables, !ReleaseParser}.

Definition counted (files : list TorrentFile) : list TorrentFile := filter (λ f, shouldIgnoreFile (tf_Name f) = false) files.

Definition total_size (files : list TorrentFile) : Z := i64 (foldr (λ f n, tf_Size f + n)%Z 0%Z files).

Lemma total_size_snoc files f : i64 (total_size files + tf_Size f) = total_size (files ++ [f]).
Proof.
  unfold total_size. rewrite foldr_app. cbn [foldr].
  assert (∀ l z, foldr (λ f n, tf_Size f + n) z l = foldr (λ f n, tf_Size f + n) 0 l + z)%Z as Hadd.
  { induction l as [|x l IH]; intros z; cbn; [lia|]. rewrite IH. lia. }
  rewrite (Hadd files (tf_Size f + 0)%Z). generalize (foldr (λ f n, tf_Size f + n)%Z 0%Z files). intros a. unfold i64. f_equal.
  replace ((a + 2 ^ 63) mod 2 ^ 64 - 2 ^ 63 + tf_Size f + 2 ^ 63)%Z with ((a + 2 ^ 63) mod 2 ^ 64 + tf_Size f)%Z by lia.
  rewrite Zplus_mod_idemp_l. f_equal. lia.
Qed.

(** The largest of some sizes. *)
Definition max_of (l : list Z) : option Z := foldl (λ m n, Some (match m with Some m => Z.max m n | None => n end)) None l.

Lemma max_of_snoc l n : max_of (l ++ [n]) = Some (match max_of l with Some m => Z.max m n | None => n end).
Proof. unfold max_of. by rewrite foldl_snoc. Qed.

Lemma max_of_spec l n : max_of l = Some n ↔ n ∈ l ∧ ∀ x, x ∈ l → (x ≤ n)%Z.
Proof.
  revert n. induction l as [|y l IH] using rev_ind; intros n.
  { split; [done|]. by intros [?%elem_of_nil _]. }
  rewrite max_of_snoc. setoid_rewrite elem_of_app. setoid_rewrite list_elem_of_singleton.
  destruct (max_of l) as [m|] eqn:E.
  - destruct (proj1 (IH m) eq_refl) as [Hin Hmax]. split.
    + intros [= <-]. split; [destruct (Z.max_spec m y) as [[_ ->]|[_ ->]]; auto|]. intros x [Hx| ->]; [apply Hmax in Hx|]; lia.
    + intros [[Hn| ->] Hall]; f_equal; [apply Hmax in Hn|]; pose proof (Hall y (or_intror eq_refl)); pose proof (Hall m (or_introl Hin)); lia.
  - assert (l = []) as ->.
    { destruct l as [|x l _] using rev_ind; [done|]. by rewrite max_of_snoc in E. }
    split; [intros [= <-]; split; [auto|]; intros x [?%elem_of_nil| ->]; [done|lia]|]. by intros [[?%elem_of_nil| ->] _].
Qed.

(** The sizes of the files that count and have a key. *)
Definition sizes_with (torrentRelease : Release) (files : list TorrentFile) (key : releaseKey) : list Z :=
  tf_Size <$> filter (λ f, file_key torrentRelease f = key) (counted files).

Lemma keep_larger_lookup key n keys k :
  keep_larger key n keys !! k = if decide (key = k) then Some (match keys !! key with Some m => Z.max m n | None => n end) else keys !! k.
Proof.
  unfold keep_larger. destruct (keys !! key) as [m|] eqn:E; [destruct (Z.ltb_spec m n)|]; case_decide as Hk; subst;
    rewrite ?lookup_insert_eq, ?lookup_insert_ne, ?E by done; try done; f_equal; lia.
Qed.

Lemma scan_spec torrentRelease files :
  let s := scan_files torrentRelease files in
  fs_files s = counted files ∧ fs_total s = total_size (counted files) ∧
  ∀ key, fs_keys s !! key = if decide (key = no_key) then None else max_of (sizes_with torrentRelease files key).
Proof.
  cbv zeta. induction files as [|f files (IHf & IHt & IHk)] using rev_ind.
  { split_and!; [done|done|]. intros key. by case_decide. }
  unfold scan_files in *. rewrite foldl_snoc. set (s := foldl _ _ files) in *. unfold scan_file.
  unfold sizes_with, counted. rewrite filter_app, filter_cons, filter_nil. fold (counted files).
  destruct (shouldIgnoreFile (tf_Name f)) eqn:Ei; [rewrite decide_False by done; by rewrite app_nil_r|rewrite decide_True by done].
  cbn [fs_files fs_total fs_keys]. split_and!.
  - by rewrite IHf.
  - rewrite IHt. apply total_size_snoc.
  - intros key. rewrite filter_app, fmap_app, filter_cons, filter_nil. case_bool_decide as Hnk.
    + rewrite IHk. case_decide; [done|]. rewrite decide_False by congruence. cbn. by rewrite app_nil_r.
    + rewrite keep_larger_lookup, !IHk. repeat case_decide; subst; try done; cbn; by rewrite ?app_nil_r, ?max_of_snoc.
Qed.

Lemma keep_larger_size key n keys : size (keep_larger key n keys) ≤ S (size keys).
Proof.
  unfold keep_larger. destruct (keys !! key) as [m|] eqn:E; [case_match|]; [|lia|].
  - rewrite map_size_insert_Some by by rewrite E. lia.
  - by rewrite map_size_insert_None.
Qed.

Lemma scan_size torrentRelease files : size (fs_keys (scan_files torrentRelease files)) ≤ length files.
Proof.
  unfold scan_files. induction files as [|f files IH] using rev_ind; [done|].
  rewrite foldl_snoc, length_app. cbn [length]. set (s := foldl _ _ files) in *. unfold scan_file.
  case_match; [lia|]. cbn [fs_keys]. case_match; [lia|]. pose proof (keep_larger_size (file_key torrentRelease f) (tf_Size f) (fs_keys s)). lia.
Qed.

Lemma NoDup_counted files : NoDup (tf_Name <$> files) → NoDup (tf_Name <$> counted files).
Proof. intros Hnd. eapply sublist_NoDup; [exact Hnd|]. apply fmap_sublist, sublist_filter. Qed.

Lemma partial_match_spec ks kc :
  size ks ≤ max_keys → size kc ≤ max_keys →
  partial_match ks kc = (if bool_decide (contained ks kc) then "partial-in-pack"
                         else if bool_decide (contained kc ks) then "partial-contains" else "").
Proof.
  intros Hs Hc. pose proof (checkPartialMatch_spec ks kc Hs) as Hsc. pose proof (checkPartialMatch_spec kc ks Hc) as Hcs.
  unfold partial_match.
  destruct (Nat.eqb_spec (size ks) 0) as [E|E]; cbn [negb andb].
  { apply map_size_empty_inv in E. unfold contained. rewrite !bool_decide_false by naive_solver. done. }
  destruct (Nat.eqb_spec (size kc) 0) as [E'|E']; cbn [negb].
  { apply map_size_empty_inv in E'. unfold contained. rewrite !bool_decide_false by naive_solver. done. }
  rewrite <- (bool_decide_ext _ _ Hsc), <- (bool_decide_ext _ _ Hcs).
  by destruct (checkPartialMatch ks kc), (checkPartialMatch kc ks).
Qed.

(** *** The largest files *)

(** The first of the largest files. *)
Definition largest_of (files : list TorrentFile) (f : TorrentFile) : Prop :=
  ∃ before after, files = before ++ f :: after ∧ (∀ x, x ∈ before → (tf_Size x < tf_Size f)%Z) ∧
    (∀ x, x ∈ after → (tf_Size x ≤ tf_Size f)%Z).

(** The largest files have the same size and the same name, without folders,
    extension and case. *)
Definition same_largest (source candidate : list TorrentFile) : Prop :=
  ∃ f g, largest_of source f ∧ largest_of candidate g ∧ (0 < tf_Size f)%Z ∧ tf_Size f = tf_Size g ∧
    base_of (tf_Name f) = base_of (tf_Name g) ∧ base_of (tf_Name f) ≠ "".

Lemma largest_spec files :
  (largest files).2 = 0%Z ∨ ∃ f, largest_of files f ∧ largest files = (tf_Name f, tf_Size f).
Proof.
  enough ((largest files).2 = 0%Z ∧ (∀ x, x ∈ files → (tf_Size x ≤ 0)%Z) ∨
          ∃ f, largest_of files f ∧ largest files = (tf_Name f, tf_Size f) ∧ (0 < tf_Size f)%Z) as [[? _]|(f & ? & ? & _)]; eauto.
  unfold largest. induction files as [|x files IH] using rev_ind; [left; split; [done|]; by intros ? ?%elem_of_nil|].
  rewrite foldl_snoc. destruct IH as [[E Hall]|(f & (before & after & Hf & Hb & Ha) & E & Hpos)]; rewrite E; cbn [snd].
  - destruct (Z.ltb_spec 0 (tf_Size x)) as [Hx|Hx].
    + right. exists x. split; [|done]. exists files, []. split; [done|]. split; [|by intros ? ?%elem_of_nil].
      intros y Hy. specialize (Hall y Hy). lia.
    + left. split; [done|]. intros y [?| ->%list_elem_of_singleton]%elem_of_app; [by apply Hall|done].
  - right. destruct (Z.ltb_spec (tf_Size f) (tf_Size x)) as [Hx|Hx].
    + exists x. split; [|split; [done|lia]]. exists files, []. split; [done|]. split; [|by intros ? ?%elem_of_nil].
      intros y. rewrite Hf. intros [Hy|[->|Hy]%elem_of_cons]%elem_of_app; [specialize (Hb y Hy); lia|done|specialize (Ha y Hy); lia].
    + exists f. split; [|done]. exists before, (after ++ [x]). rewrite Hf, <- app_assoc. split; [done|]. split; [done|].
      intros y [?| ->%list_elem_of_singleton]%elem_of_app; [by apply Ha|done].
Qed.

Lemma largest_first files f : largest_of files f → (0 < tf_Size f)%Z → largest files = (tf_Name f, tf_Size f).
Proof.
  intros (before & after & -> & Hb & Ha) Hpos. unfold largest. rewrite foldl_app. cbn [foldl].
  match goal with |- context [foldl ?F _ before] => set (step := F) end.
  assert (∀ l acc, (∀ x, x ∈ l → (tf_Size x < tf_Size f)%Z) → (acc.2 < tf_Size f)%Z → ((foldl step acc l).2 < tf_Size f)%Z) as Hbelow.
  { induction l as [|x l IH]; intros acc Hl Hacc; [done|]. cbn [foldl]. apply IH; [intros; apply Hl; by right|].
    unfold step. pose proof (Hl x (list_elem_of_here _ _)). by case_match. }
  assert (∀ l acc, (∀ x, x ∈ l → (tf_Size x ≤ acc.2)%Z) → foldl step acc l = acc) as Hstay.
  { induction l as [|x l IH]; intros acc Hl; [done|]. cbn [foldl].
    assert (step acc x = acc) as -> by (unfold step; by rewrite (proj2 (Z.ltb_ge _ _)) by (apply Hl; by left)).
    apply IH. intros; apply Hl; by right. }
  specialize (Hbelow before ("", 0%Z) Hb Hpos). revert Hbelow.
  generalize (foldl step ("", 0%Z) before). intros acc Hbelow.
  rewrite (proj2 (Z.ltb_lt _ _) Hbelow). by apply Hstay.
Qed.

Lemma streamingLargestFileMatch_spec source candidate :
  streamingLargestFileMatch source candidate = true ↔ same_largest source candidate.
Proof.
  unfold streamingLargestFileMatch, same_largest. split.
  - destruct (largest_spec source) as [E|(f & Hf & E)].
    { destruct (largest source) as [n z]. cbn in E. subst z. by destruct (largest candidate). }
    rewrite E. destruct (largest_spec candidate) as [E'|(g & Hg & E')].
    { destruct (largest candidate) as [n z]. cbn in E'. subst z. destruct (_ && _)%bool eqn:Eb; [|done].
      apply andb_true_iff in Eb as [?%Z.ltb_lt ?%Z.eqb_eq]. lia. }
    rewrite E'. destruct (_ && _)%bool eqn:Eb; [|done]. apply andb_true_iff in Eb as [Hpos%Z.ltb_lt Heq%Z.eqb_eq].
    cbv zeta. rewrite andb_true_iff, negb_true_iff, bool_decide_eq_true, bool_decide_eq_false. intros [Hne Hb].
    exists f, g. by split_and!.
  - intros (f & g & Hf & Hg & Hpos & Heq & Hb & Hne). rewrite (largest_first _ _ Hf Hpos).
    rewrite (largest_first _ _ Hg) by lia. rewrite Heq in *. rewrite (proj2 (Z.ltb_lt _ _) Hpos), Z.eqb_refl. cbn [andb]. cbv zeta.
    rewrite andb_true_iff, negb_true_iff, bool_decide_eq_true, bool_decide_eq_false. done.
Qed.

(** The totals are not zero and as near as the tolerance asks for, or there are
    no keys on either side and the largest files are the same. *)
Definition same_size (ks kc : KeySizes) (source candidate : list TorrentFile) (tolerance : float64) : Prop :=
  (0 < total_size source)%Z ∧ isSizeWithinTolerance (total_size source) (total_size candidate) tolerance = true ∨
  ks = ∅ ∧ kc = ∅ ∧ same_largest source candidate.

Lemma same_size_spec ks kc source candidate tolerance :
  (0 <? total_size source)%Z && nonempty source && isSizeWithinTolerance (total_size source) (total_size candidate) tolerance ||
  ((size ks =? 0)%nat && (size kc =? 0)%nat && nonempty source && nonempty candidate) && streamingLargestFileMatch source candidate
    = true ↔ same_size ks kc source candidate tolerance.
Proof.
  unfold same_size. rewrite <- streamingLargestFileMatch_spec, orb_true_iff, !andb_true_iff, Z.ltb_lt, !Nat.eqb_eq.
  assert (∀ k : KeySizes, size k = 0%nat ↔ k = ∅) as Hk by (intros; apply map_size_empty_iff). rewrite !Hk.
  assert ((0 < total_size source)%Z → nonempty source = true) as Ht by (destruct source; done).
  assert (streamingLargestFileMatch source candidate = true → nonempty source = true ∧ nonempty candidate = true) as Hl.
  { intros (f & g & (before & ? & -> & _) & (before' & ? & -> & _) & _)%streamingLargestFileMatch_spec.
    split; [by destruct before|by destruct before']. }
  tauto.
Qed.

(** The kinds are told apart by what holds first. *)
Lemma match_kinds (kind : string) (P P1 P2 P3 : Prop) :
  (kind = "exact" ∧ P ∨ kind = "partial-in-pack" ∧ ¬ P ∧ P1 ∨ kind = "partial-contains" ∧ ¬ P ∧ ¬ P1 ∧ P2 ∨
   kind = "size" ∧ ¬ P ∧ ¬ P1 ∧ ¬ P2 ∧ P3 ∨ kind = "" ∧ ¬ P ∧ ¬ P1 ∧ ¬ P2 ∧ ¬ P3) →
  (kind = "exact" ↔ P) ∧ (kind = "partial-in-pack" ↔ ¬ P ∧ P1) ∧ (kind = "partial-contains" ↔ ¬ P ∧ ¬ P1 ∧ P2) ∧
  (kind = "size" ↔ ¬ P ∧ ¬ P1 ∧ ¬ P2 ∧ P3) ∧ kind ∈ ["exact"; "partial-in-pack"; "partial-contains"; "size"; ""].
Proof. intros [[-> ?]|[[-> ?]|[[-> ?]|[[-> ?]|[-> ?]]]]]; (split_and!; [(split; [intros E; first [discriminate E|tauto]|intros; first [reflexivity|exfalso; tauto]])..|set_solver]). Qed.

(** C15. The kind of a match says what the files have in common, in this order of
    precedence: an exact match that the files that count are the same with the
    same sizes; a partial one that four fifths of the keys of one are in the
    other with the same largest size; and a size match that the totals agree up
    to the tolerance or, without any keys, that the largest files do.  There is
    none across archives and extracted files, and a reason is given exactly when
    there is none.  File names are distinct in each torrent, and the four fifths,
    which the code computes in floating point, are proved for up to 500 keys. *)
Theorem match_types_exact (sourceRelease candidateRelease : Release) (sourceFiles candidateFiles : list TorrentFile)
    (tolerance : float64) :
  NoDup (tf_Name <$> sourceFiles) → NoDup (tf_Name <$> candidateFiles) →
  let found := getMatchTypeWithReason sourceRelease candidateRelease sourceFiles candidateFiles tolerance in
  let source := counted sourceFiles in
  let candidate := counted candidateFiles in
  ∃ ks kc : KeySizes,
    (∀ key, ks !! key = if decide (key = no_key) then None else max_of (sizes_with sourceRelease sourceFiles key)) ∧
    (∀ key, kc !! key = if decide (key = no_key) then None else max_of (sizes_with candidateRelease candidateFiles key)) ∧
    (Reason found = None ↔ MatchType found ≠ "") ∧
    (layouts_conflict sourceFiles candidateFiles = true → MatchType found = "") ∧
    (layouts_conflict sourceFiles candidateFiles = false → size ks ≤ max_keys → size kc ≤ max_keys →
      (MatchType found = "exact" ↔ source ≡ₚ candidate) ∧
      (MatchType found = "partial-in-pack" ↔ ¬ source ≡ₚ candidate ∧ contained ks kc) ∧
      (MatchType found = "partial-contains" ↔ ¬ source ≡ₚ candidate ∧ ¬ contained ks kc ∧ contained kc ks) ∧
      (MatchType found = "size" ↔ ¬ source ≡ₚ candidate ∧ ¬ contained ks kc ∧ ¬ contained kc ks ∧
         same_size ks kc source candidate tolerance) ∧
      MatchType found ∈ ["exact"; "partial-in-pack"; "partial-contains"; "size"; ""]).
Proof.
  intros Hs Hc found source candidate. unfold found, getMatchTypeWithReason.
  destruct (scan_spec sourceRelease sourceFiles) as (Efs & Ets & Eks).
  destruct (scan_spec candidateRelease candidateFiles) as (Efc & Etc & Ekc).
  exists (fs_keys (scan_files sourceRelease sourceFiles)), (fs_keys (scan_files candidateRelease candidateFiles)).
  cbv zeta. rewrite Efs, Efc, Ets, Etc. fold source candidate. split; [done|]. split; [done|].
  generalize dependent (fs_keys (scan_files sourceRelease sourceFiles)). intros ks _.
  generalize dependent (fs_keys (scan_files candidateRelease candidateFiles)). intros kc _.
  split.
  { destruct (layouts_conflict _ _); [done|]. destruct (streamingExactMatch _ _); [done|].
    case_bool_decide; cbn [negb]; [|done]. by repeat case_match. }
  split; [by intros ->|]. intros -> Hks Hkc.
  pose proof (streamingExactMatch_spec _ _ (NoDup_counted _ Hs) (NoDup_counted _ Hc)) as Hex. fold source candidate in Hex.
  rewrite partial_match_spec by done. pose proof (same_size_spec ks kc source candidate tolerance) as Hsize.
  pose proof (bool_decide_eq_true (contained ks kc)) as Hin. pose proof (bool_decide_eq_true (contained kc ks)) as Hcon.
  revert Hex Hin Hcon Hsize. generalize (streamingExactMatch source candidate), (source ≡ₚ candidate).
  generalize (bool_decide (contained ks kc)) as b1. generalize (bool_decide (contained kc ks)) as b2.
  generalize (contained ks kc) as P1. generalize (contained kc ks) as P2. generalize (same_size ks kc source candidate tolerance) as P3.
  destruct (_ && _ && isSizeWithinTolerance _ _ _)%bool, (_ && streamingLargestFileMatch _ _)%bool; clear;
    intros P3 P2 P1 b2 b1 e P Hex Hin Hcon Hsize; destruct e, b1, b2; cbn -[elem_of] in *; apply match_kinds; naive_solver.
Qed.

(** A tolerance of zero or less. *)
Lemma zero_tolerance a b tolerance :
  f64_ltb tolerance f64_zero || f64_eqb tolerance f64_zero = true → isSizeWithinTolerance a b tolerance = (a =? b)%Z.
Proof.
  intros Ht. unfold isSizeWithinTolerance. destruct (_ || _)%bool eqn:E0 in |- *; [done|].
  destruct (f64_ltb tolerance f64_zero); [done|]. cbn [orb] in Ht. by rewrite Ht.
Qed.

(**  The two comparisons of files agree: with a tolerance of zero or less the
    one that explains itself finds the same match, with any tolerance it finds
    the same exact and partial matches, and it gives a reason exactly when
    there is no match. *)
Theorem match_types_agree (sourceRelease candidateRelease : Release) (sourceFiles candidateFiles : list TorrentFile)
    (tolerance : float64) :
  let plain := getMatchType sourceRelease candidateRelease sourceFiles candidateFiles in
  let explained := getMatchTypeWithReason sourceRelease candidateRelease sourceFiles candidateFiles tolerance in
  (f64_ltb tolerance f64_zero || f64_eqb tolerance f64_zero = true → MatchType explained = plain) ∧
  (∀ kind, kind ∈ ["exact"; "partial-in-pack"; "partial-contains"] → MatchType explained = kind ↔ plain = kind) ∧
  (Reason explained = None ↔ MatchType explained ≠ "").
Proof.
  cbv zeta. unfold getMatchType, getMatchTypeWithReason.
  destruct (layouts_conflict _ _); [split_and!; [done|naive_solver|done]|].
  destruct (streamingExactMatch _ _); [split_and!; [done|naive_solver|done]|].
  case_bool_decide as Ep; cbn [negb MatchType Reason]; [|split_and!; [done|naive_solver|done]].
  set (s := scan_files sourceRelease sourceFiles). set (c := scan_files candidateRelease candidateFiles).
  assert (∀ kind, kind ∈ ["exact"; "partial-in-pack"; "partial-contains"]%string → kind ≠ "size" ∧ kind ≠ "") as Hkind by set_solver.
  split_and!.
  - intros Ht. rewrite zero_tolerance by done. rewrite <- andb_assoc, (andb_comm (nonempty _)), andb_assoc.
    by repeat case_match.
  - intros kind [? ?]%Hkind. repeat case_match; cbn [MatchType] in *; naive_solver.
  - by repeat case_match.
Qed.

(** *** By title *)

Lemma title_keys_dom candidateRelease files key :
  is_Some (title_keys candidateRelease files !! key) ↔
  key ≠ no_key ∧ ∃ f, f ∈ counted files ∧ file_key candidateRelease f = key.
Proof.
  unfold title_keys, counted. induction files as [|f files IH] using rev_ind.
  { cbn. rewrite lookup_empty. split; [by intros [? ?]|]. by intros (_ & ? & ?%elem_of_nil & _). }
  rewrite foldl_snoc, filter_app, filter_cons, filter_nil. setoid_rewrite elem_of_app.
  destruct (shouldIgnoreFile (tf_Name f)).
  { rewrite decide_False by done. rewrite IH. setoid_rewrite elem_of_nil. naive_solver. }
  rewrite decide_True by done. setoid_rewrite list_elem_of_singleton. case_bool_decide as Hk.
  - rewrite IH. naive_solver.
  - destruct (decide (file_key candidateRelease f = key)) as [<-|Hne].
    + rewrite lookup_insert_eq. split; [intros _; eauto|eauto].
    + rewrite lookup_insert_ne, IH by done. naive_solver.
Qed.

Lemma has_key_spec candidateRelease files key :
  has_key (title_keys candidateRelease files) key = true ↔
  key ≠ no_key ∧ ∃ f, f ∈ counted files ∧ file_key candidateRelease f = key.
Proof. unfold has_key. by rewrite bool_decide_eq_true, title_keys_dom. Qed.

(** The key that a file of the wanted content has. *)
Definition wanted_key (target : Release) (key : releaseKey) : Prop :=
  if ((0 <? r_Series target) && (0 <? r_Episode target))%Z then key = MkReleaseKey (r_Series target) (r_Episode target) 0 0 0
  else if (0 <? r_Series target)%Z then key_series key = r_Series target ∧ (0 < key_episode key)%Z
  else if has_date target then key = MkReleaseKey 0 0 (r_Year target) (r_Month target) (r_Day target)
  else key = makeReleaseKey target.

(** A branch that looks one key up. *)
Lemma key_branch candidateRelease files (W : releaseKey → Prop) k :
  (∀ key, W key ↔ key = k) →
  let found := if has_key (title_keys candidateRelease files) k then "partial-in-pack" else "" in
  found ∈ ["partial-in-pack"; "partial-contains"; ""] ∧
  (found ≠ "" ↔ ∃ f, f ∈ counted files ∧ file_key candidateRelease f ≠ no_key ∧ W (file_key candidateRelease f)) ∧
  found ≠ "partial-contains".
Proof.
  intros HW. cbv zeta. setoid_rewrite HW. pose proof (has_key_spec candidateRelease files k) as Hk.
  destruct (has_key _ _); (split_and!; [set_solver| |done]); (split; [intros Hf|done || intros (f & Hf & Hne & Hfk)]).
  - destruct (proj1 Hk eq_refl) as (Hne & f & ? & Hfk). exists f. by rewrite Hfk.
  - done.
  - exfalso. assert (false = true) as [=]. apply Hk. rewrite <- Hfk. eauto.
Qed.

Lemma match_by_keys_sound candidateRelease files target :
  let found := match_by_keys target (title_keys candidateRelease files) in
  found ∈ ["partial-in-pack"; "partial-contains"; ""] ∧
  (found ≠ "" ↔ ∃ f, f ∈ counted files ∧ file_key candidateRelease f ≠ no_key ∧ wanted_key target (file_key candidateRelease f)) ∧
  (found = "partial-contains" → (0 < r_Series target)%Z ∧ (r_Episode target ≤ 0)%Z).
Proof.
  cbv zeta. unfold match_by_keys, wanted_key.
  destruct ((0 <? r_Series target) && (0 <? r_Episode target))%Z eqn:Eep.
  { destruct (key_branch candidateRelease files (λ key, key = MkReleaseKey (r_Series target) (r_Episode target) 0 0 0) (MkReleaseKey (r_Series target) (r_Episode target) 0 0 0)) as (? & ? & ?); [done|].
    split_and!; [done|done|by intros ?]. }
  destruct (0 <? r_Series target)%Z eqn:Es.
  { destruct (existsb _ _) eqn:Hk.
    - apply existsb_exists in Hk as ([key n] & Hin%list_elem_of_In%elem_of_map_to_list & Hkey). cbn [fst] in Hkey.
      apply andb_true_iff in Hkey as [Hser%Z.eqb_eq Hep%Z.ltb_lt].
      destruct (proj1 (title_keys_dom candidateRelease files key)) as (Hne & f & Hf & Hfk); [eauto|].
      split_and!; [set_solver| |]. { split; [|done]. intros _. exists f. rewrite Hfk. by split_and!. }
      intros _. cbn [andb] in Eep. apply Z.ltb_lt in Es. apply Z.ltb_ge in Eep. lia.
    - split_and!; [set_solver| |done]. split; [done|]. intros (f & Hf & Hne & Hser & Hep).
      apply not_true_iff_false in Hk. exfalso. apply Hk, existsb_exists.
      destruct (proj2 (title_keys_dom candidateRelease files (file_key candidateRelease f))) as [n Hn]; [eauto|].
      exists (file_key candidateRelease f, n). split; [by apply list_elem_of_In, elem_of_map_to_list|].
      cbn [fst]. apply andb_true_iff. by rewrite Z.eqb_eq, Z.ltb_lt. }
  destruct (has_date target).
  { destruct (key_branch candidateRelease files (λ key, key = MkReleaseKey 0 0 (r_Year target) (r_Month target) (r_Day target)) (MkReleaseKey 0 0 (r_Year target) (r_Month target) (r_Day target))) as (? & ? & ?); [done|].
    split_and!; [done|done|by intros ?]. }
  assert (negb (size (title_keys candidateRelease files) =? 0)%nat && has_key (title_keys candidateRelease files) (makeReleaseKey target)
    = has_key (title_keys candidateRelease files) (makeReleaseKey target)) as ->.
  { destruct (has_key _ _) eqn:Hk; [|by rewrite andb_false_r]. unfold has_key in Hk. apply bool_decide_eq_true in Hk as [n Hn].
    rewrite andb_true_r. apply negb_true_iff, Nat.eqb_neq. intros E%map_size_empty_inv. by rewrite E, lookup_empty in Hn. }
  destruct (key_branch candidateRelease files (λ key, key = makeReleaseKey target) (makeReleaseKey target)) as (? & ? & ?); [done|].
    split_and!; [done|done|by intros ?].
Qed.

(** A candidate found by its title is taken exactly when one of its files
    that count carries the key that is looked for, the episode, an episode of
    the season, the date or the year, or when no file carries any key, the
    titles are the same, and the names carry the same episode number or, for
    content without metadata, none. *)
Theorem title_match_justified (targetName candidateName : string) (target candidate : Release) (files : list TorrentFile) :
  let found := getMatchTypeFromTitle targetName candidateName target candidate files in
  found ≠ "" ↔
  (∃ f, f ∈ counted files ∧ file_key candidate f ≠ no_key ∧ wanted_key target (file_key candidate f)) ∨
  (∀ f, f ∈ counted files → file_key candidate f = no_key) ∧
    NormalizeForMatching (r_Title target) ≠ "" ∧ NormalizeForMatching (r_Title target) = NormalizeForMatching (r_Title candidate) ∧
    (extractEpisode targetName ≠ "" ∧ extractEpisode targetName = extractEpisode candidateName ∨
     makeReleaseKey target = no_key ∧ extractEpisode targetName = "" ∧ extractEpisode candidateName = "").
Proof.
  cbv zeta. unfold getMatchTypeFromTitle. destruct (match_by_keys_sound candidate files target) as (_ & Hkeys & _).
  case_bool_decide as Ef; cbn [negb]; [|tauto].
  assert (¬ ∃ f, f ∈ counted files ∧ file_key candidate f ≠ no_key ∧ wanted_key target (file_key candidate f)) as Hnone.
  { rewrite <- Hkeys. by intros []. }
  assert ((size (title_keys candidate files) =? 0)%nat = true ↔ ∀ f, f ∈ counted files → file_key candidate f = no_key) as Hsize.
  { rewrite Nat.eqb_eq. split.
    - intros E%map_size_empty_inv f Hf. destruct (decide (file_key candidate f = no_key)) as [|Hne]; [done|].
      destruct (proj2 (title_keys_dom candidate files (file_key candidate f))) as [n Hn]; [eauto|]. by rewrite E, lookup_empty in Hn.
    - intros Hall. apply map_size_empty_iff, map_empty. intros key. apply eq_None_not_Some.
      intros (Hne & f & Hf & Hfk)%title_keys_dom. apply Hne. rewrite <- Hfk. by apply Hall. }
  destruct (size (title_keys candidate files) =? 0)%nat.
  2:{ split; [done|]. intros [?|[Hall _]]; [done|]. by apply Hsize in Hall. }
  pose proof (proj1 Hsize eq_refl) as Hall. unfold given.
  case_bool_decide as Et; cbn [negb andb]; [by split; [|intros [?|(_ & ? & _)]]|].
  case_bool_decide as Eq; [|by split; [|intros [?|(_ & _ & ? & _)]]].
  match goal with |- _ ↔ _ ∨ _ ∧ _ ∧ _ ∧ ?D => transitivity D; [|split; [by right|intros [?|(_ & _ & _ & ?)]; done]] end.
  case_bool_decide as Ete; case_bool_decide as Ece; cbn [negb andb]; rewrite ?andb_true_r, ?andb_false_r.
  - case_bool_decide as Ek; (split; [try done; by right|try done; by intros [[? _]|[? _]]]).
  - split; [done|]. by intros [[? _]|(_ & _ & ?)].
  - split; [done|]. intros [[_ E]|(_ & ? & _)]; [congruence|done].
  - case_bool_decide as Ee; (split; [try done; by left|try done; by intros [[_ ?]|(_ & ? & _)]]).
Qed.
End classified.

(** ** Runs *)

Section runs.
#[local] Existing Instance AsciiCase.
#[local] Existing Instance AsciiTables.

(** A parser that reads the episode number of [eNN] names in season one. *)
Definition parse_episode (name : string) : Release :=
  match to_bytes name with
  | "e"%char :: a :: b :: _ =>
    match digit_value a, digit_value b with
    | Some x, Some y => episode "show" 1 (10 * x + y) "" ""
    | _, _ => empty_release
    end
  | _ => empty_release
  end.
#[local] Instance EpisodeParser : ReleaseParser := {| ParseString := parse_episode; Parse := parse_episode |}.

Definition season_files : list TorrentFile :=
  [MkFile "e01.mkv" 100; MkFile "e02.mkv" 110; MkFile "e03.mkv" 120; MkFile "e04.mkv" 130; MkFile "e05.mkv" 140; MkFile "e01.nfo" 1].
(** Four of the five episodes, and one of another size. *)
Definition most_files : list TorrentFile :=
  [MkFile "e01.mkv" 100; MkFile "e02.mkv" 110; MkFile "e03.mkv" 120; MkFile "e04.mkv" 130; MkFile "e05.mkv" 999].

Lemma match_types_exact_witness :
  NoDup (tf_Name <$> most_files) ∧ NoDup (tf_Name <$> season_files) ∧
  MatchType (getMatchTypeWithReason empty_release empty_release most_files season_files (f64_of_Z 5)) = "partial-in-pack" ∧
  ¬ counted most_files ≡ₚ counted season_files.
Proof.
  assert (NoDup (tf_Name <$> most_files)) as Hm by (apply (bool_decide_unpack _); by vm_compute).
  assert (NoDup (tf_Name <$> season_files)) as Hs by (apply (bool_decide_unpack _); by vm_compute).
  assert (MatchType (getMatchTypeWithReason empty_release empty_release most_files season_files (f64_of_Z 5)) = "partial-in-pack")
    as Ht by by vm_compute.
  split_and!; [done|done|done|].
  destruct (match_types_exact empty_release empty_release most_files season_files (f64_of_Z 5) Hm Hs)
    as (ks & kc & Eks & Ekc & _ & _ & Hx).
  assert (ks = fs_keys (scan_files empty_release most_files)) as -> by (apply map_eq; intros; rewrite Eks; symmetry; apply scan_spec).
  assert (kc = fs_keys (scan_files empty_release season_files)) as -> by (apply map_eq; intros; rewrite Ekc; symmetry; apply scan_spec).
  destruct Hx as (_ & Hp & _); [by vm_compute|vm_compute; lia|vm_compute; lia|]. by apply Hp in Ht as [? _].
Defined.

(** Three of five are too few. *)
Example three_of_five :
  getMatchType empty_release empty_release (take 3 most_files ++ [MkFile "e04.mkv" 1; MkFile "e05.mkv" 1]) season_files = "".
Proof. by vm_compute. Qed.

(** Only the first dash between spaces is looked at: a number after a second
    one is not found. *)
Example first_dash_only :
  extractEpisode "[Group] Show - 12 (1080p)" = "12" ∧ extractEpisode "Show - Part Two - 12 (1080p)" = "".
Proof. split; by vm_compute. Qed.
End runs.
