(* ===== verification/DirScanner.v ===== *)
(** * [internal/services/dirscan/scanner.go]: the files of a directory, by release

    A directory is scanned entry by entry: a folder or a media file of it is a
    searchee, with the files found below.  Which of them are seeded is known by
    the identity of files.  The kinds of paths are those of
    content_detection.go, the identities those of pkg/hardlink/fileid_unix.go. *)

From Stdlib Require Import ZArith Lia Ascii.
From stdpp Require Import base numbers list strings gmap sorting.
From S2P Require Import Prelude.
From S2P Require Import Order.
From S2P Require Import GoStrings.
From S2P Require Import GoPath.
From S2P Require Import FileSystem.
From S2P Require Import OrphanWalk.

Open Scope qui_scope.

(** ** Identities of files *)

(** Both fields are [uint64]s. *)
Record FileID := MkFileID { Dev : Z; Ino : Z }.

#[export] Instance FileID_eq_dec : EqDecision FileID.
Proof. solve_decision. Defined.

Definition no_id : FileID := MkFileID 0 0.

Definition FileID_IsZero (f : FileID) : bool := ((Dev f =? 0) && (Ino f =? 0))%Z.

(** [byte(n >> shift)] for the shifts 56, 48, ..., 0. *)
Definition big_endian (n : Z) : bytes :=
  (λ shift, chr (Z.land (Z.shiftr n shift) 255)) <$> [56; 48; 40; 32; 24; 16; 8; 0]%Z.

Definition fillBytes (f : FileID) : bytes := big_endian (Dev f) ++ big_endian (Ino f).
Definition FileID_Bytes (f : FileID) : string := of_bytes (fillBytes f).

Definition FileID_Less (f other : FileID) : bool :=
  if negb (Dev f =? Dev other)%Z then (Dev f <? Dev other)%Z else (Ino f <? Ino other)%Z.

(** ** Data *)

(** The moments of modification are in nanoseconds. *)
Record ScannedFile := MkScanned {
  sf_Path : string; sf_RelPath : string; sf_Size : Z; sf_ModTime : Z; sf_FileID : FileID; sf_LinkCount : Z;
  sf_HasLinks : bool }.

Record Searchee := MkSearchee { sr_Name : string; sr_Path : string; sr_Files : list ScannedFile; sr_IsDisc : bool }.

Record ScanResult := MkScanResult { sc_Searchees : list Searchee; sc_TotalFiles : Z; sc_TotalSize : Z; sc_SkippedFiles : Z }.

(** Why a scan gives no result, or ends early. *)
Inductive scan_error : Type := ReadFailed | ScanCanceled.

Definition mediaExtensions : list string :=
  [".mkv"; ".mp4"; ".avi"; ".m4v"; ".wmv"; ".mov"; ".ts"; ".m2ts"; ".vob"; ".mpg"; ".mpeg"; ".webm"; ".flv";
   ".flac"; ".mp3"; ".wav"; ".aac"; ".ogg"; ".m4a"; ".wma"; ".ape"; ".alac"; ".dsd"; ".dsf"; ".dff";
   ".nfo"; ".sfv"; ".srt"; ".sub"; ".idx"; ".ass"; ".ssa"].
Definition scanDiscLayoutMarkers : list string := ["bdmv"; "video_ts"; "audio_ts"].

(** The kinds of content (content_detection.go). *)
Definition videoExtensions : list string :=
  [".mkv"; ".mp4"; ".avi"; ".m4v"; ".wmv"; ".mov"; ".ts"; ".m2ts"; ".vob"; ".mpg"; ".mpeg"; ".webm"; ".flv"].
Definition audioExtensions : list string :=
  [".flac"; ".mp3"; ".wav"; ".aac"; ".ogg"; ".m4a"; ".wma"; ".ape"; ".alac"; ".dsd"; ".dsf"; ".dff"; ".aob"].

Section kinds.
Context `{!UnicodeCase}.

Definition isMediaFile (name : string) : bool := bool_decide (ToLower (Ext name) ∈ mediaExtensions).
Definition isVideoPath (path : string) : bool := bool_decide (ToLower (Ext path) ∈ videoExtensions).
Definition isAudioPath (path : string) : bool := bool_decide (ToLower (Ext path) ∈ audioExtensions).
Definition isContentPath (path : string) : bool := isVideoPath path || isAudioPath path.

Definition hasAnyVideoFile (files : list ScannedFile) : bool := existsb (λ f, isVideoPath (sf_Path f)) files.

Definition selectLargestVideoFile (files : list ScannedFile) : option ScannedFile :=
  foldl (λ best f,
    if negb (isVideoPath (sf_Path f)) then best else
    match best with
    | None => Some f
    | Some b => if (sf_Size b <? sf_Size f)%Z then Some f else best
    end) None files.

Definition filterContentFiles (files : list ScannedFile) : list ScannedFile :=
  filter (λ f, isContentPath (sf_Path f) = true) files.
End kinds.

(** ** Scanning *)

Section scanner.
Context `{!UnicodeCase}.
Context (faults : Faults) (fs : FS).
(** The details of what a symbolic link leads to. *)
Context (linked : path → option FileInfo).
(** The hash of a torrent by the identity of a file. *)
Context (seenFileIDs : gmap string string).
(** Whether the context is cancelled when a path is reached, in the loop over the
    root or below. *)
Context (canceled : bool → path → bool).

Definition entry_name (p : path) : string := Base (abs_path p).
Definition is_hidden (name : string) : bool := HasPrefix name ".".

Definition shouldSkipEntry (p : path) (e : entry) : bool :=
  if is_hidden (entry_name p) then true else match e with ELink => true | _ => false end.

Definition shouldProcessFile (p : path) (e : entry) (isDisc : bool) : bool :=
  if is_dir e then false else isDisc || isMediaFile (entry_name p).

(** [GetFileID] of the details of a file cannot fail here. *)
Definition getFileIDSafe (info : FileInfo) : FileID * Z := (MkFileID (fi_dev info) (fi_ino info), fi_nlink info).

Definition scanned_file (p : string) (rel : string) (info : FileInfo) : ScannedFile :=
  let '(fileID, linkCount) := getFileIDSafe info in
  MkScanned p rel (fi_Size info) (fi_ModTime info) fileID linkCount (1 <? linkCount)%Z.

Definition addFileToSearchee (root : string) (p : path) (e : entry) (files : list ScannedFile) : list ScannedFile :=
  match e with
  | EFile (Some info) => files ++ [scanned_file (abs_path p) (default (entry_name p) (Rel root (abs_path p))) info]
  | _ => files
  end.

(** The callback of the walk; the state is the list of files. *)
Definition walkDirEntry (root : string) (isDisc : bool) (p : path) (d : option entry) (walkErr : option os_error)
    (files : list ScannedFile) : list ScannedFile * walk_control string :=
  match walkErr with
  | Some e => if is_permission e then (files, Continue) else (files, Stop ("walk entry " +++ abs_path p))
  | None =>
    if canceled true p then (files, Stop "walk canceled") else
    match d with
    | None => (files, Continue)
    | Some e =>
      if shouldSkipEntry p e then (files, if is_dir e then SkipDir else Continue)
      else if negb (shouldProcessFile p e isDisc) then (files, Continue)
      else (addFileToSearchee root p e files, Continue)
    end
  end.

Definition isDiscLayoutRoot (dir : path) : bool :=
  match ReadDir fs dir with
  | None => false
  | Some entries => existsb (λ ne, is_dir ne.2 && bool_decide (ToLower ne.1 ∈ scanDiscLayoutMarkers)) entries
  end.

(** Nothing when the walk fails. *)
Definition scanSearcheeDir (dir : path) (name : string) : option Searchee :=
  let isDisc := isDiscLayoutRoot dir in
  match WalkDir (walkDirEntry (abs_path dir) isDisc) faults fs dir [] with
  | (files, None) => Some (MkSearchee name (abs_path dir) files isDisc)
  | (_, Some _) => None
  end.

(** [os.Stat] follows a link. *)
Definition Stat (p : path) : option FileInfo :=
  match Lstat faults fs p with
  | inl (EFile info) => info
  | inl ELink => linked p
  | _ => None
  end.

Definition scanSingleFile (p : path) : option Searchee :=
  match Stat p with
  | None => None
  | Some info =>
    let base := entry_name p in
    Some (MkSearchee (TrimSuffix base (Ext base)) (abs_path p) [scanned_file (abs_path p) base info] false)
  end.

Definition seeding_hash (f : ScannedFile) : option string :=
  if FileID_IsZero (sf_FileID f) then None else seenFileIDs !! FileID_Bytes (sf_FileID f).

Definition CheckAlreadySeeding (searchee : Searchee) : bool * string :=
  if bool_decide (seenFileIDs = ∅) || bool_decide (sr_Files searchee = []) then (false, "") else
  let hashes := omap seeding_hash (sr_Files searchee) in
  let torrentHash := foldl (λ acc hash, if bool_decide (acc = "") then hash else acc) "" hashes in
  ((length hashes =? length (sr_Files searchee))%nat && (0 <? length hashes)%nat, torrentHash).

(** The searchee of an entry, with what it adds to the counts. *)
Definition add_searchee (searchee : Searchee) (result : ScanResult) : ScanResult :=
  let alreadySeeding := (CheckAlreadySeeding searchee).1 in
  let n := Z.of_nat (length (sr_Files searchee)) in
  if alreadySeeding then
    MkScanResult (sc_Searchees result ++ [searchee]) (sc_TotalFiles result) (sc_TotalSize result) (sc_SkippedFiles result + n)
  else
    MkScanResult (sc_Searchees result ++ [searchee]) (sc_TotalFiles result + n)
      (foldl (λ total f, i64 (total + sf_Size f)) (sc_TotalSize result) (sr_Files searchee)) (sc_SkippedFiles result).

Definition processDirEntry (p : path) (name : string) (result : ScanResult) : ScanResult :=
  match scanSearcheeDir p name with
  | Some searchee => if bool_decide (sr_Files searchee = []) then result else add_searchee searchee result
  | None => result
  end.

Definition processFileEntry (p : path) (result : ScanResult) : ScanResult :=
  match scanSingleFile p with Some searchee => add_searchee searchee result | None => result end.

Definition processRootEntry (p : path) (name : string) (e : entry) (result : ScanResult) : ScanResult :=
  if is_dir e then processDirEntry p name result
  else if isMediaFile name then processFileEntry p result else result.

Fixpoint scan_entries (root : path) (entries : list (string * entry)) (result : ScanResult) : ScanResult * option scan_error :=
  match entries with
  | [] => (result, None)
  | (name, e) :: entries =>
    if canceled false (root ++ [name]) then (result, Some ScanCanceled)
    else if is_hidden name then scan_entries root entries result
    else scan_entries root entries (processRootEntry (root ++ [name]) name e result)
  end.

Definition empty_scan : ScanResult := MkScanResult [] 0 0 0.

Definition ScanDirectory (rootPath : string) : option ScanResult * option scan_error :=
  let root := to_path (Clean rootPath) in
  match ReadDir fs root with
  | None => (None, Some ReadFailed)
  | Some entries => let '(result, err) := scan_entries root entries empty_scan in (Some result, err)
  end.
End scanner.

(** ** Identities *)

Lemma chr_land n m : (0 ≤ n)%Z → (0 ≤ m)%Z → chr (Z.land n 255) = chr (Z.land m 255) → Z.land n 255 = Z.land m 255.
Proof.
  intros Hn Hm E. change 255%Z with (Z.ones 8) in *. rewrite !Z.land_ones in * by lia.
  apply (f_equal byte) in E. unfold byte, chr in E.
  assert (∀ z, 0 ≤ z → Z.of_N (N_of_ascii (ascii_of_N (Z.to_N (z mod 2 ^ 8)))) = z mod 2 ^ 8)%Z as Hb.
  { intros z Hz. pose proof (Z.mod_pos_bound z (2 ^ 8)). rewrite N_ascii_embedding by lia. lia. }
  by rewrite !Hb in E by done.
Qed.

Lemma big_endian_inj n m :
  (0 ≤ n < 2 ^ 64)%Z → (0 ≤ m < 2 ^ 64)%Z → big_endian n = big_endian m → n = m.
Proof.
  intros Hn Hm E. unfold big_endian in E. cbn [fmap list_fmap] in E. injection E as E7 E6 E5 E4 E3 E2 E1 E0.
  repeat match goal with H : chr (Z.land (Z.shiftr n ?k) 255) = _ |- _ =>
    apply chr_land in H; [|apply Z.shiftr_nonneg; lia..] end.
  apply Z.bits_inj'. intros i Hi.
  destruct (Z.le_gt_cases 64 i) as [Hbig|Hsmall].
  { rewrite !Z.bits_above_log2; try done; [lia| |lia|].
    - destruct (decide (m = 0)%Z) as [->|]; [cbn; lia|]. apply Z.log2_lt_pow2; [lia|]. eapply Z.lt_le_trans; [apply Hm|by apply Z.pow_le_mono_r].
    - destruct (decide (n = 0)%Z) as [->|]; [cbn; lia|]. apply Z.log2_lt_pow2; [lia|]. eapply Z.lt_le_trans; [apply Hn|by apply Z.pow_le_mono_r]. }
  assert (∀ k, (k ≤ i < k + 8)%Z → Z.land (Z.shiftr n k) 255 = Z.land (Z.shiftr m k) 255 → Z.testbit n i = Z.testbit m i) as Hbit.
  { intros k Hk Eq. apply (f_equal (λ z, Z.testbit z (i - k))) in Eq. change 255%Z with (Z.ones 8) in Eq.
    rewrite !Z.land_spec, !Z.shiftr_spec, Z.ones_spec_low, !andb_true_r in Eq by lia.
    by replace (i - k + k)%Z with i in Eq by lia. }
  assert (0 ≤ i < 8 ∨ 8 ≤ i < 16 ∨ 16 ≤ i < 24 ∨ 24 ≤ i < 32 ∨ 32 ≤ i < 40 ∨ 40 ≤ i < 48 ∨ 48 ≤ i < 56 ∨ 56 ≤ i < 64)%Z
    as [H'|[H'|[H'|[H'|[H'|[H'|[H'|H']]]]]]] by lia;
    [apply (Hbit 0%Z)|apply (Hbit 8%Z)|apply (Hbit 16%Z)|apply (Hbit 24%Z)|apply (Hbit 32%Z)|apply (Hbit 40%Z)|apply (Hbit 48%Z)|apply (Hbit 56%Z)];
    first [lia|assumption].
Qed.

Definition id_ok (f : FileID) : Prop := (0 ≤ Dev f < 2 ^ 64)%Z ∧ (0 ≤ Ino f < 2 ^ 64)%Z.

(** The bytes of an identity tell files apart. *)
Lemma FileID_Bytes_inj f g : id_ok f → id_ok g → FileID_Bytes f = FileID_Bytes g → f = g.
Proof.
  intros [Hfd Hfi] [Hgd Hgi] E. apply (f_equal to_bytes) in E. unfold FileID_Bytes in E. rewrite !to_of_bytes in E.
  unfold fillBytes in E. apply app_inj_1 in E as [Ed Ei]; [|done].
  apply big_endian_inj in Ed, Ei; [|done..]. destruct f, g; cbn in *; by subst.
Qed.

(** ** What a scan finds *)

Section found.
Context `{!UnicodeCase}.
Context (faults : Faults) (fs : FS) (linked : path → option FileInfo) (seenFileIDs : gmap string string)
  (canceled : bool → path → bool).
Context (Hwf : fs_wf fs).
(** The scan is not cancelled, and only permissions are missing. *)
Context (Hrun : ∀ w p, canceled w p = false).
Context (Hreadable : ∀ p msg, fs !! p = Some (EDir (Some msg)) → is_permission (OtherError msg) = true).
Context (Hstat : ∀ p, lstat_fault faults p = None).

Lemma wf_plain p e : fs !! p = Some e → Forall plain p.
Proof. destruct Hwf as [Hp _]. apply Hp. Qed.

Lemma entry_name_snoc p n : Forall plain (p ++ [n]) → entry_name (p ++ [n]) = n.
Proof. apply Base_abs. Qed.

(** A walk stays out of hidden directories. *)
Definition hidden_dir (p : path) : bool := is_hidden (entry_name p).

Definition kept (root : path) (isDisc : bool) (pe : path * entry) : option ScannedFile :=
  if shouldSkipEntry pe.1 pe.2 || negb (shouldProcessFile pe.1 pe.2 isDisc) then None else
  match pe.2 with
  | EFile (Some info) => Some (scanned_file (abs_path pe.1) (default (entry_name pe.1) (Rel (abs_path root) (abs_path pe.1))) info)
  | _ => None
  end.

Lemma walk_step_kept root isDisc files pe :
  visit (walkDirEntry canceled (abs_path root) isDisc) hidden_dir files pe = files ++ option_list (kept root isDisc pe).
Proof.
  destruct pe as [p e]. unfold visit, walkDirEntry, kept. cbn [fst snd]. rewrite Hrun.
  assert (∀ (l : list ScannedFile), l ++ [] = l) as Hnil by apply app_nil_r.
  destruct (shouldSkipEntry p e) eqn:Es; cbn [orb].
  { destruct e as [| |[msg|]]; cbn [fst]; rewrite ?Hnil; try done. destruct (hidden_dir p); [done|]. by destruct (is_permission _). }
  destruct (shouldProcessFile p e isDisc) eqn:Ep; cbn [negb fst].
  - destruct e as [[info|]| |[msg|]]; cbn [fst addFileToSearchee]; rewrite ?Hnil; try done.
  - destruct e as [| |[msg|]]; cbn [fst]; rewrite ?Hnil; try done. destruct (hidden_dir p); [done|]. by destruct (is_permission _).
Qed.

Lemma kept_fold root isDisc l files :
  foldl (visit (walkDirEntry canceled (abs_path root) isDisc) hidden_dir) files l = files ++ omap (kept root isDisc) l.
Proof.
  revert files. induction l as [|pe l IH]; intros files; cbn [foldl omap list_omap]; [by rewrite app_nil_r|].
  rewrite IH, walk_step_kept, <- app_assoc. by destruct (kept root isDisc pe).
Qed.

(** What a walk of a folder gives. *)
Lemma scanSearcheeDir_visits p name e : fs !! p = Some e →
  scanSearcheeDir faults fs canceled p name =
  Some (MkSearchee name (abs_path p) (omap (kept p (isDiscLayoutRoot fs p)) (visits fs p hidden_dir)) (isDiscLayoutRoot fs p)).
Proof.
  intros He. unfold scanSearcheeDir.
  assert (Lstat faults fs p = inl e) as Hl by (unfold Lstat; by rewrite Hstat, He).
  rewrite (WalkDir_visits _ fs p hidden_dir) with (e := e); [by rewrite kept_fold| | |done].
  - intros q d s Hq _. unfold walkDirEntry. rewrite Hrun. unfold shouldSkipEntry, hidden_dir.
    destruct (is_hidden (entry_name q)); [by rewrite andb_true_r|]. rewrite andb_false_r.
    destruct d; [|done|]; by destruct (negb _).
  - intros q msg s Hq _ _. unfold walkDirEntry. by rewrite (Hreadable _ _ Hq).
Qed.

(** *** The files of a folder *)

(** No name on the way is hidden, and every folder on the way can be read. *)
Definition open_way (p r : path) : Prop :=
  Forall (λ n, is_hidden n = false) r ∧
  ∀ r1 r2, r = r1 ++ r2 → r2 ≠ [] → fs !! (p ++ r1) = Some (EDir None).

Lemma visits_open p r e :
  hidden_dir p = false → r ≠ [] →
  (p ++ r, e) ∈ visits fs p hidden_dir ∧ hidden_dir (p ++ r) = false ↔ fs !! (p ++ r) = Some e ∧ open_way p r.
Proof.
  intros Hp Hr. rewrite elem_of_visits, reached_spec by by apply prefix_app_r.
  assert (∀ r1 n, Forall plain (p ++ r1 ++ [n]) → hidden_dir (p ++ r1 ++ [n]) = is_hidden n) as Hname.
  { intros r1 n Hpl. unfold hidden_dir. rewrite app_assoc in *. by rewrite entry_name_snoc. }
  assert (fs !! (p ++ r) = Some e → ∀ r1 r2, r = r1 ++ r2 → r2 ≠ [] → ∃ err, fs !! (p ++ r1) = Some (EDir err)) as Hdirs.
  { intros He r1 r2 -> Hr2. rewrite app_assoc in He. by apply (wf_prefix fs Hwf _ _ _ He). }
  split.
  - intros [(He & _ & Hall) Hlast]. split; [done|].
    assert (∀ r1 r2, r = r1 ++ r2 → r2 ≠ [] → fs !! (p ++ r1) = Some (EDir None) ∧ hidden_dir (p ++ r1) = false) as Hway.
    { intros r1 r2 E Hr2. destruct (Hdirs He _ _ E Hr2) as [err Herr].
      assert (closed hidden_dir (p ++ r1) (EDir err) = false) as Hc.
      { eapply Hall; [by rewrite E, app_assoc|done|by apply prefix_app_r|done]. }
      unfold closed in Hc. apply orb_false_iff in Hc as [Hh Hs]. apply bool_decide_eq_false in Hs.
      split; [|done]. rewrite Herr. destruct err; [|done]. exfalso. apply Hs. by eexists. }
    split; [|naive_solver]. apply Forall_forall. intros n (l1 & l2 & E)%list_elem_of_split.
    assert (Forall plain (p ++ l1 ++ [n])) as Hpl.
    { pose proof (wf_plain _ _ He) as Hpl. rewrite E, !Forall_app, Forall_cons in Hpl. rewrite !Forall_app, Forall_singleton. tauto. }
    rewrite <- (Hname l1 n Hpl).
    destruct l2 as [|m l2]; [by rewrite <- E|]. apply (Hway (l1 ++ [n]) (m :: l2)); [by rewrite E, <- app_assoc|done].
  - intros [He [Hhid Hway]]. pose proof (wf_plain _ _ He) as Hpl.
    assert (∀ r1 r2, r = r1 ++ r2 → hidden_dir (p ++ r1) = false) as Hopen.
    { intros r1 r2 E. destruct r1 as [|n r1 _] using rev_ind; [by rewrite app_nil_r|].
      rewrite Hname; [|rewrite E in Hpl; rewrite app_assoc in Hpl; by apply Forall_app in Hpl as [? _]].
      rewrite E, !Forall_app in Hhid. destruct Hhid as [[_ Hn] _]. by inversion Hn. }
    split_and!; [done|by apply prefix_app_r| |by apply (Hopen r []); rewrite app_nil_r].
    intros q r2 e' E Hr2 [r1 ->] He'. rewrite <- app_assoc in E. apply app_inv_head in E.
    rewrite (Hway r1 r2 E Hr2) in He'. injection He' as <-. unfold closed. rewrite (Hopen r1 r2 E). done.
Qed.

Lemma hidden_snoc p n : Forall plain (p ++ [n]) → hidden_dir (p ++ [n]) = is_hidden n.
Proof. intros Hp. unfold hidden_dir. by rewrite entry_name_snoc. Qed.

Lemma searchee_files p err f : fs !! p = Some (EDir err) → hidden_dir p = false →
  f ∈ omap (kept p (isDiscLayoutRoot fs p)) (visits fs p hidden_dir) ↔
  ∃ r n info, fs !! (p ++ r ++ [n]) = Some (EFile (Some info)) ∧ open_way p (r ++ [n]) ∧
    isDiscLayoutRoot fs p || isMediaFile n = true ∧
    f = scanned_file (abs_path (p ++ r ++ [n])) (unsplit (r ++ [n])) info.
Proof.
  intros Hdir Hp. rewrite list_elem_of_omap. split.
  - intros ([q e] & Hv & Hk). unfold kept in Hk. cbn [fst snd] in Hk.
    destruct (shouldSkipEntry q e || _) eqn:Es; [done|]. apply orb_false_iff in Es as [Es Ep%negb_false_iff].
    destruct e as [[info|]| |]; try done. injection Hk as <-.
    pose proof Hv as (Hq & [r ->] & _)%elem_of_visits.
    destruct r as [|n r _] using rev_ind.
    { rewrite app_nil_r in Hq. pose proof (eq_trans (eq_sym Hdir) Hq) as [=]. }
    assert (hidden_dir (p ++ r ++ [n]) = false) as Hh.
    { unfold shouldSkipEntry in Es. unfold hidden_dir. by destruct (is_hidden _). }
    destruct (proj1 (visits_open p (r ++ [n]) (EFile (Some info)) Hp ltac:(by destruct r)) (conj Hv Hh)) as [_ Hway].
    pose proof (wf_plain _ _ Hq) as Hpl. exists r, n, info. split_and!; [done|done| |].
    + unfold shouldProcessFile in Ep. cbn [is_dir] in Ep. rewrite app_assoc in Ep, Hpl. by rewrite entry_name_snoc in Ep.
    + rewrite Rel_abs by done. by rewrite bool_decide_false by by destruct r.
  - intros (r & n & info & Hq & Hway & Hmedia & ->). pose proof (wf_plain _ _ Hq) as Hpl.
    destruct (proj2 (visits_open p (r ++ [n]) _ Hp ltac:(by destruct r)) (conj Hq Hway)) as [Hv Hh].
    exists (p ++ r ++ [n], EFile (Some info)). split; [done|]. unfold kept. cbn [fst snd].
    unfold shouldSkipEntry. unfold hidden_dir in Hh. rewrite Hh. unfold shouldProcessFile. cbn [is_dir orb].
    assert (entry_name (p ++ r ++ [n]) = n) as -> by (rewrite app_assoc in *; by apply entry_name_snoc).
    rewrite Hmedia. cbn [negb]. rewrite Rel_abs by done. by rewrite bool_decide_false by by destruct r.
Qed.

Lemma kept_path root isDisc pe f : kept root isDisc pe = Some f → sf_Path f = abs_path pe.1.
Proof. unfold kept. repeat case_match; try done. by intros [= <-]. Qed.

Lemma visits_paths_NoDup p isDisc : NoDup (sf_Path <$> omap (kept p isDisc) (visits fs p hidden_dir)).
Proof.
  assert (NoDup (visits fs p hidden_dir).*1) as Hnd.
  { eapply sublist_NoDup; [apply (subtree_NoDup fs p)|]. apply fmap_sublist, sublist_filter. }
  assert (∀ pe, pe ∈ visits fs p hidden_dir → Forall plain pe.1) as Hpl.
  { intros [q e] (Hq & _)%elem_of_visits. by eapply wf_plain. }
  induction (visits fs p hidden_dir) as [|pe l IH]; [constructor|]. cbn [omap list_omap fmap list_fmap] in *.
  inversion Hnd as [|?? Hn Hnd']; subst. specialize (IH Hnd' (λ pe' H', Hpl pe' (list_elem_of_further _ _ _ H'))).
  destruct (kept p isDisc pe) as [f|] eqn:Ek; [|done]. cbn [fmap list_fmap]. constructor; [|done].
  intros (f' & Ef & (pe' & Hin & Ek')%list_elem_of_omap)%list_elem_of_fmap.
  rewrite (kept_path _ _ _ _ Ek), (kept_path _ _ _ _ Ek') in Ef.
  apply abs_path_inj in Ef; [|apply Hpl; by left|apply Hpl; by right]. apply Hn. rewrite Ef. by apply list_elem_of_fmap_2.
Qed.

(** *** The searchees of a directory *)

Definition searchee_of (root : path) (ne : string * entry) : option Searchee :=
  let '(n, e) := ne in
  if is_hidden n then None
  else if is_dir e then
    match scanSearcheeDir faults fs canceled (root ++ [n]) n with
    | Some searchee => if bool_decide (sr_Files searchee = []) then None else Some searchee
    | None => None
    end
  else if isMediaFile n then scanSingleFile faults fs linked (root ++ [n]) else None.

Lemma scan_entries_fold root entries result :
  scan_entries faults fs linked seenFileIDs canceled root entries result =
  (foldl (λ r s, add_searchee seenFileIDs s r) result (omap (searchee_of root) entries), None).
Proof.
  revert result. induction entries as [|[n e] entries IH]; intros result; [done|]. cbn [scan_entries omap list_omap].
  rewrite Hrun. unfold searchee_of at 1. destruct (is_hidden n); [apply IH|]. rewrite IH. unfold processRootEntry.
  destruct (is_dir e).
  - unfold processDirEntry. destruct (scanSearcheeDir _ _ _ _ _); [|done]. by case_bool_decide.
  - destruct (isMediaFile n); [|done]. unfold processFileEntry. by destruct (scanSingleFile _ _ _ _).
Qed.

(** The files of searchees that are seeded already, or of those that are not. *)
Definition files_seeding (seeding : bool) (searchees : list Searchee) : list ScannedFile :=
  concat (sr_Files <$> filter (λ s, (CheckAlreadySeeding seenFileIDs s).1 = seeding) searchees).

Lemma add_searchees_spec searchees result :
  let r := foldl (λ r s, add_searchee seenFileIDs s r) result searchees in
  sc_Searchees r = sc_Searchees result ++ searchees ∧
  sc_TotalFiles r = (sc_TotalFiles result + Z.of_nat (length (files_seeding false searchees)))%Z ∧
  sc_SkippedFiles r = (sc_SkippedFiles result + Z.of_nat (length (files_seeding true searchees)))%Z ∧
  sc_TotalSize r = foldl (λ total f, i64 (total + sf_Size f)) (sc_TotalSize result) (files_seeding false searchees).
Proof.
  cbv zeta. revert result. induction searchees as [|s searchees IH]; intros result; cbn [foldl].
  { rewrite app_nil_r. split_and!; cbn; lia || done. }
  destruct (IH (add_searchee seenFileIDs s result)) as (Hs & Ht & Hk & Hz). rewrite Hs, Ht, Hk, Hz.
  unfold files_seeding, add_searchee. rewrite !filter_cons.
  destruct (CheckAlreadySeeding seenFileIDs s).1; cbn [sc_Searchees sc_TotalFiles sc_SkippedFiles sc_TotalSize];
    repeat case_decide; try done; cbn [fmap list_fmap concat]; rewrite ?length_app, ?foldl_app, <- app_assoc;
    (split_and!; [done|lia|lia|done]).
Qed.

(** What a scan of [root] finds: a media file of the directory itself, whose
    details can be read, or a file below one of its folders, on an open way, that
    is a media file or belongs to a disc. *)
Definition found (root : path) (q : path) : Prop :=
  ∃ n, is_hidden n = false ∧
    ((∃ e, q = root ++ [n] ∧ fs !! q = Some e ∧ is_dir e = false ∧ isMediaFile n = true ∧
        is_Some (Stat faults fs linked q)) ∨
     (∃ r m info, q = root ++ [n] ++ r ++ [m] ∧ fs !! q = Some (EFile (Some info)) ∧ open_way (root ++ [n]) (r ++ [m]) ∧
        isDiscLayoutRoot fs (root ++ [n]) || isMediaFile m = true)).

Lemma scan_dir_of root n e :
  fs !! (root ++ [n]) = Some e →
  scanSearcheeDir faults fs canceled (root ++ [n]) n =
  Some (MkSearchee n (abs_path (root ++ [n])) (omap (kept (root ++ [n]) (isDiscLayoutRoot fs (root ++ [n])))
    (visits fs (root ++ [n]) hidden_dir)) (isDiscLayoutRoot fs (root ++ [n]))).
Proof. apply scanSearcheeDir_visits. Qed.

(** The files of the searchee of an entry. *)
Lemma searchee_of_files root n e searchee :
  fs !! (root ++ [n]) = Some e → searchee_of root (n, e) = Some searchee →
  sr_Files searchee ≠ [] ∧ NoDup (sf_Path <$> sr_Files searchee) ∧ is_hidden n = false ∧
  ∀ f, f ∈ sr_Files searchee → ∃ r, Forall plain (root ++ n :: r) ∧ sf_Path f = abs_path (root ++ n :: r).
Proof.
  intros He. pose proof (wf_plain _ _ He) as Hpl. unfold searchee_of.
  destruct (is_hidden n) eqn:Hh; [done|]. destruct (is_dir e) eqn:Hd.
  - rewrite (scan_dir_of _ _ _ He). cbn [sr_Files]. case_bool_decide as Hne; [done|]. intros [= <-]. cbn [sr_Files].
    split_and!; [done|apply visits_paths_NoDup|done|]. destruct e as [| |err]; try done.
    intros f (r & m & info & Hq & _ & _ & ->)%(searchee_files _ _ _ He); [|by rewrite hidden_snoc].
    exists (r ++ [m]). rewrite <- app_assoc in Hq. split; [by apply wf_plain in Hq|]. cbn [sf_Path]. unfold scanned_file. cbn.
    by rewrite <- app_assoc.
  - destruct (isMediaFile n); [|done]. unfold scanSingleFile. destruct (Stat _ _ _ _) as [info|]; [|done].
    intros [= <-]. cbn [sr_Files]. split_and!; [done|apply NoDup_singleton|done|].
    intros f ->%list_elem_of_singleton. exists []. by split.
Qed.

Lemma searchee_of_found root n e q :
  fs !! (root ++ [n]) = Some e →
  (∃ searchee f, searchee_of root (n, e) = Some searchee ∧ f ∈ sr_Files searchee ∧ sf_Path f = abs_path q) ∧ Forall plain q ↔
  found root q ∧ (∃ r, q = root ++ n :: r).
Proof.
  intros He. pose proof (wf_plain _ _ He) as Hpl. split.
  - intros [(searchee & f & Hs & Hf & Hq) Hplq].
    destruct (searchee_of_files _ _ _ _ He Hs) as (_ & _ & Hh & Hin). destruct (Hin f Hf) as (r & Hplr & Hr).
    rewrite Hq in Hr. apply abs_path_inj in Hr as ->; [|done..]. split; [|by eexists]. exists n. split; [done|].
    unfold searchee_of in Hs. rewrite Hh in Hs. destruct (is_dir e) eqn:Hd.
    + right. rewrite (scan_dir_of _ _ _ He) in Hs. cbn [sr_Files] in Hs. case_bool_decide; [done|]. injection Hs as <-.
      destruct e as [| |err]; try done. cbn [sr_Files] in Hf.
      apply (searchee_files _ _ _ He) in Hf as (r' & m & info & Hq' & Hway & Hmedia & ->); [|by rewrite hidden_snoc].
      unfold scanned_file in Hq. cbn in Hq.
      apply abs_path_inj in Hq; [|by apply wf_plain in Hq'|done]. rewrite <- Hq. rewrite <- app_assoc in Hq'.
      exists r', m, info. by rewrite <- app_assoc.
    + left. destruct (isMediaFile n) eqn:Hm; [|done]. unfold scanSingleFile in Hs.
      destruct (Stat _ _ _ _) as [info|] eqn:Hst; [|done]. injection Hs as <-. cbn [sr_Files] in Hf.
      apply list_elem_of_singleton in Hf as ->. unfold scanned_file in Hq. cbn in Hq.
      apply abs_path_inj in Hq; [|done..]. exists e. rewrite <- Hq. split_and!; done.
  - intros [(n' & Hh & Hcases) (r & ->)].
    destruct Hcases as [(e' & Eq & He' & Hd & Hm & Hst)|(r' & m & info & Eq & Hq & Hway & Hmedia)].
    + apply app_inv_head in Eq. injection Eq as -> ->. split; [|done].
      unfold searchee_of. rewrite Hh, Hm. pose proof (eq_trans (eq_sym He) He') as [= ->]. rewrite Hd. unfold scanSingleFile.
      destruct Hst as [info Hst]. rewrite Hst. eexists _, _. split_and!; [done|by left|done].
    + apply app_inv_head in Eq. cbn [app] in Eq. injection Eq as -> ->.
      assert (fs !! ((root ++ [n']) ++ r' ++ [m]) = Some (EFile (Some info))) as Hq' by by rewrite <- app_assoc.
      split; [|by apply wf_plain in Hq]. destruct Hway as [Hhid Hway].
      pose proof (Hway [] (r' ++ [m]) eq_refl ltac:(by destruct r')) as Hdir. rewrite app_nil_r in Hdir.
      pose proof (eq_trans (eq_sym He) Hdir) as [= ->]. unfold searchee_of. rewrite Hh. cbn [is_dir].
      rewrite (scan_dir_of _ _ _ He). cbn [sr_Files].
      assert (scanned_file (abs_path ((root ++ [n']) ++ r' ++ [m])) (unsplit (r' ++ [m])) info ∈
        omap (kept (root ++ [n']) (isDiscLayoutRoot fs (root ++ [n']))) (visits fs (root ++ [n']) hidden_dir)) as Hf.
      { apply (searchee_files _ _ _ He); [by rewrite hidden_snoc|]. exists r', m, info. by split_and!. }
      rewrite bool_decide_false by (intros E; rewrite E in Hf; by apply elem_of_nil in Hf).
      eexists _, _. split_and!; [done|exact Hf|]. unfold scanned_file. cbn. by rewrite <- app_assoc.
Qed.

Definition all_files (searchees : list Searchee) : list ScannedFile := concat (sr_Files <$> searchees).

Lemma elem_of_all_files f searchees : f ∈ all_files searchees ↔ ∃ s, s ∈ searchees ∧ f ∈ sr_Files s.
Proof.
  unfold all_files. induction searchees as [|s l IH]; cbn [fmap list_fmap concat].
  { split; [by intros ?%elem_of_nil|by intros (s & ?%elem_of_nil & _)]. }
  rewrite elem_of_app, IH. setoid_rewrite elem_of_cons. naive_solver.
Qed.

Lemma ReadDir_NoDup dir entries : ReadDir fs dir = Some entries → NoDup entries.*1.
Proof.
  unfold ReadDir. destruct (fs !! dir) as [[| |[]]|]; try done. intros [= <-].
  pose proof (subtree_NoDup fs dir) as Hnd. induction (subtree fs dir) as [|[q e] l IH]; [constructor|].
  cbn [omap list_omap]. inversion Hnd as [|?? Hn Hnd']; subst. specialize (IH Hnd').
  destruct (rev q) as [|n up] eqn:Er; [done|]. case_bool_decide as E; [|done]. cbn [fmap list_fmap fst]. constructor; [|done].
  intros ([n' e'] & En & (x & Hin & Hx)%list_elem_of_omap)%list_elem_of_fmap. cbn [fst] in En. subst n'.
  destruct x as [q' e'']. destruct (rev q') as [|n' up'] eqn:Er'; [done|]. case_bool_decide as E'; [|done]. injection Hx as -> ->.
  apply Hn. cbn [fst]. assert (q = q') as ->; [|by apply (list_elem_of_fmap_2 fst _ (q', e'))].
  rewrite <- (rev_involutive q), <- (rev_involutive q'), Er, Er'. cbn [rev]. congruence.
Qed.

Lemma searchees_NoDup root entries :
  (∀ n e, (n, e) ∈ entries → fs !! (root ++ [n]) = Some e) → NoDup entries.*1 →
  NoDup (sf_Path <$> all_files (omap (searchee_of root) entries)).
Proof.
  intros Hin Hnd. induction entries as [|[n e] entries IH]; [constructor|]. cbn [fmap list_fmap fst] in Hnd.
  inversion Hnd as [|?? Hn Hnd']; subst. specialize (IH (λ n e H', Hin n e (list_elem_of_further _ _ _ H')) Hnd').
  cbn [omap list_omap]. destruct (searchee_of root (n, e)) as [s|] eqn:Es; [|done].
  assert (fs !! (root ++ [n]) = Some e) as He by (apply Hin; by left).
  destruct (searchee_of_files _ _ _ _ He Es) as (_ & Hnds & _ & Hpaths).
  unfold all_files. cbn [fmap list_fmap concat]. fold (all_files (omap (searchee_of root) entries)).
  rewrite fmap_app. apply NoDup_app. split_and!; [done| |done].
  intros p0 (f & -> & Hf)%list_elem_of_fmap (f' & Ef & (s' & Hs' & Hf')%elem_of_all_files)%list_elem_of_fmap.
  apply list_elem_of_omap in Hs' as ([n' e'] & Hin' & Es').
  assert (fs !! (root ++ [n']) = Some e') as He' by (apply Hin; by right).
  destruct (searchee_of_files _ _ _ _ He' Es') as (_ & _ & _ & Hpaths').
  destruct (Hpaths f Hf) as (r & Hpl & Hr), (Hpaths' f' Hf') as (r' & Hpl' & Hr'). rewrite Ef, Hr' in Hr.
  apply abs_path_inj in Hr; [|done..]. apply app_inv_head in Hr. injection Hr as -> _. apply Hn.
  by apply (list_elem_of_fmap_2 fst _ (n, e')).
Qed.

(** C13. A scan that is not cancelled, when directories are unreadable for lack of
    permission only, finds each media file of the directory and each file of a
    disc or media file on an open way below one of its folders exactly once, and
    nothing else; every searchee has files, and every file counts either as to
    be searched or, when all files of its searchee are seeded, as skipped. *)
Theorem scan_exact (root : path) :
  fs !! root = Some (EDir None) →
  ∃ result, ScanDirectory faults fs linked seenFileIDs canceled (abs_path root) = (Some result, None) ∧
    Forall (λ s, sr_Files s ≠ []) (sc_Searchees result) ∧
    NoDup (sf_Path <$> all_files (sc_Searchees result)) ∧
    (∀ q, Forall plain q → abs_path q ∈ sf_Path <$> all_files (sc_Searchees result) ↔ found root q) ∧
    (sc_TotalFiles result + sc_SkippedFiles result)%Z = Z.of_nat (length (all_files (sc_Searchees result))) ∧
    sc_SkippedFiles result = Z.of_nat (length (files_seeding true (sc_Searchees result))).
Proof.
  intros Hroot. pose proof (wf_plain _ _ Hroot) as Hpl. unfold ScanDirectory.
  rewrite Clean_abs_path, to_path_abs by done.
  destruct (ReadDir fs root) as [entries|] eqn:Hread; [|unfold ReadDir in Hread; by rewrite Hroot in Hread].
  rewrite scan_entries_fold. eexists. split; [done|].
  pose proof (elem_of_ReadDir fs root entries) as Helem.
  assert (∀ n e, (n, e) ∈ entries → fs !! (root ++ [n]) = Some e) as Hin by (intros n e; by apply Helem).
  destruct (add_searchees_spec (omap (searchee_of root) entries) empty_scan) as (Hs & Ht & Hk & _).
  rewrite Hs, Ht, Hk. cbn [sc_Searchees sc_TotalFiles sc_SkippedFiles empty_scan app]. split_and!.
  - apply Forall_forall. intros s ([n e] & Hne & Es)%list_elem_of_omap. by apply (searchee_of_files root n e); [apply Hin|].
  - apply searchees_NoDup; [done|by apply (ReadDir_NoDup root)].
  - intros q Hq. split.
    + intros (f & Ef & (s & ([n e] & Hne & Es)%list_elem_of_omap & Hf)%elem_of_all_files)%list_elem_of_fmap.
      apply (searchee_of_found root n e q); [by apply Hin|]. split; [|done]. by exists s, f.
    + intros Hf. assert (∃ n r e, q = root ++ n :: r ∧ fs !! (root ++ [n]) = Some e) as (n & r & e & -> & He).
      { destruct Hf as (n & _ & [(e & -> & He & _)|(r & m & info & -> & Hq' & [_ Hway] & _)]).
        - by exists n, [], e.
        - specialize (Hway [] (r ++ [m]) eq_refl ltac:(by destruct r)). rewrite app_nil_r in Hway. by exists n, (r ++ [m]), (EDir None). }
      destruct (proj2 (searchee_of_found root n e _ He) (conj Hf (ex_intro _ r eq_refl))) as [(s & f & Es & Hfs & Hp) _].
      apply list_elem_of_fmap. exists f. split; [done|]. apply elem_of_all_files. exists s. split; [|done].
      apply list_elem_of_omap. exists (n, e). split; [by apply Helem|done].
  - generalize (omap (searchee_of root) entries). intros l. unfold files_seeding, all_files.
    assert (length (concat (sr_Files <$> filter (λ s, (CheckAlreadySeeding seenFileIDs s).1 = false) l)) +
      length (concat (sr_Files <$> filter (λ s, (CheckAlreadySeeding seenFileIDs s).1 = true) l)) = length (concat (sr_Files <$> l))) as Hl; [|lia].
    induction l as [|s l IH]; [done|]. rewrite !filter_cons.
    destruct (CheckAlreadySeeding seenFileIDs s).1; repeat case_decide; try done;
      cbn [fmap list_fmap concat]; rewrite !length_app; lia.
  - done.
Qed.
End found.

(** ** A run *)

Section runs.
#[local] Existing Instance AsciiCase.

Definition file_of (ino n : Z) : entry := EFile (Some (MkInfo n 0 1 ino 1)).

(** A season with a hidden folder, a disc, a movie, and what is no media. *)
Definition sample_media : FS := list_to_map
  [([], EDir None); (["media"], EDir None);
   (["media"; "Show"], EDir None); (["media"; "Show"; "e1.mkv"], file_of 11 100); (["media"; "Show"; "cover.jpg"], file_of 12 1);
   (["media"; "Show"; ".trash"], EDir None); (["media"; "Show"; ".trash"; "e0.mkv"], file_of 13 100);
   (["media"; "Disc"], EDir None); (["media"; "Disc"; "BDMV"], EDir None);
   (["media"; "Disc"; "BDMV"; "index.bdmv"], file_of 14 5);
   (["media"; "Movie.MKV"], file_of 15 700); (["media"; "notes.txt"], file_of 16 1)].

Definition seeded_movie : gmap string string := {[FileID_Bytes (MkFileID 1 15) := "hash"]}.

Definition scanned_media : option ScanResult * option scan_error :=
  ScanDirectory no_faults sample_media (λ _, None) seeded_movie (λ _ _, false) "/media".

Lemma scan_exact_witness :
  (∃ result, scanned_media = (Some result, None) ∧ sc_TotalFiles result = 2%Z ∧ sc_SkippedFiles result = 1%Z ∧
     (sf_RelPath <$> all_files (sc_Searchees result)) = ["BDMV/index.bdmv"; "Movie.MKV"; "e1.mkv"]) ∧
  found no_faults sample_media (λ _, None) ["media"] ["media"; "Disc"; "BDMV"; "index.bdmv"] ∧
  ¬ found no_faults sample_media (λ _, None) ["media"] ["media"; "Show"; ".trash"; "e0.mkv"].
Proof.
  destruct (scan_exact no_faults sample_media (λ _, None) seeded_movie (λ _ _, false)) with (root := ["media"])
    as (result & Hscan & _ & _ & Hfound & Hsum & Hskip).
  - apply fs_wf_checked. by vm_compute.
  - done.
  - intros p msg Hp. exfalso.
    assert (forallb (λ pe, match pe.2 with EDir (Some _) => false | _ => true end) (map_to_list sample_media) = true) as Hall
      by by vm_compute.
    rewrite forallb_forall in Hall. unfold FS in *. apply elem_of_map_to_list, list_elem_of_In, Hall in Hp. done.
  - done.
  - by vm_compute.
  - change (abs_path ["media"]) with "/media" in Hscan. fold scanned_media in Hscan.
    assert (∀ q, Forall plain q → abs_path q ∈ sf_Path <$> all_files (sc_Searchees result) ↔
      found no_faults sample_media (λ _, None) ["media"] q) as Hf by exact Hfound.
    assert (option_map (λ r, sf_Path <$> all_files (sc_Searchees r)) scanned_media.1 =
      Some ["/media/Disc/BDMV/index.bdmv"; "/media/Movie.MKV"; "/media/Show/e1.mkv"]) as Hpaths by by vm_compute.
    rewrite Hscan in Hpaths. injection Hpaths as Hpaths.
    split; [|split].
    + exists result. split; [done|].
      assert (option_map (λ r, (sc_TotalFiles r, sc_SkippedFiles r, sf_RelPath <$> all_files (sc_Searchees r))) scanned_media.1 =
        Some (2%Z, 1%Z, ["BDMV/index.bdmv"; "Movie.MKV"; "e1.mkv"])) as Hr by by vm_compute.
      rewrite Hscan in Hr. cbn [fst option_map] in Hr. injection Hr as Ht Hk Hp. exact (conj Ht (conj Hk Hp)).
    + apply Hf; [apply (bool_decide_unpack _); by vm_compute|]. rewrite Hpaths. by left.
    + rewrite <- Hf by (apply (bool_decide_unpack _); by vm_compute). rewrite Hpaths. apply (bool_decide_unpack _). by vm_compute.
Defined.
End runs.
