(* ===== verification/DirMatch.v ===== *)
(** * [internal/services/dirscan/matching.go]: do scanned files match a torrent?

    The files of a searchee are paired with those of a torrent by name and size,
    or by size alone, in the order they were scanned.  The comparison of names is
    that of matching.go with the tags of parsing.go.  What a match promises is
    stated by [greedy], a relation that leaves open which partner is chosen. *)

From Stdlib Require Import ZArith Lia Ascii.
From stdpp Require Import base numbers list strings gmap sorting.
From S2P Require Import Prelude.
From S2P Require Import GoStrings.
From S2P Require Import GoPath.
From S2P Require Import GoFloat.
From S2P Require Import UnicodeText.
From S2P Require Import FileSystem.
From S2P Require Import DirScanner.

Open Scope qui_scope.

(** ** Tags in names (parsing.go) *)

Record TRaSHMetadata := MkTRaSH { TMDbID : Z; IMDbID : string; TVDbID : Z; Edition : string }.

Definition is_digit (a : ascii) : bool := bool_decide (is_Some (digit_value a)).

(** A pattern of [trashIDPatterns]: one of some openings, text that belongs to
    the group, one or more bytes of a class, and the closing byte, which is not
    of the class. *)
Record id_pattern := MkPattern { openings : list string; kept_text : string; of_class : ascii → bool; closing : ascii }.

Definition pattern_tmdb : id_pattern := MkPattern ["{tmdb-"] "" is_digit "}".
Definition pattern_imdb : id_pattern := MkPattern ["{imdb-"] "tt" is_digit "}".
Definition pattern_tvdb : id_pattern := MkPattern ["[tvdb-"; "[tvdb"] "" is_digit "]".
Definition pattern_tvdbid : id_pattern := MkPattern ["[tvdbid-"] "" is_digit "]".
Definition pattern_edition : id_pattern := MkPattern ["{edition-"] "" (λ a, negb (bool_decide (a = "}"%char))) "}".

Fixpoint run_of (f : ascii → bool) (l : bytes) : bytes :=
  match l with a :: l => if f a then a :: run_of f l else [] | [] => [] end.

Definition strip (p : string) (l : bytes) : option bytes :=
  if HasPrefix (of_bytes l) p then Some (drop (String.length p) l) else None.

(** A match at the start of [l]: the group and the length of the match. *)
Definition match_opening (p : id_pattern) (l : bytes) (opening : string) : option (bytes * nat) :=
  match strip (opening +++ kept_text p) l with
  | None => None
  | Some rest =>
    let class := run_of (of_class p) rest in
    match class, drop (length class) rest with
    | _ :: _, a :: _ =>
      if bool_decide (a = closing p)
      then Some (to_bytes (kept_text p) ++ class, (String.length opening + String.length (kept_text p) + length class + 1)%nat)
      else None
    | _, _ => None
    end
  end.

Definition match_here (p : id_pattern) (l : bytes) : option (bytes * nat) := head (omap (match_opening p l) (openings p)).

(** The group of the leftmost match. *)
Fixpoint find_group (p : id_pattern) (l : bytes) : option bytes :=
  match match_here p l with
  | Some (group, _) => Some group
  | None => match l with [] => None | _ :: l => find_group p l end
  end.

(** [ReplaceAllString(s, "")]; [skip] bytes belong to the match before. *)
Fixpoint remove_matches (p : id_pattern) (skip : nat) (l : bytes) : bytes :=
  match l with
  | [] => []
  | a :: l' =>
    match skip with
    | S skip => remove_matches p skip l'
    | O => match match_here p l with
           | Some (_, n) => remove_matches p (n - 1) l'
           | None => a :: remove_matches p O l'
           end
    end
  end.

Definition FindSubmatch (p : id_pattern) (s : string) : option string := of_bytes <$> find_group p (to_bytes s).
Definition RemoveAll (p : id_pattern) (s : string) : string := of_bytes (remove_matches p O (to_bytes s)).

(** [strconv.Atoi] with zero for an error. *)
Definition id_number (s : string) : Z := let '(n, ok) := ParseInt s in if ok then n else 0%Z.

(** [spaceRe]: the whitespace of the regular expressions. *)
Definition is_re_space (a : ascii) : bool := bool_decide (byte a ∈ [9; 10; 12; 13; 32]%Z).

Fixpoint squeeze_spaces (after_space : bool) (l : bytes) : bytes :=
  match l with
  | [] => []
  | a :: l =>
    if is_re_space a then (if after_space then squeeze_spaces true l else " "%char :: squeeze_spaces true l)
    else a :: squeeze_spaces false l
  end.

Definition cleanExtraSpaces (s : string) : string := TrimSpace (of_bytes (squeeze_spaces false (to_bytes s))).

Definition extractTRaSHMetadata (name : string) : string * TRaSHMetadata :=
  let '(cleaned, tmdb) := match FindSubmatch pattern_tmdb name with
                          | Some g => (RemoveAll pattern_tmdb name, id_number g) | None => (name, 0%Z) end in
  let '(cleaned, imdb) := match FindSubmatch pattern_imdb name with
                          | Some g => (RemoveAll pattern_imdb cleaned, g) | None => (cleaned, "") end in
  let '(cleaned, tvdb) := match FindSubmatch pattern_tvdb name with
                          | Some g => (RemoveAll pattern_tvdb cleaned, id_number g)
                          | None => match FindSubmatch pattern_tvdbid name with
                                    | Some g => (RemoveAll pattern_tvdbid cleaned, id_number g) | None => (cleaned, 0%Z) end end in
  let '(cleaned, edition) := match FindSubmatch pattern_edition name with
                             | Some g => (RemoveAll pattern_edition cleaned, g) | None => (cleaned, "") end in
  (cleanExtraSpaces cleaned, MkTRaSH tmdb imdb tvdb edition).

(** ** Data *)

Inductive MatchMode : Type := MatchModeStrict | MatchModeFlexible | OtherMode (mode : string).

Record DirTorrentFile := MkDirFile { df_Path : string; df_Size : Z; df_Offset : Z }.

#[export] Instance DirTorrentFile_eq_dec : EqDecision DirTorrentFile.
Proof. solve_decision. Defined.

Record DirMatchResult := MkDirMatch {
  mr_IsMatch : bool; mr_MatchedFiles : list (ScannedFile * DirTorrentFile);
  mr_UnmatchedSearcheeFiles : list ScannedFile; mr_UnmatchedTorrentFiles : list DirTorrentFile;
  mr_MatchRatio : float64; mr_SizeMatchRatio : float64; mr_IsPerfectMatch : bool; mr_IsPartialMatch : bool }.

(** The variables of a matching loop: indices of torrent files that are matched,
    the pairs, and the searchee files without a partner. *)
Record match_state := MkMatching {
  ms_taken : gset Z; ms_pairs : list (ScannedFile * DirTorrentFile); ms_unmatched : list ScannedFile }.

(** ** Operations *)

Definition sizesMatchExactly (size1 size2 : Z) : bool := (size1 =? size2)%Z.

(** The first file of that path and size, or -1. *)
Fixpoint find_file_index (i : Z) (files : list DirTorrentFile) (target : DirTorrentFile) : Z :=
  match files with
  | [] => -1
  | f :: files =>
    if bool_decide (df_Path f = df_Path target) && bool_decide (df_Size f = df_Size target) then i
    else find_file_index (i + 1) files target
  end.
Definition findTorrentFileIndex : list DirTorrentFile → DirTorrentFile → Z := find_file_index 0.

Definition is_taken (files : list DirTorrentFile) (taken : gset Z) (f : DirTorrentFile) : bool :=
  bool_decide (findTorrentFileIndex files f ∈ taken).

Definition take_pair (files : list DirTorrentFile) (sf : ScannedFile) (tf : DirTorrentFile) (st : match_state) : match_state :=
  MkMatching ({[findTorrentFileIndex files tf]} ∪ ms_taken st) (ms_pairs st ++ [(sf, tf)]) (ms_unmatched st).
Definition leave_file (sf : ScannedFile) (st : match_state) : match_state :=
  MkMatching (ms_taken st) (ms_pairs st) (ms_unmatched st ++ [sf]).

(** The torrent files whose index is not taken. *)
Definition collectUnmatchedTorrentFiles (files : list DirTorrentFile) (taken : gset Z) : list DirTorrentFile :=
  snd <$> filter (λ itf, Z.of_nat itf.1 ∉ taken) (imap pair files).

Definition group_files {K} `{Countable K} (key : DirTorrentFile → K) (files : list DirTorrentFile) : gmap K (list DirTorrentFile) :=
  foldl (λ m f, <[key f := default [] (m !! key f) ++ [f]]> m) ∅ files.

Section matching.
Context `{!UnicodeCase, !UnicodeTables}.

Definition name_separators : list ascii := ["."; "_"; "-"; "["; "]"; "("; ")"; "{"; "}"]%char.

Definition normalizeFileName (path : string) : string :=
  let name := Base path in
  let ext := ToLower (Ext name) in
  let base := TrimSuffix name ext in
  let cleaned := (extractTRaSHMetadata base).1 in
  let base := if negb (bool_decide (cleaned = "")) then cleaned else base in
  let base := map_bytes (λ a, if bool_decide (a ∈ name_separators) then " "%char else a) base in
  let base := cleanExtraSpaces base in
  let normalized := NormalizeForMatching base in
  let ext := default ext (CutPrefix ext ".") in
  if bool_decide (ext = "") then normalized else normalized +++ " " +++ ext.

(** The first candidate that is free and of that size, with its place. *)
Fixpoint strict_candidate (files : list DirTorrentFile) (taken : gset Z) (size : Z) (i : nat) (candidates : list DirTorrentFile)
    : option (nat * DirTorrentFile) :=
  match candidates with
  | [] => None
  | tf :: candidates =>
    if is_taken files taken tf then strict_candidate files taken size (S i) candidates
    else if sizesMatchExactly size (df_Size tf) then Some (i, tf)
    else strict_candidate files taken size (S i) candidates
  end.

Definition strict_step (files : list DirTorrentFile) (acc : gmap string (list DirTorrentFile) * match_state) (sf : ScannedFile)
    : gmap string (list DirTorrentFile) * match_state :=
  let '(byName, st) := acc in
  let key := normalizeFileName (sf_RelPath sf) in
  let candidates := default [] (byName !! key) in
  match strict_candidate files (ms_taken st) (sf_Size sf) 0 candidates with
  | Some (i, tf) => (<[key := take i candidates ++ drop (S i) candidates]> byName, take_pair files sf tf st)
  | None => (byName, leave_file sf st)
  end.

Definition no_matches : match_state := MkMatching ∅ [] [].

Definition matchStrict (searchee : list ScannedFile) (files : list DirTorrentFile) : match_state :=
  (foldl (strict_step files) (group_files (λ f, normalizeFileName (df_Path f)) files, no_matches) searchee).2.

Definition buildTorrentSizeMap : list DirTorrentFile → gmap Z (list DirTorrentFile) := group_files df_Size.

Definition findSizeCandidates (order : KeyRange Z) (sf : ScannedFile) (files : list DirTorrentFile)
    (bySize : gmap Z (list DirTorrentFile)) (taken : gset Z) : list DirTorrentFile :=
  concat ((λ sz, if negb (sizesMatchExactly (sf_Size sf) sz.1) then []
                 else filter (λ tf, is_taken files taken tf = false) sz.2) <$> key_range order bySize).

Definition selectBestCandidate (sf : ScannedFile) (candidates : list DirTorrentFile) : option DirTorrentFile :=
  match candidates with
  | [tf] => Some tf
  | _ =>
    match List.find (λ tf, bool_decide (normalizeFileName (df_Path tf) = normalizeFileName (sf_RelPath sf))) candidates with
    | Some tf => Some tf
    | None => head candidates
    end
  end.

Definition findFlexibleMatch (order : KeyRange Z) (sf : ScannedFile) (files : list DirTorrentFile)
    (bySize : gmap Z (list DirTorrentFile)) (taken : gset Z) : option DirTorrentFile :=
  match findSizeCandidates order sf files bySize taken with
  | [] => None
  | candidates => selectBestCandidate sf candidates
  end.

Definition flexible_step (order : KeyRange Z) (files : list DirTorrentFile) (st : match_state) (sf : ScannedFile) : match_state :=
  match findFlexibleMatch order sf files (buildTorrentSizeMap files) (ms_taken st) with
  | None => leave_file sf st
  | Some tf => take_pair files sf tf st
  end.

Definition matchFlexible (order : KeyRange Z) (searchee : list ScannedFile) (files : list DirTorrentFile) : match_state :=
  foldl (flexible_step order files) no_matches searchee.

Definition sum_sizes (files : list ScannedFile) : Z := foldl (λ total f, i64 (total + sf_Size f)) 0%Z files.

(** [CalculateTotalSize]. *)
Definition CalculateTotalSize (searchee : Searchee) : Z := sum_sizes (sr_Files searchee).

Definition ratio (a b : Z) : float64 := f64_div (f64_of_Z a) (f64_of_Z b).

Definition Match (order : KeyRange Z) (mode : MatchMode) (searchee : Searchee) (torrentFiles : list DirTorrentFile) : DirMatchResult :=
  match sr_Files searchee, torrentFiles with
  | [], _ | _, [] => MkDirMatch false [] (sr_Files searchee) torrentFiles f64_zero f64_zero false false
  | files, _ =>
    let st := match mode with
              | MatchModeFlexible => matchFlexible order files torrentFiles
              | _ => matchStrict files torrentFiles
              end in
    let matchedCount := length (ms_pairs st) in
    let matchRatio := ratio (Z.of_nat matchedCount) (Z.of_nat (length files)) in
    let totalSearcheeSize := sum_sizes files in
    let matchedSize := sum_sizes (ms_pairs st).*1 in
    let sizeRatio := if (0 <? totalSearcheeSize)%Z then ratio matchedSize totalSearcheeSize else f64_zero in
    let perfect := ((matchedCount =? length files) && (matchedCount =? length torrentFiles))%nat in
    MkDirMatch (0 <? matchedCount)%nat (ms_pairs st) (ms_unmatched st)
      (collectUnmatchedTorrentFiles torrentFiles (ms_taken st)) matchRatio sizeRatio perfect
      ((0 <? matchedCount)%nat && negb perfect)
  end.
End matching.

(** ** Greedy matchings *)

Section greedy.
Context {X Y K : Type} (kx : X → K) (ky : Y → K).

(** In the order of the list, each element takes a partner with its key from
    those that are left, if there is one. *)
Inductive greedy : list X → list Y → list (X * Y) → list X → list Y → Prop :=
| greedy_done pool : greedy [] pool [] [] pool
| greedy_take x y xs pool pool' pairs alone left_ :
    pool ≡ₚ y :: pool' → kx x = ky y → greedy xs pool' pairs alone left_ →
    greedy (x :: xs) pool ((x, y) :: pairs) alone left_
| greedy_skip x xs pool pairs alone left_ :
    (∀ y, y ∈ pool → kx x ≠ ky y) → greedy xs pool pairs alone left_ →
    greedy (x :: xs) pool pairs (x :: alone) left_.

Lemma greedy_sound xs pool pairs alone left_ :
  greedy xs pool pairs alone left_ →
  Forall (λ p, kx p.1 = ky p.2) pairs ∧ xs ≡ₚ pairs.*1 ++ alone ∧ pool ≡ₚ pairs.*2 ++ left_.
Proof.
  induction 1 as [|x y xs pool pool' pairs alone left_ Hp Hk _ (IHk & IHx & IHy)|x xs pool pairs alone left_ _ _ (IHk & IHx & IHy)];
    cbn [fmap list_fmap fst snd app].
  - done.
  - split_and!; [by constructor|by rewrite IHx|by rewrite Hp, IHy].
  - split_and!; [done| |done]. rewrite IHx. apply Permutation_middle.
Qed.

(** No pair could be added. *)
Lemma greedy_maximal xs pool pairs alone left_ :
  greedy xs pool pairs alone left_ → ∀ x y, x ∈ alone → y ∈ left_ → kx x ≠ ky y.
Proof.
  induction 1 as [|x y xs pool pool' pairs alone left_ Hp Hk _ IH|x xs pool pairs alone left_ Hno Hg IH].
  - by intros x y ?%elem_of_nil.
  - done.
  - intros x' y [->|Hx]%elem_of_cons Hy; [|by apply IH]. apply Hno.
    destruct (greedy_sound _ _ _ _ _ Hg) as (_ & _ & ->). apply elem_of_app. by right.
Qed.

(** Nothing is left over exactly when both sides have the same keys. *)
Lemma greedy_perfect xs pool pairs alone left_ :
  greedy xs pool pairs alone left_ → (alone = [] ∧ left_ = []) ↔ kx <$> xs ≡ₚ ky <$> pool.
Proof.
  intros Hg. destruct (greedy_sound _ _ _ _ _ Hg) as (Hk & Hx & Hy).
  assert (kx <$> pairs.*1 = ky <$> pairs.*2) as Hkeys.
  { clear -Hk. induction Hk as [|[x y] pairs E _ IH]; [done|]. cbn [fmap list_fmap fst snd] in *. by rewrite E, IH. }
  rewrite Hx, Hy, !fmap_app, Hkeys. split.
  - intros [-> ->]. done.
  - intros Hp%Permutation_app_inv_l. destruct alone as [|x alone].
    + symmetry in Hp. apply Permutation_nil_r, fmap_nil_inv in Hp. done.
    + assert (kx x ∈ ky <$> left_) as (y & E & Hin)%list_elem_of_fmap by (rewrite <- Hp; by left).
      exfalso. eapply (greedy_maximal _ _ _ _ _ Hg x y); [by left|done|done].
Qed.
End greedy.

(** ** The loops are greedy matchings *)

Section loops.
Context `{!UnicodeCase, !UnicodeTables}.
Context (files : list DirTorrentFile).

(** No two files of the torrent have the same path and size. *)
Definition identity_of (f : DirTorrentFile) : string * Z := (df_Path f, df_Size f).
Context (Hids : NoDup (identity_of <$> files)).

Lemma find_index_spec k l target n : NoDup (identity_of <$> l) → l !! n = Some target →
  find_file_index k l target = (k + Z.of_nat n)%Z.
Proof.
  revert k n. induction l as [|f l IH]; intros k n Hnd Hn; [done|]. cbn [find_file_index fmap list_fmap] in *.
  inversion Hnd as [|?? Hf Hnd']; subst. destruct n as [|n]; cbn in Hn.
  - injection Hn as ->. rewrite !bool_decide_true by done. cbn. lia.
  - assert (f ≠ target ∧ identity_of f ≠ identity_of target) as [_ Hne].
    { assert (identity_of f ≠ identity_of target) as Hne; [|split; [by intros ->|done]].
      intros E. apply Hf. rewrite E. apply list_elem_of_fmap_2. by eapply list_elem_of_lookup_2. }
    destruct (bool_decide (df_Path f = df_Path target) && bool_decide (df_Size f = df_Size target)) eqn:Eb.
    { apply andb_true_iff in Eb as [?%bool_decide_eq_true ?%bool_decide_eq_true]. exfalso. apply Hne. unfold identity_of. congruence. }
    rewrite (IH _ _ Hnd' Hn). lia.
Qed.

Lemma index_of n f : files !! n = Some f → findTorrentFileIndex files f = Z.of_nat n.
Proof. intros Hn. unfold findTorrentFileIndex. by rewrite (find_index_spec 0 files f n). Qed.

Lemma index_inj f g : f ∈ files → g ∈ files → findTorrentFileIndex files f = findTorrentFileIndex files g → f = g.
Proof.
  intros [n Hn]%list_elem_of_lookup [m Hm]%list_elem_of_lookup. rewrite (index_of n), (index_of m) by done.
  intros E%Nat2Z.inj. rewrite E in Hn. congruence.
Qed.

(** The files that are free. *)
Definition pool_of (taken : gset Z) : list DirTorrentFile := filter (λ f, is_taken files taken f = false) files.

Lemma elem_of_pool taken f : f ∈ pool_of taken ↔ f ∈ files ∧ is_taken files taken f = false.
Proof. unfold pool_of. rewrite list_elem_of_filter. tauto. Qed.

Lemma pool_take taken f : f ∈ pool_of taken →
  pool_of taken ≡ₚ f :: pool_of ({[findTorrentFileIndex files f]} ∪ taken).
Proof.
  intros [Hf Ht]%elem_of_pool. apply NoDup_Permutation.
  - apply NoDup_filter. by eapply NoDup_fmap_1.
  - constructor; [|apply NoDup_filter; by eapply NoDup_fmap_1].
    rewrite elem_of_pool. intros [_ Hn]. unfold is_taken in Hn. apply bool_decide_eq_false in Hn. set_solver.
  - intros g. rewrite elem_of_cons, !elem_of_pool. unfold is_taken. rewrite !bool_decide_eq_false. split.
    + intros [Hg Hfree]. destruct (decide (g = f)) as [|Hne]; [by left|right]. split; [done|].
      rewrite elem_of_union, elem_of_singleton. intros [E|?]; [|done]. apply Hne. by apply index_inj.
    + unfold is_taken in Ht. apply bool_decide_eq_false in Ht. intros [->|[? ?]]; [done|set_solver].
Qed.

Lemma unmatched_pool taken : collectUnmatchedTorrentFiles files taken = pool_of taken.
Proof.
  unfold collectUnmatchedTorrentFiles, pool_of.
  assert (∀ l k, (∀ n f, l !! n = Some f → findTorrentFileIndex files f = Z.of_nat (k + n)) →
    snd <$> filter (λ itf : nat * DirTorrentFile, Z.of_nat itf.1 ∉ taken) (imap (λ i f, (k + i, f)%nat) l) =
    filter (λ f, is_taken files taken f = false) l) as Hgen.
  { induction l as [|f l IH]; intros k Hl; [done|]. cbn [imap]. rewrite !filter_cons.
    pose proof (Hl 0%nat f eq_refl) as E. rewrite Nat.add_0_r in E.
    assert (imap ((λ i f, (k + i, f)%nat) ∘ S) l = imap (λ i f, (S k + i, f)%nat) l) as ->.
    { apply imap_ext. intros i x _. cbn. f_equal. lia. }
    specialize (IH (S k)). rewrite <- IH by (intros n g Hg; rewrite (Hl (S n) g) by done; lia).
    cbn [fst]. rewrite Nat.add_0_r.
    assert (is_taken files taken f = false ↔ Z.of_nat k ∉ taken) as Ht by (unfold is_taken; by rewrite E, bool_decide_eq_false).
    repeat case_decide; cbn [fmap list_fmap snd]; tauto. }
  rewrite <- (Hgen files 0%nat) by (intros n f; apply index_of). done.
Qed.

Lemma pool_start : pool_of ∅ = files.
Proof.
  unfold pool_of. apply filter_all. intros f _. unfold is_taken. apply bool_decide_eq_false. set_solver.
Qed.

Lemma group_lookup {K} `{Countable K} (key : DirTorrentFile → K) l k :
  default [] (group_files key l !! k) = filter (λ f, key f = k) l.
Proof.
  unfold group_files. induction l as [|f l IH] using rev_ind; [cbn [foldl]; by rewrite lookup_empty|].
  rewrite foldl_snoc, filter_app, filter_cons, filter_nil. case_decide as Hk.
  - subst. by rewrite lookup_insert_eq, <- IH.
  - rewrite lookup_insert_ne by done. by rewrite IH, app_nil_r.
Qed.

(** *** By name and size *)

Definition named (tf : DirTorrentFile) : string := normalizeFileName (df_Path tf).
Definition strict_key_of (sf : ScannedFile) : string * Z := (normalizeFileName (sf_RelPath sf), sf_Size sf).
Definition strict_key (tf : DirTorrentFile) : string * Z := (named tf, df_Size tf).

Lemma strict_candidate_spec taken size i cands :
  Forall (λ f, is_taken files taken f = false) cands →
  match strict_candidate files taken size i cands with
  | Some (j, tf) => ∃ l1 l2, cands = l1 ++ tf :: l2 ∧ j = (i + length l1)%nat ∧ df_Size tf = size
  | None => ∀ tf, tf ∈ cands → df_Size tf ≠ size
  end.
Proof.
  revert i. induction cands as [|tf cands IH]; intros i Hfree; cbn [strict_candidate]; [by intros tf ?%elem_of_nil|].
  apply Forall_cons in Hfree as [Ht Hfree]. rewrite Ht. unfold sizesMatchExactly.
  destruct (Z.eqb_spec size (df_Size tf)) as [->|Hne].
  { exists [], cands. cbn. split_and!; [done|lia|done]. }
  specialize (IH (S i) Hfree). destruct (strict_candidate files taken size (S i) cands) as [[j tf']|].
  - destruct IH as (l1 & l2 & -> & -> & ?). exists (tf :: l1), l2. cbn. split_and!; [done|lia|done].
  - intros tf' [->|Hin]%elem_of_cons; [congruence|by apply IH].
Qed.

(** The map holds the free files of each name, in order. *)
Definition by_name_ok (byName : gmap string (list DirTorrentFile)) (taken : gset Z) : Prop :=
  ∀ name, default [] (byName !! name) = filter (λ tf, named tf = name) (pool_of taken).

Lemma pool_split taken tf l1 l2 name :
  filter (λ f, named f = name) (pool_of taken) = l1 ++ tf :: l2 →
  (∀ name', filter (λ f, named f = name') (pool_of ({[findTorrentFileIndex files tf]} ∪ taken)) =
    if decide (name = name') then l1 ++ l2 else filter (λ f, named f = name') (pool_of taken)) ∧ tf ∈ pool_of taken ∧ named tf = name.
Proof.
  intros Hl. assert (tf ∈ filter (λ f, named f = name) (pool_of taken)) as Hin by (rewrite Hl; set_solver).
  apply list_elem_of_filter in Hin as [Hname Hin]. split; [|done].
  assert (∀ name', filter (λ f, named f = name') (pool_of ({[findTorrentFileIndex files tf]} ∪ taken)) =
    filter (λ f, f ≠ tf) (filter (λ f, named f = name') (pool_of taken))) as Hrem.
  { intros name'. rewrite !list_filter_filter. unfold pool_of. rewrite !list_filter_filter. apply filter_ext_in.
    intros f Hf. apply elem_of_pool in Hin as [Htf _]. unfold is_taken. rewrite !bool_decide_eq_false, elem_of_union, elem_of_singleton.
    assert (findTorrentFileIndex files f = findTorrentFileIndex files tf ↔ f = tf) as -> by (split; [by apply index_inj|by intros ->]). tauto. }
  intros name'. rewrite Hrem. case_decide as E.
  - subst name'. rewrite Hl. assert (NoDup (l1 ++ tf :: l2)) as Hnd.
    { rewrite <- Hl. apply NoDup_filter, NoDup_filter. by eapply NoDup_fmap_1. }
    apply NoDup_app in Hnd as (_ & H1 & [H2 _]%NoDup_cons). rewrite filter_app, filter_cons_False by tauto.
    rewrite !filter_all; [done| |].
    + by intros f Hf ->.
    + intros f Hf ->. apply (H1 tf Hf). by left.
  - apply filter_all. intros f [Hf _]%list_elem_of_filter ->. congruence.
Qed.

Lemma strict_loop searchee byName st :
  by_name_ok byName (ms_taken st) →
  let r := (foldl (strict_step files) (byName, st) searchee).2 in
  ∃ pairs alone, ms_pairs r = ms_pairs st ++ pairs ∧ ms_unmatched r = ms_unmatched st ++ alone ∧
    greedy strict_key_of strict_key searchee (pool_of (ms_taken st)) pairs alone (pool_of (ms_taken r)).
Proof.
  cbv zeta. revert byName st. induction searchee as [|sf searchee IH]; intros byName st Hmap; cbn [foldl].
  { exists [], []. rewrite !app_nil_r. split_and!; [done|done|constructor]. }
  unfold strict_step at 2 4 6. rewrite !Hmap. set (name := normalizeFileName (sf_RelPath sf)).
  pose proof (strict_candidate_spec (ms_taken st) (sf_Size sf) 0 (filter (λ tf, named tf = name) (pool_of (ms_taken st)))) as Hc.
  destruct (strict_candidate _ _ _ _ _) as [[i tf]|].
  - destruct Hc as (l1 & l2 & Hl & -> & Hsize).
    { apply Forall_forall. by intros f [_ [_ Hf]%elem_of_pool]%list_elem_of_filter. }
    destruct (pool_split _ _ _ _ _ Hl) as (Hrest & Hin & Hname).
    destruct (IH (<[name := take (0 + length l1) (filter (λ tf, named tf = name) (pool_of (ms_taken st))) ++
      drop (S (0 + length l1)) (filter (λ tf, named tf = name) (pool_of (ms_taken st)))]> byName) (take_pair files sf tf st))
      as (pairs & alone & Hp & Ha & Hg).
    { intros name'. cbn [take_pair ms_taken]. rewrite Hrest, Hl. cbn [Nat.add]. rewrite take_app_length, cons_middle, app_assoc, drop_app_length'
        by (rewrite length_app; cbn; lia).
      case_decide as E; [subst; by rewrite lookup_insert_eq|by rewrite lookup_insert_ne, Hmap]. }
    exists ((sf, tf) :: pairs), alone. rewrite Hp, Ha. cbn [take_pair ms_pairs ms_unmatched]. rewrite <- app_assoc.
    split_and!; [done|done|]. eapply greedy_take; [by apply pool_take| |exact Hg].
    unfold strict_key_of, strict_key. by rewrite Hname, Hsize.
  - destruct (IH byName (leave_file sf st)) as (pairs & alone & Hp & Ha & Hg); [done|].
    exists pairs, (sf :: alone). rewrite Hp, Ha. cbn [leave_file ms_pairs ms_unmatched]. rewrite <- app_assoc.
    split_and!; [done|done|]. apply greedy_skip; [|exact Hg].
    intros tf Htf E. unfold strict_key_of, strict_key in E. injection E as En Es.
    eapply Hc; [|apply list_elem_of_filter; split; [symmetry; exact En|exact Htf]|done].
    apply Forall_forall. by intros f [_ [_ Hf]%elem_of_pool]%list_elem_of_filter.
Qed.

(** *** By size *)

Lemma size_candidates order sf taken :
  findSizeCandidates order sf files (buildTorrentSizeMap files) taken = filter (λ tf, df_Size tf = sf_Size sf) (pool_of taken).
Proof.
  unfold findSizeCandidates, sizesMatchExactly.
  pose proof (key_range_perm order (buildTorrentSizeMap files)) as Hperm.
  assert (NoDup (key_range order (buildTorrentSizeMap files)).*1) as Hnd by (rewrite Hperm; apply NoDup_fst_map_to_list).
  assert (∀ sz l, (sz, l) ∈ key_range order (buildTorrentSizeMap files) ↔ buildTorrentSizeMap files !! sz = Some l) as Hin.
  { intros sz l. by rewrite Hperm, elem_of_map_to_list. }
  assert (∀ l, NoDup l.*1 → concat ((λ sz, if negb (sf_Size sf =? sz.1)%Z then []
      else filter (λ tf, is_taken files taken tf = false) sz.2) <$> l) =
    match list_find (λ sz, sz.1 = sf_Size sf) l with
    | Some (_, sz) => filter (λ tf, is_taken files taken tf = false) sz.2 | None => [] end) as Hconcat.
  { clear. induction l as [|[sz l'] l IH]; intros Hnd; [done|]. cbn [fmap list_fmap concat fst snd list_find] in *.
    inversion Hnd as [|?? Hn Hnd']; subst. rewrite (IH Hnd'). destruct (Z.eqb_spec (sf_Size sf) sz) as [E|E]; cbn [negb].
    - rewrite decide_True by done. destruct (list_find _ l) as [[n [sz' l'']]|] eqn:Ef; cbn; [|apply app_nil_r].
      apply list_find_Some in Ef as (Hl & E' & _). cbn in E'. exfalso. apply Hn. rewrite <- E, <- E'.
      apply (list_elem_of_fmap_2 fst _ (sz', l'')). by eapply list_elem_of_lookup_2.
    - rewrite decide_False by congruence. cbn. by destruct (list_find _ l) as [[]|]. }
  rewrite Hconcat by done. pose proof (group_lookup df_Size files (sf_Size sf)) as Hgroup. fold (buildTorrentSizeMap files) in Hgroup.
  unfold pool_of. assert (∀ l : list DirTorrentFile, filter (λ tf, df_Size tf = sf_Size sf) (filter (λ f, is_taken files taken f = false) l) =
    filter (λ f, is_taken files taken f = false) (filter (λ tf, df_Size tf = sf_Size sf) l)) as Hswap.
  { intros l. rewrite !list_filter_filter. apply list_filter_iff. tauto. }
  rewrite Hswap, <- Hgroup. destruct (list_find _ _) as [[n [sz l]]|] eqn:Ef.
  - apply list_find_Some in Ef as (Hl & E & _). cbn [fst snd] in *. subst sz.
    by rewrite (proj1 (Hin _ _) (list_elem_of_lookup_2 _ _ _ Hl)).
  - apply list_find_None in Ef. destruct (buildTorrentSizeMap files !! sf_Size sf) as [l|] eqn:El; [|done].
    apply Hin in El. rewrite Forall_forall in Ef. by destruct (Ef _ El).
Qed.

Lemma selectBestCandidate_spec sf c cands : ∃ tf, selectBestCandidate sf (c :: cands) = Some tf ∧ tf ∈ c :: cands.
Proof.
  unfold selectBestCandidate. destruct cands as [|c' cands]; [exists c; split; [done|by left]|].
  destruct (List.find _ _) as [tf|] eqn:Ef; [|exists c; split; [done|by left]].
  apply find_some in Ef as [Hin _]. exists tf. split; [done|by apply list_elem_of_In].
Qed.

Lemma flexible_loop order searchee st :
  let r := foldl (flexible_step order files) st searchee in
  ∃ pairs alone, ms_pairs r = ms_pairs st ++ pairs ∧ ms_unmatched r = ms_unmatched st ++ alone ∧
    greedy sf_Size df_Size searchee (pool_of (ms_taken st)) pairs alone (pool_of (ms_taken r)).
Proof.
  cbv zeta. revert st. induction searchee as [|sf searchee IH]; intros st; cbn [foldl].
  { exists [], []. rewrite !app_nil_r. split_and!; [done|done|constructor]. }
  unfold flexible_step at 2 4 6. unfold findFlexibleMatch. rewrite size_candidates.
  destruct (filter _ (pool_of (ms_taken st))) as [|c cands] eqn:Ec.
  - destruct (IH (leave_file sf st)) as (pairs & alone & Hp & Ha & Hg).
    exists pairs, (sf :: alone). rewrite Hp, Ha. cbn [leave_file ms_pairs ms_unmatched]. rewrite <- app_assoc.
    split_and!; [done|done|]. apply greedy_skip; [|exact Hg]. intros tf Htf E.
    assert (tf ∈ filter (λ tf, df_Size tf = sf_Size sf) (pool_of (ms_taken st))) as Hin by (apply list_elem_of_filter; done).
    rewrite Ec in Hin. by apply elem_of_nil in Hin.
  - destruct (selectBestCandidate_spec sf c cands) as (tf & -> & Htf). rewrite <- Ec in Htf.
    apply list_elem_of_filter in Htf as [Hsize Htf].
    destruct (IH (take_pair files sf tf st)) as (pairs & alone & Hp & Ha & Hg).
    exists ((sf, tf) :: pairs), alone. rewrite Hp, Ha. cbn [take_pair ms_pairs ms_unmatched]. rewrite <- app_assoc.
    split_and!; [done|done|]. eapply greedy_take; [by apply pool_take|done|exact Hg].
Qed.
End loops.

(** ** What a match says *)

Lemma greedy_inj {X Y K K'} (f : K → K') `{!Inj (=) (=) f} (kx : X → K) (ky : Y → K) xs pool pairs alone left_ :
  greedy kx ky xs pool pairs alone left_ → greedy (f ∘ kx) (f ∘ ky) xs pool pairs alone left_.
Proof.
  induction 1 as [|x y xs pool pool' pairs alone left_ Hp Hk _ IH|x xs pool pairs alone left_ Hno _ IH];
    [constructor|eapply greedy_take; [done|cbn; by rewrite Hk|done]|apply greedy_skip; [|done]].
  intros y Hy E. by apply (Hno y Hy), (inj f).
Qed.

Section result.
Context `{!UnicodeCase, !UnicodeTables}.

(** What the files of a pair have in common. *)
Definition searchee_key (mode : MatchMode) (sf : ScannedFile) : string * Z :=
  match mode with MatchModeFlexible => ("", sf_Size sf) | _ => strict_key_of sf end.
Definition torrent_key (mode : MatchMode) (tf : DirTorrentFile) : string * Z :=
  match mode with MatchModeFlexible => ("", df_Size tf) | _ => strict_key tf end.

Definition match_run (order : KeyRange Z) (mode : MatchMode) (files : list ScannedFile) (torrentFiles : list DirTorrentFile) : match_state :=
  match mode with MatchModeFlexible => matchFlexible order files torrentFiles | _ => matchStrict files torrentFiles end.

Lemma match_run_greedy order mode files torrentFiles :
  NoDup (identity_of <$> torrentFiles) →
  let st := match_run order mode files torrentFiles in
  greedy (searchee_key mode) (torrent_key mode) files torrentFiles (ms_pairs st) (ms_unmatched st)
    (collectUnmatchedTorrentFiles torrentFiles (ms_taken st)).
Proof.
  intros Hids. cbv zeta. rewrite unmatched_pool by done.
  assert (∀ pairs alone r, ms_pairs r = ms_pairs no_matches ++ pairs → ms_unmatched r = ms_unmatched no_matches ++ alone →
    pairs = ms_pairs r ∧ alone = ms_unmatched r) as Hstart by by intros pairs alone r -> ->.
  assert (greedy strict_key_of strict_key files torrentFiles (ms_pairs (matchStrict files torrentFiles))
    (ms_unmatched (matchStrict files torrentFiles)) (pool_of torrentFiles (ms_taken (matchStrict files torrentFiles)))) as Hstrict.
  { destruct (strict_loop torrentFiles Hids files (group_files (λ f, normalizeFileName (df_Path f)) torrentFiles) no_matches)
      as (pairs & alone & Hp & Ha & Hg).
    - intros name. cbn [no_matches ms_taken]. rewrite pool_start by done. apply group_lookup.
    - cbn [no_matches ms_taken] in Hg. rewrite pool_start in Hg by done.
      by destruct (Hstart _ _ _ Hp Ha) as [-> ->]. }
  destruct mode as [| |other]; [exact Hstrict| |exact Hstrict].
  destruct (flexible_loop torrentFiles Hids order files no_matches) as (pairs & alone & Hp & Ha & Hg).
  cbn [no_matches ms_taken] in Hg. rewrite pool_start in Hg by done.
  destruct (Hstart _ _ _ Hp Ha) as [-> ->]. by apply (greedy_inj (pair "")) in Hg.
Qed.

Lemma Match_run order mode searchee torrentFiles :
  sr_Files searchee ≠ [] → torrentFiles ≠ [] →
  let st := match_run order mode (sr_Files searchee) torrentFiles in
  let r := Match order mode searchee torrentFiles in
  let n := length (ms_pairs st) in
  let perfect := ((n =? length (sr_Files searchee)) && (n =? length torrentFiles))%nat in
  mr_MatchedFiles r = ms_pairs st ∧ mr_UnmatchedSearcheeFiles r = ms_unmatched st ∧
  mr_UnmatchedTorrentFiles r = collectUnmatchedTorrentFiles torrentFiles (ms_taken st) ∧
  mr_IsPerfectMatch r = perfect ∧ mr_IsMatch r = (0 <? n)%nat ∧ mr_IsPartialMatch r = (0 <? n)%nat && negb perfect.
Proof. intros Hs Ht. cbv zeta. unfold Match. destruct (sr_Files searchee), torrentFiles, mode; done. Qed.

Lemma Match_empty order mode searchee torrentFiles :
  sr_Files searchee = [] ∨ torrentFiles = [] →
  Match order mode searchee torrentFiles = MkDirMatch false [] (sr_Files searchee) torrentFiles f64_zero f64_zero false false.
Proof. intros [H'|H']; unfold Match; rewrite H'; [done|]. by destruct (sr_Files searchee). Qed.

(** The pairs of a match have the key of the mode in common; files and pairs
    account for each other; and no pair is missing. *)
Lemma match_pairs order mode searchee torrentFiles :
  NoDup (identity_of <$> torrentFiles) →
  let r := Match order mode searchee torrentFiles in
  Forall (λ p, searchee_key mode p.1 = torrent_key mode p.2) (mr_MatchedFiles r) ∧
  sr_Files searchee ≡ₚ (mr_MatchedFiles r).*1 ++ mr_UnmatchedSearcheeFiles r ∧
  torrentFiles ≡ₚ (mr_MatchedFiles r).*2 ++ mr_UnmatchedTorrentFiles r.
Proof.
  intros Hids. cbv zeta. destruct (decide (sr_Files searchee = [] ∨ torrentFiles = [])) as [He|He].
  { rewrite Match_empty by done. cbn. done. }
  destruct (Match_run order mode searchee torrentFiles) as (-> & -> & -> & _); [tauto..|].
  apply (greedy_sound (searchee_key mode) (torrent_key mode)), match_run_greedy, Hids.
Qed.

(** What is left over, and what the flags say. *)
Lemma match_flags order mode searchee torrentFiles :
  NoDup (identity_of <$> torrentFiles) →
  let r := Match order mode searchee torrentFiles in
  (sr_Files searchee ≠ [] → torrentFiles ≠ [] →
    ∀ sf tf, sf ∈ mr_UnmatchedSearcheeFiles r → tf ∈ mr_UnmatchedTorrentFiles r → searchee_key mode sf ≠ torrent_key mode tf) ∧
  (mr_IsPerfectMatch r = true ↔
     sr_Files searchee ≠ [] ∧ searchee_key mode <$> sr_Files searchee ≡ₚ torrent_key mode <$> torrentFiles) ∧
  (mr_IsMatch r = true ↔ ∃ sf tf, sf ∈ sr_Files searchee ∧ tf ∈ torrentFiles ∧ searchee_key mode sf = torrent_key mode tf) ∧
  (mr_IsPartialMatch r = true ↔ mr_IsMatch r = true ∧ mr_IsPerfectMatch r = false).
Proof.
  intros Hids. cbv zeta.
  destruct (decide (sr_Files searchee = [] ∨ torrentFiles = [])) as [He|He].
  { rewrite Match_empty by done. cbn. split; [intros; tauto|]. split; [|split; [|split; [done|by intros []]]].
    - split; [done|]. intros [Hs Hp]. destruct He as [He|He]; [done|]. rewrite He in Hp. cbn in Hp.
      by apply Permutation_nil_r, fmap_nil_inv in Hp.
    - split; [done|]. intros (sf & tf & Hs & Ht & _). destruct He as [He|He]; [rewrite He in Hs|rewrite He in Ht]; set_solver. }
  destruct (Match_run order mode searchee torrentFiles) as (_ & -> & -> & -> & -> & ->); [tauto..|].
  pose proof (match_run_greedy order mode (sr_Files searchee) torrentFiles Hids) as Hg. cbv zeta in Hg.
  destruct (greedy_sound _ _ _ _ _ _ _ Hg) as (Hk & Hs & Ht). pose proof (greedy_perfect _ _ _ _ _ _ _ Hg) as Hperf.
  pose proof (greedy_maximal _ _ _ _ _ _ _ Hg) as Hmax.
  set (st := match_run order mode (sr_Files searchee) torrentFiles) in *.
  pose proof (Permutation_length Hs) as Hls. pose proof (Permutation_length Ht) as Hlt.
  rewrite length_app in Hls, Hlt. rewrite length_fmap in Hls. rewrite length_fmap in Hlt.
  split_and!.
  - intros _ _. exact Hmax.
  - rewrite <- Hperf, andb_true_iff, !Nat.eqb_eq, Hls, Hlt. split.
    + intros [E1 E2]. split; [tauto|]. split; apply length_zero_iff_nil; lia.
    + intros (_ & -> & ->). cbn. lia.
  - rewrite Nat.ltb_lt. split.
    + intros Hn. destruct (ms_pairs st) as [|[sf tf] pairs]; [cbn in Hn; lia|]. exists sf, tf.
      rewrite Hs, Ht. apply Forall_cons in Hk as [Hk _]. cbn. split_and!; [by left|by left|done].
    + intros (sf & tf & Hsf & Htf & E). destruct (ms_pairs st) as [|p pairs]; [|cbn; lia]. exfalso.
      rewrite Hs in Hsf. rewrite Ht in Htf. by apply (Hmax sf tf).
  - rewrite andb_true_iff, negb_true_iff. done.
Qed.
(** C12. A match pairs files with the same name and size, or the same size in
    flexible mode, each file at most once and as many as possible: what is left
    over on one side has no counterpart left over on the other.  It is perfect
    exactly when the files of both sides are the same by these keys, and there is
    one exactly when they have a key in common. *)
Theorem match_exact (order : KeyRange Z) (mode : MatchMode) (searchee : Searchee) (torrentFiles : list DirTorrentFile) :
  NoDup (identity_of <$> torrentFiles) →
  let r := Match order mode searchee torrentFiles in
  Forall (λ p, searchee_key mode p.1 = torrent_key mode p.2) (mr_MatchedFiles r) ∧
  sr_Files searchee ≡ₚ (mr_MatchedFiles r).*1 ++ mr_UnmatchedSearcheeFiles r ∧
  torrentFiles ≡ₚ (mr_MatchedFiles r).*2 ++ mr_UnmatchedTorrentFiles r ∧
  (sr_Files searchee ≠ [] → torrentFiles ≠ [] →
    ∀ sf tf, sf ∈ mr_UnmatchedSearcheeFiles r → tf ∈ mr_UnmatchedTorrentFiles r → searchee_key mode sf ≠ torrent_key mode tf) ∧
  (mr_IsPerfectMatch r = true ↔
     sr_Files searchee ≠ [] ∧ searchee_key mode <$> sr_Files searchee ≡ₚ torrent_key mode <$> torrentFiles) ∧
  (mr_IsMatch r = true ↔ ∃ sf tf, sf ∈ sr_Files searchee ∧ tf ∈ torrentFiles ∧ searchee_key mode sf = torrent_key mode tf) ∧
  (mr_IsPartialMatch r = true ↔ mr_IsMatch r = true ∧ mr_IsPerfectMatch r = false).
Proof.
  intros Hids. cbv zeta. destruct (match_pairs order mode searchee torrentFiles Hids) as (? & ? & ?).
  split; [done|]. split; [done|]. split; [done|]. by apply match_flags.
Qed.
End result.

(** ** Runs *)

Section runs.
#[local] Existing Instance AsciiCase.
#[local] Existing Instance AsciiTables.

Definition size_order : KeyRange Z := list_order Z.

Definition scanned_as (rel : string) (size : Z) : ScannedFile := MkScanned ("/m/" +++ rel) rel size 0 no_id 1 false.

Definition two_files : Searchee :=
  MkSearchee "Show" "/m" [scanned_as "Show.S01E01.mkv" 100; scanned_as "Show S01E02 [tvdb-12].mkv" 100] false.
Definition sample_torrent_files : list DirTorrentFile :=
  [MkDirFile "Show/show-s01e02.mkv" 100 0; MkDirFile "Show/Show_S01E01.mkv" 100 100; MkDirFile "Show/Show.nfo" 1 200].

Lemma match_exact_witness :
  NoDup (identity_of <$> sample_torrent_files) ∧
  mr_IsPerfectMatch (Match size_order MatchModeStrict two_files sample_torrent_files) = false ∧
  mr_IsPartialMatch (Match size_order MatchModeStrict two_files sample_torrent_files) = true ∧
  (λ p, (sf_RelPath p.1, df_Path p.2)) <$> mr_MatchedFiles (Match size_order MatchModeStrict two_files sample_torrent_files) =
    [("Show.S01E01.mkv", "Show/Show_S01E01.mkv"); ("Show S01E02 [tvdb-12].mkv", "Show/show-s01e02.mkv")].
Proof.
  assert (NoDup (identity_of <$> sample_torrent_files)) as Hids by (apply (bool_decide_unpack _); by vm_compute).
  pose proof (match_exact size_order MatchModeStrict two_files sample_torrent_files Hids) as Hx. cbv zeta in Hx.
  destruct Hx as (_ & _ & _ & _ & Hperf & _ & _).
  split; [exact Hids|]. split; [|split; by vm_compute].
  apply not_true_iff_false. intros [_ Hp%Permutation_length]%Hperf. vm_compute in Hp. lia.
Defined.

(** The extension is taken off a name in lower case only: in upper case it stays
    part of the name, and the same file does not match. *)
Example upper_case_extension :
  normalizeFileName "Movie.MKV" = "movie mkv mkv" ∧ normalizeFileName "Movie.mkv" = "movie mkv".
Proof. split; by vm_compute. Qed.

(** Tags of media managers. *)
Example tags_extracted :
  extractTRaSHMetadata "Film (2001) {tmdb-77} {imdb-tt0123} {edition-Director's Cut} [tvdbid-5]" =
    ("Film (2001)", MkTRaSH 77 "tt0123" 5 "Director's Cut").
Proof. by vm_compute. Qed.
End runs.
