(* ===== verification/DirAccept.v ===== *)
(** * [internal/services/dirscan/service.go]: is a match good enough to inject?

    The decision on a match of files with a torrent: perfect, or partial with
    enough bytes and no piece shared between what is there and what is missing;
    and for single files found by size alone, a name, an identifier or a title
    that speaks for it.  With the metadata of names (parsing.go), the files of a
    torrent (matching.go) and the range of sizes and the query of a search
    (search.go). *)

From Stdlib Require Import ZArith Lia Ascii.
From stdpp Require Import base numbers list strings pretty gmap sorting.
From S2P Require Import Prelude.
From S2P Require Import GoStrings.
From S2P Require Import GoPath.
From S2P Require Import GoFloat.
From S2P Require Import UnicodeText.
From S2P Require Import PieceBoundary.
From S2P Require Import CrossRelease.
From S2P Require Import DirScanner.
From S2P Require Import DirMatch.

Open Scope qui_scope.

(** ** Torrents *)

(** What is read of the information in a torrent, from the torrent library. *)
Record TorrentInfo := MkInfoOf {
  BestName : string; ti_Length : Z; ti_PieceLength : Z; NumPieces : Z; ti_Files : list (list string * Z) }.

Record ParsedTorrent := MkParsedTorrent {
  pt_Name : string; pt_InfoHash : string; pt_Files : list DirTorrentFile; pt_TotalSize : Z; pt_PieceLength : Z;
  pt_PieceCount : Z }.

(** The path of a file, below the folder of the torrent. *)
Definition torrent_path (root : string) (pathParts : list string) : string :=
  PathJoin (if negb (bool_decide (root = "")) && match pathParts with p :: _ => negb (bool_decide (p = root)) | [] => true end
            then root :: pathParts else pathParts).

Fixpoint torrent_files (root : string) (offset : Z) (files : list (list string * Z)) : list DirTorrentFile * Z :=
  match files with
  | [] => ([], offset)
  | (parts, len) :: files =>
    let '(rest, total) := torrent_files root (i64 (offset + len)) files in
    (MkDirFile (torrent_path root parts) len offset :: rest, total)
  end.

(** [ParseTorrentBytes], after the library has read the bytes. *)
Definition parsed_torrent (infoHash : string) (info : TorrentInfo) : ParsedTorrent :=
  let '(files, total) :=
    match ti_Files info with
    | [] => ([MkDirFile (BestName info) (ti_Length info) 0], ti_Length info)
    | files => torrent_files (BestName info) 0 files
    end in
  MkParsedTorrent (BestName info) infoHash files total (ti_PieceLength info) (NumPieces info).

(** ** Settings, results and decisions *)

Record DirScanSettings := MkDirSettings {
  ds_Flexible : bool; ds_AllowPartial : bool; ds_MinPieceRatio : float64; ds_SkipPieceBoundarySafetyCheck : bool }.

(** The fields of a search result that are read. *)
Record SearchResult := MkSearchResult {
  se_Title : string; se_IMDbID : string; se_SearchIMDbID : string; se_TVDbID : string; se_SearchTVDbID : string;
  se_TMDbID : string; se_SearchTMDbID : Z; se_IndexerID : Z; se_Size : Z }.

(** The data of the reason's text. *)
Inductive decision_reason : Type :=
| NoReason | MissingContext | NoFilesMatched | PerfectMatch | PartialDisabled | InvalidSizing
| BelowMinimum (percent minimum : float64) | UnsafePieces (reason : string) | PartialAccepted | LacksCorroboration.

Record dirScanMatchDecision := MkDecided {
  dd_Accept : bool; dd_Reason : decision_reason; dd_PieceMatchPercent : float64; dd_PieceBoundaryUnsafe : bool;
  dd_NameCorroborated : bool; dd_TitleCorroborated : bool; dd_IDCorroborated : bool }.

Definition decided (accept : bool) (reason : decision_reason) (percent : float64) (unsafe : bool) : dirScanMatchDecision :=
  MkDecided accept reason percent unsafe false false false.

(** ** Pieces *)

Definition sum_torrent_sizes (files : list DirTorrentFile) : Z := foldl (λ total f, i64 (total + df_Size f)) 0%Z files.

Definition one_hundred : float64 := f64_of_Z 100.

(** Nothing when there are no pieces to count. *)
Definition matchedTorrentPiecePercent (m : DirMatchResult) (parsed : ParsedTorrent) : option float64 :=
  if (pt_PieceLength parsed <=? 0)%Z then None else
  let totalBytes := if (0 <? pt_TotalSize parsed)%Z then pt_TotalSize parsed else sum_torrent_sizes (pt_Files parsed) in
  if (totalBytes <=? 0)%Z then None else
  let matchedBytes := sum_torrent_sizes (filter (λ f, (0 < df_Size f)%Z) (mr_MatchedFiles m).*2) in
  if (matchedBytes <=? 0)%Z then Some f64_zero else
  let pieceLength := pt_PieceLength parsed in
  let totalPieces := Z.quot (i64 (i64 (totalBytes + pieceLength) - 1)) pieceLength in
  if (totalPieces <=? 0)%Z then None else
  let availablePieces := Z.quot matchedBytes pieceLength in
  Some (f64_mul (f64_div (f64_of_Z availablePieces) (f64_of_Z totalPieces)) one_hundred).

(** The files of the torrent with those that are matched as content. *)
Definition boundary_files (parsed : ParsedTorrent) (m : DirMatchResult) : list TorrentFileForBoundaryCheck :=
  let contentPaths : gset string := list_to_set (df_Path <$> (mr_MatchedFiles m).*2) in
  (λ f, MkBoundaryFile (df_Path f) (df_Size f) (bool_decide (df_Path f ∈ contentPaths))) <$> pt_Files parsed.

Definition hasUnsafeUnmatchedTorrentFiles (parsed : ParsedTorrent) (m : DirMatchResult) : bool * PieceBoundarySafetyResult :=
  if (pt_PieceLength parsed <=? 0)%Z then (true, MkSafety false "invalid piece length" [])
  else match mr_UnmatchedTorrentFiles m with
  | [] => (false, MkSafety true "no unmatched torrent files" [])
  | _ => let res := CheckPieceBoundarySafety (boundary_files parsed m) (pt_PieceLength parsed) in (negb (Safe res), res)
  end.

(** Pointers that may be nil are options. *)
Definition shouldAcceptDirScanMatch (m : option DirMatchResult) (parsed : option ParsedTorrent) (settings : option DirScanSettings)
    : dirScanMatchDecision :=
  match m, parsed, settings with
  | Some m, Some parsed, Some settings =>
    if negb (mr_IsMatch m) then decided false NoFilesMatched f64_zero false
    else if mr_IsPerfectMatch m then decided true PerfectMatch one_hundred false
    else if negb (ds_AllowPartial settings) then decided false PartialDisabled f64_zero false
    else
      match matchedTorrentPiecePercent m parsed with
      | None => decided false InvalidSizing f64_zero false
      | Some percent =>
        if f64_ltb percent (ds_MinPieceRatio settings)
        then decided false (BelowMinimum percent (ds_MinPieceRatio settings)) percent false
        else if bool_decide (mr_UnmatchedTorrentFiles m ≠ []) && negb (ds_SkipPieceBoundarySafetyCheck settings)
                && (hasUnsafeUnmatchedTorrentFiles parsed m).1
        then decided false (UnsafePieces (PieceBoundary.Reason (hasUnsafeUnmatchedTorrentFiles parsed m).2)) percent true
        else decided true PartialAccepted percent false
      end
  | _, _, _ => decided false MissingContext f64_zero false
  end.

(** ** Metadata of names *)

Record SearcheeMetadata := MkMeta {
  sm_OriginalName : string; sm_CleanedName : string; sm_TRaSH : TRaSHMetadata; sm_Release : option Release;
  sm_Title : string; sm_Year : Z; sm_Season : option Z; sm_Episode : option Z; sm_IsTV : bool; sm_IsMovie : bool; sm_IsMusic : bool }.

Section metadata.
Context `{!UnicodeCase, !UnicodeTables, !ReleaseParser}.

Definition positive (n : Z) : option Z := if (0 <? n)%Z then Some n else None.

(** The title, the numbers and the kind a release gives. *)
Definition populateFromRelease (original cleaned : string) (ids : TRaSHMetadata) (r : Release) : SearcheeMetadata :=
  MkMeta original cleaned ids (Some r) (if bool_decide (r_Title r = "") then cleaned else r_Title r) (r_Year r)
    (positive (r_Series r)) (positive (r_Episode r))
    ((0 <? r_Series r)%Z || (0 <? r_Episode r)%Z || bool_decide (r_Type r = Series) || bool_decide (r_Type r = Episode))
    (bool_decide (r_Type r = Movie)) (bool_decide (r_Type r = Music)).

Definition ParseName (name : string) : SearcheeMetadata :=
  let '(cleaned, ids) := extractTRaSHMetadata name in
  populateFromRelease name cleaned ids (Parse cleaned).

Definition HasExternalIDs (m : SearcheeMetadata) : bool :=
  (0 <? TMDbID (sm_TRaSH m))%Z || negb (bool_decide (IMDbID (sm_TRaSH m) = "")) || (0 <? TVDbID (sm_TRaSH m))%Z.

Definition SetExternalIDs (imdbID : string) (tmdbID tvdbID : Z) (m : SearcheeMetadata) : SearcheeMetadata :=
  let t := sm_TRaSH m in
  let imdb := if bool_decide (IMDbID t = "") && negb (bool_decide (imdbID = "")) then imdbID else IMDbID t in
  let tmdb := if (TMDbID t =? 0)%Z && (0 <? tmdbID)%Z then tmdbID else TMDbID t in
  let tvdb := if (TVDbID t =? 0)%Z && (0 <? tvdbID)%Z then tvdbID else TVDbID t in
  MkMeta (sm_OriginalName m) (sm_CleanedName m) (MkTRaSH tmdb imdb tvdb (Edition t)) (sm_Release m) (sm_Title m) (sm_Year m)
    (sm_Season m) (sm_Episode m) (sm_IsTV m) (sm_IsMovie m) (sm_IsMusic m).

Definition shouldPreferFileMetadata (folderMeta fileMeta : SearcheeMetadata) : bool :=
  if sm_IsTV folderMeta && bool_decide (is_Some (sm_Season folderMeta)) && bool_decide (sm_Episode folderMeta = None) then false
  else if sm_IsMusic folderMeta && (negb (bool_decide (sm_Title fileMeta = "")) || negb (sm_IsMusic fileMeta)) then true
  else if bool_decide (sm_Title folderMeta = "") && negb (bool_decide (sm_Title fileMeta = "")) then true
  else if (sm_Year folderMeta =? 0)%Z && (0 <? sm_Year fileMeta)%Z then true
  else negb (sm_IsTV folderMeta) && sm_IsTV fileMeta.

Definition applyFileMetadata (dst src : SearcheeMetadata) : SearcheeMetadata :=
  MkMeta (sm_OriginalName dst) (sm_CleanedName dst) (sm_TRaSH dst) (sm_Release src)
    (if bool_decide (sm_Title src = "") then sm_Title dst else sm_Title src)
    (if (0 <? sm_Year src)%Z then sm_Year src else sm_Year dst)
    (match sm_Season src with Some _ => sm_Season src | None => sm_Season dst end)
    (match sm_Episode src with Some _ => sm_Episode src | None => sm_Episode dst end)
    (sm_IsTV src) (sm_IsMovie src) (sm_IsMusic src).

(** The metadata of a searchee, with the name to look it up by. *)
Definition buildSearcheeMetadata (searchee : Searchee) : SearcheeMetadata * string :=
  let parsedMeta := ParseName (sr_Name searchee) in
  match selectLargestVideoFile (sr_Files searchee) with
  | None => (parsedMeta, sr_Name searchee)
  | Some contentFile =>
    let base := Base (sf_Path contentFile) in
    let name := TrimSuffix base (Ext base) in
    if bool_decide (name = "") then (parsedMeta, sr_Name searchee) else
    let fileMeta := ParseName name in
    (if shouldPreferFileMetadata parsedMeta fileMeta then applyFileMetadata parsedMeta fileMeta else parsedMeta, name)
  end.

(** *** Queries (search.go) *)

Definition cleanForSearch (s : string) : string :=
  cleanExtraSpaces (map_bytes (λ a, if bool_decide (a ∈ ["."; "_"; "-"]%char) then " "%char else a)
    (of_bytes (filter (λ a, a ∉ ["["; "]"; "("; ")"; "{"; "}"]%char) (to_bytes s)))).

Definition buildSearchQuery (meta : SearcheeMetadata) : string :=
  let title := if bool_decide (sm_Title meta = "") then sm_CleanedName meta else sm_Title meta in
  let title := cleanForSearch title in
  Join ((if bool_decide (title = "") then [] else [title]) ++
        (if (0 <? sm_Year meta)%Z && sm_IsMovie meta then [pretty (sm_Year meta)] else [])) " ".

(** Results of these sizes are looked at. *)
Definition CalculateSizeRange (searcheeSize : Z) (tolerancePercent : float64) : Z * Z :=
  if (searcheeSize <=? 0)%Z then (0%Z, 0%Z)
  else if f64_leb tolerancePercent f64_zero then (searcheeSize, searcheeSize)
  else
    let tolerance := f64_mul (f64_of_Z searcheeSize) (f64_div tolerancePercent one_hundred) in
    let minSize := f64_to_i64 (f64_sub (f64_of_Z searcheeSize) tolerance) in
    let maxSize := f64_to_i64 (f64_add (f64_of_Z searcheeSize) tolerance) in
    (if (minSize <? 0)%Z then 0%Z else minSize, maxSize).

(** *** Corroboration *)

Definition normalizedTitleIdentity (title : string) : string :=
  let title := cleanForSearch title in
  if bool_decide (title = "") then "" else NormalizeForMatching title.

Definition digitsOnly (value : string) : bool := forallb is_digit (to_bytes value) && negb (bool_decide (value = "")).

Definition normalizeIMDbIDForComparison (value : string) : string :=
  let value := TrimSpace value in
  if bool_decide (value = "") then "" else if digitsOnly value then "tt" +++ value else ToLower value.

Definition normalizeNumericIDForComparison (value : string) : string :=
  let value := TrimSpace value in
  if bool_decide (value = "") || bool_decide (value = "0") then "" else if digitsOnly value then value else "".

Definition imdbIDsMatch (expected : string) (candidates : list string) : bool :=
  let expected := TrimSpace expected in
  if bool_decide (expected = "") then false else
  let expected := normalizeIMDbIDForComparison expected in
  existsb (λ candidate,
    let candidate := TrimSpace candidate in
    if bool_decide (candidate = "") || bool_decide (candidate = "0") then false
    else bool_decide (normalizeIMDbIDForComparison candidate = expected)) candidates.

Definition numericIDsMatch (expected : string) (candidates : list string) : bool :=
  let expected := normalizeNumericIDForComparison expected in
  if bool_decide (expected = "") then false
  else existsb (λ candidate, bool_decide (normalizeNumericIDForComparison candidate = expected)) candidates.

Definition hasCorroboratingExternalID (searcheeMeta : option SearcheeMetadata) (result : option SearchResult) : bool :=
  match searcheeMeta, result with
  | Some m, Some r =>
    let t := sm_TRaSH m in
    imdbIDsMatch (IMDbID t) [se_IMDbID r; se_SearchIMDbID r] ||
    numericIDsMatch (pretty (TVDbID t)) [se_TVDbID r; se_SearchTVDbID r] ||
    (0 <? TMDbID t)%Z && numericIDsMatch (pretty (TMDbID t)) [se_TMDbID r; pretty (se_SearchTMDbID r)]
  | _, _ => false
  end.

Definition hasMatchedNameEvidence (m : DirMatchResult) : bool :=
  existsb (λ p, bool_decide (normalizeFileName (sf_RelPath p.1) = normalizeFileName (df_Path p.2))) (mr_MatchedFiles m).

Definition candidateMetadataVariants (parsed : option ParsedTorrent) (result : option SearchResult) : list SearcheeMetadata :=
  (match parsed with
   | Some p => if bool_decide (TrimSpace (pt_Name p) = "") then [] else [ParseName (pt_Name p)]
   | None => [] end) ++
  (match result with
   | Some r =>
     if negb (bool_decide (TrimSpace (se_Title r) = "")) &&
        match parsed with Some p => negb (bool_decide (se_Title r = pt_Name p)) | None => true end
     then [ParseName (se_Title r)] else []
   | None => [] end).

Definition hasEpisodicMarkers (meta : SearcheeMetadata) : bool :=
  bool_decide (is_Some (sm_Season meta)) || bool_decide (is_Some (sm_Episode meta)).

Definition both_differ (a b : option Z) : bool :=
  match a, b with Some x, Some y => negb (x =? y)%Z | _, _ => false end.

Definition episodicMarkersConflict (searcheeMeta candidateMeta : SearcheeMetadata) : bool :=
  if negb (hasEpisodicMarkers searcheeMeta) || negb (hasEpisodicMarkers candidateMeta) then false
  else both_differ (sm_Season searcheeMeta) (sm_Season candidateMeta) || both_differ (sm_Episode searcheeMeta) (sm_Episode candidateMeta).

Definition titlesCorroborate (searcheeMeta : option SearcheeMetadata) (candidateMeta : SearcheeMetadata) : bool :=
  match searcheeMeta with
  | None => false
  | Some m =>
    let searcheeTitle := normalizedTitleIdentity (sm_Title m) in
    let candidateTitle := normalizedTitleIdentity (sm_Title candidateMeta) in
    if bool_decide (searcheeTitle = "") || bool_decide (candidateTitle = "") then false
    else if (0 <? sm_Year m)%Z && (0 <? sm_Year candidateMeta)%Z && negb (sm_Year m =? sm_Year candidateMeta)%Z then false
    else if episodicMarkersConflict m candidateMeta then false
    else bool_decide (searcheeTitle = candidateTitle)
  end.

Definition with_evidence (name title id : bool) (d : dirScanMatchDecision) : dirScanMatchDecision :=
  MkDecided (dd_Accept d) (dd_Reason d) (dd_PieceMatchPercent d) (dd_PieceBoundaryUnsafe d) name title id.

Definition refineDirScanMatchDecision (searchee : Searchee) (searcheeMeta : option SearcheeMetadata) (parsed : ParsedTorrent)
    (result : option SearchResult) (settings : DirScanSettings) (m : DirMatchResult) (decision : dirScanMatchDecision)
    : dirScanMatchDecision :=
  if negb (dd_Accept decision) then decision
  else if negb (ds_Flexible settings) || negb (mr_IsPerfectMatch m) then decision
  else if negb (length (sr_Files searchee) =? 1)%nat || negb (length (pt_Files parsed) =? 1)%nat then decision
  else if hasMatchedNameEvidence m
  then with_evidence true (dd_TitleCorroborated decision) (dd_IDCorroborated decision) decision
  else if hasCorroboratingExternalID searcheeMeta result
  then with_evidence (dd_NameCorroborated decision) (dd_TitleCorroborated decision) true decision
  else if existsb (titlesCorroborate searcheeMeta) (candidateMetadataVariants (Some parsed) result)
  then with_evidence (dd_NameCorroborated decision) true (dd_IDCorroborated decision) decision
  else MkDecided false LacksCorroboration (dd_PieceMatchPercent decision) (dd_PieceBoundaryUnsafe decision)
         (dd_NameCorroborated decision) (dd_TitleCorroborated decision) (dd_IDCorroborated decision).
End metadata.

(** ** Where the files of a torrent lie *)

(** The file that holds byte [i] of the torrent. *)
Fixpoint torrent_file_at (files : list DirTorrentFile) (i : Z) : option DirTorrentFile :=
  match files with
  | [] => None
  | f :: files => if (i <? df_Size f)%Z then Some f else torrent_file_at files (i - df_Size f)
  end.

Definition sum_of (files : list DirTorrentFile) : Z := foldr (λ f n, df_Size f + n)%Z 0%Z files.

(** Sizes as a valid torrent has them. *)
Definition torrent_sizes_ok (files : list DirTorrentFile) : Prop :=
  Forall (λ f, 0 ≤ df_Size f)%Z files ∧ (sum_of files ≤ max_i64)%Z.

Lemma torrent_file_at_elem files i f : torrent_file_at files i = Some f → f ∈ files.
Proof.
  revert i. induction files as [|g files IH]; intros i; [done|]. cbn [torrent_file_at].
  destruct (i <? df_Size g)%Z; [intros [= ->]; by left|intros Hf; right; by eapply IH].
Qed.

Lemma sum_of_nonneg files : Forall (λ f, 0 ≤ df_Size f)%Z files → (0 ≤ sum_of files)%Z.
Proof. unfold sum_of. induction 1 as [|f files Hf _ IH]; cbn [foldr]; lia. Qed.

(** The layout of a torrent read from its information. *)
Lemma torrent_files_layout root offset raw :
  let files := (torrent_files root offset raw).1 in
  (0 ≤ offset)%Z → Forall (λ f, 0 ≤ f.2)%Z raw → (offset + foldr (λ f n, f.2 + n)%Z 0%Z raw ≤ max_i64)%Z →
  (torrent_files root offset raw).2 = (offset + sum_of files)%Z ∧ sum_of files = foldr (λ f n, f.2 + n)%Z 0%Z raw ∧
  df_Path <$> files = torrent_path root <$> raw.*1 ∧
  ∀ i f, (0 ≤ i)%Z → torrent_file_at files i = Some f → (df_Offset f ≤ offset + i < df_Offset f + df_Size f)%Z.
Proof.
  cbv zeta. revert offset. induction raw as [|[parts len] raw IH]; intros offset Ho Hs Hsum; [cbn; split_and!; [lia|done|done|done]|].
  apply Forall_cons in Hs as [Hlen Hs]. cbn [fst snd] in *. cbn [torrent_files foldr snd] in *.
  assert (0 ≤ foldr (λ f n, f.2 + n) 0 raw)%Z as Hn by (clear -Hs; induction Hs; cbn in *; lia).
  rewrite i64_id by (unfold in_i64, max_i64, min_i64 in *; lia).
  destruct (IH (offset + len)%Z) as (Ht & Hsf & Hp & Hat); [lia|done|lia|].
  destruct (torrent_files root (offset + len) raw) as [rest total]. cbn [fst snd] in *.
  cbn [sum_of foldr df_Size fmap list_fmap df_Path fst]. fold (sum_of rest).
  split_and!; [lia|lia|by rewrite Hp|]. intros i f Hi. cbn [torrent_file_at df_Size].
  destruct (Z.ltb_spec i len); [intros [= <-]; cbn; lia|]. intros Hf. apply Hat in Hf; lia.
Qed.

(** ** What is accepted *)

Section accepted.
Context `{!UnicodeCase, !UnicodeTables, !ReleaseParser}.

(** What speaks for a single file that was found by its size. *)
Definition corroborated (meta : option SearcheeMetadata) (parsed : ParsedTorrent) (result : option SearchResult) (m : DirMatchResult) : Prop :=
  (∃ p, p ∈ mr_MatchedFiles m ∧ normalizeFileName (sf_RelPath p.1) = normalizeFileName (df_Path p.2)) ∨
  hasCorroboratingExternalID meta result = true ∨
  ∃ candidate, candidate ∈ candidateMetadataVariants (Some parsed) result ∧ titlesCorroborate meta candidate = true.

(** The decision on a searchee and a torrent. *)
Definition decide_match (order : KeyRange Z) (searchee : Searchee) (meta : option SearcheeMetadata) (parsed : ParsedTorrent)
    (result : option SearchResult) (settings : DirScanSettings) : dirScanMatchDecision :=
  let m := Match order (if ds_Flexible settings then MatchModeFlexible else MatchModeStrict) searchee (pt_Files parsed) in
  refineDirScanMatchDecision searchee meta parsed result settings m
    (shouldAcceptDirScanMatch (Some m) (Some parsed) (Some settings)).

Lemma hasMatchedNameEvidence_spec m :
  hasMatchedNameEvidence m = true ↔
  ∃ p, p ∈ mr_MatchedFiles m ∧ normalizeFileName (sf_RelPath p.1) = normalizeFileName (df_Path p.2).
Proof.
  unfold hasMatchedNameEvidence. rewrite existsb_exists. setoid_rewrite <- list_elem_of_In. by setoid_rewrite bool_decide_eq_true.
Qed.

Lemma refine_accept searchee meta parsed result settings m d :
  dd_Accept (refineDirScanMatchDecision searchee meta parsed result settings m d) = true ↔
  dd_Accept d = true ∧
  (ds_Flexible settings = true → mr_IsPerfectMatch m = true → length (sr_Files searchee) = 1 → length (pt_Files parsed) = 1 →
   corroborated meta parsed result m).
Proof.
  unfold refineDirScanMatchDecision, corroborated. destruct (dd_Accept d) eqn:Ed; cbn [negb]; [|rewrite Ed; split; [done|by intros [? _]]].
  destruct (ds_Flexible settings), (mr_IsPerfectMatch m); cbn [negb orb]; try (rewrite Ed; split; [by split|done]).
  destruct (Nat.eqb_spec (length (sr_Files searchee)) 1) as [Hl1|Hl1]; cbn [negb orb]; [|rewrite Ed; split; [intros _; split; [done|intros; congruence]|done]].
  destruct (Nat.eqb_spec (length (pt_Files parsed)) 1) as [Hl2|Hl2]; cbn [negb]; [|naive_solver].
  pose proof (hasMatchedNameEvidence_spec m) as Hname. destruct (hasMatchedNameEvidence m).
  { cbn. rewrite Ed. split; [|done]. intros _. split; [done|]. intros. left. by apply Hname. }
  destruct (hasCorroboratingExternalID meta result).
  { cbn. rewrite Ed. split; [|done]. intros _. split; [done|]. intros. right. by left. }
  destruct (existsb _ _) eqn:Ee.
  - apply existsb_exists in Ee as (c & Hin%list_elem_of_In & Hc). cbn. rewrite Ed. split; [|done].
    intros _. split; [done|]. intros. right. right. by exists c.
  - cbn. split; [done|]. intros [_ Hcor]. destruct (Hcor eq_refl eq_refl Hl1 Hl2) as [Hn|[?|(c & Hin & Hc)]]; [by apply Hname in Hn|done|].
    apply not_true_iff_false in Ee. exfalso. apply Ee, existsb_exists. exists c. by rewrite <- list_elem_of_In.
Qed.

(** The pieces of the torrent are not shared between what is there and what is
    missing. *)
Definition pieces_isolated (parsed : ParsedTorrent) (m : DirMatchResult) : Prop :=
  ∀ i j f g, (0 ≤ i)%Z → (0 ≤ j)%Z → (i / pt_PieceLength parsed = j / pt_PieceLength parsed)%Z →
    torrent_file_at (pt_Files parsed) i = Some f → torrent_file_at (pt_Files parsed) j = Some g →
    f ∈ (mr_MatchedFiles m).*2 ↔ g ∈ (mr_MatchedFiles m).*2.

Lemma boundary_file_at parsed m i f :
  NoDup (df_Path <$> pt_Files parsed) → (∀ g, g ∈ (mr_MatchedFiles m).*2 → g ∈ pt_Files parsed) →
  torrent_file_at (pt_Files parsed) i = Some f →
  ∃ b, file_at (boundary_files parsed m) i = Some b ∧ (bf_IsContent b = true ↔ f ∈ (mr_MatchedFiles m).*2).
Proof.
  intros Hnd Hsub Hf. pose proof (torrent_file_at_elem _ _ _ Hf) as Hin. unfold boundary_files.
  set (content := λ f, bool_decide (df_Path f ∈ (list_to_set (df_Path <$> (mr_MatchedFiles m).*2) : gset string))).
  exists (MkBoundaryFile (df_Path f) (df_Size f) (content f)). split.
  - clear -Hf. revert i Hf. induction (pt_Files parsed) as [|g files IH]; intros i; [done|].
    cbn [torrent_file_at fmap list_fmap file_at bf_Size]. destruct (i <? df_Size g)%Z; [by intros [= ->]|apply IH].
  - cbn [bf_IsContent]. unfold content. rewrite bool_decide_eq_true, elem_of_list_to_set. split; [|by apply list_elem_of_fmap_2].
    intros (g & Ep & Hg)%list_elem_of_fmap. assert (f = g) as ->; [|done].
    pose proof (Hsub g Hg) as Hing. clear -Hnd Hin Hing Ep.
    induction (pt_Files parsed) as [|x l IH]; [by apply elem_of_nil in Hin|]. cbn [fmap list_fmap] in Hnd.
    inversion Hnd as [|?? Hn Hnd']; subst. apply elem_of_cons in Hin as [->|Hin], Hing as [->|Hing]; [done| | |by apply IH].
    + exfalso. apply Hn. rewrite Ep. by apply list_elem_of_fmap_2.
    + exfalso. apply Hn. rewrite <- Ep. by apply list_elem_of_fmap_2.
Qed.

Lemma safe_pieces parsed m :
  NoDup (df_Path <$> pt_Files parsed) → torrent_sizes_ok (pt_Files parsed) →
  (∀ g, g ∈ (mr_MatchedFiles m).*2 → g ∈ pt_Files parsed) →
  Safe (CheckPieceBoundarySafety (boundary_files parsed m) (pt_PieceLength parsed)) = true → pieces_isolated parsed m.
Proof.
  intros Hnd [Hs Hsum] Hsub Hsafe i j f g Hi Hj Hp Hf Hg.
  destruct (boundary_file_at parsed m i f Hnd Hsub Hf) as (bf & Hbf & <-), (boundary_file_at parsed m j g Hnd Hsub Hg) as (bg & Hbg & <-).
  assert (sizes_ok (boundary_files parsed m)) as Hok.
  { unfold boundary_files. split; [by apply Forall_fmap|].
    assert (∀ c l, total_size ((λ f, MkBoundaryFile (df_Path f) (df_Size f) (c f)) <$> l) = sum_of l) as ->; [|done].
    intros c l. unfold sum_of. induction l as [|x l IH]; [done|]. cbn [fmap list_fmap]. rewrite total_size_cons, IH. done. }
  by rewrite (safe_no_mixed _ _ Hok Hsafe i j bf bg Hi Hj Hp Hbf Hbg).
Qed.

Definition all_matched (m : DirMatchResult) : Prop := mr_UnmatchedTorrentFiles m = [].

(** C4. A torrent is accepted exactly when the files are the same by the mode of
    matching - and for a single file found by its size, the name, an identifier or
    the title speaks for it - or when partial matches are allowed, some files
    match, enough bytes are there, and the boundary check passes or is switched
    off.  The check is skipped by default, and then partial matches may share
    pieces with missing files; only with the check on does no piece of an accepted
    torrent hold bytes of a file that is there and of one that is missing.  Paths
    are distinct and sizes valid, which [hasUnsafeUnmatchedTorrentFiles] relies on. *)
Theorem decision_exact (order : KeyRange Z) (searchee : Searchee) (meta : option SearcheeMetadata) (parsed : ParsedTorrent)
    (result : option SearchResult) (settings : DirScanSettings) :
  NoDup (df_Path <$> pt_Files parsed) → torrent_sizes_ok (pt_Files parsed) →
  let mode := if ds_Flexible settings then MatchModeFlexible else MatchModeStrict in
  let m := Match order mode searchee (pt_Files parsed) in
  let accepted := dd_Accept (decide_match order searchee meta parsed result settings) in
  (accepted = true ↔
    sr_Files searchee ≠ [] ∧ searchee_key mode <$> sr_Files searchee ≡ₚ torrent_key mode <$> pt_Files parsed ∧
      (ds_Flexible settings = true → length (sr_Files searchee) = 1 → corroborated meta parsed result m) ∨
    ¬ searchee_key mode <$> sr_Files searchee ≡ₚ torrent_key mode <$> pt_Files parsed ∧
      (∃ sf tf, sf ∈ sr_Files searchee ∧ tf ∈ pt_Files parsed ∧ searchee_key mode sf = torrent_key mode tf) ∧
      ds_AllowPartial settings = true ∧
      (∃ percent, matchedTorrentPiecePercent m parsed = Some percent ∧ f64_ltb percent (ds_MinPieceRatio settings) = false) ∧
      (all_matched m ∨ ds_SkipPieceBoundarySafetyCheck settings = true ∨
       (hasUnsafeUnmatchedTorrentFiles parsed m).1 = false)) ∧
  (accepted = true → ds_SkipPieceBoundarySafetyCheck settings = false → pieces_isolated parsed m).
Proof.
  intros Hnd Hok. cbv zeta. unfold decide_match.
  set (mode := if ds_Flexible settings then MatchModeFlexible else MatchModeStrict).
  assert (NoDup (identity_of <$> pt_Files parsed)) as Hids.
  { apply (NoDup_fmap_1 fst). rewrite <- list_fmap_compose. exact Hnd. }
  pose proof (match_flags order mode searchee (pt_Files parsed) Hids) as (_ & Hperf & Hmatch & _).
  pose proof (match_pairs order mode searchee (pt_Files parsed) Hids) as (_ & Hps & Hpt). cbv zeta in *.
  set (m := Match order mode searchee (pt_Files parsed)) in *.
  assert (mr_IsMatch m = true → sr_Files searchee ≠ []) as Hne.
  { intros (sf & _ & Hin & _)%Hmatch E. rewrite E in Hin. by apply elem_of_nil in Hin. }
  assert (all_matched m → pieces_isolated parsed m) as Hall.
  { intros Ha i j f g _ _ _ Hf%torrent_file_at_elem Hg%torrent_file_at_elem. unfold all_matched in Ha. rewrite Ha, app_nil_r in Hpt.
    rewrite Hpt in Hf, Hg. done. }
  assert (mr_IsPerfectMatch m = true → all_matched m) as Hpm.
  { intros Hp. pose proof (proj1 Hperf Hp) as [Hs Hkeys]. unfold all_matched.
    pose proof (match_run_greedy order mode (sr_Files searchee) (pt_Files parsed) Hids) as Hg. cbv zeta in Hg.
    destruct (Match_run order mode searchee (pt_Files parsed)) as (_ & _ & Hu & _); [done| |].
    { intros E. rewrite E in Hkeys. cbn in Hkeys. by apply Permutation_nil_r, fmap_nil_inv in Hkeys. }
    fold m in Hu. rewrite Hu. by apply (greedy_perfect _ _ _ _ _ _ _ Hg). }
  rewrite refine_accept. unfold shouldAcceptDirScanMatch.
  destruct (mr_IsMatch m) eqn:Em; cbn [negb].
  2:{ cbn [dd_Accept decided]. split; [|by intros [? _]]. split; [by intros [? _]|].
    assert (¬ ∃ sf tf, sf ∈ sr_Files searchee ∧ tf ∈ pt_Files parsed ∧ searchee_key mode sf = torrent_key mode tf) as Hno
      by (intros Hx; by apply Hmatch in Hx).
    intros [(Hs & Hkeys & _)|(_ & Hx & _)]; [|done]. exfalso. apply Hno.
    destruct (sr_Files searchee) as [|sf files] eqn:Es; [done|].
    assert (searchee_key mode sf ∈ torrent_key mode <$> pt_Files parsed) as (tf & E & Hin)%list_elem_of_fmap by (rewrite <- Hkeys; by left).
    exists sf, tf. split_and!; [by left|done|done]. }
  destruct (mr_IsPerfectMatch m) eqn:Ep.
  { pose proof (proj1 Hperf eq_refl) as [Hs Hkeys]. cbn [dd_Accept decided]. split; [|intros _ _; by apply Hall, Hpm].
    assert (length (sr_Files searchee) = length (pt_Files parsed)) as Hlen.
    { apply Permutation_length in Hkeys. by rewrite !length_fmap in Hkeys. }
    split.
    - intros [_ Hc]. left. split_and!; [done|done|]. intros Hf Hl1. apply Hc; [done|done|done|congruence].
    - intros [(_ & _ & Hc)|(Hno & _)]; [|done]. split; [done|]. intros Hf _ Hl1 _. by apply Hc. }
  assert (¬ searchee_key mode <$> sr_Files searchee ≡ₚ torrent_key mode <$> pt_Files parsed) as Hnokeys.
  { intros Hk. assert (false = true) as [=]. apply Hperf. split; [by apply Hne|done]. }
  assert (∀ Q : Prop, (sr_Files searchee ≠ [] ∧ searchee_key mode <$> sr_Files searchee ≡ₚ torrent_key mode <$> pt_Files parsed ∧
    (ds_Flexible settings = true → length (sr_Files searchee) = 1 → corroborated meta parsed result m) ∨
    ¬ searchee_key mode <$> sr_Files searchee ≡ₚ torrent_key mode <$> pt_Files parsed ∧
    (∃ sf tf, sf ∈ sr_Files searchee ∧ tf ∈ pt_Files parsed ∧ searchee_key mode sf = torrent_key mode tf) ∧ Q) ↔ Q) as Hcases by tauto.
  rewrite Hcases. clear Hcases Hmatch Hperf.
  destruct (ds_AllowPartial settings); cbn [negb].
  2:{ cbn [dd_Accept decided]. split; [split; [by intros [? _]|by intros [? _]]|by intros [? _]]. }
  destruct (matchedTorrentPiecePercent m parsed) as [percent|].
  2:{ cbn [dd_Accept decided]. split; [split; [by intros [? _]|by intros (_ & (? & ? & _) & _)]|by intros [? _]]. }
  destruct (f64_ltb percent (ds_MinPieceRatio settings)) eqn:El.
  { cbn [dd_Accept decided]. split; [split; [by intros [? _]|]|by intros [? _]]. intros (_ & (? & [= <-] & ?) & _). congruence. }
  assert ((∃ percent0, Some percent = Some percent0 ∧ f64_ltb percent0 (ds_MinPieceRatio settings) = false) ↔ True) as ->.
  { split; [done|]. intros _. by exists percent. }
  unfold all_matched in *. case_bool_decide as Hu; cbn [andb].
  2:{ cbn [dd_Accept decided]. split; [|by intros _ _; apply Hall]. split; [intros _; by split_and!; auto|]. intros _. by split. }
  destruct (ds_SkipPieceBoundarySafetyCheck settings); cbn [negb andb].
  { cbn [dd_Accept decided]. split; [|done]. split; [intros _; by split_and!; auto|]. intros _. by split. }
  destruct (hasUnsafeUnmatchedTorrentFiles parsed m).1 eqn:Eu; cbn [dd_Accept decided].
  { split; [|by intros [? _]]. split; [by intros [? _]|]. by intros (_ & _ & [?|[?|?]]). }
  split; [split; [intros _; by split_and!; auto|]; intros _; by split|]. intros _ _.
  apply safe_pieces; [done|done| |].
  - intros g Hg. rewrite Hpt. apply elem_of_app. by left.
  - unfold hasUnsafeUnmatchedTorrentFiles in Eu. destruct (pt_PieceLength parsed <=? 0)%Z; [done|].
    destruct (mr_UnmatchedTorrentFiles m); [done|]. cbn [fst] in Eu. by apply negb_false_iff in Eu.
Qed.
End accepted.

(** ** Runs *)

Section runs.
#[local] Existing Instance AsciiCase.
#[local] Existing Instance AsciiTables.

(** A parser that takes a name for the title. *)
Definition title_only (title : string) : Release :=
  MkParsed UnknownType "" title "" "" 0 0 0 0 0 "" "" "" [] [] "" [] [] [] [] [] "" "" "" "" "" "" "".
#[local] Instance TitleParser : ReleaseParser := {| ParseString := title_only; Parse := title_only |}.

(** Two episodes that are there, and a file that is not, in pieces of a length. *)
Definition show_torrent (pieceLength : Z) : ParsedTorrent :=
  parsed_torrent "hash" (MkInfoOf "Show" 0 pieceLength 3 [(["show-s01e02.mkv"], 100); (["Show_S01E01.mkv"], 100); (["Show.nfo"], 1)]%Z).
Definition half_enough : DirScanSettings := MkDirSettings false true (f64_of_Z 50) false.

Lemma decision_exact_witness :
  dd_Accept (decide_match size_order two_files None (show_torrent 100) None half_enough) = true ∧
  pieces_isolated (show_torrent 100) (Match size_order MatchModeStrict two_files (pt_Files (show_torrent 100))) ∧
  dd_Accept (decide_match size_order two_files None (show_torrent 128) None half_enough) = false.
Proof.
  assert (NoDup (df_Path <$> pt_Files (show_torrent 100))) as Hnd by (apply (bool_decide_unpack _); by vm_compute).
  assert (torrent_sizes_ok (pt_Files (show_torrent 100))) as Hok.
  { split; [apply (bool_decide_unpack _); by vm_compute|by vm_compute]. }
  assert (dd_Accept (decide_match size_order two_files None (show_torrent 100) None half_enough) = true) as Ha by by vm_compute.
  pose proof (decision_exact size_order two_files None (show_torrent 100) None half_enough Hnd Hok) as Hx. cbv zeta in Hx.
  destruct Hx as [_ Hpieces]. split; [exact Ha|]. split; [by apply Hpieces|by vm_compute].
Defined.

(** A single file of the right size and another name needs a title. *)
Definition one_movie : Searchee := MkSearchee "Some Film" "/m" [scanned_as "film.mkv" 700] false.
Definition movie_torrent (name : string) : ParsedTorrent := parsed_torrent "hash" (MkInfoOf name 700 100 7 []).
Definition by_size_only : DirScanSettings := MkDirSettings true false f64_zero false.

Example title_speaks :
  dd_Accept (decide_match size_order one_movie (Some (ParseName "Some Film")) (movie_torrent "some.film") None by_size_only) = true ∧
  dd_Accept (decide_match size_order one_movie (Some (ParseName "Some Film")) (movie_torrent "another.film") None by_size_only) = false.
Proof. split; by vm_compute. Qed.

(** The bytes that match are counted in pieces as if they lay together: files of
    half a piece count as whole pieces, although no piece is complete. *)
Example scattered_bytes_count :
  let torrent := parsed_torrent "hash" (MkInfoOf "T" 0 100 2 [(["a.mkv"], 50); (["b.mkv"], 50); (["c.mkv"], 50); (["d.mkv"], 50)]%Z) in
  let m := Match size_order MatchModeStrict (MkSearchee "T" "/m" [scanned_as "a.mkv" 50; scanned_as "c.mkv" 50] false) (pt_Files torrent) in
  matchedTorrentPiecePercent m torrent = Some (f64_of_Z 50).
Proof. by vm_compute. Qed.
End runs.
