(* ===== verification/DirWork.v ===== *)
(** * [internal/services/dirscan]: the work of a scan

    What is tracked of scanned files from run to run (progress.go), the split of
    a searchee into seasons and episodes (tv_heuristics.go), and which of these
    items are worth a search (work_selection.go). *)

From Stdlib Require Import ZArith Lia Ascii.
From stdpp Require Import base numbers list strings pretty gmap sorting.
From S2P Require Import Prelude.
From S2P Require Import GoStrings.
From S2P Require Import GoPath.
From S2P Require Import UnicodeText.
From S2P Require Import OrphanWalk.
From S2P Require Import CrossRelease.
From S2P Require Import DirScanner.
From S2P Require Import DirMatch.
From S2P Require Import DirAccept.

Open Scope qui_scope.

(** ** Tracked files *)

Inductive DirScanFileStatus : Type :=
| StatusPending | StatusMatched | StatusNoMatch | StatusError | StatusAlreadySeeding | StatusInQBittorrent.

#[export] Instance DirScanFileStatus_eq_dec : EqDecision DirScanFileStatus.
Proof. solve_decision. Defined.

Definition status_text (s : DirScanFileStatus) : string :=
  match s with
  | StatusPending => "pending" | StatusMatched => "matched" | StatusNoMatch => "no_match" | StatusError => "error"
  | StatusAlreadySeeding => "already_seeding" | StatusInQBittorrent => "in_qbittorrent"
  end.

(** A row of the store; the empty text is no identity. *)
Record DirScanFile := MkRow {
  rw_DirectoryID : Z; rw_FilePath : string; rw_FileSize : Z; rw_FileModTime : Z; rw_FileID : string;
  rw_Status : DirScanFileStatus; rw_MatchedTorrentHash : string; rw_MatchedIndexerID : option Z }.

Record trackedFilesIndex := MkIndex { byPath : gmap string DirScanFile; byFileID : gmap string DirScanFile }.

Definition empty_index : trackedFilesIndex := MkIndex ∅ ∅.

Definition isFinalFileStatus (status : DirScanFileStatus) : bool :=
  match status with
  | StatusMatched | StatusNoMatch | StatusAlreadySeeding | StatusInQBittorrent => true
  | StatusPending | StatusError => false
  end.

(** A row enters the index. *)
Definition index_row (idx : trackedFilesIndex) (f : DirScanFile) : trackedFilesIndex :=
  MkIndex (if bool_decide (rw_FilePath f = "") then byPath idx else <[rw_FilePath f := f]> (byPath idx))
    (if bool_decide (rw_FileID f = "") then byFileID idx else <[rw_FileID f := f]> (byFileID idx)).

(** [ListFiles] of the store gives a page of the rows of the directory. *)
Definition list_page (rows : list DirScanFile) (limit offset : nat) : list DirScanFile := take limit (drop offset rows).

Definition track_page_size : nat := Z.to_nat 5000.

Fixpoint load_pages (fuel : nat) (rows : list DirScanFile) (offset : nat) (idx : trackedFilesIndex) : option trackedFilesIndex :=
  match fuel with
  | O => None
  | S fuel =>
    match list_page rows track_page_size offset with
    | [] => Some idx
    | files => load_pages fuel rows (offset + length files) (foldl index_row idx files)
    end
  end.

Definition loadTrackedFilesIndex (rows : list DirScanFile) : option trackedFilesIndex :=
  load_pages (S (length rows)) rows 0 empty_index.

Definition file_id_bytes (f : ScannedFile) : string := if FileID_IsZero (sf_FileID f) then "" else FileID_Bytes (sf_FileID f).

Definition isFileAlreadySeedingByFileID (f : ScannedFile) (index : gmap string string) : bool :=
  if FileID_IsZero (sf_FileID f) || bool_decide (index = ∅) then false
  else bool_decide (is_Some (index !! FileID_Bytes (sf_FileID f))).

Definition lookupTrackedFile (f : ScannedFile) (idx : trackedFilesIndex) : option DirScanFile :=
  match (if FileID_IsZero (sf_FileID f) then None else byFileID idx !! FileID_Bytes (sf_FileID f)) with
  | Some existing => Some existing
  | None => byPath idx !! sf_Path f
  end.

Record row_state := MkRowState { rs_Status : DirScanFileStatus; rs_Hash : string; rs_Indexer : option Z }.

Definition unmatched (status : DirScanFileStatus) : row_state := MkRowState status "" None.

(** The row a scan leaves for a file: [status] and the match that goes with it. *)
Definition tracked_state (f : ScannedFile) (existing : option DirScanFile) (alreadySeeding : bool) : row_state :=
  let st := unmatched StatusPending in
  let st := match existing with
            | Some e =>
              if (rw_FileSize e =? sf_Size f)%Z && (rw_FileModTime e =? sf_ModTime f)%Z
              then MkRowState (rw_Status e) (rw_MatchedTorrentHash e) (rw_MatchedIndexerID e) else st
            | None => st
            end in
  let st := if alreadySeeding && match existing with Some e => negb (isFinalFileStatus (rw_Status e)) | None => true end
            then unmatched StatusAlreadySeeding else st in
  let st := match existing with
            | Some e => if bool_decide (rw_Status e = StatusAlreadySeeding) && negb alreadySeeding then unmatched StatusPending else st
            | None => st
            end in
  match existing with
  | Some e => if bool_decide (rs_Status st ≠ rw_Status e) then unmatched (rs_Status st) else st
  | None => st
  end.

Definition row_of (directoryID : Z) (f : ScannedFile) (st : row_state) : DirScanFile :=
  MkRow directoryID (sf_Path f) (sf_Size f) (sf_ModTime f) (file_id_bytes f) (rs_Status st) (rs_Hash st) (rs_Indexer st).

Definition buildTrackedFileUpsert (directoryID : Z) (f : ScannedFile) (idx : trackedFilesIndex) (alreadySeeding : bool)
    : option DirScanFile :=
  if (directoryID <=? 0)%Z then None
  else Some (row_of directoryID f (tracked_state f (lookupTrackedFile f idx) alreadySeeding)).

(** The in-memory index keeps in step with the store. *)
Definition reindex (idx : trackedFilesIndex) (f : DirScanFile) : trackedFilesIndex :=
  MkIndex (<[rw_FilePath f := f]> (byPath idx))
    (if bool_decide (rw_FileID f = "") then byFileID idx else <[rw_FileID f := f]> (byFileID idx)).

(** The rows written, in order; an error of the store ends the loop. *)
Fixpoint refresh_files (store_ok : DirScanFile → bool) (directoryID : Z) (fileIDIndex : gmap string string)
    (files : list ScannedFile) (idx : trackedFilesIndex) : list DirScanFile * option trackedFilesIndex :=
  match files with
  | [] => ([], Some idx)
  | f :: files =>
    match buildTrackedFileUpsert directoryID f idx (isFileAlreadySeedingByFileID f fileIDIndex) with
    | None => refresh_files store_ok directoryID fileIDIndex files idx
    | Some row =>
      if store_ok row then
        let '(rows, result) := refresh_files store_ok directoryID fileIDIndex files (reindex idx row) in (row :: rows, result)
      else ([], None)
    end
  end.

Definition refreshTrackedFilesFromScan (store_ok : DirScanFile → bool) (rows : list DirScanFile) (directoryID : Z)
    (scan : ScanResult) (fileIDIndex : gmap string string) : list DirScanFile * option trackedFilesIndex :=
  match loadTrackedFilesIndex rows with
  | None => ([], None)
  | Some idx => refresh_files store_ok directoryID fileIDIndex (all_files (sc_Searchees scan)) idx
  end.

(** ** Seasons and episodes *)

Record tvGroupKey := MkGroupKey { gk_normalizedTitle : string; gk_season : Z }.

#[export] Instance tvGroupKey_eq_dec : EqDecision tvGroupKey.
Proof. solve_decision. Defined.
#[export] Instance tvGroupKey_countable : Countable tvGroupKey.
Proof. refine (inj_countable' (λ k, (gk_normalizedTitle k, gk_season k)) (λ t, MkGroupKey t.1 t.2) _). by intros []. Defined.

Record tvGroup := MkGroup {
  tg_displayTitle : string; tg_season : Z; tg_episodeFiles : list ScannedFile; tg_parentDirs : list string; tg_mixedSeasonDir : bool }.

Record searcheeWorkItem := MkItem { wi_searchee : Searchee; wi_tvGroup : option tvGroupKey }.

(** ["%02d"]. *)
Definition two_digits (n : Z) : string := if ((0 <=? n) && (n <? 10))%Z then "0" +++ pretty n else pretty n.

Section work.
Context `{!UnicodeCase, !UnicodeTables, !ReleaseParser}.

(** The name of a path without its extension. *)
Definition stem (path : string) : string := let base := Base path in TrimSuffix base (Ext base).

Definition parseTVEpisodeKey (f : ScannedFile) : option (tvGroupKey * string * string) :=
  if negb (isVideoPath (sf_Path f)) then None else
  let name := stem (sf_Path f) in
  if bool_decide (name = "") then None else
  let meta := ParseName name in
  if negb (sm_IsTV meta) then None else
  match sm_Season meta, sm_Episode meta with
  | Some season, Some _ =>
    let displayTitle := if bool_decide (sm_Title meta = "") then name else sm_Title meta in
    Some (MkGroupKey (NormalizeForMatching displayTitle) season, displayTitle, Dir (sf_Path f))
  | _, _ => None
  end.

Definition recordSeasonInDir (parentDir : string) (season : Z) (seasonsByDir : gmap string (gset Z)) : gmap string (gset Z) :=
  if bool_decide (parentDir = "") || (season <=? 0)%Z then seasonsByDir
  else <[parentDir := {[season]} ∪ default ∅ (seasonsByDir !! parentDir)]> seasonsByDir.

Definition add_episode (f : ScannedFile) (parentDir : string) (g : tvGroup) : tvGroup :=
  MkGroup (tg_displayTitle g) (tg_season g) (tg_episodeFiles g ++ [f]) (tg_parentDirs g ++ [parentDir]) (tg_mixedSeasonDir g).

(** [buildTVGroupEntry] with the updates that follow it. *)
Definition group_step (acc : gmap tvGroupKey tvGroup * gmap string (gset Z)) (f : ScannedFile)
    : gmap tvGroupKey tvGroup * gmap string (gset Z) :=
  match parseTVEpisodeKey f with
  | None => acc
  | Some (key, displayTitle, parentDir) =>
    let group := default (MkGroup displayTitle (gk_season key) [] [] false) (acc.1 !! key) in
    (<[key := add_episode f parentDir group]> acc.1, recordSeasonInDir parentDir (gk_season key) acc.2)
  end.

(** The directories of a group once each, in the order of the set's map. *)
Definition finalize_group (order : MapRange) (seasonsByDir : gmap string (gset Z)) (g : tvGroup) : tvGroup :=
  let mixed := existsb (λ dir, match seasonsByDir !! dir with Some seasons => (1 <? size seasons)%nat | None => false end) (tg_parentDirs g) in
  let uniqueDirs : gmap string unit := list_to_map ((λ dir, (dir, ())) <$> tg_parentDirs g) in
  MkGroup (tg_displayTitle g) (tg_season g) (tg_episodeFiles g) (range order 0 uniqueDirs).*1 (tg_mixedSeasonDir g || mixed).

Definition groupTVEpisodes (order : MapRange) (searchee : Searchee) : gmap tvGroupKey tvGroup :=
  let '(groups, seasonsByDir) := foldl group_step (∅, ∅) (sr_Files searchee) in
  finalize_group order seasonsByDir <$> groups.

Definition isInGroupDir (g : tvGroup) (absPath : string) : bool :=
  let clean := Clean absPath in
  existsb (λ dir, let dirClean := Clean dir in bool_decide (clean = dirClean) || HasPrefix clean (dirClean +++ "/")) (tg_parentDirs g).

Definition buildSeasonSearchee (g : tvGroup) (original : Searchee) : option Searchee :=
  if tg_mixedSeasonDir g then None
  else if (tg_season g <=? 0)%Z then None
  else if (length (tg_episodeFiles g) <? 2)%nat then None
  else if bool_decide (tg_displayTitle g = "") then None
  else
    let seasonName := tg_displayTitle g +++ " S" +++ two_digits (tg_season g) in
    match filter (λ f, isInGroupDir g (sf_Path f) = true) (sr_Files original) with
    | [] => None
    | files => Some (MkSearchee seasonName (sr_Path original) files false)
    end.

Definition set_rel (rel : string) (f : ScannedFile) : ScannedFile :=
  MkScanned (sf_Path f) rel (sf_Size f) (sf_ModTime f) (sf_FileID f) (sf_LinkCount f) (sf_HasLinks f).

Definition buildEpisodeSearchee (f : ScannedFile) : option Searchee :=
  let name := stem (sf_Path f) in
  if bool_decide (name = "") then None
  else Some (MkSearchee name (Dir (sf_Path f)) [set_rel (Base (sf_Path f)) f] false).

Definition group_items (original : Searchee) (kg : tvGroupKey * tvGroup) : list searcheeWorkItem :=
  let '(key, group) := kg in
  match tg_episodeFiles group with
  | [] => []
  | episodes =>
    (λ s, MkItem s (Some key)) <$> option_list (buildSeasonSearchee group original) ++ omap buildEpisodeSearchee episodes
  end.

Definition buildSearcheeWorkItems (order : MapRange) (groups : KeyRange tvGroupKey) (searchee : Searchee) : list searcheeWorkItem :=
  let tvGroups := groupTVEpisodes order searchee in
  if bool_decide (tvGroups = ∅) then [MkItem searchee None]
  else concat (group_items searchee <$> key_range groups tvGroups).

(** ** Selection *)

Definition trackedFileForScannedFile (f : ScannedFile) (tracked : trackedFilesIndex) : option DirScanFile :=
  match byPath tracked !! sf_Path f with
  | Some row => Some row
  | None => if FileID_IsZero (sf_FileID f) then None else byFileID tracked !! FileID_Bytes (sf_FileID f)
  end.

Definition file_pending (tracked : trackedFilesIndex) (f : ScannedFile) : bool :=
  match trackedFileForScannedFile f tracked with
  | Some row => negb (isFinalFileStatus (rw_Status row))
  | None => true
  end.

Definition workItemHasPendingFiles (item : searcheeWorkItem) (tracked : trackedFilesIndex) : bool :=
  existsb (file_pending tracked) (sr_Files (wi_searchee item)).

(** The latest moment of modification, from the zero time on. *)
Definition newestContentModTime (files : list ScannedFile) : Z :=
  foldl (λ newest f, if (newest <? sf_ModTime f)%Z then sf_ModTime f else newest) zero_time files.

(** [cutoff] is none for the zero time. *)
Definition workItemIsStale (item : searcheeWorkItem) (cutoff : option Z) : bool :=
  match cutoff with
  | None => false
  | Some cutoff =>
    match filterContentFiles (sr_Files (wi_searchee item)) with
    | [] => false
    | contentFiles =>
      if bool_decide (is_Some (wi_tvGroup item)) && (1 <? length contentFiles)%nat
      then existsb (λ f, (sf_ModTime f <? cutoff)%Z) contentFiles
      else let newest := newestContentModTime contentFiles in
           if (newest =? zero_time)%Z then false else (newest <? cutoff)%Z
    end
  end.

Record rootWorkSelection := MkRootWork { rt_root : Searchee; rt_items : list searcheeWorkItem }.
Record scanWorkSelection := MkSelection {
  sw_roots : list rootWorkSelection; sw_discoveredFiles : Z; sw_eligibleFiles : Z; sw_skippedFiles : Z }.

Definition item_paths (items : list searcheeWorkItem) : gset string :=
  list_to_set (concat ((λ i, sf_Path <$> sr_Files (wi_searchee i)) <$> items)).

Definition item_eligible (cutoff : option Z) (tracked : trackedFilesIndex) (item : searcheeWorkItem) : bool :=
  negb (workItemIsStale item cutoff) && workItemHasPendingFiles item tracked.

Definition select_root (order : MapRange) (groups : KeyRange tvGroupKey) (tracked : trackedFilesIndex) (cutoff : option Z)
    (acc : list rootWorkSelection * gset string * gset string) (root : Searchee) : list rootWorkSelection * gset string * gset string :=
  let '(roots, discovered, eligible) := acc in
  let discovered := discovered ∪ list_to_set (sf_Path <$> sr_Files root) in
  let pendingItems := filter (λ i, item_eligible cutoff tracked i = true) (buildSearcheeWorkItems order groups root) in
  let eligible := eligible ∪ item_paths pendingItems in
  (match pendingItems with [] => roots | _ => roots ++ [MkRootWork root pendingItems] end, discovered, eligible).

(** [days_before now n] is [now.AddDate(0, 0, -n)]. *)
Definition selectEligibleRootWork (order : MapRange) (groups : KeyRange tvGroupKey) (days_before : Z → Z → Z) (scan : ScanResult)
    (tracked : trackedFilesIndex) (maxSearcheeAgeDays now : Z) : scanWorkSelection :=
  let cutoff := if (0 <? maxSearcheeAgeDays)%Z then Some (days_before now maxSearcheeAgeDays) else None in
  let '(roots, discovered, eligible) := foldl (select_root order groups tracked cutoff) ([], ∅, ∅) (sc_Searchees scan) in
  let d := Z.of_nat (size discovered) in
  let e := Z.of_nat (size eligible) in
  MkSelection roots d e (Z.max (d - e) 0).
End work.

(** ** What is tracked *)

Lemma load_pages_spec fuel rows offset idx :
  (length rows - offset < fuel)%nat → load_pages fuel rows offset idx = Some (foldl index_row idx (drop offset rows)).
Proof.
  revert offset idx. induction fuel as [|fuel IH]; intros offset idx Hf; [lia|]. cbn [load_pages]. unfold list_page.
  assert (1 ≤ track_page_size)%nat as Hpage by (unfold track_page_size; lia). generalize dependent track_page_size. intros page Hpage.
  destruct (take page (drop offset rows)) as [|f files] eqn:Et.
  - destruct (drop offset rows) as [|x l]; [done|]. destruct page; [lia|done].
  - assert (length (take page (drop offset rows)) = S (length files)) as Hl by by rewrite Et.
    rewrite length_take, length_drop in Hl. rewrite IH by (cbn [length]; lia). f_equal.
    rewrite <- (take_drop page (drop offset rows)). rewrite foldl_app, Et. f_equal.
    rewrite drop_drop. cbn [length]. destruct (Nat.le_gt_cases page (length rows - offset)).
    + f_equal. lia.
    + rewrite !drop_ge by lia. done.
Qed.

(** Loading ends, and has every row. *)
Lemma load_all rows : loadTrackedFilesIndex rows = Some (foldl index_row empty_index rows).
Proof. unfold loadTrackedFilesIndex. by rewrite load_pages_spec by lia. Qed.

(** The file has the size and the time of the row. *)
Definition unchanged (f : ScannedFile) (e : DirScanFile) : bool :=
  ((rw_FileSize e =? sf_Size f) && (rw_FileModTime e =? sf_ModTime f))%Z.

Lemma tracked_state_exact f existing seeding :
  let st := tracked_state f existing seeding in
  match existing with
  | None => st = unmatched (if seeding then StatusAlreadySeeding else StatusPending)
  | Some e =>
    let settled := isFinalFileStatus (rw_Status e) && (seeding || negb (bool_decide (rw_Status e = StatusAlreadySeeding))) in
    if settled then
      st = if unchanged f e then MkRowState (rw_Status e) (rw_MatchedTorrentHash e) (rw_MatchedIndexerID e) else unmatched StatusPending
    else if seeding then st = unmatched StatusAlreadySeeding
    else if bool_decide (rw_Status e = StatusAlreadySeeding) || negb (unchanged f e) then rs_Status st = StatusPending
    else st = MkRowState (rw_Status e) (rw_MatchedTorrentHash e) (rw_MatchedIndexerID e)
  end.
Proof.
  cbv zeta. unfold tracked_state, unchanged. destruct existing as [e|]; [|by destruct seeding].
  destruct e as [dir path size time id status hash indexer]. cbn [rw_FileSize rw_FileModTime rw_Status rw_MatchedTorrentHash rw_MatchedIndexerID].
  destruct ((size =? sf_Size f) && (time =? sf_ModTime f))%Z, seeding, status; reflexivity.
Qed.

(** A match is carried over for an unchanged file only. *)
Lemma match_carried_over f existing seeding :
  rs_Hash (tracked_state f existing seeding) ≠ "" ∨ rs_Indexer (tracked_state f existing seeding) ≠ None →
  ∃ e, existing = Some e ∧ unchanged f e = true ∧
    tracked_state f existing seeding = MkRowState (rw_Status e) (rw_MatchedTorrentHash e) (rw_MatchedIndexerID e).
Proof.
  unfold tracked_state, unchanged. destruct existing as [e|]; [|destruct seeding; cbn; intros [?|?]; done].
  destruct e as [dir path size time id status hash indexer]. cbn [rw_FileSize rw_FileModTime rw_Status rw_MatchedTorrentHash rw_MatchedIndexerID].
  destruct ((size =? sf_Size f) && (time =? sf_ModTime f))%Z eqn:E, seeding, status; cbn; intros [Hn|Hn];
    first [done | (eexists; split; [reflexivity|]; cbn; rewrite E; done)].
Qed.

(** The last record of a list with a property, if there is one. *)
Definition last_such (P : DirScanFile → Prop) (l : list DirScanFile) (e : option DirScanFile) : Prop :=
  match e with
  | Some e => P e ∧ ∃ before after, l = before ++ e :: after ∧ ∀ row, row ∈ after → ¬ P row
  | None => ∀ row, row ∈ l → ¬ P row
  end.

(** A record of the same file by its identity, if the file has one. *)
Definition same_identity (f : ScannedFile) (row : DirScanFile) : Prop :=
  FileID_IsZero (sf_FileID f) = false ∧ rw_FileID row = FileID_Bytes (sf_FileID f).

(** What is known of a file: the last record with its identity, else the last
    one at its path. *)
Definition record_of (f : ScannedFile) (l : list DirScanFile) (e : option DirScanFile) : Prop :=
  (is_Some e ∧ last_such (same_identity f) l e) ∨
  (∀ row, row ∈ l → ¬ same_identity f row) ∧ last_such (λ row, rw_FilePath row = sf_Path f) l e.

Lemma last_such_snoc (P : DirScanFile → Prop) (b : bool) l row e :
  (b = true ↔ P row) → last_such P l e → last_such P (l ++ [row]) (if b then Some row else e).
Proof.
  intros Hb Hl. destruct b.
  - split; [by apply Hb|]. exists l, []. split; [done|]. by intros ? ?%elem_of_nil.
  - assert (¬ P row) as Hn by (intros ?%Hb; done). destruct e as [e|]; cbn [last_such] in *.
    + destruct Hl as (He & before & after & -> & Ha). split; [done|]. exists before, (after ++ [row]).
      rewrite <- app_assoc. split; [done|]. intros ? [?| ->%list_elem_of_singleton]%elem_of_app; [by apply Ha|done].
    + intros ? [?| ->%list_elem_of_singleton]%elem_of_app; [by apply Hl|done].
Qed.

Definition index_from (l : list DirScanFile) : trackedFilesIndex := foldl index_row empty_index l.

Lemma index_from_snoc l row : index_from (l ++ [row]) = index_row (index_from l) row.
Proof. apply foldl_snoc. Qed.

Lemma index_by_path l p : p ≠ ""%string → last_such (λ row, rw_FilePath row = p) l (byPath (index_from l) !! p).
Proof.
  intros Hp. induction l as [|row l IH] using rev_ind.
  { unfold index_from. cbn [foldl empty_index byPath byFileID]. rewrite lookup_empty. by intros ? ?%elem_of_nil. }
  rewrite index_from_snoc.
  replace (byPath (index_row (index_from l) row) !! p) with
    (if bool_decide (rw_FilePath row = p) then Some row else byPath (index_from l) !! p).
  - apply last_such_snoc; [apply bool_decide_eq_true|done].
  - unfold index_row. cbn [byPath]. case_bool_decide as E1; case_bool_decide as E2; try congruence.
    + by rewrite <- E1, lookup_insert_eq.
    + by rewrite lookup_insert_ne.
Qed.

Lemma index_by_identity l id : id ≠ ""%string → last_such (λ row, rw_FileID row = id) l (byFileID (index_from l) !! id).
Proof.
  intros Hp. induction l as [|row l IH] using rev_ind.
  { unfold index_from. cbn [foldl empty_index byPath byFileID]. rewrite lookup_empty. by intros ? ?%elem_of_nil. }
  rewrite index_from_snoc.
  replace (byFileID (index_row (index_from l) row) !! id) with
    (if bool_decide (rw_FileID row = id) then Some row else byFileID (index_from l) !! id).
  - apply last_such_snoc; [apply bool_decide_eq_true|done].
  - unfold index_row. cbn [byFileID]. case_bool_decide as E1; case_bool_decide as E2; try congruence.
    + by rewrite <- E1, lookup_insert_eq.
    + by rewrite lookup_insert_ne.
Qed.

Lemma FileID_Bytes_nonempty i : FileID_Bytes i ≠ ""%string.
Proof. done. Qed.

(** The index finds what is known of a file. *)
Lemma lookup_record f l : sf_Path f ≠ ""%string → record_of f l (lookupTrackedFile f (index_from l)).
Proof.
  intros Hp. unfold lookupTrackedFile, record_of, same_identity. destruct (FileID_IsZero (sf_FileID f)).
  { right. split; [intros row _ [? _]; congruence|]. by apply index_by_path. }
  pose proof (index_by_identity l (FileID_Bytes (sf_FileID f)) (FileID_Bytes_nonempty _)) as Hi.
  destruct (byFileID (index_from l) !! _) as [e|].
  - left. split; [done|]. destruct Hi as (He & before & after & Hl & Ha). split; [done|]. exists before, after.
    split; [done|]. intros row Hr [_ ?]. by apply (Ha row).
  - right. split; [intros row Hr [_ ?]; by apply (Hi row)|]. by apply index_by_path.
Qed.

Section refreshed.
Context (store_ok : DirScanFile → bool) (directoryID : Z) (fileIDIndex : gmap string string).
Context (Hdir : (0 < directoryID)%Z) (Hstore : ∀ row, store_ok row = true).

Definition seeded (f : ScannedFile) : bool := isFileAlreadySeedingByFileID f fileIDIndex.

(** Each file gets a row, decided on the index as it is then. *)
Inductive refreshes : list ScannedFile → trackedFilesIndex → list DirScanFile → trackedFilesIndex → Prop :=
| refreshes_nil idx : refreshes [] idx [] idx
| refreshes_cons f files idx rows idx' :
    let row := row_of directoryID f (tracked_state f (lookupTrackedFile f idx) (seeded f)) in
    refreshes files (reindex idx row) rows idx' → refreshes (f :: files) idx (row :: rows) idx'.

Lemma refresh_files_spec files idx :
  ∃ rows idx', refresh_files store_ok directoryID fileIDIndex files idx = (rows, Some idx') ∧ refreshes files idx rows idx'.
Proof.
  revert idx. induction files as [|f files IH]; intros idx; [by exists [], idx; split; [|constructor]|].
  cbn [refresh_files]. unfold buildTrackedFileUpsert. rewrite (proj2 (Z.leb_gt _ _)) by lia. rewrite Hstore.
  destruct (IH (reindex idx (row_of directoryID f (tracked_state f (lookupTrackedFile f idx) (isFileAlreadySeedingByFileID f fileIDIndex)))))
    as (rows & idx' & -> & Hr). eexists _, _. split; [done|]. by apply refreshes_cons.
Qed.

Lemma refreshes_paths files idx rows idx' : refreshes files idx rows idx' → rw_FilePath <$> rows = sf_Path <$> files.
Proof. induction 1 as [|f files idx rows idx' row _ IH]; [done|]. cbn [fmap list_fmap]. by rewrite IH. Qed.

Lemma refreshes_other files idx rows idx' p : refreshes files idx rows idx' → p ∉ sf_Path <$> files → byPath idx' !! p = byPath idx !! p.
Proof.
  induction 1 as [|f files idx rows idx' row _ IH]; [done|]. cbn [fmap list_fmap]. rewrite not_elem_of_cons. intros [Hp Hn].
  rewrite (IH Hn). unfold reindex, row, row_of. cbn [byPath rw_FilePath]. by rewrite lookup_insert_ne.
Qed.

Lemma refreshes_indexed files idx rows idx' k f row :
  NoDup (sf_Path <$> files) → refreshes files idx rows idx' → files !! k = Some f → rows !! k = Some row →
  byPath idx' !! sf_Path f = Some row ∧ rw_FilePath row = sf_Path f.
Proof.
  intros Hnd Hr. revert k. induction Hr as [|g files idx rows idx' row' Hr IH]; intros k Hf Hrow; [done|].
  cbn [fmap list_fmap] in Hnd. inversion Hnd as [|?? Hn Hnd']; subst. destruct k as [|k]; [|by apply (IH Hnd' k)].
  cbn in Hf, Hrow. injection Hf as ->. injection Hrow as <-. split; [|done].
  rewrite (refreshes_other _ _ _ _ _ Hr Hn). unfold reindex, row', row_of. cbn [byPath rw_FilePath]. by rewrite lookup_insert_eq.
Qed.

Lemma reindex_row f st idx : sf_Path f ≠ ""%string → reindex idx (row_of directoryID f st) = index_row idx (row_of directoryID f st).
Proof. intros Hp. unfold reindex, index_row. cbn [row_of rw_FilePath]. by rewrite (bool_decide_eq_false_2 (sf_Path f = "")). Qed.

(** Each row is decided on the records before it: those stored, and those of the
    files before. *)
Lemma refreshes_on_records files l rows idx' k f row :
  ""%string ∉ sf_Path <$> files → refreshes files (index_from l) rows idx' → files !! k = Some f → rows !! k = Some row →
  ∃ existing, record_of f (l ++ take k rows) existing ∧ row = row_of directoryID f (tracked_state f existing (seeded f)).
Proof.
  intros Hne Hr. remember (index_from l) as idx eqn:Ei. revert l Ei k Hne.
  induction Hr as [|g files idx rows idx' row' Hr IH]; intros l Ei k Hne Hf Hrow; [done|].
  cbn [fmap list_fmap] in Hne. apply not_elem_of_cons in Hne as [Hg Hne]. destruct k as [|k].
  - cbn in Hf, Hrow. injection Hf as ->. injection Hrow as <-. exists (lookupTrackedFile f idx). split; [|done].
    cbn [take]. rewrite app_nil_r, Ei. by apply lookup_record.
  - destruct (IH (l ++ [row'])) with (k := k) as (existing & Hrec & ->); try done.
    + unfold row'. rewrite reindex_row by done. rewrite Ei. symmetry. apply index_from_snoc.
    + exists existing. split; [|done]. by rewrite <- app_assoc in Hrec.
Qed.
End refreshed.

(** C14. After a scan every file has one row, in the order of the scan, with its
    size, time and identity.  What was known of the file - the last record with
    its identity, else the last at its path, among the stored ones and those
    written before - decides the row: a match is carried over only from that
    record and only when size and time did not change; a settled status is
    carried over when they did not; a file that changed and is not seeded is
    pending again; and the selection of work looks at exactly these rows.  The
    store accepts every row, and the scan has each path once. *)
Theorem refresh_exact (store_ok : DirScanFile → bool) (rows : list DirScanFile) (directoryID : Z) (scan : ScanResult)
    (fileIDIndex : gmap string string) :
  (0 < directoryID)%Z → (∀ row, store_ok row = true) →
  let files := all_files (sc_Searchees scan) in
  NoDup (sf_Path <$> files) → ""%string ∉ sf_Path <$> files →
  ∃ written tracked, refreshTrackedFilesFromScan store_ok rows directoryID scan fileIDIndex = (written, Some tracked) ∧
    length written = length files ∧
    ∀ k f, files !! k = Some f →
      let seeding := isFileAlreadySeedingByFileID f fileIDIndex in
      ∃ row existing, written !! k = Some row ∧ trackedFileForScannedFile f tracked = Some row ∧
        record_of f (rows ++ take k written) existing ∧
        row = row_of directoryID f (tracked_state f existing seeding) ∧
        (rw_MatchedTorrentHash row ≠ "" ∨ rw_MatchedIndexerID row ≠ None →
           ∃ e, existing = Some e ∧ unchanged f e = true ∧ rw_Status row = rw_Status e ∧
             rw_MatchedTorrentHash row = rw_MatchedTorrentHash e ∧ rw_MatchedIndexerID row = rw_MatchedIndexerID e) ∧
        (∀ e, existing = Some e → unchanged f e = true → isFinalFileStatus (rw_Status e) = true →
           seeding = true ∨ rw_Status e ≠ StatusAlreadySeeding →
           rw_Status row = rw_Status e ∧ rw_MatchedTorrentHash row = rw_MatchedTorrentHash e ∧
             rw_MatchedIndexerID row = rw_MatchedIndexerID e) ∧
        ((∀ e, existing = Some e → unchanged f e = false) → seeding = false → file_pending tracked f = true).
Proof.
  intros Hdir Hstore files Hnd Hne. unfold refreshTrackedFilesFromScan. rewrite load_all. fold files (index_from rows).
  destruct (refresh_files_spec store_ok directoryID fileIDIndex Hdir Hstore files (index_from rows)) as (written & tracked & -> & Hr).
  exists written, tracked. split; [done|].
  pose proof (refreshes_paths _ _ _ _ _ _ Hr) as Hpaths. assert (length written = length files) as Hlen.
  { apply (f_equal length) in Hpaths. by rewrite !length_fmap in Hpaths. }
  split; [done|]. intros k f Hf. set (seeding := isFileAlreadySeedingByFileID f fileIDIndex).
  assert (∃ row, written !! k = Some row) as [row Hrow].
  { apply lookup_lt_is_Some. rewrite Hlen. by eapply lookup_lt_Some. }
  destruct (refreshes_indexed _ _ _ _ _ _ _ _ _ Hnd Hr Hf Hrow) as [Hidx Hpath].
  destruct (refreshes_on_records _ _ _ _ _ _ _ _ _ Hne Hr Hf Hrow) as (existing & Hrec & Erow).
  unfold seeded in Erow. fold seeding in Erow. exists row, existing.
  assert (trackedFileForScannedFile f tracked = Some row) as Htr by (unfold trackedFileForScannedFile; by rewrite Hidx).
  pose proof (tracked_state_exact f existing seeding) as Ht. cbv zeta in Ht.
  split; [done|]. split; [done|]. split; [done|]. split; [done|]. split; [|split].
  - rewrite Erow. cbn [row_of rw_MatchedTorrentHash rw_Status rw_MatchedIndexerID]. intros Hh.
    destruct (match_carried_over f existing _ Hh) as (e & He & Hu & Hst). exists e. by rewrite Hst.
  - intros e -> Hu Hfin Hs. rewrite Erow. cbn [row_of rw_MatchedTorrentHash rw_Status rw_MatchedIndexerID].
    assert (seeding || negb (bool_decide (rw_Status e = StatusAlreadySeeding)) = true) as Hs'.
    { destruct Hs as [->|Hs]; [done|]. rewrite bool_decide_eq_false_2 by done. by rewrite orb_true_r. }
    rewrite Hfin, Hu, Hs' in Ht. cbn [andb] in Ht. by rewrite Ht.
  - intros Hch Hs. unfold file_pending. rewrite Htr, Erow. cbn [row_of rw_Status]. rewrite Hs in Ht |- *.
    destruct existing as [e|]; [|by rewrite Ht]. rewrite (Hch e eq_refl) in Ht. cbn [orb negb] in Ht. rewrite orb_true_r in Ht.
    by destruct (isFinalFileStatus (rw_Status e) && _); rewrite Ht.
Qed.

(** ** The items of a searchee *)

Section items.
Context `{!UnicodeCase, !UnicodeTables, !ReleaseParser}.
Context (order : MapRange) (groups : KeyRange tvGroupKey).

Definition tv_key (f : ScannedFile) : option tvGroupKey := (λ t, t.1.1) <$> parseTVEpisodeKey f.
Definition episodes_of (key : tvGroupKey) (files : list ScannedFile) : list ScannedFile := filter (λ f, tv_key f = Some key) files.
Definition dir_of (f : ScannedFile) : string := Dir (sf_Path f).

Lemma parse_dir f key title dir : parseTVEpisodeKey f = Some (key, title, dir) → tv_key f = Some key ∧ dir = dir_of f ∧ title ≠ "" ∧ stem (sf_Path f) ≠ "".
Proof.
  unfold tv_key. intros E. rewrite E. split; [done|]. unfold parseTVEpisodeKey in E. destruct (negb (isVideoPath _)); [done|].
  case_bool_decide as Hstem; [done|]. destruct (negb (sm_IsTV _)); [done|]. destruct (sm_Season _); [|done]. destruct (sm_Episode _); [|done].
  injection E as _ <- <-. split_and!; [done| |done]. by case_bool_decide.
Qed.

(** The groups of the files so far, and the seasons of each directory. *)
Definition groups_ok (files : list ScannedFile) (gs : gmap tvGroupKey tvGroup) (seasons : gmap string (gset Z)) : Prop :=
  (∀ key, match gs !! key with
          | None => episodes_of key files = []
          | Some g => episodes_of key files ≠ [] ∧ tg_season g = gk_season key ∧ tg_episodeFiles g = episodes_of key files ∧
                      tg_parentDirs g = dir_of <$> episodes_of key files ∧ tg_mixedSeasonDir g = false ∧ tg_displayTitle g ≠ ""
          end) ∧
  (∀ dir s, s ∈ default ∅ (seasons !! dir) ↔
     dir ≠ "" ∧ (0 < s)%Z ∧ ∃ f key, f ∈ files ∧ tv_key f = Some key ∧ dir_of f = dir ∧ gk_season key = s).

Lemma record_seasons dir s seasons d x :
  x ∈ default ∅ (recordSeasonInDir dir s seasons !! d) ↔ x ∈ default ∅ (seasons !! d) ∨ (d = dir ∧ x = s ∧ dir ≠ "" ∧ (0 < s)%Z).
Proof.
  unfold recordSeasonInDir. case_bool_decide as Hd; cbn [orb]; [naive_solver|].
  destruct (Z.leb_spec s 0); [naive_solver lia|]. destruct (decide (d = dir)) as [->|Hne].
  - rewrite lookup_insert_eq. cbn [from_option id]. rewrite elem_of_union, elem_of_singleton. naive_solver.
  - rewrite lookup_insert_ne by done. naive_solver.
Qed.

Lemma group_step_ok files gs seasons f :
  groups_ok files gs seasons →
  groups_ok (files ++ [f]) (group_step (gs, seasons) f).1 (group_step (gs, seasons) f).2.
Proof.
  intros [Hg Hs]. unfold group_step.
  assert (∀ key, episodes_of key (files ++ [f]) = episodes_of key files ++ if decide (tv_key f = Some key) then [f] else []) as Hep.
  { intros key. unfold episodes_of. by rewrite filter_app, filter_cons, filter_nil. }
  destruct (parseTVEpisodeKey f) as [[[key title] dir]|] eqn:Ep; cbn [fst snd].
  - destruct (parse_dir _ _ _ _ Ep) as (Hk & -> & Ht & _). split.
    + intros key'. rewrite Hep, Hk. pose proof (Hg key') as Hg'. destruct (decide (key' = key)) as [->|Hne].
      * rewrite lookup_insert_eq, decide_True by done. destruct (gs !! key) as [g|]; cbn [from_option id].
        -- destruct Hg' as (Hn & Hse & Hef & Hpd & Hmx & Hdt). unfold add_episode. cbn. rewrite Hef, Hpd, fmap_app.
           split_and!; try done. by destruct (episodes_of key files).
        -- rewrite Hg'. by split_and!.
      * rewrite lookup_insert_ne by done. rewrite decide_False by congruence. by rewrite app_nil_r.
    + intros d s. rewrite record_seasons, Hs. setoid_rewrite elem_of_app. setoid_rewrite list_elem_of_singleton. split.
      * intros [(? & ? & f' & k & ? & ?)|(-> & -> & ? & ?)]; (split_and!; [done|done|]).
        -- exists f', k. split; [by left|done].
        -- exists f, key. split_and!; [by right|done|done|done].
      * intros (Hd & Hpos & f' & k & [Hin| ->] & Hk' & Hdir & Hse).
        -- left. split_and!; [done|done|]. by exists f', k.
        -- right. rewrite Hk in Hk'. injection Hk' as ->. subst. by split_and!.
  - assert (tv_key f = None) as Hk by (unfold tv_key; by rewrite Ep). split.
    + intros key. rewrite Hep, Hk, decide_False by done. rewrite app_nil_r. apply Hg.
    + intros d s. rewrite Hs. setoid_rewrite elem_of_app. setoid_rewrite list_elem_of_singleton. split.
      * intros (? & ? & f' & k & ? & ?). split_and!; [done|done|]. exists f', k. split; [by left|done].
      * intros (? & ? & f' & k & [?| ->] & Hk' & ?); [|congruence]. split_and!; [done|done|]. by exists f', k.
Qed.

Lemma groups_fold files : groups_ok files (foldl group_step (∅, ∅) files).1 (foldl group_step (∅, ∅) files).2.
Proof.
  induction files as [|f files IH] using rev_ind.
  - cbn [foldl fst snd]. split; [intros key; by rewrite lookup_empty|].
    intros d s. rewrite lookup_empty. cbn [from_option id]. split; [set_solver|]. by intros (_ & _ & f & k & ?%elem_of_nil & _).
  - rewrite foldl_snoc. destruct (foldl group_step (∅, ∅) files) as [gs seasons]. by apply group_step_ok.
Qed.

(** Two seasons have episodes in a directory. *)
Definition mixed_dir (files : list ScannedFile) (dir : string) : Prop :=
  ∃ f g k l, f ∈ files ∧ g ∈ files ∧ tv_key f = Some k ∧ tv_key g = Some l ∧ dir_of f = dir ∧ dir_of g = dir ∧
    (0 < gk_season k)%Z ∧ (0 < gk_season l)%Z ∧ gk_season k ≠ gk_season l.

Lemma mixed_spec files seasons gs dir : dir ≠ "" → groups_ok files gs seasons →
  match seasons !! dir with Some s => (1 <? size s)%nat | None => false end = true ↔ mixed_dir files dir.
Proof.
  intros Hne [_ Hs]. specialize (Hs dir). unfold mixed_dir. destruct (seasons !! dir) as [s|] eqn:Es; cbn [from_option id] in Hs.
  - rewrite Nat.ltb_lt. split.
    + intros Hsz. destruct (set_choose_or_empty s) as [[x Hx]|He]; [|apply size_empty_iff in He; lia].
      destruct (set_choose_or_empty (s ∖ {[x]})) as [[y Hy]|He].
      * apply elem_of_difference in Hy as [Hy Hxy]. rewrite elem_of_singleton in Hxy.
        apply Hs in Hx as (_ & ? & f & k & ? & ? & ? & <-), Hy as (_ & ? & g & l & ? & ? & ? & <-). exists f, g, k, l. by split_and!.
      * assert (s ⊆ {[x]}) as Hsub%subseteq_size by (intros y Hy; destruct (decide (y = x)); set_solver). rewrite size_singleton in Hsub. lia.
    + intros (f & g & k & l & ? & ? & ? & ? & ? & ? & ? & ? & Hkl).
      assert (gk_season k ∈ s) as Hk by (apply Hs; split_and!; [done|done|by exists f, k]).
      assert (gk_season l ∈ s) as Hl by (apply Hs; split_and!; [done|done|by exists g, l]).
      assert ({[gk_season k; gk_season l]} ⊆ s) as Hsub%subseteq_size by set_solver.
      rewrite size_union, !size_singleton in Hsub by set_solver. lia.
  - split; [done|]. intros (f & g & k & l & ? & _ & ? & _ & ? & _ & ? & _).
    assert (gk_season k ∈ (∅ : gset Z)) as Hin by (apply Hs; split_and!; [done|done|by exists f, k]). set_solver.
Qed.

(** A file is in a directory or below it. *)
Definition below (dir path : string) : bool := bool_decide (Clean path = Clean dir) || HasPrefix (Clean path) (Clean dir +++ "/").

(** The files in the directories of the episodes of a season. *)
Definition season_files (key : tvGroupKey) (files : list ScannedFile) : list ScannedFile :=
  filter (λ f, existsb (λ e, below (dir_of e) (sf_Path f)) (episodes_of key files) = true) files.

Lemma elem_of_unique_dirs dirs d : d ∈ (range order 0 (list_to_map ((λ dir, (dir, ())) <$> dirs) : gmap string unit)).*1 ↔ d ∈ dirs.
Proof.
  rewrite list_elem_of_fmap. split.
  - intros ([k u] & -> & Hk%elem_of_range). apply elem_of_list_to_map_2 in Hk. apply list_elem_of_fmap in Hk as (x & [= -> _] & Hx). done.
  - intros Hd. exists (d, ()). split; [done|]. apply elem_of_range.
    destruct ((list_to_map ((λ dir, (dir, ())) <$> dirs) : gmap string unit) !! d) as [[]|] eqn:E; [done|].
    apply not_elem_of_list_to_map in E. exfalso. apply E. rewrite <- list_fmap_compose. apply list_elem_of_fmap. by exists d.
Qed.

Lemma in_group_dir g f files key seasons :
  tg_parentDirs g = dir_of <$> episodes_of key files →
  isInGroupDir (finalize_group order seasons g) (sf_Path f) = existsb (λ e, below (dir_of e) (sf_Path f)) (episodes_of key files).
Proof.
  intros Hd. unfold isInGroupDir, finalize_group. cbn [tg_parentDirs]. rewrite Hd. apply eq_true_iff_eq. rewrite !existsb_exists. split.
  - intros (d & Hin%list_elem_of_In & Hb). rewrite elem_of_unique_dirs in Hin. apply list_elem_of_fmap in Hin as (e & -> & He).
    exists e. split; [by apply list_elem_of_In|done].
  - intros (e & He%list_elem_of_In & Hb). exists (dir_of e). split; [|done]. apply list_elem_of_In, elem_of_unique_dirs.
    by apply list_elem_of_fmap_2.
Qed.

Lemma Dir_not_empty p : Dir p ≠ "".
Proof.
  unfold Dir. destruct (CutLast p sep) as [[before x]|]; [|done]. unfold Clean. case_bool_decide; [done|].
  destruct (IsAbs _); [done|]. by case_bool_decide.
Qed.

Lemma groupTVEpisodes_lookup searchee key :
  groupTVEpisodes order searchee !! key =
  (finalize_group order (foldl group_step (∅, ∅) (sr_Files searchee)).2) <$> (foldl group_step (∅, ∅) (sr_Files searchee)).1 !! key.
Proof. unfold groupTVEpisodes. destruct (foldl group_step (∅, ∅) (sr_Files searchee)) as [gs seasons]. by rewrite lookup_fmap. Qed.

Definition episode_item (key : tvGroupKey) (f : ScannedFile) : searcheeWorkItem :=
  MkItem (MkSearchee (stem (sf_Path f)) (dir_of f) [set_rel (Base (sf_Path f)) f] false) (Some key).

(** When a season is searched as a whole: it has a number, two episodes at least,
    and no directory of them has episodes of another season. *)
Definition whole_season (key : tvGroupKey) (files : list ScannedFile) : Prop :=
  (0 < gk_season key)%Z ∧ 2 ≤ length (episodes_of key files) ∧ Forall (λ e, ¬ mixed_dir files (dir_of e)) (episodes_of key files) ∧
  season_files key files ≠ [].

Lemma finalized_mixed files gs seasons g key :
  groups_ok files gs seasons → gs !! key = Some g →
  tg_mixedSeasonDir (finalize_group order seasons g) = false ↔ Forall (λ e, ¬ mixed_dir files (dir_of e)) (episodes_of key files).
Proof.
  intros Hok Hg. pose proof Hok as [Hgs _]. specialize (Hgs key). rewrite Hg in Hgs. destruct Hgs as (_ & _ & _ & Hd & Hm & _).
  unfold finalize_group. cbn [tg_mixedSeasonDir]. rewrite Hm, Hd. cbn [orb]. rewrite <- not_true_iff_false, existsb_exists, Forall_forall. split.
  - intros Hno e He Hmix. apply Hno. exists (dir_of e). split; [by apply list_elem_of_In, list_elem_of_fmap_2|].
    by apply (mixed_spec files seasons gs); [apply Dir_not_empty|done|].
  - intros Hall (d & (e & -> & He)%list_elem_of_In%list_elem_of_fmap & Hmix). apply (Hall e He).
    apply (mixed_spec files seasons gs) in Hmix; [done|apply Dir_not_empty|done].
Qed.

Lemma group_items_spec searchee key g item :
  groupTVEpisodes order searchee !! key = Some g →
  item ∈ group_items searchee (key, g) ↔
  (∃ f, f ∈ episodes_of key (sr_Files searchee) ∧ item = episode_item key f) ∨
  (whole_season key (sr_Files searchee) ∧ wi_tvGroup item = Some key ∧
   sr_Path (wi_searchee item) = sr_Path searchee ∧ sr_Files (wi_searchee item) = season_files key (sr_Files searchee) ∧
   sr_IsDisc (wi_searchee item) = false ∧ sr_Name (wi_searchee item) = tg_displayTitle g +++ " S" +++ two_digits (gk_season key)).
Proof.
  rewrite groupTVEpisodes_lookup. intros Hg. pose proof (groups_fold (sr_Files searchee)) as Hok.
  destruct (foldl group_step (∅, ∅) (sr_Files searchee)) as [gs seasons]. cbn [fst snd] in *.
  destruct (gs !! key) as [g0|] eqn:Eg; [|done]. injection Hg as <-.
  pose proof (finalized_mixed _ _ _ _ _ Hok Eg) as Hmix. pose proof Hok as [Hgs _]. specialize (Hgs key). rewrite Eg in Hgs.
  destruct Hgs as (Hne & Hse & Hef & Hpd & _ & Hdt).
  assert (filter (λ f, isInGroupDir (finalize_group order seasons g0) (sf_Path f) = true) (sr_Files searchee) = season_files key (sr_Files searchee)) as Hsf.
  { unfold season_files. apply filter_ext_in. intros f _. by rewrite (in_group_dir _ _ (sr_Files searchee) key). }
  assert (omap buildEpisodeSearchee (episodes_of key (sr_Files searchee)) =
    (λ f, wi_searchee (episode_item key f)) <$> episodes_of key (sr_Files searchee)) as Hom.
  { unfold episodes_of. clear. induction (sr_Files searchee) as [|f l IH]; [done|]. rewrite filter_cons. case_decide as Hk; [|exact IH].
    cbn [omap list_omap fmap list_fmap]. rewrite IH. unfold buildEpisodeSearchee.
    unfold tv_key in Hk. destruct (parseTVEpisodeKey f) as [[[k t] d]|] eqn:Ep; [|done].
    destruct (parse_dir _ _ _ _ Ep) as (_ & _ & _ & Hstem). by rewrite bool_decide_false. }
  unfold group_items. cbn [finalize_group tg_episodeFiles]. rewrite Hef.
  destruct (episodes_of key (sr_Files searchee)) as [|e0 eps] eqn:Eeps; [done|]. rewrite <- Eeps in *. clear Eeps e0 eps.
  rewrite list_elem_of_fmap. setoid_rewrite elem_of_app. rewrite Hom. split.
  - intros (s & -> & [Hs|(f & -> & Hf)%list_elem_of_fmap]).
    + right. apply elem_of_option_list in Hs. unfold buildSeasonSearchee in Hs. rewrite Hsf in Hs.
      destruct (tg_mixedSeasonDir _) eqn:Em; [done|]. cbn [finalize_group tg_season tg_episodeFiles tg_displayTitle] in Hs.
      rewrite Hse, Hef in Hs. destruct (Z.leb_spec (gk_season key) 0); [done|].
      destruct (Nat.ltb_spec (length (episodes_of key (sr_Files searchee))) 2); [done|]. rewrite bool_decide_false in Hs by done.
      destruct (season_files key (sr_Files searchee)) as [|x l] eqn:Es; [done|]. injection Hs as <-. cbn.
      split_and!; try done. unfold whole_season. rewrite Es. split_and!; [done|done|by apply Hmix|done].
    + left. exists f. by split.
  - intros [(f & Hf & ->)|((Hpos & Hlen & Hsingle & Hsfn) & Hkey & Hpath & Hfiles & Hdisc & Hname)].
    + exists (wi_searchee (episode_item key f)). split; [done|]. right. apply list_elem_of_fmap. by exists f.
    + exists (wi_searchee item). split; [destruct item; cbn in *; by subst|]. left. apply elem_of_option_list.
      unfold buildSeasonSearchee. rewrite (proj2 Hmix Hsingle). cbn [finalize_group tg_season tg_episodeFiles tg_displayTitle] in *.
      rewrite Hse, Hef. rewrite (proj2 (Z.leb_gt _ _)) by lia. rewrite (proj2 (Nat.ltb_ge _ _)) by lia.
      rewrite bool_decide_false by done. rewrite Hsf. destruct (season_files key (sr_Files searchee)) as [|x l] eqn:Es; [done|].
      f_equal. destruct item as [[n p fs d] k]. cbn in *. by subst.
Qed.

(** A searchee without episodes is one item.  Otherwise each episode is an
    item of its own, and each season of two episodes or more whose directories
    hold no other season is one item more, with what lies in these directories;
    there are no other items. *)
Theorem work_items_exact (searchee : Searchee) :
  let files := sr_Files searchee in
  let items := buildSearcheeWorkItems order groups searchee in
  ((∀ f, f ∈ files → tv_key f = None) → items = [MkItem searchee None]) ∧
  ((∃ f, f ∈ files ∧ tv_key f ≠ None) →
    (∀ f key, f ∈ files → tv_key f = Some key → episode_item key f ∈ items) ∧
    (∀ key, whole_season key files → ∃ item, item ∈ items ∧ wi_tvGroup item = Some key ∧
       sr_Files (wi_searchee item) = season_files key files) ∧
    (∀ item, item ∈ items → ∃ key, wi_tvGroup item = Some key ∧
       ((∃ f, f ∈ files ∧ tv_key f = Some key ∧ item = episode_item key f) ∨
        whole_season key files ∧ sr_Files (wi_searchee item) = season_files key files))).
Proof.
  cbv zeta. unfold buildSearcheeWorkItems.
  pose proof (groups_fold (sr_Files searchee)) as [Hgs _].
  assert (∀ key, is_Some (groupTVEpisodes order searchee !! key) ↔ episodes_of key (sr_Files searchee) ≠ []) as Hsome.
  { intros key. rewrite groupTVEpisodes_lookup. specialize (Hgs key). rewrite fmap_is_Some.
    destruct ((foldl group_step (∅, ∅) (sr_Files searchee)).1 !! key); [destruct Hgs as [Hn _]; split; [done|by eexists]|].
    split; [by intros [? ?]|done]. }
  assert (∀ f key, f ∈ sr_Files searchee → tv_key f = Some key → is_Some (groupTVEpisodes order searchee !! key)) as Hin.
  { intros f key Hf Hk. apply Hsome. intros E. assert (f ∈ episodes_of key (sr_Files searchee)) as Hfe by (apply list_elem_of_filter; done).
    rewrite E in Hfe. by apply elem_of_nil in Hfe. }
  assert (∀ item, item ∈ concat (group_items searchee <$> key_range groups (groupTVEpisodes order searchee)) ↔
    ∃ key g, groupTVEpisodes order searchee !! key = Some g ∧ item ∈ group_items searchee (key, g)) as Hconcat.
  { intros item. rewrite list_elem_of_In, in_concat. setoid_rewrite <- list_elem_of_In. setoid_rewrite list_elem_of_fmap. split.
    - intros (l & ([key g] & -> & Hkg%elem_of_key_range) & Hi). by exists key, g.
    - intros (key & g & Hkg & Hi). eexists. split; [|exact Hi]. exists (key, g). split; [done|by apply elem_of_key_range]. }
  split.
  - intros Hnone. rewrite bool_decide_true; [done|]. apply map_empty. intros key. apply eq_None_not_Some. rewrite Hsome. intros Hn. apply Hn.
    destruct (episodes_of key (sr_Files searchee)) as [|f l] eqn:E; [done|].
    assert (f ∈ episodes_of key (sr_Files searchee)) as [Hk Hf]%list_elem_of_filter by (rewrite E; by left).
    rewrite (Hnone f Hf) in Hk. done.
  - intros (f0 & Hf0 & Hk0). destruct (tv_key f0) as [k0|] eqn:Ek0; [|done].
    rewrite bool_decide_false by (intros E; destruct (Hin f0 k0 Hf0 Ek0) as [g Hg]; by rewrite E, lookup_empty in Hg).
    split_and!.
    + intros f key Hf Hk. apply Hconcat. destruct (Hin f key Hf Hk) as [g Hg]. exists key, g. split; [done|].
      apply group_items_spec; [done|]. left. exists f. split; [by apply list_elem_of_filter|done].
    + intros key Hw. pose proof Hw as (_ & Hlen & _).
      assert (is_Some (groupTVEpisodes order searchee !! key)) as [g Hg] by (apply Hsome; destruct (episodes_of key _); [cbn in Hlen; lia|done]).
      exists (MkItem (MkSearchee (tg_displayTitle g +++ " S" +++ two_digits (gk_season key)) (sr_Path searchee)
        (season_files key (sr_Files searchee)) false) (Some key)).
      split_and!; [|done|done]. apply Hconcat. exists key, g. split; [done|]. apply group_items_spec; [done|]. right. by split_and!.
    + intros item (key & g & Hg & Hi)%Hconcat. exists key. apply (group_items_spec _ _ _ _ Hg) in Hi as [(f & [Hk Hf]%list_elem_of_filter & ->)|(Hw & Hk & _ & Hfiles & _)].
      * split; [done|]. left. by exists f.
      * split; [done|]. by right.
Qed.

(** *** Selection *)

Definition root_work (tracked : trackedFilesIndex) (cutoff : option Z) (root : Searchee) : list searcheeWorkItem :=
  filter (λ i, item_eligible cutoff tracked i = true) (buildSearcheeWorkItems order groups root).

Lemma select_fold tracked cutoff searchees acc :
  let r := foldl (select_root order groups tracked cutoff) acc searchees in
  r.1.1 = acc.1.1 ++ omap (λ root, match root_work tracked cutoff root with [] => None | items => Some (MkRootWork root items) end) searchees ∧
  r.1.2 = acc.1.2 ∪ list_to_set (sf_Path <$> all_files searchees) ∧
  r.2 = acc.2 ∪ item_paths (concat (root_work tracked cutoff <$> searchees)).
Proof.
  cbv zeta. revert acc. induction searchees as [|root searchees IH]; intros [[roots d] e]; cbn [foldl omap list_omap fmap list_fmap concat fst snd].
  { rewrite app_nil_r. unfold item_paths, all_files. cbn. split_and!; [done|set_solver|set_solver]. }
  destruct (IH (select_root order groups tracked cutoff (roots, d, e) root)) as (-> & -> & ->).
  unfold select_root. fold (root_work tracked cutoff root). cbn [fst snd]. split_and!.
  - destruct (root_work tracked cutoff root); [done|]. by rewrite <- app_assoc.
  - unfold all_files. cbn [fmap list_fmap concat]. rewrite fmap_app, list_to_set_app_L. set_solver.
  - unfold item_paths. rewrite fmap_app, concat_app, list_to_set_app_L. set_solver.
Qed.

Lemma items_of_root root item : item ∈ buildSearcheeWorkItems order groups root →
  ∀ f, f ∈ sr_Files (wi_searchee item) → sf_Path f ∈ sf_Path <$> sr_Files root.
Proof.
  unfold buildSearcheeWorkItems. case_bool_decide as E.
  - intros ->%list_elem_of_singleton f Hf. by apply list_elem_of_fmap_2.
  - rewrite list_elem_of_In, in_concat. intros (l & Hl & Hi) f Hf. apply list_elem_of_In, list_elem_of_fmap in Hl as ([key g] & -> & Hkg%elem_of_key_range).
    apply list_elem_of_In in Hi. apply (group_items_spec _ _ _ _ Hkg) in Hi as [(e & [_ He]%list_elem_of_filter & ->)|(_ & _ & _ & Hfiles & _)].
    + cbn in Hf. apply list_elem_of_singleton in Hf as ->. cbn. by apply list_elem_of_fmap_2.
    + rewrite Hfiles in Hf. apply list_elem_of_filter in Hf as [_ Hf]. by apply list_elem_of_fmap_2.
Qed.

(** The work of a scan is, in the order of the scan, each searchee that has an
    item that is not stale and has a file without a final status, with these
    items; the counts are those of the paths that were found and that are to be
    searched, and what is skipped is the difference. *)
Theorem selection_exact (days_before : Z → Z → Z) (scan : ScanResult) (tracked : trackedFilesIndex) (maxSearcheeAgeDays now : Z) :
  let cutoff := if (0 <? maxSearcheeAgeDays)%Z then Some (days_before now maxSearcheeAgeDays) else None in
  let selection := selectEligibleRootWork order groups days_before scan tracked maxSearcheeAgeDays now in
  ∃ discovered eligible : gset string,
    sw_roots selection = omap (λ root, match root_work tracked cutoff root with [] => None | items => Some (MkRootWork root items) end) (sc_Searchees scan) ∧
    (∀ work item, work ∈ sw_roots selection → item ∈ rt_items work →
       workItemIsStale item cutoff = false ∧ ∃ f, f ∈ sr_Files (wi_searchee item) ∧ file_pending tracked f = true) ∧
    (∀ p, p ∈ discovered ↔ ∃ f, f ∈ all_files (sc_Searchees scan) ∧ sf_Path f = p) ∧
    (∀ p, p ∈ eligible ↔ ∃ work item f, work ∈ sw_roots selection ∧ item ∈ rt_items work ∧ f ∈ sr_Files (wi_searchee item) ∧ sf_Path f = p) ∧
    eligible ⊆ discovered ∧ sw_discoveredFiles selection = Z.of_nat (size discovered) ∧ sw_eligibleFiles selection = Z.of_nat (size eligible) ∧
    sw_skippedFiles selection = Z.of_nat (size (discovered ∖ eligible)).
Proof.
  cbv zeta. unfold selectEligibleRootWork. set (cutoff := if (0 <? maxSearcheeAgeDays)%Z then _ else None).
  destruct (select_fold tracked cutoff (sc_Searchees scan) ([], ∅, ∅)) as (Hr & Hd & He).
  destruct (foldl (select_root order groups tracked cutoff) ([], ∅, ∅) (sc_Searchees scan)) as [[roots d] e]. cbn [fst snd app] in *.
  exists d, e. cbn [sw_roots sw_discoveredFiles sw_eligibleFiles sw_skippedFiles].
  assert (∀ work item, work ∈ roots ∧ item ∈ rt_items work ↔ ∃ root, root ∈ sc_Searchees scan ∧ item ∈ root_work tracked cutoff root ∧
    work = MkRootWork root (root_work tracked cutoff root)) as Hwork.
  { intros work item. rewrite Hr, list_elem_of_omap. split.
    - intros [(root & Hroot & E) Hi]. exists root. destruct (root_work tracked cutoff root) eqn:Ew; [done|]. injection E as <-. done.
    - intros (root & Hroot & Hi & ->). split; [|done]. exists root. split; [done|].
      destruct (root_work tracked cutoff root); [by apply elem_of_nil in Hi|done]. }
  assert (∀ p, p ∈ d ↔ ∃ f, f ∈ all_files (sc_Searchees scan) ∧ sf_Path f = p) as Hdp.
  { intros p. rewrite Hd, elem_of_union, elem_of_list_to_set, list_elem_of_fmap. split; [intros [?|(f & -> & Hf)]; [set_solver|by exists f]|].
    intros (f & Hf & <-). right. by exists f. }
  assert (∀ p, p ∈ e ↔ ∃ root item f, root ∈ sc_Searchees scan ∧ item ∈ root_work tracked cutoff root ∧ f ∈ sr_Files (wi_searchee item) ∧ sf_Path f = p) as Hep.
  { intros p. rewrite He, elem_of_union. unfold item_paths. rewrite elem_of_list_to_set, list_elem_of_In, in_concat. split.
    - intros [?|(l & Hl & Hp)]; [set_solver|]. apply list_elem_of_In, list_elem_of_fmap in Hl as (item & -> & Hi).
      apply list_elem_of_In, in_concat in Hi as (items & Hits & Hi). apply list_elem_of_In, list_elem_of_fmap in Hits as (root & -> & Hroot).
      apply list_elem_of_In, list_elem_of_fmap in Hp as (f & -> & Hf). exists root, item, f. split_and!; [done|by apply list_elem_of_In|done|done].
    - intros (root & item & f & Hroot & Hi & Hf & <-). right. exists (sf_Path <$> sr_Files (wi_searchee item)).
      split; [|by apply list_elem_of_In, list_elem_of_fmap_2]. apply list_elem_of_In, list_elem_of_fmap. exists item. split; [done|].
      apply list_elem_of_In, in_concat. exists (root_work tracked cutoff root). split; [|by apply list_elem_of_In].
      by apply list_elem_of_In, list_elem_of_fmap_2. }
  assert (e ⊆ d) as Hsub.
  { intros p (root & item & f & Hroot & [_ Hi]%list_elem_of_filter & Hf & <-)%Hep. apply Hdp.
    apply (items_of_root root item Hi), list_elem_of_fmap in Hf as (g & Eg & Hg). exists g. split; [|done].
    apply elem_of_all_files. by exists root. }
  split_and!; [done| |done| |done|done|done|].
  - intros work item Hw Hi. destruct (proj1 (Hwork work item) (conj Hw Hi)) as (root & _ & [Hel _]%list_elem_of_filter & _).
    unfold item_eligible in Hel. apply andb_true_iff in Hel as [Hst%negb_true_iff Hp]. split; [done|].
    unfold workItemHasPendingFiles in Hp. apply existsb_exists in Hp as (f & Hf%list_elem_of_In & Hpf). by exists f.
  - intros p. rewrite Hep. split.
    + intros (root & item & f & Hroot & Hi & Hf & Ep). exists (MkRootWork root (root_work tracked cutoff root)), item, f.
      destruct (proj2 (Hwork (MkRootWork root (root_work tracked cutoff root)) item)) as [? ?]; [by exists root|]. done.
    + intros (work & item & f & Hw & Hi & Hf & Ep). destruct (proj1 (Hwork work item) (conj Hw Hi)) as (root & Hroot & Hi' & _).
      by exists root, item, f.
  - rewrite size_difference by done. pose proof (subseteq_size _ _ Hsub). lia.
Qed.
End items.

(** ** Runs *)

Section runs.
#[local] Existing Instance AsciiCase.
#[local] Existing Instance AsciiTables.

(** A parser that reads names like [s1e2]. *)
Definition parse_show (name : string) : Release :=
  match to_bytes name with
  | "s"%char :: a :: "e"%char :: b :: _ =>
    match digit_value a, digit_value b with
    | Some s, Some e =>
      MkParsed Episode "" "show" "" "" 0 0 0 s e "" "" "" [] [] "" [] [] [] [] [] "" "" "" "" "" "" ""
    | _, _ => empty_release
    end
  | _ => empty_release
  end.
#[local] Instance ShowParser : ReleaseParser := {| ParseString := parse_show; Parse := parse_show |}.

Definition on_disk (path : string) (time ino : Z) : ScannedFile := MkScanned path (Base path) 100 time (MkFileID 1 ino) 1 false.

(** A scan that finds a matched file under a new name, a file that changed, and
    a new one. *)
Definition one_scan : ScanResult :=
  MkScanResult [MkSearchee "show" "/m/show" [on_disk "/m/show/s1e1.mkv" 5 11; on_disk "/m/show/s1e2.mkv" 9 12; on_disk "/m/show/s1e3.mkv" 5 13] false] 3 300 0.
Definition old_rows : list DirScanFile :=
  [MkRow 1 "/m/old/s1e1.mkv" 100 5 (FileID_Bytes (MkFileID 1 11)) StatusMatched "hash" (Some 7%Z);
   MkRow 1 "/m/show/s1e2.mkv" 100 5 (FileID_Bytes (MkFileID 1 12)) StatusMatched "hash" (Some 7%Z)].

Lemma refresh_exact_witness :
  ∃ written tracked, refreshTrackedFilesFromScan (λ _, true) old_rows 1 one_scan ∅ = (written, Some tracked) ∧
    rw_Status <$> written = [StatusMatched; StatusPending; StatusPending] ∧
    rw_MatchedTorrentHash <$> written = ["hash"; ""; ""] ∧
    file_pending tracked (on_disk "/m/show/s1e3.mkv" 5 13) = true.
Proof.
  destruct (refresh_exact (λ _, true) old_rows 1 one_scan ∅) as (written & tracked & Hr & _ & Hrows);
    [lia|done|apply (bool_decide_unpack _); by vm_compute|apply (bool_decide_unpack _); by vm_compute|].
  exists written, tracked. split; [exact Hr|].
  assert (option_map (λ _, (rw_Status <$> (refreshTrackedFilesFromScan (λ _, true) old_rows 1 one_scan ∅).1,
    rw_MatchedTorrentHash <$> (refreshTrackedFilesFromScan (λ _, true) old_rows 1 one_scan ∅).1)) (Some tt) =
    Some ([StatusMatched; StatusPending; StatusPending], ["hash"; ""; ""])) as Hw by by vm_compute.
  rewrite Hr in Hw. cbn [fst option_map] in Hw. injection Hw as Hs Hh. split; [exact Hs|]. split; [exact Hh|].
  destruct (Hrows 2%nat (on_disk "/m/show/s1e3.mkv" 5 13) eq_refl) as (row & existing & Hrow & Htr & _).
  unfold file_pending. rewrite Htr. apply (f_equal (λ l, l !! 2%nat)) in Hs. rewrite list_lookup_fmap, Hrow in Hs. cbn in Hs.
  by injection Hs as ->.
Defined.

(** A file that is seeded, and was, counts as pending after its time changed. *)
Example seeded_but_changed :
  let e := MkRow 1 "/m/a.mkv" 100 5 "" StatusAlreadySeeding "" None in
  rs_Status (tracked_state (on_disk "/m/a.mkv" 9 0) (Some e) true) = StatusPending ∧
  rs_Status (tracked_state (on_disk "/m/a.mkv" 9 0) None true) = StatusAlreadySeeding.
Proof. by split. Qed.

(** Seasons in one directory are searched by episode only. *)
Example mixed_seasons :
  (λ i, sr_Name (wi_searchee i)) <$> buildSearcheeWorkItems key_order (list_order _)
    (MkSearchee "show" "/m" [on_disk "/m/s1e1.mkv" 0 1; on_disk "/m/s1e2.mkv" 0 2] false) = ["show S01"; "s1e1"; "s1e2"] ∧
  length (buildSearcheeWorkItems key_order (list_order _)
    (MkSearchee "show" "/m" [on_disk "/m/s1e1.mkv" 0 1; on_disk "/m/s1e2.mkv" 0 2; on_disk "/m/s2e1.mkv" 0 3] false)) = 3.
Proof. split; by vm_compute. Qed.

(** A season whose episodes lie above the folder of another season takes the
    other one's files along. *)
Example season_takes_subfolders :
  (λ i, length (sr_Files (wi_searchee i))) <$> filter (λ i, sr_Name (wi_searchee i) = "show S01") (buildSearcheeWorkItems key_order (list_order _)
    (MkSearchee "show" "/m" [on_disk "/m/s1e1.mkv" 0 1; on_disk "/m/s1e2.mkv" 0 2; on_disk "/m/two/s2e1.mkv" 0 3] false)) = [3].
Proof. by vm_compute. Qed.
End runs.
