(* ===== verification/DirProcess.v ===== *)
(** * [internal/services/dirscan/service.go]: the search for a searchee

    The items of a searchee are searched one after the other, and what came of it
    is written for each of its files: [processRootSearchee] with
    [finalizeRootSearcheeFileStatuses], and the choice of results by indexer.
    The search of one item is a parameter, as it asks indexers and the client. *)

From Stdlib Require Import ZArith Lia Ascii.
From stdpp Require Import base numbers list strings gmap sorting.
From S2P Require Import Prelude.
From S2P Require Import GoStrings.
From S2P Require Import UnicodeText.
From S2P Require Import CrossRelease.
From S2P Require Import DirScanner.
From S2P Require Import DirMatch.
From S2P Require Import DirAccept.
From S2P Require Import DirWork.

Open Scope qui_scope.

(** ** Data *)

Record searcheeMatch := MkSearcheeMatch {
  sx_parsedTorrent : option ParsedTorrent; sx_matchResult : option DirMatchResult; sx_searchResult : option SearchResult;
  sx_injected : bool; sx_inQBittorrent : bool; sx_injectionFailed : bool }.

Record searcheeOutcome := MkOutcome { searched : bool; searchError : bool }.

Record dirScanFileUpdate := MkUpdate { up_status : DirScanFileStatus; up_matchedTorrentHash : string; up_matchedIndexerID : option Z }.

Definition plain_update (status : DirScanFileStatus) : dirScanFileUpdate := MkUpdate status "" None.

(** ** Results by indexer *)

Record tryMatchResultsStats := MkStats {
  skippedTooSmall : Z; skippedTooLarge : Z; skippedExists : Z; skippedIndexerSatisfied : Z; attemptedMatches : Z }.

Definition no_stats : tryMatchResultsStats := MkStats 0 0 0 0 0.

Section indexers.
(** Whether a result is known to the client, and what an attempt gives. *)
Context (shouldSkipExists : SearchResult → bool) (attempt : SearchResult → option searcheeMatch).

Record try_state := MkTry { tr_matches : list searcheeMatch; tr_satisfied : gset Z; tr_stats : tryMatchResultsStats }.

Definition try_result (minSize maxSize : Z) (st : try_state) (result : SearchResult) : try_state :=
  let s := tr_stats st in
  if (0 <? se_IndexerID result)%Z && bool_decide (se_IndexerID result ∈ tr_satisfied st) then
    MkTry (tr_matches st) (tr_satisfied st)
      (MkStats (skippedTooSmall s) (skippedTooLarge s) (skippedExists s) (skippedIndexerSatisfied s + 1) (attemptedMatches s))
  else if (0 <? minSize)%Z && (se_Size result <? minSize)%Z then
    MkTry (tr_matches st) (tr_satisfied st)
      (MkStats (skippedTooSmall s + 1) (skippedTooLarge s) (skippedExists s) (skippedIndexerSatisfied s) (attemptedMatches s))
  else if (0 <? maxSize)%Z && (maxSize <? se_Size result)%Z then
    MkTry (tr_matches st) (tr_satisfied st)
      (MkStats (skippedTooSmall s) (skippedTooLarge s + 1) (skippedExists s) (skippedIndexerSatisfied s) (attemptedMatches s))
  else if shouldSkipExists result then
    MkTry (tr_matches st) (tr_satisfied st)
      (MkStats (skippedTooSmall s) (skippedTooLarge s) (skippedExists s + 1) (skippedIndexerSatisfied s) (attemptedMatches s))
  else
    let s := MkStats (skippedTooSmall s) (skippedTooLarge s) (skippedExists s) (skippedIndexerSatisfied s) (attemptedMatches s + 1) in
    match attempt result with
    | None => MkTry (tr_matches st) (tr_satisfied st) s
    | Some m =>
      MkTry (tr_matches st ++ [m])
        (if (0 <? se_IndexerID result)%Z && negb (sx_injectionFailed m) then {[se_IndexerID result]} ∪ tr_satisfied st else tr_satisfied st) s
    end.

Definition tryMatchResultsPerIndexer (results : list SearchResult) (minSize maxSize : Z) : list searcheeMatch * tryMatchResultsStats :=
  let st := foldl (try_result minSize maxSize) (MkTry [] ∅ no_stats) results in (tr_matches st, tr_stats st).
End indexers.

(** ** The loop over the items *)

Definition shouldSkipWorkItemTVGroup (item : searcheeWorkItem) (injectedTVGroups : gset tvGroupKey) : bool :=
  match wi_tvGroup item with Some key => bool_decide (key ∈ injectedTVGroups) | None => false end.

Definition markTVGroupInjected (injectedTVGroups : gset tvGroupKey) (key : option tvGroupKey) : gset tvGroupKey :=
  match key with Some key => {[key]} ∪ injectedTVGroups | None => injectedTVGroups end.

Definition isAlreadySeedingByFileID (searchee : Searchee) (index : gmap string string) : bool :=
  if bool_decide (sr_Files searchee = []) || bool_decide (index = ∅) then false
  else forallb (λ f, negb (FileID_IsZero (sf_FileID f)) && bool_decide (is_Some (index !! FileID_Bytes (sf_FileID f)))) (sr_Files searchee).

(** The variables of the loop. *)
Record root_state := MkRootState {
  ro_updates : gmap string dirScanFileUpdate; ro_attempted : gset string; ro_searchSuccess : bool; ro_searchError : bool;
  ro_processingError : bool; ro_acceptedMatch : bool; ro_injected : gset tvGroupKey; ro_matchesFound : Z; ro_torrentsAdded : Z }.

Section process.
Context (tracked : trackedFilesIndex) (fileIDIndex : gmap string string).
(** The search of the item with that number, and whether the scan is cancelled
    before it. *)
Context (processSearchee : nat → Searchee → list searcheeMatch * searcheeOutcome) (canceled : nat → bool).

Definition isFinalInDB (path : string) : bool :=
  match byPath tracked !! path with Some row => isFinalFileStatus (rw_Status row) | None => false end.

(** A match that was found for the file before stays. *)
Definition keeps_match (u : option dirScanFileUpdate) : bool :=
  match u with Some u => bool_decide (up_status u = StatusMatched ∨ up_status u = StatusInQBittorrent) | None => false end.

Definition note_file (status : DirScanFileStatus) (updates : gmap string dirScanFileUpdate) (f : ScannedFile) : gmap string dirScanFileUpdate :=
  if isFinalInDB (sf_Path f) then updates
  else if keeps_match (updates !! sf_Path f) then updates
  else <[sf_Path f := plain_update status]> updates.

Definition note_files (status : DirScanFileStatus) (files : list ScannedFile) (updates : gmap string dirScanFileUpdate) :=
  foldl (note_file status) updates files.

(** The match that stands for the item: the first, but for the first injected, or
    else known, one. *)
Definition better_match (primary : option searcheeMatch) (m : searcheeMatch) : option searcheeMatch :=
  match primary with
  | None => Some m
  | Some p =>
    if negb (sx_injected p) && sx_injected m then Some m
    else if negb (sx_injected p) && negb (sx_inQBittorrent p) && sx_inQBittorrent m then Some m
    else Some p
  end.

Definition count_if {A} (f : A → bool) (l : list A) : Z := Z.of_nat (length (List.filter f l)).

Definition update_matched (status : DirScanFileStatus) (primary : searcheeMatch) (updates : gmap string dirScanFileUpdate)
    : gmap string dirScanFileUpdate :=
  match sx_matchResult primary with
  | None => updates
  | Some r =>
    let hash := match sx_parsedTorrent primary with Some p => pt_InfoHash p | None => "" end in
    let indexer := match sx_searchResult primary with
                   | Some s => if (0 <? se_IndexerID s)%Z then Some (se_IndexerID s) else None | None => None end in
    foldl (λ u p, <[sf_Path p.1 := MkUpdate status hash indexer]> u) updates (mr_MatchedFiles r)
  end.

(** One item, after its search. *)
Definition after_search (item : searcheeWorkItem) (matches : list searcheeMatch) (outcome : searcheeOutcome) (st : root_state) : root_state :=
  let files := sr_Files (wi_searchee item) in
  let attempted := if searched outcome || searchError outcome then list_to_set (sf_Path <$> files) ∪ ro_attempted st else ro_attempted st in
  let success := ro_searchSuccess st || searched outcome in
  let error := ro_searchError st || searchError outcome in
  let perror := ro_processingError st || searchError outcome in
  let updates := if searchError outcome then note_files StatusError files (ro_updates st) else ro_updates st in
  match matches with
  | [] => MkRootState updates attempted success error perror (ro_acceptedMatch st) (ro_injected st) (ro_matchesFound st) (ro_torrentsAdded st)
  | _ =>
    let found := (ro_matchesFound st + Z.of_nat (length matches))%Z in
    let added := (ro_torrentsAdded st + count_if sx_injected matches)%Z in
    let anyInjected := existsb sx_injected matches in
    let anyNonFailed := existsb (λ m, negb (sx_injectionFailed m)) matches in
    let injected := if anyInjected then markTVGroupInjected (ro_injected st) (wi_tvGroup item) else ro_injected st in
    match (if anyNonFailed then foldl better_match None matches else None) with
    | None =>
      MkRootState (note_files StatusError files updates) attempted success error true (ro_acceptedMatch st) injected found added
    | Some primary =>
      let status := if negb anyInjected && sx_inQBittorrent primary then StatusInQBittorrent else StatusMatched in
      MkRootState (update_matched status primary updates) attempted success error perror true injected found added
    end
  end.

Definition set_updates (updates : gmap string dirScanFileUpdate) (st : root_state) : root_state :=
  MkRootState updates (ro_attempted st) (ro_searchSuccess st) (ro_searchError st) (ro_processingError st) (ro_acceptedMatch st)
    (ro_injected st) (ro_matchesFound st) (ro_torrentsAdded st).
Definition set_processingError (st : root_state) : root_state :=
  MkRootState (ro_updates st) (ro_attempted st) (ro_searchSuccess st) (ro_searchError st) true (ro_acceptedMatch st)
    (ro_injected st) (ro_matchesFound st) (ro_torrentsAdded st).

Fixpoint process_items (n : nat) (items : list searcheeWorkItem) (st : root_state) : root_state :=
  match items with
  | [] => st
  | item :: items =>
    if canceled n then set_processingError st
    else if shouldSkipWorkItemTVGroup item (ro_injected st) then process_items (S n) items st
    else if isAlreadySeedingByFileID (wi_searchee item) fileIDIndex then
      process_items (S n) items (set_updates (note_files StatusAlreadySeeding (sr_Files (wi_searchee item)) (ro_updates st)) st)
    else
      let '(matches, outcome) := processSearchee n (wi_searchee item) in
      process_items (S n) items (after_search item matches outcome st)
  end.

(** ** What is written *)

Definition write_row (directoryID : Z) (f : ScannedFile) (u : dirScanFileUpdate) : DirScanFile :=
  MkRow directoryID (sf_Path f) (sf_Size f) (sf_ModTime f) (file_id_bytes f) (up_status u) (up_matchedTorrentHash u) (up_matchedIndexerID u).

Section finalize.
Context `{!UnicodeCase}.

(** The update a file of the searchee gets, if any. *)
Definition final_update (st : root_state) (f : ScannedFile) : option dirScanFileUpdate :=
  let markAllError := negb (ro_acceptedMatch st) && ro_searchError st && negb (ro_searchSuccess st) in
  let markRemainingNoMatch := negb (ro_processingError st) && (ro_acceptedMatch st || ro_searchSuccess st) in
  let attempted := bool_decide (sf_Path f ∈ ro_attempted st) in
  let isFinal := isFinalInDB (sf_Path f) in
  match ro_updates st !! sf_Path f with
  | Some u =>
    if isFinal && bool_decide (up_status u = StatusAlreadySeeding ∨ up_status u = StatusError) then None else Some u
  | None =>
    if markAllError then (if isFinal || negb attempted then None else Some (plain_update StatusError))
    else if markRemainingNoMatch then
      (if isFinal || (negb attempted && isVideoPath (sf_Path f)) then None else Some (plain_update StatusNoMatch))
    else None
  end.

(** The rows written, in the order of the files; an error of the store ends it. *)
Fixpoint write_statuses (store_ok : DirScanFile → bool) (directoryID : Z) (st : root_state) (files : list ScannedFile)
    : list DirScanFile * bool :=
  match files with
  | [] => ([], true)
  | f :: files =>
    match final_update st f with
    | None => write_statuses store_ok directoryID st files
    | Some u =>
      let row := write_row directoryID f u in
      if store_ok row then
        let '(rows, ok) := write_statuses store_ok directoryID st files in (row :: rows, ok)
      else ([], false)
    end
  end.

Definition finalizeRootSearcheeFileStatuses (store_ok : DirScanFile → bool) (directoryID : Z) (st : root_state) (files : list ScannedFile)
    : list DirScanFile * bool :=
  if (directoryID <=? 0)%Z then ([], true) else write_statuses store_ok directoryID st files.

Definition start_root (injected : gset tvGroupKey) (matchesFound torrentsAdded : Z) : root_state :=
  MkRootState ∅ ∅ false false false false injected matchesFound torrentsAdded.

(** A root that is seeded as a whole is not searched. *)
Definition seeding_root (searchee : Searchee) : gmap string dirScanFileUpdate :=
  foldl (λ u f, if isFinalInDB (sf_Path f) then u else <[sf_Path f := plain_update StatusAlreadySeeding]> u) ∅ (sr_Files searchee).

Definition processRootSearchee (store_ok : DirScanFile → bool) (directoryID : Z) (searchee : Searchee) (workItems : list searcheeWorkItem)
    (injected : gset tvGroupKey) (matchesFound torrentsAdded : Z) : list DirScanFile * root_state :=
  let st :=
    if isAlreadySeedingByFileID searchee fileIDIndex
    then set_updates (seeding_root searchee) (start_root injected matchesFound torrentsAdded)
    else process_items 0 workItems (start_root injected matchesFound torrentsAdded) in
  ((finalizeRootSearcheeFileStatuses store_ok directoryID st (sr_Files searchee)).1, st).
End finalize.
End process.

(** ** The phase over the roots *)

Section phase.
Context `{!UnicodeCase}.
Context (tracked : trackedFilesIndex) (fileIDIndex : gmap string string).
(** The searches and cancellations by root and item, and before a root. *)
Context (processSearchee : nat → nat → Searchee → list searcheeMatch * searcheeOutcome) (canceled : nat → nat → bool)
  (stopped : nat → bool).

Fixpoint process_roots (store_ok : DirScanFile → bool) (directoryID : Z) (k : nat) (roots : list rootWorkSelection)
    (injected : gset tvGroupKey) (matchesFound torrentsAdded : Z) : list (list DirScanFile) * (Z * Z) :=
  match roots with
  | [] => ([], (matchesFound, torrentsAdded))
  | selected :: roots =>
    if stopped k then ([], (matchesFound, torrentsAdded)) else
    let '(rows, st) := processRootSearchee tracked fileIDIndex (processSearchee k) (canceled k) store_ok directoryID
                         (rt_root selected) (rt_items selected) injected matchesFound torrentsAdded in
    let '(rest, counts) := process_roots store_ok directoryID (S k) roots (ro_injected st) (ro_matchesFound st) (ro_torrentsAdded st) in
    (rows :: rest, counts)
  end.

(** The roots in the order of their paths, and at most so many of them. *)
Definition processed_roots (maxPerRun : Z) (roots : list rootWorkSelection) : list rootWorkSelection :=
  let sorted := sort_by (λ r, sr_Path (rt_root r)) roots in
  if (0 <? maxPerRun)%Z && (maxPerRun <? Z.of_nat (length sorted))%Z then take (Z.to_nat maxPerRun) sorted else sorted.

Definition runSearchAndInjectPhase (store_ok : DirScanFile → bool) (directoryID maxPerRun : Z) (selection : scanWorkSelection)
    : list (list DirScanFile) * (Z * Z) :=
  process_roots store_ok directoryID 0 (processed_roots maxPerRun (sw_roots selection)) ∅ 0 0.
End phase.

(** ** One success per indexer *)

Section indexers.
Context (shouldSkipExists : SearchResult → bool) (attempt : SearchResult → option searcheeMatch).

(** A result in the range of sizes that is not there yet, and what came of it. *)
Definition tried_ok (minSize maxSize : Z) (rm : SearchResult * searcheeMatch) : Prop :=
  attempt rm.1 = Some rm.2 ∧ shouldSkipExists rm.1 = false ∧
  (minSize ≤ 0 ∨ minSize ≤ se_Size rm.1)%Z ∧ (maxSize ≤ 0 ∨ se_Size rm.1 ≤ maxSize)%Z.

(** No result follows a success of the same indexer. *)
Definition once_per_indexer (chosen : list (SearchResult * searcheeMatch)) : Prop :=
  ∀ l1 l2 a b, chosen = l1 ++ a :: l2 → b ∈ l2 → (0 < se_IndexerID a.1)%Z → se_IndexerID a.1 = se_IndexerID b.1 →
    sx_injectionFailed a.2 = true.

Definition stats_sum (s : tryMatchResultsStats) : Z :=
  skippedTooSmall s + skippedTooLarge s + skippedExists s + skippedIndexerSatisfied s + attemptedMatches s.

Lemma once_snoc chosen r m :
  once_per_indexer chosen →
  (∀ a, a ∈ chosen → (0 < se_IndexerID a.1)%Z → se_IndexerID a.1 = se_IndexerID r → sx_injectionFailed a.2 = true) →
  once_per_indexer (chosen ++ [(r, m)]).
Proof.
  intros Ho Hr l1 l2 a b E Hb Hpos Hid. destruct l2 as [|c l2 _] using rev_ind; [by apply elem_of_nil in Hb|].
  rewrite app_comm_cons, app_assoc in E. apply app_inj_tail in E as [E <-].
  apply elem_of_app in Hb as [Hb|Hb%list_elem_of_singleton]; [by apply (Ho l1 l2 a b)|]. subst b.
  apply Hr; [rewrite E; set_solver|done|done].
Qed.

(** The results are gone through in order: each one is counted once, only
    results in the range of sizes that are not there yet are tried, and after a
    success no other result of the same indexer is. *)
Theorem indexers_satisfied_once (results : list SearchResult) (minSize maxSize : Z) :
  let '(matches, stats) := tryMatchResultsPerIndexer shouldSkipExists attempt results minSize maxSize in
  stats_sum stats = Z.of_nat (length results) ∧
  ∃ chosen, matches = chosen.*2 ∧ chosen.*1 `sublist_of` results ∧ Forall (tried_ok minSize maxSize) chosen ∧ once_per_indexer chosen ∧
    ∀ r, r ∈ results → r ∉ chosen.*1 → attempt r = None ∨ shouldSkipExists r = true ∨
      ((0 < minSize)%Z ∧ (se_Size r < minSize)%Z) ∨ ((0 < maxSize)%Z ∧ (maxSize < se_Size r)%Z) ∨
      ∃ a, a ∈ chosen ∧ (0 < se_IndexerID r)%Z ∧ se_IndexerID a.1 = se_IndexerID r ∧ sx_injectionFailed a.2 = false.
Proof.
  unfold tryMatchResultsPerIndexer.
  set (st0 := foldl _ _ results).
  assert (stats_sum (tr_stats st0) = Z.of_nat (length results) ∧
    ∃ chosen, tr_matches st0 = chosen.*2 ∧ chosen.*1 `sublist_of` results ∧ Forall (tried_ok minSize maxSize) chosen ∧ once_per_indexer chosen ∧
    (∀ id, id ∈ tr_satisfied st0 ↔ (0 < id)%Z ∧ ∃ a, a ∈ chosen ∧ se_IndexerID a.1 = id ∧ sx_injectionFailed a.2 = false) ∧
    ∀ r, r ∈ results → r ∉ chosen.*1 → attempt r = None ∨ shouldSkipExists r = true ∨
      ((0 < minSize)%Z ∧ (se_Size r < minSize)%Z) ∨ ((0 < maxSize)%Z ∧ (maxSize < se_Size r)%Z) ∨
      ∃ a, a ∈ chosen ∧ (0 < se_IndexerID r)%Z ∧ se_IndexerID a.1 = se_IndexerID r ∧ sx_injectionFailed a.2 = false) as Hinv.
  2:{ destruct Hinv as (? & chosen & ? & ? & ? & ? & _ & ?). split; [done|]. by exists chosen. }
  unfold st0. clear st0. induction results as [|r results IH] using rev_ind.
  { cbn. split; [done|]. exists []. cbn. split_and!; [done|done|constructor| | |].
    - intros l1 l2 a b E. by destruct l1.
    - intros id. split; [set_solver|]. by intros (_ & a & ?%elem_of_nil & _).
    - by intros r ?%elem_of_nil. }
  rewrite foldl_snoc, length_app. cbn [length]. set (st := foldl _ _ results) in *.
  destruct IH as (Hsum & chosen & Hm & Hsub & Hok & Honce & Hsat & Hrest). unfold stats_sum in *.
  assert (∀ chosen', (∀ x, x ∈ chosen → x ∈ chosen') → ∀ r', r' ∈ results → r' ∉ chosen'.*1 →
    attempt r' = None ∨ shouldSkipExists r' = true ∨ ((0 < minSize)%Z ∧ (se_Size r' < minSize)%Z) ∨ ((0 < maxSize)%Z ∧ (maxSize < se_Size r')%Z) ∨
      ∃ a, a ∈ chosen' ∧ (0 < se_IndexerID r')%Z ∧ se_IndexerID a.1 = se_IndexerID r' ∧ sx_injectionFailed a.2 = false) as Hold.
  { intros chosen' Hc r' Hr' Hn. destruct (Hrest r' Hr') as [?|[?|[?|[?|(a & ? & ? & ?)]]]]; try tauto.
    - intros (x & -> & Hx)%list_elem_of_fmap. apply Hn, list_elem_of_fmap_2, Hc, Hx.
    - do 4 right. exists a. split; [by apply Hc|done]. }
  assert (∀ P : Prop, P → (∀ r', r' = r → P)) as Hnew by tauto.
  unfold try_result. destruct ((0 <? se_IndexerID r)%Z && bool_decide (se_IndexerID r ∈ tr_satisfied st)) eqn:Es.
  { apply andb_true_iff in Es as [Hpos%Z.ltb_lt Hin%bool_decide_eq_true]. cbn. split; [lia|]. exists chosen.
    split_and!; [done|by apply sublist_inserts_r|done|done|done|]. intros r' [Hr'| ->%list_elem_of_singleton]%elem_of_app Hn; [by apply Hold|].
    apply Hsat in Hin as (_ & a & ? & ? & ?). do 4 right. by exists a. }
  destruct ((0 <? minSize) && (se_Size r <? minSize))%Z eqn:Emin.
  { cbn. split; [lia|]. exists chosen. split_and!; [done|by apply sublist_inserts_r|done|done|done|].
    intros r' [Hr'| ->%list_elem_of_singleton]%elem_of_app Hn; [by apply Hold|]. do 2 right. left. lia. }
  destruct ((0 <? maxSize) && (maxSize <? se_Size r))%Z eqn:Emax.
  { cbn. split; [lia|]. exists chosen. split_and!; [done|by apply sublist_inserts_r|done|done|done|].
    intros r' [Hr'| ->%list_elem_of_singleton]%elem_of_app Hn; [by apply Hold|]. do 3 right. left. lia. }
  destruct (shouldSkipExists r) eqn:Ex.
  { cbn. split; [lia|]. exists chosen. split_and!; [done|by apply sublist_inserts_r|done|done|done|].
    intros r' [Hr'| ->%list_elem_of_singleton]%elem_of_app Hn; [by apply Hold|]. tauto. }
  destruct (attempt r) as [m|] eqn:Ea.
  2:{ cbn. split; [lia|]. exists chosen. split_and!; [done|by apply sublist_inserts_r|done|done|done|].
    intros r' [Hr'| ->%list_elem_of_singleton]%elem_of_app Hn; [by apply Hold|]. tauto. }
  cbn. split; [lia|]. exists (chosen ++ [(r, m)]). rewrite !fmap_app, Hm. cbn [fmap list_fmap fst snd].
  split_and!; [done|by apply sublist_app| | | |].
  - apply Forall_app. split; [done|]. apply Forall_singleton. split_and!; cbn; [done|done|lia|lia].
  - apply once_snoc; [done|]. intros a Ha Hpos Hid. apply not_false_iff_true. intros Hf.
    apply not_true_iff_false in Es. apply Es, andb_true_iff. split; [apply Z.ltb_lt; lia|].
    apply bool_decide_eq_true, Hsat. rewrite <- Hid. split; [done|]. by exists a.
  - intros id. setoid_rewrite elem_of_app. setoid_rewrite list_elem_of_singleton.
    destruct ((0 <? se_IndexerID r)%Z && negb (sx_injectionFailed m)) eqn:Ef.
    + apply andb_true_iff in Ef as [Hpos%Z.ltb_lt Hf%negb_true_iff]. rewrite elem_of_union, elem_of_singleton, Hsat. split.
      * intros [->|(? & a & ? & ?)]; [split; [done|]; exists (r, m); split; [by right|done]|]. split; [done|]. exists a. split; [by left|done].
      * intros (? & a & [?| ->] & <- & ?); [right; split; [done|]; by exists a|by left].
    + rewrite Hsat. split.
      * intros (? & a & ? & ?). split; [done|]. exists a. split; [by left|done].
      * intros (Hpos & a & [?| ->] & <- & Hf); [split; [done|]; by exists a|]. cbn in *.
        rewrite Hf, (proj2 (Z.ltb_lt _ _) Hpos) in Ef. done.
  - intros r' [Hr'| ->%list_elem_of_singleton]%elem_of_app Hn.
    + apply (Hold (chosen ++ [(r, m)])); [set_solver|done|by rewrite fmap_app].
    + exfalso. apply Hn, elem_of_app. right. by left.
Qed.
End indexers.

(** ** What the files of a searchee are marked as *)

Section marks.
Context `{!UnicodeCase}.
Context (tracked : trackedFilesIndex) (fileIDIndex : gmap string string).
Context (processSearchee : nat → Searchee → list searcheeMatch * searcheeOutcome) (canceled : nat → bool).

(** The searches that are made: by number and item, given the groups injected. *)
Fixpoint searches (n : nat) (items : list searcheeWorkItem) (injected : gset tvGroupKey) : list (nat * searcheeWorkItem) :=
  match items with
  | [] => []
  | item :: items =>
    if canceled n then []
    else if shouldSkipWorkItemTVGroup item injected then searches (S n) items injected
    else if isAlreadySeedingByFileID (wi_searchee item) fileIDIndex then searches (S n) items injected
    else
      let matches := (processSearchee n (wi_searchee item)).1 in
      (n, item) :: searches (S n) items (if existsb sx_injected matches then markTVGroupInjected injected (wi_tvGroup item) else injected)
  end.

Definition matches_of (s : nat * searcheeWorkItem) : list searcheeMatch := (processSearchee s.1 (wi_searchee s.2)).1.
Definition outcome_of (s : nat * searcheeWorkItem) : searcheeOutcome := (processSearchee s.1 (wi_searchee s.2)).2.

(** A search went wrong, or found matches of which none could be used. *)
Definition search_failed (s : nat * searcheeWorkItem) : bool :=
  searchError (outcome_of s) ||
  match matches_of s with [] => false | ms => forallb sx_injectionFailed ms end.

(** A match of a search that was not in vain covers the file. *)
Definition covered_by (s : nat * searcheeWorkItem) (path : string) : Prop :=
  ∃ m r pair, m ∈ matches_of s ∧ sx_matchResult m = Some r ∧ pair ∈ mr_MatchedFiles r ∧ sf_Path pair.1 = path ∧
    ∃ m', m' ∈ matches_of s ∧ sx_injectionFailed m' = false.

(** The searchees whose items are gone through. *)
Context (searchees : list Searchee).

Definition seeded (path : string) : Prop :=
  ∃ sr, sr ∈ searchees ∧ isAlreadySeedingByFileID sr fileIDIndex = true ∧ path ∈ sf_Path <$> sr_Files sr.

Definition failed_for (done_ : list (nat * searcheeWorkItem)) (path : string) : Prop :=
  ∃ s, s ∈ done_ ∧ search_failed s = true ∧ path ∈ sf_Path <$> sr_Files (wi_searchee s.2).

(** What the updates of the loop may say of a path, after these searches. *)
Definition update_ok (done_ : list (nat * searcheeWorkItem)) (path : string) (u : dirScanFileUpdate) : Prop :=
  u = plain_update StatusAlreadySeeding ∧ isFinalInDB tracked path = false ∧ seeded path ∨
  u = plain_update StatusError ∧ isFinalInDB tracked path = false ∧ failed_for done_ path ∨
  (up_status u = StatusMatched ∨ up_status u = StatusInQBittorrent) ∧ ∃ s, s ∈ done_ ∧ covered_by s path.

Definition updates_ok (done_ : list (nat * searcheeWorkItem)) (updates : gmap string dirScanFileUpdate) : Prop :=
  map_Forall (update_ok done_) updates.

Lemma updates_ok_mono d d' updates : (∀ s, s ∈ d → s ∈ d') → updates_ok d updates → updates_ok d' updates.
Proof.
  intros Hd Hu p u Hp. destruct (Hu p u Hp) as [?|[(? & ? & s & ? & ?)|(? & s & ? & ?)]]; [by left| |].
  - right. left. split_and!; [done|done|]. exists s. split; [by apply Hd|done].
  - do 2 right. split; [done|]. exists s. split; [by apply Hd|done].
Qed.

Lemma note_files_ok d status files updates :
  (∀ f, f ∈ files → isFinalInDB tracked (sf_Path f) = false → update_ok d (sf_Path f) (plain_update status)) →
  updates_ok d updates → updates_ok d (note_files tracked status files updates).
Proof.
  unfold note_files. revert updates. induction files as [|f files IH]; intros updates Hs Hu; [done|]. cbn [foldl].
  apply IH; [intros; apply Hs; [by right|done]|]. unfold note_file. destruct (isFinalInDB tracked (sf_Path f)) eqn:Ef; [done|].
  destruct (keeps_match _); [done|]. apply map_Forall_insert_2; [|done]. apply Hs; [by left|done].
Qed.

Lemma note_seeding_ok d sr updates :
  sr ∈ searchees → isAlreadySeedingByFileID sr fileIDIndex = true → updates_ok d updates →
  updates_ok d (note_files tracked StatusAlreadySeeding (sr_Files sr) updates).
Proof.
  intros Hsr Hseed. apply note_files_ok. intros f Hf Hfin. left. split_and!; [done|done|]. exists sr. split_and!; [done|done|].
  by apply list_elem_of_fmap_2.
Qed.

Lemma note_errors_ok d s updates :
  s ∈ d → search_failed s = true → updates_ok d updates →
  updates_ok d (note_files tracked StatusError (sr_Files (wi_searchee s.2)) updates).
Proof.
  intros Hs Hfail. apply note_files_ok. intros f Hf Hfin. right. left. split_and!; [done|done|]. exists s. split_and!; [done|done|].
  by apply list_elem_of_fmap_2.
Qed.

Lemma better_match_elem matches init p : foldl better_match init matches = Some p → init = Some p ∨ p ∈ matches.
Proof.
  revert init. induction matches as [|m matches IH]; intros init; cbn [foldl]; [by left|].
  intros [E|?]%IH; [|right; by right]. unfold better_match in E. destruct init as [q|]; [|injection E as ->; right; by left].
  repeat case_match; injection E as ->; auto; right; by left.
Qed.

Lemma better_match_some matches m : ∃ p, foldl better_match None (m :: matches) = Some p.
Proof.
  cbn [foldl better_match]. generalize m. induction matches as [|m' matches IH]; intros q; [by exists q|]. cbn [foldl].
  unfold better_match at 2. repeat case_match; apply IH.
Qed.

Lemma update_matched_ok d s status primary updates :
  (status = StatusMatched ∨ status = StatusInQBittorrent) → s ∈ d → primary ∈ matches_of s →
  (∃ m', m' ∈ matches_of s ∧ sx_injectionFailed m' = false) →
  updates_ok d updates → updates_ok d (update_matched status primary updates).
Proof.
  intros Hst Hs Hp Hnf. unfold update_matched. destruct (sx_matchResult primary) as [r|] eqn:Er; [|done].
  assert (∀ pair, pair ∈ mr_MatchedFiles r → covered_by s (sf_Path pair.1)) as Hcov.
  { intros pair Hpair. exists primary, r, pair. by split_and!. }
  revert updates. induction (mr_MatchedFiles r) as [|pair l IH]; intros updates Hu; [done|]. cbn [foldl].
  apply IH; [intros; apply Hcov; by right|]. apply map_Forall_insert_2; [|done]. do 2 right. split; [done|].
  exists s. split; [done|]. apply Hcov. by left.
Qed.

Definition search_step (n : nat) (item : searcheeWorkItem) (st : root_state) : root_state :=
  after_search tracked item (matches_of (n, item)) (outcome_of (n, item)) st.

Lemma search_step_spec n item st d :
  updates_ok d (ro_updates st) →
  let st' := search_step n item st in
  updates_ok (d ++ [(n, item)]) (ro_updates st') ∧
  ro_searchSuccess st' = ro_searchSuccess st || searched (outcome_of (n, item)) ∧
  ro_searchError st' = ro_searchError st || searchError (outcome_of (n, item)) ∧
  ro_processingError st' = ro_processingError st || search_failed (n, item) ∧
  ro_injected st' = (if existsb sx_injected (matches_of (n, item)) then markTVGroupInjected (ro_injected st) (wi_tvGroup item) else ro_injected st) ∧
  ro_matchesFound st' = (ro_matchesFound st + Z.of_nat (length (matches_of (n, item))))%Z ∧
  ro_torrentsAdded st' = (ro_torrentsAdded st + count_if sx_injected (matches_of (n, item)))%Z ∧
  (ro_acceptedMatch st' = true ↔ ro_acceptedMatch st = true ∨ ∃ m, m ∈ matches_of (n, item) ∧ sx_injectionFailed m = false) ∧
  (∀ p, p ∈ ro_attempted st' ↔ p ∈ ro_attempted st ∨
     (searched (outcome_of (n, item)) || searchError (outcome_of (n, item)) = true ∧ p ∈ sf_Path <$> sr_Files (wi_searchee item))).
Proof.
  intros Hu. cbn zeta. unfold search_step, after_search, search_failed.
  set (files := sr_Files (wi_searchee item)). set (ms := matches_of (n, item)) in *. set (o := outcome_of (n, item)).
  set (updates := if searchError o then note_files tracked StatusError files (ro_updates st) else ro_updates st).
  assert (updates_ok (d ++ [(n, item)]) (ro_updates st)) as Hu1 by (eapply updates_ok_mono; [|exact Hu]; set_solver).
  assert (updates_ok (d ++ [(n, item)]) updates) as Hu2.
  { unfold updates. destruct (searchError o) eqn:Eo; [|done]. apply (note_errors_ok _ (n, item)); [set_solver| |done].
    unfold search_failed. fold o. by rewrite Eo. }
  assert (∀ p, p ∈ (if searched o || searchError o then list_to_set (sf_Path <$> files) ∪ ro_attempted st else ro_attempted st) ↔
    p ∈ ro_attempted st ∨ (searched o || searchError o = true ∧ p ∈ sf_Path <$> files)) as Ha.
  { intros p. case_match; [rewrite elem_of_union, elem_of_list_to_set|]; intuition congruence. }
  unfold count_if. destruct ms as [|m ms'] eqn:Ems.
  { cbn. rewrite orb_false_r. split_and!; try done; try lia. split; [by left|]. intros [?|(x & ?%elem_of_nil & _)]; done. }
  rewrite <- Ems in *. destruct (existsb (λ m0, negb (sx_injectionFailed m0)) ms) eqn:En.
  - destruct (better_match_some ms' m) as [primary Ep]. rewrite <- Ems in Ep. rewrite Ep.
    assert (∃ m', m' ∈ ms ∧ sx_injectionFailed m' = false) as Hnf.
    { apply existsb_exists in En as (m' & Hm'%list_elem_of_In & ?%negb_true_iff). by exists m'. }
    assert (forallb sx_injectionFailed ms = false) as Hall.
    { apply not_true_iff_false. rewrite forallb_forall. intros Hf. destruct Hnf as (m' & Hm'%list_elem_of_In & Hm2). rewrite Hf in Hm2; done. }
    rewrite Hall, Ems. cbn -[ms existsb]. rewrite <- Ems. split_and!; try done.
    + apply (update_matched_ok _ (n, item)); [destruct (_ && _); auto|set_solver| |done|done].
      by destruct (better_match_elem _ _ _ Ep) as [?|?].
    + by destruct (ro_processingError st), (searchError o).
    + split; [by right|done].
  - assert (forallb sx_injectionFailed ms = true) as Hall.
    { apply forallb_forall. intros x Hx. apply not_false_iff_true. intros Hf. apply not_true_iff_false in En. apply En, existsb_exists.
      exists x. by rewrite Hf. }
    rewrite Hall, Ems. cbn -[ms existsb]. rewrite <- Ems. split_and!; try done.
    + apply (note_errors_ok _ (n, item)); [set_solver| |done]. unfold search_failed. fold ms. rewrite Ems, <- Ems, Hall. apply orb_true_r.
    + by destruct (ro_processingError st), (searchError o).
    + split; [by left|]. intros [?|(x & Hx%list_elem_of_In & Hf)]; [done|]. rewrite forallb_forall in Hall. by rewrite (Hall x Hx) in Hf.
Qed.

(** What the flags and counts are after the searches [made]. *)
Record summarised (st : root_state) (made : list (nat * searcheeWorkItem)) (st' : root_state) : Prop := {
  sum_success : ro_searchSuccess st' = ro_searchSuccess st || existsb (λ s, searched (outcome_of s)) made;
  sum_error : ro_searchError st' = ro_searchError st || existsb (λ s, searchError (outcome_of s)) made;
  sum_processing : ro_processingError st' = false → ro_processingError st = false ∧ existsb search_failed made = false;
  sum_found : ro_matchesFound st' = (ro_matchesFound st + foldr (λ s, Z.add (Z.of_nat (length (matches_of s)))) 0 made)%Z;
  sum_added : ro_torrentsAdded st' = (ro_torrentsAdded st + foldr (λ s, Z.add (count_if sx_injected (matches_of s))) 0 made)%Z;
  sum_accepted : ro_acceptedMatch st' = ro_acceptedMatch st || existsb (λ s, existsb (λ m, negb (sx_injectionFailed m)) (matches_of s)) made;
  sum_attempted p : p ∈ ro_attempted st' → p ∈ ro_attempted st ∨
    ∃ s, s ∈ made ∧ searched (outcome_of s) || searchError (outcome_of s) = true ∧ p ∈ sf_Path <$> sr_Files (wi_searchee s.2) }.

Lemma summarised_nil st st' : ro_searchSuccess st' = ro_searchSuccess st → ro_searchError st' = ro_searchError st →
  (ro_processingError st' = false → ro_processingError st = false) → ro_matchesFound st' = ro_matchesFound st →
  ro_torrentsAdded st' = ro_torrentsAdded st → ro_acceptedMatch st' = ro_acceptedMatch st → ro_attempted st' = ro_attempted st →
  summarised st [] st'.
Proof.
  intros E1 E2 Hp E3 E4 E5 E6. split; cbn; rewrite ?E1, ?E2, ?E3, ?E4, ?E5, ?E6, ?orb_false_r, ?Z.add_0_r; auto.
Qed.

Lemma summarised_cons n item st made st' d :
  updates_ok d (ro_updates st) →
  summarised (search_step n item st) made st' → summarised st ((n, item) :: made) st'.
Proof.
  intros Hu Hs. destruct (search_step_spec n item st d Hu) as (_ & E1 & E2 & E3 & _ & E4 & E5 & E6 & E7). destruct Hs. split; cbn.
  - by rewrite sum_success0, E1, orb_assoc.
  - by rewrite sum_error0, E2, orb_assoc.
  - intros Hp. destruct (sum_processing0 Hp) as [Hp2 ->]. rewrite E3 in Hp2. by apply orb_false_iff in Hp2 as [-> ->].
  - rewrite sum_found0, E4. lia.
  - rewrite sum_added0, E5. lia.
  - rewrite sum_accepted0, orb_assoc. f_equal. apply eq_true_iff_eq. rewrite E6, orb_true_iff, existsb_exists.
    setoid_rewrite <- list_elem_of_In. by setoid_rewrite negb_true_iff.
  - intros p [[?|[? ?]]%E7|(s & ? & ? & ?)]%sum_attempted0; [by left|right|right].
    + exists (n, item). split_and!; [by left|done|done].
    + exists s. split_and!; [by right|done|done].
Qed.

Lemma process_items_spec items n st d :
  Forall (λ item, wi_searchee item ∈ searchees) items → updates_ok d (ro_updates st) →
  let st' := process_items tracked fileIDIndex processSearchee canceled n items st in
  let made := searches n items (ro_injected st) in
  updates_ok (d ++ made) (ro_updates st') ∧ summarised st made st'.
Proof.
  revert n st d. induction items as [|item items IH]; intros n st d Hi Hu; cbn zeta.
  { cbn. rewrite app_nil_r. split; [done|]. by apply summarised_nil. }
  apply Forall_cons in Hi as [Hi Hall]. cbn [process_items searches]. destruct (canceled n) eqn:Ec.
  { rewrite app_nil_r. split; [done|]. by apply summarised_nil. }
  destruct (shouldSkipWorkItemTVGroup item (ro_injected st)) eqn:Esk; [by apply IH|].
  destruct (isAlreadySeedingByFileID (wi_searchee item) fileIDIndex) eqn:Eseed.
  { set (st2 := set_updates _ st). destruct (IH (S n) st2 d Hall) as [H1 H2]; [by apply note_seeding_ok|].
    split; [done|]. by destruct H2; split. }
  destruct (search_step_spec n item st d Hu) as (Hu2 & _ & _ & _ & Ei & _).
  destruct (processSearchee n (wi_searchee item)) as [matches outcome] eqn:Ep.
  assert (after_search tracked item matches outcome st = search_step n item st) as ->.
  { unfold search_step, matches_of, outcome_of. cbn. by rewrite Ep. }
  destruct (IH (S n) (search_step n item st) _ Hall Hu2) as [H1 H2]. rewrite Ei in H1, H2. unfold matches_of in H1, H2. cbn in H1, H2.
  rewrite Ep in H1, H2. cbn in *. rewrite <- app_assoc in H1. split; [exact H1|]. by apply (summarised_cons _ _ _ _ _ d).
Qed.

Lemma seeding_root_ok sr : sr ∈ searchees → isAlreadySeedingByFileID sr fileIDIndex = true → updates_ok [] (seeding_root tracked sr).
Proof.
  intros Hsr Hseed. unfold seeding_root.
  assert (∀ files updates, (∀ f, f ∈ files → f ∈ sr_Files sr) → updates_ok [] updates → updates_ok []
    (foldl (λ u f, if isFinalInDB tracked (sf_Path f) then u else <[sf_Path f := plain_update StatusAlreadySeeding]> u) updates files)) as Hgen.
  { induction files as [|f files IH]; intros updates Hf Hu; [done|]. cbn [foldl]. apply IH; [intros; apply Hf; by right|].
    destruct (isFinalInDB tracked (sf_Path f)) eqn:Ef; [done|]. apply map_Forall_insert_2; [|done]. left. split_and!; [done|done|].
    exists sr. split_and!; [done|done|]. apply list_elem_of_fmap_2, Hf. by left. }
  apply Hgen; [done|]. apply map_Forall_empty.
Qed.

(** What one file is marked as, after the searches [made]. *)
Definition mark_justified (made : list (nat * searcheeWorkItem)) (path : string) (u : dirScanFileUpdate) : Prop :=
  update_ok made path u ∨
  u = plain_update StatusNoMatch ∧ isFinalInDB tracked path = false ∧ Forall (λ s, search_failed s = false) made ∧
  (∃ s, s ∈ made ∧ (searched (outcome_of s) = true ∨ ∃ m, m ∈ matches_of s ∧ sx_injectionFailed m = false)) ∧
  (isVideoPath path = true → ∃ s, s ∈ made ∧ path ∈ sf_Path <$> sr_Files (wi_searchee s.2)).

Lemma final_update_justified made st injected found added f u :
  updates_ok made (ro_updates st) → summarised (start_root injected found added) made st →
  final_update tracked st f = Some u → mark_justified made (sf_Path f) u.
Proof.
  intros Hu [Hsuc Herr Hproc _ _ Hacc Hatt]. cbn in *. unfold final_update. destruct (ro_updates st !! sf_Path f) as [u'|] eqn:El.
  { case_match; [done|]. intros [= ->]. left. by apply Hu. }
  destruct (negb (ro_acceptedMatch st) && ro_searchError st && negb (ro_searchSuccess st)) eqn:Em.
  { destruct (isFinalInDB tracked (sf_Path f)) eqn:Ef; [done|]. destruct (bool_decide (sf_Path f ∈ ro_attempted st)) eqn:Ea; [|done].
    intros [= <-]. apply bool_decide_eq_true in Ea. apply Hatt in Ea as [?|(s & Hs & Ho & Hp)]; [set_solver|].
    left. right. left. split_and!; [done|done|]. exists s. split_and!; [done| |done].
    apply andb_true_iff in Em as [_ Em%negb_true_iff]. rewrite Em in Hsuc. symmetry in Hsuc.
    assert (searched (outcome_of s) = false) as Es.
    { apply not_true_iff_false. intros Es. apply not_true_iff_false in Hsuc. apply Hsuc, existsb_exists. exists s.
      split; [by apply list_elem_of_In|done]. }
    rewrite Es in Ho. cbn in Ho. unfold search_failed. by rewrite Ho. }
  destruct (negb (ro_processingError st) && (ro_acceptedMatch st || ro_searchSuccess st)) eqn:En; [|done].
  destruct (isFinalInDB tracked (sf_Path f)) eqn:Ef; [done|].
  destruct (negb (bool_decide (sf_Path f ∈ ro_attempted st)) && isVideoPath (sf_Path f)) eqn:Ev; [done|]. intros [= <-].
  apply andb_true_iff in En as [Ep%negb_true_iff Eor]. right. split_and!; [done|done| | |].
  - destruct (Hproc Ep) as [_ Hf]. apply Forall_forall. intros s Hs. apply not_true_iff_false. intros Hs2. apply not_true_iff_false in Hf.
    apply Hf, existsb_exists. exists s. split; [by apply list_elem_of_In|done].
  - rewrite Hacc, Hsuc in Eor. apply orb_true_iff in Eor as [(s & Hs%list_elem_of_In & Hm)%existsb_exists|(s & Hs%list_elem_of_In & Hm)%existsb_exists].
    + apply existsb_exists in Hm as (m & Hm1%list_elem_of_In & Hm2%negb_true_iff). exists s. split; [done|]. right. by exists m.
    + exists s. by auto.
  - intros Hv. rewrite Hv, andb_true_r in Ev. apply negb_false_iff, bool_decide_eq_true in Ev.
    apply Hatt in Ev as [?|(s & Hs & _ & Hp)]; [set_solver|]. by exists s.
Qed.

Lemma finalize_rows store_ok directoryID st files row :
  row ∈ (finalizeRootSearcheeFileStatuses tracked store_ok directoryID st files).1 →
  ∃ f u, f ∈ files ∧ final_update tracked st f = Some u ∧ row = write_row directoryID f u ∧ store_ok row = true.
Proof.
  unfold finalizeRootSearcheeFileStatuses. case_match; [by intros ?%elem_of_nil|].
  induction files as [|f files IH]; [by intros ?%elem_of_nil|]. cbn [write_statuses].
  destruct (final_update tracked st f) as [u|] eqn:Eu.
  - cbn zeta. destruct (store_ok (write_row directoryID f u)) eqn:Es; [|by intros ?%elem_of_nil].
    destruct (write_statuses tracked store_ok directoryID st files) as [rows ok]. cbn in *.
    intros [->|Hr]%elem_of_cons; [exists f, u; split_and!; [by left|done|done|done]|].
    destruct (IH Hr) as (f' & u' & ? & ?). exists f', u'. split; [by right|done].
  - intros Hr. destruct (IH Hr) as (f' & u' & ? & ?). exists f', u'. split; [by right|done].
Qed.
End marks.

Section statuses.
Context `{!UnicodeCase}.
Context (tracked : trackedFilesIndex) (fileIDIndex : gmap string string).
Context (processSearchee : nat → Searchee → list searcheeMatch * searcheeOutcome) (canceled : nat → bool).

(** C5. Whatever the searches of the items of a searchee bring, each row written
    is of one of its files and is justified: as seeding by the file IDs of the
    searchee or an item with the file, as an error by a failed search of an item
    with the file, as matched by a match that covers the file of a search with a
    usable match, and as not matched only after no search failed and one had a
    result, for a video after a search of an item with it. A row that is final
    is only ever replaced by a match. The counts are those of the searches. *)
Theorem statuses_justified store_ok directoryID searchee workItems injected found added :
  let '(rows, st) := processRootSearchee tracked fileIDIndex processSearchee canceled store_ok directoryID searchee workItems injected found added in
  let made := if isAlreadySeedingByFileID searchee fileIDIndex then [] else searches fileIDIndex processSearchee canceled 0 workItems injected in
  let searchees := searchee :: (wi_searchee <$> workItems) in
  Forall (λ row, store_ok row = true ∧ ∃ f u, f ∈ sr_Files searchee ∧ row = write_row directoryID f u ∧
    mark_justified tracked fileIDIndex processSearchee searchees made (sf_Path f) u) rows ∧
  ro_matchesFound st = (found + foldr (λ s, Z.add (Z.of_nat (length (matches_of processSearchee s)))) 0 made)%Z ∧
  ro_torrentsAdded st = (added + foldr (λ s, Z.add (count_if sx_injected (matches_of processSearchee s))) 0 made)%Z.
Proof.
  unfold processRootSearchee. cbn zeta.
  set (searchees := searchee :: _). set (st := if isAlreadySeedingByFileID _ _ then set_updates _ _ else _).
  set (made := if isAlreadySeedingByFileID _ _ then [] else _).
  assert (updates_ok tracked fileIDIndex processSearchee searchees made (ro_updates st) ∧
    summarised processSearchee (start_root injected found added) made st) as [Hu Hs].
  { unfold st, made. destruct (isAlreadySeedingByFileID searchee fileIDIndex) eqn:Es.
    - split; [apply seeding_root_ok; [by left|done]|by apply summarised_nil].
    - apply (process_items_spec tracked fileIDIndex processSearchee canceled searchees workItems 0 (start_root injected found added) []); [|apply map_Forall_empty].
      apply Forall_forall. intros item Hi. right. by apply list_elem_of_fmap_2. }
  split; [|split; [apply Hs|apply Hs]]. apply Forall_forall. intros row (f & u & Hf & Hup & -> & Hok)%finalize_rows. split; [done|].
  exists f, u. split_and!; [done|done|]. by apply (final_update_justified _ _ _ _ _ st injected found added).
Qed.

(** The groups of TV injected by the search of an item. *)
Definition injects_group (s : nat * searcheeWorkItem) (key : tvGroupKey) : Prop :=
  wi_tvGroup s.2 = Some key ∧ existsb sx_injected (matches_of processSearchee s) = true.

(** After an injection for a group, no later item of the group is searched. *)
Lemma searches_skip_groups n items injected :
  ∀ l1 s l2, searches fileIDIndex processSearchee canceled n items injected = l1 ++ s :: l2 →
    (∀ key, wi_tvGroup s.2 = Some key → key ∉ injected) ∧
    (∀ key s', injects_group s key → s' ∈ l2 → wi_tvGroup s'.2 ≠ Some key).
Proof.
  revert n injected. induction items as [|item items IH]; intros n injected l1 s l2 E; cbn in E; [by destruct l1|].
  destruct (canceled n); [by destruct l1|]. destruct (shouldSkipWorkItemTVGroup item injected) eqn:Esk; [by apply (IH _ _ _ _ _ E)|].
  destruct (isAlreadySeedingByFileID (wi_searchee item) fileIDIndex); [by apply (IH _ _ _ _ _ E)|].
  set (inj := if existsb _ _ then _ else _) in E. destruct l1 as [|x l1]; cbn in E; injection E as <- E.
  - split; cbn.
    + intros key Hk Hin. unfold shouldSkipWorkItemTVGroup in Esk. rewrite Hk in Esk. by apply bool_decide_eq_false in Esk.
    + intros key s' [Hk Hi] Hs'. cbn in *. unfold matches_of in Hi. cbn in Hi. unfold inj in E. rewrite Hi, Hk in E. cbn in E.
      apply list_elem_of_split in Hs' as (k1 & k2 & ->). destruct (IH _ _ _ _ _ E) as [Hout _].
      intros Hk'. apply (Hout key Hk'). set_solver.
  - destruct (IH _ _ _ _ _ E) as [H1 H2]. split; [|exact H2]. intros key Hk Hin. apply (H1 key Hk). unfold inj.
    case_match; [|done]. unfold markTVGroupInjected. case_match; set_solver.
Qed.

Lemma after_search_injected item matches outcome st :
  ro_injected (after_search tracked item matches outcome st) =
  if existsb sx_injected matches then markTVGroupInjected (ro_injected st) (wi_tvGroup item) else ro_injected st.
Proof. unfold after_search. destruct matches; [done|]. by destruct (if existsb (λ m, negb (sx_injectionFailed m)) _ then _ else _). Qed.

(** What the searches injected is marked. *)
Lemma process_items_injected n items st key :
  key ∈ ro_injected st ∨ (∃ s, s ∈ searches fileIDIndex processSearchee canceled n items (ro_injected st) ∧ injects_group s key) →
  key ∈ ro_injected (process_items tracked fileIDIndex processSearchee canceled n items st).
Proof.
  revert n st. induction items as [|item items IH]; intros n st Hk; cbn [process_items searches] in *.
  { by destruct Hk as [?|(s & ?%elem_of_nil & _)]. }
  destruct (canceled n); [by destruct Hk as [?|(s & ?%elem_of_nil & _)]|].
  destruct (shouldSkipWorkItemTVGroup item (ro_injected st)); [by apply IH|].
  destruct (isAlreadySeedingByFileID (wi_searchee item) fileIDIndex); [by apply IH|].
  unfold injects_group, matches_of in Hk. destruct (processSearchee n (wi_searchee item)) as [matches outcome] eqn:Ep. apply IH.
  rewrite after_search_injected.
  cbn [fst] in Hk. destruct Hk as [Hk|(s & [->|Hs]%elem_of_cons & Hg & Hi)].
  - left. case_match; [|done]. unfold markTVGroupInjected. case_match; set_solver.
  - left. cbn in Hg, Hi. rewrite Ep in Hi. cbn in Hi. rewrite Hi, Hg. cbn. set_solver.
  - right. by exists s.
Qed.
End statuses.

Section phase_groups.
Context `{!UnicodeCase}.
Context (tracked : trackedFilesIndex) (fileIDIndex : gmap string string).
Context (processSearchee : nat → nat → Searchee → list searcheeMatch * searcheeOutcome) (canceled : nat → nat → bool)
  (stopped : nat → bool).
Context (store_ok : DirScanFile → bool) (directoryID : Z).

(** The searches of a phase, by root. *)
Inductive phase_searches : nat → list rootWorkSelection → gset tvGroupKey → Z → Z → list (nat * (nat * searcheeWorkItem)) → Prop :=
| phase_done k injected found added : phase_searches k [] injected found added []
| phase_stopped k roots injected found added : stopped k = true → phase_searches k roots injected found added []
| phase_root k selected roots injected found added rest :
    stopped k = false →
    let made := if isAlreadySeedingByFileID (rt_root selected) fileIDIndex then []
                else searches fileIDIndex (processSearchee k) (canceled k) 0 (rt_items selected) injected in
    let st := (processRootSearchee tracked fileIDIndex (processSearchee k) (canceled k) store_ok directoryID
                 (rt_root selected) (rt_items selected) injected found added).2 in
    phase_searches (S k) roots (ro_injected st) (ro_matchesFound st) (ro_torrentsAdded st) rest →
    phase_searches k (selected :: roots) injected found added ((pair k <$> made) ++ rest).

Lemma phase_searches_total k roots injected found added : ∃ l, phase_searches k roots injected found added l.
Proof.
  revert k injected found added. induction roots as [|r roots IH]; intros k injected found added; [exists []; constructor|].
  destruct (stopped k) eqn:Es; [exists []; by constructor|].
  edestruct IH as [rest Hrest]. eexists. apply phase_root; [done|exact Hrest].
Qed.

Definition phase_injects (s : nat * (nat * searcheeWorkItem)) (key : tvGroupKey) : Prop :=
  injects_group (processSearchee s.1) s.2 key.

(** A season is not searched again in a phase once something went in for it. *)
Lemma phase_groups_once k roots injected found added l :
  phase_searches k roots injected found added l →
  (∀ s key, s ∈ l → key ∈ injected → wi_tvGroup s.2.2 ≠ Some key) ∧
  (∀ l1 s l2 s' key, l = l1 ++ s :: l2 → s' ∈ l2 → phase_injects s key → wi_tvGroup s'.2.2 ≠ Some key).
Proof.
  induction 1 as [| |k selected roots injected found added rest Hst made st _ [IH1 IH2]].
  { split; [by intros s key ?%elem_of_nil|]. by intros []. }
  { split; [by intros s key ?%elem_of_nil|]. by intros []. }
  assert (∀ key, key ∈ injected ∨ (∃ s, s ∈ made ∧ injects_group (processSearchee k) s key) → key ∈ ro_injected st) as Hin.
  { intros key Hk. unfold st, processRootSearchee, made in *. cbn [snd]. destruct (isAlreadySeedingByFileID (rt_root selected) fileIDIndex).
    - destruct Hk as [?|(s & ?%elem_of_nil & _)]; done.
    - apply (process_items_injected tracked fileIDIndex (processSearchee k) (canceled k)). exact Hk. }
  assert (∀ l1 s l2, made = l1 ++ s :: l2 → (∀ key, wi_tvGroup s.2 = Some key → key ∉ injected) ∧
    (∀ key s', injects_group (processSearchee k) s key → s' ∈ l2 → wi_tvGroup s'.2 ≠ Some key)) as Hmade.
  { intros l1 s l2. unfold made. destruct (isAlreadySeedingByFileID (rt_root selected) fileIDIndex); [by destruct l1|].
    apply searches_skip_groups. }
  split.
  - intros s key [(s' & -> & Hs')%list_elem_of_fmap|Hs]%elem_of_app Hk.
    + cbn. intros Hg. apply list_elem_of_split in Hs' as (k1 & k2 & E). by apply (proj1 (Hmade _ _ _ E) key).
    + apply IH1; [done|]. apply Hin. by left.
  - intros l1 s l2 s' key E Hs' Hg. destruct (app_eq_inv _ _ _ _ E) as [(m & E1 & E2)|(m & E1 & E2)].
    + destruct m as [|x m]; cbn in E2.
      * rewrite app_nil_r in E1. by apply (IH2 [] s l2 s' key).
      * injection E2 as <- E2. subst l2. apply fmap_app_inv in E1 as (k1 & k2 & -> & E3 & Em).
        symmetry in E3. apply fmap_cons_inv in E3 as (s0 & k3 & -> & -> & ->). apply elem_of_app in Hs' as [Hs'|Hs'].
        -- apply list_elem_of_fmap in Hs' as (s1 & -> & Hs1). by apply (proj2 (Hmade _ _ _ Em) key).
        -- apply IH1; [done|]. apply Hin. right. exists s0. split; [rewrite Em; set_solver|exact Hg].
    + by apply (IH2 m s l2 s' key).
Qed.
End phase_groups.
