(* ===== verification/HardlinkIndex.v ===== *)
(** * [internal/services/automations/hardlink_index.go]: torrents that share files

    The index of hard links of an instance: which torrents have the same files,
    and whether files are linked from outside the torrents.  Deleting the copies
    of a torrent follows the index, so what it promises is about the file system:
    no link to a file of such a group is outside the torrents that were looked
    at.  A second phase looks for the missing links in other instances. *)

From Stdlib Require Import ZArith Lia Ascii.
From stdpp Require Import base numbers list strings gmap sorting.
From S2P Require Import Prelude.
From S2P Require Import GoStrings.
From S2P Require Import GoPath.
From S2P Require Import GoFloat.
From S2P Require Import FileSystem.
From S2P Require Import OrphanWalk.
From S2P Require Import Domain.
From S2P Require Import Automation.
From S2P Require Import DirScanner.

Open Scope qui_scope.

(** ** Data *)

#[export] Instance FileID_countable : Countable FileID.
Proof. refine (inj_countable' (λ f, (Dev f, Ino f)) (λ t, MkFileID t.1 t.2) _). by intros []. Defined.

(** The hexadecimal text of a SHA-256 sum. *)
Class Sha256 := { Sum256 : bytes → string }.

Record fileIDTracker := MkIDTracker { tk_nlink : Z; tk_uniquePathCount : Z }.

Record torrentFileInfo := MkFileInfos {
  fo_fileIDs : list FileID; fo_allAccessible : bool; fo_hasHardlinks : bool; fo_hasInvalidPath : bool }.

(** The trackers are shared by pointers: they live in [globalFileIDMap] and other
    maps hold their keys. *)
Record hardlinkBuildState := MkBuild {
  globalFileIDMap : gmap FileID fileIDTracker; seenPaths : gset string; torrentInfoByHash : gmap string torrentFileInfo }.

Record HardlinkIndex := MkHardlinkIndex {
  SignatureByHash : gmap string string; GroupBySignature : gmap string (list string);
  DeleteSafeSignatureByHash : gmap string string; DeleteSafeGroupBySignature : gmap string (list string);
  ScopeByHash : gmap string string; CrossScopeByHash : option (gmap string string);
  builtAt : Z; ix_digest : string; buildState : option hardlinkBuildState }.

Definition fresh_index (digest : string) : HardlinkIndex := MkHardlinkIndex ∅ ∅ ∅ ∅ ∅ None zero_time digest None.

(** Two minutes, in nanoseconds. *)
Definition hardlinkIndexTTL : Z := 120000000000.

(** ** Paths *)

(** Of automations/service.go; separators are slashes. *)
Definition buildFullPath (basePath filePath : string) : string :=
  let cleaned := Clean filePath in
  if IsAbs cleaned then cleaned else PathJoin [basePath; cleaned].

Definition isPathInsideBase (basePath fullPath : string) : bool :=
  match Rel (Clean basePath) (Clean fullPath) with
  | None => false
  | Some rel => negb (bool_decide (rel = "..") || HasPrefix rel "../")
  end.

(** ** Signatures *)

Definition id_le (f g : FileID) : Prop := FileID_Less g f = false.
#[export] Instance id_le_dec : RelDecision id_le.
Proof. intros f g. unfold id_le. apply _. Defined.

Definition sorted_ids (fileIDs : list FileID) : list FileID := merge_sort id_le fileIDs.

Section index.
Context `{!Sha256}.

Definition computeFileIDSignature (fileIDs : list FileID) : string :=
  match fileIDs with
  | [] => ""
  | _ => Sum256 (concat (fillBytes <$> sorted_ids fileIDs))
  end.

(** The torrents in the order of their hashes and save paths. *)
Definition torrent_le (t u : Torrent) : Prop :=
  match String.compare (t_Hash t) (t_Hash u) with Lt => True | Eq => String.le (t_SavePath t) (t_SavePath u) | Gt => False end.
#[export] Instance torrent_le_dec : RelDecision torrent_le.
Proof. intros t u. unfold torrent_le. destruct (String.compare _ _); apply _. Defined.

Definition computeTorrentSetDigest (torrents : list Torrent) : string :=
  match torrents with
  | [] => ""
  | _ =>
    of_bytes (take 16 (to_bytes (Sum256 (concat
      ((λ t, to_bytes (t_Hash t) ++ [chr 0] ++ to_bytes (t_SavePath t) ++ [chr 0]) <$> merge_sort torrent_le torrents)))))
  end.

(** ** The scan of the files *)

Context (faults : Faults) (fs : FS).

Definition id_of (info : FileInfo) : FileID := MkFileID (fi_dev info) (fi_ino info).

Definition inaccessible (i : torrentFileInfo) : torrentFileInfo :=
  MkFileInfos (fo_fileIDs i) false (fo_hasHardlinks i) (fo_hasInvalidPath i).
Definition invalid_path (i : torrentFileInfo) : torrentFileInfo := MkFileInfos (fo_fileIDs i) false (fo_hasHardlinks i) true.

(** A path to a file with several links, with its tracker. *)
Definition note_path (id : FileID) (nlink : Z) (fullPath : string) (st : gmap FileID fileIDTracker * gset string)
    : gmap FileID fileIDTracker * gset string :=
  let '(ids, seen) := st in
  let tracker := default (MkIDTracker nlink 0) (ids !! id) in
  if bool_decide (fullPath ∈ seen) then (<[id := tracker]> ids, seen)
  else (<[id := MkIDTracker (tk_nlink tracker) (tk_uniquePathCount tracker + 1)]> ids, {[fullPath]} ∪ seen).

Definition inspect_file (savePath : string) (acc : torrentFileInfo * (gmap FileID fileIDTracker * gset string)) (name : string)
    : torrentFileInfo * (gmap FileID fileIDTracker * gset string) :=
  let '(info, st) := acc in
  let fullPath := buildFullPath savePath name in
  if negb (isPathInsideBase savePath fullPath) then (invalid_path info, st) else
  match Lstat faults fs (to_path fullPath) with
  | inr _ | inl (EFile None) => (inaccessible info, st)
  | inl (EFile (Some fi)) =>
    let info := MkFileInfos (fo_fileIDs info ++ [id_of fi]) (fo_allAccessible info) (fo_hasHardlinks info || (1 <? fi_nlink fi)%Z)
                  (fo_hasInvalidPath info) in
    (info, if (1 <? fi_nlink fi)%Z then note_path (id_of fi) (fi_nlink fi) fullPath st else st)
  | inl _ => (info, st)
  end.

Definition new_file_info : torrentFileInfo := MkFileInfos [] true false false.

Definition inspect_torrent (savePath : string) (files : list string) (st : gmap FileID fileIDTracker * gset string)
    : torrentFileInfo * (gmap FileID fileIDTracker * gset string) :=
  if bool_decide (savePath = "") || negb (IsAbs savePath) then (invalid_path new_file_info, st)
  else foldl (inspect_file savePath) (new_file_info, st) files.

(** The save path of the last torrent with the hash, or none. *)
Definition save_path_of (torrents : list Torrent) (hash : string) : string :=
  match last (filter (λ t, t_Hash t = hash) torrents) with Some t => t_SavePath t | None => "" end.

Definition scan_torrent (torrents : list Torrent) (st : hardlinkBuildState) (hf : string * list string) : hardlinkBuildState :=
  let '(info, (ids, seen)) := inspect_torrent (save_path_of torrents hf.1) hf.2 (globalFileIDMap st, seenPaths st) in
  MkBuild ids seen (<[hf.1 := info]> (torrentInfoByHash st)).

Definition scan_all (order : MapRange) (torrents : list Torrent) (filesByHash : gmap string (list string)) : hardlinkBuildState :=
  foldl (scan_torrent torrents) (MkBuild ∅ ∅ ∅) (range order 0 filesByHash).

(** ** Scopes and groups *)

(** The loop over the files of a torrent; an outside link ends it. *)
Fixpoint scope_of (ids : gmap FileID fileIDTracker) (scope : string) (fileIDs : list FileID) : string :=
  match fileIDs with
  | [] => scope
  | fileID :: fileIDs =>
    match ids !! fileID with
    | None => scope_of ids scope fileIDs
    | Some tracker =>
      if (tk_nlink tracker <=? 1)%Z then scope_of ids scope fileIDs
      else if (tk_uniquePathCount tracker <? tk_nlink tracker)%Z then HardlinkScopeOutsideQBitTorrent
      else scope_of ids HardlinkScopeTorrentsOnly fileIDs
    end
  end.

Definition known_files (info : torrentFileInfo) : bool := fo_allAccessible info && negb (bool_decide (fo_fileIDs info = [])).

Definition scope_for (ids : gmap FileID fileIDTracker) (info : torrentFileInfo) : string :=
  scope_of ids HardlinkScopeNone (fo_fileIDs info).

(** A torrent enters a map of signatures and its groups. *)
Definition add_to_group (sig hash : string) (m : gmap string string * gmap string (list string))
    : gmap string string * gmap string (list string) :=
  (<[hash := sig]> m.1, <[sig := default [] (m.2 !! sig) ++ [hash]]> m.2).

Record group_state := MkGroups {
  gs_scopes : gmap string string; gs_all : gmap string string * gmap string (list string);
  gs_safe : gmap string string * gmap string (list string) }.

Definition link_torrent (ids : gmap FileID fileIDTracker) (acc : group_state) (hi : string * torrentFileInfo) : group_state :=
  let '(hash, info) := hi in
  if negb (known_files info) then acc else
  let scope := scope_for ids info in
  let scopes := <[hash := scope]> (gs_scopes acc) in
  if negb (fo_hasHardlinks info) then MkGroups scopes (gs_all acc) (gs_safe acc) else
  let sig := computeFileIDSignature (fo_fileIDs info) in
  MkGroups scopes (add_to_group sig hash (gs_all acc))
    (if bool_decide (scope = HardlinkScopeOutsideQBitTorrent) then gs_safe acc else add_to_group sig hash (gs_safe acc)).

Definition pruneSingletonHardlinkGroups (order : MapRange) (m : gmap string string * gmap string (list string))
    : gmap string string * gmap string (list string) :=
  foldl (λ acc sh,
    if (2 <=? length sh.2)%nat then acc
    else (match sh.2 with [hash] => delete hash acc.1 | _ => acc.1 end, delete sh.1 acc.2)) m (range order 2 m.2).

(** What is built of the files; [now] is the time at the end. *)
Definition index_of (order : MapRange) (torrents : list Torrent) (filesByHash : gmap string (list string)) (digest : string)
    (retainBuildState : bool) (now : Z) : HardlinkIndex :=
  let st := scan_all order torrents filesByHash in
  let groups := foldl (link_torrent (globalFileIDMap st)) (MkGroups ∅ (∅, ∅) (∅, ∅)) (range order 1 (torrentInfoByHash st)) in
  let '(sigs, bySig) := pruneSingletonHardlinkGroups order (gs_all groups) in
  let '(safeSigs, safeBySig) := pruneSingletonHardlinkGroups order (gs_safe groups) in
  MkHardlinkIndex sigs bySig safeSigs safeBySig (gs_scopes groups) None now digest (if retainBuildState then Some st else None).

(** The files of a batch of torrents, or an error, which may be a cancellation. *)
Inductive files_answer : Type := Files (filesByHash : gmap string (list string)) | FilesFailed (canceled : bool).

(** The index, with the cache. *)
Definition buildHardlinkIndex (order : MapRange) (instanceID : Z) (torrents : list Torrent) (digest : string) (retainBuildState : bool)
    (fetch : files_answer) (now : Z) (cache : gmap Z HardlinkIndex) : HardlinkIndex * gmap Z HardlinkIndex :=
  let store index := (index, <[instanceID := index]> cache) in
  let empty := MkHardlinkIndex ∅ ∅ ∅ ∅ ∅ None now digest None in
  match torrents with
  | [] => store empty
  | _ =>
    match fetch with
    | FilesFailed true => (fresh_index digest, cache)
    | FilesFailed false => store empty
    | Files filesByHash => store (index_of order torrents filesByHash digest retainBuildState now)
    end
  end.

Definition cacheValid (cached : HardlinkIndex) (currentDigest : string) (needsCrossScope : bool) (now : Z) : bool :=
  (now - builtAt cached <? hardlinkIndexTTL)%Z && bool_decide (ix_digest cached = currentDigest) &&
  negb (needsCrossScope && bool_decide (CrossScopeByHash cached = None) && match buildState cached with None => true | Some _ => false end).

(** The build ends at [built]. *)
Definition GetHardlinkIndex (order : MapRange) (instanceID : Z) (torrents : list Torrent) (needsCrossScope : bool)
    (fetch : files_answer) (now built : Z) (cache : gmap Z HardlinkIndex) : HardlinkIndex * gmap Z HardlinkIndex :=
  let currentDigest := computeTorrentSetDigest torrents in
  match cache !! instanceID with
  | Some cached =>
    if cacheValid cached currentDigest needsCrossScope now then (cached, cache)
    else buildHardlinkIndex order instanceID torrents currentDigest needsCrossScope fetch built cache
  | None => buildHardlinkIndex order instanceID torrents currentDigest needsCrossScope fetch built cache
  end.

(** ** Queries *)

Definition GetHardlinkCopies (idx : HardlinkIndex) (triggerHash : string) : list string :=
  match DeleteSafeSignatureByHash idx !! triggerHash with
  | None => []
  | Some sig =>
    let group := default [] (DeleteSafeGroupBySignature idx !! sig) in
    if (length group <=? 1)%nat then [] else filter (λ h, h ≠ triggerHash) group
  end.

Definition GetHardlinkScope (idx : HardlinkIndex) (hash : string) : string := default "" (ScopeByHash idx !! hash).

Definition GetHardlinkCrossScope (idx : HardlinkIndex) (hash : string) : string :=
  match CrossScopeByHash idx with None => "" | Some scopes => default "" (scopes !! hash) end.

(** ** Other instances *)

Definition in_deficit (t : fileIDTracker) : bool := (tk_uniquePathCount t <? tk_nlink t)%Z.

Definition collectDeficitFileIDs (ids : gmap FileID fileIDTracker) : gset FileID :=
  dom (filter (λ kv, in_deficit kv.2 = true) ids).

Definition computeScopeMap (st : hardlinkBuildState) : gmap string string :=
  scope_for (globalFileIDMap st) <$> filter (λ kv, known_files kv.2 = true) (torrentInfoByHash st).

Definition finalizeCrossScope (idx : HardlinkIndex) : HardlinkIndex :=
  MkHardlinkIndex (SignatureByHash idx) (GroupBySignature idx) (DeleteSafeSignatureByHash idx) (DeleteSafeGroupBySignature idx)
    (ScopeByHash idx) (Some (ScopeByHash idx)) (builtAt idx) (ix_digest idx) None.

Definition with_cross (cross : option (gmap string string)) (state : option hardlinkBuildState) (idx : HardlinkIndex) : HardlinkIndex :=
  MkHardlinkIndex (SignatureByHash idx) (GroupBySignature idx) (DeleteSafeSignatureByHash idx) (DeleteSafeGroupBySignature idx)
    (ScopeByHash idx) cross (builtAt idx) (ix_digest idx) state.

Definition maxCrossInstanceLstatCalls : Z := 500000.

Record cross_state := MkCross {
  cr_ids : gmap FileID fileIDTracker; cr_seen : gset string; cr_deficit : gset FileID; cr_calls : Z; cr_errors : Z }.

Definition cross_done (st : cross_state) : bool :=
  bool_decide (cr_deficit st = ∅) || (maxCrossInstanceLstatCalls <=? cr_calls st)%Z.

Definition count_call (failed : bool) (st : cross_state) : cross_state :=
  MkCross (cr_ids st) (cr_seen st) (cr_deficit st) (cr_calls st + 1) (cr_errors st + if failed then 1 else 0).

(** A link that was missing. *)
Definition found_link (id : FileID) (fullPath : string) (st : cross_state) : cross_state :=
  match cr_ids st !! id with
  | None => st
  | Some t =>
    let t := MkIDTracker (tk_nlink t) (tk_uniquePathCount t + 1) in
    MkCross (<[id := t]> (cr_ids st)) ({[fullPath]} ∪ cr_seen st)
      (if in_deficit t then cr_deficit st else cr_deficit st ∖ {[id]}) (cr_calls st) (cr_errors st)
  end.

Definition cross_file (savePath : string) (st : cross_state) (name : string) : cross_state :=
  let fullPath := buildFullPath savePath name in
  if negb (isPathInsideBase savePath fullPath) then st
  else if bool_decide (fullPath ∈ cr_seen st) then st
  else
    match Lstat faults fs (to_path fullPath) with
    | inr _ | inl (EFile None) => count_call true st
    | inl (EFile (Some fi)) =>
      let st := count_call false st in
      if bool_decide (id_of fi ∈ cr_deficit st) then found_link (id_of fi) fullPath st else st
    | inl _ => count_call false st
    end.

Fixpoint cross_files (savePath : string) (files : list string) (st : cross_state) : cross_state :=
  match files with
  | [] => st
  | f :: files => if cross_done st then st else cross_files savePath files (cross_file savePath st f)
  end.

Fixpoint cross_torrents (savePaths : gmap string string) (filesByHash : list (string * list string)) (st : cross_state) : cross_state :=
  match filesByHash with
  | [] => st
  | (hash, files) :: rest =>
    if cross_done st then st else
    let savePath := default "" (savePaths !! hash) in
    cross_torrents savePaths rest (if bool_decide (savePath = "") || negb (IsAbs savePath) then st else cross_files savePath files st)
  end.

(** Another instance: its cached torrents and their files, each of which may
    fail to load. *)
Record other_instance := MkOther { ot_views : option (list (string * string)); ot_files : option (gmap string (list string)) }.

Fixpoint scanOtherInstancesForDeficits (order : MapRange) (canceled : nat → bool) (n : nat) (others : list other_instance) (st : cross_state)
    : cross_state :=
  match others with
  | [] => st
  | other :: others =>
    if canceled n || cross_done st then st
    else
      let st := match ot_views other, ot_files other with
                | Some views, Some filesByHash =>
                  cross_torrents (foldl (λ m v, <[v.1 := v.2]> m) ∅ views) (range order 3 filesByHash) st
                | _, _ => st
                end in
      scanOtherInstancesForDeficits order canceled (S n) others st
  end.

(** [others] is none when the instances cannot be listed; [aborted] is whether
    the context is cancelled at the end. *)
Definition augmentCrossInstanceScope (order : MapRange) (others : option (list other_instance)) (canceled : nat → bool) (aborted : bool)
    (idx : HardlinkIndex) : HardlinkIndex :=
  match buildState idx with
  | None => idx
  | Some state =>
    let deficitSet := collectDeficitFileIDs (globalFileIDMap state) in
    if bool_decide (deficitSet = ∅) then finalizeCrossScope idx
    else match others with
    | None | Some [] => finalizeCrossScope idx
    | Some others =>
      let st := scanOtherInstancesForDeficits order canceled 0 others
                  (MkCross (globalFileIDMap state) (seenPaths state) deficitSet 0 0) in
      let state := MkBuild (cr_ids st) (cr_seen st) (torrentInfoByHash state) in
      if aborted then with_cross (CrossScopeByHash idx) (Some state) idx
      else with_cross (Some (computeScopeMap state)) None idx
    end
  end.
End index.

(** ** Links in the file system *)

Definition entry_id (e : entry) : option FileID := match e with EFile (Some fi) => Some (id_of fi) | _ => None end.

(** The paths of a file. *)
Definition links (fs : FS) (id : FileID) : gset path := dom (filter (λ pe, entry_id pe.2 = Some id) (fs : gmap path entry)).

Lemma elem_of_links fs id q : q ∈ links fs id ↔ ∃ fi, fs !! q = Some (EFile (Some fi)) ∧ id_of fi = id.
Proof.
  unfold links. rewrite elem_of_dom. unfold is_Some. setoid_rewrite map_lookup_filter_Some. cbn. split.
  - intros (e & He & Hid). destruct e as [[fi|]| |]; try done. cbn in Hid. injection Hid as <-. by exists fi.
  - intros (fi & Hq & <-). exists (EFile (Some fi)). done.
Qed.

(** The number of links of a file is right, and identities are pairs of
    [uint64]s. *)
Definition links_ok (fs : FS) : Prop :=
  ∀ p fi, fs !! p = Some (EFile (Some fi)) → fi_nlink fi = Z.of_nat (size (links fs (id_of fi))) ∧ id_ok (id_of fi).

Definition canonical (p : string) : Prop := ∃ cs, Forall plain cs ∧ p = abs_path cs.

Lemma buildFullPath_canonical save f : IsAbs save = true → canonical (buildFullPath save f).
Proof.
  intros Hs. unfold buildFullPath. destruct (IsAbs (Clean f)) eqn:Ef.
  - destruct (Clean_abs _ Ef) as (cs & Hcs & E). rewrite Clean_idemp in E. by exists cs.
  - assert (save ≠ "") as Hne by by intros ->. cbn [PathJoin]. rewrite bool_decide_false by done.
    apply Clean_abs. apply HasPrefix_app in Hs as [r ->]. destruct (unsplit_head ("/" +++ r) [Clean f]) as [r' ->].
    rewrite string_app_assoc. apply IsAbs_slash.
Qed.

Lemma canonical_inj p q : canonical p → canonical q → to_path p = to_path q → p = q.
Proof. intros (cs & Hcs & ->) (ds & Hds & ->). rewrite !to_path_abs by done. by intros ->. Qed.

(** A map that is injective on a set keeps its size. *)
Lemma size_set_map_inj {A B} `{Countable A, Countable B} (f : A → B) (X : gset A) :
  (∀ x y, x ∈ X → y ∈ X → f x = f y → x = y) → size (set_map f X : gset B) = size X.
Proof.
  induction X as [|x X Hx IH] using set_ind_L; intros Hinj; [by rewrite set_map_empty|].
  rewrite set_map_union_L, set_map_singleton_L, !size_union, !size_singleton; [|set_solver|].
  - rewrite IH; [done|]. intros a b Ha Hb. apply Hinj; set_solver.
  - intros b Hb1%elem_of_singleton (y & E & Hy)%elem_of_map. subst b. apply Hx. rewrite (Hinj x y); [done|set_solver|set_solver|done].
Qed.

Section tracking.
Context (faults : Faults) (fs : FS).
Context (Hwf : fs_wf fs) (Hlinks : links_ok fs).

Definition id_at (p : string) : option FileID := fs !! to_path p ≫= entry_id.

Definition seen_at (id : FileID) (seen : gset string) : gset string := filter (λ p, id_at p = Some id) seen.

(** What holds of the trackers after any number of paths. *)
Definition tracked_ok (ids : gmap FileID fileIDTracker) (seen : gset string) : Prop :=
  (∀ p, p ∈ seen → canonical p ∧ ∃ id, id_at p = Some id ∧ is_Some (ids !! id)) ∧
  (∀ id t, ids !! id = Some t → tk_nlink t = Z.of_nat (size (links fs id)) ∧ (1 < tk_nlink t)%Z ∧
     tk_uniquePathCount t = Z.of_nat (size (seen_at id seen))).

Lemma id_at_links p id : id_at p = Some id ↔ to_path p ∈ links fs id.
Proof.
  unfold id_at. rewrite elem_of_links. destruct (fs !! to_path p) as [[[fi|]| |]|]; cbn; try (split; [done|by intros (? & ? & _)]).
  split; [intros [= <-]; by exists fi|by intros (? & [= <-] & <-)].
Qed.

Lemma tracked_empty : tracked_ok ∅ ∅.
Proof. split; [set_solver|]. intros id t. by rewrite lookup_empty. Qed.

Lemma seen_at_add id p seen : id_at p = Some id → p ∉ seen → size (seen_at id ({[p]} ∪ seen)) = S (size (seen_at id seen)).
Proof.
  intros Hp Hn. assert (seen_at id ({[p]} ∪ seen) = {[p]} ∪ seen_at id seen) as ->.
  { apply set_eq. intros x. unfold seen_at. rewrite elem_of_filter, !elem_of_union, elem_of_filter, elem_of_singleton. naive_solver. }
  rewrite size_union, size_singleton; [done|]. unfold seen_at. set_solver.
Qed.

Lemma seen_at_other id p seen : id_at p ≠ Some id → seen_at id ({[p]} ∪ seen) = seen_at id seen.
Proof.
  intros Hp. apply set_eq. intros x. unfold seen_at. rewrite !elem_of_filter, elem_of_union, elem_of_singleton. naive_solver.
Qed.

(** One more path of a file with its tracker. *)
Lemma tracked_add ids seen p id t t' :
  tracked_ok ids seen → canonical p → id_at p = Some id → p ∉ seen → default t' (ids !! id) = t →
  (ids !! id = None → tk_nlink t' = Z.of_nat (size (links fs id)) ∧ (1 < tk_nlink t')%Z ∧ tk_uniquePathCount t' = 0%Z) →
  tracked_ok (<[id := MkIDTracker (tk_nlink t) (tk_uniquePathCount t + 1)]> ids) ({[p]} ∪ seen).
Proof.
  intros [Hseen Hids] Hc Hp Hn Ht Hnew.
  assert (tk_nlink t = Z.of_nat (size (links fs id)) ∧ (1 < tk_nlink t)%Z ∧ tk_uniquePathCount t = Z.of_nat (size (seen_at id seen))) as (H1 & H2 & H3).
  { destruct (ids !! id) as [u|] eqn:Eu; cbn in Ht; subst t; [by apply Hids|]. destruct (Hnew eq_refl) as (? & ? & ->). split_and!; [done|done|].
    replace (seen_at id seen) with (∅ : gset string); [by rewrite size_empty|]. symmetry. apply set_eq. intros x. split; [|set_solver].
    unfold seen_at. rewrite elem_of_filter. intros [Hx1 Hx2]. destruct (Hseen x Hx2) as (_ & id' & Hx3 & [? ?]). congruence. }
  split.
  - intros q [->%elem_of_singleton|Hq]%elem_of_union; [split; [done|]; exists id; by rewrite lookup_insert_eq|].
    destruct (Hseen q Hq) as (? & id' & ? & ?). split; [done|]. exists id'. split; [done|].
    destruct (decide (id = id')) as [->|]; [by rewrite lookup_insert_eq|by rewrite lookup_insert_ne].
  - intros id' t'' Hl. destruct (decide (id = id')) as [<-|Hid].
    + rewrite lookup_insert_eq in Hl. injection Hl as <-. cbn. rewrite seen_at_add by done. split_and!; [done|done|]. lia.
    + rewrite lookup_insert_ne in Hl by done. rewrite seen_at_other; [by apply Hids|]. rewrite Hp. congruence.
Qed.

Lemma note_path_ok ids seen p fi :
  tracked_ok ids seen → canonical p → fs !! to_path p = Some (EFile (Some fi)) → (1 < fi_nlink fi)%Z →
  let st := note_path (id_of fi) (fi_nlink fi) p (ids, seen) in tracked_ok st.1 st.2 ∧ st.2 = {[p]} ∪ seen.
Proof.
  intros Hok Hc Hp Hn. cbv zeta. assert (id_at p = Some (id_of fi)) as Hid by (unfold id_at; by rewrite Hp).
  unfold note_path. case_bool_decide as Hin; cbn.
  - destruct (proj1 Hok p Hin) as (_ & id & Hid' & [t Ht]). assert (id = id_of fi) as -> by congruence. rewrite Ht. cbn.
    rewrite insert_id by done. split; [done|]. set_solver.
  - split; [|done]. apply (tracked_add ids seen p (id_of fi) _ (MkIDTracker (fi_nlink fi) 0)); try done. intros _. cbn.
    split_and!; [by apply (Hlinks _ _ Hp)|done|done].
Qed.

(** No links are missing exactly when all links were seen. *)
Lemma deficit_spec ids seen id t :
  tracked_ok ids seen → ids !! id = Some t → in_deficit t = false ↔ ∀ q, q ∈ links fs id → abs_path q ∈ seen.
Proof.
  intros [Hseen Hids] Ht. destruct (Hids id t Ht) as (Hn & _ & Hu). unfold in_deficit. rewrite Hn, Hu, Z.ltb_ge.
  set (S := set_map to_path (seen_at id seen) : gset path).
  assert (size S = size (seen_at id seen)) as Hsize.
  { apply size_set_map_inj. intros x y Hx Hy. unfold seen_at in *. apply canonical_inj; apply Hseen; set_solver. }
  assert (S ⊆ links fs id) as Hsub.
  { intros q (p & -> & Hp)%elem_of_map. unfold seen_at in Hp. apply elem_of_filter in Hp as [Hp _]. by apply id_at_links. }
  assert (∀ q, q ∈ links fs id → q ∈ S ↔ abs_path q ∈ seen) as Hmem.
  { intros q Hq. assert (Forall plain q) as Hpl by (apply elem_of_links in Hq as (fi & Hq & _); by eapply (proj1 Hwf)). split.
    - intros (p & E & Hp)%elem_of_map. unfold seen_at in Hp. apply elem_of_filter in Hp as [_ Hp].
      destruct (Hseen p Hp) as ((cs & Hcs & ->) & _). rewrite to_path_abs in E by done. by subst.
    - intros Hin. apply elem_of_map. exists (abs_path q). rewrite to_path_abs by done. split; [done|]. unfold seen_at.
      apply elem_of_filter. split; [|done]. apply id_at_links. by rewrite to_path_abs. }
  split.
  - intros Hle q Hq. apply Hmem; [done|]. assert (S = links fs id) as ->; [|done]. apply set_subseteq_size_eq; [done|lia].
  - intros Hall. assert (links fs id ⊆ S) as Hsup by (intros q Hq; apply Hmem; [done|by apply Hall]). apply subseteq_size in Hsup. lia.
Qed.
End tracking.

(** ** The scan *)

Section scan.
Context (faults : Faults) (fs : FS).
Context (Hwf : fs_wf fs) (Hlinks : links_ok fs).

(** The identities a file of a torrent adds, unless it could not be looked at. *)
Definition file_ids (save name : string) : option (list FileID) :=
  let p := buildFullPath save name in
  if negb (isPathInsideBase save p) then None else
  match Lstat faults fs (to_path p) with
  | inr _ | inl (EFile None) => None
  | inl (EFile (Some fi)) => Some [id_of fi]
  | inl _ => Some []
  end.

(** The identities of all files of a torrent, when each was looked at. *)
Definition inspected (save : string) (files : list string) : option (list FileID) :=
  if bool_decide (save = "") || negb (IsAbs save) then None
  else if forallb (λ f, bool_decide (is_Some (file_ids save f))) files then Some (concat (omap (file_ids save) files)) else None.

(** The path of a file of a torrent, when it is looked at. *)
Definition reaches (save name p : string) : Prop :=
  save ≠ "" ∧ IsAbs save = true ∧ p = buildFullPath save name ∧ isPathInsideBase save p = true ∧ ∃ e, Lstat faults fs (to_path p) = inl e.

Definition linked_path (p : string) : Prop := ∃ fi, fs !! to_path p = Some (EFile (Some fi)) ∧ (1 < fi_nlink fi)%Z.

Definition shared_id (id : FileID) : Prop := (1 < size (links fs id))%nat.

Lemma linked_shared p id : id_at fs p = Some id → linked_path p ↔ shared_id id.
Proof.
  unfold id_at, linked_path, shared_id. destruct (fs !! to_path p) as [[[fi|]| |]|] eqn:Ep; try done. cbn. intros [= <-].
  destruct (Hlinks _ _ Ep) as [Hn _]. split; [intros (? & [= <-] & ?); lia|]. intros. exists fi. split; [done|lia].
Qed.

Lemma inspect_file_spec save name info ids seen :
  save ≠ "" → IsAbs save = true → tracked_ok fs ids seen →
  let r := inspect_file faults fs save (info, (ids, seen)) name in
  tracked_ok fs r.2.1 r.2.2 ∧ (∀ p, p ∈ r.2.2 ↔ p ∈ seen ∨ reaches save name p ∧ linked_path p) ∧
  fo_fileIDs r.1 = fo_fileIDs info ++ default [] (file_ids save name) ∧
  fo_allAccessible r.1 = fo_allAccessible info && bool_decide (is_Some (file_ids save name)) ∧
  (fo_hasHardlinks r.1 = true ↔ fo_hasHardlinks info = true ∨ ∃ id, id ∈ default [] (file_ids save name) ∧ shared_id id).
Proof.
  intros Hne Habs Hok. cbv zeta. unfold inspect_file, file_ids. set (p := buildFullPath save name).
  assert (canonical p) as Hc by by apply buildFullPath_canonical.
  assert (∀ A : Prop, (∃ id, id ∈ ([] : list FileID) ∧ shared_id id) ↔ False) as Hnil.
  { intros _. split; [by intros (? & ?%elem_of_nil & _)|done]. }
  destruct (isPathInsideBase save p) eqn:Ein; cbn [negb].
  2:{ cbn. rewrite app_nil_r, andb_false_r, Hnil by exact True. split_and!; try done; [|tauto].
      intros q. split; [by left|]. intros [?|[(_ & _ & -> & Hin & _) _]]; [done|]. fold p in Hin. congruence. }
  assert (∀ e, Lstat faults fs (to_path p) = inl e → (∀ fi, e = EFile (Some fi) → (fi_nlink fi ≤ 1)%Z) →
    ∀ q, q ∈ seen ↔ q ∈ seen ∨ reaches save name q ∧ linked_path q) as Hsame.
  { intros e He Hno q. split; [by left|]. intros [?|[(_ & _ & -> & _) (fi & Hfi & Hn)]]; [done|]. fold p in Hfi.
    apply Lstat_inl in He. rewrite He in Hfi. injection Hfi as ->. specialize (Hno fi eq_refl). lia. }
  destruct (Lstat faults fs (to_path p)) as [[[fi|]| |err]|err] eqn:El.
  - pose proof (Lstat_inl _ _ _ _ El) as Hp.
    assert (id_at fs p = Some (id_of fi)) as Hid by (unfold id_at; by rewrite Hp).
    cbn [fo_fileIDs fo_allAccessible fo_hasHardlinks fst snd default from_option id]. rewrite bool_decide_true by done. rewrite andb_true_r.
    assert ((1 <? fi_nlink fi)%Z = true ↔ ∃ id, id ∈ [id_of fi] ∧ shared_id id) as Hsh.
    { rewrite Z.ltb_lt. setoid_rewrite list_elem_of_singleton.
      split.
      - intros Hn. exists (id_of fi). split; [done|]. apply (linked_shared p _ Hid). by exists fi.
      - intros (id & -> & Hs). apply (linked_shared p _ Hid) in Hs as (fi' & Hfi' & ?). congruence. }
    split_and!.
    + destruct (Z.ltb_spec 1 (fi_nlink fi)) as [Hn|Hn]; [|done]. by apply (note_path_ok fs Hwf Hlinks).
    + destruct (Z.ltb_spec 1 (fi_nlink fi)) as [Hn|Hn].
      * destruct (note_path_ok fs Hwf Hlinks ids seen p fi Hok Hc Hp Hn) as [_ ->]. intros q. rewrite elem_of_union, elem_of_singleton. split.
        -- intros [->|?]; [right|by left]. split; [split_and!; try done; by eexists|by exists fi].
        -- intros [?|[(_ & _ & -> & _) _]]; [by right|by left].
      * apply (Hsame _ eq_refl). by intros ? [= <-].
    + done.
    + done.
    + rewrite orb_true_iff. by rewrite Hsh.
  - cbn. rewrite app_nil_r, andb_false_r, Hnil by exact True. split_and!; try done; [by apply (Hsame _ eq_refl)|tauto].
  - cbn. rewrite app_nil_r, andb_true_r, Hnil by exact True. split_and!; try done; [by apply (Hsame _ eq_refl)|tauto].
  - cbn. rewrite app_nil_r, andb_true_r, Hnil by exact True. split_and!; try done; [by apply (Hsame _ eq_refl)|tauto].
  - cbn. rewrite app_nil_r, andb_false_r, Hnil by exact True. split_and!; try done; [|tauto].
    intros q. split; [by left|]. intros [?|[(_ & _ & -> & _ & e & He) _]]; [done|]. fold p in He. congruence.
Qed.

Lemma inspect_fold save files info ids seen :
  save ≠ "" → IsAbs save = true → tracked_ok fs ids seen →
  let r := foldl (inspect_file faults fs save) (info, (ids, seen)) files in
  tracked_ok fs r.2.1 r.2.2 ∧ (∀ p, p ∈ r.2.2 ↔ p ∈ seen ∨ ∃ f, f ∈ files ∧ reaches save f p ∧ linked_path p) ∧
  fo_fileIDs r.1 = fo_fileIDs info ++ concat (omap (file_ids save) files) ∧
  fo_allAccessible r.1 = fo_allAccessible info && forallb (λ f, bool_decide (is_Some (file_ids save f))) files ∧
  (fo_hasHardlinks r.1 = true ↔ fo_hasHardlinks info = true ∨ ∃ id, id ∈ concat (omap (file_ids save) files) ∧ shared_id id).
Proof.
  intros Hne Habs. revert info ids seen. induction files as [|f files IH]; intros info ids seen Hok.
  { cbn. rewrite app_nil_r, andb_true_r. split_and!; try done; [|].
    - intros p. split; [by left|]. by intros [?|(f & ?%elem_of_nil & _)].
    - split; [by left|]. by intros [?|(id & ?%elem_of_nil & _)]. }
  cbv zeta. cbn [foldl]. destruct (inspect_file_spec save f info ids seen Hne Habs Hok) as (H1 & H2 & H3 & H4 & H5).
  destruct (inspect_file faults fs save (info, (ids, seen)) f) as [info1 [ids1 seen1]]. cbn in H1, H2, H3, H4, H5.
  destruct (IH info1 ids1 seen1 H1) as (I1 & I2 & I3 & I4 & I5). cbv zeta in *. split; [exact I1|].
  assert (concat (omap (file_ids save) (f :: files)) = default [] (file_ids save f) ++ concat (omap (file_ids save) files)) as Ec.
  { cbn [omap list_omap]. by destruct (file_ids save f). }
  rewrite Ec. split_and!.
  - intros p. rewrite I2, H2. split.
    + intros [[?|?]|(g & Hg & ?)]; [by left|right; exists f; split; [by left|done]|right; exists g; split; [by right|done]].
    + intros [?|(g & [->|Hg]%elem_of_cons & ?)]; [by left; left|by left; right|right; by exists g].
  - by rewrite I3, H3, <- app_assoc.
  - rewrite I4, H4. cbn [forallb]. by rewrite andb_assoc.
  - rewrite I5, H5. setoid_rewrite elem_of_app. split.
    + intros [[?|(id & ? & ?)]|(id & ? & ?)]; [by left|right; exists id; split; [by left|done]|right; exists id; split; [by right|done]].
    + intros [?|(id & [?|?] & ?)]; [by left; left|left; right; by exists id|right; by exists id].
Qed.
End scan.

Section scanned.
Context (faults : Faults) (fs : FS).
Context (Hwf : fs_wf fs) (Hlinks : links_ok fs).
Context (torrents : list Torrent).

(** What the scan finds out about a torrent. *)
Definition describes (save : string) (files : list string) (info : torrentFileInfo) : Prop :=
  (∀ l, fo_allAccessible info = true ∧ fo_fileIDs info = l ↔ inspected faults fs save files = Some l) ∧
  (fo_allAccessible info = true → fo_hasHardlinks info = true ↔ ∃ id, id ∈ fo_fileIDs info ∧ shared_id fs id).

Lemma inspect_torrent_spec save files ids seen :
  tracked_ok fs ids seen →
  let r := inspect_torrent faults fs save files (ids, seen) in
  tracked_ok fs r.2.1 r.2.2 ∧ (∀ p, p ∈ r.2.2 ↔ p ∈ seen ∨ ∃ f, f ∈ files ∧ reaches faults fs save f p ∧ linked_path fs p) ∧
  describes save files r.1.
Proof.
  intros Hok. cbv zeta. unfold inspect_torrent, describes, inspected.
  destruct (bool_decide (save = "") || negb (IsAbs save)) eqn:Es.
  { cbn. split_and!; [done| |by split; [by intros [? _]|done]|done]. intros p. split; [by left|].
    intros [?|(f & _ & (Hne & Ha & _) & _)]; [done|]. rewrite bool_decide_false, Ha in Es by done. done. }
  apply orb_false_iff in Es as [Hne%bool_decide_eq_false Habs%negb_false_iff].
  destruct (inspect_fold faults fs Hwf Hlinks save files new_file_info ids seen Hne Habs Hok) as (H1 & H2 & H3 & H4 & H5).
  cbv zeta in *. cbn [fo_fileIDs fo_allAccessible fo_hasHardlinks new_file_info app andb] in H3, H4, H5.
  split; [exact H1|]. split; [exact H2|]. rewrite H3, H4, H5. split.
  - intros l. destruct (forallb _ files); split; [by intros [_ ->]|by intros [= ->]|by intros [? _]|done].
  - intros _. split; [by intros [?|?]|by right].
Qed.

(** The torrents that were scanned, and the paths of their files with several
    links. *)
Lemma scan_all_spec (l : list (string * list string)) :
  NoDup l.*1 →
  let st := foldl (scan_torrent faults fs torrents) (MkBuild ∅ ∅ ∅) l in
  tracked_ok fs (globalFileIDMap st) (seenPaths st) ∧
  (∀ p, p ∈ seenPaths st ↔
     ∃ hf f, hf ∈ l ∧ f ∈ hf.2 ∧ reaches faults fs (save_path_of torrents hf.1) f p ∧ linked_path fs p) ∧
  (∀ hash info, torrentInfoByHash st !! hash = Some info → ∃ files, (hash, files) ∈ l ∧ describes (save_path_of torrents hash) files info) ∧
  (∀ hash files, (hash, files) ∈ l → is_Some (torrentInfoByHash st !! hash)).
Proof.
  induction l as [|[hash files] l IH] using rev_ind; intros Hnd; cbv zeta.
  { cbn [foldl globalFileIDMap seenPaths torrentInfoByHash fst snd]. refine (conj (tracked_empty fs Hwf Hlinks) (conj _ (conj _ _))).
    - intros p. split; [set_solver|]. by intros (? & ? & ?%elem_of_nil & _).
    - intros h i Hi. by rewrite lookup_empty in Hi.
    - by intros h fl ?%elem_of_nil. }
  rewrite fmap_app in Hnd. apply NoDup_app in Hnd as (Hnd & Hnew & _). specialize (IH Hnd). cbv zeta in IH.
  rewrite foldl_snoc. set (st := foldl _ _ l) in *. destruct IH as (I1 & I2 & I3 & I4). unfold scan_torrent. cbn [fst snd].
  destruct (inspect_torrent_spec (save_path_of torrents hash) files _ _ I1) as (H1 & H2 & H3). cbv zeta in *.
  destruct (inspect_torrent faults fs (save_path_of torrents hash) files (globalFileIDMap st, seenPaths st)) as [info [ids seen]].
  cbn [fst snd globalFileIDMap seenPaths torrentInfoByHash] in *. split; [exact H1|]. split_and!.
  - intros p. rewrite H2, I2. split.
    + intros [(hf & f & ? & ?)|(f & ? & ?)]; [exists hf, f; split; [apply elem_of_app; by left|done]|].
      exists (hash, files), f. split; [apply elem_of_app; right; by left|done].
    + intros (hf & f & [?| ->%list_elem_of_singleton]%elem_of_app & ?); [left; by exists hf, f|right; by exists f].
  - intros h i Hi. destruct (decide (h = hash)) as [->|Hh].
    + rewrite lookup_insert_eq in Hi. injection Hi as <-. exists files. split; [apply elem_of_app; right; by left|done].
    + rewrite lookup_insert_ne in Hi by done. destruct (I3 h i Hi) as (fl & ? & ?). exists fl. split; [apply elem_of_app; by left|done].
  - intros h fl [Hin|[= -> ->]%list_elem_of_singleton]%elem_of_app; [|by rewrite lookup_insert_eq; eexists].
    destruct (decide (h = hash)) as [->|Hh]; [by rewrite lookup_insert_eq; eexists|]. rewrite lookup_insert_ne by done. by apply (I4 h fl).
Qed.
End scanned.

(** ** Groups *)

Section groups.
Context {I : Type} (member : string * I → option string).

Definition enter_group (acc : gmap string string * gmap string (list string)) (hi : string * I) :=
  match member hi with Some sig => add_to_group sig hi.1 acc | None => acc end.

Definition members (sig : string) (l : list (string * I)) : list string :=
  omap (λ hi, if decide (member hi = Some sig) then Some hi.1 else None) l.

Lemma elem_of_members sig l h : h ∈ members sig l ↔ ∃ i, (h, i) ∈ l ∧ member (h, i) = Some sig.
Proof.
  unfold members. rewrite list_elem_of_omap. split.
  - intros ([h' i] & Hin & E). case_decide; [|done]. injection E as <-. by exists i.
  - intros (i & Hin & E). exists (h, i). by rewrite decide_True.
Qed.

Lemma group_fold l :
  NoDup l.*1 →
  let m := foldl enter_group (∅, ∅) l in
  (∀ h sig, m.1 !! h = Some sig ↔ ∃ i, (h, i) ∈ l ∧ member (h, i) = Some sig) ∧
  (∀ sig, m.2 !! sig = match members sig l with [] => None | hs => Some hs end).
Proof.
  induction l as [|[h i] l IH] using rev_ind; intros Hnd; cbv zeta.
  { split; [|done]. intros h sig. cbn [foldl fst]. rewrite lookup_empty. split; [done|by intros (? & ?%elem_of_nil & _)]. }
  rewrite fmap_app in Hnd. apply NoDup_app in Hnd as (Hnd & Hnew & _). destruct (IH Hnd) as [I1 I2]. cbv zeta in *.
  rewrite foldl_snoc. set (m := foldl enter_group (∅, ∅) l) in *. unfold enter_group at 1 2.
  assert (∀ i', (h, i') ∉ l) as Hh.
  { intros i' Hin. apply (Hnew h); [by apply (list_elem_of_fmap_2 fst _ (h, i'))|by left]. }
  assert (∀ sig, members sig (l ++ [(h, i)]) = members sig l ++ (if decide (member (h, i) = Some sig) then [h] else [])) as Hm.
  { intros sig. unfold members. rewrite omap_app. cbn. by case_decide. }
  destruct (member (h, i)) as [sig0|] eqn:Em.
  - unfold add_to_group. cbn [fst snd]. split.
    + intros h' sig. setoid_rewrite elem_of_app. setoid_rewrite list_elem_of_singleton. destruct (decide (h' = h)) as [->|Hne].
      * rewrite lookup_insert_eq. split; [intros [= ->]; exists i; auto|]. intros (i' & [Hin|[= ->]] & E); [by apply Hh in Hin|congruence].
      * rewrite lookup_insert_ne by done. rewrite I1. split; [intros (i' & ? & ?); exists i'; auto|].
        intros (i' & [Hin|[= -> ->]] & E); [by exists i'|done].
    + intros sig. rewrite Hm. destruct (decide (sig = sig0)) as [->|Hne].
      * rewrite lookup_insert_eq, I2, decide_True by done. by destruct (members sig0 l).
      * rewrite lookup_insert_ne, decide_False, app_nil_r by congruence. apply I2.
  - split.
    + intros h' sig. rewrite I1. setoid_rewrite elem_of_app. setoid_rewrite list_elem_of_singleton. split.
      * intros (i' & ? & ?). exists i'. auto.
      * intros (i' & [Hin|[= -> ->]] & E); [by exists i'|congruence].
    + intros sig. rewrite Hm, decide_False, app_nil_r by done. apply I2.
Qed.
End groups.

Lemma prune_fold (l : list (string * list string)) (m : gmap string string * gmap string (list string)) :
  let r := foldl (λ acc sh,
    if (2 <=? length sh.2)%nat then acc
    else (match sh.2 with [hash] => delete hash acc.1 | _ => acc.1 end, delete sh.1 acc.2)) m l in
  (∀ h sig, r.1 !! h = Some sig ↔ m.1 !! h = Some sig ∧ ∀ sig', (sig', [h]) ∉ l) ∧
  (∀ sig hs, r.2 !! sig = Some hs ↔ m.2 !! sig = Some hs ∧ ∀ hs', (sig, hs') ∈ l → 2 ≤ length hs').
Proof.
  induction l as [|[s hs0] l IH] using rev_ind; cbv zeta.
  { cbn [foldl]. split; intros ? ?; (split; [intros ?; split; [done|]|by intros [? _]]); [intros ? ?%elem_of_nil|intros ? ?%elem_of_nil]; done. }
  rewrite foldl_snoc. cbv zeta in IH. set (r := foldl _ m l) in *. destruct IH as [I1 I2]. cbn [fst snd].
  destruct (Nat.leb_spec 2 (length hs0)) as [Hl|Hl].
  - split.
    + intros h sig. rewrite I1. split; (intros [Hm Hn]; split; [done|]); intros sig' Hin.
      * apply elem_of_app in Hin as [Hin|[= -> <-]%list_elem_of_singleton]; [by apply (Hn sig')|cbn in Hl; lia].
      * apply (Hn sig'), elem_of_app. by left.
    + intros sig hs. rewrite I2. split; (intros [Hm Hn]; split; [done|]); intros hs' Hin.
      * apply elem_of_app in Hin as [Hin|[= -> ->]%list_elem_of_singleton]; [by apply Hn|lia].
      * apply Hn, elem_of_app. by left.
  - cbn [fst snd]. split.
    + intros h sig. destruct hs0 as [|h0 [|]]; [| |cbn in Hl; lia].
      * rewrite I1. split; (intros [Hm Hn]; split; [done|]); intros sig' Hin.
        -- apply elem_of_app in Hin as [Hin|[= -> [=]]%list_elem_of_singleton]. by apply (Hn sig').
        -- apply (Hn sig'), elem_of_app. by left.
      * rewrite lookup_delete_Some, I1. split.
        -- intros (Hne & Hm & Hn). split; [done|]. intros sig' [Hin|[= -> ->]%list_elem_of_singleton]%elem_of_app; [by apply (Hn sig')|done].
        -- intros [Hm Hn]. split_and!; [|done|intros sig' Hin; apply (Hn sig'), elem_of_app; by left].
           intros ->. apply (Hn s), elem_of_app. right. by left.
    + intros sig hs. rewrite lookup_delete_Some, I2. split.
      * intros (Hne & Hm & Hn). split; [done|]. intros hs' [Hin|[= -> ->]%list_elem_of_singleton]%elem_of_app; [by apply Hn|done].
      * intros [Hm Hn]. split_and!; [|done|intros hs' Hin; apply Hn, elem_of_app; by left].
        intros ->. assert (2 ≤ length hs0) by (apply Hn, elem_of_app; right; by left). lia.
Qed.

(** Two torrents are in a group together exactly when they enter with the same
    signature. *)
Lemma group_copies {I} (member : string * I → option string) (order : MapRange) (l : list (string * I)) idx h h' :
  NoDup l.*1 →
  pruneSingletonHardlinkGroups order (foldl (enter_group member) (∅, ∅) l) = (DeleteSafeSignatureByHash idx, DeleteSafeGroupBySignature idx) →
  h' ∈ GetHardlinkCopies idx h ↔
  h' ≠ h ∧ ∃ sig i i', (h, i) ∈ l ∧ member (h, i) = Some sig ∧ (h', i') ∈ l ∧ member (h', i') = Some sig.
Proof.
  intros Hnd Hp. pose proof (group_fold member l Hnd) as [G1 G2]. cbv zeta in *. set (m := foldl (enter_group member) (∅, ∅) l) in *.
  unfold pruneSingletonHardlinkGroups in Hp. pose proof (prune_fold (range order 2 m.2) m) as [P1 P2]. cbv zeta in *.
  rewrite Hp in P1, P2. cbn [fst snd] in *. setoid_rewrite elem_of_range in P1. setoid_rewrite elem_of_range in P2.
  assert (∀ sig, is_Some (m.2 !! sig) → m.2 !! sig = Some (members member sig l)) as Hg.
  { intros sig [hs Hs]. rewrite G2 in *. destruct (members member sig l); [done|done]. }
  assert (∀ h1 h2 sig i1 i2, h1 ≠ h2 → (h1, i1) ∈ l → member (h1, i1) = Some sig → (h2, i2) ∈ l → member (h2, i2) = Some sig →
    m.2 !! sig = Some (members member sig l) ∧ 2 ≤ length (members member sig l)) as Htwo.
  { intros h1 h2 sig i1 i2 Hne H1 E1 H2 E2.
    assert (h1 ∈ members member sig l) as Hm1 by (apply elem_of_members; by exists i1).
    assert (h2 ∈ members member sig l) as Hm2 by (apply elem_of_members; by exists i2).
    rewrite G2. destruct (members member sig l) as [|a [|b hs]]; [by apply elem_of_nil in Hm1| |split; [done|cbn; lia]].
    apply list_elem_of_singleton in Hm1, Hm2. congruence. }
  unfold GetHardlinkCopies. split.
  - destruct (DeleteSafeSignatureByHash idx !! h) as [sig|] eqn:Es; [|by intros ?%elem_of_nil]. apply P1 in Es as [Es _].
    destruct (DeleteSafeGroupBySignature idx !! sig) as [hs|] eqn:Eg; cbn [default from_option id]; [|by intros ?%elem_of_nil].
    apply P2 in Eg as [Eg Hlen]. assert (2 ≤ length hs) as Hl by by apply Hlen. destruct (Nat.leb_spec (length hs) 1); [lia|].
    intros [Hne Hin]%list_elem_of_filter. split; [done|]. rewrite Hg in Eg by (by eexists). injection Eg as <-.
    apply elem_of_members in Hin as (i' & ? & ?). apply G1 in Es as (i & ? & ?). by exists sig, i, i'.
  - intros (Hne & sig & i & i' & Hin & E & Hin' & E'). destruct (Htwo h h' sig i i') as [Hs Hl]; [done..|].
    assert (DeleteSafeSignatureByHash idx !! h = Some sig) as ->.
    { apply P1. split; [apply G1; by exists i|]. intros sig' Hs'. rewrite Hg in Hs' by (by eexists). injection Hs' as Hs'.
      assert (h ∈ members member sig' l) as (j & Hj & Ej)%elem_of_members by (rewrite Hs'; by left).
      assert (Some sig = Some sig') as [= <-].
      { rewrite <- E, <- Ej. by rewrite (NoDup_key_inj fst l (h, i) (h, j) Hnd Hin Hj eq_refl). }
      rewrite Hs' in Hl. cbn in Hl. lia. }
    assert (DeleteSafeGroupBySignature idx !! sig = Some (members member sig l)) as ->.
    { apply P2. split; [done|]. intros hs' Hs'. rewrite Hs in Hs'. by injection Hs' as <-. }
    cbn [default from_option id]. destruct (Nat.leb_spec (length (members member sig l)) 1); [lia|].
    apply list_elem_of_filter. split; [done|]. apply elem_of_members. by exists i'.
Qed.

(** ** Signatures *)

#[export] Instance id_le_total : Total id_le.
Proof. intros f g. unfold id_le, FileID_Less. repeat case_match; lia. Qed.
#[export] Instance id_le_trans : Transitive id_le.
Proof. intros f g h. unfold id_le, FileID_Less. repeat case_match; lia. Qed.
#[export] Instance id_le_antisymm : AntiSymm (=) id_le.
Proof. intros [d i] [d' i']. unfold id_le, FileID_Less. cbn. repeat case_match; intros; f_equal; lia. Qed.

Lemma sorted_ids_perm l l' : sorted_ids l = sorted_ids l' ↔ l ≡ₚ l'.
Proof.
  unfold sorted_ids. split; intros E.
  - rewrite <- (merge_sort_Permutation id_le l), E. apply merge_sort_Permutation.
  - apply (StronglySorted_unique id_le); [apply (StronglySorted_merge_sort id_le)..|]. by rewrite !merge_sort_Permutation.
Qed.

Lemma fillBytes_inj l l' : Forall id_ok l → Forall id_ok l' → concat (fillBytes <$> l) = concat (fillBytes <$> l') → l = l'.
Proof.
  intros Hl. revert l'. induction Hl as [|f l Hf Hl IH]; intros [|g l'] Hl' E; try done.
  inversion Hl' as [|?? Hg Hl'']; subst. cbn [fmap list_fmap concat] in E. apply app_inj_1 in E as [E1 E2]; [|done].
  f_equal; [|by apply IH]. apply FileID_Bytes_inj; [done|done|]. unfold FileID_Bytes. by rewrite E1.
Qed.

(** ** What the index promises *)

Section exact.
Context `{!Sha256}.
Context (faults : Faults) (fs : FS) (order : MapRange) (torrents : list Torrent) (filesByHash : gmap string (list string)).
Context (Hwf : fs_wf fs) (Hlinks : links_ok fs).

Definition files_of (hash : string) : option (list FileID) :=
  filesByHash !! hash ≫= inspected faults fs (save_path_of torrents hash).

(** The path of a file of one of the torrents, which is looked at. *)
Definition reached (q : path) : Prop :=
  ∃ hash files f, filesByHash !! hash = Some files ∧ f ∈ files ∧ reaches faults fs (save_path_of torrents hash) f (abs_path q).

Definition scanned : hardlinkBuildState := scan_all faults fs order torrents filesByHash.

Lemma scanned_spec :
  tracked_ok fs (globalFileIDMap scanned) (seenPaths scanned) ∧
  (∀ p, p ∈ seenPaths scanned ↔
     ∃ hash files f, filesByHash !! hash = Some files ∧ f ∈ files ∧ reaches faults fs (save_path_of torrents hash) f p ∧ linked_path fs p) ∧
  (∀ hash info, torrentInfoByHash scanned !! hash = Some info →
     ∃ files, filesByHash !! hash = Some files ∧ describes faults fs (save_path_of torrents hash) files info) ∧
  (∀ hash files, filesByHash !! hash = Some files → is_Some (torrentInfoByHash scanned !! hash)).
Proof.
  unfold scanned, scan_all. destruct (scan_all_spec faults fs Hwf Hlinks torrents (range order 0 filesByHash)) as (H1 & H2 & H3 & H4).
  { apply NoDup_range. }
  setoid_rewrite elem_of_range in H3. setoid_rewrite elem_of_range in H4. split; [exact H1|]. split; [|split; [exact H3|exact H4]].
  intros p. rewrite H2. split.
  - intros ([hash files] & f & Hin%elem_of_range & ?). by exists hash, files, f.
  - intros (hash & files & f & Hin & ?). exists (hash, files), f. split; [by apply elem_of_range|done].
Qed.

(** A torrent whose files were all looked at, and has some. *)
Lemma known_files_of hash ids :
  (∃ info, torrentInfoByHash scanned !! hash = Some info ∧ known_files info = true ∧ fo_fileIDs info = ids) ↔ files_of hash = Some ids ∧ ids ≠ [].
Proof.
  destruct scanned_spec as (_ & _ & H3 & H4). unfold files_of, known_files. split.
  - intros (info & Hi & [Ha Hn%negb_true_iff%bool_decide_eq_false]%andb_true_iff & <-).
    destruct (H3 _ _ Hi) as (files & -> & Hd & _). split; [|done]. cbn. by apply Hd.
  - intros [Hf Hne]. destruct (filesByHash !! hash) as [files|] eqn:Ef; [|done]. cbn in Hf. destruct (H4 _ _ Ef) as [info Hi].
    destruct (H3 _ _ Hi) as (files' & Ef' & Hd & _). assert (files' = files) as -> by congruence. apply Hd in Hf as [Ha <-].
    exists info. split_and!; [done| |done]. rewrite Ha. by rewrite bool_decide_false.
Qed.

(** Each identity of a torrent is that of a path that was looked at. *)
Lemma file_id_path hash ids id : files_of hash = Some ids → id ∈ ids → ∃ q, q ∈ links fs id ∧ reached q ∧ (shared_id fs id → abs_path q ∈ seenPaths scanned).
Proof.
  unfold files_of. intros Hf Hin. destruct (filesByHash !! hash) as [files|] eqn:Ef; [|done]. cbn in Hf. unfold inspected in Hf.
  destruct (bool_decide _ || _) eqn:Es; [done|]. apply orb_false_iff in Es as [Hne%bool_decide_eq_false Habs%negb_false_iff].
  destruct (forallb _ _); [|done]. injection Hf as <-. apply list_elem_of_In, in_concat in Hin as (l & Hl%list_elem_of_In & Hid%list_elem_of_In).
  apply list_elem_of_omap in Hl as (f & Hf & El). unfold file_ids in El. set (p := buildFullPath _ f) in *.
  destruct (isPathInsideBase _ p) eqn:Ein; [|done]. cbn [negb] in El. destruct (Lstat faults fs (to_path p)) as [[[fi|]| |]|] eqn:Els; try done;
    injection El as <-; try by apply elem_of_nil in Hid. apply list_elem_of_singleton in Hid as ->.
  pose proof (Lstat_inl _ _ _ _ Els) as Hp. destruct (buildFullPath_canonical (save_path_of torrents hash) f Habs) as (cs & Hcs & Ep). fold p in Ep.
  assert (reaches faults fs (save_path_of torrents hash) f (abs_path cs)) as Hr.
  { rewrite <- Ep. split_and!; try done. by eexists. }
  exists cs. assert (to_path p = cs) as Ecs by (rewrite Ep; by apply to_path_abs). rewrite Ecs in *. split_and!.
  - apply elem_of_links. by exists fi.
  - by exists hash, files, f.
  - intros Hs. apply scanned_spec. exists hash, files, f. split_and!; [done|done|done|]. exists fi. rewrite to_path_abs by done. split; [done|].
    apply (linked_shared fs Hlinks (abs_path cs) (id_of fi)) in Hs as (fi' & Hfi' & ?); [|unfold id_at; by rewrite to_path_abs, Hp].
    rewrite to_path_abs in Hfi' by done. congruence.
Qed.

(** Whether the tracker of a file says that links are missing. *)
Lemma tracked_files hash ids id : files_of hash = Some ids → id ∈ ids →
  match globalFileIDMap scanned !! id with
  | Some t => shared_id fs id ∧ (1 < tk_nlink t)%Z ∧ (in_deficit t = false ↔ ∀ q, q ∈ links fs id → reached q)
  | None => ¬ shared_id fs id ∧ ∀ q, q ∈ links fs id → reached q
  end.
Proof.
  intros Hf Hin. destruct (file_id_path hash ids id Hf Hin) as (q0 & Hq0 & Hr0 & Hs0). destruct scanned_spec as (Hok & Hseen & _).
  destruct (globalFileIDMap scanned !! id) as [t|] eqn:Et.
  - destruct (proj2 Hok id t Et) as (Hn & Hgt & _). assert (shared_id fs id) as Hsh by (unfold shared_id; lia).
    split; [done|]. split; [done|]. rewrite (deficit_spec fs Hwf Hlinks _ _ _ _ Hok Et).
    assert (∀ q, q ∈ links fs id → abs_path q ∈ seenPaths scanned ↔ reached q) as Hiff; [|split; intros Ha q Hq; apply Hiff; auto].
    intros q Hq. rewrite Hseen. unfold reached. split; [intros (hash' & files & f & ? & ? & ? & ?); by exists hash', files, f|].
    intros (hash' & files & f & ? & ? & ?). exists hash', files, f. split_and!; try done.
    apply (linked_shared fs Hlinks (abs_path q) id); [|done]. apply id_at_links. rewrite to_path_abs; [done|].
    apply elem_of_links in Hq as (fi & Hq & _). by eapply (proj1 Hwf).
  - assert (¬ shared_id fs id) as Hsh.
    { intros Hs. destruct (proj1 Hok _ (Hs0 Hs)) as (_ & id' & Hid' & [? ?]). apply id_at_links in Hid'.
      rewrite to_path_abs in Hid' by (apply elem_of_links in Hq0 as (fi & Hq & _); by eapply (proj1 Hwf)).
      apply elem_of_links in Hid' as (fi & Hfi & <-), Hq0 as (fi' & Hfi' & <-). congruence. }
    split; [done|]. intros q Hq. unfold shared_id in Hsh. assert (q = q0) as ->; [|done].
    destruct (decide (q = q0)) as [|Hne]; [done|]. exfalso. apply Hsh.
    assert (({[q; q0]} : gset path) ⊆ links fs id) as Hsub by set_solver. apply subseteq_size in Hsub.
    rewrite size_union, !size_singleton in Hsub by set_solver. lia.
Qed.

Lemma scope_of_spec ids scope l :
  (∀ id t, id ∈ l → ids !! id = Some t → (1 < tk_nlink t)%Z) →
  scope_of ids scope l =
    if existsb (λ id, match ids !! id with Some t => in_deficit t | None => false end) l then HardlinkScopeOutsideQBitTorrent
    else if existsb (λ id, bool_decide (is_Some (ids !! id))) l then HardlinkScopeTorrentsOnly else scope.
Proof.
  revert scope. induction l as [|id l IH]; intros scope Hl; [done|]. cbn [scope_of existsb].
  assert (∀ id' t, id' ∈ l → ids !! id' = Some t → (1 < tk_nlink t)%Z) as Hl' by (intros ???; apply Hl; by right).
  destruct (ids !! id) as [t|] eqn:Et; [|rewrite bool_decide_false by (by intros [? ?]); by apply IH].
  assert (1 < tk_nlink t)%Z as Hn by (apply (Hl id); [by left|done]). destruct (Z.leb_spec (tk_nlink t) 1); [lia|].
  rewrite bool_decide_true by (by eexists). unfold in_deficit at 1. destruct (tk_uniquePathCount t <? tk_nlink t)%Z; cbn [orb]; [done|].
  rewrite IH by done. destruct (existsb _ l); [done|]. by destruct (existsb _ l).
Qed.

(** Every link to a file of the torrent is reached. *)
Definition closed (ids : list FileID) : Prop := ∀ id q, id ∈ ids → q ∈ links fs id → reached q.

Lemma scope_for_spec hash ids info :
  torrentInfoByHash scanned !! hash = Some info → known_files info = true → fo_fileIDs info = ids →
  let scope := scope_for (globalFileIDMap scanned) info in
  (scope ≠ HardlinkScopeOutsideQBitTorrent ↔ closed ids) ∧
  (scope = HardlinkScopeNone ↔ ∀ id, id ∈ ids → ¬ shared_id fs id) ∧
  (scope = HardlinkScopeNone ∨ scope = HardlinkScopeTorrentsOnly ∨ scope = HardlinkScopeOutsideQBitTorrent).
Proof.
  intros Hi Hk Hids. destruct (proj1 (known_files_of hash ids)) as [Hf Hne]; [by exists info|].
  assert (∀ id, id ∈ ids → match globalFileIDMap scanned !! id with
    | Some t => shared_id fs id ∧ (1 < tk_nlink t)%Z ∧ (in_deficit t = false ↔ ∀ q, q ∈ links fs id → reached q)
    | None => ¬ shared_id fs id ∧ ∀ q, q ∈ links fs id → reached q end) as Ht by (intros id; by apply (tracked_files hash)).
  cbv zeta. unfold scope_for. rewrite scope_of_spec, Hids; [|intros id t Hin Et; rewrite Hids in Hin; specialize (Ht id Hin); rewrite Et in Ht; tauto].
  set (deficit := λ id, match globalFileIDMap scanned !! id with Some t => in_deficit t | None => false end).
  assert (∀ id, id ∈ ids → deficit id = false ↔ ∀ q, q ∈ links fs id → reached q) as Hdef.
  { intros id Hin. specialize (Ht id Hin). unfold deficit. destruct (globalFileIDMap scanned !! id); tauto. }
  assert (existsb deficit ids = false ↔ closed ids) as Hclosed.
  { rewrite <- not_true_iff_false, existsb_exists. setoid_rewrite <- list_elem_of_In. split.
    - intros Hno id q Hin. apply Hdef; [done|]. apply not_true_iff_false. intros E. apply Hno. by exists id.
    - intros Hc (id & Hin & E). assert (deficit id = false) by (apply Hdef; [done|]; intros q; by apply Hc). congruence. }
  assert (existsb (λ id, bool_decide (is_Some (globalFileIDMap scanned !! id))) ids = false ↔ ∀ id, id ∈ ids → ¬ shared_id fs id) as Hsh.
  { rewrite <- not_true_iff_false, existsb_exists. setoid_rewrite <- list_elem_of_In. setoid_rewrite bool_decide_eq_true. split.
    - intros Hno id Hin Hs. apply Hno. exists id. split; [done|]. specialize (Ht id Hin). destruct (globalFileIDMap scanned !! id); [by eexists|tauto].
    - intros Hs (id & Hin & [t Et]). specialize (Ht id Hin). rewrite Et in Ht. by apply (Hs id); [|apply Ht]. }
  destruct (existsb deficit ids).
  - split_and!; [split; [done|intros Hc; by apply Hclosed in Hc]| |by right; right]. split; [done|]. intros Hs. exfalso.
    assert (true = false) as [=]. apply Hclosed. intros id q Hin. specialize (Ht id Hin). specialize (Hs id Hin).
    destruct (globalFileIDMap scanned !! id); [tauto|]. by apply Ht.
  - destruct (existsb _ ids).
    + split_and!; [split; [by intros _; apply Hclosed|done]| |by right; left]. split; [done|]. intros Hs. by apply Hsh in Hs.
    + split_and!; [split; [by intros _; apply Hclosed|done]| |by left]. split; [by intros _; apply Hsh|done].
Qed.

(** The identities in a torrent are those of files. *)
Lemma files_of_ok hash ids : files_of hash = Some ids → Forall id_ok ids.
Proof.
  intros Hf. apply Forall_forall. intros id Hin. destruct (file_id_path hash ids id Hf Hin) as (q & (fi & Hq & <-)%elem_of_links & _).
  by apply (Hlinks q).
Qed.

(** Sums of different lists of files of the torrents differ. *)
Definition no_collision : Prop := ∀ h h' ids ids', files_of h = Some ids → files_of h' = Some ids' →
  Sum256 (concat (fillBytes <$> sorted_ids ids)) = Sum256 (concat (fillBytes <$> sorted_ids ids')) →
  concat (fillBytes <$> sorted_ids ids) = concat (fillBytes <$> sorted_ids ids').

Lemma signature_spec h h' ids ids' : no_collision → files_of h = Some ids → files_of h' = Some ids' → ids ≠ [] → ids' ≠ [] →
  computeFileIDSignature ids = computeFileIDSignature ids' ↔ ids ≡ₚ ids'.
Proof.
  intros Hnc Hf Hf' Hne Hne'. rewrite <- sorted_ids_perm. destruct ids as [|i ids]; [done|]. destruct ids' as [|i' ids']; [done|].
  unfold computeFileIDSignature. split; [|by intros ->]. intros E%(Hnc h h'); [|done..]. apply fillBytes_inj in E; [done| |];
    unfold sorted_ids; rewrite merge_sort_Permutation; by eapply files_of_ok.
Qed.

(** A torrent that enters the groups that are safe to delete. *)
Definition safe_member (hi : string * torrentFileInfo) : option string :=
  if known_files hi.2 && fo_hasHardlinks hi.2 &&
     negb (bool_decide (scope_for (globalFileIDMap scanned) hi.2 = HardlinkScopeOutsideQBitTorrent))
  then Some (computeFileIDSignature (fo_fileIDs hi.2)) else None.

Lemma gs_safe_fold l acc :
  gs_safe (foldl (link_torrent (globalFileIDMap scanned)) acc l) = foldl (enter_group safe_member) (gs_safe acc) l.
Proof.
  revert acc. induction l as [|[hash info] l IH]; intros acc; [done|]. cbn [foldl]. rewrite IH. f_equal.
  unfold link_torrent, enter_group, safe_member. cbn [fst snd].
  destruct (known_files info); [|done]. destruct (fo_hasHardlinks info); [|done]. cbn [negb andb gs_safe]. by destruct (bool_decide _).
Qed.

Lemma safe_member_spec hash sig :
  (∃ info, torrentInfoByHash scanned !! hash = Some info ∧ safe_member (hash, info) = Some sig) ↔
  ∃ ids, files_of hash = Some ids ∧ sig = computeFileIDSignature ids ∧ (∃ id, id ∈ ids ∧ shared_id fs id) ∧ closed ids.
Proof.
  destruct scanned_spec as (_ & _ & H3 & _). unfold safe_member. cbn [snd]. split.
  - intros (info & Hi & E). destruct (known_files info) eqn:Ek; [|done]. destruct (fo_hasHardlinks info) eqn:Eh; [|done]. cbn [andb] in E.
    case_bool_decide as Hs; [done|]. injection E as <-. exists (fo_fileIDs info).
    destruct (proj1 (known_files_of hash (fo_fileIDs info))) as [Hf Hne]; [by exists info|].
    destruct (H3 _ _ Hi) as (files & _ & _ & Hh). apply andb_true_iff in Ek as Ha. destruct Ha as [Ha _].
    split_and!; [done|done|by apply Hh|]. by apply (scope_for_spec hash _ info).
  - intros (ids & Hf & -> & Hsh & Hc). destruct (proj2 (known_files_of hash ids)) as (info & Hi & Hk & <-).
    { split; [done|]. destruct Hsh as (id & Hin & _). by intros ->; apply elem_of_nil in Hin. }
    exists info. split; [done|]. rewrite Hk. destruct (H3 _ _ Hi) as (files & _ & _ & Hh). apply andb_true_iff in Hk as Ha. destruct Ha as [Ha _].
    rewrite (proj2 (Hh Ha)) by done. cbn [andb]. rewrite bool_decide_false; [done|]. by apply (scope_for_spec hash (fo_fileIDs info) info).
Qed.

(** C2. The copies of a torrent in the index are exactly the other torrents whose
    files were all looked at and are the same files, of which some is linked
    more than once, and such that every link to any of them in the file system
    is a file of a torrent of the instance: what is deleted with a torrent has
    no link outside. *)
Theorem hardlink_copies_exact (digest : string) (retain : bool) (now : Z) (h h' : string) :
  no_collision →
  h' ∈ GetHardlinkCopies (index_of faults fs order torrents filesByHash digest retain now) h ↔
  h' ≠ h ∧ ∃ ids ids', files_of h = Some ids ∧ files_of h' = Some ids' ∧ ids ≡ₚ ids' ∧ (∃ id, id ∈ ids ∧ shared_id fs id) ∧ closed ids.
Proof.
  intros Hnc. set (idx := index_of _ _ _ _ _ _ _ _).
  rewrite (group_copies safe_member order (range order 1 (torrentInfoByHash scanned)) idx); [|apply NoDup_range|].
  2:{ pose proof (gs_safe_fold (range order 1 (torrentInfoByHash scanned)) (MkGroups ∅ (∅, ∅) (∅, ∅))) as Eg. cbn [gs_safe] in Eg.
      rewrite <- Eg. unfold idx, index_of. fold scanned.
      destruct (pruneSingletonHardlinkGroups order (gs_all _)) as [? ?]. by destruct (pruneSingletonHardlinkGroups order (gs_safe _)) as [? ?]. }
  setoid_rewrite elem_of_range. split.
  - intros (Hne & sig & i & i' & Hi & E & Hi' & E'). split; [done|].
    destruct (proj1 (safe_member_spec h sig)) as (ids & Hf & Es & Hsh & Hc); [by exists i|].
    destruct (proj1 (safe_member_spec h' sig)) as (ids' & Hf' & Es' & Hsh' & _); [by exists i'|].
    exists ids, ids'. split_and!; try done. apply (signature_spec h h'); try done; [..|congruence].
    + intros ->. destruct Hsh as (? & ?%elem_of_nil & _). done.
    + intros ->. destruct Hsh' as (? & ?%elem_of_nil & _). done.
  - intros (Hne & ids & ids' & Hf & Hf' & Hp & (id & Hin & Hs) & Hc). split; [done|].
    destruct (proj2 (safe_member_spec h (computeFileIDSignature ids))) as (i & Hi & E).
    { exists ids. split_and!; try done. by exists id. }
    destruct (proj2 (safe_member_spec h' (computeFileIDSignature ids'))) as (i' & Hi' & E').
    { exists ids'. split_and!; try done; [exists id; by rewrite <- Hp|]. intros id' q. rewrite <- Hp. apply Hc. }
    exists (computeFileIDSignature ids), i, i'. split_and!; try done. rewrite E'. f_equal. symmetry.
    apply (signature_spec h h'); try done; intros ->; [by apply elem_of_nil in Hin|].
    apply Permutation_nil_r in Hp as ->. by apply elem_of_nil in Hin.
Qed.

Lemma scopes_fold l acc h sc :
  NoDup l.*1 →
  gs_scopes (foldl (link_torrent (globalFileIDMap scanned)) acc l) !! h = Some sc ↔
  (∃ info, (h, info) ∈ l ∧ known_files info = true ∧ sc = scope_for (globalFileIDMap scanned) info) ∨
  gs_scopes acc !! h = Some sc ∧ ∀ info, (h, info) ∈ l → known_files info = false.
Proof.
  revert acc. induction l as [|[hash info] l IH]; intros acc Hnd; cbn [foldl].
  { split; [intros ?; right; split; [done|by intros ? ?%elem_of_nil]|]. by intros [(? & ?%elem_of_nil & _)|[? _]]. }
  cbn [fmap list_fmap fst] in Hnd. apply NoDup_cons in Hnd as [Hn Hnd].
  assert (∀ i, (hash, i) ∉ l) as Hl by (intros i Hin; apply Hn; by apply (list_elem_of_fmap_2 fst _ (hash, i))).
  assert (gs_scopes (link_torrent (globalFileIDMap scanned) acc (hash, info)) =
    if known_files info then <[hash := scope_for (globalFileIDMap scanned) info]> (gs_scopes acc) else gs_scopes acc) as Eg.
  { unfold link_torrent. destruct (known_files info); [|done]. cbn [negb]. by destruct (fo_hasHardlinks info). }
  rewrite (IH _ Hnd), Eg. clear IH Eg. destruct (decide (h = hash)) as [->|Hne].
  - destruct (known_files info) eqn:Ek.
    + rewrite lookup_insert_eq. split.
      * intros [(i & Hi & _)|[[= <-] _]]; [by apply Hl in Hi|]. left. exists info. split; [by left|done].
      * intros [(i & [[= ->]|Hi]%elem_of_cons & _ & ->)|[_ Ha]]; [right; split; [done|intros i Hi; by apply Hl in Hi]|by apply Hl in Hi|].
        rewrite (Ha info) in Ek; [done|by left].
    + split.
      * intros [(i & Hi & _)|[Hacc _]]; [by apply Hl in Hi|]. right. split; [done|]. intros i [[= ->]|Hi]%elem_of_cons; [done|by apply Hl in Hi].
      * intros [(i & [[= ->]|Hi]%elem_of_cons & ? & _)|[Hacc _]]; [congruence|by apply Hl in Hi|]. right. split; [done|]. intros i Hi. by apply Hl in Hi.
  - assert (∀ i, (h, i) ∈ (hash, info) :: l ↔ (h, i) ∈ l) as Hin.
    { intros i. rewrite elem_of_cons. split; [intros [[= -> ->]|?]; done|by right]. }
    setoid_rewrite Hin. destruct (known_files info); [rewrite lookup_insert_ne by done|]; done.
Qed.

Lemma scopes_spec digest retain now h sc :
  ScopeByHash (index_of faults fs order torrents filesByHash digest retain now) !! h = Some sc ↔
  ∃ info, torrentInfoByHash scanned !! h = Some info ∧ known_files info = true ∧ sc = scope_for (globalFileIDMap scanned) info.
Proof.
  assert (ScopeByHash (index_of faults fs order torrents filesByHash digest retain now) =
    gs_scopes (foldl (link_torrent (globalFileIDMap scanned)) (MkGroups ∅ (∅, ∅) (∅, ∅)) (range order 1 (torrentInfoByHash scanned)))) as ->.
  { unfold index_of. fold scanned. destruct (pruneSingletonHardlinkGroups order (gs_all _)) as [? ?].
    by destruct (pruneSingletonHardlinkGroups order (gs_safe _)) as [? ?]. }
  rewrite scopes_fold by apply NoDup_range. setoid_rewrite elem_of_range. cbn [gs_scopes]. rewrite lookup_empty. split; [|by left].
  by intros [?|[? _]].
Qed.

Lemma computeScopeMap_spec st h sc :
  computeScopeMap st !! h = Some sc ↔
  ∃ info, torrentInfoByHash st !! h = Some info ∧ known_files info = true ∧ sc = scope_for (globalFileIDMap st) info.
Proof.
  unfold computeScopeMap. rewrite lookup_fmap_Some. setoid_rewrite map_lookup_filter_Some. cbn. naive_solver.
Qed.

(** C9. A torrent has a scope exactly when its files were all looked at and it has
    some; the scope is [outside_qbittorrent] unless every link to its files is a
    file of a torrent, and [none] exactly when none of its files has a second
    link. *)
Theorem hardlink_scope_exact (digest : string) (retain : bool) (now : Z) (h : string) :
  let idx := index_of faults fs order torrents filesByHash digest retain now in
  (is_Some (ScopeByHash idx !! h) ↔ ∃ ids, files_of h = Some ids ∧ ids ≠ []) ∧
  ∀ ids, files_of h = Some ids → ids ≠ [] →
    (GetHardlinkScope idx h ≠ HardlinkScopeOutsideQBitTorrent ↔ closed ids) ∧
    (GetHardlinkScope idx h = HardlinkScopeNone ↔ ∀ id, id ∈ ids → ¬ shared_id fs id) ∧
    (GetHardlinkScope idx h = HardlinkScopeNone ∨ GetHardlinkScope idx h = HardlinkScopeTorrentsOnly ∨
     GetHardlinkScope idx h = HardlinkScopeOutsideQBitTorrent).
Proof.
  cbv zeta. split.
  - split.
    + intros [sc (info & Hi & Hk & _)%scopes_spec]. exists (fo_fileIDs info). apply known_files_of. by exists info.
    + intros (ids & Hids). apply known_files_of in Hids as (info & Hi & Hk & _). eexists. apply scopes_spec. by exists info.
  - intros ids Hf Hne. destruct (proj2 (known_files_of h ids)) as (info & Hi & Hk & Hids); [done|].
    unfold GetHardlinkScope. rewrite (proj2 (scopes_spec digest retain now h _)) by by exists info. cbn [default from_option id].
    by apply (scope_for_spec h).
Qed.

(** *** Other instances *)

Context (others : list other_instance).

Definition save_in (views : list (string * string)) (hash : string) : string :=
  default "" ((foldl (λ m v, <[v.1 := v.2]> m) ∅ views : gmap string string) !! hash).

(** A path of a file of a torrent of another instance. *)
Definition elsewhere (p : string) : Prop :=
  ∃ other views files hash fl name, other ∈ others ∧ ot_views other = Some views ∧ ot_files other = Some files ∧
    files !! hash = Some fl ∧ name ∈ fl ∧ reaches faults fs (save_in views hash) name p.

Record cross_ok (st : cross_state) : Prop := {
  co_tracked : tracked_ok fs (cr_ids st) (cr_seen st);
  co_seen : ∀ p, p ∈ seenPaths scanned → p ∈ cr_seen st;
  co_found p : p ∈ cr_seen st → p ∈ seenPaths scanned ∨ elsewhere p;
  co_ids id : is_Some (cr_ids st !! id) ↔ is_Some (globalFileIDMap scanned !! id) }.

Lemma cross_file_ok save name st :
  save ≠ "" → IsAbs save = true → (∀ p, reaches faults fs save name p → elsewhere p) → cross_ok st →
  cross_ok (cross_file faults fs save st name).
Proof.
  intros Hne Habs Hels [H1 H2 H3 H4]. unfold cross_file. set (p := buildFullPath save name).
  assert (canonical p) as Hc by by apply buildFullPath_canonical.
  destruct (isPathInsideBase save p) eqn:Ein; cbn [negb]; [|by split]. case_bool_decide as Hseen; [by split|].
  destruct (Lstat faults fs (to_path p)) as [[[fi|]| |]|] eqn:El; try by split. case_bool_decide; [|by split].
  unfold found_link. cbn [cr_ids cr_seen count_call]. destruct (cr_ids st !! id_of fi) as [t|] eqn:Et; [|by split].
  pose proof (Lstat_inl _ _ _ _ El) as Hp. split; cbn [cr_ids cr_seen].
  - apply (tracked_add fs Hwf Hlinks _ _ p (id_of fi) t (MkIDTracker 0 0)); [done|done| |done|by rewrite Et|by rewrite Et].
    unfold id_at. by rewrite Hp.
  - intros q Hq. apply elem_of_union. right. by apply H2.
  - intros q [->%elem_of_singleton|Hq]%elem_of_union; [|by apply H3]. right. apply Hels. split_and!; try done. by eexists.
  - intros id. rewrite <- H4. destruct (decide (id = id_of fi)) as [->|]; [by rewrite lookup_insert_eq, Et; split; eexists|by rewrite lookup_insert_ne].
Qed.

Lemma cross_files_ok save files st :
  save ≠ "" → IsAbs save = true → (∀ name p, name ∈ files → reaches faults fs save name p → elsewhere p) → cross_ok st →
  cross_ok (cross_files faults fs save files st).
Proof.
  intros Hne Habs. revert st. induction files as [|f files IH]; intros st Hels Hok; [done|]. cbn [cross_files]. destruct (cross_done st); [done|].
  apply IH; [intros name p Hin; apply Hels; by right|]. apply cross_file_ok; [done|done| |done]. intros p. apply Hels. by left.
Qed.

Lemma cross_torrents_ok saves l st :
  (∀ hash fl name p, (hash, fl) ∈ l → name ∈ fl → reaches faults fs (default "" (saves !! hash)) name p → elsewhere p) → cross_ok st →
  cross_ok (cross_torrents faults fs saves l st).
Proof.
  revert st. induction l as [|[hash fl] l IH]; intros st Hels Hok; [done|]. cbn [cross_torrents]. destruct (cross_done st); [done|].
  apply IH; [intros h fl' name p Hin; apply Hels; by right|]. destruct (bool_decide _ || _) eqn:Es; [done|].
  apply orb_false_iff in Es as [Hne%bool_decide_eq_false Habs%negb_false_iff].
  apply cross_files_ok; [done|done| |done]. intros name p. apply Hels. by left.
Qed.

Lemma scan_others_ok canceled n l st :
  (∀ other, other ∈ l → other ∈ others) → cross_ok st → cross_ok (scanOtherInstancesForDeficits faults fs order canceled n l st).
Proof.
  revert n st. induction l as [|other l IH]; intros n st Hl Hok; [done|]. cbn [scanOtherInstancesForDeficits].
  destruct (canceled n || cross_done st); [done|]. apply IH; [intros o Ho; apply Hl; by right|].
  destruct (ot_views other) as [views|] eqn:Ev; [|done]. destruct (ot_files other) as [files|] eqn:Ef; [|done].
  apply cross_torrents_ok; [|done]. intros hash fl name p Hin%elem_of_range Hname Hr.
  exists other, views, files, hash, fl, name. split_and!; try done. apply Hl. by left.
Qed.

Lemma start_ok deficit : cross_ok (MkCross (globalFileIDMap scanned) (seenPaths scanned) deficit 0 0).
Proof. split; cbn; [apply scanned_spec|done|by left|done]. Qed.

(** C8. Looking at other instances only ever finds missing links: a scope changes
    from [outside_qbittorrent] to [torrents_only] or not at all, and a torrent
    with another scope than [outside_qbittorrent] has no link that is not a file
    of a torrent of this or another instance. *)
Theorem cross_scope_sound (digest : string) (now : Z) (listed : bool) (canceled : nat → bool) (aborted : bool) (h : string) (ids : list FileID) :
  let idx := index_of faults fs order torrents filesByHash digest true now in
  let idx' := augmentCrossInstanceScope faults fs order (if listed then Some others else None) canceled aborted idx in
  files_of h = Some ids → ids ≠ [] → GetHardlinkCrossScope idx' h ≠ "" →
  (GetHardlinkCrossScope idx' h = GetHardlinkScope idx h ∨
   GetHardlinkScope idx h = HardlinkScopeOutsideQBitTorrent ∧ GetHardlinkCrossScope idx' h = HardlinkScopeTorrentsOnly) ∧
  (GetHardlinkCrossScope idx' h ≠ HardlinkScopeOutsideQBitTorrent →
   ∀ id q, id ∈ ids → q ∈ links fs id → reached q ∨ elsewhere (abs_path q)).
Proof.
  cbv zeta. set (idx := index_of _ _ _ _ _ _ _ _). intros Hf Hne. destruct (proj2 (known_files_of h ids)) as (info & Hi & Hk & Hids); [done|].
  destruct (scope_for_spec h ids info Hi Hk Hids) as (Hclosed & _ & _). cbv zeta in *.
  assert (ScopeByHash idx !! h = Some (scope_for (globalFileIDMap scanned) info)) as Hsc by (apply scopes_spec; by exists info).
  assert (buildState idx = Some scanned) as Hb.
  { unfold idx, index_of. fold scanned. destruct (pruneSingletonHardlinkGroups order (gs_all _)) as [? ?].
    by destruct (pruneSingletonHardlinkGroups order (gs_safe _)) as [? ?]. }
  assert (CrossScopeByHash idx = None) as Hx0.
  { unfold idx, index_of. fold scanned. destruct (pruneSingletonHardlinkGroups order (gs_all _)) as [? ?].
    by destruct (pruneSingletonHardlinkGroups order (gs_safe _)) as [? ?]. }
  assert (GetHardlinkScope idx h = scope_for (globalFileIDMap scanned) info) as Hscope by (unfold GetHardlinkScope; by rewrite Hsc).
  assert (∀ idx', CrossScopeByHash idx' = Some (ScopeByHash idx) →
    (GetHardlinkCrossScope idx' h = GetHardlinkScope idx h ∨
     GetHardlinkScope idx h = HardlinkScopeOutsideQBitTorrent ∧ GetHardlinkCrossScope idx' h = HardlinkScopeTorrentsOnly) ∧
    (GetHardlinkCrossScope idx' h ≠ HardlinkScopeOutsideQBitTorrent → ∀ id q, id ∈ ids → q ∈ links fs id → reached q ∨ elsewhere (abs_path q))) as Hfin.
  { intros idx' E. unfold GetHardlinkCrossScope. rewrite E, Hsc, Hscope. cbn [default from_option id]. split; [by left|].
    intros Hn id q Hin Hq. left. by apply (proj1 Hclosed Hn id). }
  unfold augmentCrossInstanceScope. rewrite Hb. case_bool_decide; [intros _; by apply Hfin|].
  destruct listed; [|intros _; by apply Hfin]. destruct others as [|o os] eqn:Eo; [intros _; by apply Hfin|]. rewrite <- Eo.
  set (st := scanOtherInstancesForDeficits _ _ _ _ _ _ _).
  assert (cross_ok st) as [H1 H2 H3 H4] by (apply scan_others_ok; [done|apply start_ok]).
  destruct aborted; [unfold GetHardlinkCrossScope; cbn [with_cross CrossScopeByHash]; by rewrite Hx0|]. intros _.
  assert (∀ idx', CrossScopeByHash idx' = Some (computeScopeMap (MkBuild (cr_ids st) (cr_seen st) (torrentInfoByHash scanned))) →
    GetHardlinkCrossScope idx' h = scope_for (cr_ids st) info) as Hcross.
  { intros idx' E. unfold GetHardlinkCrossScope. rewrite E.
    assert (computeScopeMap (MkBuild (cr_ids st) (cr_seen st) (torrentInfoByHash scanned)) !! h = Some (scope_for (cr_ids st) info)) as ->; [|done].
    apply computeScopeMap_spec. by exists info. }
  rewrite Hcross, Hscope by done. clear Hcross Hfin. unfold scope_for in *. destruct scanned_spec as (Hok & _).
  assert (∀ ids0 seen0, tracked_ok fs ids0 seen0 → ∀ id t, id ∈ fo_fileIDs info → ids0 !! id = Some t → (1 < tk_nlink t)%Z) as Hgt.
  { intros ids0 seen0 [_ Ht] id t _ Et. by apply (Ht id). }
  rewrite (scope_of_spec (cr_ids st)), (scope_of_spec (globalFileIDMap scanned)) by (by eapply Hgt).
  assert (∀ id, match cr_ids st !! id with Some t => in_deficit t | None => false end = true →
    match globalFileIDMap scanned !! id with Some t => in_deficit t | None => false end = true) as Hmono.
  { intros id. destruct (cr_ids st !! id) as [t|] eqn:Et; [|done]. destruct (proj1 (H4 id)) as [t0 Et0]; [by eexists|]. rewrite Et0.
    intros Hd. apply not_false_iff_true. intros Hd0. apply not_false_iff_true in Hd. apply Hd, (deficit_spec fs Hwf Hlinks _ _ _ _ H1 Et).
    intros q Hq. apply H2. by apply (deficit_spec fs Hwf Hlinks _ _ _ _ Hok Et0). }
  assert (∀ l, existsb (λ id, bool_decide (is_Some (cr_ids st !! id))) l =
               existsb (λ id, bool_decide (is_Some (globalFileIDMap scanned !! id))) l) as Hsome.
  { induction l as [|id l IH]; [done|]. cbn [existsb]. rewrite IH. f_equal. apply bool_decide_ext, H4. }
  rewrite Hsome. split.
  - destruct (existsb _ (fo_fileIDs info)) eqn:Ed.
    + apply existsb_exists in Ed as (id & Hin & Hd%Hmono). rewrite (proj2 (existsb_exists _ _)) by by exists id. by left.
    + destruct (existsb (λ id, match globalFileIDMap scanned !! id with Some t => _ | None => _ end) (fo_fileIDs info)) eqn:Ed0; [|by left].
      right. split; [done|]. apply existsb_exists in Ed0 as (id & Hin & Hd). rewrite (proj2 (existsb_exists _ _)); [done|].
      exists id. split; [done|]. apply bool_decide_eq_true. by destruct (globalFileIDMap scanned !! id).
  - intros Hno id q Hin Hq. rewrite <- Hids in Hin. destruct (existsb _ (fo_fileIDs info)) eqn:Ed; [done|].
    assert (∀ p, p ∈ seenPaths scanned → to_path p = q → reached q) as Hseen.
    { intros p Hp E. apply scanned_spec in Hp as (hash & files & f & ? & ? & Hr & _). exists hash, files, f. split_and!; [done|done|].
      destruct Hr as (? & Ha & E' & ?). destruct (buildFullPath_canonical (save_path_of torrents hash) f Ha) as (cs & Hcs & Ecs).
      rewrite <- E' in Ecs. rewrite Ecs, to_path_abs in E by done. subst cs. rewrite <- Ecs. done. }
    destruct (cr_ids st !! id) as [t|] eqn:Et.
    + assert (in_deficit t = false) as Hd.
      { apply not_true_iff_false. intros Hd. apply not_true_iff_false in Ed. apply Ed, existsb_exists. exists id.
        split; [by apply list_elem_of_In|]. by rewrite Et. }
      destruct (H3 _ (proj1 (deficit_spec fs Hwf Hlinks _ _ _ _ H1 Et) Hd q Hq)) as [Hp|]; [|by right]. left. apply (Hseen _ Hp).
      apply to_path_abs. apply elem_of_links in Hq as (fi & Hq & _). by eapply (proj1 Hwf).
    + left. rewrite Hids in Hin. pose proof (tracked_files h ids id Hf Hin) as Ht.
      destruct (globalFileIDMap scanned !! id) eqn:Et0; [destruct (proj2 (H4 id)) as [? ?]; [by eexists|congruence]|]. by apply Ht.
Qed.
End exact.

(** The index that is served is for the torrents at hand, and from the cache only
    while it is fresh. *)
Lemma served_current `{!Sha256} faults fs order instanceID torrents needsCross fetch now built cache :
  let '(idx, cache') := GetHardlinkIndex faults fs order instanceID torrents needsCross fetch now built cache in
  ix_digest idx = computeTorrentSetDigest torrents ∧
  (cache !! instanceID = Some idx ∧ cache' = cache ∧ (now - builtAt idx < hardlinkIndexTTL)%Z ∨
   builtAt idx = built ∧ cache' = <[instanceID := idx]> cache ∨
   fetch = FilesFailed true ∧ cache' = cache ∧ ScopeByHash idx = ∅ ∧ ∀ h, GetHardlinkCopies idx h = []).
Proof.
  assert (∀ t, ix_digest t = computeTorrentSetDigest torrents → let '(idx, cache') := buildHardlinkIndex faults fs order instanceID torrents
    (computeTorrentSetDigest torrents) needsCross fetch built cache in
    ix_digest idx = computeTorrentSetDigest torrents ∧
    (cache !! instanceID = Some idx ∧ cache' = cache ∧ (now - builtAt idx < hardlinkIndexTTL)%Z ∨
     builtAt idx = built ∧ cache' = <[instanceID := idx]> cache ∨
     fetch = FilesFailed true ∧ cache' = cache ∧ ScopeByHash idx = ∅ ∧ ∀ h, GetHardlinkCopies idx h = [])) as Hbuild.
  { intros _ _. unfold buildHardlinkIndex. generalize (computeTorrentSetDigest torrents). intros digest.
    destruct torrents as [|t ts]; [split; [done|right; left; done]|].
    destruct fetch as [filesByHash|[|]]; [|split; [done|right; right]; split_and!; try done|split; [done|right; left; done]].
    unfold index_of. destruct (pruneSingletonHardlinkGroups order (gs_all _)) as [? ?].
    destruct (pruneSingletonHardlinkGroups order (gs_safe _)) as [? ?]. split; [done|right; left; done]. }
  specialize (Hbuild (fresh_index (computeTorrentSetDigest torrents)) eq_refl).
  unfold GetHardlinkIndex. destruct (cache !! instanceID) as [cached|] eqn:Ec; [|exact Hbuild].
  destruct (cacheValid cached _ needsCross now) eqn:Ev; [|exact Hbuild]. unfold cacheValid in Ev.
  apply andb_true_iff in Ev as [[Ht%Z.ltb_lt Hd%bool_decide_eq_true]%andb_true_iff _]. split; [done|]. by left.
Qed.

(** ** Runs *)

Section runs.
(** A sum without collisions. *)
#[local] Instance NoSum : Sha256 := {| Sum256 := of_bytes |}.

Lemma NoSum_no_collision faults fs torrents filesByHash : no_collision faults fs torrents filesByHash.
Proof. intros h h' ids ids' _ _ E. apply (f_equal to_bytes) in E. cbn in E. by rewrite !to_of_bytes in E. Qed.

Definition links_check (fs : FS) : bool :=
  forallb (λ pe, match pe.2 with
    | EFile (Some fi) => bool_decide (fi_nlink fi = Z.of_nat (size (links fs (id_of fi)))) &&
        ((0 <=? fi_dev fi) && (fi_dev fi <? 2 ^ 64) && (0 <=? fi_ino fi) && (fi_ino fi <? 2 ^ 64))%Z
    | _ => true end) (map_to_list (fs : gmap path entry)).

Lemma links_checked fs : links_check fs = true → links_ok fs.
Proof.
  unfold links_check. rewrite forallb_forall. intros Hc p fi Hp.
  assert ((p, EFile (Some fi)) ∈ map_to_list (fs : gmap path entry)) as Hin%list_elem_of_In by by apply elem_of_map_to_list.
  specialize (Hc _ Hin). cbn in Hc. apply andb_true_iff in Hc as [Hn%bool_decide_eq_true Hr]. split; [done|]. split; cbn; lia.
Qed.

Definition linked (ino n : Z) : entry := EFile (Some (MkInfo 100 0 1 ino n)).

(** A film in two torrents, one that is also in a library, and one that is not
    linked. *)
Definition sample_links : FS := list_to_map
  [([], EDir None); (["d"], EDir None); (["d"; "a.mkv"], linked 7 2); (["d"; "b.mkv"], linked 7 2); (["d"; "c.mkv"], linked 8 2);
   (["d"; "e.mkv"], linked 9 1); (["lib"], EDir None); (["lib"; "c.mkv"], linked 8 2)].

Definition saved_at (hash savePath : string) : Torrent :=
  MkTorrent 0 0 false f64_zero "" "" 0 0 "" "" 0 0 "" 0 0 0 false false hash "" "" f64_zero false
    0 "" f64_zero 0 0 "" 0 0 0 0 0 f64_zero f64_zero f64_zero 0 savePath 0 0 0 "" "" 0 false 0 ""
    false "" 0 0 "" 0 0 0 0 0 [].

Definition sample_torrents : list Torrent := [saved_at "A" "/d"; saved_at "B" "/d/"; saved_at "C" "/d"; saved_at "E" "/d"].
Definition sample_files : gmap string (list string) :=
  {["A" := ["a.mkv"]; "B" := ["x/../b.mkv"]; "C" := ["c.mkv"]; "E" := ["e.mkv"]]}.
Definition sample_index : HardlinkIndex := index_of no_faults sample_links key_order sample_torrents sample_files "" true 0.

Lemma sample_wf : fs_wf sample_links.
Proof. apply fs_wf_checked. by vm_compute. Qed.
Lemma sample_links_ok : links_ok sample_links.
Proof. apply links_checked. by vm_compute. Qed.

Lemma hardlink_copies_exact_witness :
  GetHardlinkCopies sample_index "A" = ["B"] ∧ GetHardlinkCopies sample_index "C" = [] ∧
  closed no_faults sample_links sample_torrents sample_files [MkFileID 1 7].
Proof.
  assert (GetHardlinkCopies sample_index "A" = ["B"]) as E by by vm_compute. split; [exact E|]. split; [by vm_compute|].
  assert ("B" ∈ GetHardlinkCopies sample_index "A") as Hin by (rewrite E; by left).
  apply (hardlink_copies_exact no_faults sample_links key_order sample_torrents sample_files sample_wf sample_links_ok "" true 0 "A" "B"
    (NoSum_no_collision _ _ _ _)) in Hin as (_ & ids & ids' & Hf & _ & _ & _ & Hc).
  assert (ids = [MkFileID 1 7]) as ->; [|exact Hc].
  assert (files_of no_faults sample_links sample_torrents sample_files "A" = Some [MkFileID 1 7]) as Hf' by by vm_compute. congruence.
Defined.

Lemma hardlink_scope_exact_witness :
  GetHardlinkScope sample_index "C" = HardlinkScopeOutsideQBitTorrent ∧
  ¬ closed no_faults sample_links sample_torrents sample_files [MkFileID 1 8] ∧
  (∀ id, id ∈ [MkFileID 1 9] → ¬ shared_id sample_links id).
Proof.
  pose proof (hardlink_scope_exact no_faults sample_links key_order sample_torrents sample_files sample_wf sample_links_ok "" true 0) as Hx.
  cbv zeta in Hx. fold sample_index in Hx.
  assert (GetHardlinkScope sample_index "C" = HardlinkScopeOutsideQBitTorrent) as E by by vm_compute. split; [exact E|]. split.
  - assert (files_of no_faults sample_links sample_torrents sample_files "C" = Some [MkFileID 1 8]) as Hf by by vm_compute.
    destruct (proj2 (Hx "C") _ Hf) as (Hn & _ & _); [discriminate|]. intros Hc. exact (proj2 Hn Hc E).
  - assert (files_of no_faults sample_links sample_torrents sample_files "E" = Some [MkFileID 1 9]) as Hf by by vm_compute.
    destruct (proj2 (Hx "E") _ Hf) as (_ & Hn & _); [discriminate|]. apply (proj1 Hn). by vm_compute.
Defined.

(** Another instance has the film of the library. *)
Definition library_instance : list other_instance :=
  [MkOther (Some [("L", "/lib")]) (Some {["L" := ["c.mkv"]]}); MkOther None None].

Lemma cross_scope_sound_witness :
  let idx' := augmentCrossInstanceScope no_faults sample_links key_order (Some library_instance) (λ _, false) false sample_index in
  GetHardlinkScope sample_index "C" = HardlinkScopeOutsideQBitTorrent ∧ GetHardlinkCrossScope idx' "C" = HardlinkScopeTorrentsOnly ∧
  ∀ q, q ∈ links sample_links (MkFileID 1 8) →
    reached no_faults sample_links sample_torrents sample_files q ∨ elsewhere no_faults sample_links library_instance (abs_path q).
Proof.
  cbv zeta. split; [by vm_compute|].
  assert (GetHardlinkCrossScope (augmentCrossInstanceScope no_faults sample_links key_order (Some library_instance) (λ _, false) false sample_index) "C"
    = HardlinkScopeTorrentsOnly) as E by by vm_compute. split; [exact E|].
  pose proof (cross_scope_sound no_faults sample_links key_order sample_torrents sample_files sample_wf sample_links_ok library_instance "" 0
    true (λ _, false) false "C" [MkFileID 1 8]) as Hx. cbv zeta in Hx. fold sample_index in Hx.
  change (if true then Some library_instance else None) with (Some library_instance) in Hx. rewrite E in Hx.
  destruct Hx as [_ Hx]; [by vm_compute|done|done|]. intros q Hq. apply (Hx ltac:(discriminate) (MkFileID 1 8)); [by left|exact Hq].
Defined.
End runs.
