(* ===== verification/CrossBatch.v ===== *)
(** * [internal/services/crossseed/batch_matching.go]: which torrents are cross-seeded?

    The conditions of automation rules ask for every torrent of an instance
    whether another torrent, here or on another instance, has the same content.
    The comparison of all pairs goes through three indexes: content path, name,
    and key of the release.  With [pkg/pathcmp], which normalises the paths. *)

From Stdlib Require Import ZArith Lia Ascii SpecFloat.
From stdpp Require Import base numbers list strings gmap sorting.
From S2P Require Import Prelude.
From S2P Require Import GoStrings.
From S2P Require Import GoFloat.
From S2P Require Import GoPath.
From S2P Require Import Normalizer.
From S2P Require Import UnicodeText.
From S2P Require Import Domain.
From S2P Require Import FileAlign.
From S2P Require Import ListingSort.
From S2P Require Import OrphanScan.
From S2P Require Import CrossRelease.
From S2P Require Import CrossMatch.

Open Scope qui_scope.

(** ** [pkg/pathcmp] *)

Definition is_letter (c : ascii) : bool :=
  let n := nat_of_ascii c in ((65 <=? n) && (n <=? 90) || (97 <=? n) && (n <=? 122))%nat.

Definition IsWindowsDriveAbs (p : string) : bool :=
  match to_bytes p with
  | c :: d :: e :: _ => is_letter c && bool_decide (d = ":"%char) && bool_decide (e = "/"%char)
  | _ => false
  end.

(** The drive and what follows it. *)
Definition split_drive (p : string) : option (string * string) :=
  match to_bytes p with
  | c :: d :: rest => if is_letter c && bool_decide (d = ":"%char) then Some (of_bytes [c; d], of_bytes rest) else None
  | _ => None
  end.

Definition NormalizePath (p : string) : string :=
  if bool_decide (p = "") then "" else
  let p := ReplaceByte "\"%char "/"%char p in
  match split_drive p with
  | Some (drive, rest) =>
    if bool_decide (rest = "") then drive else
    let rest := Clean rest in
    if bool_decide (rest = "/") || bool_decide (rest = ".") then drive +++ "/" else drive +++ rest
  | None =>
    let p := Clean p in
    if (1 <? String.length p)%nat then TrimSuffix p "/" else p
  end.

(** ** The indexes *)

Record CrossMatchNeeds := MkNeeds { SameExists : bool; SameSeeding : bool; OtherExists : bool; OtherSeeding : bool }.

(** A set that was not computed is [nil]. *)
Record CrossMatchResult := MkCrossResult {
  SameInstanceExists : option (gset string); SameInstanceSeeding : option (gset string);
  OtherInstanceExists : option (gset string); OtherInstanceSeeding : option (gset string) }.

Record candidateEntry := MkEntry { ce_hash : string; ce_seeding : bool }.
Record releaseCandidate := MkCandidate { rc_entry : candidateEntry; rc_name : string; rc_release : Release }.

Record matchIndex := MkIndex {
  byContentPath : gmap string (list candidateEntry);
  byName : gmap string (list candidateEntry);
  byReleaseKey : gmap releaseKey (list releaseCandidate) }.

Definition new_index : matchIndex := MkIndex ∅ ∅ ∅.

(** Appends to the slice under the key. *)
Definition append_under {K A} `{Countable K} (k : K) (a : A) (m : gmap K (list A)) : gmap K (list A) :=
  <[k := default [] (m !! k) ++ [a]]> m.

Section batch.
Context `{!UnicodeCase, !UnicodeTables, !ReleaseParser}.

(** The order of maps, and whether the parser's cache gives the same release to
    two names. *)
Variable (r : MapRange) (same : string → string → bool).

Definition normalizePathForComparisonInner (value : string) : string := ToLower (NormalizePath value).
(** Behind a transparent cache. *)
Definition normalizePathForComparison (value : string) : string := normalizePathForComparisonInner value.
Definition normalizeHash (hash : string) : string := normalizeLowerTrim hash.

Definition isTorrentViewSeeding (view : CrossInstanceTorrentView) : bool :=
  let t := cv_Torrent view in
  if f64_ltb (t_Progress t) f64_one then false
  else bool_decide (t_State t ∈ [TorrentStateUploading; TorrentStateStalledUp; TorrentStateQueuedUp;
                                 TorrentStateCheckingUp; TorrentStateForcedUp]).

(** The content path, unless it is ambiguous. *)
Definition content_key (t : Torrent) : option string :=
  let contentPath := normalizePathForComparison (t_ContentPath t) in
  let savePath := normalizePathForComparison (t_SavePath t) in
  if bool_decide (contentPath = "") || bool_decide (contentPath = savePath) then None else Some contentPath.

Definition name_key (t : Torrent) : option string :=
  let name := normalizeLowerTrim (t_Name t) in if bool_decide (name = "") then None else Some name.

Definition release_key (t : Torrent) : option releaseKey :=
  let release := Parse (t_Name t) in
  if bool_decide (normalizeLowerTrim (r_Title release) = "") then None else Some (makeReleaseKey release).

Definition index_under {K A} `{Countable K} (k : option K) (a : A) (m : gmap K (list A)) : gmap K (list A) :=
  match k with Some k => append_under k a m | None => m end.

Definition indexView (needsSeeding : bool) (idx : matchIndex) (view : CrossInstanceTorrentView) : matchIndex :=
  let t := cv_Torrent view in
  let entry := MkEntry (normalizeHash (t_Hash t)) (needsSeeding && isTorrentViewSeeding view) in
  MkIndex (index_under (content_key t) entry (byContentPath idx)) (index_under (name_key t) entry (byName idx))
    (index_under (release_key t) (MkCandidate entry (t_Name t) (Parse (t_Name t))) (byReleaseKey idx)).

Definition buildIndexFromViews (views : list CrossInstanceTorrentView) (needsSeeding : bool) : option matchIndex :=
  match views with [] => None | _ => Some (foldl (indexView needsSeeding) new_index views) end.

(** ** Matching *)

(** The candidates of one index that match. *)
Definition under {K A} `{Countable K} (k : option K) (m : gmap K (list A)) : list A :=
  match k with Some k => default [] (m !! k) | None => [] end.

Definition skipped (excludeSelf : bool) (sourceHash : string) (c : candidateEntry) : bool :=
  excludeSelf && bool_decide (ce_hash c = sourceHash).

Definition note_match (acc : bool * bool) (c : candidateEntry) : bool * bool :=
  (true, ce_seeding c || acc.2).

Definition match_entries (excludeSelf : bool) (sourceHash : string) (acc : bool * bool) (cs : list candidateEntry) : bool * bool :=
  foldl (λ acc c, if skipped excludeSelf sourceHash c then acc else note_match acc c) acc cs.

Definition match_releases (excludeSelf : bool) (source : Torrent) (acc : bool * bool) (cs : list releaseCandidate) : bool * bool :=
  foldl (λ acc c,
    if skipped excludeSelf (normalizeHash (t_Hash source)) (rc_entry c) then acc
    else if bool_decide (releasesMatchWithReason r (same (t_Name source) (rc_name c)) (Parse (t_Name source)) (rc_release c) false = None)
         then note_match acc (rc_entry c) else acc) acc cs.

(** Whether there is a match, and whether one is seeding. *)
Definition matchAgainstIndex (source : Torrent) (idx : matchIndex) (excludeSelf : bool) : bool * bool :=
  let sourceHash := normalizeHash (t_Hash source) in
  let acc := match_entries excludeSelf sourceHash (false, false) (under (content_key source) (byContentPath idx)) in
  let acc := match_entries excludeSelf sourceHash acc (under (name_key source) (byName idx)) in
  match_releases excludeSelf source acc (under (release_key source) (byReleaseKey idx)).

(** ** All torrents *)

(** What a loop reaches before the context is cancelled: the number says which
    loop, and which iteration. *)
Variable (cancelled : nat → nat → bool).

Fixpoint before_cancel {A} (loop i : nat) (l : list A) : list A :=
  match l with
  | [] => []
  | a :: l => if cancelled loop i then [] else a :: before_cancel loop (S i) l
  end.

Definition match_all (loop : nat) (idx : matchIndex) (excludeSelf needsSeeding : bool) (views : list CrossInstanceTorrentView)
    : gset string * option (gset string) :=
  foldl (λ acc view,
    let source := cv_Torrent view in
    let '(matched, matchSeeding) := matchAgainstIndex source idx excludeSelf in
    if matched then
      ({[t_Hash source]} ∪ acc.1,
       if needsSeeding && matchSeeding then (λ s, {[t_Hash source]} ∪ s) <$> acc.2 else acc.2)
    else acc)
    (∅, if needsSeeding then Some ∅ else None) (before_cancel loop 0 views).

(** The torrents the sync manager has cached for an instance, and the store of
    the instances. *)
Variable (GetCachedInstanceTorrents : Z → result (list CrossInstanceTorrentView)).
Variable (ListInstances : result (list Instance)).

(** The instances in another loop stop it before they are looked at when they
    are reached after a cancellation. *)
Fixpoint reached_instances (currentInstanceID : Z) (i : nat) (instances : list Instance) : list Instance :=
  match instances with
  | [] => []
  | inst :: instances =>
    if bool_decide (in_ID inst = currentInstanceID) || negb (in_IsActive inst) then reached_instances currentInstanceID (S i) instances
    else if cancelled 1 i then [] else inst :: reached_instances currentInstanceID (S i) instances
  end.

Definition views_of (inst : Instance) : list CrossInstanceTorrentView :=
  match GetCachedInstanceTorrents (in_ID inst) with Ok views => views | Err _ => [] end.


Definition buildOtherInstanceIndex (instances : list Instance) (currentInstanceID : Z) (needsSeeding : bool) : option matchIndex :=
  foldl (λ acc inst, match acc, views_of inst with
                     | acc, [] => acc
                     | acc, views => Some (foldl (indexView needsSeeding) (default new_index acc) views)
                     end) None (reached_instances currentInstanceID 0 instances).

Definition no_result : CrossMatchResult := MkCrossResult None None None None.

Definition BuildCrossMatchSets (currentInstanceID : Z) (needs : CrossMatchNeeds) : CrossMatchResult :=
  let needsSame := SameExists needs || SameSeeding needs in
  let needsOther := OtherExists needs || OtherSeeding needs in
  if negb needsSame && negb needsOther then no_result else
  match GetCachedInstanceTorrents currentInstanceID with
  | Err _ => no_result
  | Ok currentTorrents =>
    let result :=
      if needsSame then
        match buildIndexFromViews currentTorrents (SameSeeding needs) with
        | Some idx =>
          let '(matched, seeding) := match_all 0 idx true (SameSeeding needs) currentTorrents in
          MkCrossResult (Some matched) seeding None None
        | None => no_result
        end
      else no_result in
    if needsOther then
      match ListInstances with
      | Err _ => result
      | Ok instances =>
        match buildOtherInstanceIndex instances currentInstanceID (OtherSeeding needs) with
        | Some idx =>
          let '(matched, seeding) := match_all 2 idx false (OtherSeeding needs) currentTorrents in
          MkCrossResult (SameInstanceExists result) (SameInstanceSeeding result) (Some matched) seeding
        | None => result
        end
      end
    else result
  end.
End batch.

(** ** What the indexes find *)

Section exact.
Context `{!UnicodeCase, !UnicodeTables, !ReleaseParser}.
Context (r : MapRange) (same : string → string → bool).















(** *** The loops over candidates *)





















(** *** All sets *)

Context (cancelled : nat → nat → bool).
Context (GetCachedInstanceTorrents : Z → result (list CrossInstanceTorrentView)) (ListInstances : result (list Instance)).














End exact.

(** ** Runs *)

Section runs.
#[local] Existing Instance AsciiCase.
#[local] Existing Instance AsciiTables.

(** A parser that takes a year at the end off the title. *)
Definition parse_year (name : string) : Release :=
  match List.rev (to_bytes name) with
  | d :: c :: b :: a :: "."%char :: title =>
    match digit_value a, digit_value b, digit_value c, digit_value d with
    | Some w, Some x, Some y, Some z =>
      MkParsed Movie "" (of_bytes (List.rev title)) "" "" (1000 * w + 100 * x + 10 * y + z) 0 0 0 0 "" "" "" [] [] "" [] [] [] [] []
        "" "" "" "" "" "" ""
    | _, _, _, _ => titled name
    end
  | _ => titled name
  end.
#[local] Instance YearParser : ReleaseParser := {| ParseString := parse_year; Parse := parse_year |}.

(** A seeding torrent by hash, name, content and save path. *)
Definition seeder (hash name contentPath savePath : string) : CrossInstanceTorrentView :=
  MkCrossView (MkView (MkTorrent 0 0 false f64_zero "" "" 0 0 "" contentPath 0 0 "" 0 0 0 false false hash "" "" f64_zero false
    0 "" f64_zero 0 0 name 0 0 0 0 0 f64_one f64_zero f64_zero 0 savePath 0 0 0 "" "" 0 false 0 TorrentStateUploading
    false "" 0 0 "" 0 0 0 0 0 []) None) 1 "one".



(** A film without a year matches the same film with one, but the index keeps
    them apart: the keys of releases say more than the match asks for. *)
Example year_keeps_apart :
  releasesMatch key_order false (Parse "Film.2020") (Parse "Film") false = true ∧
  (let views := [seeder "aa" "Film.2020" "/x/1" "/x"; seeder "bb" "Film" "/y/2" "/y"] in
   SameInstanceExists (BuildCrossMatchSets key_order (λ _ _, false) (λ _ _, false) (λ _, Ok views) (Ok []) 1
     (MkNeeds true false false false)) = Some ∅).
Proof. split; [by vm_compute|]. cbv zeta. apply (bool_decide_unpack _). by vm_compute. Qed.

Example NormalizePath_ex :
  NormalizePath "C:\Films\..\Shows\" = "C:/Shows" ∧ NormalizePath "C:/" = "C:/" ∧ NormalizePath "C:" = "C:" ∧
  NormalizePath "/data//x/./y/" = "/data/x/y" ∧ NormalizePath "/" = "/" ∧ IsWindowsDriveAbs "c:/x" = true.
Proof. split_and!; by vm_compute. Qed.
End runs.
